(* ===== verification/_CoqProject ===== *)
-Q . S2P
Prelude.v
Connections.v
CString.v
CFloat.v
MiscHelpers.v
Config.v
Prime.v
Resource.v
PropRegistry.v
DataTypes.v
NodeData.v
Repository.v
JobInfo.v
Sort.v
StateCount.v
QueueInfo.v
ServerInfo.v
NodeLogic.v
NodeInfo.v
JobPlan.v
NodeExpand.v
Assign.v
Check.v
RunLimits.v
PlanData.v
PlanList.v
PlanListSpec.v
PlanValues.v
PlanOrder.v
PlanGaps.v
PlanGapsSpec.v
PlanLimits.v
PlanLimitsSpec.v
PlanLimitsChecks.v
PlanTime.v
PlanClusters.v
PlanSlots.v
PlanFind.v
PlanFindSpec.v
PlanFindTotal.v
PlanUpdate.v
PlanUpdateJob.v
PlanHunt.v
PlanHuntSpec.v
PlanHuntBest.v
PlanHuntTotal.v
PlanSched.v
PlanSchedSpec.v
JobUpdate.v
PlanNodespec.v
PlanNodespecSpec.v
PlanFairshare.v
PlanEval.v
PlanEvalSpec.v
PlanOptim.v
PlanOptimSpec.v
FairshareTree.v
FairshareShape.v
FairshareSpec.v
FairshareUse.v
FairshareFiles.v
Fairshare.v
ExternalCache.v
Query.v
Cycle.v
CycleSpec.v
QuerySpec.v
FairshareOrder.v
FairshareCycle.v
PlanJobs.v
PlanJobsSpec.v
PlanRun.v
PlanRunSpec.v
Realm.v
RealmSpec.v
