(* ===== verification/Prelude.v ===== *)
(** * TorquePlanSched: a verification development

    TorquePlanSched is a scheduler for the Torque batch system.  Once per cycle
    it reads the server's jobs, queues and nodes, decides which queued jobs may
    run, chooses nodes for them, and tells the server to run them; the planning
    part keeps a schedule of all jobs for each cluster.  This development models
    the decisions: a C++ function is a function on explicit state, with the name
    it has in the source.

    ** Conventions

    - An [int], [long] or [time_t] is the integer it denotes, an arithmetic
      operation is followed by the wrap of its type ([i32], [i64], [u32], [u64],
      this file); floating point is IEEE 754 on [spec_float] (CFloat).
    - A C string is the string before the NUL (CString).  The files of the groups
      and of the holidays may hold a NUL, which ends the line it is in; the
      configuration and the dedicated times are supposed to hold none.
    - The result of code that may throw, or whose behaviour C++ leaves undefined,
      is an [outcome]: [Ret v], [Throw], or [UB].  A theorem that a function
      returns [Ret] thus says that no exception leaves it and that nothing
      undefined is done.
    - Objects that are shared and mutated are keys ([positive]) of a store
      ([gmap]): nodes, resources of a resource set, the items of the plan.
    - [r <| f := v |>] is [r] with its field [f] set to [v].
    - Loops over a container are structural; the loops whose end is not syntactic
      (strtok, list walks) carry fuel that is bounded by the data, and run out of
      it into [UB], so that a theorem that gives [Ret] also says that the fuel is
      enough.

    ** Files, what they model and what is proved

    Shared helpers.
    - Prelude: integers, the [outcome] monad, record update, tactics, facts on
      lists and comparators.
    - CString, CFloat: the C library routines on strings and numbers that the
      source calls.
    - MiscHelpers: base/MiscHelpers.cpp and the string helpers of misc.cpp.
    - Config: the configuration records and the parser of parse.cpp.  The parser
      is total and safe: it never leaves the fixed tables, except for the limit
      line without a colon, which is characterised (parse_config_safe).
    - Prime: prime.cpp, dedtime.cpp and the cycle status.  The globals are
      well-formed in every reachable state (globals_always_wf); lemmas give what
      check_prime answers exactly (check_prime_exact), and that a reload of the
      configuration loses the policies (reload_disables_policies).

    The data of a cycle.
    - Resource: resources of nodes and the dynamic resources.  A resource is
      never overcommitted (resource_never_overcommitted); by a lemma deep copies
      share nothing (copy_is_deep).
    - PropRegistry: numbering of string properties
      (register_property_correct).
    - DataTypes, JobInfo: jobs and their requests.
    - NodeData, NodeLogic, NodeInfo: nodes as the server reports them, their
      capacity checks, whether a job can run or be booted on them, and the order
      they are tried in (lemma node_order_correct).
    - NodeExpand: the virtual copies of a node, whose making is switched off in
      query_server; they become available one after the other (lemma
      copies_become_available_in_order).
    - Repository: the bootable images of legacy/site_pbs_cache_common.c.
    - StateCount, QueueInfo, ServerInfo: the counters, and lemmas that the counters
      kept incrementally are those of a recount (count_states_correct,
      queue_update_on_job_run_exact).
    - ExternalCache: the state of a cycle ([world]) and the metrics of the cache that
      misc.cpp puts into it.
    - Query: query_server of server_info.cpp with the queries of queues, jobs and
      nodes, and World::fetch_servers, which merges the jobs of other servers.
      QuerySpec: whatever the servers reply, every job is listed once and counted
      once (fetched_server_is_consistent).
    - Connections: SchedulerCore_ConnectionMgr.cpp over the table of connections of
      the batch library; none leaks (connections_never_leak).

    The decisions of a cycle.
    - Sort: the comparators and the order of the jobs (sort_jobs_correct).
    - Check: the checks of check.cpp and misc.cpp, each with all its branches.
    - Assign: nodespec.cpp, the choice of nodes.  A granted request is assigned
      to distinct nodes that pass every check, and a refused one leaves no
      assignment behind (try_assign_spec_sound).
    - JobPlan: the resources a started job takes.  A job that fits is planned
      within the capacity of its nodes, unless a property names the memory a second
      time (fitting_job_planned_within_capacity), and removing it gives everything
      back but the mark that a node is not usable (unplan_inverts_plan).
    - RunLimits: what a job that passes the checks is known to satisfy
      (job_check_sound), that starting it keeps every limit of the server and
      the queue (accepted_job_keeps_limits), and, as a lemma, which queues are
      scheduled at all (is_ok_to_run_queue_exact).
    - JobUpdate: what the server is told about jobs (job_info.cpp), with the texts
      for the reasons a job is refused.
    - Cycle: fifo.cpp (the next job) and of SchedulerRealm.cpp the start of a cycle,
      the start and the refusal of a job and the loop over the jobs.  CycleSpec: the
      limits hold throughout (cycle_keeps_limits) and the loop ends
      (scheduling_loop_ends).

    The main loops.
    - Realm: World::World, World::run and World::plan_run.  A turn wakes up, reads
      the servers, schedules with the components above and closes the connections;
      what is kept from turn to turn is a [realm], what a turn meets outside are its
      [surroundings], a parameter for each turn.
    - RealmSpec: from the start on, every turn of either loop leaves the scheduler
      in a good state (main_loops_keep_state, by induction over the turns of
      [realm_step]); a turn composes the reading, the sorting and the loop so that
      limits are kept from the reply of the server to the end of the turn
      (turn_keeps_limits).

    The plan.
    - PlanData: the records of plan_data_types.h.
    - PlanList: plan_list_operations.cpp, doubly linked lists as cells of a heap;
      each operation refines an operation on sequences.
    - PlanListSpec: the contract of the lists, and that programs of operations
      refine it (plan_list_refines_sequence).
    - PlanValues: what is stored at the nodes of the lists: the jobs, gaps and
      limits of a cluster.
    - PlanOrder: list_adjust_job_position, which keeps a plan sorted
      (adjusting_a_job_keeps_the_plan_sorted).
    - PlanGaps: gaps, the memory they offer and insert_new_gap of plan_gaps.cpp
      and plan_gaps_memory.cpp; PlanGapsSpec: inserting a gap adds exactly its
      offer (inserting_a_gap_adds_its_offer).
    - PlanLimits: plan_limits.cpp, the use of users and groups as a list of
      intervals; PlanLimitsSpec, PlanLimitsChecks: starting a job adds its use
      to exactly the intervals it overlaps
      (adding_a_job_records_its_use), a gap is accepted exactly when the job
      keeps the limits at the moments that are looked at
      (accepted_gap_keeps_limits), accounts are found or created.
    - PlanTime, PlanClusters: plan_schedule.cpp.  A time that is written is the
      time that is read (decode_time_reads_times); every node of the server has
      its place in a cluster, which counts the processors its nodes had when they
      were added (updating_clusters_places_every_node).
    - PlanSlots: plan_first_free_slot.cpp, when each processor of a cluster is
      free, and the gaps that are read off these slots.
    - PlanFind, PlanFindSpec, PlanFindTotal: the search of plan_gaps.cpp for a gap
      for a new job.  Its fuel, the number of gaps and one, is enough, and the
      gap has room for the job (found_gap_suits_the_job).
    - PlanUpdate, PlanUpdateJob: update_job of plan_operations.cpp, which plans a job
      on the processors that are free first.  PlanHunt, PlanHuntSpec, PlanHuntBest,
      PlanHuntTotal: the search ends with usable processors unless as many are left
      over as a part has (search_ends_with_usable_processors), for a job with one
      part with the earliest ones (one_part_job_starts_earliest).
    - PlanSched, PlanSchedSpec: update_sched plans a cluster anew; repeating it until
      it succeeds comes to an end (repeated_updates_end).
    - PlanNodespec, PlanNodespecSpec: the node string of a planned job
      (nodespec_names_planned_nodes).
    - PlanFairshare, PlanEval, PlanEvalSpec: plan_fairshare.cpp and
      plan_evaluation.cpp; judging a plan does not change it
      (evaluation_is_repeatable).
    - PlanOptim, PlanOptimSpec: plan_optimization.cpp; a move that did not help is
      undone (undone_move_restores_order).
    - PlanJobs, PlanJobsSpec: plan_jobs.cpp, known, running and new jobs; a job filled
      in from its request has its parts, arrays and times
      (filled_job_is_well_formed).
    - PlanRun, PlanRunSpec: World::try_run_plan and the part of a turn of plan_run
      between reading and cleaning up; the walk over the jobs ends and starts only
      jobs that are due (running_plan_ends_with_due_jobs).

    Fair share.
    - FairshareTree: logic/FairshareTree.cpp, the tree of users and groups as
      records of a store with parent, child and sibling pointers.
    - FairshareShape: the trees the pointers may describe, as an inductive
      forest, and the search for a name in it.
    - FairshareSpec, FairshareUse: the percentages are those of the recursive
      definition; a tree that is built is sound, and the lines and records that
      make it undefined are known exactly (building_a_tree_is_sound); by a lemma
      a user is found, and an unknown one is created once (looking_up_a_user);
      usage is accounted to a user and all its groups.
    - FairshareFiles: the usage that is written is the usage that is read after a
      restart (usage_survives_restart).
    - Fairshare: fairshare.cpp and the steps World takes for it.
    - FairshareOrder: the next job is one of the user who has used the smallest part
      of its share (next_fair_job_is_best).
    - FairshareCycle: the trees of a cycle never share a record
      (trees_stay_apart), and the usage is halved once for each half-life that
      has passed (fairshare_decays_once_a_half_life).

    ** Bounds and fuel

    - The walk over the gaps takes as many rounds as there are gaps, and one.
    - [hunt_fuel], n * (n + 1) + 1 for n slots: each round of update_job takes a
      slot, prohibits a node or completes a part (PlanHuntSpec).
    - [raise_fuel], (n + 1)^2 for n jobs: a walk that starts again after a removal
      (PlanSched and PlanRun; run_jobs_ends).
    - [caret_fuel] is the length of the text, [decay_fuel] the number of half-lives
      since the last decay (fairshare_decays_once_a_half_life).
    - [loop_fuel] of a turn is more than the jobs to do, which is enough by
      scheduling_loop_ends.
    - The loops of the optimisation draw at random until a draw fits, which may take
      for ever; their [patience] is a parameter, and running out of it is [UB].
    - The theorems on limits suppose that the jobs of a server, and their processors,
      can be counted in an [int].

    ** What is a parameter

    The Torque library (parse_nodespec, the batch status replies, the pbs cache,
    pbs_runjob and pbs_movejob with their answers), the network below the table of
    connections, the calendar of the C library ([localtime], [mktime]), [rand],
    [time], the order of hash tables, and the contents of files that are read are
    arguments of the definitions that use them.  Where the code relies on something
    of them it is a hypothesis of the section.  What is read without having been set
    is a parameter with a name that begins with [junk].

    ** What is not modelled

    - pbs_sched.cpp: the set-up of the process, its lock file, sockets and signals,
      and the sleeping between turns; that a signal ends the loops is the end of the
      list of turns.
    - The log: JobLog.cpp, sched_log, plan_log.cpp, evaluation_log.
    - Freeing of memory (the free_ functions, destructors, plan_free_data.cpp), except
      where the code goes on to use what was freed, which is [UB].
    - merge_node_specs and assign_all_nodes of nodespec.cpp, which are not compiled.
    - What a query that throws half-way has added to the fairshare trees and to the
      registry: the next turn adds it again.
    - The vendored headers (include/gsl) and the declarations of the batch library
      (legacy), of which only the constants that are used appear. *)

From Stdlib Require Export ZArith Lia Bool Ascii String.
From stdpp Require Export base decidable option numbers strings gmap.
From stdpp Require Export list.

Declare Scope sched_scope.
Delimit Scope sched_scope with sched.
Open Scope Z_scope.

(** ** Fixed-width integers

    A C integer is the integer it denotes; an arithmetic operation is the
    operation on [Z] followed by the wrap of its type.  Signed overflow, which
    the C++ standard leaves undefined, is the two's complement wrap the build
    of the program exhibits. *)

Definition wrap_s (w z : Z) : Z := (z + 2 ^ (w - 1)) mod 2 ^ w - 2 ^ (w - 1).
Definition wrap_u (w z : Z) : Z := z mod 2 ^ w.

Abbreviation i64 := (wrap_s 64).
Abbreviation i32 := (wrap_s 32).
Abbreviation u64 := (wrap_u 64).
Abbreviation u32 := (wrap_u 32).

Definition in_s (w z : Z) : Prop := - 2 ^ (w - 1) <= z < 2 ^ (w - 1).
Definition in_u (w z : Z) : Prop := 0 <= z < 2 ^ w.

#[export] Instance in_s_dec w z : Decision (in_s w z).
Proof. unfold in_s. apply _. Defined.
#[export] Instance in_u_dec w z : Decision (in_u w z).
Proof. unfold in_u. apply _. Defined.

Create HintDb sched discriminated.
Create Rewrite HintDb sched_rw.

Lemma pow2_double (w : Z) : 0 < w -> 2 ^ w = 2 * 2 ^ (w - 1).
Proof. intros Hw. rewrite <- Z.pow_succ_r by lia. f_equal; lia. Qed.

Lemma pow2_pos (w : Z) : 0 <= w -> 0 < 2 ^ w.
Proof. intros. apply Z.pow_pos_nonneg; lia. Qed.

#[export] Hint Resolve pow2_pos : sched.

(** Both wraps are a reduction modulo [2^w]; every algebraic fact about them
    follows from this one. *)
Lemma wrap_s_mod (w z : Z) : 0 < w -> (wrap_s w z) mod 2 ^ w = z mod 2 ^ w.
Proof.
  intros Hw. unfold wrap_s. pose proof (pow2_pos w ltac:(lia)).
  rewrite Zminus_mod_idemp_l. f_equal. lia.
Qed.

Lemma wrap_s_eq_mod (w a b : Z) :
  0 < w -> a mod 2 ^ w = b mod 2 ^ w -> wrap_s w a = wrap_s w b.
Proof.
  intros Hw H. unfold wrap_s.
  rewrite <- (Zplus_mod_idemp_l a), <- (Zplus_mod_idemp_l b), H. done.
Qed.

Lemma wrap_s_range (w z : Z) : 0 < w -> in_s w (wrap_s w z).
Proof.
  intros Hw. unfold in_s, wrap_s. pose proof (pow2_double w Hw).
  pose proof (Z.mod_pos_bound (z + 2 ^ (w - 1)) (2 ^ w) ltac:(apply pow2_pos; lia)).
  lia.
Qed.

Lemma wrap_s_id (w z : Z) : 0 < w -> in_s w z -> wrap_s w z = z.
Proof.
  intros Hw [H1 H2]. unfold wrap_s. pose proof (pow2_double w Hw).
  rewrite Z.mod_small; lia.
Qed.

Lemma wrap_s_idemp (w z : Z) : 0 < w -> wrap_s w (wrap_s w z) = wrap_s w z.
Proof. intros. apply wrap_s_id; [done|by apply wrap_s_range]. Qed.

Lemma wrap_s_add_l (w a b : Z) : 0 < w -> wrap_s w (wrap_s w a + b) = wrap_s w (a + b).
Proof.
  intros Hw. apply wrap_s_eq_mod; [done|].
  rewrite <- Zplus_mod_idemp_l, wrap_s_mod, Zplus_mod_idemp_l by done. done.
Qed.

Lemma wrap_s_sub_l (w a b : Z) : 0 < w -> wrap_s w (wrap_s w a - b) = wrap_s w (a - b).
Proof.
  intros Hw. apply wrap_s_eq_mod; [done|].
  rewrite <- Zminus_mod_idemp_l, wrap_s_mod, Zminus_mod_idemp_l by done. done.
Qed.

Lemma wrap_s_sub_r (w a b : Z) : 0 < w -> wrap_s w (a - wrap_s w b) = wrap_s w (a - b).
Proof.
  intros Hw. apply wrap_s_eq_mod; [done|].
  rewrite <- Zminus_mod_idemp_r, wrap_s_mod, Zminus_mod_idemp_r by done. done.
Qed.

Lemma wrap_s_mul_l (w a b : Z) : 0 < w -> wrap_s w (wrap_s w a * b) = wrap_s w (a * b).
Proof.
  intros Hw. apply wrap_s_eq_mod; [done|].
  rewrite <- Zmult_mod_idemp_l, wrap_s_mod, Zmult_mod_idemp_l by done. done.
Qed.

Lemma i64_id (z : Z) : in_s 64 z -> i64 z = z.
Proof. apply wrap_s_id; lia. Qed.
Lemma i32_id (z : Z) : in_s 32 z -> i32 z = z.
Proof. apply wrap_s_id; lia. Qed.
Lemma u64_id (z : Z) : in_u 64 z -> u64 z = z.
Proof. apply Z.mod_small. Qed.
Lemma u32_id (z : Z) : in_u 32 z -> u32 z = z.
Proof. apply Z.mod_small. Qed.

#[export] Hint Resolve wrap_s_range i64_id i32_id u64_id u32_id : sched.
#[export] Hint Unfold in_s in_u : sched.

(** [wrap_lia] removes the wraps of terms whose range [lia] can establish. *)
Ltac in_range :=
  unfold in_s, in_u in *;
  change (2 ^ (64 - 1)) with 9223372036854775808 in *;
  change (2 ^ (32 - 1)) with 2147483648 in *;
  change (2 ^ 64) with 18446744073709551616 in *;
  change (2 ^ 32) with 4294967296 in *;
  change (2 ^ 31) with 2147483648 in *;
  lia.

Ltac wrap_simpl :=
  repeat match goal with
  | |- context [wrap_s 64 ?z] => rewrite (i64_id z) by in_range
  | |- context [wrap_s 32 ?z] => rewrite (i32_id z) by in_range
  | |- context [wrap_u 64 ?z] => rewrite (u64_id z) by in_range
  | |- context [wrap_u 32 ?z] => rewrite (u32_id z) by in_range
  end.

(** ** Case analysis

    [case_bools] splits on every condition the goal branches on and turns the
    boolean comparisons of the code into the propositions they decide. *)
Ltac to_props :=
  repeat match goal with
  | H : (_ <? _) = true |- _ => apply Z.ltb_lt in H
  | H : (_ <? _) = false |- _ => apply Z.ltb_ge in H
  | H : (_ <=? _) = true |- _ => apply Z.leb_le in H
  | H : (_ <=? _) = false |- _ => apply Z.leb_gt in H
  | H : (_ =? _) = true |- _ => apply Z.eqb_eq in H
  | H : (_ =? _) = false |- _ => apply Z.eqb_neq in H
  | H : (_ >? _) = true |- _ => rewrite Z.gtb_ltb in H
  | H : (_ >? _) = false |- _ => rewrite Z.gtb_ltb in H
  | H : (_ >=? _) = true |- _ => rewrite Z.geb_leb in H
  | H : (_ >=? _) = false |- _ => rewrite Z.geb_leb in H
  | H : (_ && _) = true |- _ => apply andb_true_iff in H as [??]
  | H : (_ || _) = false |- _ => apply orb_false_iff in H as [??]
  | H : negb _ = true |- _ => apply negb_true_iff in H
  | H : negb _ = false |- _ => apply negb_false_iff in H
  | H : bool_decide _ = true |- _ => apply bool_decide_eq_true in H
  | H : bool_decide _ = false |- _ => apply bool_decide_eq_false in H
  end.

Ltac case_bools :=
  repeat match goal with
  | |- context [if ?b then _ else _] =>
      match type of b with
      | bool => let E := fresh "Eb" in destruct b eqn:E
      | sumbool _ _ => destruct b
      | Decision _ => destruct b
      end
  end; to_props.

(** ** Record update

    [r <| f := v |>] is [r] with its field [f] replaced, the model of a member
    assignment.  A record declares its constructor and fields once, as an
    instance of [Fields]; the updates are derived from it. *)
Class Fields (R : Type) := rebuild : R -> R.

Definition fields_const {R T} (x : T) : R -> T := fun _ => x.
Definition fields_app {R A B} (f : R -> A -> B) (g : R -> A) : R -> B := fun r => f r (g r).

Class Update {R T : Type} (field : R -> T) := update : (T -> T) -> R -> R.

Ltac derive_update :=
  match goal with
  | |- @Update ?R ?T ?field =>
      let inst := constr:(_ : Fields R) in
      let body := eval red in inst in
      let f := fresh "f" in
      intro f;
      lazymatch body with
      | context c [field] =>
          let t := context c [fun r : R => f (field r)] in
          let t' := eval cbv beta delta [fields_const fields_app] in t in
          exact t'
      end
  end.

#[export] Hint Extern 1 (Update _) => derive_update : typeclass_instances.

Notation "r <| f := v |>" := (update (field := f) (fun _ => v) r)
  (at level 12, left associativity, format "r  <|  f  :=  v  |>").

(** ** Outcomes

    [Throw] is a C++ exception, [UB] an operation the language leaves
    undefined (a null dereference, an access past the end of an array). *)
Inductive outcome (A : Type) : Type :=
| Ret (a : A)
| Throw (what : string)
| UB.
Arguments Ret {A} a.
Arguments Throw {A} what.
Arguments UB {A}.

Definition obind {A B} (x : outcome A) (f : A -> outcome B) : outcome B :=
  match x with Ret a => f a | Throw w => Throw w | UB => UB end.

Definition of_option {A} (x : option A) : outcome A :=
  match x with Some a => Ret a | None => UB end.

(** What a loop comes to that does not end within the turns it is given. *)
Definition endless {A} : outcome A := Throw "endless".

Notation "'let!' x := e 'in' k" := (obind e (fun x => k))
  (at level 200, x pattern, e at level 100, k at level 200, right associativity) : sched_scope.

(** The loop of a handler over a list, stopping at the first failure. *)
Fixpoint ofold {A B} (f : B -> A -> outcome B) (l : list A) (b : B) : outcome B :=
  match l with
  | [] => Ret b
  | a :: l' => match f b a with Ret b' => ofold f l' b' | Throw w => Throw w | UB => UB end
  end.

Lemma ofold_app {A B} (f : B -> A -> outcome B) l1 l2 b :
  ofold f (l1 ++ l2) b = obind (ofold f l1 b) (ofold f l2).
Proof. revert b. induction l1 as [|a l1 IH]; intros b; simpl; [done|]. by destruct (f b a). Qed.

(** An invariant of the body of a loop is an invariant of the loop. *)
Lemma ofold_invariant {A B} (f : B -> A -> outcome B) (I : B -> Prop) l b b' :
  (forall b a b', I b -> a ∈ l -> f b a = Ret b' -> I b') ->
  I b -> ofold f l b = Ret b' -> I b'.
Proof.
  revert b. induction l as [|a l IH]; intros b Hf Hb; simpl; [by intros [= <-]|].
  destruct (f b a) as [b1|w|] eqn:E; [|done..]. apply IH.
  - intros b2 a2 b3 H1 H2. apply Hf; [done|by right].
  - apply (Hf b a); [done|by left|done].
Qed.

(** ** Lists *)

(** [find_first p l] is the value the loops of the shape
    [for (i...) if (p(l[i])) return l[i]] return. *)
Fixpoint find_first {A} (p : A -> bool) (l : list A) : option A :=
  match l with
  | [] => None
  | x :: l' => if p x then Some x else find_first p l'
  end.

Lemma find_first_Some {A} (p : A -> bool) l x :
  find_first p l = Some x <->
  exists l1 l2, l = l1 ++ x :: l2 /\ p x = true /\ Forall (fun y => p y = false) l1.
Proof.
  split.
  - induction l as [|y l IH]; simpl; [done|]. destruct (p y) eqn:E.
    + intros [= ->]. exists [], l. eauto.
    + intros H. destruct (IH H) as (l1 & l2 & -> & Hx & Hl1).
      exists (y :: l1), l2. eauto.
  - intros (l1 & l2 & -> & Hx & Hl1). induction Hl1; simpl; [by rewrite Hx|].
    by rewrite H.
Qed.

Lemma find_first_None {A} (p : A -> bool) l :
  find_first p l = None <-> Forall (fun y => p y = false) l.
Proof.
  induction l as [|y l IH]; simpl; [done|]. destruct (p y) eqn:E.
  - split; [done|]. intros H. inversion H; congruence.
  - rewrite IH. split; [by constructor|]. by inversion 1.
Qed.

Lemma existsb_find_first {A} (p : A -> bool) l :
  existsb p l = match find_first p l with Some _ => true | None => false end.
Proof. induction l as [|y l IH]; simpl; [done|]. by destruct (p y). Qed.

(** Sum of the images of the elements of a list. *)
Definition sumZ {A} (f : A -> Z) (l : list A) : Z := fold_right (fun x s => f x + s) 0 l.

Lemma sumZ_app {A} (f : A -> Z) l1 l2 : sumZ f (l1 ++ l2) = sumZ f l1 + sumZ f l2.
Proof. induction l1; simpl; lia. Qed.

Lemma sumZ_cons {A} (f : A -> Z) x l : sumZ f (x :: l) = f x + sumZ f l.
Proof. done. Qed.

Lemma sumZ_nonneg {A} (f : A -> Z) l : Forall (fun x => 0 <= f x) l -> 0 <= sumZ f l.
Proof. induction 1; simpl; lia. Qed.

Lemma sumZ_perm {A} (f : A -> Z) l1 l2 : l1 ≡ₚ l2 -> sumZ f l1 = sumZ f l2.
Proof. induction 1; simpl; lia. Qed.

Lemma sumZ_ext {A} (f g : A -> Z) l :
  (forall x, x ∈ l -> f x = g x) -> sumZ f l = sumZ g l.
Proof.
  intros H. induction l as [|x l IH]; simpl; [done|].
  rewrite H by set_solver. rewrite IH; [done|]. set_solver.
Qed.

#[export] Hint Rewrite @sumZ_app @sumZ_cons : sched_rw.

(** ** Lexicographic orders

    The comparators of the program compare one field after the other; each is
    the lexicographic order of a list of integers, refined by a last key. *)

Fixpoint lex (a b : list Z) : comparison :=
  match a, b with
  | x :: a', y :: b' => match x ?= y with Eq => lex a' b' | o => o end
  | [], [] => Eq
  | [], _ :: _ => Lt
  | _ :: _, [] => Gt
  end.

Lemma lex_antisym a b : lex b a = CompOpp (lex a b).
Proof.
  revert b. induction a as [|x a IH]; intros [|y b]; simpl; try done.
  rewrite (Z.compare_antisym x y). destruct (x ?= y); simpl; [apply IH|done..].
Qed.

Lemma lex_eq a b : lex a b = Eq <-> a = b.
Proof.
  revert b. induction a as [|x a IH]; intros [|y b]; simpl; try done.
  destruct (Z.compare_spec x y) as [->|H|H]; [rewrite IH|..]; split; try done.
  - by intros ->.
  - by intros [= ->].
  - intros [= -> ->]. lia.
  - intros [= -> ->]. lia.
Qed.

Lemma lex_refl a : lex a a = Eq.
Proof. by apply lex_eq. Qed.

Lemma lex_trans a b c : lex a b = Lt -> lex b c = Lt -> lex a c = Lt.
Proof.
  revert b c. induction a as [|x a IH]; intros [|y b] [|z c]; simpl; try done.
  destruct (Z.compare_spec x y) as [Hxy|Hxy|Hxy], (Z.compare_spec y z) as [Hyz|Hyz|Hyz]; try done;
    destruct (Z.compare_spec x z); try lia; try done. apply IH.
Qed.

(** What [std::sort] requires of a comparator, and what makes the result of
    sorting independent of the algorithm up to indistinguishable elements. *)
Record StrictWeakOrder {A} (lt : A -> A -> bool) : Prop := {
  swo_irrefl : forall x, lt x x = false;
  swo_trans : forall x y z, lt x y = true -> lt y z = true -> lt x z = true;
  swo_incomp : forall x y z, lt x y = false -> lt y x = false ->
                 lt y z = false -> lt z y = false -> lt x z = false /\ lt z x = false
}.

Lemma swo_asym {A} (lt : A -> A -> bool) :
  StrictWeakOrder lt -> forall x y, lt x y = true -> lt y x = false.
Proof.
  intros [Hi Ht _] x y H. destruct (lt y x) eqn:E; [|done].
  pose proof (Ht _ _ _ H E) as Hx. by rewrite Hi in Hx.
Qed.

(** A comparator that compares integer keys, and a second strict weak order
    where they agree, is a strict weak order. *)
Definition lex_then {A} (key : A -> list Z) (lt : A -> A -> bool) (x y : A) : bool :=
  match lex (key x) (key y) with Lt => true | Gt => false | Eq => lt x y end.

Lemma lex_then_swo {A} (key : A -> list Z) (lt : A -> A -> bool) :
  StrictWeakOrder lt -> StrictWeakOrder (lex_then key lt).
Proof.
  intros [Hi Ht Hn]. unfold lex_then. split.
  - intros x. by rewrite lex_refl.
  - intros x y z. destruct (lex (key x) (key y)) eqn:E1; try done;
      destruct (lex (key y) (key z)) eqn:E2; try done.
    + apply lex_eq in E1 as ->. rewrite E2. apply Ht.
    + apply lex_eq in E1 as ->. by rewrite E2.
    + apply lex_eq in E2 as <-. by rewrite E1.
    + by rewrite (lex_trans _ _ _ E1 E2).
  - intros x y z. rewrite (lex_antisym (key x) (key y)), (lex_antisym (key y) (key z)),
      (lex_antisym (key x) (key z)).
    destruct (lex (key x) (key y)) eqn:E1; try done; destruct (lex (key y) (key z)) eqn:E2; try done.
    apply lex_eq in E1 as ->. rewrite E2. simpl. intros. by apply (Hn x y z).
Qed.

Lemma trivial_swo {A} : StrictWeakOrder (fun _ _ : A => false).
Proof. split; done. Qed.

Lemma swo_ext {A} (lt lt' : A -> A -> bool) :
  (forall x y, lt x y = lt' x y) -> StrictWeakOrder lt -> StrictWeakOrder lt'.
Proof. intros H [Hi Ht Hn]. split; intros *; rewrite <- ?H; eauto. Qed.

Lemma swo_on {A B} (f : A -> B) (lt : B -> B -> bool) :
  StrictWeakOrder lt -> StrictWeakOrder (fun x y => lt (f x) (f y)).
Proof. intros [Hi Ht Hn]. split; intros *; eauto. Qed.

Lemma swo_flip {A} (lt : A -> A -> bool) : StrictWeakOrder lt -> StrictWeakOrder (fun x y => lt y x).
Proof.
  intros [Hi Ht Hn]. split; [done|eauto|]. intros x y z ????. by destruct (Hn z y x).
Qed.

(** The second order decides where the first leaves elements incomparable. *)
Definition then_lt {A} (lt1 lt2 : A -> A -> bool) (x y : A) : bool :=
  if lt1 x y then true else if lt1 y x then false else lt2 x y.

Lemma then_lt_swo {A} (lt1 lt2 : A -> A -> bool) :
  StrictWeakOrder lt1 -> StrictWeakOrder lt2 -> StrictWeakOrder (then_lt lt1 lt2).
Proof.
  intros H1 H2. pose proof (swo_asym lt1 H1) as Has.
  destruct H1 as [Hi Ht Hn], H2 as [Hi2 Ht2 Hn2].
  assert (Hl : forall x y z, lt1 x y = true -> lt1 y z = false -> lt1 z y = false -> lt1 x z = true).
  { intros x y z H H' H''. destruct (lt1 x z) eqn:E; [done|]. destruct (lt1 z x) eqn:E'.
    - by rewrite (Ht _ _ _ E' H) in H''.
    - destruct (Hn x z y E E' H'' H'). congruence. }
  assert (Hr : forall x y z, lt1 x y = false -> lt1 y x = false -> lt1 y z = true -> lt1 x z = true).
  { intros x y z H H' H''. destruct (lt1 x z) eqn:E; [done|]. destruct (lt1 z x) eqn:E'.
    - by rewrite (Ht _ _ _ H'' E') in H'.
    - destruct (Hn y x z H' H E E'). congruence. }
  unfold then_lt. split.
  - intros x. by rewrite Hi, Hi2.
  - intros x y z. destruct (lt1 x y) eqn:E1.
    + intros _. destruct (lt1 y z) eqn:E2; [by rewrite (Ht _ _ _ E1 E2)|].
      destruct (lt1 z y) eqn:E3; [done|]. by rewrite (Hl _ _ _ E1 E2 E3).
    + destruct (lt1 y x) eqn:E1'; [done|]. intros H. destruct (lt1 y z) eqn:E2.
      { by rewrite (Hr _ _ _ E1 E1' E2). }
      destruct (lt1 z y) eqn:E3; [done|]. destruct (Hn x y z E1 E1' E2 E3) as [-> ->]. eauto.
  - intros x y z.
    destruct (lt1 x y) eqn:E1, (lt1 y x) eqn:E1', (lt1 y z) eqn:E2, (lt1 z y) eqn:E3; try done.
    destruct (Hn x y z E1 E1' E2 E3) as [-> ->]. eauto.
Qed.

(** ** Sorting

    [std::sort] returns a permutation ordered by the comparator; for a
    comparator that never ties it is the only one.  Insertion sort computes it. *)

Fixpoint insert_sorted {A} (lt : A -> A -> bool) (x : A) (l : list A) : list A :=
  match l with
  | [] => [x]
  | y :: l' => if lt y x then y :: insert_sorted lt x l' else x :: l
  end.

Fixpoint isort {A} (lt : A -> A -> bool) (l : list A) : list A :=
  match l with [] => [] | x :: l' => insert_sorted lt x (isort lt l') end.

Lemma insert_sorted_perm {A} (lt : A -> A -> bool) x l : insert_sorted lt x l ≡ₚ x :: l.
Proof.
  induction l as [|y l IH]; simpl; [done|]. destruct (lt y x); [|done].
  rewrite IH. apply Permutation_swap.
Qed.

Lemma isort_perm {A} (lt : A -> A -> bool) l : isort lt l ≡ₚ l.
Proof. induction l as [|x l IH]; simpl; [done|]. by rewrite insert_sorted_perm, IH. Qed.

(** No element comes before a smaller one. *)
Fixpoint ordered {A} (lt : A -> A -> bool) (l : list A) : Prop :=
  match l with [] => True | x :: l' => Forall (fun y => lt y x = false) l' /\ ordered lt l' end.

Lemma insert_sorted_ordered {A} (lt : A -> A -> bool) x l :
  StrictWeakOrder lt -> ordered lt l -> ordered lt (insert_sorted lt x l).
Proof.
  intros Hlt. induction l as [|y l IH]; simpl; [done|]. intros [Hy Hl].
  destruct (lt y x) eqn:E; simpl.
  - split; [|by apply IH]. rewrite insert_sorted_perm. constructor; [|done].
    by apply (swo_asym lt Hlt).
  - split; [|done]. constructor; [done|]. eapply Forall_impl; [exact Hy|].
    intros z Hz. simpl in Hz. destruct (lt z x) eqn:Ezx; [|done].
    destruct (lt x y) eqn:Exy.
    + by rewrite (swo_trans lt Hlt _ _ _ Ezx Exy) in Hz.
    + destruct (lt y z) eqn:Eyz.
      * by rewrite (swo_trans lt Hlt _ _ _ Eyz Ezx) in E.
      * destruct (swo_incomp lt Hlt z y x Hz Eyz E Exy). congruence.
Qed.

Lemma isort_ordered {A} (lt : A -> A -> bool) l : StrictWeakOrder lt -> ordered lt (isort lt l).
Proof. intros H. induction l; simpl; [done|]. by apply insert_sorted_ordered. Qed.
