(* ===== verification/Connections.v ===== *)
(** * Connections to the servers: SchedulerCore_ConnectionMgr.cpp

    The table of connections is the one of the batch system library; the manager
    keeps the connection of each server by the full name of its host.  Name
    resolution and sockets are parameters. *)

From Stdlib Require Import ZArith Lia Bool Ascii String.
From S2P Require Import Prelude.

Local Open Scope string_scope.
Open Scope Z_scope.
Local Open Scope sched_scope.

(** ** The table of connections *)

Definition PBS_NET_MAX_CONNECTIONS : Z := 10240.

(** [connection]: the socket of each entry in use. *)
Abbreviation conn_table := (list (option Z)).

(** [getaddrinfo] answers the canonical name, or sets [errno] or not. *)
Record addr_reply := mkReply { canonname : option string; reply_errno : Z }.

Record ConnectionMgr := mkConns {
  p_connections : gmap string Z;
  p_master : string;
  connection : conn_table
}.

#[export] Instance ConnectionMgr_fields : Fields ConnectionMgr :=
  fields_app (fields_app (fields_app (fields_const mkConns) p_connections) p_master) connection.

(** The first entry that is not in use; -1 when there is none. *)
Fixpoint socket_to_conn_from (i : Z) (t : conn_table) (sock : Z) : conn_table * Z :=
  match t with
  | [] => ([], -1)
  | None :: t => (Some sock :: t, i)
  | Some s :: t => let (t, k) := socket_to_conn_from (i + 1) t sock in (Some s :: t, k)
  end.

Definition socket_to_conn (t : conn_table) (sock : Z) : conn_table * Z := socket_to_conn_from 0 t sock.

Section Net.
(** The codes of [getaddrinfo]. *)
Variables EAI_MEMORY EAI_AGAIN EAI_FAIL : Z.
Variable getaddrinfo : string -> addr_reply.
(** [gethostname]: [None] when it fails. *)
Variable gethostname : option string.
(** [get_hostaddr] and [client_to_svr]: the address, and the new socket. *)
Variable get_hostaddr : string -> option Z.
Variable client_to_svr : Z -> Z.
(** [pbs_disconnect] closes a connection. *)
Variable pbs_disconnect : conn_table -> Z -> conn_table.

(** The process ends when the memory is used up; here this is an exception. *)
Definition global_oom_handle {A} : outcome A := Throw "exit".

Definition verify_fqdn (fqdn : string) : outcome bool :=
  let r := getaddrinfo fqdn in
  match canonname r with
  | Some name => Ret (String.eqb fqdn name)
  | None =>
      if reply_errno r =? EAI_MEMORY then global_oom_handle
      else if reply_errno r =? EAI_AGAIN then Throw "Temporary Network Error"
      else if reply_errno r =? EAI_FAIL then Throw "Permanent Network Error"
      else Ret false
  end.

Definition get_fqdn (host : string) : outcome string :=
  let r := getaddrinfo host in
  match canonname r with
  | Some name => Ret name
  | None =>
      if reply_errno r =? EAI_MEMORY then global_oom_handle
      else if reply_errno r =? EAI_AGAIN then Throw "Temporary Network Error"
      else Throw "Permanent Network Error"
  end.

Definition get_local_fqdn : outcome string :=
  match gethostname with
  | None => Throw "Permanent Network Error"
  | Some host => get_fqdn host
  end.

Definition privileged_connect (t : conn_table) (server : string) : conn_table * Z :=
  match get_hostaddr server with
  | None => (t, -1)
  | Some addr =>
      let sock := client_to_svr addr in
      if sock <? 0 then (t, -1) else socket_to_conn t sock
  end.

(** ** ConnectionMgr *)

(** The connection of a host, opened when there is none. *)
Definition connect_host (m : ConnectionMgr) (host what : string) : outcome (ConnectionMgr * Z) :=
  match p_connections m !! host with
  | Some c => Ret (m, c)
  | None =>
      let (t, connector) := privileged_connect (connection m) host in
      if connector <? 0 then Throw what
      else Ret (m <| connection := t |> <| p_connections := <[host := connector]> (p_connections m) |>, connector)
  end.

Definition make_master_connection (m : ConnectionMgr) (hostname : string) : outcome (ConnectionMgr * Z) :=
  let! host := get_fqdn hostname in
  connect_host (m <| p_master := host |>) host "Connection to master server failed.".

Definition make_remote_connection (m : ConnectionMgr) (hostname : string) : outcome (ConnectionMgr * Z) :=
  let! host := get_fqdn hostname in
  connect_host m host "Connection to remote server failed.".

Definition disconnect (m : ConnectionMgr) (hostname : string) : ConnectionMgr :=
  match p_connections m !! hostname with
  | Some c => m <| connection := pbs_disconnect (connection m) c |> <| p_connections := delete hostname (p_connections m) |>
  | None => m
  end.

(** The hosts in the order of the [map]. *)
Definition disconnect_all (m : ConnectionMgr) : ConnectionMgr :=
  let order := isort (fun a b => String.ltb (fst a) (fst b)) (map_to_list (p_connections m)) in
  m <| connection := fold_left (fun t hc => pbs_disconnect t (snd hc)) order (connection m) |> <| p_connections := ∅ |>.

Definition get_connection (m : ConnectionMgr) (hostname : string) : outcome Z :=
  match p_connections m !! hostname with
  | Some c => Ret c
  | None => Throw "Unexpected hostname in ConnectionMgr::get_connection()."
  end.

Definition get_master_connection (m : ConnectionMgr) : outcome Z := get_connection m (p_master m).

Definition reset_connection (m : ConnectionMgr) (hostname : string) : ConnectionMgr := disconnect m hostname.

(** ** What the manager promises

    Every server has a connection of its own, which is an entry in use. *)

Record conns_wf (m : ConnectionMgr) : Prop := {
  cw_open : forall h c, p_connections m !! h = Some c -> 0 <= c /\ exists s, connection m !! Z.to_nat c = Some (Some s);
  cw_own : forall h h' c, p_connections m !! h = Some c -> p_connections m !! h' = Some c -> h = h'
}.

Lemma socket_to_conn_from_spec t : forall i sock,
  (exists j : nat, snd (socket_to_conn_from i t sock) = i + Z.of_nat j /\ t !! j = Some None /\
     fst (socket_to_conn_from i t sock) = <[j := Some sock]> t) \/
  snd (socket_to_conn_from i t sock) = -1 /\ fst (socket_to_conn_from i t sock) = t /\ Forall is_Some t.
Proof.
  induction t as [|[s|] t IH]; intros i sock; cbn [socket_to_conn_from].
  - right. by split_and!.
  - destruct (IH (i + 1) sock) as [(j & E1 & E2 & E3)|(E1 & E2 & E3)]; destruct (socket_to_conn_from (i + 1) t sock) as [t' k];
      cbn [fst snd] in *.
    + left. exists (S j). split; [lia|]. split; [done|]. cbn. by rewrite E3.
    + right. subst. split_and!; [done|done|]. by constructor.
  - left. exists O. cbn [fst snd]. by split; [lia|].
Qed.

(** A new connection is an entry that was free; the others stay. *)
Lemma privileged_connect_spec t host :
  let r := privileged_connect t host in
  snd r < 0 /\ fst r = t \/
  0 <= snd r /\ t !! Z.to_nat (snd r) = Some None /\ exists s, fst r = <[Z.to_nat (snd r) := Some s]> t.
Proof.
  unfold privileged_connect. destruct (get_hostaddr host) as [addr|]; [|left; cbn; split; [lia|done]].
  destruct (Z.ltb_spec (client_to_svr addr) 0); [left; cbn; split; [lia|done]|].
  destruct (socket_to_conn_from_spec t 0 (client_to_svr addr)) as [(j & E1 & E2 & E3)|(E1 & E2 & _)]; unfold socket_to_conn.
  - right. rewrite E1, Z.add_0_l, Nat2Z.id. split; [lia|]. split; [done|]. by exists (client_to_svr addr).
  - left. rewrite E1, E2. split; [lia|done].
Qed.

Lemma connect_host_wf m host what m' c :
  conns_wf m -> connect_host m host what = Ret (m', c) ->
  conns_wf m' /\ p_master m' = p_master m /\ p_connections m' = <[host := c]> (p_connections m) /\
  (p_connections m !! host = Some c -> m' = m).
Proof.
  destruct m as [cs master tbl]. intros [Ho Hu]. cbn in Ho, Hu. unfold connect_host. cbn [p_connections connection]. destruct (cs !! host) as [k|] eqn:E.
  { intros [= <- <-]. split_and!; [by constructor|done|by rewrite insert_id|done]. }
  pose proof (privileged_connect_spec tbl host) as Hp.
  destruct (privileged_connect tbl host) as [t k]. cbn [fst snd] in Hp.
  destruct (Z.ltb_spec k 0); [done|]. intros [= <- <-]. destruct Hp as [[? _]|(Hk & Hfree & s & ->)]; [lia|].
  assert (Hlt := lookup_lt_Some _ _ _ Hfree). split_and!; try done. constructor; cbn.
  - intros h c [[<- <-]|[Hne Hc]]%lookup_insert_Some.
    + split; [done|]. exists s. by apply list_lookup_insert_eq.
    + destruct (Ho _ _ Hc) as (Hc0 & s' & Hs). split; [done|]. exists s'. rewrite list_lookup_insert_ne; [done|]. intros Eq. congruence.
  - intros h h' c [[<- <-]|[Hne Hc]]%lookup_insert_Some [[<- Ec]|[Hne' Hc']]%lookup_insert_Some; [done| |subst|by eapply Hu].
    + destruct (Ho _ _ Hc') as (_ & s' & Hs). congruence.
    + destruct (Ho _ _ Hc) as (_ & s' & Hs). congruence.
Qed.

(** *** Steps of the manager *)

Inductive conn_step : ConnectionMgr -> ConnectionMgr -> Prop :=
| step_master m m' host c : make_master_connection m host = Ret (m', c) -> conn_step m m'
| step_remote m m' host c : make_remote_connection m host = Ret (m', c) -> conn_step m m'
| step_disconnect m host : conn_step m (disconnect m host)
| step_reset m host : conn_step m (reset_connection m host)
| step_disconnect_all m : conn_step m (disconnect_all m).

Definition conn_reachable : ConnectionMgr -> ConnectionMgr -> Prop := rtc conn_step.

(** What is in use: what was in use at first, and the connections of the servers. *)
Record opened (t0 : conn_table) (m : ConnectionMgr) : Prop := {
  op_wf : conns_wf m;
  op_length : length (connection m) = length t0;
  op_free : forall h c, p_connections m !! h = Some c -> t0 !! Z.to_nat c = Some None;
  op_rest : forall i, (forall h c, p_connections m !! h = Some c -> Z.to_nat c <> i) -> connection m !! i = t0 !! i
}.

Section Steps.
Context (t0 : conn_table).
(** Closing a connection frees its entry, and no other. *)
Context (closes : forall t c, pbs_disconnect t c = <[Z.to_nat c := None]> t).

Lemma opened_connect m host what m' c :
  opened t0 m -> connect_host m host what = Ret (m', c) -> opened t0 m'.
Proof.
  intros [Hw Hl Hf Hr] E. destruct (connect_host_wf m host what m' c Hw E) as (Hw' & _ & Ec & _).
  revert E. unfold connect_host. destruct (p_connections m !! host) as [k|] eqn:Eh; [by intros [= <- _]|].
  pose proof (privileged_connect_spec (connection m) host) as Hp.
  destruct (privileged_connect (connection m) host) as [t k]. cbn [fst snd] in Hp.
  destruct (Z.ltb_spec k 0); [done|]. intros [= <- <-]. destruct Hp as [[? _]|(Hk & Hfree & s & ->)]; [lia|].
  assert (Hno : forall h c, p_connections m !! h = Some c -> Z.to_nat c <> Z.to_nat k).
  { intros h c Hc Eq. destruct (cw_open m Hw _ _ Hc) as (_ & s' & Hs). congruence. }
  constructor; [done|cbn; by rewrite length_insert| |]; cbn.
  - intros h c [[<- <-]|[Hne Hc]]%lookup_insert_Some; [|by eapply Hf]. by rewrite <- (Hr _ Hno).
  - intros i Hi. assert (Hki : Z.to_nat k <> i) by (apply (Hi host k); by simplify_map_eq). rewrite list_lookup_insert_ne by done. apply Hr. intros h c Hc.
    apply (Hi h). rewrite lookup_insert_ne; [done|]. intros ->. congruence.
Qed.

Lemma opened_disconnect m host : opened t0 m -> opened t0 (disconnect m host).
Proof.
  intros Hm. pose proof Hm as [[Ho Hu] Hl Hf Hr]. unfold disconnect. destruct (p_connections m !! host) as [k|] eqn:Eh; [|done].
  rewrite closes. destruct (Ho _ _ Eh) as (Hk0 & sk & Hsk). pose proof (lookup_lt_Some _ _ _ Hsk) as Hlt.
  assert (Hother : forall h c, delete host (p_connections m) !! h = Some c -> p_connections m !! h = Some c /\ Z.to_nat c <> Z.to_nat k).
  { intros h c [Hne Hc]%lookup_delete_Some. split; [done|]. intros Eq. destruct (Ho _ _ Hc) as (Hc0 & _).
    assert (c = k) as -> by lia. apply Hne. symmetry. by eapply Hu. }
  constructor; [constructor|cbn; by rewrite length_insert| |]; cbn.
  - intros h c Hc. destruct (Hother _ _ Hc) as [Hc' Hne]. destruct (Ho _ _ Hc') as (Hc0 & s & Hs). split; [done|]. exists s.
    by rewrite list_lookup_insert_ne by congruence.
  - intros h h' c Hc Hc'. eapply Hu; by eapply Hother.
  - intros h c Hc. eapply Hf. by eapply Hother.
  - intros i Hi. destruct (decide (i = Z.to_nat k)) as [->|Hne].
    + rewrite list_lookup_insert_eq by done. symmetry. by eapply Hf.
    + rewrite list_lookup_insert_ne by done. apply Hr. intros h c Hc Eq. destruct (decide (h = host)) as [->|Hh]; [congruence|].
      apply (Hi h c); [by rewrite lookup_delete_ne|done].
Qed.

Lemma close_all_lookup (l : list (string * Z)) (t : conn_table) i :
  (forall h c, (h, c) ∈ l -> (Z.to_nat c < length t)%nat) ->
  fold_left (fun t hc => pbs_disconnect t (snd hc)) l t !! i =
  if bool_decide (Exists (fun hc : string * Z => Z.to_nat hc.2 = i) l) then Some None else t !! i.
Proof.
  revert t. induction l as [|[h c] l IH]; intros t Hlt; [done|]. cbn [fold_left snd]. rewrite closes, IH.
  - assert (Hc : (Z.to_nat c < length t)%nat) by (apply (Hlt h); by left). case_bool_decide as H1; case_bool_decide as H2; try done.
    + exfalso. apply H2. by right.
    + inversion H2 as [? ? E|? ? E]; subst; [|done]. cbn. by apply list_lookup_insert_eq.
    + apply list_lookup_insert_ne. intros Eq. apply H2. by left.
  - intros h' c' Hin. rewrite length_insert. eapply Hlt. by right.
Qed.

Lemma opened_disconnect_all m :
  opened t0 m -> p_connections (disconnect_all m) = ∅ /\ connection (disconnect_all m) = t0.
Proof.
  intros [[Ho Hu] Hl Hf Hr]. split; [done|]. unfold disconnect_all. cbn.
  set (order := isort _ _). assert (Hin : forall h c, (h, c) ∈ order <-> p_connections m !! h = Some c).
  { intros h c. unfold order. rewrite isort_perm. apply elem_of_map_to_list. }
  apply list_eq. intros i. rewrite close_all_lookup.
  - case_bool_decide as H.
    + apply Exists_exists in H as ([h c] & Hc & Eq). apply Hin in Hc. cbn in Eq. subst i. symmetry. by eapply Hf.
    + apply Hr. intros h c Hc Eq. apply H, Exists_exists. exists (h, c). split; [by apply Hin|done].
  - intros h c Hc%Hin. destruct (Ho _ _ Hc) as (_ & s & Hs). by apply lookup_lt_Some in Hs.
Qed.

Lemma opened_step m m' : opened t0 m -> conn_step m m' -> opened t0 m'.
Proof.
  intros Hm Hs. destruct Hs as [m m' host c E|m m' host c E|m host|m host|m].
  - revert E. unfold make_master_connection. destruct (get_fqdn host) as [h| |]; cbn [obind]; [|done..]. apply opened_connect.
    destruct Hm as [[] ? ? ?]. by constructor; [constructor|..].
  - revert E. unfold make_remote_connection. destruct (get_fqdn host) as [h| |]; cbn [obind]; [|done..]. by apply opened_connect.
  - by apply opened_disconnect.
  - by apply opened_disconnect.
  - destruct (opened_disconnect_all m Hm) as [E1 E2]. constructor; rewrite ?E1, ?E2; done || (by constructor; rewrite E1).
Qed.

(** C12: However the manager is used, every server that has a connection has one of
    its own, which stays open until it is disconnected; exactly the entries of the
    table that were free at first and belong to no server are free, so that no
    connection leaks, and closing all of them at the end of a cycle brings the table
    back to what it was. *)
Theorem connections_never_leak m m' :
  p_connections m = ∅ -> connection m = t0 -> conn_reachable m m' ->
  (forall h c, p_connections m' !! h = Some c -> get_connection m' h = Ret c /\ t0 !! Z.to_nat c = Some None /\
     exists s, connection m' !! Z.to_nat c = Some (Some s)) /\
  (forall h h' c, p_connections m' !! h = Some c -> p_connections m' !! h' = Some c -> h = h') /\
  (forall i, (forall h c, p_connections m' !! h = Some c -> Z.to_nat c <> i) -> connection m' !! i = t0 !! i) /\
  connection (disconnect_all m') = t0.
Proof.
  intros E1 E2 Hr. assert (Hm : opened t0 m).
  { constructor; rewrite ?E1, ?E2; done || (by constructor; rewrite E1). }
  assert (Hm' : opened t0 m'). { clear E1 E2. induction Hr as [|m m1 m2 Hs _ IH]; [done|]. apply IH. by eapply opened_step. }
  destruct (opened_disconnect_all m' Hm') as [_ Ht]. destruct Hm' as [[Ho Hu] _ Hf Hrest]. split_and!; try done.
  intros h c Hc. unfold get_connection. rewrite Hc. split; [done|]. split; [by eapply Hf|]. by eapply Ho.
Qed.
End Steps.
End Net.

(** ** An example *)

Definition example_names (host : string) : addr_reply := mkReply (Some (host ++ ".cz")) 0.
Definition example_close (t : conn_table) (c : Z) : conn_table := <[Z.to_nat c := None]> t.
Definition no_conns : ConnectionMgr := mkConns ∅ "" [Some 7; None; None].

Lemma connections_never_leak_witness :
  exists m, make_master_connection (-10) (-3) example_names (fun _ => Some 1) (fun _ => 5) no_conns "arien" = Ret (m, 1) /\
    connection (disconnect_all example_close m) = [Some 7; None; None].
Proof.
  eexists. split; [vm_compute; reflexivity|].
  eapply (connections_never_leak (-10) (-3) example_names (fun _ => Some 1) (fun _ => 5) example_close [Some 7; None; None]
            (fun _ _ => eq_refl) no_conns); [reflexivity|reflexivity|].
  eapply rtc_once, (step_master _ _ _ _ _ _ _ _ "arien" 1). vm_compute. reflexivity.
Defined.

(** A reset by a name that is not the full one does nothing. *)
Lemma reset_by_short_name_does_nothing :
  exists m, make_master_connection (-10) (-3) example_names (fun _ => Some 1) (fun _ => 5) no_conns "arien" = Ret (m, 1) /\
    reset_connection example_close m "arien" = m.
Proof. eexists. split; [vm_compute; reflexivity|]. vm_compute. reflexivity. Qed.

(** [errno] holds no code of [getaddrinfo], which are negative: the errors are all
    taken for permanent ones. *)
Lemma network_errors_are_permanent EAI_MEMORY EAI_AGAIN getaddrinfo host :
  EAI_MEMORY < 0 -> EAI_AGAIN < 0 -> canonname (getaddrinfo host) = None -> 0 <= reply_errno (getaddrinfo host) ->
  get_fqdn EAI_MEMORY EAI_AGAIN getaddrinfo host = Throw "Permanent Network Error".
Proof.
  intros H1 H2 E Hn. unfold get_fqdn. rewrite E. destruct (Z.eqb_spec (reply_errno (getaddrinfo host)) EAI_MEMORY); [lia|].
  by destruct (Z.eqb_spec (reply_errno (getaddrinfo host)) EAI_AGAIN); [lia|].
Qed.
