(* ===== verification/CString.v ===== *)
(** * C strings

    The C library routines the scheduler parses its input with.  A
    NUL-terminated string is the [string] of the characters before the NUL, a
    pointer into it is the suffix it points at; [*p] is [hd0 p], which is the
    NUL at the end of the string, and [p + 1] is [tl0 p].  [strtol] returns
    the number and the suffix its [endptr] argument receives. *)

From Stdlib Require Import ZArith Lia Bool Ascii String.
From S2P Require Import Prelude.

Open Scope Z_scope.

Definition NUL : ascii := "000"%char.

Definition hd0 (s : string) : ascii :=
  match s with EmptyString => NUL | String c _ => c end.

Definition tl0 (s : string) : string :=
  match s with EmptyString => EmptyString | String _ t => t end.

Definition code (c : ascii) : Z := Z.of_N (N_of_ascii c).

Definition isdigit (c : ascii) : bool := (48 <=? code c) && (code c <=? 57).

(** [isspace] of the C locale: space and the characters 9 to 13. *)
Definition isspace (c : ascii) : bool :=
  (code c =? 32) || ((9 <=? code c) && (code c <=? 13)).

Definition ascii_eqb (a b : ascii) : bool := Ascii.eqb a b.

(** [while (isspace( *p)) p++;] *)
Fixpoint skip_spaces (s : string) : string :=
  match s with
  | String c t => if isspace c then skip_spaces t else s
  | EmptyString => EmptyString
  end.

(** The maximal run of digits: its value on top of [acc] and the rest. *)
Fixpoint scan_digits (acc : Z) (s : string) : Z * string :=
  match s with
  | String c t =>
      if isdigit c then scan_digits (10 * acc + (code c - 48)) t else (acc, s)
  | EmptyString => (acc, EmptyString)
  end.

Definition LONG_MAX : Z := 9223372036854775807.
Definition LONG_MIN : Z := -9223372036854775808.

Definition saturate (z : Z) : Z := Z.max LONG_MIN (Z.min LONG_MAX z).

(** [strtol(s, &endp, 10)] ([strtoll] is the same function on this ABI). *)
Definition strtol10 (s : string) : Z * string :=
  let s1 := skip_spaces s in
  let '(neg, s2) :=
    if Ascii.eqb (hd0 s1) "-" then (true, tl0 s1)
    else if Ascii.eqb (hd0 s1) "+" then (false, tl0 s1)
    else (false, s1) in
  if isdigit (hd0 s2) then
    let '(v, rest) := scan_digits 0 s2 in
    (saturate (if neg then - v else v), rest)
  else (0, s).

(** [atoi] of the C library: [(int) strtol(s, NULL, 10)]. *)
Definition atoi (s : string) : Z := i32 (fst (strtol10 s)).

(** [strchr(s, c)] for a character other than NUL. *)
Fixpoint strchr (s : string) (c : ascii) : option string :=
  match s with
  | EmptyString => None
  | String d t => if Ascii.eqb d c then Some s else strchr t c
  end.

(** The characters before the first [c], and what follows it when there is one. *)
Fixpoint split_at (s : string) (c : ascii) : string * option string :=
  match s with
  | EmptyString => (EmptyString, None)
  | String d t =>
      if Ascii.eqb d c then (EmptyString, Some t)
      else let '(a, r) := split_at t c in (String d a, r)
  end.

(** [strstr(s, sub) != NULL]. *)
Fixpoint strstr (s sub : string) : bool :=
  String.prefix sub s ||
  match s with EmptyString => false | String _ t => strstr t sub end.

(** [strcmp]: negative, zero or positive; the sign is all the code uses. *)
Definition strcmp (a b : string) : Z :=
  match String.compare a b with Lt => -1 | Eq => 0 | Gt => 1 end.

Fixpoint strlen (s : string) : Z :=
  match s with EmptyString => 0 | String _ t => 1 + strlen t end.

Lemma scan_digits_ge acc s : 0 <= acc -> acc <= fst (scan_digits acc s).
Proof.
  revert acc. induction s as [|c s IH]; intros acc Hacc; simpl; [lia|].
  destruct (isdigit c) eqn:E; simpl; [|lia].
  unfold isdigit in E. to_props.
  etransitivity; [|apply IH; lia]. lia.
Qed.

Lemma saturate_range z : in_s 64 (saturate z).
Proof. unfold saturate, LONG_MIN, LONG_MAX. in_range. Qed.

Lemma saturate_id z : in_s 64 z -> saturate z = z.
Proof. unfold saturate, LONG_MIN, LONG_MAX. in_range. Qed.

Lemma strtol10_range s : in_s 64 (fst (strtol10 s)).
Proof.
  unfold strtol10. repeat case_match; simpl; try apply saturate_range; in_range.
Qed.

Lemma atoi_range s : in_s 32 (atoi s).
Proof. apply wrap_s_range. lia. Qed.

Lemma strcmp_eq a b : strcmp a b = 0 <-> a = b.
Proof.
  unfold strcmp. split.
  - destruct (String.compare a b) eqn:E; try done. intros _. by apply String.compare_eq_iff.
  - intros ->. pose proof (String.compare_antisym b b) as H.
    by destruct (String.compare b b).
Qed.

Lemma strcmp_refl a : strcmp a a = 0.
Proof. by apply strcmp_eq. Qed.

Lemma strcmp_antisym a b : strcmp a b = - strcmp b a.
Proof. unfold strcmp. rewrite String.compare_antisym. by destruct (String.compare b a). Qed.

Lemma strlen_length s : strlen s = Z.of_nat (String.length s).
Proof. induction s as [|c s IH]; [done|]. simpl. rewrite IH. lia. Qed.

Lemma strlength_app a b : String.length (a ++ b) = (String.length a + String.length b)%nat.
Proof. induction a as [|c a IH]; [done|]. exact (f_equal S IH). Qed.

(** ** Decimal notation

    [pretty_nat] is the decimal notation of a number, most significant digit
    first: what [sprintf("%d")] writes for a non-negative argument. *)

Definition digit_char (d : Z) : ascii := ascii_of_N (Z.to_N (48 + d)).

Fixpoint dec_digits (fuel : nat) (z : Z) (acc : string) : string :=
  match fuel with
  | O => acc
  | S fuel =>
      let acc' := String (digit_char (z mod 10)) acc in
      if z <? 10 then acc' else dec_digits fuel (z / 10) acc'
  end.

(** The number of binary digits bounds the number of decimal ones. *)
Definition dec_nat (z : Z) : string := dec_digits (S (Z.to_nat (Z.log2_up (z + 1)))) z "".

Definition dec (z : Z) : string :=
  if z <? 0 then String "-" (dec_nat (- z)) else dec_nat z.

Lemma code_digit_char d : 0 <= d < 10 -> code (digit_char d) = 48 + d.
Proof.
  intros Hd. unfold code, digit_char. rewrite N_ascii_embedding; lia.
Qed.

Lemma isdigit_digit_char d : 0 <= d < 10 -> isdigit (digit_char d) = true.
Proof.
  intros Hd. unfold isdigit. rewrite code_digit_char by done.
  apply andb_true_iff; split; apply Z.leb_le; lia.
Qed.

(** A digit is neither a sign nor a blank, so [strtol] starts on it. *)
Lemma isdigit_not_space c :
  isdigit c = true -> isspace c = false /\ Ascii.eqb c "-" = false /\ Ascii.eqb c "+" = false.
Proof.
  intros H. unfold isdigit in H. to_props. unfold isspace. split.
  - apply orb_false_iff; split; [apply Z.eqb_neq; lia|].
    apply andb_false_iff. right. apply Z.leb_gt. lia.
  - split; apply Ascii.eqb_neq; intros ->; vm_compute in *; intuition congruence.
Qed.

Lemma scan_digits_dec fuel z acc v :
  0 <= z < 2 ^ Z.of_nat fuel -> 0 <= v ->
  exists k, 0 < k /\ (fuel <> O -> scan_digits v (dec_digits fuel z acc) = scan_digits (v * k + z) acc).
Proof.
  revert z acc v. induction fuel as [|fuel IH]; intros z acc v Hz Hv; [exists 1; lia|].
  rewrite Nat2Z.inj_succ, Z.pow_succ_r in Hz by lia.
  simpl. destruct (z <? 10) eqn:E; to_props.
  - exists 10. split; [lia|]. intros _. simpl. rewrite Z.mod_small by lia.
    rewrite isdigit_digit_char, code_digit_char by lia. f_equal. lia.
  - assert (Hd : 0 <= z / 10 < 2 ^ Z.of_nat fuel) by
      (split; [apply Z.div_pos; lia|apply Z.div_lt_upper_bound; lia]).
    destruct (IH (z / 10) (String (digit_char (z mod 10)) acc) v Hd Hv) as (k & Hk & H).
    exists (10 * k). split; [lia|]. intros _.
    assert (fuel <> O) by (intros ->; simpl in Hz; lia).
    rewrite (H ltac:(done)). simpl. pose proof (Z.mod_pos_bound z 10).
    rewrite isdigit_digit_char, code_digit_char by lia. f_equal.
    pose proof (Z.div_mod z 10). lia.
Qed.

Lemma dec_digits_head fuel z acc : 0 <= z -> fuel <> O -> isdigit (hd0 (dec_digits fuel z acc)) = true.
Proof.
  revert z acc. induction fuel as [|fuel IH]; intros z acc Hz Hf; [done|]. simpl.
  pose proof (Z.mod_pos_bound z 10 ltac:(lia)). destruct (z <? 10) eqn:E; simpl.
  - by apply isdigit_digit_char.
  - destruct fuel; [simpl; by apply isdigit_digit_char|].
    apply IH; [apply Z.div_pos; lia|done].
Qed.

Lemma scan_digits_dec_nat z : 0 <= z -> scan_digits 0 (dec_nat z) = (z, ""%string).
Proof.
  intros Hz. unfold dec_nat.
  destruct (scan_digits_dec (S (Z.to_nat (Z.log2_up (z + 1)))) z "" 0) as (k & _ & H);
    [|lia|rewrite H by done; done].
  split; [done|]. rewrite Nat2Z.inj_succ, Z2Nat.id by apply Z.log2_up_nonneg.
  apply Z.lt_le_trans with (2 ^ Z.log2_up (z + 1)).
  - destruct (decide (z = 0)) as [->|]; [done|].
    pose proof (Z.log2_up_spec (z + 1)). lia.
  - apply Z.pow_le_mono_r; lia.
Qed.

Lemma hd0_dec_nat z : 0 <= z -> isdigit (hd0 (dec_nat z)) = true.
Proof. intros. by apply dec_digits_head. Qed.

(** [strtol] reads back what [sprintf("%ld")] printed. *)
Lemma strtol10_dec z : in_s 64 z -> strtol10 (dec z) = (z, ""%string).
Proof.
  intros Hr. unfold dec. destruct (z <? 0) eqn:E; to_props.
  - unfold strtol10. simpl. rewrite hd0_dec_nat, scan_digits_dec_nat by lia.
    rewrite Z.opp_involutive, saturate_id by done. done.
  - unfold strtol10. assert (Hd := hd0_dec_nat z E).
    destruct (isdigit_not_space _ Hd) as (H1 & H2 & H3).
    assert (skip_spaces (dec_nat z) = dec_nat z) as ->.
    { destruct (dec_nat z); simpl in *; [done|]. by rewrite H1. }
    rewrite H2, H3, Hd, scan_digits_dec_nat, saturate_id by done. done.
Qed.

Lemma atoi_dec z : in_s 32 z -> atoi (dec z) = z.
Proof.
  intros H. unfold atoi. rewrite strtol10_dec by in_range. simpl. by apply i32_id.
Qed.

(** ** strtok and fgets *)

Fixpoint in_set (c : ascii) (ds : string) : bool :=
  match ds with EmptyString => false | String d t => Ascii.eqb c d || in_set c t end.

Fixpoint skip_set (ds s : string) : string :=
  match s with
  | EmptyString => EmptyString
  | String c t => if in_set c ds then skip_set ds t else s
  end.

(** The characters before the first delimiter, and what follows that delimiter. *)
Fixpoint take_token (ds s : string) : string * string :=
  match s with
  | EmptyString => (EmptyString, EmptyString)
  | String c t =>
      if in_set c ds then (EmptyString, t)
      else let '(w, r) := take_token ds t in (String c w, r)
  end.

(** [strtok] from the saved position [s]: the token ([None] is NULL), the text
    of the line from the token on, and the position saved for the next call. *)
Definition strtok (ds s : string) : option (string * string) * string :=
  let s1 := skip_set ds s in
  match s1 with
  | EmptyString => (None, EmptyString)
  | _ => let '(w, r) := take_token ds s1 in (Some (w, s1), r)
  end.

(** [fgets] into a buffer with room for [n] characters: up to and including
    the next newline. *)
Fixpoint fgets (n : nat) (s : string) : string * string :=
  match n, s with
  | S n, String c t =>
      if Ascii.eqb c "010" then (String c EmptyString, t)
      else let '(l, r) := fgets n t in (String c l, r)
  | _, _ => (EmptyString, s)
  end.

(** What the C library sees of a buffer: the text before the first NUL. *)
Definition c_text (buf : string) : string := fst (split_at buf NUL).

(** The lines a [while (fgets(...) != NULL)] loop reads. *)
Fixpoint read_lines (fuel n : nat) (s : string) : list string :=
  match fuel, s with
  | S fuel, String _ _ => let '(l, r) := fgets n s in l :: read_lines fuel n r
  | _, _ => []
  end.

Definition lines_of (n : nat) (s : string) : list string := read_lines (String.length s) n s.

Lemma fgets_spec n s :
  let '(l, r) := fgets n s in
  s = (l ++ r)%string /\ (String.length l <= n)%nat /\
  (n <> 0%nat -> s <> EmptyString -> l <> EmptyString).
Proof.
  revert s. induction n as [|n IH]; intros [|c t]; cbn [fgets]; try by split_and!; [done|simpl; lia|done].
  destruct (Ascii.eqb c "010"); [by split_and!; [done|simpl; lia|done]|].
  specialize (IH t). destruct (fgets n t) as [l r]. destruct IH as (-> & ? & _).
  split_and!; [done|simpl; lia|done].
Qed.

(** The lines are the file, cut without loss into pieces that fit the buffer. *)
Lemma lines_of_spec n s :
  n <> 0%nat ->
  String.concat "" (lines_of n s) = s /\
  Forall (fun l => (String.length l <= n)%nat /\ l <> EmptyString) (lines_of n s).
Proof.
  intros Hn. unfold lines_of.
  assert (H : forall fuel s, (String.length s <= fuel)%nat ->
    String.concat "" (read_lines fuel n s) = s /\
    Forall (fun l => (String.length l <= n)%nat /\ l <> EmptyString) (read_lines fuel n s)); [|by apply H].
  clear s. induction fuel as [|fuel IH]; intros s Hs.
  { destruct s; simpl in *; [done|lia]. }
  destruct s as [|c t]; [done|]. cbn [read_lines].
  pose proof (fgets_spec n (String c t)) as Hf. destruct (fgets n (String c t)) as [l r].
  destruct Hf as (E & Hl & Hne). specialize (Hne Hn ltac:(done)).
  assert (Hr : (String.length r <= fuel)%nat).
  { apply (f_equal String.length) in E. rewrite strlength_app in E.
    destruct l; [done|]. simpl in *. lia. }
  destruct (IH r Hr) as [Hc Hfa]. split.
  - rewrite E. destruct (read_lines fuel n r) eqn:Er.
    + simpl in *. subst r. simpl. clear. induction l as [|c l IH]; simpl; [done|]. exact (f_equal (String c) IH).
    + by rewrite <- Hc.
  - by constructor.
Qed.
