(* ===== verification/CFloat.v ===== *)
(** * Floating point

    The [float], [double] and [long double] arithmetic of the scheduler as
    IEEE 754 arithmetic rounding to nearest even, on the Standard Library's
    [spec_float]: executable, and without the axioms of the primitive floats.
    [strtod] covers decimal notation with an optional exponent; hexadecimal
    notation, infinities and NaNs in the input text are not modelled (they do
    not start with a digit and are reported as "no conversion"). *)

From Stdlib Require Import ZArith Lia Bool Ascii String SpecFloat.
From S2P Require Import Prelude CString.

Open Scope Z_scope.

#[export] Instance spec_float_eq_dec : EqDecision spec_float.
Proof. solve_decision. Defined.

(** A format: precision and maximal exponent. *)
Class Format := { prec : Z; emax : Z }.

Definition binary32 : Format := {| prec := 24; emax := 128 |}.
Definition binary64 : Format := {| prec := 53; emax := 1024 |}.
(** The x87 extended format of [long double]. *)
Definition binary80 : Format := {| prec := 64; emax := 16384 |}.

Section Arith.
Context {F : Format}.

Definition fof_Z (z : Z) : spec_float := binary_normalize prec emax z 0 false.
Definition fadd (x y : spec_float) : spec_float := SFadd prec emax x y.
Definition fsub (x y : spec_float) : spec_float := SFsub prec emax x y.
Definition fmul (x y : spec_float) : spec_float := SFmul prec emax x y.
Definition fdiv (x y : spec_float) : spec_float := SFdiv prec emax x y.

(** The correctly rounded quotient of two positive integers. *)
Definition fratio (s : bool) (n d : positive) : spec_float :=
  let '(q, e, l) := SFdiv_core_binary prec emax (Zpos n) 0 (Zpos d) 0 in
  binary_round_aux prec emax s q e l.

(** Conversion from a wider or narrower format. *)
Definition fcast (x : spec_float) : spec_float :=
  match x with
  | S754_finite s m e =>
      binary_normalize prec emax (if s then Zneg m else Zpos m) e s
  | _ => x
  end.
End Arith.

Definition flt (x y : spec_float) : bool := SFltb x y.
Definition fle (x y : spec_float) : bool := SFleb x y.
Definition feq (x y : spec_float) : bool := SFeqb x y.
Definition fgt (x y : spec_float) : bool := SFltb y x.
Definition fge (x y : spec_float) : bool := SFleb y x.

(** [std::max(x, y)]: [y] when [x < y], [x] otherwise. *)
Definition fmax (x y : spec_float) : spec_float := if flt x y then y else x.

Definition fzero : spec_float := S754_zero false.

(** Truncation toward zero; meaningless (0) for the values whose conversion the
    standard leaves undefined. *)
Definition ftrunc (x : spec_float) : Z :=
  match x with
  | S754_finite s m e =>
      let a := match e with
               | Z0 => Zpos m
               | Zpos _ => Zpos m * 2 ^ e
               | Zneg p => Zpos m / 2 ^ (Zpos p)
               end in
      if s then - a else a
  | _ => 0
  end.

(** ** strtod *)

(** Digits with the number of them. *)
Fixpoint scan_frac (acc : Z) (n : Z) (s : string) : Z * Z * string :=
  match s with
  | String c t =>
      if isdigit c then scan_frac (10 * acc + (code c - 48)) (n + 1) t else (acc, n, s)
  | EmptyString => (acc, n, EmptyString)
  end.

(** The optional exponent after the mantissa. *)
Definition scan_exponent (s : string) : Z * string :=
  if Ascii.eqb (hd0 s) "e" || Ascii.eqb (hd0 s) "E" then
    let s1 := tl0 s in
    let '(neg, s2) :=
      if Ascii.eqb (hd0 s1) "-" then (true, tl0 s1)
      else if Ascii.eqb (hd0 s1) "+" then (false, tl0 s1)
      else (false, s1) in
    if isdigit (hd0 s2) then
      let '(v, rest) := scan_digits 0 s2 in ((if neg then - v else v), rest)
    else (0, s)
  else (0, s).

(** The value [m * 10^e], rounded. *)
Definition decimal {F : Format} (s : bool) (m e : Z) : spec_float :=
  match m with
  | Zpos m' =>
      match e with
      | Zneg k => fratio s m' (10 ^ k)%positive
      | _ => fratio s (m' * Z.to_pos (10 ^ e))%positive 1
      end
  | _ => S754_zero s
  end.

(** The decimal numbers of [strtod] and [strtof], with what follows the number;
    the spellings of infinities, NaNs and hexadecimal numbers are not read. *)
Definition strto {F : Format} (s : string) : spec_float * string :=
  let s1 := skip_spaces s in
  let '(neg, s2) :=
    if Ascii.eqb (hd0 s1) "-" then (true, tl0 s1)
    else if Ascii.eqb (hd0 s1) "+" then (false, tl0 s1)
    else (false, s1) in
  let '(ip, ni, s3) := scan_frac 0 0 s2 in
  let '(m, nf, s4) :=
    if Ascii.eqb (hd0 s3) "." then scan_frac ip 0 (tl0 s3) else (ip, 0, s3) in
  if (ni =? 0) && (nf =? 0) then (fzero, s)
  else
    let '(e, rest) := scan_exponent s4 in
    (decimal neg m (e - nf), rest).

Definition strtod (s : string) : spec_float * string := strto (F := binary64) s.
Definition strtof (s : string) : spec_float * string := strto (F := binary32) s.

Definition atof (s : string) : spec_float := fst (strtod s).

Example atof_decimal :
  fmul (F := binary64) (atof " 3.25e1xyz") (fof_Z (F := binary64) 2) = fof_Z (F := binary64) 65.
Proof. vm_compute. reflexivity. Qed.

(** Comparison is irreflexive and asymmetric: what [std::sort] and the guards
    of the program rely on. *)
Lemma flt_irrefl x : flt x x = false.
Proof.
  unfold flt, SFltb. destruct x as [[]|[]| |[] m e]; simpl; try done;
  rewrite Z.compare_refl, ?Pos.compare_refl; try done;
  unfold Pos.compare; by rewrite Pos.compare_cont_refl.
Qed.

Lemma flt_asym x y : flt x y = true -> flt y x = false.
Proof.
  unfold flt, SFltb.
  destruct x as [[]|[]| |[] m e], y as [[]|[]| |[] m' e']; simpl; try done;
  rewrite (Z.compare_antisym e e'); destruct (e ?= e'); simpl; try done;
  fold (Pos.compare m m') (Pos.compare m' m);
  rewrite (Pos.compare_antisym m m'); destruct (Pos.compare m m'); done.
Qed.

(** The order of the floats other than NaN is the lexicographic order of the
    sign class, the exponent and the mantissa. *)
Definition fkey (x : spec_float) : list Z :=
  match x with
  | S754_infinity true => [-2]
  | S754_finite true m e => [-1; - e; Zneg m]
  | S754_zero _ => [0]
  | S754_finite false m e => [1; e; Zpos m]
  | S754_infinity false => [2]
  | S754_nan => []
  end.

Definition not_nan (x : spec_float) : bool := match x with S754_nan => false | _ => true end.

Lemma flt_lex x y :
  not_nan x = true -> not_nan y = true ->
  flt x y = match lex (fkey x) (fkey y) with Lt => true | _ => false end.
Proof.
  unfold flt, SFltb.
  destruct x as [[]|[]| |[] m e], y as [[]|[]| |[] m' e']; intros Hx Hy; try done; simpl.
  - rewrite Z.compare_opp, (Z.compare_antisym e e').
    destruct (e ?= e'); simpl; try done.
    fold (Pos.compare m m'). by destruct (Pos.compare m m').
  - destruct (e ?= e'); try done. fold (Pos.compare m m'). by destruct (Pos.compare m m').
Qed.
