(* ===== verification/MiscHelpers.v ===== *)
(** * Shared helpers: base/MiscHelpers.cpp, the string helpers of misc.cpp, constant.h

    [res_to_num] converts a resource string to a number of kilobytes (sizes),
    of seconds (times) or of units; [comma_list_to_set] splits a
    comma-separated list.  The string arrays of misc.cpp are NULL-terminated
    arrays of pointers: lists of strings, a NULL array being [None]. *)

From Stdlib Require Import ZArith Lia Bool Ascii String.
From S2P Require Import Prelude CString.

Open Scope Z_scope.

(** ** constant.h *)

Definition KILO : Z := 1024.
Definition MEGATOKILO : Z := 1024.
Definition GIGATOKILO : Z := 1048576.
Definition TERATOKILO : Z := 1073741824.
Definition SIZE_OF_WORD : Z := 8.

Definition RESC_UNSPECIFIED : Z := -1.
Definition RESC_INFINITY : Z := -2.

Notation "c =c d" := (Ascii.eqb c d) (at level 70) : sched_scope.
Local Open Scope sched_scope.

(** ** MiscHelpers.cpp *)

(** The loop over the commas; [None] when the fuel is exhausted. *)
Fixpoint comma_list_loop (fuel : nat) (list : string) (s : gset string) : option (gset string) :=
  match fuel with
  | O => None
  | S fuel =>
      match split_at list "," with
      | (word, Some tok) => comma_list_loop fuel (skip_spaces tok) ({[ word ]} ∪ s)
      | (word, None) => Some ({[ word ]} ∪ s)
      end
  end.

Definition comma_list_to_set (list : string) (s : gset string) : option (gset string) :=
  comma_list_loop (S (String.length list)) list s.

(** [count /= KILO]: [KILO] is an unsigned long, so the division is unsigned. *)
Definition div_kilo (count : Z) : Z := i64 (u64 count / KILO).

Definition res_to_num (res_str : string) : Z :=
  let '(count, endp) := strtol10 res_str in
  let '(count, endp, multiplier) :=
    if hd0 endp =c ":" then
      let '(count2, endp2) := strtol10 (tl0 endp) in
      if hd0 endp2 =c ":" then
        let count := i64 (count * 3600) in
        let count := i64 (count + i64 (count2 * 60)) in
        let '(count3, endp) := strtol10 (tl0 endp2) in
        let count := i64 (count + count3) in
        ((if hd0 endp =c NUL then count else RESC_UNSPECIFIED), endp, 1)
      else
        (i64 (i64 (count * 60) + count2), endp, 1)
    else if (hd0 endp =c "k") || (hd0 endp =c "K") then (count, endp, 1)
    else if (hd0 endp =c "m") || (hd0 endp =c "M") then (count, endp, MEGATOKILO)
    else if (hd0 endp =c "g") || (hd0 endp =c "G") then (count, endp, GIGATOKILO)
    else if (hd0 endp =c "t") || (hd0 endp =c "T") then (count, endp, TERATOKILO)
    else if (hd0 endp =c "b") || (hd0 endp =c "B") then (div_kilo count, endp, 1)
    else if hd0 endp =c "w" then (div_kilo count, endp, SIZE_OF_WORD)
    else (count, endp, 1) in
  let multiplier :=
    if negb (hd0 endp =c NUL) && (hd0 (tl0 endp) =c "w")
    then i64 (multiplier * SIZE_OF_WORD) else multiplier in
  i64 (count * multiplier).

(** ** misc.cpp *)

Definition skip_line (line : option string) : bool :=
  match line with
  | None => false
  | Some line =>
      let l := skip_spaces line in
      (hd0 l =c NUL) || (hd0 l =c "#") || (hd0 l =c "*")
  end.

Definition is_num (value : string) : bool := isdigit (hd0 value).

(** The number of words [break_comma_list] allocates room for. *)
Fixpoint count_char (s : string) (c : ascii) : nat :=
  match s with
  | EmptyString => 0
  | String d t => (if Ascii.eqb d c then 1 else 0) + count_char t c
  end.

Definition num_words (list : string) : nat := 1 + count_char list ",".

(** The successive results of [strtok(list, ",")]: [word] is the word being
    scanned; empty words are skipped. *)
Definition push_word (word : string) (l : list string) : list string :=
  match word with EmptyString => l | _ => word :: l end.

Fixpoint strtok_words (word : string) (s : string) (c : ascii) : list string :=
  match s with
  | EmptyString => push_word word []
  | String d t =>
      if Ascii.eqb d c then push_word word (strtok_words "" t c)
      else strtok_words (word ++ String d "") t c
  end.

Definition break_comma_list (list : option string) : option (Datatypes.list string) :=
  match list with
  | None => None
  | Some s => Some (strtok_words "" s ",")
  end.

Definition cstrcmp (s1 s2 : option string) : Z :=
  match s1, s2 with
  | None, None => 0
  | None, Some _ => -1
  | Some _, None => 1
  | Some a, Some b => strcmp a b
  end.

(** The loop of [string_array_verify] from index [i] on, with the value
    returned after it. *)
Fixpoint string_array_verify_loop (i : Z) (sa1 sa2 : list string) : Z :=
  match sa1, sa2 with
  | a :: sa1', b :: sa2' =>
      if cstrcmp (Some a) (Some b) =? 0 then string_array_verify_loop (i + 1) sa1' sa2'
      else i + 1
  | [], [] => 0
  | _, _ => i + 1
  end.

Definition string_array_verify (sa1 sa2 : option (list string)) : Z :=
  match sa1, sa2 with
  | None, None => 0
  | Some a, Some b => string_array_verify_loop 0 a b
  | _, _ => u32 (-1)
  end.

(** ** Facts *)

Lemma split_at_length s c w t :
  split_at s c = (w, Some t) -> (String.length t < String.length s)%nat.
Proof.
  revert w. induction s as [|d s IH]; intros w; simpl; [done|].
  destruct (Ascii.eqb d c); [intros [= <- <-]; lia|].
  destruct (split_at s c) as [a [r|]]; [|done]. intros [= <- <-].
  specialize (IH a eq_refl). lia.
Qed.

Lemma skip_spaces_length s : (String.length (skip_spaces s) <= String.length s)%nat.
Proof. induction s as [|d s IH]; simpl; [lia|]. destruct (isspace d); simpl; lia. Qed.

Lemma comma_list_loop_total fuel list s :
  (String.length list < fuel)%nat -> is_Some (comma_list_loop fuel list s).
Proof.
  revert list s. induction fuel as [|fuel IH]; intros list s Hf; [lia|]. simpl.
  destruct (split_at list ",") as [w [t|]] eqn:E; [|eauto].
  apply IH. pose proof (split_at_length _ _ _ _ E). pose proof (skip_spaces_length t). lia.
Qed.

(** A word of a comma list: no comma inside. *)
Definition comma_free (w : string) : Prop := strchr w "," = None.

Lemma split_at_app w rest :
  comma_free w -> split_at (w ++ String "," rest) "," = (w, Some rest).
Proof.
  unfold comma_free. induction w as [|d w IH]; simpl; [done|].
  destruct (Ascii.eqb d ",") eqn:E; [done|]. intros H.
  rewrite (IH H). done.
Qed.

Lemma split_at_free w : comma_free w -> split_at w "," = (w, None).
Proof.
  unfold comma_free. induction w as [|d w IH]; simpl; [done|].
  destruct (Ascii.eqb d ",") eqn:E; [done|]. intros H. by rewrite (IH H).
Qed.

(** The words joined by a comma and a blank, the notation of the ACL and
    parent lists the server sends. *)
Fixpoint comma_join (w : string) (ws : list string) : string :=
  match ws with
  | [] => w
  | w' :: ws' => w ++ ", " ++ comma_join w' ws'
  end.

Definition comma_word (w : string) : Prop := comma_free w /\ isspace (hd0 w) = false.

Lemma skip_spaces_word s : isspace (hd0 s) = false -> skip_spaces s = s.
Proof. destruct s as [|c s]; simpl; [done|]. by intros ->. Qed.

Lemma hd0_comma_join w ws : comma_word w -> isspace (hd0 (comma_join w ws)) = false.
Proof. intros [_ H]. by destruct ws; destruct w. Qed.

Lemma comma_list_loop_join fuel w ws s :
  Forall comma_word (w :: ws) -> (length ws < fuel)%nat ->
  comma_list_loop fuel (comma_join w ws) s = Some (list_to_set (w :: ws) ∪ s).
Proof.
  revert fuel w s. induction ws as [|w' ws IH]; intros fuel w s Hw Hf.
  - destruct fuel; [simpl in Hf; lia|]. inversion Hw as [|?? [Hc _] _]; subst.
    simpl. rewrite split_at_free by done. f_equal. set_solver.
  - destruct fuel; [simpl in Hf; lia|]. inversion Hw as [|?? [Hc _] Hws]; subst.
    change (comma_join w (w' :: ws)) with (w ++ String "," (" " ++ comma_join w' ws))%string.
    cbn [comma_list_loop]. rewrite split_at_app by done.
    change (skip_spaces (" " ++ comma_join w' ws)) with (skip_spaces (comma_join w' ws)).
    rewrite skip_spaces_word by (apply hd0_comma_join; by inversion Hws).
    rewrite IH; [|done|simpl in Hf; lia]. f_equal. set_solver.
Qed.

Lemma comma_join_length w ws : (length ws <= String.length (comma_join w ws))%nat.
Proof.
  revert w. induction ws as [|w' ws IH]; intros w; simpl; [lia|].
  rewrite !strlength_app. specialize (IH w'). simpl. lia.
Qed.

Lemma push_word_length w l : (length (push_word w l) <= S (length l))%nat.
Proof. destruct w; simpl; lia. Qed.

Lemma strtok_words_length w s c : (length (strtok_words w s c) <= S (count_char s c))%nat.
Proof.
  revert w. induction s as [|d s IH]; intros w; simpl.
  - apply push_word_length.
  - destruct (Ascii.eqb d c); [|apply IH].
    etransitivity; [apply push_word_length|]. specialize (IH ""%string). lia.
Qed.

Lemma string_array_verify_loop_spec i sa1 sa2 :
  0 <= i ->
  string_array_verify_loop i sa1 sa2 = 0 /\ sa1 = sa2 \/
  exists k, string_array_verify_loop i sa1 sa2 = i + Z.of_nat k + 1 /\
    take k sa1 = take k sa2 /\ sa1 !! k <> sa2 !! k.
Proof.
  revert i sa2. induction sa1 as [|a sa1 IH]; intros i [|b sa2] Hi; simpl.
  - by left.
  - right. exists 0%nat. split_and!; [lia|done|done].
  - right. exists 0%nat. split_and!; [lia|done|done].
  - destruct (strcmp a b =? 0) eqn:E; to_props.
    + apply strcmp_eq in E as ->.
      destruct (IH (i + 1) sa2 ltac:(lia)) as [[? ->]|(k & Hk & Ht & Hn)]; [by left|].
      right. exists (S k). simpl. split_and!; [lia|by f_equal|done].
    + right. exists 0%nat. simpl. split_and!; [lia|done|].
      intros [= ->]. by rewrite strcmp_refl in E.
Qed.
