(* ===== verification/Config.v ===== *)
(** * Configuration: config.h, data_types.h (config, status), parse.cpp

    The two global structures of the scheduler and the parser of the file
    [sched_config].  A file is the string of its characters; no file holds a
    NUL. *)

From Stdlib Require Import ZArith Lia Bool Ascii String SpecFloat.
From S2P Require Import Prelude CString CFloat MiscHelpers.

Local Open Scope string_scope.
Open Scope Z_scope.
Local Open Scope sched_scope.

Definition MAX_HOLIDAY_SIZE : nat := 50.
Definition MAX_DEDTIME_SIZE : nat := 50.
Definition MAX_IGNORED_QUEUES : nat := 16.
Definition MAX_SLAVE_SERVERS : nat := 32.
Definition PBS_MAXQUEUENAME : Z := 15.
Definition PBS_MAXSERVERNAME : Z := 1024.

Inductive prime_time := ALL | NONE | PRIME | NON_PRIME.
Inductive days := SUNDAY | SATURDAY | WEEKDAY.

#[export] Instance prime_time_eq : EqDecision prime_time.
Proof. solve_decision. Defined.
#[export] Instance days_eq : EqDecision days.
Proof. solve_decision. Defined.

(** The return codes of the [is_ok_to_run] functions: constant.h. *)
Definition SUCCESS : Z := 1001.
Definition SCHD_ERROR : Z := 1002.
Definition NOT_QUEUED : Z := 1003.
Definition QUEUE_NOT_STARTED : Z := 1004.
Definition QUEUE_NOT_EXEC : Z := 1005.
Definition QUEUE_JOB_LIMIT_REACHED : Z := 1006.
Definition SERVER_JOB_LIMIT_REACHED : Z := 1007.
Definition SERVER_USER_LIMIT_REACHED : Z := 1008.
Definition QUEUE_USER_LIMIT_REACHED : Z := 1009.
Definition SERVER_GROUP_LIMIT_REACHED : Z := 1010.
Definition QUEUE_GROUP_LIMIT_REACHED : Z := 1011.
Definition DED_TIME : Z := 1012.
Definition CROSS_DED_TIME_BOUNDRY : Z := 1013.
Definition NO_AVAILABLE_NODE : Z := 1014.
Definition NOT_ENOUGH_NODES_AVAIL : Z := 1015.
Definition JOB_STARVING : Z := 1016.
Definition SERVER_TOKEN_UTILIZATION : Z := 1017.
Definition QUEUE_IGNORED : Z := 1018.
Definition QUEUE_REMOTE_LOCAL : Z := 1019.
Definition NODESPEC_NOT_ENOUGH_NODES_TOTAL : Z := 1020.
Definition NODESPEC_NOT_ENOUGH_NODES_INTERSECT : Z := 1021.
Definition JOB_MOVED : Z := 1022.
Definition JOB_FAILED_MOVE : Z := 1022.
Definition CLUSTER_RUNNING : Z := 1023.
Definition CLUSTER_PERMISSIONS : Z := 1024.
Definition INSUFICIENT_SERVER_RESOURCE : Z := 1025.
Definition INSUFICIENT_QUEUE_RESOURCE : Z := 1026.
Definition INSUFICIENT_DYNAMIC_RESOURCE : Z := 1027.
Definition NODE_STILL_BOOTING : Z := 1028.
Definition QUEUE_PROC_LIMIT_REACHED : Z := 1029.
Definition QUEUE_USER_PROC_LIMIT_REACHED : Z := 1030.
Definition QUEUE_GROUP_PROC_LIMIT_REACHED : Z := 1031.
Definition REQUEST_NOT_MATCHED : Z := 1032.
Definition SCHEDULER_LOOP_RUN_LIMIT_REACHED : Z := 1033.
Definition UNKNOWN_LOCATION_PROPERTY_REQUEST : Z := 1034.
Definition JOB_SCHEDULED : Z := 1035.

(** [struct t]: bit fields of 5, 6, 1 and 1 bits. *)
Record t := mkT { hour : Z; min : Z; none : bool; all : bool }.

Record timegap := mkGap { from : Z; to : Z }.

#[export] Instance timegap_eq : EqDecision timegap.
Proof. solve_decision. Defined.

Inductive sort_type :=
| NO_SORT | SHORTEST_JOB_FIRST | LONGEST_JOB_FIRST | SMALLEST_MEM_FIRST | LARGEST_MEM_FIRST
| HIGH_PRIORITY_FIRST | LOW_PRIORITY_FIRST | LARGE_WALLTIME_FIRST | SHORT_WALLTIME_FIRST
| FAIR_SHARE | MULTI_SORT.

#[export] Instance sort_type_eq : EqDecision sort_type.
Proof. solve_decision. Defined.

(** [sorting_info]: an entry is known by its type, which selects the
    comparison function. *)
Definition sorting_info : list (sort_type * string) :=
  [(NO_SORT, "no_sort"); (SHORTEST_JOB_FIRST, "shortest_job_first");
   (LONGEST_JOB_FIRST, "longest_job_first"); (SMALLEST_MEM_FIRST, "smallest_memory_first");
   (LARGEST_MEM_FIRST, "largest_memory_first"); (HIGH_PRIORITY_FIRST, "high_priority_first");
   (LOW_PRIORITY_FIRST, "low_priority_first"); (LARGE_WALLTIME_FIRST, "large_walltime_first");
   (SHORT_WALLTIME_FIRST, "short_walltime_first"); (FAIR_SHARE, "fair_share");
   (MULTI_SORT, "multi_sort")].

Definition num_sorts : nat := length sorting_info.

Record cluster_limits_arrays := mkLimits {
  percentages : list spec_float;
  percentages_global : list spec_float;
  tresholds : list Z
}.

Definition no_limits : cluster_limits_arrays := mkLimits [] [] [].

(** The bit fields and arrays of [config]; the arrays of sort keys are the
    malloc'ed arrays of [num_sorts + 1] entries, the tables of names are the
    arrays of fixed-size buffers. *)
Record config := mkConfig {
  prime_rr : bool;
  non_prime_rr : bool;
  prime_bq : bool;
  non_prime_bq : bool;
  prime_sf : bool;
  non_prime_sf : bool;
  prime_fs : bool;
  non_prime_fs : bool;
  prime_lb : bool;
  non_prime_lb : bool;
  prime_hsv : bool;
  non_prime_hsv : bool;
  prime_sq : bool;
  non_prime_sq : bool;
  prime_lbrr : bool;
  non_prime_lbrr : bool;
  ignore_remote_local : bool;
  move_jobs : bool;
  priority_fairshare : bool;
  prime_sort : list sort_type;
  non_prime_sort : list sort_type;
  half_life : Z;
  sync_time : Z;
  prime_times : days -> prime_time -> t;
  holidays : list Z;
  num_holidays : Z;
  ded_time : list timegap;
  holiday_year : Z;
  unknown_shares : Z;
  log_filter : Z;
  global_prefix : string;
  local_server : string;
  ded_prefix : string;
  max_starve : Z;
  ignored_queues : list string;
  slave_servers : list string;
  max_user_run_conf : Z;
  max_cycle : Z;
  conf_default_queue : string;
  config_loaded : Z;
  optim_minimal_queued : Z;
  new_jobs_limit_per_cycle : Z;
  optim_duration_limit : Z;
  optim_timeout : Z;
  limits_for_clusters : gmap string (gmap Z cluster_limits_arrays)
}.

#[export] Instance config_fields : Fields config :=
  fields_app (fields_app (fields_app (fields_app (fields_app (fields_app (fields_app
  (fields_app (fields_app (fields_app (fields_app (fields_app (fields_app (fields_app
  (fields_app (fields_app (fields_app (fields_app (fields_app (fields_app (fields_app
  (fields_app (fields_app (fields_app (fields_app (fields_app (fields_app (fields_app
  (fields_app (fields_app (fields_app (fields_app (fields_app (fields_app (fields_app
  (fields_app (fields_app (fields_app (fields_app (fields_app (fields_app (fields_app
  (fields_app (fields_app (fields_app (fields_const mkConfig) prime_rr) non_prime_rr) prime_bq)
  non_prime_bq) prime_sf) non_prime_sf) prime_fs) non_prime_fs) prime_lb) non_prime_lb)
  prime_hsv) non_prime_hsv) prime_sq) non_prime_sq) prime_lbrr) non_prime_lbrr)
  ignore_remote_local) move_jobs) priority_fairshare) prime_sort) non_prime_sort) half_life)
  sync_time) prime_times) holidays) num_holidays) ded_time) holiday_year) unknown_shares)
  log_filter) global_prefix) local_server) ded_prefix) max_starve) ignored_queues)
  slave_servers) max_user_run_conf) max_cycle) conf_default_queue) config_loaded)
  optim_minimal_queued) new_jobs_limit_per_cycle) optim_duration_limit) optim_timeout)
  limits_for_clusters.

(** The array [cstat.sort_by] points to: the pointer is shared, so that keys
    read later are seen through it. *)
Inductive sort_ref := SortNull | SortPrime | SortNonPrime.

Record status := mkStatus {
  round_robin : bool;
  by_queue : bool;
  strict_fifo : bool;
  fair_share : bool;
  load_balancing : bool;
  load_balancing_rr : bool;
  help_starving_jobs : bool;
  sort_queues : bool;
  is_prime : bool;
  st_ded_time : bool;
  sort_by : sort_ref;
  current_time : Z
}.

#[export] Instance status_fields : Fields status :=
  fields_app (fields_app (fields_app (fields_app (fields_app (fields_app (fields_app
  (fields_app (fields_app (fields_app (fields_app (fields_app (fields_const mkStatus)
  round_robin) by_queue) strict_fifo) fair_share) load_balancing) load_balancing_rr)
  help_starving_jobs) sort_queues) is_prime) st_ded_time) sort_by) current_time.

(** The entries behind [cstat.sort_by]. *)
Definition sort_keys (conf : config) (cstat : status) : outcome (list sort_type) :=
  match sort_by cstat with
  | SortNull => UB
  | SortPrime => Ret (prime_sort conf)
  | SortNonPrime => Ret (non_prime_sort conf)
  end.

(** [a[n] = v], undefined past the end. *)
Definition set_at {A} (n : nat) (v : A) (l : list A) : outcome (list A) :=
  if (n <? length l)%nat then Ret (<[n := v]> l) else UB.

(** [memset(&conf, 0, sizeof conf)]; the arrays of pointers are null, which is
    the empty list here, until they are allocated. *)
Definition zero_t : t := mkT 0 0 false false.
Definition zero_config : config :=
  mkConfig false false false false false false false false false false false false false false
    false false false false false [] [] 0 0 (fun _ _ => zero_t) (replicate MAX_HOLIDAY_SIZE 0) 0
    (replicate MAX_DEDTIME_SIZE (mkGap 0 0)) 0 0 0 "" "" "" 0 [] [] 0 0 "" 0 0 0 0 0 ∅.

Definition zero_status : status :=
  mkStatus false false false false false false false false false false SortNull 0.

(** ** parse_limit *)

Definition limits_map : Type := gmap string (gmap Z cluster_limits_arrays).

(** The loop over [;threshold,percentage,percentage] from the position [d] on:
    the arrays and the error code. *)
Fixpoint limit_loop (fuel : nat) (d : string) (a : cluster_limits_arrays)
  : cluster_limits_arrays * bool :=
  match fuel with
  | O => (a, true)
  | S fuel =>
      if (hd0 d =c ";") && negb (hd0 (tl0 d) =c NUL) then
        let '(threshold, d) := strtol10 (tl0 d) in
        if (hd0 d =c NUL) || (hd0 (tl0 d) =c NUL) then (a, true)
        else
          let a := mkLimits (percentages a) (percentages_global a) (tresholds a ++ [threshold]) in
          let '(limit, d) := strtof (tl0 d) in
          if (hd0 d =c NUL) || (hd0 (tl0 d) =c NUL) then (a, true)
          else
            let a := mkLimits (percentages a ++ [limit]) (percentages_global a) (tresholds a) in
            let '(limit, d) := strtof (tl0 d) in
            limit_loop fuel d
              (mkLimits (percentages a) (percentages_global a ++ [limit]) (tresholds a))
      else (a, false)
  end.

Definition parse_limit (parsed_value : string) (m : limits_map) : outcome (limits_map * bool) :=
  match split_at parsed_value ":" with
  | (_, None) => UB
  | (cluster, Some rest) =>
      let '(n, d) := strtol10 rest in
      let num_cpus := i32 n in
      if negb (hd0 d =c ";") then Ret (m, true)
      else
        let per_cluster := default ∅ (m !! cluster) in
        let a := default no_limits (per_cluster !! num_cpus) in
        let '(a, error) := limit_loop (String.length d) d a in
        Ret (<[cluster := <[num_cpus := a]> per_cluster]> m, error)
  end.

(** ** parse_config *)

Definition is_one_of (s : string) (l : list string) : bool := existsb (String.eqb s) l.

Definition config_num (config_value : string) : Z :=
  if is_one_of config_value ["true"; "True"] || String.prefix "TRUE" config_value then 1
  else if is_one_of config_value ["false"; "False"; "FALSE"] then 0
  else if isdigit (hd0 config_value) then i32 (fst (strtol10 config_value))
  else -1.

(** The third word: the prime value and the error flag. *)
Definition config_prime (prime_value : option string) : prime_time * bool :=
  match prime_value with
  | None => (ALL, false)
  | Some w =>
      if is_one_of w ["prime"; "PRIME"] then (PRIME, false)
      else if is_one_of w ["non_prime"; "NON_PRIME"] then (NON_PRIME, false)
      else if is_one_of w ["all"; "ALL"] then (ALL, false)
      else if is_one_of w ["none"; "NONE"] then (NONE, false)
      else (ALL, true)
  end.

Definition for_prime (p : prime_time) : bool := bool_decide (p = PRIME) || bool_decide (p = ALL).
Definition for_non_prime (p : prime_time) : bool :=
  bool_decide (p = NON_PRIME) || bool_decide (p = ALL).

(** The configuration with the counters of the sort keys read so far. *)
Record parse_state := mkParse { conf_of : config; pkey_num : nat; npkey_num : nat }.

#[export] Instance parse_state_fields : Fields parse_state :=
  fields_app (fields_app (fields_app (fields_const mkParse) conf_of) pkey_num) npkey_num.

(** A policy bit, for prime time, non-prime time or both. *)
Definition set_bits (prime : prime_time) (v : bool) (fp fn : bool -> config -> config) (c : config)
  : config :=
  let c := if for_prime prime then fp v c else c in
  if for_non_prime prime then fn v c else c.

(** [sort_by]: the first entry of the arrays. *)
Fixpoint set_sort_by (infos : list (sort_type * string)) (prime : prime_time) (value : string)
    (c : config) (error : bool) : outcome (config * bool) :=
  match infos with
  | [] => Ret (c, error)
  | (ty, name) :: infos' =>
      if String.eqb value name then
        let! c :=
          if for_prime prime then
            let! l := set_at 0 ty (prime_sort c) in Ret (c <| prime_sort := l |>)
          else Ret c in
        let! c :=
          if for_non_prime prime then
            let! l := set_at 0 ty (non_prime_sort c) in Ret (c <| non_prime_sort := l |>)
          else Ret c in
        set_sort_by infos' prime value c false
      else set_sort_by infos' prime value c error
  end.

(** [key]: both arrays are extended under the test for prime time. *)
Definition add_key (prime : prime_time) (ty : sort_type) (s : parse_state) : outcome parse_state :=
  if (for_prime prime && (pkey_num s <=? num_sorts)%nat)
     || (for_non_prime prime && (npkey_num s <=? num_sorts)%nat) then
    let! s :=
      if for_prime prime then
        let! l := set_at (pkey_num s) ty (prime_sort (conf_of s)) in
        Ret (mkParse (conf_of s <| prime_sort := l |>) (pkey_num s + 1) (npkey_num s))
      else Ret s in
    if for_prime prime then
      let! l := set_at (npkey_num s) ty (non_prime_sort (conf_of s)) in
      Ret (mkParse (conf_of s <| non_prime_sort := l |>) (pkey_num s) (npkey_num s + 1))
    else Ret s
  else Ret s.

Fixpoint set_key (infos : list (sort_type * string)) (prime : prime_time) (value : string)
    (s : parse_state) (error : bool) : outcome (parse_state * bool) :=
  match infos with
  | [] => Ret (s, error)
  | (ty, name) :: infos' =>
      if String.eqb value name then
        let! s := add_key prime ty s in set_key infos' prime value s false
      else set_key infos' prime value s error
  end.

(** The first empty buffer of a table of names receives the name; a full table
    is left alone. *)
Fixpoint fill_empty (l : list string) (v : string) : list string :=
  match l with
  | [] => []
  | x :: l' => if hd0 x =c NUL then v :: l' else x :: fill_empty l' v
  end.

(** What a line with a name and a value does: the new state and the error flag,
    which starts as [error].  Here the settings from [ignore_queue] on. *)
Definition apply_late_setting (name value rest_of_line : string) (num : Z) (error : bool)
    (s : parse_state) : outcome (parse_state * bool) :=
  let c := conf_of s in
  let bit := negb (num =? 0) in
  let ok c := Ret (s <| conf_of := c |>, error) in
  let name_of limit f :=
    if strlen value >? limit then Ret (s, true) else ok (f c) in
  if String.eqb name "ignore_queue" then
    name_of PBS_MAXQUEUENAME (fun c => c <| ignored_queues := fill_empty (ignored_queues c) value |>)
  else if String.eqb name "slave_server" then
    name_of PBS_MAXSERVERNAME (fun c => c <| slave_servers := fill_empty (slave_servers c) value |>)
  else if String.eqb name "default_queue" then
    name_of PBS_MAXQUEUENAME (fun c => c <| conf_default_queue := value |>)
  else if String.eqb name "job_moving" then ok (c <| move_jobs := bit |>)
  else if String.eqb name "fair_share_with_priority" then ok (c <| priority_fairshare := bit |>)
  else if String.eqb name "optim_minimal_queued" then ok (c <| optim_minimal_queued := num |>)
  else if String.eqb name "new_jobs_limit_per_cycle" then ok (c <| new_jobs_limit_per_cycle := num |>)
  else if String.eqb name "optim_duration_limit" then ok (c <| optim_duration_limit := num |>)
  else if String.eqb name "optim_timeout" then ok (c <| optim_timeout := num |>)
  else if String.eqb name "limit" then
    let! (m, error) := parse_limit rest_of_line (limits_for_clusters c) in
    Ret (s <| conf_of := c <| limits_for_clusters := m |> |>, error)
  else Ret (s, error).

(** The settings before [ignore_queue]. *)
Definition apply_setting (name value rest_of_line : string) (prime : prime_time) (num : Z)
    (error : bool) (s : parse_state) : outcome (parse_state * bool) :=
  let c := conf_of s in
  let bit := negb (num =? 0) in
  let ok c := Ret (s <| conf_of := c |>, error) in
  let bits fp fn := ok (set_bits prime bit fp fn c) in
  let name_of limit f :=
    if strlen value >? limit then Ret (s, true) else ok (f c) in
  if String.eqb name "round_robin" then
    bits (fun v c => c <| prime_rr := v |>) (fun v c => c <| non_prime_rr := v |>)
  else if String.eqb name "by_queue" then
    bits (fun v c => c <| prime_bq := v |>) (fun v c => c <| non_prime_bq := v |>)
  else if String.eqb name "strict_fifo" then
    bits (fun v c => c <| prime_sf := v |>) (fun v c => c <| non_prime_sf := v |>)
  else if String.eqb name "fair_share" then
    bits (fun v c => c <| prime_fs := v |>) (fun v c => c <| non_prime_fs := v |>)
  else if String.eqb name "load_balancing" then
    bits (fun v c => c <| prime_lb := v |>) (fun v c => c <| non_prime_lb := v |>)
  else if String.eqb name "help_starving_jobs" then
    bits (fun v c => c <| prime_hsv := v |>) (fun v c => c <| non_prime_hsv := v |>)
  else if String.eqb name "sort_queues" then
    bits (fun v c => c <| prime_sq := v |>) (fun v c => c <| non_prime_sq := v |>)
  else if String.eqb name "load_balancing_rr" then
    bits (fun v c => c <| prime_lbrr := v |>) (fun v c => c <| non_prime_lbrr := v |>)
  else if String.eqb name "ignore_remote_local_queues" then ok (c <| ignore_remote_local := bit |>)
  else if String.eqb name "max_starve" then ok (c <| max_starve := res_to_num value |>)
  else if String.eqb name "half_life" then ok (c <| half_life := res_to_num value |>)
  else if String.eqb name "sync_time" then ok (c <| sync_time := res_to_num value |>)
  else if String.eqb name "unknown_shares" then ok (c <| unknown_shares := num |>)
  else if String.eqb name "log_filter" then ok (c <| log_filter := num |>)
  else if String.eqb name "cycle_length" then ok (c <| max_cycle := res_to_num value |>)
  else if String.eqb name "max_user_run" then ok (c <| max_user_run_conf := i32 (res_to_num value) |>)
  else if String.eqb name "dedicated_prefix" then
    name_of PBS_MAXQUEUENAME (fun c => c <| ded_prefix := value |>)
  else if String.eqb name "local_server" then
    name_of PBS_MAXSERVERNAME (fun c => c <| local_server := value |>)
  else if String.eqb name "sort_by" then
    let! (c, error) := set_sort_by sorting_info prime value c true in
    Ret (s <| conf_of := c |>, error)
  else if String.eqb name "key" then set_key sorting_info prime value s true
  else apply_late_setting name value rest_of_line num error s.

(** [if (buf[strlen(buf)-1] == '\n') buf[strlen(buf)-1] = '\0'] *)
Fixpoint chomp (s : string) : string :=
  match s with
  | EmptyString => EmptyString
  | String c EmptyString => if Ascii.eqb c "010" then EmptyString else s
  | String c t => String c (chomp t)
  end.

Definition parse_config_line (s : parse_state) (buf : string) : outcome (parse_state * bool) :=
  if skip_line (Some buf) then Ret (s, false)
  else
    let buf := chomp buf in
    let tab := String "009" EmptyString in
    let '(config_name, saved) := strtok (": " ++ tab) buf in
    let '(config_value, saved) := strtok (" " ++ tab) saved in
    let '(prime_value, _) := strtok (" " ++ tab) saved in
    match config_name, config_value with
    | Some (name, _), Some (value, rest_of_line) =>
        let '(prime, error) := config_prime (fst <$> prime_value) in
        apply_setting name value rest_of_line prime (config_num value) error s
    | _, _ => Ret (s, true)
    end.

(** [parse_config]: the file ([None] when it cannot be opened) and the time of
    its last modification, when [stat] gives it. *)
Definition parse_config (file : option string) (st_mtime : option Z) (c : config)
  : outcome config :=
  match file with
  | None => Ret c
  | Some text =>
      let c := match st_mtime with Some m => c <| config_loaded := m |> | None => c end in
      let! s := ofold (fun s line => let! (s, _) := parse_config_line s line in Ret s)
                  (lines_of 255 text) (mkParse c 1 1) in
      Ret (conf_of s)
  end.

(** The allocations of [init_config], before the status is set. *)
Definition init_config_conf : config :=
  zero_config <| prime_sort := replicate (num_sorts + 1) NO_SORT |>
              <| non_prime_sort := replicate (num_sorts + 1) NO_SORT |>.

(** The defaults [init_config] sets at its end. *)
Definition init_config_defaults (c : config) : config :=
  c <| max_cycle := 60 * 60 |>
    <| ignored_queues := replicate MAX_IGNORED_QUEUES "" |>
    <| slave_servers := replicate MAX_SLAVE_SERVERS "" |>
    <| max_user_run_conf := 15 |>
    <| conf_default_queue := "default" |>
    <| limits_for_clusters := {[ "" := ∅ ]} |>.

Definition lf : string := String "010" EmptyString.

Definition example_file : string :=
  "# comment" ++ lf ++ "round_robin: False all" ++ lf ++ "fair_share: true" ++ lf ++ "sort_by: fair_share" ++ lf ++
  "key: large_walltime_first prime" ++ lf ++ "half_life: 24:00:00" ++ lf ++
  "ignore_queue: maint" ++ lf ++ "limit: zewura:16;3600;0.5;0.25;7200;1;0.75" ++ lf.

Example parse_example :
  match parse_config (Some example_file) None (init_config_defaults init_config_conf) with
  | Ret c => (prime_sort c !! 0%nat, prime_sort c !! 1%nat, non_prime_sort c !! 1%nat, half_life c,
              head (ignored_queues c), tresholds <$> (limits_for_clusters c !! "zewura" ≫= lookup 16))
             = (Some FAIR_SHARE, Some LARGE_WALLTIME_FIRST, Some LARGE_WALLTIME_FIRST, 86400,
                Some "maint", Some [3600; 7200])
  | _ => False
  end.
Proof. vm_compute. reflexivity. Qed.

(** ** The parser is safe and keeps the configuration well formed *)

(** The buffers are the arrays of the right lengths, every name fits its buffer,
    and, since both are extended under the test for prime time, the keys after
    the first are the same in prime and in non-prime time. *)
Record config_wf (c : config) : Prop := {
  wf_prime_sort : length (prime_sort c) = (num_sorts + 1)%nat;
  wf_non_prime_sort : length (non_prime_sort c) = (num_sorts + 1)%nat;
  wf_same_keys : tail (prime_sort c) = tail (non_prime_sort c);
  wf_ignored : length (ignored_queues c) = MAX_IGNORED_QUEUES;
  wf_ignored_fit : Forall (fun s => strlen s <= PBS_MAXQUEUENAME) (ignored_queues c);
  wf_slaves : length (slave_servers c) = MAX_SLAVE_SERVERS;
  wf_slaves_fit : Forall (fun s => strlen s <= PBS_MAXSERVERNAME) (slave_servers c);
  wf_ded_prefix : strlen (ded_prefix c) <= PBS_MAXQUEUENAME;
  wf_local_server : strlen (local_server c) <= PBS_MAXSERVERNAME;
  wf_default_queue : strlen (conf_default_queue c) <= PBS_MAXQUEUENAME
}.

Record parse_wf (s : parse_state) : Prop := {
  wf_conf : config_wf (conf_of s);
  wf_keys : (1 <= pkey_num s <= num_sorts + 1)%nat /\ npkey_num s = pkey_num s
}.

Lemma fill_empty_length l v : length (fill_empty l v) = length l.
Proof. induction l as [|x l IH]; simpl; [done|]. destruct (_ =c _); simpl; congruence. Qed.

Lemma fill_empty_Forall (P : string -> Prop) l v : P v -> Forall P l -> Forall P (fill_empty l v).
Proof. intros Hv. induction 1; simpl; [done|]. destruct (_ =c _); by constructor. Qed.

Lemma set_at_Ret {A} n (v : A) l : (n < length l)%nat -> set_at n v l = Ret (<[n := v]> l).
Proof. intros H. unfold set_at. by destruct (Nat.ltb_spec n (length l)); [|lia]. Qed.

Lemma tail_insert_S {A} n (v : A) l : tail (<[S n := v]> l) = <[n := v]> (tail l).
Proof. by destruct l. Qed.

Lemma set_sort_by_wf infos prime value c error :
  config_wf c -> exists c' e, set_sort_by infos prime value c error = Ret (c', e) /\ config_wf c'.
Proof.
  revert c error. induction infos as [|[ty name] infos IH]; intros c error Hc; cbn [set_sort_by]; [eauto|].
  destruct (String.eqb value name); [|by apply IH].
  assert (H1 : exists c1, (if for_prime prime then
            let! l := set_at 0 ty (prime_sort c) in Ret (c <| prime_sort := l |>)
          else Ret c) = Ret c1 /\ config_wf c1).
  { destruct (for_prime prime); [|by eexists]. destruct Hc as [Hp Hn Hk ??????].
    rewrite set_at_Ret by (rewrite Hp; unfold num_sorts; simpl; lia). eexists; split; [done|].
    split; cbn; try done; [by rewrite length_insert|]. rewrite <- Hk. by destruct (prime_sort c). }
  destruct H1 as (c1 & -> & Hc1). cbn [obind].
  assert (H2 : exists c2, (if for_non_prime prime then
            let! l := set_at 0 ty (non_prime_sort c1) in Ret (c1 <| non_prime_sort := l |>)
          else Ret c1) = Ret c2 /\ config_wf c2).
  { destruct (for_non_prime prime); [|by eexists]. destruct Hc1 as [Hp Hn Hk ??????].
    rewrite set_at_Ret by (rewrite Hn; unfold num_sorts; simpl; lia). eexists; split; [done|].
    split; cbn; try done; [by rewrite length_insert|]. rewrite Hk. by destruct (non_prime_sort c1). }
  destruct H2 as (c2 & -> & Hc2). cbn [obind]. by apply IH.
Qed.

Lemma add_key_wf prime ty s : parse_wf s -> exists s', add_key prime ty s = Ret s' /\ parse_wf s'.
Proof.
  intros [Hc [Hk Heq]]. unfold add_key. rewrite Heq.
  destruct (_ || _) eqn:E; [|by eexists].
  destruct (for_prime prime) eqn:Ep; cbn [obind]; [|by eexists].
  assert (Hle : (pkey_num s <= num_sorts)%nat).
  { apply orb_prop in E as [[_ E]%andb_prop|[_ E]%andb_prop]; by apply Nat.leb_le in E. }
  pose proof Hc as [Hp Hn Hsame ??????].
  rewrite set_at_Ret by (rewrite Hp; lia). cbn [obind conf_of pkey_num npkey_num].
  change (non_prime_sort (conf_of s <| prime_sort := <[pkey_num s:=ty]> (prime_sort (conf_of s)) |>))
    with (non_prime_sort (conf_of s)).
  rewrite set_at_Ret by (rewrite Hn; lia). cbn [obind].
  eexists; split; [done|]. split; [|cbn [pkey_num npkey_num]; lia].
  split; cbn; try done; rewrite ?length_insert; try done.
  destruct (pkey_num s) as [|k]; [lia|]. by rewrite !tail_insert_S, Hsame.
Qed.

Lemma set_key_wf infos prime value s error :
  parse_wf s -> exists s' e, set_key infos prime value s error = Ret (s', e) /\ parse_wf s'.
Proof.
  revert s error. induction infos as [|[ty name] infos IH]; intros s error Hs; cbn [set_key]; [eauto|].
  destruct (String.eqb value name); [|by apply IH].
  destruct (add_key_wf prime ty s Hs) as (s' & -> & Hs'). by apply IH.
Qed.

Lemma parse_limit_total v m :
  (exists m' e, parse_limit v m = Ret (m', e)) \/ (parse_limit v m = UB /\ strchr v ":" = None).
Proof.
  unfold parse_limit. destruct (split_at v ":") as [cl [rest|]] eqn:E.
  - left. destruct (strtol10 rest). destruct (negb _); [eauto|]. destruct (limit_loop _ _ _). eauto.
  - right. split; [done|]. revert cl E. induction v as [|c v IH]; intros cl; simpl; [done|].
    destruct (Ascii.eqb c ":"); [done|]. destruct (split_at v ":") as [a r]. intros [= _ ->]. eauto.
Qed.

(** A line [limit: value] whose value has no colon. *)
Definition colonless_limit (line : string) : bool :=
  if skip_line (Some line) then false
  else
    let tab := String "009" EmptyString in
    let '(config_name, saved) := strtok (": " ++ tab) (chomp line) in
    let '(config_value, _) := strtok (" " ++ tab) saved in
    match config_name, config_value with
    | Some (name, _), Some (_, rest) =>
        String.eqb name "limit" && match strchr rest ":" with None => true | Some _ => false end
    | _, _ => false
    end.

Ltac keep_wf := eexists _, _; split; [reflexivity|]; split; [|done]; split; cbn; done.

Lemma apply_setting_wf name value rest prime num error s :
  parse_wf s ->
  (exists s' e, apply_setting name value rest prime num error s = Ret (s', e) /\ parse_wf s') \/
  (apply_setting name value rest prime num error s = UB /\
   String.eqb name "limit" = true /\ strchr rest ":" = None).
Proof.
  intros [Hc Hk]. pose proof Hc as [].
  unfold apply_setting, apply_late_setting. cbv zeta.
  repeat match goal with
  | |- context [if String.eqb name ?n then _ else _] => destruct (String.eqb name n) eqn:?
  end.
  all: try (left; unfold set_bits; destruct (for_prime prime), (for_non_prime prime); keep_wf).
  all: try (left; keep_wf).
  all: try (left; destruct (strlen value >? _) eqn:E; [by eexists _, _|];
    eexists _, _; split; [reflexivity|]; split; [|done]; split; cbn; try done;
    rewrite ?fill_empty_length; try done; try apply fill_empty_Forall; try done;
    rewrite Z.gtb_ltb in E; apply Z.ltb_ge in E; exact E).
  - left. destruct (set_sort_by_wf sorting_info prime value _ true Hc) as (c' & e & -> & Hc').
    eexists _, _. split; [reflexivity|]. by split.
  - left. apply set_key_wf. by split.
  - destruct (parse_limit_total rest (limits_for_clusters (conf_of s))) as [(m & e & ->)|[-> H]].
    + left. keep_wf.
    + by right.
Qed.

Lemma parse_config_line_wf s line :
  parse_wf s ->
  (exists s' e, parse_config_line s line = Ret (s', e) /\ parse_wf s') \/
  (parse_config_line s line = UB /\ colonless_limit line = true).
Proof.
  intros Hs. unfold parse_config_line, colonless_limit.
  destruct (skip_line (Some line)); [left; eauto|]. cbv zeta.
  destruct (strtok _ (chomp line)) as [[[name sn]|] saved]; cbn beta iota;
    destruct (strtok _ saved) as [[[value sv]|] saved2]; cbn beta iota;
    destruct (strtok _ saved2) as [pv saved3]; [|left; eauto..].
  destruct (config_prime (fst <$> pv)) as [prime error].
  destruct (apply_setting_wf name value sv prime (config_num value) error s Hs)
    as [?|(-> & -> & ->)]; [by left|by right].
Qed.

Lemma init_config_wf : config_wf (init_config_defaults init_config_conf).
Proof. split; try done; by repeat constructor. Qed.

(** C38: The parser of the configuration file is memory safe whatever the file
    holds: every line is read into the configuration, never overrunning the
    arrays of sort keys, the tables of names or the buffers of names, and the
    configuration stays well formed; the one exception is a [limit] line whose
    value has no colon, which dereferences the null result of [strchr]. *)
Theorem parse_config_safe (file : option string) (mtime : option Z) (c : config) (Hc : config_wf c) :
  (exists c', parse_config file mtime c = Ret c' /\ config_wf c') \/
  (parse_config file mtime c = UB /\
   exists text line, file = Some text /\ line ∈ lines_of 255 text /\ colonless_limit line = true).
Proof.
  destruct file as [text|]; [|left; by exists c]. unfold parse_config.
  set (c1 := match mtime with Some m => _ | None => c end).
  assert (Hs : parse_wf (mkParse c1 1 1)).
  { split; [|cbn; lia]. subst c1. destruct mtime; [|done]. by destruct Hc; split. }
  assert (H : forall ls s, parse_wf s -> (forall l, l ∈ ls -> l ∈ lines_of 255 text) ->
    (exists s', ofold (fun s line => let! (s, _) := parse_config_line s line in Ret s) ls s = Ret s'
                /\ parse_wf s') \/
    (ofold (fun s line => let! (s, _) := parse_config_line s line in Ret s) ls s = UB /\
     exists line, line ∈ lines_of 255 text /\ colonless_limit line = true)).
  { clear. induction ls as [|l ls IH]; intros s Hs Hin; [left; eauto|]. cbn [ofold].
    destruct (parse_config_line_wf s l Hs) as [(s' & e & -> & Hs')|[-> Hl]]; cbn [obind].
    - apply IH; [done|]. intros l' ?. apply Hin. by right.
    - right. split; [done|]. exists l. split; [apply Hin; by left|done]. }
  destruct (H (lines_of 255 text) _ Hs ltac:(done)) as [(s' & -> & Hs')|(-> & line & Hin & Hl)].
  - left. cbn [obind]. exists (conf_of s'). by split; [|apply Hs'].
  - right. split; [done|]. by exists text, line.
Qed.

Lemma parse_config_safe_witness :
  parse_config (Some "limit: nocolon") None (init_config_defaults init_config_conf) = UB /\
  exists line, colonless_limit line = true.
Proof.
  destruct (parse_config_safe (Some "limit: nocolon") None _ init_config_wf)
    as [(c' & H & _)|(H & text & line & _ & _ & Hl)].
  - exfalso. revert H. by vm_compute.
  - split; [exact H|by exists line].
Defined.
