(* ===== verification/Prime.v ===== *)
(** * Prime time, holidays and dedicated time: prime.cpp, dedtime.cpp, and the
    parts of fifo.cpp and parse.cpp that set the cycle status

    The globals are threaded: the configuration, the status, and the static
    [last_day] of [is_prime_time].  The calendar of the C library, which depends
    on the time zone, is the pair of parameters [localtime] and [mktime]. *)

From Stdlib Require Import ZArith Lia Bool Ascii String SpecFloat.
From S2P Require Import Prelude CString CFloat MiscHelpers Config.

Local Open Scope string_scope.
Open Scope Z_scope.
Local Open Scope sched_scope.

Record tm := mkTm {
  tm_min : Z; tm_hour : Z; tm_mday : Z; tm_mon : Z; tm_year : Z;
  tm_wday : Z; tm_yday : Z; tm_isdst : Z
}.

Record globals := mkGlobals { conf : config; cstat : status; last_day : Z }.

#[export] Instance globals_fields : Fields globals :=
  fields_app (fields_app (fields_app (fields_const mkGlobals) conf) cstat) last_day.

(** ** prime.cpp *)

(** The scan of the first [n] holidays; reading past the array is undefined. *)
Fixpoint holiday_scan (n : nat) (l : list Z) (jdate : Z) : outcome bool :=
  match n with
  | O => Ret false
  | S n =>
      match l with
      | [] => UB
      | h :: l' => if h =? jdate then Ret true else holiday_scan n l' jdate
      end
  end.

Definition is_holiday (c : config) (jdate : Z) : outcome bool :=
  holiday_scan (Z.to_nat (num_holidays c)) (holidays c) jdate.

Definition check_prime (c : config) (d : days) (t : tm) : prime_time :=
  let p := prime_times c d PRIME in
  let np := prime_times c d NON_PRIME in
  let prime :=
    if all p then PRIME
    else if all np then NON_PRIME
    else if none p then NON_PRIME
    else if none np then PRIME
    else ALL in
  if hour np - hour p >=? 0 then
    if (tm_hour t >? hour p) && (tm_hour t <? hour np) then PRIME
    else if tm_hour t =? hour p then
      if hour p =? hour np then
        if (tm_min t >=? min p) && (tm_min t <? min np) then PRIME else NON_PRIME
      else if tm_min t >? min p then PRIME
      else NON_PRIME
    else NON_PRIME
  else
    if (tm_hour t >? hour p) || (tm_hour t <? hour np) then PRIME
    else NON_PRIME.

Definition day_kind (t : tm) : days :=
  if tm_wday t =? 0 then SUNDAY else if tm_wday t =? 6 then SATURDAY else WEEKDAY.

Section Calendar.
Variable localtime : Z -> tm.
Variable mktime : tm -> Z.

(** The answer and the new [last_day]. *)
Definition is_prime_time (c : config) (current_time last_day : Z) : outcome (prime_time * Z) :=
  let tmptr := localtime current_time in
  if negb (holiday_year c =? 0) then
    let! (ret, last_day) :=
      if tm_year tmptr >? holiday_year c then Ret (PRIME, last_day)
      else if tm_yday tmptr >? last_day then
        let! h := is_holiday c (tm_yday tmptr + 1) in
        Ret (if h then NON_PRIME else PRIME, tm_yday tmptr)
      else Ret (PRIME, last_day) in
    if bool_decide (ret = PRIME) then Ret (check_prime c (day_kind tmptr) tmptr, last_day)
    else Ret (ret, last_day)
  else Ret (PRIME, last_day).

(** [conf.prime[d][pr] = v] *)
Definition set_prime (d : days) (pr : prime_time) (v : t) (c : config) : config :=
  c <| prime_times := fun d' pr' =>
         if bool_decide (d' = d) && bool_decide (pr' = pr) then v else prime_times c d' pr' |>.

(** The configuration and whether the word was refused; the bit fields of the
    hours and minutes wrap. *)
Definition load_day (d : days) (pr : prime_time) (tok : option string) (c : config) : config * bool :=
  let old := prime_times c d pr in
  match tok with
  | None => (c, true)
  | Some tok =>
      if is_one_of tok ["all"; "ALL"] then (set_prime d pr (mkT 0 0 (none old) true) c, false)
      else if is_one_of tok ["none"; "NONE"] then (set_prime d pr (mkT 0 0 true (all old)) c, false)
      else
        let '(v, endp) := strtol10 tok in
        let num := i32 v in
        if hd0 endp =c NUL then
          (set_prime d pr (mkT (wrap_u 5 (Z.quot num 100)) (wrap_u 6 (Z.rem num 100)) (none old) (all old)) c,
           false)
        else (c, true)
  end.

(** The two words after the kind of day; the second is left when the first is
    refused.  The line's saved position follows. *)
Definition load_both (d : days) (saved : string) (c : config) : config * string :=
  let ws := " " ++ String "009" EmptyString in
  let '(tok, saved) := strtok ws saved in
  let '(c, error) := load_day d PRIME (fst <$> tok) c in
  if error then (c, saved)
  else
    let '(tok, saved) := strtok ws saved in
    (fst (load_day d NON_PRIME (fst <$> tok) c), saved).

Definition four_digits (s : string) : bool :=
  (strlen s =? 4) && forallb isdigit (list_ascii_of_string s).

Definition holiday_line (st : config * nat) (buf : string) : outcome (config * nat) :=
  let '(c, hol_index) := st in
  let buf := c_text buf in
  if String.eqb buf "" then UB
  else
  let buf := chomp buf in
  if skip_line (Some buf) then Ret st
  else
    let ws := " " ++ String "009" EmptyString in
    let '(tok, saved) := strtok ws buf in
    let! (config_name, _) := of_option tok in
    let '(c, saved) := if four_digits config_name then load_both WEEKDAY saved c else (c, saved) in
    if String.eqb config_name "HOLIDAYFILE_VERSION1" then Ret (c, hol_index)
    else if String.eqb config_name "YEAR" then
      match strtok ws saved with
      | (None, _) => Ret (c, hol_index)
      | (Some (tok, _), _) =>
          let '(num, endp) := strtol10 tok in
          if negb (hd0 endp =c NUL) then Ret (c, hol_index)
          else Ret (c <| holiday_year := i32 num |>, hol_index)
      end
    else if String.eqb config_name "saturday" then Ret (fst (load_both SATURDAY saved c), hol_index)
    else if String.eqb config_name "sunday" then Ret (fst (load_both SUNDAY saved c), hol_index)
    else if String.eqb config_name "weekday" then Ret (fst (load_both WEEKDAY saved c), hol_index)
    else
      let! l := set_at hol_index (i32 (fst (strtol10 config_name))) (holidays c) in
      Ret (c <| holidays := l |>, S hol_index).

Definition parse_holidays (file : option string) (c : config) : outcome config :=
  match file with
  | None => Ret c
  | Some text =>
      let! (c, hol_index) := ofold holiday_line (lines_of 255 text) (c, 0%nat) in
      Ret (c <| num_holidays := Z.of_nat hol_index + 1 |>)
  end.

Definition init_prime_time (c : config) (s : status) : status :=
  s <| is_prime := true |> <| round_robin := prime_rr c |> <| by_queue := prime_bq c |>
    <| strict_fifo := prime_sf c |> <| sort_by := SortPrime |> <| fair_share := prime_fs c |>
    <| load_balancing := prime_lb c |> <| help_starving_jobs := prime_hsv c |>
    <| sort_queues := prime_sq c |> <| load_balancing_rr := prime_lbrr c |>.

Definition init_non_prime_time (c : config) (s : status) : status :=
  s <| is_prime := false |> <| round_robin := non_prime_rr c |> <| by_queue := non_prime_bq c |>
    <| strict_fifo := non_prime_sf c |> <| sort_by := SortNonPrime |> <| fair_share := non_prime_fs c |>
    <| load_balancing := non_prime_lb c |> <| help_starving_jobs := non_prime_hsv c |>
    <| sort_queues := non_prime_sq c |> <| load_balancing_rr := non_prime_lbrr c |>.

(** ** dedtime.cpp *)

Definition cmp_ded_time (v1 v2 : timegap) : Z :=
  if (from v1 =? 0) && negb (from v2 =? 0) then 1
  else if (from v2 =? 0) && negb (from v1 =? 0) then -1
  else if from v1 >? from v2 then 1
  else if from v1 <? from v2 then -1
  else 0.

(** [qsort] with [cmp_ded_time]; gaps that compare equal keep their order, as
    the merge sort of the C library leaves them. *)
Definition ded_lt (v1 v2 : timegap) : bool := cmp_ded_time v1 v2 <? 0.
Definition sort_ded (l : list timegap) : list timegap := isort ded_lt l.

Definition is_ded_time (c : config) (current_time : Z) : outcome bool :=
  match ded_time c with
  | g :: _ => Ret ((current_time >? from g) && (current_time <? to g))
  | [] => UB
  end.

(** [memset(conf.ded_time, 0, MAX_DEDTIME_SIZE)] clears as many bytes, not
    elements: three gaps and the low two bytes of the fourth. *)
Definition memset_ded (l : list timegap) : list timegap :=
  match l with
  | _ :: _ :: _ :: d :: l' =>
      mkGap 0 0 :: mkGap 0 0 :: mkGap 0 0 :: mkGap (from d - from d mod 65536) (to d) :: l'
  | _ => map (fun _ => mkGap 0 0) l
  end.

(** The conversions of [sscanf]: [%d], a character, white space. *)
Definition scan_d (s : string) : option (Z * string) :=
  let '(v, r) := strtol10 s in
  if (String.length r =? String.length s)%nat then None else Some (i32 v, r).
Definition scan_char (c : ascii) (s : string) : option string :=
  if hd0 s =c c then Some (tl0 s) else None.

(** [%d/%d/%d %d:%d] *)
Definition scan_date (s : string) : option (tm * string) :=
  scan_d s ≫= fun '(mon, s) => scan_char "/" s ≫= fun s =>
  scan_d s ≫= fun '(mday, s) => scan_char "/" s ≫= fun s =>
  scan_d s ≫= fun '(year, s) =>
  scan_d (skip_spaces s) ≫= fun '(h, s) => scan_char ":" s ≫= fun s =>
  scan_d s ≫= fun '(m, s) => Some (mkTm m h mday mon year 0 0 (-1), s).

Definition in_century (y : Z) : Z := if y <? 90 then i32 (y + 100) else y.
Definition from_1900 (y : Z) : Z := if y >? 1900 then y - 1900 else y.

(** The gap of a line; a date with a two-digit year is moved to its century,
    which the code does to the start in both places. *)
Definition ded_line_gap (line : string) : option timegap :=
  scan_date line ≫= fun '(f, s) =>
  scan_date (skip_spaces s) ≫= fun '(g, _) =>
  let with_date (t : tm) (year : Z) :=
    mkTm (tm_min t) (tm_hour t) (tm_mday t) (i32 (tm_mon t - 1)) year 0 0 (-1) in
  Some (mkGap (mktime (with_date f (from_1900 (in_century (tm_year f)))))
              (mktime (with_date g (from_1900 (tm_year g))))).

Definition passed (g : timegap) (current_time : Z) : bool :=
  (from g <? current_time) && (to g <? current_time).

Definition ded_line (current_time : Z) (st : list timegap * nat) (line : string)
  : outcome (list timegap * nat) :=
  if skip_line (Some line) then Ret st
  else
    match ded_line_gap line with
    | None => Ret st
    | Some g =>
        if negb (passed g current_time) then
          let! l := set_at (snd st) g (fst st) in Ret (l, S (snd st))
        else Ret st
    end.

Definition parse_ded_file (file : option string) (current_time : Z) (c : config) : outcome config :=
  match file with
  | None => Ret c
  | Some text =>
      let! (l, _) := ofold (ded_line current_time) (lines_of 255 text) (memset_ded (ded_time c), 0%nat) in
      Ret (c <| ded_time := sort_ded l |>)
  end.

(** ** The status: fifo.cpp (schedinit, update_cycle_status), parse.cpp *)

(** [init_config]: [cstat] is cleared, so that prime time is judged at the epoch. *)
Definition init_config (last : Z) : outcome globals :=
  let c := init_config_conf in
  let! (p, last) := is_prime_time c 0 last in
  let s := if bool_decide (p = PRIME) then init_prime_time c zero_status
           else init_non_prime_time c zero_status in
  Ret (mkGlobals (init_config_defaults c) s last).

(** A configuration file that is newer than the configuration is read again;
    the previous configuration and status are dropped. *)
Definition reinit_config (st_mtime : option Z) (g : globals) : outcome (globals * bool) :=
  match st_mtime with
  | None => Ret (g, false)
  | Some m =>
      if m <=? config_loaded (conf g) then Ret (g, false)
      else let! g := init_config (last_day g) in Ret (g, true)
  end.

(** [if (reinit_config(CONFIG_FILE)) parse_config(CONFIG_FILE);] *)
Definition reload (file : option string) (st_mtime : option Z) (g : globals) : outcome globals :=
  let! (g, reloaded) := reinit_config st_mtime g in
  if reloaded then
    let! c := parse_config file st_mtime (conf g) in Ret (g <| conf := c |>)
  else Ret g.

(** The files and the time [schedinit] reads.  The condition of its status
    initialization, the value of [is_prime_time], is never zero. *)
Definition schedinit (config_file holidays_file dedtime_file : option string) (st_mtime : option Z)
    (now : Z) : outcome globals :=
  let! g := init_config (-1) in
  let! c := parse_config config_file st_mtime (conf g) in
  let! c := parse_holidays holidays_file c in
  let s := cstat g <| current_time := now |> in
  let! (p, last) := is_prime_time c now (last_day g) in
  let s := init_prime_time c s in
  let! c := parse_ded_file dedtime_file now c in
  Ret (mkGlobals c s last).

Definition update_cycle_status (now : Z) (g : globals) : outcome globals :=
  let s := cstat g <| current_time := now |> in
  let! dedtime := is_ded_time (conf g) now in
  let c :=
    if st_ded_time s && negb dedtime then
      conf g <| ded_time := sort_ded (<[0%nat := mkGap 0 0]> (ded_time (conf g))) |>
    else conf g in
  let s := s <| st_ded_time := dedtime |> in
  let! (prime, last) := is_prime_time c now (last_day g) in
  let s :=
    if bool_decide (prime = PRIME) && negb (is_prime s) then init_prime_time c s
    else if bool_decide (prime = NON_PRIME) && is_prime s then init_non_prime_time c s
    else s in
  Ret (mkGlobals c s last).
End Calendar.

(** ** Prime time *)

(** What [check_prime] answers, to the minute.  When prime time starts and
    ends within the same hour it is the interval the configuration gives; within
    a day it starts a minute late and ends at the start of its last hour; across
    midnight it runs from the hour after its start to the start of its last
    hour.  The flags for all-day and no prime time, which the comment of the
    function lists as its first four cases, have no influence. *)
Theorem check_prime_exact (c : config) (d : days) (t : tm)
    (Hp : 0 <= min (prime_times c d PRIME) < 60) (Hnp : 0 <= min (prime_times c d NON_PRIME) < 60)
    (Ht : 0 <= tm_min t < 60) :
  let start := 60 * hour (prime_times c d PRIME) + min (prime_times c d PRIME) in
  let stop := 60 * hour (prime_times c d NON_PRIME) + min (prime_times c d NON_PRIME) in
  let tod := 60 * tm_hour t + tm_min t in
  let hstart := hour (prime_times c d PRIME) in
  let hstop := hour (prime_times c d NON_PRIME) in
  check_prime c d t = PRIME <->
    (hstart = hstop /\ start <= tod < stop) \/
    (hstart < hstop /\ start < tod < 60 * hstop) \/
    (hstart > hstop /\ (60 * (hstart + 1) <= tod \/ tod < 60 * hstop)).
Proof.
  intros start stop tod hstart hstop. subst start stop tod hstart hstop.
  unfold check_prime. cbv zeta.
  generalize dependent (prime_times c d PRIME). generalize dependent (prime_times c d NON_PRIME).
  intros np Hnp p Hp. case_bools; split; intros; try done; try lia; exfalso; try lia.
  all: destruct H as [H|[H|H]]; lia.
Qed.

Definition nine_to_five : config :=
  set_prime WEEKDAY NON_PRIME (mkT 17 0 false false)
    (set_prime WEEKDAY PRIME (mkT 9 0 false false) init_config_conf).

Lemma check_prime_exact_witness :
  check_prime nine_to_five WEEKDAY (mkTm 1 9 0 0 0 1 0 0) = PRIME /\
  check_prime nine_to_five WEEKDAY (mkTm 0 9 0 0 0 1 0 0) <> PRIME.
Proof.
  split.
  - apply check_prime_exact; simpl; lia.
  - intros H. apply check_prime_exact in H; simpl in *; lia.
Defined.

(** ** The configuration file leaves the calendar alone *)

Definition same_calendar (c c' : config) : Prop :=
  ded_time c' = ded_time c /\ holiday_year c' = holiday_year c /\ holidays c' = holidays c /\
  num_holidays c' = num_holidays c /\ prime_times c' = prime_times c.

Lemma same_calendar_trans a b c : same_calendar a b -> same_calendar b c -> same_calendar a c.
Proof. intros (?&?&?&?&?) (?&?&?&?&?). split_and!; congruence. Qed.

Lemma same_calendar_refl c : same_calendar c c.
Proof. by split_and!. Qed.

(** Case analysis on a [set_at] that may be undefined. *)
Ltac set_at_cases :=
  repeat match goal with
  | |- context [set_at ?n ?v ?l] => destruct (set_at n v l); cbn [obind]; [|done..]
  end.

Lemma set_sort_by_calendar infos prime value c error c' e :
  set_sort_by infos prime value c error = Ret (c', e) -> same_calendar c c'.
Proof.
  revert c error. induction infos as [|[ty name] infos IH]; intros c error; cbn [set_sort_by].
  { intros [= <- <-]. apply same_calendar_refl. }
  destruct (String.eqb value name); [|apply IH].
  destruct (for_prime prime), (for_non_prime prime); cbn [obind]; set_at_cases;
    intros H%IH; (eapply same_calendar_trans; [|exact H]); by split_and!.
Qed.

Lemma set_key_calendar infos prime value s error s' e :
  set_key infos prime value s error = Ret (s', e) -> same_calendar (conf_of s) (conf_of s').
Proof.
  revert s error. induction infos as [|[ty name] infos IH]; intros s error; cbn [set_key].
  { intros [= <- <-]. apply same_calendar_refl. }
  destruct (String.eqb value name); [|apply IH].
  unfold add_key. destruct (_ || _); cbn [obind]; [|apply IH].
  destruct (for_prime prime); cbn [obind]; [|apply IH]. set_at_cases.
  intros H%IH. eapply same_calendar_trans; [|exact H]. by split_and!.
Qed.

Lemma apply_setting_calendar name value rest prime num error s s' e :
  apply_setting name value rest prime num error s = Ret (s', e) ->
  same_calendar (conf_of s) (conf_of s').
Proof.
  unfold apply_setting, apply_late_setting. cbv zeta.
  repeat match goal with
  | |- context [if String.eqb name ?n then _ else _] => destruct (String.eqb name n)
  end.
  all: try (destruct (strlen value >? _)).
  all: try (unfold set_bits; destruct (for_prime prime), (for_non_prime prime)).
  all: try (intros [= <- <-]; by split_and!).
  all: try apply set_key_calendar.
  all: try (destruct (set_sort_by _ _ _ _ _) as [[]| |] eqn:E; cbn [obind]; [|done..];
            intros [= <- <-]; by apply set_sort_by_calendar in E).
  all: destruct (parse_limit _ _) as [[]| |]; cbn [obind]; [|done..]; intros [= <- <-]; by split_and!.
Qed.

Lemma parse_config_calendar file m c c' :
  parse_config file m c = Ret c' -> same_calendar c c'.
Proof.
  destruct file as [text|]; simpl; [|intros [= <-]; apply same_calendar_refl].
  set (c1 := match m with Some _ => _ | None => c end).
  assert (H1 : same_calendar c c1) by (subst c1; destruct m; by split_and!).
  destruct (ofold _ _ _) as [s| |] eqn:E; cbn [obind]; [|done..]. intros [= <-].
  eapply ofold_invariant with (I := fun s => same_calendar c (conf_of s)) in E; [done| |done].
  intros s0 line s1 Hs0 _. unfold parse_config_line. destruct (skip_line _); [by intros [= <-]|].
  cbv zeta. repeat (destruct (strtok _ _) as [[[]|] ?]); cbn [obind]; try by intros [= <-].
  all: destruct (config_prime _); destruct (apply_setting _ _ _ _ _ _ _) as [[]| |] eqn:Es;
    cbn [obind]; [|done..]; intros [= <-]; apply apply_setting_calendar in Es;
    by eapply same_calendar_trans.
Qed.

(** ** Dedicated times stay in order *)

Definition ded_key (g : timegap) : list Z := [if from g =? 0 then 1 else 0; from g].

Lemma ded_lt_lex a b : ded_lt a b = lex_then ded_key (fun _ _ => false) a b.
Proof.
  unfold ded_lt, cmp_ded_time, lex_then, ded_key. cbn [lex].
  rewrite Z.gtb_ltb. unfold Z.ltb at 2 3.
  rewrite (Z.compare_antisym (from a) (from b)).
  destruct (Z.eqb_spec (from a) 0), (Z.eqb_spec (from b) 0); simpl;
    destruct (from a ?= from b) eqn:E; done.
Qed.

Lemma ded_lt_swo : StrictWeakOrder ded_lt.
Proof. eapply swo_ext; [|apply (lex_then_swo ded_key), trivial_swo]. intros. by rewrite ded_lt_lex. Qed.

Lemma sort_ded_ordered l : ordered ded_lt (sort_ded l).
Proof. apply isort_ordered, ded_lt_swo. Qed.

Lemma sort_ded_length l : length (sort_ded l) = length l.
Proof. unfold sort_ded. by rewrite isort_perm. Qed.

(** ** The cycle of the globals *)

Section Cycle.
Variable localtime : Z -> tm.

(** What [plan_run] does to the globals, in any order and any number of times. *)
Inductive cycle : globals -> globals -> Prop :=
| cycle_reload file st_mtime g g' : reload localtime file st_mtime g = Ret g' -> cycle g g'
| cycle_update now g g' : update_cycle_status localtime now g = Ret g' -> cycle g g'.

Inductive reachable (g : globals) : globals -> Prop :=
| reach_here : reachable g g
| reach_step g1 g2 : reachable g g1 -> cycle g1 g2 -> reachable g g2.

Record globals_wf (g : globals) : Prop := {
  gw_conf : config_wf (conf g);
  gw_ded_ordered : ordered ded_lt (ded_time (conf g));
  gw_ded_length : length (ded_time (conf g)) = MAX_DEDTIME_SIZE;
  gw_sort_by : sort_by (cstat g) <> SortNull
}.

Lemma zero_gaps_ordered : ordered ded_lt (replicate MAX_DEDTIME_SIZE (mkGap 0 0)).
Proof. generalize MAX_DEDTIME_SIZE. induction n; simpl; [done|]. split; [|done]. by apply Forall_replicate. Qed.

Lemma init_config_Ret last :
  init_config localtime last
  = Ret (mkGlobals (init_config_defaults init_config_conf) (init_prime_time init_config_conf zero_status) last).
Proof. done. Qed.

Lemma parse_config_wf file m c c' : config_wf c -> parse_config file m c = Ret c' -> config_wf c'.
Proof.
  intros Hc H. destruct file as [text|]; [|by injection H as <-]. revert H. unfold parse_config.
  set (c1 := match m with Some _ => _ | None => c end).
  assert (Hs : parse_wf (mkParse c1 1 1)).
  { split; [|cbn; lia]. subst c1. destruct m; [|done]. by destruct Hc; split. }
  destruct (ofold _ _ _) as [s| |] eqn:E; cbn [obind]; [|done..]. intros [= <-].
  eapply ofold_invariant with (I := parse_wf) in E; [apply E| |done].
  intros s0 line s1 Hs0 _. destruct (parse_config_line_wf s0 line Hs0) as [(s' & e & -> & Hs')|[-> _]];
    cbn [obind]; [by intros [= <-]|done].
Qed.

Lemma init_globals_wf last :
  globals_wf (mkGlobals (init_config_defaults init_config_conf) (init_prime_time init_config_conf zero_status) last).
Proof.
  split; [apply init_config_wf|apply zero_gaps_ordered|done|done].
Qed.

Lemma parse_config_globals_wf file m g c :
  globals_wf g -> parse_config file m (conf g) = Ret c -> globals_wf (g <| conf := c |>).
Proof.
  intros [] H. destruct (parse_config_calendar _ _ _ _ H) as (Ed & _).
  split; cbn; rewrite ?Ed; try done. by eapply parse_config_wf.
Qed.

Lemma reload_wf file m g g' : globals_wf g -> reload localtime file m g = Ret g' -> globals_wf g'.
Proof.
  intros Hg. unfold reload, reinit_config. destruct m as [m|]; cbn [obind]; [|by intros [= <-]].
  destruct (m <=? _); cbn [obind]; [by intros [= <-]|].
  rewrite init_config_Ret. cbn [obind].
  destruct (parse_config _ _ _) as [c| |] eqn:E; cbn [obind]; [|done..]. intros [= <-].
  by eapply parse_config_globals_wf in E; [|apply init_globals_wf].
Qed.

Lemma update_wf now g g' : globals_wf g -> update_cycle_status localtime now g = Ret g' -> globals_wf g'.
Proof.
  intros [Hc Ho Hl Hs]. unfold update_cycle_status. cbv zeta.
  destruct (is_ded_time _ _) as [ded| |]; cbn [obind]; [|done..].
  destruct (is_prime_time _ _ _ _) as [[prime last]| |]; cbn [obind]; [|done..]. intros [= <-].
  split; cbn [conf cstat].
  - destruct (_ && _); [|done]. by destruct Hc; split.
  - destruct (_ && _); [|done]. apply sort_ded_ordered.
  - destruct (_ && _); [|done]. cbn. by rewrite sort_ded_length, length_insert.
  - destruct (bool_decide (prime = PRIME) && _); [done|].
    destruct (bool_decide (prime = NON_PRIME) && _); done.
Qed.
End Cycle.

Lemma load_both_frame d saved c :
  ded_time (fst (load_both d saved c)) = ded_time c /\
  (config_wf c -> config_wf (fst (load_both d saved c))).
Proof.
  assert (H : forall d pr tok c, ded_time (fst (load_day d pr tok c)) = ded_time c /\
    (config_wf c -> config_wf (fst (load_day d pr tok c)))).
  { clear. intros d pr [tok|] c; [|done]. unfold load_day. cbv zeta.
    destruct (is_one_of _ _); [by split; [|intros []; split]|].
    destruct (is_one_of _ _); [by split; [|intros []; split]|].
    destruct (strtol10 tok). destruct (_ =c _); [by split; [|intros []; split]|done]. }
  unfold load_both. cbv zeta. destruct (strtok _ saved) as [tok s1].
  pose proof (H d PRIME (fst <$> tok) c) as [H1 H2].
  destruct (load_day d PRIME _ c) as [c1 e]. cbn [fst] in *. destruct e; [done|].
  destruct (strtok _ s1) as [tok2 s2]. cbn [fst].
  pose proof (H d NON_PRIME (fst <$> tok2) c1) as [H3 H4]. split; [congruence|eauto].
Qed.

Definition frames_ded (c c' : config) : Prop :=
  ded_time c' = ded_time c /\ (config_wf c -> config_wf c').

Lemma frames_ded_trans a b c : frames_ded a b -> frames_ded b c -> frames_ded a c.
Proof. intros [] []. split; [congruence|eauto]. Qed.

Lemma holiday_line_frame st buf st' : holiday_line st buf = Ret st' -> frames_ded (fst st) (fst st').
Proof.
  destruct st as [c i]. unfold holiday_line. cbv zeta. destruct (String.eqb (c_text buf) ""); [done|].
  destruct (skip_line _); [by intros [= <-]|].
  destruct (strtok _ (chomp (c_text buf))) as [[[name ?]|] saved]; cbn [of_option obind]; [|done].
  destruct (if four_digits name then _ else _) as [c1 s1] eqn:E1.
  assert (H1 : frames_ded c c1).
  { destruct (four_digits name); [|by injection E1 as <- <-].
    pose proof (load_both_frame WEEKDAY saved c) as H. by rewrite E1 in H. }
  destruct (String.eqb name "HOLIDAYFILE_VERSION1"); [by intros [= <-]|].
  destruct (String.eqb name "YEAR").
  { destruct (strtok _ s1) as [[[tok ?]|] ?]; [|by intros [= <-]].
    destruct (strtol10 tok) as [num endp]. destruct (negb _); intros [= <-]; [done|].
    eapply frames_ded_trans; [exact H1|]. by split; [|intros []; split]. }
  repeat (match goal with |- context [if String.eqb name ?n then _ else _] => destruct (String.eqb name n) end;
    [intros [= <-]; eapply frames_ded_trans; [exact H1|apply load_both_frame]|]).
  destruct (set_at _ _ _); cbn [obind]; [|done..]. intros [= <-].
  eapply frames_ded_trans; [exact H1|]. by split; [|intros []; split].
Qed.

Lemma parse_holidays_frame file c c' : parse_holidays file c = Ret c' -> frames_ded c c'.
Proof.
  destruct file as [text|]; simpl; [|by intros [= <-]].
  destruct (ofold _ _ _) as [[c1 i]| |] eqn:E; cbn [obind]; [|done..]. intros [= <-].
  eapply ofold_invariant with (I := fun st => frames_ded c (fst st)) in E; [| |done].
  - eapply frames_ded_trans; [exact E|]. by split; [|intros []; split].
  - intros st line st1 Hst _ H. eapply frames_ded_trans; [exact Hst|]. by eapply holiday_line_frame.
Qed.

Lemma parse_ded_file_wf mktime file now c c' :
  config_wf c -> length (ded_time c) = MAX_DEDTIME_SIZE -> ordered ded_lt (ded_time c) ->
  parse_ded_file mktime file now c = Ret c' ->
  config_wf c' /\ length (ded_time c') = MAX_DEDTIME_SIZE /\ ordered ded_lt (ded_time c').
Proof.
  intros Hc Hl Ho. destruct file as [text|]; simpl; [|by intros [= <-]].
  destruct (ofold _ _ _) as [[l i]| |] eqn:E; cbn [obind]; [|done..]. intros [= <-].
  split; [by destruct Hc; split|]. split; [|apply sort_ded_ordered]. cbn. rewrite sort_ded_length.
  eapply ofold_invariant with (I := fun st => length (fst st) = MAX_DEDTIME_SIZE) in E; [done| |].
  - intros [l0 i0] line [l1 i1] H _. cbn [fst] in *. unfold ded_line.
    destruct (skip_line _); [by intros [= <- <-]|].
    destruct (ded_line_gap _ _) as [g|]; [|by intros [= <- <-]].
    destruct (negb _); [|by intros [= <- <-]]. unfold set_at. cbn [fst snd].
    destruct (_ <? _)%nat; cbn [obind]; [|done]. intros [= <- <-]. by rewrite length_insert.
  - cbn [fst]. destruct (ded_time c) as [|? [|? [|? [|? ?]]]]; done.
Qed.

Lemma schedinit_wf localtime mktime cf hf df m now g :
  schedinit localtime mktime cf hf df m now = Ret g -> globals_wf g.
Proof.
  unfold schedinit. rewrite init_config_Ret. cbn [obind].
  destruct (parse_config _ _ _) as [c1| |] eqn:E1; cbn [obind]; [|done..].
  destruct (parse_holidays _ _) as [c2| |] eqn:E2; cbn [obind]; [|done..].
  destruct (is_prime_time _ _ _ _) as [[p last]| |]; cbn [obind]; [|done..].
  destruct (parse_ded_file _ _ _ _) as [c3| |] eqn:E3; cbn [obind]; [|done..]. intros [= <-].
  pose proof (parse_config_globals_wf _ _ _ _ (init_globals_wf (-1)) E1) as [H1 H2 H3 _].
  cbn in H1, H2, H3. destruct (parse_holidays_frame _ _ _ E2) as [H4 H5].
  destruct (parse_ded_file_wf mktime df now c2 c3 (H5 H1)) as (? & ? & ?);
    [by rewrite H4|by rewrite H4|exact E3|]. by split.
Qed.

(** C39: Whatever the configuration, holiday and dedicated-time files hold, from
    the start of the scheduler on and through any sequence of reloads and cycle
    starts that are defined, the sort keys and name tables are well formed, the
    status points to an array of sort keys, and the table of dedicated times
    keeps its length and its order, the coming ones first, by their start. *)
Theorem globals_always_wf (localtime : Z -> tm) (mktime : tm -> Z)
    (config_file holidays_file dedtime_file : option string) (m : option Z) (now : Z)
    (g0 g : globals)
    (Hinit : schedinit localtime mktime config_file holidays_file dedtime_file m now = Ret g0)
    (Hreach : reachable localtime g0 g) :
  globals_wf g.
Proof.
  induction Hreach as [|g1 g2 _ IH Hstep]; [by eapply schedinit_wf|].
  destruct Hstep; [by eapply reload_wf|by eapply update_wf].
Qed.

(** A time zone without daylight saving, on the scale of minutes. *)
Definition toy_localtime (z : Z) : tm := mkTm (z / 60 mod 60) (z / 3600 mod 24) 1 0 99 1 (z / 86400 mod 365) 0.
Definition toy_mktime (t : tm) : Z :=
  60 * tm_min t + 3600 * tm_hour t + 86400 * (tm_mday t - 1 + 31 * tm_mon t + 365 * (tm_year t - 100)).

Definition ded_example : string :=
  "01/03/2000 08:00 01/03/2000 18:00" ++ lf ++ "# later" ++ lf ++ "01/02/2000 08:00 01/02/2000 18:00" ++ lf.

Definition example_globals : outcome globals :=
  schedinit toy_localtime toy_mktime (Some example_file) (Some ("YEAR 2000" ++ lf)) (Some ded_example)
    (Some 5) 1000.

Lemma globals_always_wf_witness :
  exists g0 g, example_globals = Ret g0 /\
    update_cycle_status toy_localtime 120000 g0 = Ret g /\ st_ded_time (cstat g) = true /\ globals_wf g /\
    take 2 (ded_time (conf g)) = [mkGap 115200 151200; mkGap 201600 237600].
Proof.
  unfold example_globals. eexists _, _.
  match goal with |- ?A = Ret _ /\ _ =>
    let v := eval vm_compute in A in
    match v with Ret ?x => assert (H0 : A = Ret x) by (vm_compute; reflexivity) end end.
  split; [exact H0|]. split; [vm_compute; reflexivity|]. split; [reflexivity|]. split; [|reflexivity].
  eapply globals_always_wf; [exact H0|]. eapply reach_step; [apply reach_here|].
  eapply (cycle_update _ 120000). vm_compute. reflexivity.
Defined.

(** ** What a reload forgets *)

(** No policy of the configuration is in force, no holiday and no dedicated time
    is known. *)
Record policies_off (g : globals) : Prop := {
  off_holidays : holiday_year (conf g) = 0;
  off_ded_time : ded_time (conf g) = replicate MAX_DEDTIME_SIZE (mkGap 0 0);
  off_fair_share : fair_share (cstat g) = false;
  off_by_queue : by_queue (cstat g) = false;
  off_strict_fifo : strict_fifo (cstat g) = false;
  off_sort_queues : sort_queues (cstat g) = false;
  off_help_starving : help_starving_jobs (cstat g) = false;
  off_prime : is_prime (cstat g) = true;
  off_ded : st_ded_time (cstat g) = false
}.

Lemma reload_off localtime file m g g' :
  reload localtime file m g = Ret g' ->
  (policies_off g \/ exists t, m = Some t /\ config_loaded (conf g) < t) -> policies_off g'.
Proof.
  unfold reload, reinit_config. destruct m as [m|]; cbn [obind]; [|by intros [= <-] [|(? & ? & _)]].
  destruct (Z.leb_spec m (config_loaded (conf g))) as [Hm|Hm]; cbn [obind].
  { intros [= <-] [|(t & [= <-] & ?)]; [done|lia]. }
  rewrite init_config_Ret. cbn [obind].
  destruct (parse_config _ _ _) as [c| |] eqn:E; cbn [obind]; [|done..]. intros [= <-] _.
  destruct (parse_config_calendar _ _ _ _ E) as (E1 & E2 & _). by split.
Qed.

Lemma update_off localtime now g g' :
  policies_off g -> update_cycle_status localtime now g = Ret g' -> policies_off g'.
Proof.
  intros []. unfold update_cycle_status. cbv zeta. unfold is_ded_time. rewrite off_ded_time0.
  cbn [replicate MAX_DEDTIME_SIZE obind from to].
  assert ((now >? 0) && (now <? 0) = false) as -> by (case_bools; lia).
  change (st_ded_time (cstat g <| current_time := now |>)) with (st_ded_time (cstat g)).
  rewrite off_ded0. cbn [andb]. unfold is_prime_time. rewrite off_holidays0. cbn [Z.eqb negb obind].
  intros [= <-].
  change (is_prime (cstat g <| current_time := now |> <| st_ded_time := false |>)) with (is_prime (cstat g)).
  rewrite off_prime0. by split.
Qed.

(** The first time the scheduler finds its configuration file newer than the
    configuration it holds and reads it again, it forgets the holidays and the
    dedicated times, and the policies of the file - fair share, by queue, strict
    FIFO, sorting of queues, help for starving jobs - are off; they stay off
    through every later cycle and reload, whatever the file says: the status is
    set before the file is read and is only refreshed when prime time changes,
    which without a holiday year it never does. *)
Theorem reload_disables_policies (localtime : Z -> tm) (file : option string) (m : Z)
    (g g1 g2 : globals) (Hnewer : config_loaded (conf g) < m)
    (Hreload : reload localtime file (Some m) g = Ret g1) (Hlater : reachable localtime g1 g2) :
  policies_off g2.
Proof.
  induction Hlater as [|g2 g3 _ IH Hstep]; [|destruct Hstep as [f m' ? ? H|now ? ? H]].
  - eapply reload_off; [done|]. right. eauto.
  - eapply reload_off; [done|by left].
  - by eapply update_off.
Qed.

Lemma reload_disables_policies_witness :
  exists g g1, example_globals = Ret g /\ fair_share (cstat g) = true /\
    reload toy_localtime (Some ("fair_share: true" ++ lf)) (Some 6) g = Ret g1 /\
    prime_fs (conf g1) = true /\ fair_share (cstat g1) = false.
Proof.
  unfold example_globals. eexists _, _.
  match goal with |- ?A = Ret _ /\ _ =>
    let v := eval vm_compute in A in
    match v with Ret ?x => assert (H0 : A = Ret x) by (vm_compute; reflexivity) end end.
  split; [exact H0|]. split; [reflexivity|].
  match goal with |- ?A = Ret _ /\ _ =>
    let v := eval vm_compute in A in
    match v with Ret ?x => assert (H1 : A = Ret x) by (vm_compute; reflexivity) end end.
  split; [exact H1|]. split; [reflexivity|].
  refine (off_fair_share _ (reload_disables_policies _ _ _ _ _ _ _ H1 (reach_here _ _))).
  vm_compute. reflexivity.
Defined.

(** On a holiday only the first call of the day looks at the holidays: a later
    one answers as on any other day. *)
Lemma holiday_seen_once localtime c now last p last' now' :
  is_prime_time localtime c now last = Ret (p, last') ->
  last < tm_yday (localtime now) -> tm_year (localtime now) <= holiday_year c ->
  holiday_year c <> 0 -> tm_yday (localtime now') = tm_yday (localtime now) ->
  is_prime_time localtime c now' last' = Ret (check_prime c (day_kind (localtime now')) (localtime now'), last').
Proof.
  unfold is_prime_time. cbv zeta. intros H Hlast Hyear Hy Hday.
  destruct (Z.eqb_spec (holiday_year c) 0); [done|]. cbn [negb] in *. rewrite Z.gtb_ltb in *.
  destruct (Z.ltb_spec (holiday_year c) (tm_year (localtime now))); [lia|].
  rewrite Z.gtb_ltb in H. destruct (Z.ltb_spec last (tm_yday (localtime now))); [|lia].
  destruct (is_holiday _ _) as [h| |]; cbn [obind] in H; [|done..].
  assert (last' = tm_yday (localtime now)) as -> 
    by (destruct h; [rewrite bool_decide_false in H by done|rewrite bool_decide_true in H by done];
        congruence).
  rewrite Hday, Z.gtb_ltb, Z.ltb_irrefl. by destruct (_ <? _).
Qed.
