(* ===== verification/Resource.v ===== *)
(** * Resources: base/Resource.cpp, base/ResourceSet.cpp, base/DynamicResource.cpp

    A [Resource] is a named amount with a capacity ([p_max]), an availability
    ([p_avail], for dynamic resources) and the amount assigned so far.  A
    [ResourceSet] maps names to shared pointers to resources; its operations
    run on a store of resources so that the sharing [join_resources] creates
    is visible.  A [DynamicResource] is the server-level resource parsed from
    "avail;used". *)

From Stdlib Require Import ZArith Lia Bool Ascii String.
From S2P Require Import Prelude CString MiscHelpers.

Open Scope Z_scope.

Inductive ResourceType := ResourceStatic | ResourceDynamic | ResourceString.
Inductive CheckResult := CheckAvailable | CheckOccupied | CheckNonFit.

#[export] Instance ResourceType_eq_dec : EqDecision ResourceType.
Proof. solve_decision. Defined.
#[export] Instance CheckResult_eq_dec : EqDecision CheckResult.
Proof. solve_decision. Defined.

Record Resource := mkResource {
  p_res_type : ResourceType;
  p_name : string;
  p_str_val : string;
  p_avail : Z;
  p_max : Z;
  p_assign : Z
}.

#[export] Instance Resource_eq_dec : EqDecision Resource.
Proof. solve_decision. Defined.

(** The constructor [Resource(name)]. *)
Definition new_Resource (name : string) : Resource :=
  mkResource ResourceStatic name "" RESC_UNSPECIFIED RESC_INFINITY RESC_UNSPECIFIED.

Definition set_capacity (r : Resource) (value : string) : Resource :=
  if is_num value then
    mkResource ResourceStatic (p_name r) value (p_avail r) (res_to_num value) (p_assign r)
  else
    mkResource ResourceString (p_name r) value RESC_UNSPECIFIED RESC_UNSPECIFIED RESC_UNSPECIFIED.

Definition set_avail (r : Resource) (value : string) : Resource :=
  if is_num value then
    mkResource ResourceDynamic (p_name r) value (res_to_num value) RESC_UNSPECIFIED (p_assign r)
  else
    mkResource ResourceString (p_name r) value 0 RESC_UNSPECIFIED (p_assign r).

Definition set_utilization (r : Resource) (value : Z) : Resource :=
  mkResource (p_res_type r) (p_name r) (p_str_val r) (p_avail r) (p_max r) value.

Definition set_utilization_str (r : Resource) (value : string) : Resource :=
  set_utilization r (res_to_num value).

Definition consume_resource (r : Resource) (value : Z) : Resource :=
  set_utilization r (i64 (p_assign r + value)).

Definition consume_resource_str (r : Resource) (value : string) : Resource :=
  consume_resource r (res_to_num value).

Definition freeup_resource (r : Resource) (value : Z) : Resource :=
  set_utilization r (i64 (p_assign r - value)).

Definition freeup_resource_str (r : Resource) (value : string) : Resource :=
  freeup_resource r (res_to_num value).

Definition reset (r : Resource) : Resource :=
  mkResource ResourceStatic (p_name r) (p_str_val r) RESC_UNSPECIFIED RESC_UNSPECIFIED
    RESC_UNSPECIFIED.

Definition is_string (r : Resource) : bool :=
  match p_res_type r with ResourceString => true | _ => false end.

Definition check_numeric_fit (r : Resource) (amount : Z) : CheckResult :=
  if negb (p_max r =? RESC_INFINITY) && negb (p_max r =? RESC_UNSPECIFIED)
     && (p_max r <? amount)
  then CheckNonFit
  else if (p_max r =? RESC_UNSPECIFIED) || (p_max r =? RESC_INFINITY) then
    if i64 (p_avail r - p_assign r) >=? amount then CheckAvailable else CheckOccupied
  else
    if i64 (p_max r - p_assign r) >=? amount then CheckAvailable else CheckOccupied.

Definition check_fit (r : Resource) (value : string) : CheckResult :=
  if is_string r then
    if negb (String.eqb (p_str_val r) value) then CheckNonFit else CheckAvailable
  else check_numeric_fit r (res_to_num value).

(** ** ResourceSet *)

Module RSet.

(** The objects behind the shared pointers. *)
Abbreviation store := (gmap positive Resource).
Abbreviation ResourceSet := (gmap string positive).

Definition alloc (st : store) (r : Resource) : positive * store :=
  let p := fresh (dom st : gset positive) in (p, <[p := r]> st).
#[global] Arguments alloc : simpl never.

Definition get_resource (s : ResourceSet) (name : string) : option positive := s !! name.

Definition get_alloc_resource (s : ResourceSet) (st : store) (name : string)
  : positive * ResourceSet * store :=
  match s !! name with
  | None =>
      let '(result, st') := alloc st (new_Resource name) in
      (result, <[name := result]> s, st')
  | Some p => (p, s, st)
  end.

(** The loop of the copy constructor and of [operator=]: a fresh resource
    per entry.  [None] is the dereference of a null pointer. *)
Fixpoint copy_entries (l : list (string * positive)) (s : ResourceSet) (st : store)
  : option (ResourceSet * store) :=
  match l with
  | [] => Some (s, st)
  | (n, p) :: l' =>
      match st !! p with
      | None => None
      | Some r =>
          let '(q, st') := alloc st r in copy_entries l' (<[n := q]> s) st'
      end
  end.

Definition copy (src : ResourceSet) (st : store) : option (ResourceSet * store) :=
  copy_entries (map_to_list src) ∅ st.

(** [this = src]: the entries [this] had are dropped. *)
Definition assign (this src : ResourceSet) (st : store) : option (ResourceSet * store) :=
  copy_entries (map_to_list src) ∅ st.

Fixpoint join_entries (l : list (string * positive)) (this : ResourceSet) (st : store)
  : option (ResourceSet * store) :=
  match l with
  | [] => Some (this, st)
  | (n, p) :: l' =>
      match this !! n with
      | Some j =>
          match st !! j, st !! p with
          | Some rj, Some ri =>
              join_entries l' this
                (<[j := set_utilization rj (Z.max (p_assign rj) (p_assign ri))]> st)
          | _, _ => None
          end
      | None => join_entries l' (<[n := p]> this) st
      end
  end.

Definition join_resources (this right : ResourceSet) (st : store)
  : option (ResourceSet * store) :=
  join_entries (map_to_list right) this st.

End RSet.

(** ** DynamicResource *)

Module Dyn.

Record DynamicResource := mkDyn {
  d_avail : Z;
  d_assigned : Z;
  d_reported_use : Z;
  d_scheduled_use : Z;
  d_name : string
}.

Definition new_Dyn (name value : string) : DynamicResource :=
  let '(v1, i1) := strtol10 value in
  let v2 :=
    if Ascii.eqb (hd0 i1) ";" then
      let '(v2, i2) := strtol10 (tl0 i1) in
      if negb (Ascii.eqb (hd0 i2) NUL) then -1 else v2
    else -1 in
  mkDyn v1 0 v2 0 name.

Definition add_assigned (d : DynamicResource) (v : Z) : DynamicResource :=
  mkDyn (d_avail d) (i64 (d_assigned d + v)) (d_reported_use d) (d_scheduled_use d) (d_name d).

Definition add_scheduled (d : DynamicResource) (v : Z) : DynamicResource :=
  mkDyn (d_avail d) (d_assigned d) (d_reported_use d) (i64 (d_scheduled_use d + v)) (d_name d).

Definition remove_scheduled (d : DynamicResource) (v : Z) : DynamicResource :=
  mkDyn (d_avail d) (d_assigned d) (d_reported_use d) (i64 (d_scheduled_use d - v)) (d_name d).

Definition would_fit (d : DynamicResource) (amount : Z) : bool :=
  if d_reported_use d >=? 0 then
    let dynamic := i64 (d_scheduled_use d - d_reported_use d) in
    let dynamic := if dynamic <? 0 then 0 else dynamic in
    i64 (i64 (d_avail d - d_assigned d) - dynamic) >=? amount
  else i64 (d_avail d - d_assigned d) >=? amount.

End Dyn.

(** ** Facts about resources *)

Definition unlimited (r : Resource) : Prop :=
  p_max r = RESC_UNSPECIFIED \/ p_max r = RESC_INFINITY.

(** The amount a resource has to give out. *)
Definition supply (r : Resource) : Z :=
  if bool_decide (p_max r = RESC_UNSPECIFIED) || bool_decide (p_max r = RESC_INFINITY)
  then p_avail r else p_max r.

(** The amounts of a resource lie well inside the 64-bit range. *)
Definition sane (r : Resource) : Prop :=
  - 2 ^ 61 <= p_assign r <= 2 ^ 61 /\ - 2 ^ 61 <= p_max r <= 2 ^ 61 /\
  - 2 ^ 61 <= p_avail r <= 2 ^ 61.

Lemma check_numeric_fit_available r amount :
  sane r ->
  check_numeric_fit r amount = CheckAvailable <->
  amount <= supply r - p_assign r /\ (amount <= p_max r \/ unlimited r).
Proof.
  intros (Ha & Hm & Hv). unfold check_numeric_fit, supply, unlimited.
  unfold RESC_UNSPECIFIED, RESC_INFINITY.
  rewrite (i64_id (p_avail r - p_assign r)), (i64_id (p_max r - p_assign r)) by in_range.
  case_bools; split; try done; intros; repeat case_bool_decide; simpl in *; lia.
Qed.

Lemma consume_freeup r v :
  in_s 64 (p_assign r) -> freeup_resource (consume_resource r v) v = r.
Proof.
  intros H. destruct r as [t n sv av mx asg]. unfold freeup_resource, consume_resource, set_utilization.
  simpl in *. f_equal. rewrite wrap_s_sub_l by lia. rewrite Z.add_simpl_r. by apply i64_id.
Qed.

(** A sequence of requests, each of them admitted by [check_numeric_fit]
    before it is consumed. *)
Fixpoint admit_all (r : Resource) (reqs : list Z) : option Resource :=
  match reqs with
  | [] => Some r
  | v :: reqs' =>
      match check_numeric_fit r v with
      | CheckAvailable => admit_all (consume_resource r v) reqs'
      | _ => None
      end
  end.

Lemma supply_consume r v : supply (consume_resource r v) = supply r.
Proof. done. Qed.

Lemma admit_all_bound r reqs r' :
  sane r -> Forall (fun v => 0 <= v) reqs ->
  admit_all r reqs = Some r' ->
  p_assign r' = p_assign r + sumZ id reqs /\ supply r' = supply r /\
  (reqs <> [] -> p_assign r' <= supply r).
Proof.
  intros Hs Hr. revert r Hs. induction Hr as [|v reqs Hv Hr IH]; intros r Hs; simpl.
  { intros [= <-]. split_and!; [lia|done|done]. }
  destruct (check_numeric_fit r v) eqn:E; try done. intros H.
  apply check_numeric_fit_available in E as [E _]; [|done].
  assert (Hsup : supply r <= 2 ^ 61).
  { unfold supply. destruct Hs as (? & ? & ?). repeat case_bool_decide; simpl; lia. }
  assert (Hp : p_assign (consume_resource r v) = p_assign r + v).
  { destruct Hs as (? & ? & ?). simpl. apply i64_id. in_range. }
  assert (Hs' : sane (consume_resource r v)).
  { destruct Hs as (? & ? & ?). split_and!; rewrite ?Hp; simpl; lia. }
  destruct (IH _ Hs' H) as (H1 & H2 & H3). rewrite supply_consume in *. rewrite Hp in H1.
  split_and!; [change (p_assign r' = p_assign r + (v + sumZ id reqs)); lia|done|]. intros _.
  destruct reqs as [|w reqs]; [simpl in H1; lia|by apply H3].
Qed.

(** Releasing amounts in whatever order subtracts their sum. *)
Lemma freeup_all r reqs :
  in_s 64 (p_assign r) ->
  fold_left freeup_resource reqs r = set_utilization r (i64 (p_assign r - sumZ id reqs)).
Proof.
  revert r. induction reqs as [|v reqs IH]; intros r Hr; simpl.
  - rewrite Z.sub_0_r, i64_id by done. by destruct r.
  - rewrite IH by (simpl; auto with sched lia). unfold freeup_resource, set_utilization. simpl.
    f_equal. rewrite wrap_s_sub_l by lia. f_equal. unfold id. lia.
Qed.

Lemma admit_all_shape r reqs r' :
  admit_all r reqs = Some r' -> r' = set_utilization r (p_assign r').
Proof.
  revert r. induction reqs as [|v reqs IH]; intros r; simpl.
  - intros [= <-]. by destruct r.
  - destruct (check_numeric_fit r v); try done. intros H. by rewrite (IH _ H).
Qed.

(** C13: Consumption of a resource under the guard of [check_numeric_fit] never
    exceeds the supply (the capacity of a static resource, the availability of
    a dynamic one): after any sequence of admitted requests the assigned amount
    has grown by exactly their sum and is at most the supply, and freeing the
    same amounts in any order gives the resource back unchanged. *)
Theorem resource_never_overcommitted (r r' : Resource) (reqs back : list Z)
    (Hsane : sane r) (Hpos : Forall (fun v => 0 <= v) reqs) (Hne : reqs <> [])
    (Hadm : admit_all r reqs = Some r') (Hback : back ≡ₚ reqs) :
  p_assign r' = p_assign r + sumZ id reqs /\ p_assign r' <= supply r /\
  fold_left freeup_resource back r' = r.
Proof.
  destruct (admit_all_bound _ _ _ Hsane Hpos Hadm) as (H1 & H2 & H3).
  specialize (H3 Hne). split_and!; [done..|].
  assert (0 <= sumZ id reqs) by by apply sumZ_nonneg.
  assert (Hsup : supply r <= 2 ^ 61).
  { unfold supply. destruct Hsane as (? & ? & ?). repeat case_bool_decide; simpl; lia. }
  assert (Hr : in_s 64 (p_assign r')) by (destruct Hsane as (? & ? & ?); in_range).
  rewrite (freeup_all _ _ Hr), (sumZ_perm _ _ _ Hback), (admit_all_shape _ _ _ Hadm).
  unfold set_utilization; simpl. rewrite H1, Z.add_simpl_r.
  rewrite i64_id by (destruct Hsane as (? & ? & ?); in_range). by destruct r.
Qed.

Definition cpus : Resource := set_utilization (set_capacity (new_Resource "ncpus") "8") 0.

Lemma resource_never_overcommitted_witness :
  exists r', admit_all cpus [2; 5; 1] = Some r' /\ p_assign r' = 8 /\
             fold_left freeup_resource [5; 1; 2] r' = cpus.
Proof.
  eexists. split; [vm_compute; reflexivity|].
  destruct (resource_never_overcommitted cpus (set_utilization cpus 8) [2; 5; 1] [5; 1; 2])
    as (H1 & _ & H3).
  - vm_compute. intuition congruence.
  - repeat constructor; lia.
  - discriminate.
  - vm_compute; reflexivity.
  - apply Permutation_sym. etransitivity; [apply Permutation_cons_append|reflexivity].
  - split; [exact H1|exact H3].
Defined.

(** The capacity alone does not protect a resource whose utilization was never
    reported: it starts from [RESC_UNSPECIFIED], which is -1, and one unit too
    many is admitted. *)
Lemma unreported_utilization_overcommits :
  let r := set_capacity (new_Resource "ncpus") "8" in
  exists r', admit_all r [8; 1] = Some r' /\ supply r = 8 /\ sumZ id [8; 1] = 9.
Proof. eexists. vm_compute. intuition reflexivity. Qed.

(** ** Facts about resource sets *)

Section RSetFacts.
Import RSet.

Lemma alloc_fresh st r p st' :
  alloc st r = (p, st') -> st !! p = None /\ st' = <[p := r]> st.
Proof.
  unfold alloc. intros [= <- <-]. split; [|done].
  apply not_elem_of_dom. apply is_fresh.
Qed.

(** What a fresh copy of [src] over [st] looks like: the same names with the
    same values, at allocated addresses that are new and pairwise different. *)
Definition separate_copy (src : ResourceSet) (st : store) (dst : ResourceSet) (st' : store) : Prop :=
  st ⊆ st' /\ dom dst = (dom src : gset string) /\
  (forall n p q, src !! n = Some p -> dst !! n = Some q ->
     st' !! q = st !! p /\ is_Some (st' !! q) /\ st !! q = None) /\
  (forall n m q, dst !! n = Some q -> dst !! m = Some q -> n = m).

Lemma separate_copy_insert src st0 acc st n p q r :
  separate_copy src st0 acc st -> src !! n = None ->
  st0 !! p = Some r -> st !! q = None ->
  separate_copy (<[n := p]> src) st0 (<[n := q]> acc) (<[q := r]> st).
Proof.
  intros (Hsub & Hdom & Hval & Hinj) Hn Hr Hq.
  assert (Hold : forall m q', acc !! m = Some q' -> is_Some (st !! q') /\ q' <> q).
  { intros m q' Hm. assert (is_Some (src !! m)) as [p' Hp'].
    { apply (elem_of_dom (D := gset string)). rewrite <- Hdom. by eapply elem_of_dom_2. }
    destruct (Hval _ _ _ Hp' Hm) as (_ & [r' Hr'] & _). split; [eauto|]. congruence. }
  split_and!.
  - etransitivity; [done|]. by apply insert_subseteq.
  - by rewrite !dom_insert_L, Hdom.
  - intros m p' q' Hm1 Hm2. destruct (decide (m = n)) as [->|Hne].
    + rewrite lookup_insert_eq in Hm1, Hm2. simplify_eq. rewrite lookup_insert_eq, Hr.
      split_and!; eauto. by eapply lookup_weaken_None.
    + rewrite lookup_insert_ne in Hm1, Hm2 by done. destruct (Hold _ _ Hm2).
      rewrite lookup_insert_ne by done. eauto.
  - intros m1 m2 q'.
    destruct (decide (m1 = n)) as [->|], (decide (m2 = n)) as [->|];
      rewrite ?lookup_insert_eq, ?lookup_insert_ne by done; intros H1 H2; simplify_eq; eauto.
    + by destruct (Hold _ _ H2).
    + by destruct (Hold _ _ H1).
Qed.

Lemma copy_entries_spec l src st0 acc st :
  NoDup l.*1 -> (forall n, n ∈ l.*1 -> src !! n = None) ->
  separate_copy src st0 acc st ->
  (forall n p, (n, p) ∈ l -> is_Some (st0 !! p)) ->
  exists dst st', copy_entries l acc st = Some (dst, st') /\
    separate_copy (list_to_map l ∪ src) st0 dst st'.
Proof.
  revert acc st src. induction l as [|[n p] l IH]; intros acc st src Hnd Hsrc Hsep Hdef;
    cbn [copy_entries list_to_map].
  { change (list_to_map []) with (∅ : ResourceSet). rewrite (left_id_L ∅ (∪)). eauto. }
  destruct (Hdef n p) as [r Hr]; [set_solver|].
  assert (Hsub : st0 ⊆ st) by apply Hsep.
  rewrite (lookup_weaken _ _ _ _ Hr Hsub).
  destruct (alloc st r) as [q st1] eqn:Ea. apply alloc_fresh in Ea as [Hq ->].
  simpl in Hnd. apply NoDup_cons in Hnd as [Hn Hnd].
  destruct (IH (<[n := q]> acc) (<[q := r]> st) (<[n := p]> src)) as (dst & st' & Hc & Hs).
  - done.
  - intros m Hm. rewrite lookup_insert_ne by (intros ->; done). apply Hsrc. by right.
  - apply separate_copy_insert; [done| |done..]. apply Hsrc. by left.
  - intros m p' Hin. apply (Hdef m). by right.
  - exists dst, st'. split; [done|].
    rewrite <- insert_union_r, insert_union_l in Hs; [done|].
    by apply not_elem_of_list_to_map_1.
Qed.

(** Every entry of the set points at an allocated resource. *)
Definition no_dangling (s : ResourceSet) (st : store) : Prop :=
  forall n p, s !! n = Some p -> is_Some (st !! p).

(** Copying a resource set (copy constructor and [operator=]) succeeds on
    every set without dangling pointers and is deep: the copy has the same
    names, with equal resources at addresses that were free before and are
    pairwise different, and the store the source lives in is untouched, so
    no update through the copy can reach the source. *)
Theorem copy_is_deep (src : ResourceSet) (st : store) (Hok : no_dangling src st) :
  exists dst st', copy src st = Some (dst, st') /\ separate_copy src st dst st'.
Proof.
  destruct (copy_entries_spec (map_to_list src) ∅ st ∅ st) as (dst & st' & Hc & Hs).
  - apply NoDup_fst_map_to_list.
  - set_solver.
  - split_and!; [done|set_solver|intros ??? Hx; by rewrite lookup_empty in Hx..].
  - intros n p Hin. apply elem_of_map_to_list in Hin. by apply (Hok n).
  - exists dst, st'. split; [done|]. by rewrite list_to_map_to_list, (right_id_L ∅ (∪)) in Hs.
Qed.

Lemma copy_is_deep_witness :
  let '(p, s, st) := get_alloc_resource ∅ ∅ "mem" in
  exists dst st', copy s st = Some (dst, st') /\ separate_copy s st dst st'.
Proof.
  destruct (get_alloc_resource ∅ ∅ "mem") as [[p s] st] eqn:E.
  apply copy_is_deep. intros n q H. vm_compute in E. injection E as <- <- <-.
  destruct (decide (n = "mem"%string)) as [->|Hne].
  - vm_compute in H. injection H as <-. eexists. vm_compute. reflexivity.
  - exfalso. revert H. change (({["mem"%string := 1%positive]} : ResourceSet) !! n = Some q -> False).
    rewrite lookup_singleton_ne by done. discriminate.
Defined.
End RSetFacts.
