(* ===== verification/PropRegistry.v ===== *)
(** * The property registry: base/PropRegistry.cpp

    String resources are compared through two dense numberings, one of the
    property names and, for each property, one of the values seen so far.
    Indices ([size_t]) are [nat]; an access past the end of a vector, undefined
    in the source, is [None]. *)

From Stdlib Require Import ZArith Lia Bool Ascii String.
From S2P Require Import Prelude.

Record PropRegistry := mkPropRegistry {
  p_properties : gmap string nat;
  p_prop_index : list string;
  p_values : list (gmap string nat);
  p_val_index : list (list string)
}.

Definition empty_registry : PropRegistry := mkPropRegistry ∅ [] [] [].

(** The first half of [register_property]: the index of the property. *)
Definition register_name (r : PropRegistry) (property : string) : nat * PropRegistry :=
  match p_properties r !! property with
  | None =>
      let prop_index := p_prop_index r ++ [property] in
      let index := (length prop_index - 1)%nat in
      (index,
       mkPropRegistry (<[property := index]> (p_properties r)) prop_index
         (p_values r ++ [∅]) (p_val_index r ++ [[]]))
  | Some index => (index, r)
  end.

Definition register_property (r : PropRegistry) (property value : string)
  : option ((nat * nat) * PropRegistry) :=
  let '(index, r) := register_name r property in
  match p_values r !! index, p_val_index r !! index with
  | Some values, Some val_index =>
      match values !! value with
      | None =>
          let val_index := val_index ++ [value] in
          let vindex := (length val_index - 1)%nat in
          Some ((index, vindex),
                mkPropRegistry (p_properties r) (p_prop_index r)
                  (<[index := <[value := vindex]> values]> (p_values r))
                  (<[index := val_index]> (p_val_index r)))
      | Some vindex => Some ((index, vindex), r)
      end
  | _, _ => None
  end.

Definition get_property_id (r : PropRegistry) (property : string) : bool * nat :=
  match p_properties r !! property with
  | None => (false, 0%nat)
  | Some i => (true, i)
  end.

Definition get_value_id (r : PropRegistry) (property_id : nat) (value : string)
  : option (bool * nat) :=
  if decide (length (p_prop_index r) <= property_id)%nat then Some (false, 0%nat)
  else
    match p_values r !! property_id with
    | None => None
    | Some values =>
        match values !! value with
        | None => Some (false, 0%nat)
        | Some v => Some (true, v)
        end
    end.

Definition prop_count (r : PropRegistry) : nat := length (p_prop_index r).

Definition value_count (r : PropRegistry) (property_id : nat) : option (bool * nat) :=
  if decide (length (p_prop_index r) <= property_id)%nat then Some (false, 0%nat)
  else
    match p_val_index r !! property_id with
    | None => None
    | Some l => Some (true, length l)
    end.

(** ** The invariant *)

(** A map and a vector that are inverse to each other. *)
Definition numbering (m : gmap string nat) (l : list string) : Prop :=
  forall s i, m !! s = Some i <-> l !! i = Some s.

Definition registry_wf (r : PropRegistry) : Prop :=
  numbering (p_properties r) (p_prop_index r) /\
  length (p_values r) = length (p_prop_index r) /\
  length (p_val_index r) = length (p_prop_index r) /\
  forall i m l, p_values r !! i = Some m -> p_val_index r !! i = Some l -> numbering m l.

(** The ids [r] has given out keep their meaning in [r']. *)
Definition extends (r r' : PropRegistry) : Prop :=
  p_prop_index r `prefix_of` p_prop_index r' /\
  forall i l, p_val_index r !! i = Some l ->
    exists l', p_val_index r' !! i = Some l' /\ l `prefix_of` l'.

Lemma numbering_app m l s :
  numbering m l -> m !! s = None -> numbering (<[s := length l]> m) (l ++ [s]).
Proof.
  intros H Hs s' i. destruct (decide (s = s')) as [<-|Hne].
  - rewrite lookup_insert_eq. rewrite lookup_snoc_Some. split.
    + intros [= <-]. right. done.
    + intros [[Hi Hl]|[-> _]]; [|done]. apply H in Hl. congruence.
  - rewrite lookup_insert_ne by done. rewrite lookup_snoc_Some, (H s' i). split.
    + intros Hl. left. split; [by eapply lookup_lt_Some|done].
    + intros [[_ Hl]|[_ ->]]; done.
Qed.

Lemma register_name_wf r property index r' :
  registry_wf r -> register_name r property = (index, r') ->
  registry_wf r' /\ extends r r' /\ p_prop_index r' !! index = Some property.
Proof.
  intros (Hn & Hv & Hx & Hvn). unfold register_name.
  destruct (p_properties r !! property) as [i|] eqn:E; intros [= <- <-].
  - split_and!; [done| |by apply Hn]. split; [done|eauto].
  - rewrite length_app, Nat.add_sub. split_and!.
    + split_and!; simpl; [by apply numbering_app|rewrite !length_app; simpl; lia..|].
      intros i m l Hm Hl.
      apply lookup_snoc_Some in Hm as [[Hi Hm]|[Hi <-]], Hl as [[Hi' Hl]|[Hi' <-]]; try lia.
      * by eapply Hvn.
      * intros s j. by rewrite lookup_empty, lookup_nil.
    + split; [by apply prefix_app_r|]. simpl. intros i l Hl. exists l. split; [|done].
      by apply lookup_app_l_Some.
    + simpl. rewrite lookup_app_r, Nat.sub_diag; [done|lia].
Qed.

Lemma extends_trans r1 r2 r3 : extends r1 r2 -> extends r2 r3 -> extends r1 r3.
Proof.
  intros [H1 H2] [H3 H4]. split; [by etransitivity|].
  intros i l Hl. destruct (H2 _ _ Hl) as (l' & Hl' & ?).
  destruct (H4 _ _ Hl') as (l'' & Hl'' & ?). exists l''. split; [done|by etransitivity].
Qed.

#[export] Instance extends_preorder : PreOrder extends.
Proof.
  split; [|intros ???; apply extends_trans]. intros r. split; [done|eauto].
Qed.

(** C37: Registering a property never fails on a well-formed registry, keeps it
    well formed (both numberings stay bijections), returns the ids under which
    the property and the value are then found by [get_property_id] and
    [get_value_id], and changes no id given out before. *)
Theorem register_property_correct (r : PropRegistry) (property value : string)
    (Hwf : registry_wf r) :
  exists i v r',
    register_property r property value = Some ((i, v), r') /\
    registry_wf r' /\ extends r r' /\
    get_property_id r' property = (true, i) /\
    get_value_id r' i value = Some (true, v).
Proof.
  unfold register_property. destruct (register_name r property) as [i r1] eqn:E.
  destruct (register_name_wf _ _ _ _ Hwf E) as (Hwf1 & Hext & Hi). clear E Hwf.
  destruct Hwf1 as (Hn & Hv & Hx & Hvn). pose proof (lookup_lt_Some _ _ _ Hi) as Hlt.
  destruct (lookup_lt_is_Some_2 (p_values r1) i ltac:(lia)) as [vals Hvals].
  destruct (lookup_lt_is_Some_2 (p_val_index r1) i ltac:(lia)) as [vix Hvix].
  rewrite Hvals, Hvix. pose proof (Hvn _ _ _ Hvals Hvix) as Hnum.
  destruct (vals !! value) as [v|] eqn:Ev.
  - exists i, v, r1. split_and!; [done|done|done| |].
    + unfold get_property_id. by rewrite (proj2 (Hn _ _) Hi).
    + unfold get_value_id. rewrite decide_False by lia. by rewrite Hvals, Ev.
  - rewrite length_app, Nat.add_sub. eexists i, (length vix), _. split_and!; [done| | | |].
    + split_and!; simpl; [done|by rewrite length_insert..|].
      intros j m l Hm Hl. destruct (decide (i = j)) as [<-|Hne].
      * rewrite list_lookup_insert_eq in Hm by lia.
        rewrite list_lookup_insert_eq in Hl by lia. simplify_eq.
        by apply numbering_app.
      * rewrite list_lookup_insert_ne in Hm by done.
        rewrite list_lookup_insert_ne in Hl by done. by eapply Hvn.
    + etransitivity; [done|]. split; [done|]. simpl. intros j l Hl.
      destruct (decide (i = j)) as [<-|Hne].
      * rewrite list_lookup_insert_eq by lia. simplify_eq. eexists. split; [done|].
        by apply prefix_app_r.
      * rewrite list_lookup_insert_ne by done. eauto.
    + unfold get_property_id. simpl. by rewrite (proj2 (Hn _ _) Hi).
    + unfold get_value_id. simpl. rewrite decide_False by lia.
      rewrite list_lookup_insert_eq by lia. by rewrite lookup_insert_eq.
Qed.

Lemma empty_registry_wf : registry_wf empty_registry.
Proof. by split_and!. Qed.

Lemma register_property_correct_witness :
  exists i v r', register_property empty_registry "city" "brno" = Some ((i, v), r') /\
    registry_wf r' /\ get_value_id r' i "brno" = Some (true, v).
Proof.
  destruct (register_property_correct empty_registry "city" "brno" empty_registry_wf)
    as (i & v & r' & H1 & H2 & _ & _ & H5).
  exists i, v, r'. split; [exact H1|split; [exact H2|exact H5]].
Defined.

(** The ids of two different values of a property are different, and equal ids
    mean equal values: comparing ids is comparing strings. *)
Lemma get_value_id_inj r i x y v :
  registry_wf r -> get_value_id r i x = Some (true, v) -> get_value_id r i y = Some (true, v) ->
  x = y.
Proof.
  intros (Hn & Hv & Hx & Hvn). unfold get_value_id. case_decide; [done|].
  destruct (p_values r !! i) as [m|] eqn:Em; [|done].
  destruct (lookup_lt_is_Some_2 (p_val_index r) i ltac:(lia)) as [l Hl].
  pose proof (Hvn _ _ _ Em Hl) as Hnum.
  destruct (m !! x) as [vx|] eqn:Ex; [|done]. destruct (m !! y) as [vy|] eqn:Ey; [|done].
  intros [= ->] [= ->]. apply Hnum in Ex, Ey. congruence.
Qed.
