(* ===== verification/DataTypes.v ===== *)
(** * Shared data: data_types.h, nodespec.h, JobInfo.h

    The enumerations and records the components exchange.  A request parsed by
    the Torque library ([pars_spec], built by [parse_nodespec], which is not
    part of this repository) is a list of [pars_spec_node]s; its doubly linked
    lists of properties are lists in their order. *)

From Stdlib Require Import ZArith Lia Bool Ascii String SpecFloat.
From S2P Require Import Prelude CString MiscHelpers.

Open Scope Z_scope.

Inductive ClusterMode := ClusterNone | ClusterCreate | ClusterUse.

Inductive ScratchType := ScratchNone | ScratchAny | ScratchLocal | ScratchSSD | ScratchShared.

Inductive MagratheaState :=
| MagratheaStateNone | MagratheaStateRemoved | MagratheaStateDown
| MagratheaStateDownBootable | MagratheaStateBooting | MagratheaStateFree
| MagratheaStateFreeBootable | MagratheaStateOccupiedWouldPreempt
| MagratheaStateOccupied | MagratheaStateRunningPreemptible
| MagratheaStateRunningPriority | MagratheaStateRunning
| MagratheaStateRunningCluster | MagratheaStatePreempted
| MagratheaStateFrozen | MagratheaStateDownDisappeared | MagratheaStateShuttingDown.

Inductive node_type := NodeTimeshared | NodeCluster | NodeVirtual | NodeCloud.

Inductive reschecksource :=
| ResCheckNone | ResCheckStat | ResCheckCache | ResCheckBoth | ResCheckDynamic.

Inductive JobState :=
| JobNoState | JobQueued | JobRunning | JobHeld | JobWaiting | JobTransit
| JobExiting | JobSuspended | JobCompleted | JobCrossRun.

#[export] Instance ClusterMode_eq_dec : EqDecision ClusterMode.
Proof. solve_decision. Defined.
#[export] Instance ScratchType_eq_dec : EqDecision ScratchType.
Proof. solve_decision. Defined.
#[export] Instance MagratheaState_eq_dec : EqDecision MagratheaState.
Proof. solve_decision. Defined.
#[export] Instance node_type_eq_dec : EqDecision node_type.
Proof. solve_decision. Defined.
#[export] Instance reschecksource_eq_dec : EqDecision reschecksource.
Proof. solve_decision. Defined.
#[export] Instance JobState_eq_dec : EqDecision JobState.
Proof. solve_decision. Defined.

Record pars_prop := mkProp {
  prop_name : string;
  prop_value : option string
}.

Record pars_spec_node := mkSpecNode {
  node_count : Z;
  alternative : option string;
  host : option string;
  procs : Z;
  mem : Z;
  vmem : Z;
  scratch : Z;
  scratch_type : ScratchType;
  properties : list pars_prop
}.

Record pars_spec := mkSpec {
  spec_exclusive : bool;
  spec_nodes : list pars_spec_node;
  spec_total_nodes : Z;
  spec_total_procs : Z
}.

#[export] Instance pars_prop_eq_dec : EqDecision pars_prop.
Proof. solve_decision. Defined.
#[export] Instance pars_spec_node_eq_dec : EqDecision pars_spec_node.
Proof. solve_decision. Defined.

(** A bootable image of the virtual machine repository. *)
Record repository_alternatives := mkAlternative {
  r_name : string;
  r_proplist : option string;
  r_mark : Z
}.

#[export] Instance repository_alternatives_eq_dec : EqDecision repository_alternatives.
Proof. solve_decision. Defined.

(** A resource request or usage of a job ([struct resource_req]); the linked
    list of them is a list in its order. *)
Record resource_req := mkReq {
  req_name : string;
  req_amount : Z;
  req_res_str : option string
}.

#[export] Instance resource_req_eq_dec : EqDecision resource_req.
Proof. solve_decision. Defined.

(** An attribute of a batch status reply ([struct attrl]). *)
Record attrl := mkAttr {
  attr_name : string;
  attr_resource : string;
  attr_value : string
}.

(** ** SchedulerCore_RescInfoDb.cpp

    The resource meta-data database: [insert] keeps the first entry of a name. *)
Record RescInfo := mkRescInfo {
  ri_name : string;
  ri_comment : string;
  ri_source : reschecksource
}.

Abbreviation RescInfoDb := (gmap string RescInfo).

Definition resc_source (type : string) : reschecksource :=
  if String.eqb type "dynamic" then ResCheckDynamic
  else if String.eqb type "cache" then ResCheckCache
  else if String.eqb type "status" then ResCheckStat
  else ResCheckNone.

Definition resc_insert (db : RescInfoDb) (name comment : string) (source : reschecksource)
  : RescInfoDb * bool :=
  match db !! name with
  | Some _ => (db, false)
  | None => (<[name := mkRescInfo name comment source]> db, true)
  end.

(** The entries of the property tree [read_info] returns: name, comment and type. *)
Definition read_db (db : RescInfoDb) (pt : list (string * string * string)) : RescInfoDb :=
  fold_left (fun db '(name, comment, type) =>
               fst (resc_insert db name comment (resc_source type))) pt db.

Definition res_check_type (db : RescInfoDb) (res_name : string) : reschecksource :=
  match db !! res_name with
  | None => ResCheckNone
  | Some i => ri_source i
  end.

Lemma resc_insert_keeps db name comment source other :
  is_Some (db !! other) ->
  res_check_type (fst (resc_insert db name comment source)) other = res_check_type db other.
Proof.
  intros [i Hi]. unfold resc_insert, res_check_type.
  destruct (db !! name) eqn:E; simpl; [done|].
  rewrite lookup_insert_ne; [done|]. intros ->. congruence.
Qed.
