(* ===== verification/NodeData.v ===== *)
(** * Nodes as the server reports them: base/NodeState.cpp, base/NodeData.cpp

    [NodeData] is built attribute by attribute from a batch status reply; the
    setters of numeric attributes throw [invalid_argument] when nothing can be
    converted.  The node's resources are held by value: the sharing of
    resources between nodes is the subject of [Resource.RSet]. *)

From Stdlib Require Import ZArith Lia Bool Ascii String SpecFloat.
From S2P Require Import Prelude CString CFloat MiscHelpers Resource PropRegistry DataTypes.

Open Scope Z_scope.
Local Open Scope sched_scope.

(** ** NodeState.cpp *)

Record NodeState := mkNodeState {
  p_is_down : bool;
  p_is_free : bool;
  p_is_offline : bool;
  p_is_unknown : bool;
  p_is_reserved : bool;
  p_is_job_excl : bool;
  p_is_job_share : bool;
  p_is_busy : bool
}.

Definition new_NodeState : NodeState :=
  mkNodeState false false false false false false false false.

(** [reset_state] only ever raises flags. *)
Definition reset_state (n : NodeState) (state : string) : NodeState :=
  mkNodeState
    (strstr state "down" || p_is_down n)
    (strstr state "free" || p_is_free n)
    (strstr state "offline" || p_is_offline n)
    (strstr state "state-unknown" || p_is_unknown n)
    (strstr state "reserve" || p_is_reserved n)
    (strstr state "job-exclusive" || p_is_job_excl n)
    (strstr state "job-sharing" || p_is_job_share n)
    (strstr state "busy" || p_is_busy n).

(** ** NodeData.cpp *)

Definition SIZE_MAX : Z := 18446744073709551615.

Record NodeData := mkNodeData {
  nd_state : NodeState;
  p_phys_props : gset string;
  p_virt_props : gset string;
  p_priority : Z;
  p_type : node_type;
  p_no_multinode : bool;
  p_no_starving : bool;
  p_core_total : Z;
  p_core_free : Z;
  p_ded_queue_name : string;
  p_admin_slot_enabled : bool;
  p_admin_slot_avail : bool;
  p_node_cost : spec_float;
  p_node_spec : spec_float;
  p_avail_before : Z;
  p_avail_after : Z;
  p_resc : gmap string Resource;
  p_reg_props : list Z;
  nd_name : string;
  p_jobs : gset string;
  p_exclusively_assigned : bool;
  p_scratch_pool : string
}.

(** The constructor's initialisers; the two core counts and [p_no_starving] are
    left uninitialised by the source: any value. *)
Definition new_NodeData (name : string) (junk_total junk_free : Z) (junk_nostarving : bool) : NodeData :=
  mkNodeData new_NodeState ∅ ∅ 0 NodeCluster false junk_nostarving junk_total junk_free "" false false
    (fof_Z (F := binary64) 1) (fof_Z (F := binary64) 10) 0 0 ∅ (replicate 100 SIZE_MAX) name ∅ false "".

#[export] Instance NodeData_fields : Fields NodeData :=
  fields_app (fields_app (fields_app (fields_app (fields_app (fields_app (fields_app
  (fields_app (fields_app (fields_app (fields_app (fields_app (fields_app (fields_app
  (fields_app (fields_app (fields_app (fields_app (fields_app (fields_app (fields_app
  (fields_app (fields_const mkNodeData)
    nd_state) p_phys_props) p_virt_props) p_priority) p_type) p_no_multinode)
    p_no_starving) p_core_total) p_core_free) p_ded_queue_name) p_admin_slot_enabled)
    p_admin_slot_avail) p_node_cost) p_node_spec) p_avail_before) p_avail_after)
    p_resc) p_reg_props) nd_name) p_jobs) p_exclusively_assigned) p_scratch_pool.

Definition invalid_argument (what : string) {A} : outcome A := Throw what.

(** [strtol] with the "nothing converted" test of the setters. *)
Definition strtol_or_throw (data what : string) : outcome Z :=
  let '(v, end_) := strtol10 data in
  if String.eqb data end_ then invalid_argument what else Ret v.

Definition strtod_or_throw (data what : string) : outcome spec_float :=
  let '(v, end_) := strtod data in
  if String.eqb data end_ then invalid_argument what else Ret v.

Definition set_virt_props (n : NodeData) (l : string) : outcome NodeData :=
  let! s := of_option (comma_list_to_set l (p_virt_props n)) in Ret (n <| p_virt_props := s |>).

Definition set_phys_props (n : NodeData) (l : string) : outcome NodeData :=
  let! s := of_option (comma_list_to_set l (p_phys_props n)) in Ret (n <| p_phys_props := s |>).

Definition set_priority (n : NodeData) (data : string) : outcome NodeData :=
  let! v := strtol_or_throw data "Unable to convert node priority value to a number." in
  Ret (n <| p_priority := v |>).

Definition set_proc_total (n : NodeData) (data : string) : outcome NodeData :=
  let! v := strtol_or_throw data "Unable to convert total cores value to a number." in
  Ret (n <| p_core_total := i32 v |>).

Definition set_proc_free (n : NodeData) (data : string) : outcome NodeData :=
  let! v := strtol_or_throw data "Unable to convert free cores value to a number." in
  Ret (n <| p_core_free := i32 v |>).

Definition set_type (n : NodeData) (data : string) : outcome NodeData :=
  if String.eqb data "time-shared" then Ret (n <| p_type := NodeTimeshared |>)
  else if String.eqb data "cluster" then Ret (n <| p_type := NodeCluster |>)
  else if String.eqb data "cloud" then Ret (n <| p_type := NodeCloud |>)
  else if String.eqb data "virtual" then Ret (n <| p_type := NodeVirtual |>)
  else invalid_argument "Unable to convert node type value.".

Definition set_nomultinode (n : NodeData) (data : string) : NodeData :=
  n <| p_no_multinode := String.eqb data "True" |>.

Definition set_nostarving (n : NodeData) (data : string) : NodeData :=
  n <| p_no_starving := String.eqb data "True" |>.

Definition set_ded_queue (n : NodeData) (data : string) : NodeData :=
  n <| p_ded_queue_name := data |>.

Definition set_admin_slot_enabled (n : NodeData) (value : string) : NodeData :=
  n <| p_admin_slot_enabled := String.eqb value "True" |>.

Definition set_jobs (n : NodeData) (l : string) : outcome NodeData :=
  let! s := of_option (comma_list_to_set l (p_jobs n)) in Ret (n <| p_jobs := s |>).

Definition set_admin_slot_avail (n : NodeData) (value : string) : NodeData :=
  n <| p_admin_slot_avail := String.eqb value "True" |>.

Definition set_node_cost (n : NodeData) (value : string) : outcome NodeData :=
  let! v := strtod_or_throw value "Unable to convert node cost value to a number." in
  Ret (n <| p_node_cost := v |>).

Definition set_node_spec (n : NodeData) (value : string) : outcome NodeData :=
  let! v := strtod_or_throw value "Unable to convert node spec value to a number." in
  Ret (n <| p_node_spec := v |>).

Definition set_avail_after (n : NodeData) (data : string) : outcome NodeData :=
  let! v := strtol_or_throw data "Unable to convert available after value to a number." in
  Ret (n <| p_avail_after := v |>).

Definition set_avail_before (n : NodeData) (data : string) : outcome NodeData :=
  let! v := strtol_or_throw data "Unable to convert available before value to a number." in
  Ret (n <| p_avail_before := v |>).

Definition set_exclusively_assigned (n : NodeData) (value : string) : NodeData :=
  n <| p_exclusively_assigned := String.eqb value "True" |>.

(** [resize] of a vector, growing. *)
Definition vector_resize (l : list Z) (size : nat) (v : Z) : list Z :=
  take size l ++ replicate (size - length l) v.
#[global] Arguments vector_resize : simpl never.

(** The write past the end of the vector is [UB]. *)
Definition add_reg_props (n : NodeData) (propid : nat) (valueid : Z) : outcome NodeData :=
  let props :=
    if decide (length (p_reg_props n) <= propid)%nat then
      let oldsize := length (p_reg_props n) in
      vector_resize (p_reg_props n) (oldsize + Nat.max 50 (propid - oldsize)) SIZE_MAX
    else p_reg_props n in
  if decide (propid < length props)%nat then Ret (n <| p_reg_props := <[propid := valueid]> props |>)
  else UB.

Definition has_reg_prop (n : NodeData) (propid : nat) (valueid : Z) : bool :=
  match p_reg_props n !! propid with
  | None => false
  | Some v => v =? valueid
  end.

(** The resource of a name, created on first use, after [f]. *)
Definition alloc_resource (n : NodeData) (name : string) : Resource :=
  match p_resc n !! name with Some r => r | None => new_Resource name end.

(** The string resources are registered, and their ids recorded on the node. *)
Definition register_if_string (r : Resource) (reg : PropRegistry) (n : NodeData)
    (name value : string) : outcome (NodeData * PropRegistry) :=
  if is_string r then
    let! (ids, reg) := of_option (register_property reg name value) in
    let! n := add_reg_props n (fst ids) (Z.of_nat (snd ids)) in
    Ret (n, reg)
  else Ret (n, reg).

Definition set_resource_capacity (reg : PropRegistry) (n : NodeData) (name value : string)
  : outcome (NodeData * PropRegistry) :=
  let result := set_capacity (alloc_resource n name) value in
  register_if_string result reg (n <| p_resc := <[name := result]> (p_resc n) |>) name value.

Definition set_resource_utilisation (n : NodeData) (name value : string) : NodeData :=
  n <| p_resc := <[name := set_utilization_str (alloc_resource n name) value]> (p_resc n) |>.

Definition set_resource_dynamic (reg : PropRegistry) (n : NodeData) (name value : string)
  : outcome (NodeData * PropRegistry) :=
  let result := set_avail (reset (alloc_resource n name)) value in
  register_if_string result reg (n <| p_resc := <[name := result]> (p_resc n) |>) name value.

Definition get_resource (n : NodeData) (name : string) : option Resource := p_resc n !! name.

Definition has_phys_prop (n : NodeData) (name : string) : bool := bool_decide (name ∈ p_phys_props n).
Definition has_virt_prop (n : NodeData) (name : string) : bool := bool_decide (name ∈ p_virt_props n).

Definition has_jobs (n : NodeData) : bool := negb (bool_decide (p_jobs n = ∅)).

(** One iteration of the constructor's loop over the attributes. *)
Definition node_attr (st : NodeData * PropRegistry) (a : attrl) : outcome (NodeData * PropRegistry) :=
  let '(n, reg) := st in
  let name := attr_name a in
  let value := attr_value a in
  let keep (x : outcome NodeData) : outcome (NodeData * PropRegistry) :=
    let! n := x in Ret (n, reg) in
  if String.eqb name "properties" then keep (set_phys_props n value)
  else if String.eqb name "additional_properties" then keep (set_virt_props n value)
  else if String.eqb name "state" then
    keep (Ret (n <| nd_state := reset_state (nd_state n) value |>))
  else if String.eqb name "node_priority" then keep (set_priority n value)
  else if String.eqb name "ntype" then keep (set_type n value)
  else if String.eqb name "no_multinode_jobs" then keep (Ret (set_nomultinode n value))
  else if String.eqb name "no_starving_jobs" then keep (Ret (set_nostarving n value))
  else if String.eqb name "np" then keep (set_proc_total n value)
  else if String.eqb name "npfree" then keep (set_proc_free n value)
  else if String.eqb name "queue" then keep (Ret (set_ded_queue n value))
  else if String.eqb name "admin_slot_available" then keep (Ret (set_admin_slot_avail n value))
  else if String.eqb name "admin_slot_enabled" then keep (Ret (set_admin_slot_enabled n value))
  else if String.eqb name "fairshare_coef" then keep (set_node_cost n value)
  else if String.eqb name "machine_spec" then keep (set_node_spec n value)
  else if String.eqb name "available_after" then keep (set_avail_after n value)
  else if String.eqb name "available_before" then keep (set_avail_before n value)
  else if String.eqb name "resources_total" then
    set_resource_capacity reg n (attr_resource a) value
  else if String.eqb name "resources_used" then
    keep (Ret (set_resource_utilisation n (attr_resource a) value))
  else if String.eqb name "jobs" then keep (set_jobs n value)
  else if String.eqb name "exclusively_assigned" then keep (Ret (set_exclusively_assigned n value))
  else Ret (n, reg).

Definition NodeData_ctor (junk_total junk_free : Z) (junk_nostarving : bool) (reg : PropRegistry)
    (name : string) (attribs : list attrl) : outcome (NodeData * PropRegistry) :=
  ofold node_attr attribs (new_NodeData name junk_total junk_free junk_nostarving, reg).

(** ** Facts *)

Lemma reset_state_monotone n s :
  (p_is_down n = true -> p_is_down (reset_state n s) = true) /\
  (p_is_offline n = true -> p_is_offline (reset_state n s) = true) /\
  (p_is_unknown n = true -> p_is_unknown (reset_state n s) = true).
Proof. split_and!; simpl; intros ->; by rewrite orb_true_r. Qed.

Lemma length_vector_resize l size v :
  (length l <= size)%nat -> length (vector_resize l size v) = size.
Proof.
  intros H. unfold vector_resize. rewrite length_app, take_ge, length_replicate by done. lia.
Qed.

(** The table of registered values grows by at least fifty entries, but only up
    to [propid] entries when the property id is far past the end: the write is
    then out of bounds. *)
Lemma add_reg_props_spec n propid valueid :
  (propid < length (p_reg_props n) + 50)%nat ->
  exists n', add_reg_props n propid valueid = Ret n' /\ has_reg_prop n' propid valueid = true.
Proof.
  intros H. unfold add_reg_props. cbv zeta.
  destruct (decide (length (p_reg_props n) <= propid)%nat).
  - rewrite decide_True by (rewrite length_vector_resize; lia).
    eexists. split; [done|]. unfold has_reg_prop. simpl.
    rewrite list_lookup_insert_eq by (rewrite length_vector_resize; lia). apply Z.eqb_refl.
  - rewrite decide_True by lia. eexists. split; [done|]. unfold has_reg_prop. simpl.
    rewrite list_lookup_insert_eq by lia. apply Z.eqb_refl.
Qed.

Lemma add_reg_props_out_of_bounds n propid valueid :
  (length (p_reg_props n) + 50 <= propid)%nat -> add_reg_props n propid valueid = UB.
Proof.
  intros H. unfold add_reg_props. cbv zeta. rewrite (decide_True (P := (length _ <= _)%nat)) by lia.
  rewrite decide_False; [done|]. rewrite length_vector_resize; lia.
Qed.
