(* ===== verification/Repository.v ===== *)
(** * The repository of bootable images: legacy/site_pbs_cache_common.c

    Two files give the images of each host and the properties of each image, as
    lines of a key and a text; reading them is a parameter, [None] when a file cannot
    be read. *)

From Stdlib Require Import ZArith Bool String.
From S2P Require Import Prelude DataTypes.

Local Open Scope string_scope.
Open Scope Z_scope.
Local Open Scope sched_scope.

Abbreviation config_lines := (list (string * string)).

(** The properties of an image: a later line replaces an earlier one. *)
Definition image_properties (images : config_lines) (name : string) : option string :=
  fold_left (fun r '(key, text) => if String.eqb key name then Some text else r) images None.

Definition get_bootable_alternatives (hosts images : option config_lines) (hostname : string) : option (list repository_alternatives) :=
  match hosts, images with
  | Some hosts, Some images =>
      Some ((fun line => mkAlternative (snd line) (image_properties images (snd line)) 1) <$>
        filter (fun line => fst line = hostname) hosts)
  | _, _ => None
  end.

(** The first line. *)
Definition get_alternative_properties (images : option config_lines) (name : string) : option string :=
  match images with
  | Some images => snd <$> head (filter (fun line => fst line = name) images)
  | None => None
  end.

Lemma image_properties_last images name : image_properties images name = snd <$> last (filter (fun line => fst line = name) images).
Proof.
  unfold image_properties. induction images as [|[key text] images IH] using rev_ind; [done|].
  rewrite fold_left_app, filter_app, filter_cons, filter_nil. cbn [fold_left fst]. destruct (String.eqb_spec key name) as [->|Hne].
  - by rewrite decide_True, last_snoc by done.
  - by rewrite decide_False, app_nil_r by done.
Qed.

(** When every image has one line the two readings of its properties agree. *)
Theorem alternatives_have_their_properties hosts images hostname l :
  NoDup images.*1 -> get_bootable_alternatives (Some hosts) (Some images) hostname = Some l ->
  r_name <$> l = snd <$> filter (fun line => fst line = hostname) hosts /\
  Forall (fun a => r_proplist a = get_alternative_properties (Some images) (r_name a) /\ r_mark a = 1) l.
Proof.
  intros Hn [= <-]. split; [by rewrite <- list_fmap_compose|]. apply Forall_fmap, Forall_forall. intros [h name] _. cbn. split; [|done].
  rewrite image_properties_last. f_equal.
  assert (H : (length (filter (fun line : string * string => line.1 = name) images) <= 1)%nat).
  { revert Hn. clear. induction images as [|[key text] images IH]; cbn [fmap list_fmap]; [cbn; lia|]. intros [Hk Hn]%NoDup_cons.
    destruct (decide (key = name)) as [->|Hne]; [|rewrite filter_cons_False by done; by apply IH].
    rewrite filter_cons_True by done. assert (E : filter (fun line : string * string => line.1 = name) images = []); [|by rewrite E].
    destruct (filter _ images) as [|[k t] r] eqn:E; [done|]. exfalso. apply Hk.
    assert (Hin : (k, t) ∈ filter (fun line : string * string => line.1 = name) images) by (rewrite E; by left).
    apply list_elem_of_filter in Hin as [<- Hin]. apply list_elem_of_fmap. by exists (k, t). }
  destruct (filter _ images) as [|x [|y r]]; cbn in *; first [done|lia].
Qed.

(** Otherwise they do not. *)
Lemma properties_of_a_repeated_image :
  get_bootable_alternatives (Some [("n1", "debian")]) (Some [("debian", "old"); ("debian", "new")]) "n1" =
    Some [mkAlternative "debian" (Some "new") 1] /\
  get_alternative_properties (Some [("debian", "old"); ("debian", "new")]) "debian" = Some "old".
Proof. by vm_compute. Qed.
