(* ===== verification/JobInfo.v ===== *)
(** * Jobs: JobInfo.h, JobInfo.cpp, the resource lists and states of job_info.cpp

    [JobInfo] is built attribute by attribute from a batch status reply.  The
    queue a job sits in is passed to the operations that look at it; the
    request is the [pars_spec] that the Torque library's [parse_nodespec]
    returns for the job's nodespec, cached on the job. *)

From Stdlib Require Import ZArith Lia Bool Ascii String SpecFloat.
From S2P Require Import Prelude CString CFloat MiscHelpers DataTypes.

Open Scope Z_scope.
Local Open Scope sched_scope.

Record JobInfo := mkJobInfo {
  job_id : string;
  custom_name : string;
  comment : string;
  nodespec : string;
  qtime : Z;
  stime : Z;
  priority : Z;
  account : string;
  group : string;
  state : JobState;
  can_never_run : bool;
  can_not_run : bool;
  calculated_fairshare : spec_float;
  sched_nodespec : string;
  planned_nodes : string;
  planned_start : Z;
  compl_time : Z;
  waiting_for : string;
  ginfo : option positive;
  schedule : list positive;
  cluster_name : string;
  cluster_mode : ClusterMode;
  placement : string;
  resreq : list resource_req;
  resused : list resource_req;
  p_parsed_nodespec : option pars_spec;
  queue : option nat
}.

#[export] Instance JobInfo_fields : Fields JobInfo :=
  fields_app (fields_app (fields_app (fields_app (fields_app (fields_app (fields_app
  (fields_app (fields_app (fields_app (fields_app (fields_app (fields_app (fields_app
  (fields_app (fields_app (fields_app (fields_app (fields_app (fields_app (fields_app
  (fields_app (fields_app (fields_app (fields_app (fields_app (fields_app (fields_const mkJobInfo)
    job_id) custom_name) comment) nodespec) qtime) stime) priority) account) group)
    state) can_never_run) can_not_run) calculated_fairshare) sched_nodespec)
    planned_nodes) planned_start) compl_time) waiting_for) ginfo) schedule)
    cluster_name) cluster_mode) placement) resreq) resused) p_parsed_nodespec) queue.

(** ** The resource lists *)

Fixpoint find_resource_req (reqlist : list resource_req) (name : string) : option resource_req :=
  match reqlist with
  | [] => None
  | r :: l => if negb (strcmp (req_name r) name =? 0) then find_resource_req l name else Some r
  end.

Definition new_resource_req (name : string) : resource_req := mkReq name 0 None.

(** [find_alloc_resource_req] followed by the update of the entry it returns:
    the first entry of the name, or a new one at the end of the list. *)
Fixpoint alter_resource_req (name : string) (f : resource_req -> resource_req)
    (reqlist : list resource_req) : list resource_req :=
  match reqlist with
  | [] => [f (new_resource_req name)]
  | r :: l =>
      if negb (strcmp (req_name r) name =? 0) then r :: alter_resource_req name f l
      else f r :: l
  end.

Definition clone_resource_req (r : resource_req) : resource_req :=
  mkReq (req_name r) (req_amount r) (req_res_str r).

Fixpoint clone_loop (iter : list resource_req) : list resource_req :=
  match iter with [] => [] | r :: l => clone_resource_req r :: clone_loop l end.

Definition clone_resource_req_list (l : list resource_req) : list resource_req :=
  match l with [] => [] | r :: iter => clone_resource_req r :: clone_loop iter end.

(** ** job_info.cpp: states *)

Definition set_state (st : string) (j : JobInfo) : JobInfo :=
  let c := hd0 st in
  if c =c "Q" then j <| state := JobQueued |>
  else if c =c "R" then j <| state := JobRunning |>
  else if c =c "T" then j <| state := JobTransit |>
  else if c =c "H" then j <| state := JobHeld |>
  else if c =c "W" then j <| state := JobWaiting |>
  else if c =c "E" then j <| state := JobExiting |>
  else if c =c "S" then j <| state := JobSuspended |>
  else if c =c "C" then j <| state := JobCompleted |>
  else if c =c "X" then j <| state := JobCrossRun |>
  else j.

Definition update_job_on_run (j : JobInfo) : JobInfo := j <| state := JobRunning |>.
Definition update_job_on_move (j : JobInfo) : JobInfo := j <| state := JobCrossRun |>.

(** ** The constructor *)

Definition newline : ascii := "010"%char.

(** [count = strtol(value, &endp, 10)] into an [int], and the fallback that
    only a trailing newline triggers. *)
Definition int_attr (value : string) : Z :=
  let '(v, endp) := strtol10 value in
  let count := i32 v in
  if negb (hd0 endp =c newline) then count else -1.

Definition new_JobInfo (name : string) : JobInfo :=
  mkJobInfo name "" "" "" 0 0 0 "" "" JobNoState false false fzero "" "" 0 0 "" None [] ""
    ClusterNone "" [] [] None None.

(** The resource requests ([ATTR_l]) with a meaning of their own. *)
Definition resource_list_attr (j : JobInfo) (resource value : string) : JobInfo :=
  if String.eqb resource "cluster" then
    if String.eqb value "create" then j <| cluster_mode := ClusterCreate |>
    else j <| cluster_mode := ClusterUse |> <| cluster_name := value |>
  else if String.eqb resource "processed_nodes" then j <| nodespec := value |>
  else if String.eqb resource "place" then j <| placement := value |>
  else j.

Definition job_attr (j : JobInfo) (a : attrl) : JobInfo :=
  let name := attr_name a in
  let value := attr_value a in
  if String.eqb name "Job_Name" then j <| custom_name := value |>
  else if String.eqb name "comment" then j <| comment := value |>
  else if String.eqb name "qtime" then j <| qtime := int_attr value |>
  else if String.eqb name "start_time" then j <| stime := int_attr value |>
  else if String.eqb name "Priority" then j <| priority := int_attr value |>
  else if String.eqb name "euser" then j <| account := value |>
  else if String.eqb name "egroup" then j <| group := value |>
  else if String.eqb name "job_state" then set_state value j
  else if String.eqb name "fairshare_cost" then j <| calculated_fairshare := atof value |>
  else if String.eqb name "sched_nodespec" then j <| sched_nodespec := value |>
  else if String.eqb name "planned_nodes" then j <| planned_nodes := value |>
  else if String.eqb name "waiting_for_jobs" then j <| waiting_for := value |>
  else if String.eqb name "planned_start" then j <| planned_start := int_attr value |>
  else if String.eqb name "comp_time" then j <| compl_time := int_attr value |>
  else if String.eqb name "Resource_List" then resource_list_attr j (attr_resource a) value
  else if String.eqb name "resc_req_total" then
    j <| resreq := alter_resource_req (attr_resource a)
                     (fun r => mkReq (req_name r) (res_to_num value) (Some value)) (resreq j) |>
  else if String.eqb name "resources_used" then
    j <| resused := alter_resource_req (attr_resource a)
                      (fun r => mkReq (req_name r) (res_to_num value) (req_res_str r)) (resused j) |>
  else j.

Definition JobInfo_ctor (name : string) (attribs : list attrl) : JobInfo :=
  fold_left job_attr attribs (new_JobInfo name).

(** ** Times *)

Definition TIME_MAX : Z := 9223372036854775807.

Definition get_walltime (j : JobInfo) : Z :=
  match find_resource_req (resreq j) "walltime" with
  | None => 0
  | Some r => req_amount r
  end.

Definition completion_time (j : JobInfo) : Z :=
  match find_resource_req (resreq j) "walltime" with
  | None => TIME_MAX
  | Some r => i64 (stime j + req_amount r)
  end.

(** misc.cpp: [used_amount] and the result are [int]s. *)
Definition calc_time_left (j : JobInfo) : Z :=
  match find_resource_req (resreq j) "walltime" with
  | None => -1
  | Some req =>
      let used_amount :=
        match find_resource_req (resused j) "walltime" with
        | None => 0
        | Some used => i32 (req_amount used)
        end in
      i32 (i64 (req_amount req - used_amount))
  end.

(** [starving_support] is the field of the job's queue. *)
Definition is_starving (j : JobInfo) (starving_support current_time : Z) : bool :=
  bool_decide (state j = JobQueued) && (starving_support >=? 0)
  && (i64 (qtime j + starving_support) <? current_time).

(** ** The parsed request *)

Section Nodespec.
(** The Torque library's parser. *)
Variable parse_nodespec : string -> pars_spec.

(** The job after [parsed_nodespec()]: the default nodespec filled in and the
    parse cached. *)
Definition parsed_nodespec_job (j : JobInfo) : JobInfo :=
  match p_parsed_nodespec j with
  | Some _ => j
  | None =>
      let j := if String.eqb (nodespec j) "" then j <| nodespec := "1:ppn=1"%string |> else j in
      j <| p_parsed_nodespec := Some (parse_nodespec (nodespec j)) |>
  end.

(** Its result. *)
Definition parsed_nodespec (j : JobInfo) : pars_spec :=
  match p_parsed_nodespec j with
  | Some s => s
  | None => parse_nodespec (if String.eqb (nodespec j) "" then "1:ppn=1"%string else nodespec j)
  end.

Definition clean_parsed_nodespec (j : JobInfo) : JobInfo := j <| p_parsed_nodespec := None |>.

Definition is_multinode (j : JobInfo) : bool := spec_total_nodes (parsed_nodespec j) >? 1.
Definition is_exclusive (j : JobInfo) : bool := spec_exclusive (parsed_nodespec j).

(** Caching is transparent: repeated calls return the first result. *)
Lemma parsed_nodespec_cached j :
  parsed_nodespec (parsed_nodespec_job j) = parsed_nodespec j /\
  parsed_nodespec_job (parsed_nodespec_job j) = parsed_nodespec_job j.
Proof.
  unfold parsed_nodespec, parsed_nodespec_job.
  destruct (p_parsed_nodespec j) eqn:E; [by rewrite E|]. simpl.
  by destruct (String.eqb (nodespec j) "").
Qed.
End Nodespec.

(** ** Facts about the resource lists *)

Lemma find_alter_resource_req name f l :
  (forall r, req_name (f r) = req_name r) ->
  find_resource_req (alter_resource_req name f l) name =
  Some (f (match find_resource_req l name with Some r => r | None => new_resource_req name end)).
Proof.
  intros Hf. induction l as [|r l IH]; simpl.
  - by rewrite Hf, strcmp_refl.
  - destruct (strcmp (req_name r) name =? 0) eqn:E; simpl.
    + by rewrite Hf, E.
    + by rewrite E, IH.
Qed.

Lemma find_alter_resource_req_ne name other f l :
  (forall r, req_name (f r) = req_name r) -> name <> other ->
  find_resource_req (alter_resource_req name f l) other = find_resource_req l other.
Proof.
  intros Hf Hne. assert (Hne' : strcmp name other <> 0) by (rewrite strcmp_eq; done).
  induction l as [|r l IH]; simpl.
  - rewrite Hf. simpl. apply Z.eqb_neq in Hne'. by rewrite Hne'.
  - destruct (strcmp (req_name r) name =? 0) eqn:E; simpl.
    + to_props. apply strcmp_eq in E as E'. rewrite Hf, E'.
      apply Z.eqb_neq in Hne'. by rewrite Hne'.
    + destruct (strcmp (req_name r) other =? 0); simpl; [done|apply IH].
Qed.

(** A clone is an equal list. *)
Lemma clone_resource_req_list_id l : clone_resource_req_list l = l.
Proof.
  assert (H : forall l, clone_loop l = l).
  { induction l0 as [|[] l0 IH]; simpl; [done|]. by rewrite IH. }
  destruct l as [|[] l]; simpl; [done|]. by rewrite H.
Qed.
