(* ===== verification/Sort.v ===== *)
(** * The order of the jobs: sort.cpp

    The jobs of a cycle are sorted by the comparator of the first entry of the
    sort keys; [multi_sort] tries the other keys in turn. *)

From Stdlib Require Import ZArith Lia Bool Ascii String SpecFloat.
From S2P Require Import Prelude CString CFloat MiscHelpers Config DataTypes JobInfo.

Open Scope Z_scope.
Local Open Scope sched_scope.

Definition cmp_generic_asc (req1 req2 : option resource_req) : bool :=
  match req1, req2 with
  | None, Some _ => false
  | Some _, None => true
  | Some r1, Some r2 => req_amount r1 <? req_amount r2
  | None, None => false
  end.

Definition cmp_generic_desc (req1 req2 : option resource_req) : bool :=
  match req1, req2 with
  | None, Some _ => true
  | Some _, None => false
  | Some r1, Some r2 => req_amount r1 >? req_amount r2
  | None, None => false
  end.

Definition cmp_job_walltime_asc (j1 j2 : JobInfo) : bool :=
  cmp_generic_asc (find_resource_req (resreq j1) "walltime") (find_resource_req (resreq j2) "walltime").
Definition cmp_job_walltime_dsc (j1 j2 : JobInfo) : bool :=
  cmp_generic_desc (find_resource_req (resreq j1) "walltime") (find_resource_req (resreq j2) "walltime").
Definition cmp_job_cput_asc (j1 j2 : JobInfo) : bool :=
  cmp_generic_asc (find_resource_req (resreq j1) "cput") (find_resource_req (resreq j2) "cput").
Definition cmp_job_cput_dsc (j1 j2 : JobInfo) : bool :=
  cmp_generic_desc (find_resource_req (resreq j1) "cput") (find_resource_req (resreq j2) "cput").
Definition cmp_job_mem_asc (j1 j2 : JobInfo) : bool :=
  cmp_generic_asc (find_resource_req (resreq j1) "mem") (find_resource_req (resreq j2) "mem").
Definition cmp_job_mem_dsc (j1 j2 : JobInfo) : bool :=
  cmp_generic_desc (find_resource_req (resreq j1) "mem") (find_resource_req (resreq j2) "mem").
Definition cmp_job_prio_asc (j1 j2 : JobInfo) : bool := priority j1 <? priority j2.
Definition cmp_job_prio_dsc (j1 j2 : JobInfo) : bool := priority j1 >? priority j2.

Section Sort.
(** The [percentage] of a node of the fairshare tree. *)
Variable percentage : positive -> option spec_float.

Definition cmp_fair_share (j1 j2 : JobInfo) : outcome bool :=
  let! g1 := of_option (ginfo j1) in
  let! p1 := of_option (percentage g1) in
  let! g2 := of_option (ginfo j2) in
  let! p2 := of_option (percentage g2) in
  Ret (fgt p1 p2).

(** The loop over [sort_by[i]], [n] entries from the current one on; [cmp] is
    the comparator of a key. *)
Fixpoint multi_loop (cmp : sort_type -> outcome bool) (cmp' : sort_type -> outcome bool)
    (n : nat) (keys : list sort_type) : outcome bool :=
  match n with
  | O => Ret false
  | S n =>
      match keys with
      | [] => UB
      | k :: keys' =>
          if bool_decide (k = NO_SORT) then Ret false
          else
            let! a := cmp k in
            if a then Ret true
            else
              let! b := cmp' k in
              if b then Ret false else multi_loop cmp cmp' n keys'
      end
  end.

(** [cmp_func] of an entry; [sort_by] are the entries [multi_sort] reads.  The
    fuel bounds the depth of calls: [multi_sort] calls itself when it is itself
    one of the keys. *)
Fixpoint cmp_func (fuel : nat) (sort_by : list sort_type) (k : sort_type) (j1 j2 : JobInfo)
  : outcome bool :=
  match fuel with
  | O => UB
  | S fuel =>
      match k with
      | NO_SORT => UB
      | SHORTEST_JOB_FIRST => Ret (cmp_job_cput_asc j1 j2)
      | LONGEST_JOB_FIRST => Ret (cmp_job_cput_dsc j1 j2)
      | SMALLEST_MEM_FIRST => Ret (cmp_job_mem_asc j1 j2)
      | LARGEST_MEM_FIRST => Ret (cmp_job_mem_dsc j1 j2)
      | HIGH_PRIORITY_FIRST => Ret (cmp_job_prio_dsc j1 j2)
      | LOW_PRIORITY_FIRST => Ret (cmp_job_prio_asc j1 j2)
      | LARGE_WALLTIME_FIRST => Ret (cmp_job_walltime_dsc j1 j2)
      | SHORT_WALLTIME_FIRST => Ret (cmp_job_walltime_asc j1 j2)
      | FAIR_SHARE => cmp_fair_share j1 j2
      | MULTI_SORT =>
          multi_loop (fun k => cmp_func fuel sort_by k j1 j2) (fun k => cmp_func fuel sort_by k j2 j1)
            num_sorts (tail sort_by)
      end
  end.

(** [multi_sort] and the comparator it calls are two levels. *)
Definition multi_sort (sort_by : list sort_type) (j1 j2 : JobInfo) : outcome bool :=
  cmp_func 2 sort_by MULTI_SORT j1 j2.

Definition cmp_sort (sort_by : list sort_type) (j1 j2 : JobInfo) : outcome bool :=
  match sort_by with
  | [] => UB
  | k :: _ => cmp_func 2 sort_by k j1 j2
  end.

(** [std::sort] of the jobs; a comparison that is not defined makes the sort
    undefined. *)
Definition defined {A} (x : outcome A) : bool := match x with Ret _ => true | _ => false end.
Definition answer (x : outcome bool) : bool := match x with Ret b => b | _ => false end.

Definition sort_jobs (sort_by : list sort_type) (jobs : list JobInfo) : outcome (list JobInfo) :=
  if forallb (fun j1 => forallb (fun j2 => defined (cmp_sort sort_by j1 j2)) jobs) jobs
  then Ret (isort (fun j1 j2 => answer (cmp_sort sort_by j1 j2)) jobs)
  else UB.

(** ** The comparators are strict weak orders *)

Definition amount (name : string) (j : JobInfo) : option Z :=
  req_amount <$> find_resource_req (resreq j) name.

Definition asc_key (a : option Z) : list Z := match a with Some v => [0; v] | None => [1; 0] end.
Definition desc_key (a : option Z) : list Z := match a with Some v => [1; - v] | None => [0; 0] end.

Definition share (j : JobInfo) : spec_float :=
  default S754_nan (ginfo j ≫= percentage).

(** The key a comparator of a job compares, smaller first; the shares are
    compared the other way round. *)
Definition job_key (k : sort_type) (j : JobInfo) : list Z :=
  match k with
  | SHORTEST_JOB_FIRST => asc_key (amount "cput" j)
  | LONGEST_JOB_FIRST => desc_key (amount "cput" j)
  | SMALLEST_MEM_FIRST => asc_key (amount "mem" j)
  | LARGEST_MEM_FIRST => desc_key (amount "mem" j)
  | HIGH_PRIORITY_FIRST => [- priority j]
  | LOW_PRIORITY_FIRST => [priority j]
  | LARGE_WALLTIME_FIRST => desc_key (amount "walltime" j)
  | SHORT_WALLTIME_FIRST => asc_key (amount "walltime" j)
  | _ => []
  end.

Definition key_lt (k : sort_type) (j1 j2 : JobInfo) : bool :=
  match k with
  | FAIR_SHARE => lex_then (fun j => fkey (share j)) (fun _ _ => false) j2 j1
  | _ => lex_then (job_key k) (fun _ _ => false) j1 j2
  end.

Lemma key_lt_swo k : StrictWeakOrder (key_lt k).
Proof.
  assert (H : forall key : JobInfo -> list Z, StrictWeakOrder (lex_then key (fun _ _ => false)))
    by (intros; apply lex_then_swo, trivial_swo).
  destruct k; try apply H. apply (swo_flip _ (H (fun j => fkey (share j)))).
Qed.

(** A job whose share the comparators can read. *)
Definition has_share (j : JobInfo) : Prop :=
  exists g p, ginfo j = Some g /\ percentage g = Some p /\ not_nan p = true.

Lemma lex_ltb a b : (a <? b) = match lex [a] [b] with Lt => true | _ => false end.
Proof. simpl. unfold Z.ltb. by destruct (a ?= b). Qed.

Lemma cmp_asc_lex r1 r2 :
  cmp_generic_asc r1 r2
  = match lex (asc_key (req_amount <$> r1)) (asc_key (req_amount <$> r2)) with Lt => true | _ => false end.
Proof. destruct r1, r2; cbn; try done. unfold Z.ltb. by destruct (_ ?= _). Qed.

Lemma cmp_desc_lex r1 r2 :
  cmp_generic_desc r1 r2
  = match lex (desc_key (req_amount <$> r1)) (desc_key (req_amount <$> r2)) with Lt => true | _ => false end.
Proof.
  destruct r1, r2; cbn; try done. rewrite Z.compare_opp, Z.gtb_ltb. unfold Z.ltb. by destruct (_ ?= _).
Qed.

Lemma lex_match a b :
  match lex a b with Lt => true | _ => false end
  = match lex a b with Eq => false | Lt => true | Gt => false end.
Proof. by destruct (lex a b). Qed.

Lemma cmp_func_key fuel sort_by k j1 j2 :
  k <> NO_SORT -> k <> MULTI_SORT -> has_share j1 -> has_share j2 ->
  cmp_func (S fuel) sort_by k j1 j2 = Ret (key_lt k j1 j2).
Proof.
  intros Hn Hm (g1 & p1 & Hg1 & Hp1 & Hf1) (g2 & p2 & Hg2 & Hp2 & Hf2).
  unfold key_lt, lex_then, job_key. destruct k; try done; cbn [cmp_func]; rewrite <- ?lex_match.
  all: try (unfold cmp_job_cput_asc, cmp_job_mem_asc, cmp_job_walltime_asc; by rewrite cmp_asc_lex).
  all: try (unfold cmp_job_cput_dsc, cmp_job_mem_dsc, cmp_job_walltime_dsc; by rewrite cmp_desc_lex).
  - unfold cmp_job_prio_dsc. rewrite <- lex_ltb. f_equal. case_bools; lia.
  - unfold cmp_job_prio_asc. by rewrite lex_ltb.
  - unfold cmp_fair_share, share. rewrite Hg1, Hg2. cbn. rewrite Hp1, Hp2. cbn.
    f_equal. by apply flt_lex.
Qed.

(** The order of the keys, first key first. *)
Fixpoint keys_lt (n : nat) (keys : list sort_type) : JobInfo -> JobInfo -> bool :=
  match n, keys with
  | S n, k :: keys' =>
      if bool_decide (k = NO_SORT) then fun _ _ => false else then_lt (key_lt k) (keys_lt n keys')
  | _, _ => fun _ _ => false
  end.

Lemma keys_lt_swo n keys : StrictWeakOrder (keys_lt n keys).
Proof.
  revert keys. induction n as [|n IH]; intros [|k keys]; simpl; try apply trivial_swo.
  destruct (bool_decide _); [apply trivial_swo|]. apply then_lt_swo; [apply key_lt_swo|apply IH].
Qed.

Lemma multi_loop_keys fuel sort_by n keys j1 j2 :
  (n <= length keys)%nat -> Forall (fun k => k <> MULTI_SORT) keys -> has_share j1 -> has_share j2 ->
  multi_loop (fun k => cmp_func (S fuel) sort_by k j1 j2) (fun k => cmp_func (S fuel) sort_by k j2 j1) n keys
  = Ret (keys_lt n keys j1 j2).
Proof.
  intros Hlen Hf H1 H2. revert n Hlen. induction Hf as [|k keys Hk Hf IH]; intros n Hlen.
  { simpl in Hlen. by replace n with 0%nat by lia. }
  destruct n as [|n]; [done|]. cbn [multi_loop keys_lt].
  destruct (decide (k = NO_SORT)) as [->|Hn]; [done|]. rewrite bool_decide_false by done.
  rewrite !cmp_func_key by done. cbn [obind]. unfold then_lt.
  destruct (key_lt k j1 j2); [done|]. destruct (key_lt k j2 j1); [done|].
  apply IH. simpl in Hlen. lia.
Qed.

(** The order of [cmp_sort]. *)
Definition sort_lt (sort_by : list sort_type) : JobInfo -> JobInfo -> bool :=
  match sort_by with
  | MULTI_SORT :: keys => keys_lt num_sorts keys
  | k :: _ => key_lt k
  | [] => fun _ _ => false
  end.

Lemma sort_lt_swo sort_by : StrictWeakOrder (sort_lt sort_by).
Proof. destruct sort_by as [|[] keys]; try apply key_lt_swo; [apply trivial_swo|apply keys_lt_swo]. Qed.

(** Keys that compare: a first key, and no [multi_sort] among the others. *)
Definition keys_ok (sort_by : list sort_type) : Prop :=
  length sort_by = (num_sorts + 1)%nat /\ head sort_by <> Some NO_SORT /\
  Forall (fun k => k <> MULTI_SORT) (tail sort_by).

Lemma cmp_sort_lt sort_by j1 j2 :
  keys_ok sort_by -> has_share j1 -> has_share j2 ->
  cmp_sort sort_by j1 j2 = Ret (sort_lt sort_by j1 j2).
Proof.
  intros (Hl & Hh & Hf) H1 H2. destruct sort_by as [|k keys]; [done|]. cbn [cmp_sort sort_lt].
  destruct (decide (k = MULTI_SORT)) as [->|Hk].
  - cbn [cmp_func]. cbn [tail] in *. simpl in Hl.
    apply (multi_loop_keys 0 (MULTI_SORT :: keys)); [unfold num_sorts in *; simpl in *; lia|done..].
  - rewrite cmp_func_key; [by destruct k|naive_solver|done..].
Qed.

Lemma isort_ext {A} (lt lt' : A -> A -> bool) l :
  (forall x y, x ∈ l -> y ∈ l -> lt x y = lt' x y) -> isort lt l = isort lt' l.
Proof.
  intros H. induction l as [|x l IH]; [done|]. simpl.
  rewrite IH by (intros; apply H; by right).
  assert (Hx : forall y, y ∈ isort lt' l -> lt y x = lt' y x).
  { intros y Hy. rewrite isort_perm in Hy. apply H; [by right|by left]. }
  revert Hx. generalize (isort lt' l). induction l0 as [|y l0 IH0]; intros Hx; [done|]. simpl.
  rewrite Hx by by left. destruct (lt' y x); [|done]. f_equal. apply IH0. intros; apply Hx. by right.
Qed.
End Sort.

(** C40: Sorting the jobs of a cycle is well defined and orders them: with sort
    keys the parser accepts, none of them [multi_sort] after the first, and jobs
    whose fairshare the comparators can read, [cmp_sort] is the strict weak
    order that [std::sort] requires - it compares by the first key that
    distinguishes the two jobs, requests in ascending order with absent ones
    last or in descending order with absent ones first - and the sorted jobs are
    the same jobs, none before one that compares smaller. *)
Theorem sort_jobs_correct (percentage : positive -> option spec_float) (sort_by : list sort_type)
    (jobs : list JobInfo) (Hk : keys_ok sort_by) (Hj : Forall (has_share percentage) jobs) :
  StrictWeakOrder (sort_lt percentage sort_by) /\
  (forall j1 j2, j1 ∈ jobs -> j2 ∈ jobs ->
     cmp_sort percentage sort_by j1 j2 = Ret (sort_lt percentage sort_by j1 j2)) /\
  exists sorted, sort_jobs percentage sort_by jobs = Ret sorted /\ sorted ≡ₚ jobs /\
    ordered (sort_lt percentage sort_by) sorted.
Proof.
  pose proof (sort_lt_swo percentage sort_by) as Hswo.
  assert (Hcmp : forall j1 j2, j1 ∈ jobs -> j2 ∈ jobs ->
    cmp_sort percentage sort_by j1 j2 = Ret (sort_lt percentage sort_by j1 j2)).
  { rewrite Forall_forall in Hj. intros. apply cmp_sort_lt; auto. }
  split_and!; [done|done|]. unfold sort_jobs.
  replace (forallb _ jobs) with true.
  - eexists. split; [done|]. rewrite (isort_ext _ (sort_lt percentage sort_by)).
    + split; [apply isort_perm|by apply isort_ordered].
    + intros x y Hx Hy. by rewrite Hcmp.
  - symmetry. apply forallb_forall. intros x Hx%list_elem_of_In. apply forallb_forall.
    intros y Hy%list_elem_of_In. by rewrite Hcmp.
Qed.

Definition job_with (id : string) (prio : Z) (wt : option Z) : JobInfo :=
  new_JobInfo id <| priority := prio |> <| ginfo := Some 1%positive |>
    <| resreq := match wt with Some w => [mkReq "walltime" w None] | None => [] end |>.

Definition example_keys : list sort_type :=
  MULTI_SORT :: FAIR_SHARE :: HIGH_PRIORITY_FIRST :: SHORT_WALLTIME_FIRST :: replicate 8 NO_SORT.

Lemma sort_jobs_correct_witness :
  exists sorted, sort_jobs (fun _ => Some fzero) example_keys
    [job_with "a" 1 None; job_with "b" 1 (Some 60); job_with "c" 7 None] = Ret sorted /\
    sorted = [job_with "c" 7 None; job_with "b" 1 (Some 60); job_with "a" 1 None].
Proof.
  destruct (sort_jobs_correct (fun _ => Some fzero) example_keys
    [job_with "a" 1 None; job_with "b" 1 (Some 60); job_with "c" 7 None]) as (_ & _ & s & Hs & _).
  - split_and!; [done|done|]. by repeat constructor.
  - repeat constructor; by exists 1%positive, fzero.
  - exists s. split; [exact Hs|]. revert Hs. vm_compute. congruence.
Defined.

(** A [multi_sort] among the keys calls itself without end. *)
Lemma multi_sort_key_diverges percentage fuel sort_by k0 keys j1 j2 :
  sort_by = k0 :: MULTI_SORT :: keys ->
  cmp_func percentage fuel sort_by MULTI_SORT j1 j2 = UB.
Proof.
  intros ->. induction fuel as [|fuel IH]; [done|]. cbn [cmp_func tail].
  change num_sorts with (S 10). cbn [multi_loop]. rewrite bool_decide_false by done. by rewrite IH.
Qed.
