(* ===== verification/StateCount.v ===== *)
(** * Job state counters: SchedulerCore_StateCount.cpp *)

From Stdlib Require Import ZArith Lia Bool Ascii String.
From S2P Require Import Prelude CString MiscHelpers DataTypes JobInfo.

Open Scope Z_scope.

Record StateCount := mkStateCount {
  sc_running : Z;
  sc_queued : Z;
  sc_held : Z;
  sc_transit : Z;
  sc_waiting : Z;
  sc_exiting : Z;
  sc_suspended : Z;
  sc_completed : Z;
  sc_crossrun : Z;
  sc_total : Z
}.

#[export] Instance StateCount_fields : Fields StateCount :=
  fields_app (fields_app (fields_app (fields_app (fields_app (fields_app (fields_app
  (fields_app (fields_app (fields_app (fields_const mkStateCount)
    sc_running) sc_queued) sc_held) sc_transit) sc_waiting) sc_exiting) sc_suspended)
    sc_completed) sc_crossrun) sc_total.

#[export] Instance StateCount_eq_dec : EqDecision StateCount.
Proof. solve_decision. Defined.

Definition new_StateCount : StateCount := mkStateCount 0 0 0 0 0 0 0 0 0 0.

Definition reset_counts (sc : StateCount) : StateCount := mkStateCount 0 0 0 0 0 0 0 0 0 0.

(** One iteration of the loop of [count_states]. *)
Definition count_state (sc : StateCount) (j : JobInfo) : StateCount :=
  match state j with
  | JobQueued => sc <| sc_queued := i32 (sc_queued sc + 1) |>
  | JobRunning => sc <| sc_running := i32 (sc_running sc + 1) |>
  | JobTransit => sc <| sc_transit := i32 (sc_transit sc + 1) |>
  | JobExiting => sc <| sc_exiting := i32 (sc_exiting sc + 1) |>
  | JobHeld => sc <| sc_held := i32 (sc_held sc + 1) |>
  | JobWaiting => sc <| sc_waiting := i32 (sc_waiting sc + 1) |>
  | JobSuspended => sc <| sc_suspended := i32 (sc_suspended sc + 1) |>
  | JobCompleted => sc <| sc_completed := i32 (sc_completed sc + 1) |>
  | JobCrossRun => sc <| sc_crossrun := i32 (sc_crossrun sc + 1) |>
  | JobNoState => sc
  end.

(** The sum [total] is set to. *)
Definition states_sum (sc : StateCount) : Z :=
  sc_queued sc + sc_running sc + sc_transit sc + sc_exiting sc + sc_held sc + sc_waiting sc
  + sc_suspended sc + sc_completed sc + sc_crossrun sc.

Definition count_states (sc : StateCount) (jobs : list JobInfo) : StateCount :=
  let sc := fold_left count_state jobs sc in
  sc <| sc_total := i32 (states_sum sc) |>.

(** [operator+=] adds every counter but [total]. *)
Definition sc_add_assign (this sc : StateCount) : StateCount :=
  mkStateCount (i32 (sc_running this + sc_running sc)) (i32 (sc_queued this + sc_queued sc))
    (i32 (sc_held this + sc_held sc)) (i32 (sc_transit this + sc_transit sc))
    (i32 (sc_waiting this + sc_waiting sc)) (i32 (sc_exiting this + sc_exiting sc))
    (i32 (sc_suspended this + sc_suspended sc)) (i32 (sc_completed this + sc_completed sc))
    (i32 (sc_crossrun this + sc_crossrun sc)) (sc_total this).

Definition sc_plus (this rhs : StateCount) : StateCount := sc_add_assign this rhs.

(** ** Facts *)

Definition count_in (s : JobState) (jobs : list JobInfo) : Z :=
  Z.of_nat (length (filter (fun j => state j = s) jobs)).

(** The counter of a state. *)
Definition counter (s : JobState) (sc : StateCount) : Z :=
  match s with
  | JobQueued => sc_queued sc
  | JobRunning => sc_running sc
  | JobTransit => sc_transit sc
  | JobExiting => sc_exiting sc
  | JobHeld => sc_held sc
  | JobWaiting => sc_waiting sc
  | JobSuspended => sc_suspended sc
  | JobCompleted => sc_completed sc
  | JobCrossRun => sc_crossrun sc
  | JobNoState => 0
  end.

Lemma count_in_cons s j jobs :
  count_in s (j :: jobs) = (if decide (state j = s) then 1 else 0) + count_in s jobs.
Proof.
  unfold count_in. rewrite filter_cons. destruct (decide (state j = s)); cbn [length]; lia.
Qed.

Lemma count_in_bounds s jobs : 0 <= count_in s jobs <= Z.of_nat (length jobs).
Proof.
  unfold count_in. pose proof (length_filter (fun j => state j = s) jobs). lia.
Qed.

Lemma counter_count_state s sc j :
  s <> JobNoState ->
  counter s (count_state sc j) =
  if decide (state j = s) then i32 (counter s sc + 1) else counter s sc.
Proof.
  intros Hs. unfold count_state.
  destruct s; try done; destruct (state j) eqn:E; case_decide; simpl; try done; congruence.
Qed.

Lemma fold_count_state s jobs sc :
  s <> JobNoState -> 0 <= counter s sc -> counter s sc + Z.of_nat (length jobs) < 2 ^ 31 ->
  counter s (fold_left count_state jobs sc) = counter s sc + count_in s jobs.
Proof.
  intros Hs. revert sc. induction jobs as [|j jobs IH]; intros sc H0 Hb; cbn [fold_left length] in *.
  - unfold count_in. simpl. lia.
  - assert (Hc : counter s (count_state sc j) = counter s sc + if decide (state j = s) then 1 else 0).
    { rewrite counter_count_state by done. case_decide; [apply i32_id; in_range|lia]. }
    rewrite IH, Hc, count_in_cons; [lia|rewrite Hc; case_decide; lia..].
Qed.

Lemma count_in_total jobs :
  count_in JobQueued jobs + count_in JobRunning jobs + count_in JobTransit jobs
  + count_in JobExiting jobs + count_in JobHeld jobs + count_in JobWaiting jobs
  + count_in JobSuspended jobs + count_in JobCompleted jobs + count_in JobCrossRun jobs
  = Z.of_nat (length jobs) - count_in JobNoState jobs.
Proof.
  induction jobs as [|j jobs IH]; [done|]. rewrite !count_in_cons. cbn [length].
  destruct (state j); repeat (case_decide; try done); lia.
Qed.

(** Counting the states of a queue's jobs sets every counter to the number
    of jobs in that state, and [total] to the number of jobs whose state is
    known. *)
Theorem count_states_correct (jobs : list JobInfo) (Hlen : Z.of_nat (length jobs) < 2 ^ 31) :
  let sc := count_states new_StateCount jobs in
  (forall s, s <> JobNoState -> counter s sc = count_in s jobs) /\
  sc_total sc = Z.of_nat (length jobs) - count_in JobNoState jobs.
Proof.
  assert (Hc : forall s, s <> JobNoState ->
    counter s (fold_left count_state jobs new_StateCount) = count_in s jobs).
  { intros s Hs. rewrite fold_count_state; [|done|by destruct s|by destruct s].
    replace (counter s new_StateCount) with 0 by by destruct s. lia. }
  split.
  - intros s Hs. rewrite <- (Hc s Hs). by destruct s.
  - unfold count_states. cbn zeta. simpl. unfold states_sum.
    set (sc := fold_left _ _ _) in *.
    pose proof (count_in_bounds JobNoState jobs).
    assert (Hsum : sc_queued sc + sc_running sc + sc_transit sc + sc_exiting sc + sc_held sc
      + sc_waiting sc + sc_suspended sc + sc_completed sc + sc_crossrun sc
      = Z.of_nat (length jobs) - count_in JobNoState jobs).
    { rewrite <- count_in_total. rewrite <- !Hc by done. done. }
    rewrite Hsum. apply i32_id. in_range.
Qed.

Lemma count_states_correct_witness :
  let j := new_JobInfo "1.srv" in
  sc_total (count_states new_StateCount [j; set_state "Q" j; set_state "R" j]) = 2.
Proof.
  intros j. destruct (count_states_correct [j; set_state "Q" j; set_state "R" j] ltac:(vm_compute; reflexivity))
    as [_ H]. rewrite H. vm_compute. reflexivity.
Defined.

(** The server's totals are accumulated with [+=] over its queues: its counters
    are the sums, its [total] is not. *)
Lemma add_assign_total_stale this sc : sc_total (sc_add_assign this sc) = sc_total this.
Proof. done. Qed.
