(* ===== verification/QueueInfo.v ===== *)
(** * Queues: the queue record of data_types.h, queue_info.cpp, the counts of check.cpp

    A queue keeps, next to its running jobs, caches of per-user and per-group
    counts of jobs and of processor cores.  [update_on_job_run] maintains them
    when the scheduler starts a job; the accessors fill them on first use.  The
    running jobs are snapshots of the jobs, of which only the owner, the group
    and the request are read here. *)

From Stdlib Require Import ZArith Lia Bool Ascii String SpecFloat.
From S2P Require Import Prelude CString CFloat MiscHelpers DataTypes JobInfo StateCount.

Open Scope Z_scope.
Local Open Scope sched_scope.

Record queue_info := mkQueue {
  is_started : bool;
  is_exec : bool;
  is_route : bool;
  is_ok_to_run : bool;
  is_global : bool;
  dedtime_queue : bool;
  excl_nodes_only : bool;
  is_admin_queue : bool;
  q_name : string;
  q_sc : StateCount;
  q_max_run : Z;
  q_max_user_run : Z;
  q_max_group_run : Z;
  q_max_proc : Z;
  q_max_user_proc : Z;
  q_max_group_proc : Z;
  q_priority : Z;
  starving_support : Z;
  q_jobs : list positive;
  q_running_jobs : list JobInfo;
  excl_node_capacity : Z;
  excl_nodes : list positive;
  fairshare_tree : string;
  required_property : option string;
  queue_cost : spec_float;
  q_jobs_by_group : gmap string Z;
  q_jobs_by_user : gmap string Z;
  q_cores_by_group : gmap string Z;
  q_cores_by_user : gmap string Z;
  q_running_cores : option Z
}.

#[export] Instance queue_info_fields : Fields queue_info :=
  fields_app (fields_app (fields_app (fields_app (fields_app (fields_app (fields_app
  (fields_app (fields_app (fields_app (fields_app (fields_app (fields_app (fields_app
  (fields_app (fields_app (fields_app (fields_app (fields_app (fields_app (fields_app
  (fields_app (fields_app (fields_app (fields_app (fields_app (fields_app (fields_app
  (fields_app (fields_app (fields_const mkQueue)
    is_started) is_exec) is_route) is_ok_to_run) is_global) dedtime_queue) excl_nodes_only)
    is_admin_queue) q_name) q_sc) q_max_run) q_max_user_run) q_max_group_run) q_max_proc)
    q_max_user_proc) q_max_group_proc) q_priority) starving_support) q_jobs) q_running_jobs)
    excl_node_capacity) excl_nodes) fairshare_tree) required_property) queue_cost)
    q_jobs_by_group) q_jobs_by_user) q_cores_by_group) q_cores_by_user) q_running_cores.

Definition new_queue_info (name : string) : queue_info :=
  mkQueue false false false false false false false false name new_StateCount
    RESC_INFINITY RESC_INFINITY RESC_INFINITY RESC_INFINITY RESC_INFINITY RESC_INFINITY
    0 (-1) [] [] 0 [] "default" None (fof_Z (F := binary64) 1) ∅ ∅ ∅ ∅ None.

(** [push_excl_node]: the array of exclusive nodes and its NULL terminator;
    [None] is a write past the allocation. *)
Definition push_excl_node (q : queue_info) (n : positive) : option queue_info :=
  let count := Z.of_nat (length (excl_nodes q)) in
  let capacity :=
    if excl_node_capacity q <=? count + 1 then
      (excl_node_capacity q + 5 * (if excl_node_capacity q =? 0 then 1 else 0)) * 2
    else excl_node_capacity q in
  if count + 1 <? capacity
  then Some (q <| excl_node_capacity := capacity |> <| excl_nodes := excl_nodes q ++ [n] |>)
  else None.

(** ** The counts of check.cpp *)

Fixpoint count_by_user (jobs : list JobInfo) (user : string) : Z :=
  match jobs with
  | [] => 0
  | j :: l => (if String.eqb (account j) user then 1 else 0) + count_by_user l user
  end.

Fixpoint count_by_group (jobs : list JobInfo) (grp : string) : Z :=
  match jobs with
  | [] => 0
  | j :: l => (if String.eqb (group j) grp then 1 else 0) + count_by_group l grp
  end.

(** The precondition [Expects(sc.running == running_jobs.size())]. *)
Definition expects_running {A} (q : queue_info) (x : A) : outcome A :=
  if u64 (sc_running (q_sc q)) =? Z.of_nat (length (q_running_jobs q)) then Ret x
  else Throw "Expects".

Section Counts.
Variable parse_nodespec : string -> pars_spec.

Definition total_procs (j : JobInfo) : Z := spec_total_procs (parsed_nodespec parse_nodespec j).

(** [procs += total_procs] over the running jobs [p] selects; [procs] is an [int]. *)
Definition sum_procs (p : JobInfo -> bool) (jobs : list JobInfo) : Z :=
  fold_left (fun procs j => if p j then i32 (procs + total_procs j) else procs) jobs 0.

Definition count_queue_procs (q : queue_info) : outcome Z :=
  expects_running q (sum_procs (fun _ => true) (q_running_jobs q)).

Definition count_queue_user_procs (q : queue_info) (acc : string) : outcome Z :=
  expects_running q (sum_procs (fun j => String.eqb acc (account j)) (q_running_jobs q)).

Definition count_queue_group_procs (q : queue_info) (grp : string) : outcome Z :=
  expects_running q (sum_procs (fun j => String.eqb grp (group j)) (q_running_jobs q)).

(** ** The cached accessors *)

Definition number_of_running_jobs_for_group (q : queue_info) (g : string) : Z * queue_info :=
  match q_jobs_by_group q !! g with
  | Some v => (v, q)
  | None =>
      let v := count_by_group (q_running_jobs q) g in
      (v, q <| q_jobs_by_group := <[g := v]> (q_jobs_by_group q) |>)
  end.

Definition number_of_running_jobs_for_user (q : queue_info) (u : string) : Z * queue_info :=
  match q_jobs_by_user q !! u with
  | Some v => (v, q)
  | None =>
      let v := count_by_user (q_running_jobs q) u in
      (v, q <| q_jobs_by_user := <[u := v]> (q_jobs_by_user q) |>)
  end.

Definition number_of_running_cores (q : queue_info) : outcome (Z * queue_info) :=
  match q_running_cores q with
  | Some v => Ret (v, q)
  | None =>
      let! v := count_queue_procs q in Ret (v, q <| q_running_cores := Some v |>)
  end.

(** The miss is recorded in the cache of the job counts; [insert] keeps an
    entry that is already there, and its value is what is returned. *)
Definition number_of_running_cores_for_group (q : queue_info) (g : string)
  : outcome (Z * queue_info) :=
  match q_cores_by_group q !! g with
  | Some v => Ret (v, q)
  | None =>
      let! v := count_queue_group_procs q g in
      match q_jobs_by_group q !! g with
      | Some w => Ret (w, q)
      | None => Ret (v, q <| q_jobs_by_group := <[g := v]> (q_jobs_by_group q) |>)
      end
  end.

Definition number_of_running_cores_for_user (q : queue_info) (u : string)
  : outcome (Z * queue_info) :=
  match q_cores_by_user q !! u with
  | Some v => Ret (v, q)
  | None =>
      let! v := count_queue_user_procs q u in
      match q_jobs_by_user q !! u with
      | Some w => Ret (w, q)
      | None => Ret (v, q <| q_jobs_by_user := <[u := v]> (q_jobs_by_user q) |>)
      end
  end.

(** ** Starting a job *)

(** A cache entry is incremented, or computed when absent. *)
Definition bump (m : gmap string Z) (key : string) (d : Z) (fresh : outcome Z)
  : outcome (gmap string Z) :=
  match m !! key with
  | Some v => Ret (<[key := i64 (v + d)]> m)
  | None => let! v := fresh in Ret (<[key := v]> m)
  end.

Definition update_on_job_run (q : queue_info) (j : JobInfo) : outcome queue_info :=
  let sc := q_sc q in
  let q := q <| q_sc := sc <| sc_running := i32 (sc_running sc + 1) |>
                           <| sc_queued := i32 (sc_queued sc - 1) |> |>
             <| q_running_jobs := q_running_jobs q ++ [j] |> in
  let! m := bump (q_jobs_by_group q) (group j) 1
              (Ret (count_by_group (q_running_jobs q) (group j))) in
  let q := q <| q_jobs_by_group := m |> in
  let! m := bump (q_jobs_by_user q) (account j) 1
              (Ret (count_by_user (q_running_jobs q) (account j))) in
  let q := q <| q_jobs_by_user := m |> in
  let! c := match q_running_cores q with
            | Some v => Ret (i64 (v + total_procs j))
            | None => count_queue_procs q
            end in
  let q := q <| q_running_cores := Some c |> in
  let! m := bump (q_cores_by_group q) (group j) (total_procs j)
              (count_queue_group_procs q (group j)) in
  let q := q <| q_cores_by_group := m |> in
  let! m := bump (q_cores_by_user q) (account j) (total_procs j)
              (count_queue_user_procs q (account j)) in
  Ret (q <| q_cores_by_user := m |>).

End Counts.

(** [update_queue_on_move]: the counters of the target queue and of the queue
    the job leaves. *)
Definition update_queue_on_move (target local : queue_info) : queue_info * queue_info :=
  (target <| q_sc := q_sc target <| sc_running := i32 (sc_running (q_sc target) + 1) |> |>,
   local <| q_sc := q_sc local <| sc_queued := i32 (sc_queued (q_sc local) - 1) |> |>).

(** ** The array of exclusive nodes *)

(** [count + 1] slots fit, as soon as one node has been pushed. *)
Definition excl_wf (q : queue_info) : Prop :=
  0 <= excl_node_capacity q /\
  (excl_nodes q <> [] -> Z.of_nat (length (excl_nodes q)) < excl_node_capacity q).

Lemma push_excl_node_ok q n :
  excl_wf q ->
  exists q', push_excl_node q n = Some q' /\ excl_wf q' /\ excl_nodes q' = excl_nodes q ++ [n].
Proof.
  intros [Hc Hw]. unfold push_excl_node. cbv zeta.
  assert (Hlen : excl_nodes q = [] \/ Z.of_nat (length (excl_nodes q)) < excl_node_capacity q)
    by (destruct (excl_nodes q); [by left|right; by apply Hw]).
  assert (H0 : excl_nodes q = [] -> length (excl_nodes q) = 0%nat) by (by intros ->).
  match goal with |- context [?c + 1 <? ?cap] => assert (Hlt : c + 1 < cap /\ 0 <= cap) end.
  { case_bools; destruct Hlen as [He|]; try specialize (H0 He); try lia. }
  destruct Hlt as [Hlt Hcap]. rewrite (proj2 (Z.ltb_lt _ _) Hlt).
  eexists. split; [done|]. split; [|done]. split; simpl; [done|].
  intros _. rewrite length_app. simpl. lia.
Qed.

Lemma new_queue_excl_wf name : excl_wf (new_queue_info name).
Proof. split; simpl; [lia|done]. Qed.

(** ** The caches *)

Definition cache_agrees (m : gmap string Z) (f : string -> Z) : Prop :=
  forall k v, m !! k = Some v -> v = f k.

Lemma cache_agrees_insert m f k : cache_agrees m f -> cache_agrees (<[k := f k]> m) f.
Proof.
  intros H k' v. destruct (decide (k = k')) as [<-|].
  - rewrite lookup_insert_eq. by intros [= <-].
  - rewrite lookup_insert_ne by done. apply H.
Qed.

(** [f'] is [f] with [d] more at [key]. *)
Definition adds_at (f f' : string -> Z) (key : string) (d : Z) : Prop :=
  forall k, f' k = f k + if String.eqb key k then d else 0.

Lemma bump_agrees m f f' key d fresh :
  cache_agrees m f -> adds_at f f' key d -> fresh = Ret (f' key) -> in_s 64 (f' key) ->
  exists m', bump m key d fresh = Ret m' /\ cache_agrees m' f'.
Proof.
  intros Hm Hadd -> Hr. unfold bump.
  assert (Hkey : f' key = f key + d) by (by rewrite (Hadd key), String.eqb_refl).
  assert (Hins : cache_agrees (<[key := f' key]> m) f').
  { intros k v. destruct (decide (key = k)) as [<-|Hn].
    - rewrite lookup_insert_eq. by intros [= <-].
    - rewrite lookup_insert_ne by done. intros Hv. rewrite (Hadd k).
      apply String.eqb_neq in Hn. rewrite Hn, Z.add_0_r. by apply Hm. }
  destruct (m !! key) as [v|] eqn:E; simpl; [|by eauto].
  apply Hm in E as ->. rewrite <- Hkey, i64_id by done. eauto.
Qed.

Section CacheFacts.
Variable parse_nodespec : string -> pars_spec.
Notation procs := (total_procs parse_nodespec).

(** The cores of the jobs [p] selects. *)
Definition cores (p : JobInfo -> bool) (jobs : list JobInfo) : Z :=
  sumZ (fun j => if p j then procs j else 0) jobs.

Definition of_user (u : string) (j : JobInfo) : bool := String.eqb u (account j).
Definition of_group (g : string) (j : JobInfo) : bool := String.eqb g (group j).

(** The state a queue is in between two calls. *)
Record queue_wf (q : queue_info) : Prop := {
  qw_running : sc_running (q_sc q) = Z.of_nat (length (q_running_jobs q));
  qw_procs : Forall (fun j => 0 <= procs j) (q_running_jobs q);
  qw_bound : cores (fun _ => true) (q_running_jobs q) < 2 ^ 31 /\
             Z.of_nat (length (q_running_jobs q)) < 2 ^ 31;
  qw_jobs_group : cache_agrees (q_jobs_by_group q) (count_by_group (q_running_jobs q));
  qw_jobs_user : cache_agrees (q_jobs_by_user q) (count_by_user (q_running_jobs q));
  qw_cores : forall v, q_running_cores q = Some v -> v = cores (fun _ => true) (q_running_jobs q);
  qw_cores_group : cache_agrees (q_cores_by_group q) (fun g => cores (of_group g) (q_running_jobs q));
  qw_cores_user : cache_agrees (q_cores_by_user q) (fun u => cores (of_user u) (q_running_jobs q))
}.

Lemma cores_bounds p jobs :
  Forall (fun j => 0 <= procs j) jobs -> 0 <= cores p jobs <= cores (fun _ => true) jobs.
Proof. unfold cores. induction 1 as [|j jobs Hj Hjs IH]; simpl; [lia|]. case_bools; lia. Qed.

Lemma cores_app p l1 l2 : cores p (l1 ++ l2) = cores p l1 + cores p l2.
Proof. apply sumZ_app. Qed.

Lemma cores_one p j : cores p [j] = if p j then procs j else 0.
Proof. unfold cores. simpl. case_bools; lia. Qed.

Lemma sum_procs_cores p jobs :
  Forall (fun j => 0 <= procs j) jobs -> cores (fun _ => true) jobs < 2 ^ 31 ->
  sum_procs parse_nodespec p jobs = cores p jobs.
Proof.
  intros Hpos Hb. unfold sum_procs.
  enough (H : forall a, 0 <= a -> a + cores (fun _ => true) jobs < 2 ^ 31 ->
    fold_left (fun s j => if p j then i32 (s + procs j) else s) jobs a = a + cores p jobs)
    by (rewrite H; lia).
  clear Hb. induction Hpos as [|j jobs Hj Hjs IH]; intros a Ha Hb; [unfold cores; simpl; lia|].
  pose proof (cores_bounds (fun _ => true) jobs Hjs).
  change (cores (fun _ => true) (j :: jobs)) with (procs j + cores (fun _ => true) jobs) in Hb.
  change (cores p (j :: jobs)) with ((if p j then procs j else 0) + cores p jobs).
  cbn [fold_left]. destruct (p j); [rewrite i32_id by in_range|]; rewrite IH; lia.
Qed.

Lemma count_by_user_snoc l j :
  adds_at (count_by_user l) (count_by_user (l ++ [j])) (account j) 1.
Proof. intros u. induction l as [|x l IH]; cbn [count_by_user app]; lia. Qed.

Lemma count_by_group_snoc l j :
  adds_at (count_by_group l) (count_by_group (l ++ [j])) (group j) 1.
Proof. intros g. induction l as [|x l IH]; cbn [count_by_group app]; lia. Qed.

Lemma cores_snoc p l j : cores p (l ++ [j]) = cores p l + if p j then procs j else 0.
Proof. by rewrite cores_app, cores_one. Qed.

Lemma cores_user_snoc l j :
  adds_at (fun u => cores (of_user u) l) (fun u => cores (of_user u) (l ++ [j])) (account j) (procs j).
Proof. intros u. unfold of_user. rewrite cores_snoc, (String.eqb_sym u). done. Qed.

Lemma cores_group_snoc l j :
  adds_at (fun g => cores (of_group g) l) (fun g => cores (of_group g) (l ++ [j])) (group j) (procs j).
Proof. intros g. unfold of_group. rewrite cores_snoc, (String.eqb_sym g). done. Qed.

Lemma count_by_user_bounds l u : 0 <= count_by_user l u <= Z.of_nat (length l).
Proof. induction l as [|j l IH]; [simpl; lia|]. cbn [count_by_user length]. case_bools; lia. Qed.

Lemma count_by_group_bounds l g : 0 <= count_by_group l g <= Z.of_nat (length l).
Proof. induction l as [|j l IH]; [simpl; lia|]. cbn [count_by_group length]. case_bools; lia. Qed.

Lemma expects_running_len {A} q (x : A) :
  sc_running (q_sc q) = Z.of_nat (length (q_running_jobs q)) ->
  Z.of_nat (length (q_running_jobs q)) < 2 ^ 31 -> expects_running q x = Ret x.
Proof.
  intros Hr Hb. unfold expects_running. rewrite Hr, u64_id by in_range.
  by rewrite Z.eqb_refl.
Qed.

Lemma expects_running_ok {A} q (x : A) : queue_wf q -> expects_running q x = Ret x.
Proof. intros [Hr _ [_ Hb] _ _ _ _ _]. by apply expects_running_len. Qed.

(** The accessors return the counts they cache, and leave the queue well formed. *)
Lemma number_of_running_jobs_for_user_spec q u :
  queue_wf q ->
  fst (number_of_running_jobs_for_user q u) = count_by_user (q_running_jobs q) u /\
  queue_wf (snd (number_of_running_jobs_for_user q u)) /\
  q_running_jobs (snd (number_of_running_jobs_for_user q u)) = q_running_jobs q.
Proof.
  intros Hq. unfold number_of_running_jobs_for_user.
  destruct (q_jobs_by_user q !! u) as [v|] eqn:E; simpl.
  - split_and!; [by apply (qw_jobs_user q Hq)|done|done].
  - split_and!; [done| |done]. destruct Hq. constructor; simpl; try done.
    by apply cache_agrees_insert.
Qed.

Lemma number_of_running_jobs_for_group_spec q g :
  queue_wf q ->
  fst (number_of_running_jobs_for_group q g) = count_by_group (q_running_jobs q) g /\
  queue_wf (snd (number_of_running_jobs_for_group q g)) /\
  q_running_jobs (snd (number_of_running_jobs_for_group q g)) = q_running_jobs q.
Proof.
  intros Hq. unfold number_of_running_jobs_for_group.
  destruct (q_jobs_by_group q !! g) as [v|] eqn:E; simpl.
  - split_and!; [by apply (qw_jobs_group q Hq)|done|done].
  - split_and!; [done| |done]. destruct Hq. constructor; simpl; try done.
    by apply cache_agrees_insert.
Qed.

Lemma number_of_running_cores_spec q :
  queue_wf q ->
  exists q', number_of_running_cores parse_nodespec q =
    Ret (cores (fun _ => true) (q_running_jobs q), q') /\ queue_wf q'.
Proof.
  intros Hq. unfold number_of_running_cores.
  destruct (q_running_cores q) as [v|] eqn:E.
  - apply (qw_cores q Hq) in E as ->. eauto.
  - unfold count_queue_procs. rewrite expects_running_ok by done. simpl.
    rewrite sum_procs_cores by apply Hq. eexists. split; [done|].
    destruct Hq. constructor; simpl; try done. by intros v [= <-].
Qed.

(** The configured limits of the queue. *)
Definition same_limits (q q' : queue_info) : Prop :=
  q_max_run q' = q_max_run q /\ q_max_user_run q' = q_max_user_run q /\
  q_max_group_run q' = q_max_group_run q /\ q_max_proc q' = q_max_proc q /\
  q_max_user_proc q' = q_max_user_proc q /\ q_max_group_proc q' = q_max_group_proc q.

Lemma update_on_job_run_spec (q : queue_info) (j : JobInfo)
    (Hq : queue_wf q) (Hj : 0 <= procs j)
    (Hcores : cores (fun _ => true) (q_running_jobs q) + procs j < 2 ^ 31)
    (Hlen : Z.of_nat (length (q_running_jobs q)) + 1 < 2 ^ 31) :
  exists q', update_on_job_run parse_nodespec q j = Ret q' /\ queue_wf q' /\
    q_running_jobs q' = q_running_jobs q ++ [j] /\
    sc_queued (q_sc q') = i32 (sc_queued (q_sc q) - 1) /\
    same_limits q q'.
Proof.
  pose proof (qw_procs q Hq) as Hpos. pose proof (qw_running q Hq) as Hr.
  unfold update_on_job_run. cbv zeta. set (run := q_running_jobs q ++ [j]).
  assert (Hpos' : Forall (fun j => 0 <= procs j) run) by (apply Forall_app; auto).
  assert (Hb : cores (fun _ => true) run < 2 ^ 31) by (unfold run; rewrite cores_snoc; lia).
  assert (Hlen' : Z.of_nat (length run) = Z.of_nat (length (q_running_jobs q)) + 1)
    by (unfold run; rewrite length_app; simpl; lia).
  assert (Hcr : forall p, in_s 64 (cores p run))
    by (intros p; pose proof (cores_bounds p run Hpos'); in_range).
  assert (Hrc : i32 (sc_running (q_sc q) + 1) = Z.of_nat (length run))
    by (rewrite Hr, i32_id; in_range).
  assert (Hgr : in_s 64 (count_by_group run (group j)))
    by (pose proof (count_by_group_bounds run (group j)); in_range).
  assert (Hur : in_s 64 (count_by_user run (account j)))
    by (pose proof (count_by_user_bounds run (account j)); in_range).
  destruct (bump_agrees _ _ _ _ _ (Ret (count_by_group run (group j))) (qw_jobs_group q Hq)
    (count_by_group_snoc _ j) eq_refl Hgr) as (mg & Emg & Hmg).
  destruct (bump_agrees _ _ _ _ _ (Ret (count_by_user run (account j))) (qw_jobs_user q Hq)
    (count_by_user_snoc _ j) eq_refl Hur) as (mu & Emu & Hmu).
  cbn. rewrite Emg. cbn. rewrite Emu. cbn.
  set (c := match q_running_cores q with Some _ => _ | None => _ end).
  assert (Hc : c = Ret (cores (fun _ => true) run)).
  { unfold c. destruct (q_running_cores q) as [v|] eqn:E.
    - apply (qw_cores q Hq) in E as ->. unfold run in *. rewrite cores_snoc in *.
      rewrite i64_id; [done|]. specialize (Hcr (fun _ => true)). by rewrite cores_snoc in Hcr.
    - unfold count_queue_procs. rewrite expects_running_len by (simpl; rewrite ?Hrc; try done; in_range).
      simpl. by rewrite sum_procs_cores. }
  rewrite Hc. cbn.
  destruct (bump_agrees _ _ _ _ _ (Ret (cores (of_group (group j)) run)) (qw_cores_group q Hq)
    (cores_group_snoc _ j) eq_refl (Hcr _)) as (cg & Ecg & Hcg).
  destruct (bump_agrees _ _ _ _ _ (Ret (cores (of_user (account j)) run)) (qw_cores_user q Hq)
    (cores_user_snoc _ j) eq_refl (Hcr _)) as (cu & Ecu & Hcu).
  unfold count_queue_group_procs, count_queue_user_procs.
  rewrite !expects_running_len by (simpl; rewrite ?Hrc; try done; in_range). simpl.
  rewrite !sum_procs_cores by done. unfold of_group, of_user in Ecg, Ecu.
  rewrite Ecg. cbn.
  rewrite expects_running_len by (simpl; rewrite ?Hrc; try done; in_range).
  rewrite Ecu. cbn.
  eexists. split; [done|]. split; [|by split_and!].
  constructor; simpl; try done; [lia|by intros v [= <-]].
Qed.

(** Starting a job keeps a queue's bookkeeping exact: the running counter
    is the number of running jobs, and every cached number (jobs and cores,
    in total, per user and per group) is the number recomputed from the
    running jobs, the new job included; the precondition [Expects] of the
    recounts never fails. *)
Theorem queue_update_on_job_run_exact (q : queue_info) (j : JobInfo)
    (Hq : queue_wf q) (Hj : 0 <= procs j)
    (Hcores : cores (fun _ => true) (q_running_jobs q) + procs j < 2 ^ 31)
    (Hlen : Z.of_nat (length (q_running_jobs q)) + 1 < 2 ^ 31) :
  exists q', update_on_job_run parse_nodespec q j = Ret q' /\ queue_wf q' /\
    q_running_jobs q' = q_running_jobs q ++ [j] /\
    sc_queued (q_sc q') = i32 (sc_queued (q_sc q) - 1).
Proof.
  destruct (update_on_job_run_spec q j Hq Hj Hcores Hlen) as (q' & ? & ? & ? & ? & _). eauto 10.
Qed.
End CacheFacts.

(** The parser used by the witnesses: "N:ppn=M" for single digits N and M. *)
Definition toy_parse_nodespec (s : string) : pars_spec :=
  let n := code (hd0 s) - 48 in
  let m := atoi (match strchr s "=" with Some t => tl0 t | None => "0" end) in
  mkSpec false [mkSpecNode n None None m 0 0 0 ScratchNone []] n (n * m).

Lemma queue_update_on_job_run_exact_witness :
  let j := new_JobInfo "1.srv" <| account := "ann"%string |> <| nodespec := "2:ppn=4"%string |> in
  exists q', update_on_job_run toy_parse_nodespec (new_queue_info "long") j = Ret q' /\
    queue_wf toy_parse_nodespec q' /\ q_cores_by_user q' !! "ann"%string = Some 8.
Proof.
  intros j.
  destruct (queue_update_on_job_run_exact toy_parse_nodespec (new_queue_info "long") j)
    as (q' & H1 & H2 & _).
  - by constructor.
  - vm_compute. discriminate.
  - vm_compute. reflexivity.
  - vm_compute. reflexivity.
  - exists q'. split; [exact H1|split; [exact H2|]].
    vm_compute in H1. injection H1 as <-. vm_compute. reflexivity.
Defined.

(** Asking for the cores of a group poisons the job count of the group: with
    one running job of four cores, the group is afterwards reported to have
    four running jobs. *)
Lemma cores_query_corrupts_job_count :
  let j := new_JobInfo "1.srv" <| group := "grp"%string |> <| nodespec := "1:ppn=4"%string |> in
  let q := new_queue_info "long" <| q_running_jobs := [j] |>
             <| q_sc := new_StateCount <| sc_running := 1 |> |> in
  exists q', number_of_running_cores_for_group toy_parse_nodespec q "grp" = Ret (4, q') /\
    fst (number_of_running_jobs_for_group q "grp") = 1 /\
    fst (number_of_running_jobs_for_group q' "grp") = 4.
Proof. eexists. vm_compute. split; [reflexivity|split; reflexivity]. Qed.
