(* ===== verification/ServerInfo.v ===== *)
(** * Servers: ServerInfo.h, ServerInfo.cpp, server_info.cpp (the record and its counts)

    The server keeps the dynamic resources, the limits, the node and job
    tables, and the same job-count caches as a queue.  Nodes and queues are
    identified by their key in the scheduler's node store ([positive]) and by
    position; the operations that change nodes are in the file JobPlan. *)

From Stdlib Require Import ZArith Lia Bool Ascii String SpecFloat.
From S2P Require Import Prelude CString CFloat MiscHelpers Resource DataTypes JobInfo StateCount QueueInfo.

Open Scope Z_scope.
Local Open Scope sched_scope.

Definition DEFAULT_JOB_START_TIMEOUT : Z := 60.

Record token := mkToken { identifier : string; token_count : spec_float }.

Record server_info := mkServer {
  srv_name : string;
  dynamic_resources : gmap string Dyn.DynamicResource;
  default_queue : option string;
  max_run : Z;
  max_user_run : Z;
  max_group_run : Z;
  srv_sc : StateCount;
  srv_queues : list queue_info;
  srv_jobs : list positive;
  running_jobs : list JobInfo;
  srv_nodes : list positive;
  non_dedicated_nodes : list positive;
  tokens : option (list token);
  scheduled_jobs : list positive;
  max_installing_nodes : Z;
  installing_node_count : Z;
  job_start_timeout : Z;
  exec_count : gmap string Z;
  running_jobs_by_group : gmap string Z;
  running_jobs_by_user : gmap string Z
}.

#[export] Instance server_info_fields : Fields server_info :=
  fields_app (fields_app (fields_app (fields_app (fields_app (fields_app (fields_app
  (fields_app (fields_app (fields_app (fields_app (fields_app (fields_app (fields_app
  (fields_app (fields_app (fields_app (fields_app (fields_app (fields_app (fields_const mkServer)
    srv_name) dynamic_resources) default_queue) max_run) max_user_run) max_group_run)
    srv_sc) srv_queues) srv_jobs) running_jobs) srv_nodes) non_dedicated_nodes) tokens) scheduled_jobs)
    max_installing_nodes) installing_node_count) job_start_timeout) exec_count)
    running_jobs_by_group) running_jobs_by_user.

Definition new_server_info (name : string) : server_info :=
  mkServer name ∅ None RESC_INFINITY RESC_INFINITY RESC_INFINITY new_StateCount [] [] [] [] []
    None [] RESC_INFINITY 0 DEFAULT_JOB_START_TIMEOUT ∅ ∅ ∅.

(** ** server_info.cpp: the attributes *)

(** [get_token]: the text before the first colon and the number after it;
    without a colon the null pointer plus one is dereferenced. *)
Definition get_token (token_string : string) : outcome token :=
  match split_at token_string ":" with
  | (ident, Some rest) => Ret (mkToken ident (atof rest))
  | (_, None) => UB
  end.

Fixpoint get_tokens (l : list string) : outcome (list token) :=
  match l with
  | [] => Ret []
  | t :: l' => let! x := get_token t in let! xs := get_tokens l' in Ret (x :: xs)
  end.

Definition get_token_array (tokenlist : string) : outcome (list token) :=
  match break_comma_list (Some tokenlist) with
  | None => UB
  | Some l => get_tokens l
  end.

(** [count = strtol(...); if ( *endp != '\0') count = fallback]. *)
Definition limit_attr (value : string) (fallback : Z) : Z :=
  let '(count, endp) := strtol10 value in
  if negb (hd0 endp =c NUL) then fallback else count.

Definition server_attr (s : server_info) (a : attrl) : outcome server_info :=
  let name := attr_name a in
  let value := attr_value a in
  if String.eqb name "default_queue" then Ret (s <| default_queue := Some value |>)
  else if String.eqb name "max_running" then Ret (s <| max_run := i32 (limit_attr value (-1)) |>)
  else if String.eqb name "max_user_run" then Ret (s <| max_user_run := i32 (limit_attr value (-1)) |>)
  else if String.eqb name "max_group_run" then Ret (s <| max_group_run := i32 (limit_attr value (-1)) |>)
  else if String.eqb name "max_installing_nodes" then
    Ret (s <| max_installing_nodes := i32 (limit_attr value (-1)) |>)
  else if String.eqb name "tokens" then
    let! t := get_token_array value in Ret (s <| tokens := Some t |>)
  else if String.eqb name "job_start_timeout" then
    Ret (s <| job_start_timeout := i32 (limit_attr value DEFAULT_JOB_START_TIMEOUT) |>)
  else Ret s.

Definition query_server_info (name : string) (attribs : list attrl) : outcome server_info :=
  ofold server_attr attribs (new_server_info name).

(** [set_jobs] of the server: the jobs of all queues, in order, after those already there. *)
Definition server_set_jobs (s : server_info) : server_info :=
  s <| srv_jobs := fold_left (fun l q => l ++ q_jobs q) (srv_queues s) (srv_jobs s) |>.

(** The two [copy_if]s and the accumulation of the queue counters of
    [query_server].  The jobs are keys of a store; [running_jobs] holds the jobs
    themselves, of which only the account, the group, the requests and the
    resources used are looked at, which stay the same during a cycle. *)
Definition jobs_of (jobs : gmap positive JobInfo) (l : list positive) : list JobInfo := omap (fun p => jobs !! p) l.

Definition select_running (jobs : gmap positive JobInfo) (s : server_info) : server_info :=
  s <| running_jobs := filter (fun j => state j = JobRunning) (jobs_of jobs (srv_jobs s)) |>.

Definition is_scheduled (j : JobInfo) : bool :=
  bool_decide (state j = JobExiting) || bool_decide (state j = JobRunning) || bool_decide (state j = JobCompleted).

Definition select_scheduled (jobs : gmap positive JobInfo) (s : server_info) : server_info :=
  s <| scheduled_jobs := List.filter (fun p => match jobs !! p with Some j => is_scheduled j | None => false end) (srv_jobs s) |>.

Definition sum_queue_states (s : server_info) : server_info :=
  s <| srv_sc := fold_left (fun sc q => sc_add_assign sc (q_sc q)) (srv_queues s) (srv_sc s) |>.

(** ** ServerInfo.cpp *)

Definition installing_nodes_overlimit (s : server_info) : bool :=
  if max_installing_nodes s =? RESC_INFINITY then false
  else installing_node_count s >=? max_installing_nodes s.

Definition server_jobs_for_group (s : server_info) (g : string) : Z * server_info :=
  match running_jobs_by_group s !! g with
  | Some v => (v, s)
  | None =>
      let v := count_by_group (running_jobs s) g in
      (v, s <| running_jobs_by_group := <[g := v]> (running_jobs_by_group s) |>)
  end.

Definition server_jobs_for_user (s : server_info) (u : string) : Z * server_info :=
  match running_jobs_by_user s !! u with
  | Some v => (v, s)
  | None =>
      let v := count_by_user (running_jobs s) u in
      (v, s <| running_jobs_by_user := <[u := v]> (running_jobs_by_user s) |>)
  end.

Section Owner.
Context {A : Type} (job_of : A -> JobInfo).

(** The order of one user's jobs: queue priority, then job priority
    (descending), then job id (ascending).  Each job comes with the priority of
    its queue. *)
Definition owner_order (l r : Z * A) : bool :=
  if fst l >? fst r then true
  else if fst l <? fst r then false
  else if priority (job_of (snd l)) >? priority (job_of (snd r)) then true
  else if priority (job_of (snd l)) <? priority (job_of (snd r)) then false
  else String.ltb (job_id (job_of (snd l))) (job_id (job_of (snd r))).

Definition push_to_owner (m : gmap string (list (Z * A))) (j : Z * A) : gmap string (list (Z * A)) :=
  <[account (job_of (snd j)) := default [] (m !! account (job_of (snd j))) ++ [j]]> m.

(** [regenerate_jobs_by_owner]: the deques of the owners, sorted. *)
Definition jobs_by_owner (jobs : list (Z * A)) : gmap string (list (Z * A)) :=
  isort owner_order <$> fold_left push_to_owner jobs ∅.
End Owner.

(** ** The CPUs of the plan-based scheduler *)

(** [parse_head_number]: the digits of the leading run of digits and dashes. *)
Fixpoint skip_blanks (s : string) : string :=
  match s with String c t => if c =c " " then skip_blanks t else s | EmptyString => s end.

Fixpoint head_number (cpu : Z) (s : string) : Z :=
  match s with
  | String c t =>
      if c =c "-" then head_number cpu t
      else if isdigit c then head_number (i32 (cpu * 10 + (code c - 48))) t
      else cpu
  | EmptyString => cpu
  end.

Definition parse_head_number (s : string) : Z := head_number 0 (skip_blanks s).

(** [None] when the string holds no slash: the loop runs past its end. *)
Definition parse_name_job_on_cpu (s : string) : option string :=
  match split_at s "/" with (_, r) => r end.

(** [find_job_name] stops at a NULL entry of the vector, which has none: past
    the last job the read is out of bounds.  The jobs come with their keys in
    the store of jobs. *)
Fixpoint find_job_name (jobs : list (positive * JobInfo)) (name : string) : outcome positive :=
  match jobs with
  | [] => UB
  | (k, j) :: l => if strcmp name (job_id j) =? 0 then Ret k else find_job_name l name
  end.

Definition find_job_name_or_null (jobs : list (positive * JobInfo)) (name : string) : outcome (option positive) :=
  match jobs with
  | [] => Ret None
  | _ => let! j := find_job_name jobs name in Ret (Some j)
  end.

Definition assign_jobs_on_cpu (jobs_on_cpu : list (option positive)) (job_on_cpu : string)
    (possible_jobs : list (positive * JobInfo)) : outcome (list (option positive) * Z) :=
  let cpu := parse_head_number job_on_cpu in
  let! name := of_option (parse_name_job_on_cpu job_on_cpu) in
  let! j := find_job_name_or_null possible_jobs name in
  if (0 <=? cpu) && (cpu <? Z.of_nat (length jobs_on_cpu)) then
    Ret (<[Z.to_nat cpu := j]> jobs_on_cpu, match j with None => -1 | Some _ => 1 end)
  else UB.

(** ** Facts *)

Lemma ltb_irrefl a : String.ltb a a = false.
Proof. unfold String.ltb. pose proof (String.compare_antisym a a) as H. by destruct (String.compare a a). Qed.

Lemma compare_string_cons c a d b :
  String.compare (String c a) (String d b) =
  match Ascii.compare c d with Eq => String.compare a b | o => o end.
Proof. done. Qed.

Lemma compare_string_trans_lt a b c :
  String.compare a b = Lt -> String.compare b c = Lt -> String.compare a c = Lt.
Proof.
  revert b c. induction a as [|x a IH]; intros [|y b] [|z c]; try done.
  rewrite !compare_string_cons. unfold Ascii.compare.
  destruct (N.compare_spec (N_of_ascii x) (N_of_ascii y)) as [Exy|Exy|Exy];
  destruct (N.compare_spec (N_of_ascii y) (N_of_ascii z)) as [Eyz|Eyz|Eyz]; try done;
  destruct (N.compare_spec (N_of_ascii x) (N_of_ascii z)); try lia; try done.
  apply IH.
Qed.

Lemma string_ltb_trans a b c : String.ltb a b = true -> String.ltb b c = true -> String.ltb a c = true.
Proof.
  unfold String.ltb. destruct (String.compare a b) eqn:E1; try done.
  destruct (String.compare b c) eqn:E2; try done. by rewrite (compare_string_trans_lt _ _ _ E1 E2).
Qed.

Lemma string_ltb_total a b : String.ltb a b = false -> String.ltb b a = false -> a = b.
Proof.
  unfold String.ltb. rewrite (String.compare_antisym a b).
  destruct (String.compare b a) eqn:E; try done. intros. symmetry. by apply String.compare_eq_iff.
Qed.

Lemma string_ltb_swo : StrictWeakOrder String.ltb.
Proof.
  split; [apply ltb_irrefl|apply string_ltb_trans|].
  intros x y z Hxy Hyx Hyz Hzy.
  rewrite (string_ltb_total x y Hxy Hyx), (string_ltb_total y z Hyz Hzy). by rewrite ltb_irrefl.
Qed.

(** The comparator of [regenerate_jobs_by_owner] orders by queue priority and
    job priority, both descending, and then by job id. *)
Lemma owner_order_lex {A} (job_of : A -> JobInfo) l r :
  owner_order job_of l r =
  lex_then (fun j : Z * A => [- fst j; - priority (job_of (snd j))])
    (fun l r => String.ltb (job_id (job_of (snd l))) (job_id (job_of (snd r)))) l r.
Proof.
  unfold owner_order, lex_then. simpl.
  destruct (Z.compare_spec (- fst l) (- fst r)), (Z.compare_spec (- priority (job_of (snd l))) (- priority (job_of (snd r))));
    case_bools; done || lia.
Qed.

Lemma owner_order_swo {A} (job_of : A -> JobInfo) : StrictWeakOrder (owner_order job_of).
Proof.
  eapply swo_ext; [intros; symmetry; apply owner_order_lex|].
  apply lex_then_swo. apply (swo_on (fun j : Z * A => job_id (job_of (snd j)))), string_ltb_swo.
Qed.
