(* ===== verification/NodeLogic.v ===== *)
(** * Node capacity checks and assignments: logic/NodeLogic.cpp, logic/JobAssign.cpp

    A [node] carries what the server reported ([NodeData]), the cores handed
    out in this cycle, the job assignment under construction and the virtual
    machine state.  The capacity checks answer [CheckAvailable] (fits now),
    [CheckOccupied] (fits when other jobs finish) or [CheckNonFit] (never). *)

From Stdlib Require Import ZArith Lia Bool Ascii String SpecFloat.
From S2P Require Import Prelude CString CFloat MiscHelpers Resource DataTypes NodeData JobInfo StateCount QueueInfo ServerInfo.

Open Scope Z_scope.
Local Open Scope sched_scope.

(** logic/JobAssign.h *)
Record JobAssign := mkAssign {
  flag_fairshare : bool;
  scratch_assign : ScratchType;
  boot_alternative : option repository_alternatives;
  assignment : option pars_spec_node;
  virtual_assignment : bool
}.

#[export] Instance JobAssign_fields : Fields JobAssign :=
  fields_app (fields_app (fields_app (fields_app (fields_app (fields_const mkAssign)
    flag_fairshare) scratch_assign) boot_alternative) assignment) virtual_assignment.

Definition new_JobAssign : JobAssign := mkAssign false ScratchNone None None false.
Definition clean_JobAssign (a : JobAssign) : JobAssign := mkAssign false ScratchNone None None false.

Definition has_assignment (a : JobAssign) : bool :=
  match assignment a with Some _ => true | None => false end.
Definition has_selected_alternative (a : JobAssign) : bool :=
  match boot_alternative a with Some _ => true | None => false end.

(** NodeLogic.h and NodeInfo.h *)
Record node_info := mkNode {
  data : NodeData;
  assign : JobAssign;
  p_core_assigned : Z;
  p_scratch_priority : list ScratchType;
  magrathea_status : MagratheaState;
  alternatives : option (list repository_alternatives);
  p_is_notusable : bool;
  p_is_rebootable : bool;
  p_is_building_cluster : bool;
  p_virtual_image : string;
  p_virtual_cluster : string;
  p_phys_cluster : string;
  p_host : option positive;
  p_hosted : list positive;
  p_phys_node : option positive;
  p_slave_nodes : list positive;
  p_waiting_on_jobs : string;
  jobs_on_cpu : option (list (option positive));
  walltime_limit_min : Z;
  walltime_limit_max : Z;
  nd_cluster_name : option string
}.

#[export] Instance node_info_fields : Fields node_info :=
  fields_app (fields_app (fields_app (fields_app (fields_app (fields_app (fields_app
  (fields_app (fields_app (fields_app (fields_app (fields_app (fields_app (fields_app
  (fields_app (fields_app (fields_app (fields_app (fields_app (fields_app (fields_app (fields_const mkNode)
    data) assign) p_core_assigned) p_scratch_priority) magrathea_status) alternatives)
    p_is_notusable) p_is_rebootable) p_is_building_cluster) p_virtual_image) p_virtual_cluster)
    p_phys_cluster) p_host) p_hosted) p_phys_node) p_slave_nodes) p_waiting_on_jobs)
    jobs_on_cpu) walltime_limit_min) walltime_limit_max) nd_cluster_name.

(** The constructor of [node_info]; [magrathea_status] is left uninitialised:
    any value.  The jobs on the processors and the walltime limits are left
    uninitialised, too; they are set before they are read. *)
Definition new_node_info (d : NodeData) (junk : MagratheaState) : node_info :=
  mkNode d new_JobAssign 0 [ScratchSSD; ScratchShared; ScratchLocal] junk None false false false
    "" "" "" None [] None [] "" None 0 0 None.

Definition node_name (n : node_info) : string := nd_name (data n).

Definition deplete_proc (n : node_info) (count : Z) : node_info :=
  n <| p_core_assigned := i32 (p_core_assigned n + count) |>.

Definition freeup_proc (n : node_info) (count : Z) : node_info :=
  n <| p_core_assigned := i32 (p_core_assigned n - count) |>.

Definition set_scratch_priority (n : node_info) (order : nat) (s : ScratchType) : option node_info :=
  if decide (order < length (p_scratch_priority n))%nat
  then Some (n <| p_scratch_priority := <[order := s]> (p_scratch_priority n) |>) else None.

(** [exclusive] is [job->is_exclusive()], [q] the queue of the job. *)
Definition has_proc (n : node_info) (q : queue_info) (exclusive : bool) (spec : pars_spec_node)
  : CheckResult :=
  let d := data n in
  let unassigned := i32 (p_core_free d - p_core_assigned n) in
  if is_admin_queue q then
    if p_admin_slot_avail d then CheckAvailable
    else if p_admin_slot_enabled d then CheckOccupied
    else CheckNonFit
  else if p_core_total d <? i32 (procs spec) then CheckNonFit
  else if p_exclusively_assigned d then CheckOccupied
  else if unassigned =? 0 then CheckOccupied
  else if exclusive then
    if negb (unassigned =? p_core_total d) then CheckOccupied else CheckAvailable
  else
    if unassigned <? i32 (procs spec) then CheckOccupied else CheckAvailable.

Definition has_mem (n : node_info) (q : queue_info) (spec : pars_spec_node) : CheckResult :=
  if is_admin_queue q then CheckAvailable
  else
    match get_resource (data n) "mem" with
    | None => if negb (mem spec =? 0) then CheckNonFit else CheckAvailable
    | Some r => check_numeric_fit r (i64 (mem spec))
    end.

Definition check_scratch_helper (n : node_info) (name : string) (value : Z) : CheckResult :=
  match get_resource (data n) name with
  | None => CheckNonFit
  | Some res => check_numeric_fit res (i64 value)
  end.

(** The scratch a node can offer, of each kind. *)
Record scratch_offer := mkOffer {
  offer_local : CheckResult;
  offer_ssd : CheckResult;
  offer_shared : CheckResult
}.

Definition is_result (a b : CheckResult) : bool := bool_decide (a = b).

(** The [switch] of [has_scratch] for one entry of the priority list: the cases
    have no [break], each falls through to the next and the last to [default].
    The result and the value left in the out parameter. *)
Definition scratch_switch (want : ScratchType) (o : scratch_offer) (prio scratch : ScratchType)
  : option (CheckResult * ScratchType) :=
  let wants s := bool_decide (want = ScratchAny) || bool_decide (want = s) in
  let case_default := Some (CheckNonFit, scratch) in
  let case_local :=
    if wants ScratchLocal && is_result (offer_local o) CheckAvailable
    then Some (CheckAvailable, ScratchLocal) else case_default in
  let case_shared :=
    if wants ScratchShared && is_result (offer_shared o) CheckAvailable
    then Some (CheckAvailable, ScratchShared) else case_local in
  let case_ssd :=
    if wants ScratchSSD && is_result (offer_ssd o) CheckAvailable
    then Some (CheckAvailable, ScratchSSD) else case_shared in
  match prio with
  | ScratchSSD => case_ssd
  | ScratchShared => case_shared
  | ScratchLocal => case_local
  | _ => case_default
  end.

Fixpoint scratch_loop (want : ScratchType) (o : scratch_offer) (prios : list ScratchType)
    (scratch : ScratchType) : CheckResult * ScratchType :=
  match prios with
  | [] => (CheckOccupied, scratch)
  | p :: prios' =>
      match scratch_switch want o p scratch with
      | Some r => r
      | None => scratch_loop want o prios' scratch
      end
  end.

(** [dyn] are the dynamic resources of the node's server. *)
Definition scratch_offers (n : node_info) (dyn : gmap string Dyn.DynamicResource)
    (spec : pars_spec_node) : scratch_offer :=
  mkOffer (check_scratch_helper n "scratch_local" (scratch spec))
    (check_scratch_helper n "scratch_ssd" (scratch spec))
    (if String.eqb (p_scratch_pool (data n)) "" then CheckNonFit
     else
       match dyn !! p_scratch_pool (data n) with
       | None => CheckNonFit
       | Some r => if Dyn.would_fit r (i64 (scratch spec)) then CheckAvailable else CheckOccupied
       end).

Definition has_scratch (n : node_info) (dyn : gmap string Dyn.DynamicResource) (q : queue_info)
    (spec : pars_spec_node) (scr : ScratchType) : CheckResult * ScratchType :=
  if is_admin_queue q then (CheckAvailable, scr)
  else if bool_decide (scratch_type spec = ScratchNone) then (CheckAvailable, scr)
  else
    let o := scratch_offers n dyn spec in
    if bool_decide (scratch_type spec = ScratchSSD) && is_result (offer_ssd o) CheckNonFit
    then (CheckNonFit, scr)
    else if bool_decide (scratch_type spec = ScratchShared) && is_result (offer_shared o) CheckNonFit
    then (CheckNonFit, scr)
    else if bool_decide (scratch_type spec = ScratchLocal) && is_result (offer_local o) CheckNonFit
    then (CheckNonFit, scr)
    else if is_result (offer_local o) CheckNonFit && is_result (offer_ssd o) CheckNonFit
            && is_result (offer_shared o) CheckNonFit
    then (CheckNonFit, scr)
    else scratch_loop (scratch_type spec) o (take 3 (p_scratch_priority n)) scr.

(** [db] is the resource meta-data database; the property has a value. *)
Definition has_resc (db : RescInfoDb) (n : node_info) (name value : string) : CheckResult :=
  if bool_decide (res_check_type db name = ResCheckDynamic) then CheckAvailable
  else if bool_decide (res_check_type db name = ResCheckNone) then CheckAvailable
  else if String.eqb name "minspec" then
    if fge (p_node_spec (data n)) (atof value) then CheckAvailable else CheckNonFit
  else if String.eqb name "maxspec" then
    if fle (p_node_spec (data n)) (atof value) then CheckAvailable else CheckNonFit
  else if String.eqb name "scratch" then CheckAvailable
  else
    match get_resource (data n) name with
    | None => CheckNonFit
    | Some resc => check_fit resc value
    end.

(** ** JobAssign.cpp: the nodespec string of an assignment *)

Inductive AssignStringMode := FullAssignString | RescOnlyAssignString | NumericOnlyAssignString.

Definition print_prop (db : RescInfoDb) (mode : AssignStringMode) (node_name : string)
    (p : pars_prop) : string :=
  if strcmp node_name (prop_name p) =? 0 then ""
  else
    let skip := bool_decide (res_check_type db (prop_name p) = ResCheckDynamic)
                || bool_decide (res_check_type db (prop_name p) = ResCheckCache) in
    let wanted :=
      match mode, prop_value p with
      | FullAssignString, _ => true
      | RescOnlyAssignString, Some _ => true
      | NumericOnlyAssignString, Some v => atoi v >? 0
      | _, None => false
      end in
    if negb skip && wanted then
      ":" ++ prop_name p ++ match prop_value p with Some v => "=" ++ v | None => "" end
    else "".

Definition megabytes (kb : Z) : string := dec (u64 (kb + 1023) / 1024) ++ "mb".

Definition get_assign_string (db : RescInfoDb) (a : JobAssign) (node_name : string)
    (mode : AssignStringMode) : outcome string :=
  let! spec := of_option (assignment a) in
  Ret ("host=" ++ node_name ++ ":ppn=" ++ dec (procs spec)
    ++ (if negb (mem spec =? 0)%Z then ":mem=" ++ dec (mem spec) ++ "KB" else "")
    ++ (if negb (vmem spec =? 0)%Z then ":vmem=" ++ dec (vmem spec) ++ "KB" else "")
    ++ fold_right String.append ""%string (map (print_prop db mode node_name) (properties spec))
    ++ (if bool_decide (scratch_assign a = ScratchNone) then ""
        else ":scratch_type="
          ++ match scratch_assign a with
             | ScratchSSD => "ssd" | ScratchShared => "shared" | ScratchLocal => "local" | _ => ""
             end
          ++ ":scratch_volume=" ++ megabytes (scratch spec)
          ++ match scratch_assign a with
             | ScratchLocal => ":scratch_local=" ++ megabytes (scratch spec)
             | ScratchSSD => ":scratch_ssd=" ++ megabytes (scratch spec)
             | _ => ""
             end)
    ++ match boot_alternative a with Some b => ":alternative=" ++ r_name b | None => "" end)%string.

(** ** Facts *)

(** The loop over the priorities never reaches its second entry. *)
Lemma scratch_loop_first want o p prios scr :
  scratch_loop want o (p :: prios) scr = scratch_loop want o [p] scr /\
  fst (scratch_loop want o (p :: prios) scr) <> CheckOccupied.
Proof. unfold scratch_loop, scratch_switch. by destruct p; repeat case_match; simplify_eq. Qed.

(** With local scratch first in the priorities, a job that accepts any scratch
    is told that a node with free SSD scratch will never fit. *)
Lemma has_scratch_stops_at_first_priority n dyn q spec scr prios :
  is_admin_queue q = false -> scratch_type spec = ScratchAny ->
  p_scratch_priority n = ScratchLocal :: prios ->
  offer_ssd (scratch_offers n dyn spec) = CheckAvailable ->
  offer_local (scratch_offers n dyn spec) <> CheckAvailable ->
  has_scratch n dyn q spec scr = (CheckNonFit, scr).
Proof.
  intros Ha Ht Hp Hssd Hloc. unfold has_scratch. rewrite Ha, Ht, Hp. cbv zeta.
  destruct (scratch_offers n dyn spec) as [l s sh]; simpl in *. subst s.
  by destruct l, sh.
Qed.

Definition offer_of (o : scratch_offer) (s : ScratchType) : CheckResult :=
  match s with
  | ScratchLocal => offer_local o
  | ScratchSSD => offer_ssd o
  | ScratchShared => offer_shared o
  | _ => CheckNonFit
  end.

(** When scratch is granted, it is of the requested kind and the node offers it. *)
Lemma has_scratch_granted n dyn q spec scr scr' :
  is_admin_queue q = false -> scratch_type spec <> ScratchNone ->
  has_scratch n dyn q spec scr = (CheckAvailable, scr') ->
  (scratch_type spec = ScratchAny \/ scratch_type spec = scr') /\
  offer_of (scratch_offers n dyn spec) scr' = CheckAvailable.
Proof.
  intros Ha Ht. unfold has_scratch. rewrite Ha. cbv zeta.
  generalize (scratch_offers n dyn spec) (take 3 (p_scratch_priority n)). intros [l s sh] prios.
  destruct (scratch_type spec); try done;
    destruct l, s, sh; simpl; try done;
    (destruct prios as [|p prios]; [done|]); destruct p; simpl; intros; simplify_eq/=; auto.
Qed.
