(* ===== verification/NodeInfo.v ===== *)
(** * Nodes and jobs: NodeInfo.cpp, site_pbs_cache.cpp, logic/NodeFilters.cpp, NodeSort.cpp

    Whether a node can run a job now ([can_run_job], [can_fit_job_for_run]) or
    could be booted into an image for it ([can_boot_job],
    [can_fit_job_for_boot]), and the order nodes are tried in.  Nodes point at
    their physical host and at the virtual nodes it hosts: pointers are keys of
    the node store. *)

From Stdlib Require Import ZArith Lia Bool Ascii String SpecFloat.
From S2P Require Import Prelude CString CFloat MiscHelpers Resource DataTypes NodeData JobInfo StateCount QueueInfo ServerInfo NodeLogic.

Open Scope Z_scope.
Local Open Scope sched_scope.

Abbreviation node_store := (gmap positive node_info).

(** ** site_pbs_cache.cpp *)

(** [str.find(sub) != npos] is [strstr]; [strpbrk(s, ":;")] cuts the string. *)
Fixpoint cut_at_separator (s : string) : string :=
  match s with
  | EmptyString => EmptyString
  | String c t => if (c =c ":") || (c =c ";") then EmptyString else String c (cut_at_separator t)
  end.

Definition magrathea_state_of (s : string) : option MagratheaState :=
  if String.eqb s "removed" then Some MagratheaStateRemoved
  else if String.eqb s "down" then Some MagratheaStateDown
  else if String.eqb s "down-bootable" then Some MagratheaStateDownBootable
  else if String.eqb s "booting" then Some MagratheaStateBooting
  else if String.eqb s "free" then Some MagratheaStateFree
  else if String.eqb s "free-bootable" then Some MagratheaStateFreeBootable
  else if String.eqb s "occupied-would-preempt" then Some MagratheaStateOccupiedWouldPreempt
  else if String.eqb s "occupied" then Some MagratheaStateOccupied
  else if String.eqb s "running-preemptible" then Some MagratheaStateRunningPreemptible
  else if String.eqb s "running-priority" then Some MagratheaStateRunningPriority
  else if String.eqb s "running" then Some MagratheaStateRunning
  else if String.eqb s "running-cluster" then Some MagratheaStateRunningCluster
  else if String.eqb s "preempted" then Some MagratheaStatePreempted
  else if String.eqb s "frozen" then Some MagratheaStateFrozen
  else if String.eqb s "down-disappeared" then Some MagratheaStateDownDisappeared
  else if String.eqb s "shutting-down" then Some MagratheaStateShuttingDown
  else None.

(** The return code, [*state] (initialised to [MagratheaStateNone]) and
    [is_rebootable] afterwards. *)
Definition magrathea_decode_new (res : option Resource) (is_rebootable : bool)
  : Z * MagratheaState * bool :=
  match res with
  | None => (-1, MagratheaStateNone, is_rebootable)
  | Some r =>
      if String.eqb (p_str_val r) "" then (-1, MagratheaStateNone, is_rebootable)
      else
        let reboot := strstr (p_str_val r) "dynamic_reboot=1" in
        match magrathea_state_of (cut_at_separator (p_str_val r)) with
        | Some st => (0, st, reboot)
        | None => (-1, MagratheaStateNone, reboot)
        end
  end.

Definition dup_bootable_alternatives (old : option (list repository_alternatives))
  : option (list repository_alternatives) :=
  match old with
  | None => None
  | Some l => Some (map (fun a => mkAlternative (r_name a) (r_proplist a) (r_mark a)) l)
  end.

(** The loop over the occurrences of [prop] in [list]; [at_start] is
    [c == list] for an occurrence at the head of [s], [prev] the character
    before [s] ([c[-1]]). *)
Fixpoint alternative_loop (prop s : string) (at_start : bool) (prev : ascii) : bool :=
  if String.prefix prop s then
    let cc := String.substring (String.length prop) (String.length s) s in
    if (at_start || (prev =c ",")) && ((hd0 cc =c NUL) || (hd0 cc =c ",")) then true
    else
      match s with
      | EmptyString => false
      | String c t => alternative_loop prop t true c
      end
  else
    match s with
    | EmptyString => false
    | String c t => alternative_loop prop t false c
    end.

Definition alternative_has_property (r : repository_alternatives) (prop : string) : bool :=
  match r_proplist r with
  | None => false
  | Some l => alternative_loop prop l true NUL
  end.

Definition find_alternative_with_property (l : list repository_alternatives) (prop : string)
  : option repository_alternatives :=
  find_first (fun a => alternative_has_property a prop) l.

(** An occurrence right after a rejected one passes for the start of the list:
    "xaa" is found to have the property "a". *)
Lemma alternative_false_positive :
  alternative_has_property (mkAlternative "img" (Some "xaa") 0) "a" = true.
Proof. reflexivity. Qed.

(** ** Properties and specifications *)

Definition result_helper (b : bool) : CheckResult := if b then CheckAvailable else CheckNonFit.

Section NodeChecks.
(** The resource database, the dynamic resources of the nodes' server, and
    the store the host pointers point into. *)
Variable db : RescInfoDb.
Variable dyn : gmap string Dyn.DynamicResource.
Variable store : node_store.
(** [time(NULL)]. *)
Variable now : Z.
(** The Torque library: the nodespec parser, and [site_user_has_account(...)
    == CHECK_NO] for an account, a node name and a cluster. *)
Variable parse_nodespec : string -> pars_spec.
Variable user_denied : string -> string -> string -> bool.
(** [installing_nodes_overlimit()] of the nodes' server. *)
Variable overlimit : bool.

Definition has_prop (n : node_info) (property : pars_prop) (physical_only : bool) : CheckResult :=
  let negative := hd0 (prop_name property) =c "^" in
  let name := if negative then tl0 (prop_name property) else prop_name property in
  match prop_value property with
  | None =>
      if strcmp (node_name n) name =? 0 then result_helper (negb negative)
      else if has_phys_prop (data n) name then result_helper (negb negative)
      else if negb physical_only && has_virt_prop (data n) name then result_helper (negb negative)
      else result_helper negative
  | Some value =>
      if (strcmp name "host" =? 0) && (strcmp value (node_name n) =? 0)
      then result_helper (negb negative)
      else has_resc db n (prop_name property) value
  end.

Definition get_mem_total (n : node_info) : Z :=
  match get_resource (data n) "mem" with None => 0 | Some r => u64 (p_max r) end.

(** The loop of [has_props_boot]. *)
Fixpoint props_boot (n : node_info) (virt_conf : repository_alternatives) (props : list pars_prop)
    (result : CheckResult) : CheckResult :=
  match props with
  | [] => result
  | p :: props' =>
      let test_phys := has_prop n p true in
      let test_virt := if alternative_has_property virt_conf (prop_name p)
                       then CheckAvailable else CheckNonFit in
      if is_result test_phys CheckNonFit && is_result test_virt CheckNonFit then CheckNonFit
      else
        props_boot n virt_conf props'
          (if negb (is_result test_phys CheckAvailable) && negb (is_result test_virt CheckAvailable)
           then CheckOccupied else result)
  end.

Definition has_props_boot (n : node_info) (spec : pars_spec_node)
    (virt_conf : repository_alternatives) : CheckResult :=
  props_boot n virt_conf (properties spec) CheckAvailable.

Fixpoint props_run (n : node_info) (props : list pars_prop) (result : CheckResult) : CheckResult :=
  match props with
  | [] => result
  | p :: props' =>
      match has_prop n p false with
      | CheckNonFit => CheckNonFit
      | CheckOccupied => props_run n props' CheckOccupied
      | CheckAvailable => props_run n props' result
      end
  end.

Definition has_props_run (n : node_info) (spec : pars_spec_node) : CheckResult :=
  props_run n (properties spec) CheckAvailable.

Definition has_spec (n : node_info) (q : queue_info) (j : JobInfo) (spec : pars_spec_node)
    (scr : ScratchType) : CheckResult * ScratchType :=
  let proc_result := has_proc n q (is_exclusive parse_nodespec j) spec in
  let mem_result := has_mem n q spec in
  let '(scratch_result, scr) := has_scratch n dyn q spec scr in
  if is_result proc_result CheckNonFit || is_result mem_result CheckNonFit
     || is_result scratch_result CheckNonFit then (CheckNonFit, scr)
  else if is_result proc_result CheckOccupied || is_result mem_result CheckOccupied
          || is_result scratch_result CheckOccupied then (CheckOccupied, scr)
  else (CheckAvailable, scr).

(** ** States *)

Definition is_virtual_node (n : node_info) : bool :=
  match p_phys_node n with Some _ => true | None => false end.

Definition avail_after_ok (n : node_info) : bool :=
  is_virtual_node n || (p_avail_after (data n) =? 0) || negb (now <? p_avail_after (data n)).

Definition avail_before_ok (n : node_info) : bool :=
  (p_avail_before (data n) =? 0) || negb (now >? p_avail_before (data n)).

Definition state_bad (n : node_info) : bool :=
  p_is_down (nd_state (data n)) || p_is_offline (nd_state (data n)) || p_is_unknown (nd_state (data n)).

(** The jobs on the host and on the nodes it hosts. *)
Definition host_has_jobs (h : node_info) : outcome bool :=
  ofold (fun present p =>
           let! n := of_option (store !! p) in Ret (present || has_jobs (data n)))
    (p_hosted h) (has_jobs (data h)).

(** What the [switch] on the magrathea state decides: [Some r] returns [r],
    [None] goes on. *)
Definition boot_switch (n : node_info) (mode : ClusterMode) : option CheckResult :=
  let down_bootable :=
    if bool_decide (mode = ClusterNone) && negb (p_is_rebootable n) then Some CheckNonFit
    else None in
  match magrathea_status n with
  | MagratheaStateFreeBootable =>
      if negb (p_is_free (nd_state (data n))) || state_bad n then Some CheckOccupied
      else down_bootable
  | MagratheaStateDownBootable => down_bootable
  | MagratheaStateFree | MagratheaStateOccupiedWouldPreempt | MagratheaStateRunning
  | MagratheaStateRunningPreemptible | MagratheaStateRunningPriority | MagratheaStateDown
  | MagratheaStateFrozen | MagratheaStateOccupied | MagratheaStatePreempted => Some CheckNonFit
  | MagratheaStateBooting | MagratheaStateRunningCluster | MagratheaStateNone
  | MagratheaStateDownDisappeared | MagratheaStateRemoved | MagratheaStateShuttingDown =>
      Some CheckOccupied
  end.

Definition has_bootable_state (n : node_info) (mode : ClusterMode) : outcome CheckResult :=
  if negb (bool_decide (p_type (data n) = NodeVirtual)) then Ret CheckNonFit
  else if match alternatives n with Some (_ :: _) => false | _ => true end then Ret CheckNonFit
  else
    match p_host n with
    | None => Ret CheckNonFit
    | Some hp =>
        let! h := of_option (store !! hp) in
        if negb (bool_decide (p_type (data h) = NodeCloud)) then Ret CheckNonFit
        else if negb (avail_after_ok n) then Ret CheckNonFit
        else if negb (avail_before_ok n) then Ret CheckNonFit
        else
          match boot_switch n mode with
          | Some r => Ret r
          | None =>
              if state_bad h then Ret CheckOccupied
              else
                let! jobs_present := host_has_jobs h in
                Ret (if jobs_present then CheckOccupied else CheckAvailable)
          end
    end.

Definition run_switch (n : node_info) : option CheckResult :=
  if bool_decide (p_type (data n) = NodeVirtual) then
    match magrathea_status n with
    | MagratheaStateDown | MagratheaStateDownBootable | MagratheaStateFrozen
    | MagratheaStateDownDisappeared | MagratheaStateShuttingDown | MagratheaStateRemoved =>
        Some CheckNonFit
    | MagratheaStateNone | MagratheaStateOccupied | MagratheaStatePreempted => Some CheckOccupied
    | _ => None
    end
  else None.

Definition has_runnable_state (n : node_info) : CheckResult :=
  if bool_decide (p_type (data n) = NodeTimeshared) || bool_decide (p_type (data n) = NodeCloud)
  then CheckNonFit
  else if negb (avail_after_ok n) then CheckNonFit
  else if negb (avail_before_ok n) then CheckNonFit
  else
    match run_switch n with
    | Some r => r
    | None => if state_bad n then CheckOccupied else CheckAvailable
    end.

(** ** Jobs on nodes *)

(** The node closes before the job would end. *)
Definition closes_too_early (n : node_info) (j : JobInfo) : bool :=
  negb (p_avail_before (data n) =? 0)
  && (i64 (p_avail_before (data n) - get_walltime j) <=? now).

Definition placement_missing (n : node_info) (j : JobInfo) : bool :=
  negb (String.eqb (placement j) "")
  && match get_resource (data n) (placement j) with None => true | Some _ => false end.

Definition can_boot_job (n : node_info) (j : JobInfo) : outcome CheckResult :=
  if p_is_notusable n then Ret CheckNonFit
  else if placement_missing n j then Ret CheckNonFit
  else
    let! result := has_bootable_state n (cluster_mode j) in
    if is_result result CheckNonFit then Ret CheckNonFit
    else if closes_too_early n j then Ret CheckNonFit
    else if bool_decide (cluster_mode j = ClusterUse) then Ret CheckNonFit
    else if p_no_multinode (data n) && is_multinode parse_nodespec j then Ret CheckNonFit
    else if user_denied (account j) (node_name n) (p_phys_cluster n) then Ret CheckNonFit
    else if overlimit then Ret CheckOccupied
    else
      match get_resource (data n) "machine_cluster" with
      | Some _ => Ret CheckOccupied
      | None => Ret result
      end.

Definition can_run_job (n : node_info) (j : JobInfo) : CheckResult :=
  if p_is_notusable n then CheckNonFit
  else if placement_missing n j then CheckNonFit
  else
    let result := has_runnable_state n in
    if is_result result CheckNonFit then CheckNonFit
    else if closes_too_early n j then CheckNonFit
    else if bool_decide (cluster_mode j = ClusterCreate) then CheckNonFit
    else if bool_decide (p_type (data n) = NodeCluster)
            && negb (bool_decide (cluster_mode j = ClusterNone)) then CheckNonFit
    else if p_no_multinode (data n) && is_multinode parse_nodespec j then CheckNonFit
    else
      let res_machine := get_resource (data n) "machine_cluster" in
      if negb (bool_decide (cluster_mode j = ClusterUse)) then
        if user_denied (account j) (node_name n) (p_phys_cluster n) then CheckNonFit
        else match res_machine with Some _ => CheckOccupied | None => result end
      else if negb (String.eqb (cluster_name j) "") then CheckNonFit
      else
        match res_machine with
        | None => CheckNonFit
        | Some r =>
            if String.eqb (p_str_val r) "" then CheckNonFit
            else if negb (String.eqb (p_str_val r) (cluster_name j)) then CheckNonFit
            else result
        end.

Definition weaken (result node_test : CheckResult) : CheckResult :=
  if is_result node_test CheckOccupied then CheckOccupied else result.

Definition can_fit_job_for_run (n : node_info) (q : queue_info) (j : JobInfo)
    (spec : pars_spec_node) (scr : ScratchType) : CheckResult * ScratchType :=
  let result := can_run_job n j in
  if is_result result CheckNonFit then (CheckNonFit, scr)
  else
    let '(node_test, scr) := has_spec n q j spec scr in
    if is_result node_test CheckNonFit then (CheckNonFit, scr)
    else
      let result := weaken result node_test in
      let node_test := has_props_run n spec in
      if is_result node_test CheckNonFit then (CheckNonFit, scr)
      else (weaken result node_test, scr).

(** The loop over the alternatives: the last verdict and the alternative the
    pointer stops at ([None] is the terminator). *)
Fixpoint alternatives_loop (n : node_info) (spec : pars_spec_node)
    (ra : list repository_alternatives) (node_test : CheckResult)
  : CheckResult * option repository_alternatives :=
  match ra with
  | [] => (node_test, None)
  | a :: ra' =>
      match has_props_boot n spec a with
      | CheckNonFit => alternatives_loop n spec ra' CheckNonFit
      | CheckOccupied => alternatives_loop n spec ra' CheckOccupied
      | CheckAvailable => (CheckAvailable, Some a)
      end
  end.

(** The result, the scratch chosen, and the alternative chosen when the out
    parameter is written. *)
Definition can_fit_job_for_boot (n : node_info) (q : queue_info) (j : JobInfo)
    (spec : pars_spec_node) (scr : ScratchType) (alt : option repository_alternatives)
  : outcome (CheckResult * ScratchType * option repository_alternatives) :=
  let! result := can_boot_job n j in
  if is_result result CheckNonFit then Ret (CheckNonFit, scr, alt)
  else
    let '(node_test, scr) := has_spec n q j spec scr in
    if is_result node_test CheckNonFit then Ret (CheckNonFit, scr, alt)
    else
      let result := weaken result node_test in
      let! l := of_option (alternatives n) in
      let '(node_test, ra) := alternatives_loop n spec l CheckNonFit in
      if is_result node_test CheckNonFit then Ret (CheckNonFit, scr, alt)
      else Ret (weaken result node_test, scr, ra).

(** ** logic/NodeFilters.cpp *)

(** The three tests of the filters, evaluated in their order; the boot check
    is only made when its result is needed. *)
Definition suitable (mode : ClusterMode) (run : CheckResult) (boot : outcome CheckResult)
  : outcome bool :=
  let last :=
    if is_result run CheckNonFit then
      let! b := boot in Ret (negb (is_result b CheckNonFit))
    else Ret true in
  if bool_decide (mode = ClusterUse) && is_result run CheckNonFit then Ret false
  else if bool_decide (mode = ClusterCreate) then
    let! b := boot in if is_result b CheckNonFit then Ret false else last
  else last.

Definition node_suitable_for_job (n : node_info) (j : JobInfo) : outcome bool :=
  let run := can_run_job n j in
  suitable (cluster_mode j) run (can_boot_job n j).

Inductive SuitableNodeFilterMode :=
| SuitableAssignMode | SuitableFairshareMode | SuitableStarvingMode | SuitableRebootMode.

Definition physical_node (n : node_info) : outcome node_info :=
  match p_phys_node n with Some p => of_option (store !! p) | None => Ret n end.

Definition node_suitable_for_spec (n : node_info) (q : queue_info) (j : JobInfo)
    (spec : pars_spec_node) (mode : SuitableNodeFilterMode) : outcome bool :=
  let! phys := physical_node n in
  let taken := has_assignment (assign n) || virtual_assignment (assign phys) in
  let excluded :=
    match mode with
    | SuitableRebootMode | SuitableAssignMode => taken
    | SuitableStarvingMode => p_no_starving (data n)
    | SuitableFairshareMode => flag_fairshare (assign n)
    end in
  if excluded then Ret false
  else
    let run := fst (can_fit_job_for_run n q j spec ScratchNone) in
    suitable (cluster_mode j) run
      (let! r := can_fit_job_for_boot n q j spec ScratchNone None in Ret (fst (fst r))).

(** [filter_nodes]: the nodes the filter keeps, in their order. *)
Definition filter_nodes (filter : node_info -> outcome bool) (nodes : list positive)
  : outcome (list positive) :=
  ofold (fun output p =>
           let! n := of_option (store !! p) in
           let! keep := filter n in
           Ret (if keep then output ++ [p] else output)) nodes [].
End NodeChecks.

(** ** The order of nodes *)

Definition get_magrathea_value (st : MagratheaState) : Z :=
  match st with
  | MagratheaStateRunningCluster => 0
  | MagratheaStateRunning | MagratheaStateRunningPriority => 1
  | MagratheaStateDownBootable => 2
  | MagratheaStateFreeBootable => 3
  | MagratheaStateFree => 4
  | MagratheaStateRunningPreemptible => 5
  | MagratheaStateOccupiedWouldPreempt => 6
  | _ => 99
  end.

Definition magrathea_rank (n : node_info) : Z :=
  if negb (bool_decide (p_type (data n) = NodeVirtual)) then -1
  else get_magrathea_value (magrathea_status n).

(** The comparisons after the priority. *)
Definition node_lt_tail (l r : node_info) : bool :=
  if p_priority (data l) >? p_priority (data r) then true
  else if p_priority (data l) <? p_priority (data r) then false
  else if magrathea_rank l <? magrathea_rank r then true
  else if magrathea_rank l >? magrathea_rank r then false
  else if p_core_free (data l) <? p_core_free (data r) then true
  else if p_core_free (data l) >? p_core_free (data r) then false
  else strcmp (node_name l) (node_name r) <? 0.

(** [operator<] of [node_info]; [NodeStateSort] compares with it. *)
Definition node_lt (l r : node_info) : bool :=
  if negb (is_virtual_node l) && is_virtual_node r then true
  else if is_virtual_node l && negb (is_virtual_node r) then false
  else if is_virtual_node l && is_virtual_node r then
    if p_avail_after (data l) <? p_avail_after (data r) then true
    else if p_avail_after (data l) >? p_avail_after (data r) then false
    else node_lt_tail l r
  else node_lt_tail l r.

(** NodeSort.cpp: [NodeCostSort]; [unsigned long long] operands are converted
    to [double]. *)
Definition node_cost_lt (p_procs p_mem : Z) (p_excl : bool) (left right : node_info) : bool :=
  let d := fof_Z (F := binary64) in
  let cores n := d (p_core_total (data n)) in
  let cost n :=
    if p_excl then fmul (F := binary64) (p_node_cost (data n)) (cores n)
    else
      fmul (F := binary64)
        (fmul (F := binary64)
          (fmax (fdiv (F := binary64) (d p_procs) (cores n))
                (fdiv (F := binary64) (d p_mem) (d (get_mem_total n))))
          (p_node_cost (data n)))
        (cores n) in
  flt (cost left) (cost right).

(** ** Interpreting the node's resources *)

Definition process_magrathea_status (n : node_info) (host : option node_info) : node_info :=
  let '(rc, st, reboot) := magrathea_decode_new (get_resource (data n) "magrathea") (p_is_rebootable n) in
  match get_resource (data n) "magrathea" with
  | None => n <| magrathea_status := MagratheaStateNone |>
  | Some _ =>
      let n := n <| p_is_rebootable := reboot |> in
      if negb (rc =? 0) then n <| magrathea_status := MagratheaStateNone |>
      else
        let n := n <| magrathea_status := st |> in
        if has_jobs (data n)
           && (bool_decide (st = MagratheaStateDownBootable) || bool_decide (st = MagratheaStateFree))
        then n <| magrathea_status := MagratheaStateNone |>
        else
          match host with
          | Some h =>
              if has_jobs (data h) && bool_decide (st = MagratheaStateDownBootable)
              then n <| magrathea_status := MagratheaStateNone |> else n
          | None => n
          end
  end.

Definition process_machine_cluster (n : node_info) : node_info :=
  let n := n <| p_virtual_cluster := ""%string |> <| p_virtual_image := ""%string |>
             <| p_is_building_cluster := false |> in
  match get_resource (data n) "machine_cluster" with
  | None => n
  | Some r =>
      let n := match split_at (p_str_val r) ";" with
               | (cluster, Some image) =>
                   n <| p_virtual_cluster := cluster |> <| p_virtual_image := image |>
               | (cluster, None) => n <| p_virtual_cluster := cluster |>
               end in
      if String.prefix "internal_" (p_virtual_cluster n) then n <| p_is_building_cluster := true |>
      else if negb (bool_decide (magrathea_status n = MagratheaStateRunningCluster))
      then n <| p_is_building_cluster := true |>
      else n
  end.

(** [recount_installing_nodes] of ServerInfo.cpp. *)
Definition recount_installing_nodes (store : node_store) (s : server_info) : outcome server_info :=
  ofold (fun s p =>
           let! n := of_option (store !! p) in
           Ret (if p_is_building_cluster n
                then s <| installing_node_count := i32 (installing_node_count s + 1) |> else s))
    (srv_nodes s) (s <| installing_node_count := 0 |>).

(** The key nodes are ordered by: physical before virtual, virtual nodes by the
    time they become available, then priority (descending), magrathea rank and
    free cores. *)
Definition node_key (n : node_info) : list Z :=
  (if is_virtual_node n then [1; p_avail_after (data n)] else [0; 0])
  ++ [- p_priority (data n); magrathea_rank n; p_core_free (data n)].

Lemma node_lt_lex l r :
  node_lt l r = lex_then node_key (fun l r => String.ltb (node_name l) (node_name r)) l r.
Proof.
  unfold node_lt, lex_then, node_key, node_lt_tail, strcmp, String.ltb.
  assert (Hname : (match String.compare (node_name l) (node_name r) with Eq => 0 | Lt => -1 | Gt => 1 end <? 0)
    = match String.compare (node_name l) (node_name r) with Lt => true | _ => false end)
    by (by destruct (String.compare (node_name l) (node_name r))).
  rewrite Hname. clear Hname.
  destruct (is_virtual_node l), (is_virtual_node r); simpl; try done.
  1: destruct (Z.compare_spec (p_avail_after (data l)) (p_avail_after (data r))).
  all: destruct (Z.compare_spec (- p_priority (data l)) (- p_priority (data r)));
    destruct (Z.compare_spec (magrathea_rank l) (magrathea_rank r));
    destruct (Z.compare_spec (p_core_free (data l)) (p_core_free (data r)));
    case_bools; done || lia.
Qed.

(** The node order is a strict weak order (what [std::sort] needs), it is
    total on nodes with different names, and it puts every physical node
    before every virtual one. *)
Theorem node_order_correct :
  StrictWeakOrder node_lt /\
  (forall l r, node_name l <> node_name r -> node_lt l r = true \/ node_lt r l = true) /\
  (forall l r, is_virtual_node l = false -> is_virtual_node r = true ->
     node_lt l r = true /\ node_lt r l = false).
Proof.
  split_and!.
  - eapply swo_ext; [intros; symmetry; apply node_lt_lex|].
    apply lex_then_swo. apply (swo_on node_name), string_ltb_swo.
  - intros l r Hne. rewrite !node_lt_lex. unfold lex_then. rewrite (lex_antisym (node_key l)).
    destruct (lex (node_key l) (node_key r)); simpl; auto.
    destruct (String.ltb (node_name l) (node_name r)) eqn:E1; [by left|].
    destruct (String.ltb (node_name r) (node_name l)) eqn:E2; [by right|].
    by destruct Hne; apply string_ltb_total.
  - intros l r Hl Hr. unfold node_lt. by rewrite Hl, Hr.
Qed.
