(* ===== verification/JobPlan.v ===== *)
(** * Planning jobs: JobInfo.cpp (plan_on_node, unplan_from_node, plan_on_server),
    ServerInfo.cpp (update_on_job_run), server_info.cpp (update_server_on_move)

    Starting a job consumes the resources of the nodes that carry an
    assignment, the dynamic resources of the server, and updates the server's
    counters.  The state is the node store and the server. *)

From Stdlib Require Import ZArith Lia Bool Ascii String SpecFloat.
From S2P Require Import Prelude CString CFloat MiscHelpers Resource DataTypes NodeData JobInfo StateCount QueueInfo ServerInfo NodeLogic NodeInfo.

Open Scope Z_scope.
Local Open Scope sched_scope.

Abbreviation dyn_map := (gmap string Dyn.DynamicResource).

(** [if ((res = ninfo->get_resource(name)) != NULL) res->op(v)]. *)
Definition with_resource (n : node_info) (name : string) (f : Resource -> Resource) : node_info :=
  match get_resource (data n) name with
  | None => n
  | Some r => n <| data := data n <| p_resc := <[name := f r]> (p_resc (data n)) |> |>
  end.

Section Plan.
Variable db : RescInfoDb.
Variable parse_nodespec : string -> pars_spec.

(** The loop over the remaining properties of a request. *)
Fixpoint plan_props (op : Resource -> Z -> Resource) (n : node_info) (props : list pars_prop)
  : node_info :=
  match props with
  | [] => n
  | p :: props' =>
      match prop_value p with
      | None => plan_props op n props'
      | Some value =>
          if negb (bool_decide (res_check_type db (prop_name p) = ResCheckNone)) then
            plan_props op (with_resource n (prop_name p) (fun r => op r (res_to_num value))) props'
          else plan_props op n props'
      end
  end.

(** The scratch of the assignment: a node resource, or the server's pool. *)
Definition plan_scratch (op : Resource -> Z -> Resource)
    (dop : Dyn.DynamicResource -> Z -> Dyn.DynamicResource)
    (n : node_info) (dyn : dyn_map) (spec : pars_spec_node) : node_info * dyn_map :=
  match scratch_assign (assign n) with
  | ScratchLocal => (with_resource n "scratch_local" (fun r => op r (i64 (scratch spec))), dyn)
  | ScratchSSD => (with_resource n "scratch_ssd" (fun r => op r (i64 (scratch spec))), dyn)
  | ScratchShared =>
      match get_resource (data n) "scratch_pool" with
      | None => (n, dyn)
      | Some res =>
          match dyn !! p_str_val res with
          | None => (n, dyn)
          | Some d => (n, <[p_str_val res := dop d (i64 (scratch spec))]> dyn)
          end
      end
  | _ => (n, dyn)
  end.

(** The processors taken: the whole node for an exclusive job. *)
Definition planned_procs (j : JobInfo) (n : node_info) (spec : pars_spec_node) : Z :=
  if is_exclusive parse_nodespec j then p_core_total (data n) else i32 (procs spec).

Definition unplan_from_node (j : JobInfo) (n : node_info) (dyn : dyn_map) (spec : pars_spec_node)
  : node_info * dyn_map :=
  let n := freeup_proc n (planned_procs j n spec) in
  let n := with_resource n "mem" (fun r => freeup_resource r (i64 (mem spec))) in
  let '(n, dyn) := plan_scratch freeup_resource Dyn.remove_scheduled n dyn spec in
  (plan_props freeup_resource n (properties spec), dyn).

(** [plan_on_node] on the node itself. *)
Definition plan_node (j : JobInfo) (n : node_info) (dyn : dyn_map) (spec : pars_spec_node)
  : node_info * dyn_map :=
  let n := deplete_proc n (planned_procs j n spec) in
  let n := with_resource n "mem" (fun r => consume_resource r (i64 (mem spec))) in
  let '(n, dyn) := plan_scratch consume_resource Dyn.add_scheduled n dyn spec in
  (plan_props consume_resource n (properties spec), dyn).

(** The nodes of the host become unusable for a cluster job. *)
Definition mark_sisters (store : node_store) (h : node_info) : outcome node_store :=
  ofold (fun store p =>
           let! n := of_option (store !! p) in
           Ret (<[p := n <| p_is_notusable := true |>]> store)) (p_hosted h) store.

Definition plan_on_node (store : node_store) (dyn : dyn_map) (j : JobInfo) (p : positive)
    (spec : pars_spec_node) : outcome (node_store * dyn_map) :=
  let! n := of_option (store !! p) in
  let! store :=
    if bool_decide (cluster_mode j = ClusterCreate) then
      let! hp := of_option (p_host n) in
      let! h := of_option (store !! hp) in
      mark_sisters store h
    else Ret store in
  let! n := of_option (store !! p) in
  let '(n, dyn) := plan_node j n dyn spec in
  Ret (<[p := n]> store, dyn).

(** [plan_on_server]: the requests for dynamic resources. *)
Definition plan_on_server (j : JobInfo) (dyn : dyn_map) : dyn_map :=
  fold_left (fun dyn req =>
    match dyn !! req_name req with
    | None => dyn
    | Some d => <[req_name req := Dyn.add_assigned d (req_amount req)]> dyn
    end) (resreq j) dyn.

(** The loop over the nodes that carry an assignment. *)
Definition plan_on_nodes (j : JobInfo) (nodes : list positive) (st : node_store * dyn_map)
  : outcome (node_store * dyn_map) :=
  ofold (fun '(store, dyn) p =>
           let! n := of_option (store !! p) in
           match assignment (assign n) with
           | Some spec => plan_on_node store dyn j p spec
           | None => Ret (store, dyn)
           end) nodes st.

(** [server_info::update_on_job_run]. *)
Definition server_update_on_job_run (store : node_store) (s : server_info) (j : JobInfo)
  : outcome (node_store * server_info) :=
  let sc := srv_sc s in
  let s := s <| srv_sc := sc <| sc_running := i32 (sc_running sc + 1) |>
                             <| sc_queued := i32 (sc_queued sc - 1) |> |>
             <| dynamic_resources := plan_on_server j (dynamic_resources s) |> in
  let! (store, dyn) := plan_on_nodes j (srv_nodes s) (store, dynamic_resources s) in
  let s := s <| dynamic_resources := dyn |> <| running_jobs := running_jobs s ++ [j] |> in
  let! m := bump (running_jobs_by_group s) (group j) 1
              (Ret (count_by_group (running_jobs s) (group j))) in
  let s := s <| running_jobs_by_group := m |> in
  let! m := bump (running_jobs_by_user s) (account j) 1
              (Ret (count_by_user (running_jobs s) (account j))) in
  Ret (store, s <| running_jobs_by_user := m |>).

(** [update_server_on_move]: the counters of the target and of the server the
    job leaves. *)
Definition update_server_on_move (store : node_store) (target local : server_info) (j : JobInfo)
  : outcome (node_store * server_info * server_info) :=
  let target := target <| srv_sc := srv_sc target <| sc_running := i32 (sc_running (srv_sc target) + 1) |> |> in
  let local := local <| srv_sc := srv_sc local <| sc_queued := i32 (sc_queued (srv_sc local) - 1) |> |> in
  let! (store, dyn) := plan_on_nodes j (srv_nodes target) (store, dynamic_resources target) in
  Ret (store, target <| dynamic_resources := dyn |>, local).
End Plan.

(** ** Planning is additive

    Every resource of the node moves by the sum of the amounts the request
    names, whatever their order. *)

(** The amounts consumed, by resource name, in the order of the code. *)
Definition prop_amounts (db : RescInfoDb) (props : list pars_prop) : list (string * Z) :=
  omap (fun p =>
    match prop_value p with
    | Some v =>
        if negb (bool_decide (res_check_type db (prop_name p) = ResCheckNone))
        then Some (prop_name p, res_to_num v) else None
    | None => None
    end) props.

Definition scratch_amounts (s : ScratchType) (spec : pars_spec_node) : list (string * Z) :=
  match s with
  | ScratchLocal => [("scratch_local"%string, i64 (scratch spec))]
  | ScratchSSD => [("scratch_ssd"%string, i64 (scratch spec))]
  | _ => []
  end.

Definition node_amounts (db : RescInfoDb) (s : ScratchType) (spec : pars_spec_node)
  : list (string * Z) :=
  ("mem"%string, i64 (mem spec)) :: scratch_amounts s spec ++ prop_amounts db (properties spec).

Definition amount_of (l : list (string * Z)) (name : string) : Z :=
  sumZ (fun x => if String.eqb (fst x) name then snd x else 0) l.

Definition with_resources (op : Resource -> Z -> Resource) (n : node_info) (l : list (string * Z))
  : node_info :=
  fold_left (fun n '(name, v) => with_resource n name (fun r => op r v)) l n.

Lemma plan_props_amounts db op n props :
  plan_props db op n props = with_resources op n (prop_amounts db props).
Proof.
  revert n. induction props as [|p props IH]; intros n; simpl; [done|].
  destruct (prop_value p) as [v|]; simpl; [|apply IH].
  destruct (negb _); simpl; apply IH.
Qed.

Lemma with_resource_assign n name f : assign (with_resource n name f) = assign n.
Proof. unfold with_resource. by destruct (get_resource _ _). Qed.

Lemma with_resource_cores n name f :
  p_core_assigned (with_resource n name f) = p_core_assigned n /\
  p_core_total (data (with_resource n name f)) = p_core_total (data n).
Proof. unfold with_resource. by destruct (get_resource _ _). Qed.

(** The assigned amount moved by [d]. *)
Definition shift (d : Z) (r : Resource) : Resource := set_utilization r (i64 (p_assign r + d)).

Lemma shift_shift d1 d2 r : shift d1 (shift d2 r) = shift (d1 + d2) r.
Proof.
  unfold shift, set_utilization. simpl. rewrite wrap_s_add_l by lia. do 2 f_equal. lia.
Qed.

Lemma shift_0 r : in_s 64 (p_assign r) -> shift 0 r = r.
Proof. intros H. unfold shift, set_utilization. rewrite Z.add_0_r, i64_id by done. by destruct r. Qed.

Lemma shift_range d r : in_s 64 (p_assign (shift d r)).
Proof. apply wrap_s_range. lia. Qed.

Lemma consume_shift r v : consume_resource r v = shift v r.
Proof. done. Qed.

Lemma freeup_shift r v : freeup_resource r v = shift (- v) r.
Proof. unfold freeup_resource, shift. by rewrite Z.add_opp_r. Qed.

Definition resc_ok (n : node_info) : Prop :=
  forall k r, p_resc (data n) !! k = Some r -> in_s 64 (p_assign r).

(** An operation that adds [sg * v]. *)
Definition shifts (sg : Z) (op : Resource -> Z -> Resource) : Prop :=
  forall r v, op r v = shift (sg * v) r.

Lemma shifts_consume : shifts 1 consume_resource.
Proof. intros r v. by rewrite Z.mul_1_l. Qed.

Lemma shifts_freeup : shifts (-1) freeup_resource.
Proof. intros r v. rewrite freeup_shift. by f_equal. Qed.

Lemma with_resource_lookup n name f k :
  p_resc (data (with_resource n name f)) !! k =
  if String.eqb name k then f <$> p_resc (data n) !! k else p_resc (data n) !! k.
Proof.
  unfold with_resource, get_resource. destruct (String.eqb_spec name k) as [<-|Hne].
  - destruct (p_resc (data n) !! name) as [r|] eqn:E; simpl; [by rewrite lookup_insert_eq|done].
  - destruct (p_resc (data n) !! name) as [r|] eqn:E; simpl; [|done].
    by rewrite lookup_insert_ne.
Qed.

Lemma with_resources_lookup sg op n l k :
  shifts sg op -> resc_ok n ->
  p_resc (data (with_resources op n l)) !! k =
  shift (sg * amount_of l k) <$> p_resc (data n) !! k.
Proof.
  intros Hop. revert n. induction l as [|[name v] l IH]; intros n Hn; simpl.
  - destruct (p_resc (data n) !! k) as [r|] eqn:E; simpl; [|done].
    unfold amount_of. simpl. by rewrite Z.mul_0_r, shift_0 by by eapply Hn.
  - rewrite IH.
    + rewrite with_resource_lookup. unfold amount_of. simpl.
      destruct (String.eqb name k); simpl.
      * destruct (p_resc (data n) !! k); simpl; [|done]. rewrite Hop, shift_shift.
        do 2 f_equal. lia.
      * by rewrite Z.add_0_l.
    + intros k' r. rewrite with_resource_lookup. destruct (String.eqb name k'); [|apply Hn].
      intros [r' [Hr' ->]]%fmap_Some. rewrite Hop. apply shift_range.
Qed.

Lemma with_resources_ok sg op n l : shifts sg op -> resc_ok n -> resc_ok (with_resources op n l).
Proof.
  intros Hop Hn k r. rewrite (with_resources_lookup sg) by done.
  intros [r' [Hr' ->]]%fmap_Some. apply shift_range.
Qed.

(** Only the resources of the node change. *)
Definition set_resc (n : node_info) (m : gmap string Resource) : node_info :=
  n <| data := data n <| p_resc := m |> |>.

Lemma set_resc_id n : set_resc n (p_resc (data n)) = n.
Proof. by destruct n as [[] ? ? ? ? ? ? ? ? ? ? ? ? ? ? ? ?]. Qed.

Lemma with_resources_shape op n l :
  with_resources op n l = set_resc n (p_resc (data (with_resources op n l))).
Proof.
  revert n. induction l as [|[name v] l IH]; intros n; simpl; [by rewrite set_resc_id|].
  rewrite IH at 1. unfold with_resource. by destruct (get_resource _ _).
Qed.

Lemma with_resources_app op n l1 l2 :
  with_resources op n (l1 ++ l2) = with_resources op (with_resources op n l1) l2.
Proof. apply fold_left_app. Qed.

(** Consuming and freeing the same amounts gives the node back. *)
Lemma with_resources_inverse n l :
  resc_ok n -> with_resources freeup_resource (with_resources consume_resource n l) l = n.
Proof.
  intros Hn. rewrite with_resources_shape, (with_resources_shape _ n).
  set (m := p_resc (data (with_resources freeup_resource _ l))).
  assert (Hm : m = p_resc (data n)).
  { apply map_eq. intros k. unfold m. rewrite <- with_resources_shape.
    rewrite (with_resources_lookup _ _ _ _ _ shifts_freeup)
      by (by eapply with_resources_ok; [apply shifts_consume|]).
    rewrite (with_resources_lookup _ _ _ _ _ shifts_consume) by done.
    destruct (p_resc (data n) !! k) as [r|] eqn:E; simpl; [|done].
    rewrite shift_shift. replace (-1 * _ + 1 * _) with 0 by lia.
    by rewrite shift_0 by by eapply Hn. }
  rewrite Hm. etransitivity; [|apply set_resc_id]. done.
Qed.

(** ** The server's scratch pool *)

(** The dynamic resource the node draws shared scratch from. *)
Definition pool_of (n : node_info) : option string :=
  if bool_decide (scratch_assign (assign n) = ScratchShared)
  then p_str_val <$> get_resource (data n) "scratch_pool" else None.

Definition change_pool (pool : option string) (f : Dyn.DynamicResource -> Dyn.DynamicResource)
    (dyn : dyn_map) : dyn_map :=
  match pool with None => dyn | Some k => alter f k dyn end.

Lemma plan_scratch_eq op dop n dyn spec :
  plan_scratch op dop n dyn spec =
  (with_resources op n (scratch_amounts (scratch_assign (assign n)) spec),
   change_pool (pool_of n) (fun d => dop d (i64 (scratch spec))) dyn).
Proof.
  unfold plan_scratch, pool_of. destruct (scratch_assign (assign n)) eqn:E; simpl; try done.
  destruct (get_resource (data n) "scratch_pool") as [r|]; simpl; [|done].
  destruct (dyn !! p_str_val r) as [d|] eqn:Ed; f_equal; apply map_eq; intros k.
  - destruct (decide (p_str_val r = k)) as [<-|];
      rewrite ?lookup_insert_eq, ?lookup_insert_ne, ?lookup_alter_eq, ?lookup_alter_ne, ?Ed by done;
      done.
  - destruct (decide (p_str_val r = k)) as [<-|];
      rewrite ?lookup_alter_eq, ?lookup_alter_ne, ?Ed by done; done.
Qed.

Lemma with_resources_cons op n k v l :
  with_resources op n ((k, v) :: l) = with_resources op (with_resource n k (fun r => op r v)) l.
Proof. done. Qed.

(** The node after a plan (or its inverse), in one piece. *)
Lemma plan_with_resources db op dop n dyn spec :
  (let '(n1, dyn1) := plan_scratch op dop (with_resource n "mem" (fun r => op r (i64 (mem spec)))) dyn spec in
   (plan_props db op n1 (properties spec), dyn1)) =
  (with_resources op n (node_amounts db (scratch_assign (assign n)) spec),
   change_pool (pool_of (with_resource n "mem" (fun r => op r (i64 (mem spec)))))
     (fun d => dop d (i64 (scratch spec))) dyn).
Proof.
  rewrite plan_scratch_eq, plan_props_amounts, with_resource_assign. f_equal.
  unfold node_amounts. by rewrite with_resources_cons, with_resources_app.
Qed.

(** The pool is named by the value of a string resource, which planning does
    not touch. *)
Lemma pool_of_with_resources sg op n l :
  shifts sg op -> resc_ok n -> pool_of (with_resources op n l) = pool_of n.
Proof.
  intros Hop Hn. unfold pool_of, get_resource.
  rewrite (with_resources_lookup sg) by done.
  assert (assign (with_resources op n l) = assign n) as -> by
    (rewrite with_resources_shape; done).
  destruct (bool_decide _); [|done]. by destruct (p_resc (data n) !! _).
Qed.

Lemma change_pool_inverse pool f g dyn :
  (forall k d, dyn !! k = Some d -> g (f d) = d) -> change_pool pool g (change_pool pool f dyn) = dyn.
Proof.
  intros H. destruct pool as [k|]; [|done]. simpl. apply map_eq. intros k'.
  destruct (decide (k = k')) as [<-|]; rewrite ?lookup_alter_eq, ?lookup_alter_ne by done; [|done].
  destruct (dyn !! k) as [d|] eqn:E; simpl; [|done]. by rewrite (H _ _ E).
Qed.

(** The values the plan starts from fit their types. *)
Record plan_ok (n : node_info) (dyn : dyn_map) : Prop := {
  po_cores : in_s 32 (p_core_assigned n);
  po_resc : resc_ok n;
  po_dyn : forall k d, dyn !! k = Some d -> in_s 64 (Dyn.d_scheduled_use d)
}.

Lemma deplete_freeup n c : in_s 32 (p_core_assigned n) -> freeup_proc (deplete_proc n c) c = n.
Proof.
  intros H. unfold freeup_proc, deplete_proc. simpl.
  rewrite wrap_s_sub_l, Z.add_simpl_r, i32_id by done || lia. by destruct n.
Qed.

Lemma freeup_proc_with_resources op n l c :
  freeup_proc (with_resources op n l) c = with_resources op (freeup_proc n c) l.
Proof.
  revert n. induction l as [|[name v] l IH]; intros n; [done|]. rewrite !with_resources_cons, IH.
  f_equal. unfold with_resource. change (data (freeup_proc n c)) with (data n).
  by destruct (get_resource (data n) name).
Qed.

Lemma dyn_inverse d v : in_s 64 (Dyn.d_scheduled_use d) -> Dyn.remove_scheduled (Dyn.add_scheduled d v) v = d.
Proof.
  intros H. unfold Dyn.remove_scheduled, Dyn.add_scheduled. simpl.
  rewrite wrap_s_sub_l, Z.add_simpl_r, i64_id by done || lia. by destruct d.
Qed.

(** Planning on the node itself, and its inverse. *)
Lemma plan_node_spec (db : RescInfoDb) (parse : string -> pars_spec) (j : JobInfo)
    (n : node_info) (dyn : dyn_map) (spec : pars_spec_node) (Hok : plan_ok n dyn) :
  let '(n', dyn') := plan_node db parse j n dyn spec in
  p_core_assigned n' = i32 (p_core_assigned n + planned_procs parse j n spec) /\
  n' = set_resc (deplete_proc n (planned_procs parse j n spec)) (p_resc (data n')) /\
  (forall k, p_resc (data n') !! k =
     shift (amount_of (node_amounts db (scratch_assign (assign n)) spec) k) <$> p_resc (data n) !! k) /\
  unplan_from_node db parse j n' dyn' spec = (n, dyn).
Proof.
  destruct Hok as [Hc Hr Hd]. unfold plan_node. rewrite plan_with_resources.
  set (c := planned_procs parse j n spec). set (n0 := deplete_proc n c).
  set (am := node_amounts db (scratch_assign (assign n0)) spec).
  assert (Hr0 : resc_ok n0) by exact Hr. split_and!.
  - by rewrite with_resources_shape.
  - apply with_resources_shape.
  - intros k. rewrite (with_resources_lookup _ _ _ _ _ shifts_consume) by done. by rewrite Z.mul_1_l.
  - unfold unplan_from_node. rewrite plan_with_resources.
    assert (Hpp : planned_procs parse j (with_resources consume_resource n0 am) spec = c)
      by (rewrite with_resources_shape; done).
    rewrite Hpp, freeup_proc_with_resources. unfold n0. rewrite deplete_freeup by done.
    assert (Has : assign (with_resources consume_resource n am) = assign n)
      by (by rewrite with_resources_shape).
    rewrite Has. fold am. rewrite with_resources_inverse by done. f_equal.
    set (f := fun r => consume_resource r _). set (g := fun r => freeup_resource r _).
    assert (Hpool : pool_of (with_resource (with_resources consume_resource n am) "mem" g)
                    = pool_of (with_resource (deplete_proc n c) "mem" f)).
    { change (with_resource ?n "mem" g) with (with_resources freeup_resource n [("mem"%string, i64 (mem spec))]).
      change (with_resource ?n "mem" f) with (with_resources consume_resource n [("mem"%string, i64 (mem spec))]).
      rewrite (pool_of_with_resources _ _ _ _ shifts_freeup)
        by (by eapply with_resources_ok; [apply shifts_consume|]).
      by rewrite !(pool_of_with_resources _ _ _ _ shifts_consume). }
    rewrite Hpool. apply change_pool_inverse. intros k d Hk. apply dyn_inverse. by eapply Hd.
Qed.

(** ** The nodes a cluster job makes unusable *)

Definition mark_notusable (b : bool) (n : node_info) : node_info := n <| p_is_notusable := p_is_notusable n || b |>.

Lemma mark_false n : mark_notusable false n = n.
Proof. unfold mark_notusable. rewrite orb_false_r. by destruct n. Qed.

Definition mark_all (qs : list positive) (store : node_store) : node_store :=
  map_imap (fun q n => Some (mark_notusable (bool_decide (q ∈ qs)) n)) store.

(** For a job that creates a cluster, all the nodes of the host of the node. *)
Definition sisters (store : node_store) (j : JobInfo) (n : node_info) (qs : list positive) : Prop :=
  if bool_decide (cluster_mode j = ClusterCreate)
  then exists hp h, p_host n = Some hp /\ store !! hp = Some h /\ p_hosted h = qs
  else qs = [].

Lemma mark_all_lookup qs store q :
  mark_all qs store !! q = mark_notusable (bool_decide (q ∈ qs)) <$> store !! q.
Proof. unfold mark_all. rewrite map_lookup_imap. by destruct (store !! q). Qed.

Lemma mark_all_nil store : mark_all [] store = store.
Proof. apply map_eq. intros q. rewrite mark_all_lookup. destruct (store !! q); simpl; [|done]. by rewrite mark_false. Qed.

Lemma mark_sisters_spec store h :
  (forall q, q ∈ p_hosted h -> is_Some (store !! q)) -> mark_sisters store h = Ret (mark_all (p_hosted h) store).
Proof.
  unfold mark_sisters. generalize (p_hosted h). intros qs. revert store.
  induction qs as [|q qs IH]; intros store Hin; cbn [ofold]; [by rewrite mark_all_nil|].
  destruct (Hin q) as [n Hn]; [by left|]. rewrite Hn. cbn [of_option obind]. rewrite IH.
  - f_equal. apply map_eq. intros k. rewrite !mark_all_lookup.
    destruct (decide (q = k)) as [<-|Hne].
    + rewrite lookup_insert_eq, Hn, (bool_decide_eq_true_2 (q ∈ q :: qs)) by by left.
      simpl. unfold mark_notusable. simpl. by rewrite orb_true_r.
    + rewrite lookup_insert_ne by done. by rewrite (bool_decide_ext (k ∈ q :: qs) (k ∈ qs)) by set_solver.
  - intros k Hk. destruct (decide (q = k)) as [<-|]; [by rewrite lookup_insert_eq; eexists|].
    rewrite lookup_insert_ne by done. apply Hin. by right.
Qed.

(** [plan_on_node] once the nodes of the host are marked. *)
Lemma plan_on_node_marked db parse store dyn j p n spec qs :
  store !! p = Some n -> sisters store j n qs -> (forall q, q ∈ qs -> is_Some (store !! q)) ->
  plan_on_node db parse store dyn j p spec =
  (let '(n', dyn') := plan_node db parse j (mark_notusable (bool_decide (p ∈ qs)) n) dyn spec in
   Ret (<[p := n']> (mark_all qs store), dyn')).
Proof.
  intros Hp Hs Hin. unfold plan_on_node, sisters in *. rewrite Hp. cbn [of_option obind].
  destruct (bool_decide (cluster_mode j = ClusterCreate)).
  - destruct Hs as (hp & h & -> & Hh & <-). cbn [of_option obind]. rewrite Hh. cbn [of_option obind].
    rewrite mark_sisters_spec by done. cbn [obind]. by rewrite mark_all_lookup, Hp.
  - subst qs. cbn [obind]. rewrite Hp, mark_all_nil. cbn [of_option obind]. by rewrite mark_false.
Qed.

Lemma plan_ok_assigned a n dyn : plan_ok n dyn -> plan_ok (n <| assign := a |>) dyn.
Proof. by intros [H1 H2 H3]. Qed.

Lemma plan_ok_marked b n dyn : plan_ok n dyn -> plan_ok (mark_notusable b n) dyn.
Proof. by intros [H1 H2 H3]. Qed.

(** C11: Planning a job on a node of the store moves every resource of the node by
    exactly the sum of the amounts the request names for it, and its cores by the
    processors of the request; the node has no other resources than before.  No
    other node changes, but those of its host, which are marked as not usable when
    the job creates a cluster.  [unplan_from_node] then takes everything back, the
    dynamic resources of the server included, except for that mark: the node is
    what it was, and stays not usable if it was marked. *)
Theorem unplan_inverts_plan (db : RescInfoDb) (parse : string -> pars_spec) (j : JobInfo)
    (store : node_store) (p : positive) (n : node_info) (dyn : dyn_map) (spec : pars_spec_node) (qs : list positive)
    (Hp : store !! p = Some n) (Hok : plan_ok n dyn)
    (Hsisters : sisters store j n qs) (Hstored : forall q, q ∈ qs -> is_Some (store !! q)) :
  exists n' store' dyn', plan_on_node db parse store dyn j p spec = Ret (store', dyn') /\
    store' !! p = Some n' /\
    (forall q, q <> p -> store' !! q = mark_notusable (bool_decide (q ∈ qs)) <$> store !! q) /\
    p_core_assigned n' = i32 (p_core_assigned n + planned_procs parse j n spec) /\
    (forall k, p_resc (data n') !! k =
       shift (amount_of (node_amounts db (scratch_assign (assign n)) spec) k) <$> p_resc (data n) !! k) /\
    unplan_from_node db parse j n' dyn' spec = (mark_notusable (bool_decide (p ∈ qs)) n, dyn).
Proof.
  rewrite (plan_on_node_marked _ _ _ _ _ _ n _ qs) by done.
  pose proof (plan_node_spec db parse j _ dyn spec (plan_ok_marked (bool_decide (p ∈ qs)) _ _ Hok)) as H.
  destruct (plan_node _ _ _ _ _ _) as [n' dyn']. destruct H as (H1 & _ & H2 & H3).
  eexists n', _, dyn'. split; [reflexivity|]. split_and!; [by rewrite lookup_insert_eq| |done..].
  intros q Hq. by rewrite lookup_insert_ne, mark_all_lookup.
Qed.

Definition plan_example_node : node_info :=
  new_node_info (new_NodeData "n1" 8 8 false
    <| p_resc := {[ "mem"%string := set_utilization (set_capacity (new_Resource "mem") "16gb") 0 ]} |>)
    MagratheaStateNone.

Lemma plan_example_ok : plan_ok plan_example_node ∅.
Proof.
  constructor; [vm_compute; intuition congruence| |intros k d Hk; by rewrite lookup_empty in Hk].
  intros k r Hk. unfold plan_example_node in Hk. simpl in Hk.
  apply (lookup_singleton_Some (M := gmap string)) in Hk as [_ <-]. vm_compute. intuition congruence.
Qed.

(** The node is one of two of a host; planning a job that creates a cluster marks
    both. *)
Definition plan_example_store : node_store :=
  {[ 1%positive := plan_example_node <| p_host := Some 3%positive |>;
     2%positive := plan_example_node <| p_host := Some 3%positive |>;
     3%positive := plan_example_node <| p_hosted := [1%positive; 2%positive] |> ]}.

Lemma unplan_inverts_plan_witness :
  let j := new_JobInfo "1.srv" <| cluster_mode := ClusterCreate |> in
  let n := plan_example_node <| p_host := Some 3%positive |> in
  let spec := mkSpecNode 1 None None 4 1048576 0 0 ScratchNone [] in
  exists n' store' dyn', plan_on_node ∅ toy_parse_nodespec plan_example_store ∅ j 1 spec = Ret (store', dyn') /\
    store' !! 1%positive = Some n' /\ p_core_assigned n' = 4 /\
    (p_is_notusable <$> store' !! 2%positive) = Some true /\
    unplan_from_node ∅ toy_parse_nodespec j n' dyn' spec = (n <| p_is_notusable := true |>, ∅).
Proof.
  intros j n spec.
  destruct (unplan_inverts_plan ∅ toy_parse_nodespec j plan_example_store 1 n ∅ spec [1%positive; 2%positive])
    as (n' & store' & dyn' & E & Hp & Hother & Hc & _ & Hback).
  - reflexivity.
  - destruct plan_example_ok as [H1 H2 H3]. constructor; assumption.
  - exists 3%positive, (plan_example_node <| p_hosted := [1%positive; 2%positive] |>). split_and!; reflexivity.
  - intros q [->|[->|[]%elem_of_nil]%elem_of_cons]%elem_of_cons; eexists; reflexivity.
  - exists n', store', dyn'. split; [exact E|]. split; [exact Hp|]. split; [rewrite Hc; vm_compute; reflexivity|].
    split; [rewrite Hother by done; vm_compute; reflexivity|exact Hback].
Defined.

(** ** A job that fits is planned within capacity *)

(** The counts of a node and a request lie well inside their types. *)
Record moderate (n : node_info) (spec : pars_spec_node) : Prop := {
  mo_total : 0 <= p_core_total (data n) < 2 ^ 30;
  mo_free : 0 <= p_core_free (data n) < 2 ^ 30;
  mo_assigned : 0 <= p_core_assigned n < 2 ^ 30;
  mo_procs : 0 <= procs spec < 2 ^ 30;
  mo_mem : 0 <= mem spec < 2 ^ 61;
  mo_resc : forall r, p_resc (data n) !! "mem"%string = Some r -> sane r
}.

Lemma has_spec_available dyn parse n q j spec scr scr' :
  has_spec dyn parse n q j spec scr = (CheckAvailable, scr') ->
  has_proc n q (is_exclusive parse j) spec = CheckAvailable /\
  has_mem n q spec = CheckAvailable /\
  has_scratch n dyn q spec scr = (CheckAvailable, scr').
Proof.
  unfold has_spec. destruct (has_scratch n dyn q spec scr) as [s scr1].
  destruct (has_proc _ _ _ _), (has_mem _ _ _), s; simpl; intros; by simplify_eq.
Qed.

Lemma can_fit_job_for_run_available db dyn now parse denied n q j spec scr scr' :
  can_fit_job_for_run db dyn now parse denied n q j spec scr = (CheckAvailable, scr') ->
  can_run_job now parse denied n j = CheckAvailable /\
  has_spec dyn parse n q j spec scr = (CheckAvailable, scr') /\
  has_props_run db n spec = CheckAvailable.
Proof.
  unfold can_fit_job_for_run. destruct (has_spec dyn parse n q j spec scr) as [t scr1].
  destruct (can_run_job now parse denied n j), t, (has_props_run db n spec); simpl;
    intros; by simplify_eq.
Qed.

Lemma has_proc_available n q spec excl :
  moderate n spec -> is_admin_queue q = false -> has_proc n q excl spec = CheckAvailable ->
  (if excl then p_core_total (data n) else procs spec) + p_core_assigned n <= p_core_free (data n).
Proof.
  intros [? ? ? ? _ _] Ha. unfold has_proc. rewrite Ha. cbv zeta.
  rewrite (i32_id (p_core_free _ - _)), (i32_id (procs _)) by in_range.
  destruct excl; case_bools; intros; try done; lia.
Qed.

Lemma has_mem_available n q spec r :
  moderate n spec -> is_admin_queue q = false -> p_resc (data n) !! "mem"%string = Some r ->
  has_mem n q spec = CheckAvailable -> p_assign r + mem spec <= supply r.
Proof.
  intros Hmo Hadm Hr. unfold has_mem, get_resource. rewrite Hadm, Hr.
  destruct Hmo as [_ _ _ _ Hme Hsane]. intros [Hle _]%check_numeric_fit_available; [|by apply Hsane].
  rewrite i64_id in Hle by in_range. lia.
Qed.

Lemma can_run_no_cluster now parse denied n j :
  can_run_job now parse denied n j = CheckAvailable -> bool_decide (cluster_mode j = ClusterCreate) = false.
Proof.
  unfold can_run_job. destruct (p_is_notusable n), (placement_missing n j); try done. cbv zeta.
  destruct (is_result _ _), (closes_too_early now n j); try done. by destruct (bool_decide _).
Qed.

(** The memory a request takes: that of the part, and again what its properties
    name as memory. *)
Definition memory_taken (db : RescInfoDb) (spec : pars_spec_node) : Z :=
  mem spec + amount_of (prop_amounts db (properties spec)) "mem".

Lemma node_amounts_mem db s spec :
  0 <= mem spec < 2 ^ 61 -> amount_of (node_amounts db s spec) "mem" = memory_taken db spec.
Proof.
  intros Hm. unfold node_amounts, amount_of, memory_taken. simpl. rewrite sumZ_app, i64_id by in_range.
  unfold scratch_amounts, amount_of. destruct s; simpl; lia.
Qed.

(** C9: A job that [can_fit_job_for_run] accepts for a node creates no cluster, and
    planning it there changes that node alone: it takes its processors, all of the
    node for an exclusive job, and from the node's memory what its part asks for
    and once more what a property named mem asks for.  In an ordinary queue the
    cores handed out are then no more than the server reported free, and the
    memory of the part fits into what is left of the node's; so nothing is handed
    out twice unless a property names the memory again.  In an administrators' queue
    only the slot for administrators was looked at, and it is free. *)
Theorem fitting_job_planned_within_capacity (db : RescInfoDb) (dyn : dyn_map) (now : Z)
    (parse : string -> pars_spec) (denied : string -> string -> string -> bool)
    (store : node_store) (p : positive) (n : node_info) (q : queue_info) (j : JobInfo) (spec : pars_spec_node)
    (scr scr' : ScratchType) (a : JobAssign)
    (Hmo : moderate n spec) (Hok : plan_ok n dyn)
    (Hp : store !! p = Some (n <| assign := a |>))
    (Hfit : can_fit_job_for_run db dyn now parse denied n q j spec scr = (CheckAvailable, scr')) :
  exists n' dyn', plan_on_node db parse store dyn j p spec = Ret (<[p := n']> store, dyn') /\
    p_core_assigned n' = p_core_assigned n + planned_procs parse j n spec /\
    (forall r, p_resc (data n) !! "mem"%string = Some r ->
       p_resc (data n') !! "mem"%string = Some (shift (memory_taken db spec) r)) /\
    if is_admin_queue q then p_admin_slot_avail (data n) = true
    else
      p_core_assigned n' <= p_core_free (data n) /\
      forall r, p_resc (data n) !! "mem"%string = Some r ->
        p_assign r + mem spec <= supply r /\
        (memory_taken db spec = mem spec -> p_assign (shift (memory_taken db spec) r) <= supply r).
Proof.
  apply can_fit_job_for_run_available in Hfit as (Hrun & Hspec & _).
  apply has_spec_available in Hspec as (Hproc & Hm & _). apply can_run_no_cluster in Hrun.
  pose proof (plan_node_spec db parse j (n <| assign := a |>) dyn spec (plan_ok_assigned a n dyn Hok)) as H.
  rewrite (plan_on_node_marked _ _ _ _ _ _ _ _ [] Hp) by (by unfold sisters; rewrite Hrun || intros ? []%elem_of_nil).
  rewrite mark_all_nil, (bool_decide_eq_false_2 (p ∈ [])), mark_false by by intros []%elem_of_nil.
  destruct (plan_node _ _ _ _ _ _) as [n' dyn']. destruct H as (Hc & _ & Hres & _).
  destruct Hmo as [Ht Hf Has Hpr Hme Hsane]. pose proof (Build_moderate _ _ Ht Hf Has Hpr Hme Hsane) as Hmo.
  assert (Hpl : planned_procs parse j n spec = if is_exclusive parse j then p_core_total (data n) else procs spec)
    by (unfold planned_procs; destruct (is_exclusive parse j); [done|apply i32_id; in_range]).
  change (planned_procs parse j (n <| assign := a |>) spec) with (planned_procs parse j n spec) in Hc.
  change (p_core_assigned (n <| assign := a |>)) with (p_core_assigned n) in Hc.
  rewrite i32_id in Hc by (rewrite Hpl; destruct (is_exclusive parse j); in_range).
  exists n', dyn'. split; [reflexivity|]. split; [exact Hc|]. split.
  - intros r Hr. rewrite Hres. change (p_resc (data (n <| assign := a |>))) with (p_resc (data n)). by rewrite Hr, node_amounts_mem.
  - destruct (is_admin_queue q) eqn:Hadm.
    + revert Hproc. unfold has_proc. rewrite Hadm. by destruct (p_admin_slot_avail (data n)), (p_admin_slot_enabled (data n)).
    + apply (has_proc_available _ _ _ _ Hmo Hadm) in Hproc. rewrite Hc, Hpl. split; [lia|]. intros r Hr.
      pose proof (has_mem_available _ _ _ _ Hmo Hadm Hr Hm) as Hle. split; [done|]. intros ->.
      specialize (Hsane r Hr). assert (supply r <= 2 ^ 61).
      { unfold supply. destruct Hsane as (? & ? & ?). repeat case_bool_decide; simpl; lia. }
      destruct Hsane as (? & ? & ?). simpl. rewrite i64_id; in_range.
Qed.

Lemma fitting_job_planned_within_capacity_witness :
  let j := new_JobInfo "1.srv" in
  let spec := mkSpecNode 1 None None 4 1048576 0 0 ScratchNone [] in
  let store : node_store := {[ 1%positive := plan_example_node <| assign := new_JobAssign |> ]} in
  exists n' dyn', plan_on_node ∅ toy_parse_nodespec store ∅ j 1 spec = Ret (<[1%positive := n']> store, dyn') /\
    p_core_assigned n' = 4 /\ p_core_assigned n' <= 8.
Proof.
  intros j spec store.
  destruct (fitting_job_planned_within_capacity ∅ ∅ 0 toy_parse_nodespec (fun _ _ _ => false) store 1
    plan_example_node (new_queue_info "q") j spec ScratchNone ScratchNone new_JobAssign)
    as (n' & dyn' & E & Hc & _ & Hle & _).
  - constructor; [unfold plan_example_node; simpl; lia..|].
    intros r Hr. vm_compute in Hr. injection Hr as <-. vm_compute. intuition congruence.
  - exact plan_example_ok.
  - reflexivity.
  - vm_compute. reflexivity.
  - exists n', dyn'. split; [exact E|]. split; [rewrite Hc; vm_compute; reflexivity|exact Hle].
Defined.

(** A property named mem takes the memory a second time: the job fits, and the node
    is then planned beyond its memory. *)
Lemma memory_property_overcommits :
  let j := new_JobInfo "1.srv" in
  let db : RescInfoDb := {[ "mem"%string := mkRescInfo "mem" "" ResCheckStat ]} in
  let spec := mkSpecNode 1 None None 4 10485760 0 0 ScratchNone [mkProp "mem" (Some "10gb")] in
  let n := plan_example_node <| assign := new_JobAssign |> in
  fst (can_fit_job_for_run db ∅ 0 toy_parse_nodespec (fun _ _ _ => false) n (new_queue_info "q") j spec ScratchNone) = CheckAvailable /\
  (let! (store, _) := plan_on_node db toy_parse_nodespec {[ 1%positive := n ]} ∅ j 1 spec in
   let! n' := of_option (store !! 1%positive) in
   Ret ((fun r => (p_assign r, supply r)) <$> p_resc (data n') !! "mem"%string)) = Ret (Some (20971520, 16777216)).
Proof. split; vm_compute; reflexivity. Qed.

(** ** A defect of the cluster test

    The inverted test of the cluster name makes every node refuse every job
    that asks for an existing virtual cluster. *)
Lemma cluster_use_jobs_never_run now parse denied n j :
  cluster_mode j = ClusterUse -> can_run_job now parse denied n j = CheckNonFit.
Proof.
  intros Hc. unfold can_run_job. rewrite Hc.
  destruct (p_is_notusable n), (placement_missing n j); try done.
  destruct (is_result _ _); [done|]. destruct (closes_too_early _ _ _); [done|]. simpl.
  destruct (_ && _); [done|]. destruct (_ && _); [done|].
  destruct (String.eqb_spec (cluster_name j) ""); simpl; [|done].
  destruct (get_resource (data n) "machine_cluster") as [r|]; [|done].
  destruct (String.eqb_spec (p_str_val r) ""); [done|].
  destruct (String.eqb_spec (p_str_val r) (cluster_name j)); simpl; [congruence|done].
Qed.
