(* ===== verification/NodeExpand.v ===== *)
(** * Virtual copies of a node: node_info::expand_virtual_nodes of NodeInfo.cpp

    For each job that runs on a node, in the order the jobs end, a copy of the node
    is made as it will be after the job.  The call in [query_server] is commented
    out, so that nodes have no copies in the other files. *)

From Stdlib Require Import ZArith Lia Bool Ascii String.
From S2P Require Import Prelude CString CFloat MiscHelpers Resource DataTypes NodeData JobInfo StateCount QueueInfo ServerInfo NodeLogic NodeInfo JobPlan.

Local Open Scope string_scope.
Open Scope Z_scope.
Local Open Scope sched_scope.

Definition compare_job_ends (left right : JobInfo) : bool := completion_time left <? completion_time right.

(** [std::set] with this order holds one of the jobs that end at the same time: the
    first one that was inserted. *)
Fixpoint insert_running (j : JobInfo) (l : list JobInfo) : list JobInfo :=
  match l with
  | [] => [j]
  | k :: l' => if compare_job_ends j k then j :: l else if compare_job_ends k j then k :: insert_running j l' else l
  end.

(** The text behind the first slash; all of it when there is none. *)
Definition name_of_job (s : string) : string := match split_at s "/" with (_, Some t) => t | (t, None) => t end.

(** The names, in the order of the [set]. *)
Definition running_names (n : node_info) : list string :=
  isort String.ltb (elements (set_map name_of_job (p_jobs (data n)) : gset string)).

Definition running_on (running : list JobInfo) (n : node_info) : list JobInfo :=
  fold_left (fun l name => match list_find (fun j => job_id j = name) running with Some (_, j) => insert_running j l | None => l end)
    (running_names n) [].

(** What the copy constructor leaves uninitialised. *)
Record uncopied := mkUncopied {
  un_jobs_on_cpu : option (list (option positive));
  un_walltime_limit_min : Z;
  un_walltime_limit_max : Z;
  un_cluster_name : option string
}.

Definition copy_node_info (junk : uncopied) (src : node_info) : node_info :=
  src <| alternatives := dup_bootable_alternatives (alternatives src) |>
      <| jobs_on_cpu := un_jobs_on_cpu junk |> <| walltime_limit_min := un_walltime_limit_min junk |>
      <| walltime_limit_max := un_walltime_limit_max junk |> <| nd_cluster_name := un_cluster_name junk |>.

(** The first part of a nodespec for the node; a part without a host is compared
    with a null pointer. *)
Fixpoint part_of_host (name : string) (parts : list pars_spec_node) : outcome (option pars_spec_node) :=
  match parts with
  | [] => Ret None
  | s :: parts =>
      let! h := of_option (host s) in
      if String.eqb name h then Ret (Some s) else part_of_host name parts
  end.

Section Expand.
Variable db : RescInfoDb.
Variable parse_nodespec : string -> pars_spec.
Variable junk : uncopied.

(** The copy of [source] after the job: the dynamic resources are given back as
    well. *)
Definition copy_after (self : positive) (source : node_info) (j : JobInfo) (dyn : dyn_map) (spec : pars_spec_node)
  : node_info * dyn_map :=
  let slave := copy_node_info junk source <| p_phys_node := Some self |> in
  let (slave, dyn) := unplan_from_node db parse_nodespec j slave dyn spec in
  let waiting := if String.eqb (p_waiting_on_jobs source) "" then job_id j else p_waiting_on_jobs slave ++ ", " ++ job_id j in
  (slave <| data := data slave <| p_avail_after := completion_time j |> |> <| p_waiting_on_jobs := waiting |>, dyn).

Fixpoint expand_jobs (self : positive) (name : string) (jobs : list JobInfo) (source : positive) (st : node_store) (dyn : dyn_map)
  : outcome (node_store * dyn_map) :=
  match jobs with
  | [] => Ret (st, dyn)
  | j :: jobs =>
      let! spec := part_of_host name (spec_nodes (parse_nodespec (sched_nodespec j))) in
      match spec with
      | None => expand_jobs self name jobs source st dyn
      | Some spec =>
          let! src := of_option (st !! source) in
          let! me := of_option (st !! self) in
          let p := fresh (dom st) in
          let (slave, dyn) := copy_after self src j dyn spec in
          let st := <[p := slave]> (<[self := me <| p_slave_nodes := (p_slave_nodes me ++ [p])%list |>]> st) in
          expand_jobs self name jobs p st dyn
      end
  end.

(** The assertions end the program. *)
Definition expand_virtual_nodes (running : list JobInfo) (st : node_store) (dyn : dyn_map) (self : positive)
  : outcome (node_store * dyn_map) :=
  let! n := of_option (st !! self) in
  let! phys := physical_node st n in
  if virtual_assignment (assign phys) || has_assignment (assign n) then Throw "assert"
  else if is_virtual_node n then Throw "assert"
  else expand_jobs self (node_name n) (running_on running n) self st dyn.
End Expand.

(** ** The copies come in the order the jobs end *)

Definition ends_before (l : list JobInfo) : Prop := ordered (fun a b => completion_time a <=? completion_time b) l.

(** Strictly: no two jobs end at the same time. *)
Lemma insert_running_ends j l : ends_before l -> ends_before (insert_running j l) /\ (forall k, k ∈ insert_running j l -> k = j \/ k ∈ l).
Proof.
  unfold ends_before, compare_job_ends. induction l as [|k l IH]; cbn [insert_running ordered].
  { intros _. split; [split; [constructor|done]|]. intros x Hx%list_elem_of_singleton. by left. }
  intros [Hk Hl]. unfold compare_job_ends. destruct (Z.ltb_spec (completion_time j) (completion_time k)) as [Hlt|Hge].
  { split; [cbn; split; [|by split]|intros x [->|Hx]%elem_of_cons; [by left|by right]]. constructor; [apply Z.leb_gt; lia|].
    eapply Forall_impl; [exact Hk|]. intros x Hx%Z.leb_gt. apply Z.leb_gt. lia. }
  destruct (Z.ltb_spec (completion_time k) (completion_time j)) as [Hlt|Hge']; [|split; [by cbn; split|by right]].
  destruct (IH Hl) as [IH1 IH2]. split.
  - cbn. split; [|done]. apply Forall_forall. intros x [->|Hx]%IH2; [apply Z.leb_gt; lia|].
    by apply (proj1 (Forall_forall _ _) Hk).
  - intros x [->|[->|Hx]%IH2]%elem_of_cons; [right; by left|by left|right; by right].
Qed.

Lemma running_on_ends running n : ends_before (running_on running n).
Proof.
  unfold running_on. generalize (running_names n) as names. assert (H : ends_before []) by done. revert H.
  generalize (@nil JobInfo) as l. intros l H names. revert l H. induction names as [|name names IH]; intros l H; [done|]. cbn [fold_left].
  apply IH. destruct (list_find _ _) as [[i j]|]; [|done]. by apply insert_running_ends.
Qed.

Section Copies.
Context (db : RescInfoDb) (parse : string -> pars_spec) (junk : uncopied).

Lemma with_resource_phys n name f : p_phys_node (with_resource n name f) = p_phys_node n.
Proof. unfold with_resource. by destruct (get_resource _ _). Qed.

Lemma plan_props_phys op n props : p_phys_node (plan_props db op n props) = p_phys_node n.
Proof.
  revert n. induction props as [|p props IH]; intros n; cbn [plan_props]; [done|]. destruct (prop_value p); [|apply IH].
  destruct (negb _); rewrite IH; [|done]. apply with_resource_phys.
Qed.

Lemma copy_after_spec self source j dyn spec :
  let n := fst (copy_after db parse junk self source j dyn spec) in
  p_phys_node n = Some self /\ p_avail_after (data n) = completion_time j.
Proof.
  unfold copy_after, unplan_from_node, plan_scratch. cbv zeta.
  repeat case_match; simplify_eq; cbn; (split; [|done]); by rewrite plan_props_phys, ?with_resource_phys.
Qed.

(** A copy of [self] as it will be when the job has ended. *)
Definition copy_for (st : node_store) (self p : positive) (j : JobInfo) : Prop :=
  exists n, st !! p = Some n /\ p_phys_node n = Some self /\ p_avail_after (data n) = completion_time j.

Lemma expand_jobs_spec self name jobs : forall source st dyn st' dyn' me,
  st !! self = Some me -> expand_jobs db parse junk self name jobs source st dyn = Ret (st', dyn') ->
  exists new js, st' !! self = Some (me <| p_slave_nodes := (p_slave_nodes me ++ new)%list |>) /\ js `sublist_of` jobs /\
    Forall2 (copy_for st' self) new js /\ NoDup new /\
    (forall p, p ∈ new -> st !! p = None) /\ (forall p, p <> self -> p ∉ new -> st' !! p = st !! p).
Proof.
  induction jobs as [|j jobs IH]; intros source st dyn st' dyn' me Hme; cbn [expand_jobs].
  { intros [= <- _]. exists [], []. rewrite app_nil_r. split_and!; [by destruct me|done|done|apply NoDup_nil; done|by intros p H%elem_of_nil|done]. }
  destruct (part_of_host _ _) as [[spec|]| |]; cbn [obind]; [| |done..].
  2: { intros H. destruct (IH _ _ _ _ _ _ Hme H) as (new & js & H1 & H2 & H3). exists new, js. split_and!; [done|by constructor|apply H3..]. }
  destruct (st !! source) as [src|]; cbn [of_option obind]; [|done]. rewrite Hme. cbn [of_option obind].
  set (p := fresh (dom st)). assert (Hp : st !! p = None) by (apply not_elem_of_dom, is_fresh).
  pose proof (copy_after_spec self src j dyn spec) as Hc. destruct (copy_after _ _ _ _ _ _ _ _) as [slave dyn1]. cbn [fst] in Hc.
  assert (Hne : p <> self) by (intros ->; congruence). intros H.
  eapply (IH _ _ _ _ _ (me <| p_slave_nodes := (p_slave_nodes me ++ [p])%list |>)) in H; [|by rewrite lookup_insert_ne, lookup_insert_eq].
  destruct H as (new & js & H1 & H2 & H3 & H4 & H5 & H6).
  assert (Hpn : p ∉ new) by (intros Hin%H5; by rewrite lookup_insert_eq in Hin).
  exists (p :: new), (j :: js). split_and!.
  - rewrite H1. cbn. by rewrite <- (assoc_L (++)).
  - by constructor.
  - constructor; [|done]. exists slave. split; [|done]. rewrite H6 by done. by rewrite lookup_insert_eq.
  - by constructor.
  - intros q [->|Hq]%elem_of_cons; [done|]. pose proof (H5 q Hq) as Hn. rewrite lookup_insert_ne in Hn by congruence.
    destruct (decide (q = self)) as [->|Hqs]; [by rewrite lookup_insert_eq in Hn|]. by rewrite lookup_insert_ne in Hn.
  - intros q Hq [Hqp Hqn]%not_elem_of_cons. rewrite H6 by done. by rewrite !lookup_insert_ne by done.
Qed.

(** The copies of a node are new nodes with it as their physical node, one for each
    of some of the jobs that run on it, available strictly later one after the other;
    the node itself only gets to know them, and no other node changes. *)
Theorem copies_become_available_in_order running st dyn self st' dyn' n :
  st !! self = Some n -> expand_virtual_nodes db parse junk running st dyn self = Ret (st', dyn') ->
  exists new js, st' !! self = Some (n <| p_slave_nodes := (p_slave_nodes n ++ new)%list |>) /\
    Forall2 (copy_for st' self) new js /\ ends_before js /\ js `sublist_of` running_on running n /\ NoDup new /\
    (forall p, p ∈ new -> st !! p = None) /\ (forall p, p <> self -> p ∉ new -> st' !! p = st !! p).
Proof.
  intros Hn. unfold expand_virtual_nodes. rewrite Hn. cbn [of_option obind].
  destruct (physical_node st n) as [phys| |]; cbn [obind]; [|done..]. destruct (_ || _); [done|]. destruct (is_virtual_node n); [done|].
  intros (new & js & H1 & H2 & H3 & H4 & H5 & H6)%(expand_jobs_spec _ _ _ _ _ _ _ _ n); [|done]. exists new, js. split_and!; try done.
  pose proof (running_on_ends running n) as He. revert He. unfold ends_before. clear -H2.
  induction H2 as [|j l k H IH|j l k H IH]; cbn; [done| |]; intros [Hf Ho]; [split; [|auto]|auto].
  apply Forall_forall. intros x Hx. apply (proj1 (Forall_forall _ _) Hf). by eapply elem_of_submseteq, sublist_submseteq.
Qed.
End Copies.

(** ** An example: a job that ends together with another has no copy *)

Definition an_ending_job (id : string) (start : Z) : JobInfo :=
  new_JobInfo id <| sched_nodespec := "n1" |> <| state := JobRunning |> <| stime := start |> <| resreq := [mkReq "walltime" 100 None] |>.

Definition an_ending_node : node_info :=
  new_node_info (new_NodeData "n1" 4 4 false <| p_jobs := {["0/1.srv"; "1/2.srv"; "2/3.srv"]} |>) MagratheaStateNone.

Lemma one_copy_for_jobs_that_end_together :
  running_on [an_ending_job "1.srv" 5; an_ending_job "2.srv" 5; an_ending_job "3.srv" 1] an_ending_node =
    [an_ending_job "3.srv" 1; an_ending_job "1.srv" 5].
Proof. vm_compute. reflexivity. Qed.
