(* ===== verification/Assign.v ===== *)
(** * Assigning nodes to a job: nodespec.cpp

    The request of a job is matched node specification by node specification:
    [assign_node] takes the first node, in the order of [NodeStateSort], that
    fits now, [ondemand_reboot] the first that could be booted.  The state is
    the node store, where the assignments are recorded, and the schedule of the
    job. *)

From Stdlib Require Import ZArith Lia Bool Ascii String SpecFloat.
From S2P Require Import Prelude CString CFloat MiscHelpers Config Resource PropRegistry DataTypes NodeData JobInfo StateCount QueueInfo ServerInfo NodeLogic NodeInfo JobPlan.

Open Scope Z_scope.
Local Open Scope sched_scope.

(** The node store and [jinfo->schedule]. *)
Definition asg : Type := node_store * list positive.

Definition set_node_assign (st : node_store) (p : positive) (f : JobAssign -> JobAssign) : node_store :=
  match st !! p with
  | None => st
  | Some n => <[p := n <| assign := f (assign n) |>]> st
  end.

(** [set_assignment], [set_scratch_assign], [set_selected_alternative]. *)
Definition record_assignment (st : node_store) (p : positive) (spec : pars_spec_node)
    (scr : ScratchType) (ra : option repository_alternatives) : node_store :=
  set_node_assign st p (fun a =>
    a <| assignment := Some spec |> <| scratch_assign := scr |> <| boot_alternative := ra |>).

(** [physical_node()] as a pointer. *)
Definition physical (p : positive) (n : node_info) : positive :=
  match p_phys_node n with Some q => q | None => p end.

Definition nodes_preassign_clean (st : node_store) (nodes : list positive) : node_store :=
  fold_left (fun st p => set_node_assign st p clean_JobAssign) nodes st.

Section Assign.
Variable db : RescInfoDb.
Variable dyn : gmap string Dyn.DynamicResource.
Variable now : Z.
Variable parse_nodespec : string -> pars_spec.
Variable user_denied : string -> string -> string -> bool.
Variable overlimit : bool.
(** The queue of the job. *)
Variable q : queue_info.

(** The specification an exclusive job is assigned: all of the node. *)
Definition assigned_spec (j : JobInfo) (n : node_info) (spec : pars_spec_node) : pars_spec_node :=
  if is_exclusive parse_nodespec j then
    mkSpecNode (node_count spec) (alternative spec) (host spec) (u32 (p_core_total (data n)))
      (get_mem_total n) (vmem spec) (scratch spec) (scratch_type spec) (properties spec)
  else spec.

(** The node, or its physical node, already serves this cycle's assignment. *)
Definition node_taken (st : node_store) (n : node_info) : outcome bool :=
  let! phys := physical_node st n in
  Ret (virtual_assignment (assign phys) || has_assignment (assign n)).

(** The loop of [assign_node]; the scratch and alternative found for a node
    that did not fit stay in the out parameters. *)
Fixpoint assign_node (st : asg) (j : JobInfo) (spec : pars_spec_node) (nodes : list positive)
    (scr : ScratchType) (ra : option repository_alternatives) : outcome (Z * asg) :=
  match nodes with
  | [] => Ret (1, st)
  | p :: nodes' =>
      let! n := of_option (fst st !! p) in
      let! busy := node_taken (fst st) n in
      if busy then assign_node st j spec nodes' scr ra
      else
        let! (test, scr, ra) :=
          if negb (bool_decide (cluster_mode j = ClusterCreate)) then
            let '(t, s) := can_fit_job_for_run db dyn now parse_nodespec user_denied n q j spec scr in
            Ret (t, s, ra)
          else
            can_fit_job_for_boot db dyn (fst st) now parse_nodespec user_denied overlimit n q j spec scr ra in
        if negb (is_result test CheckAvailable) then assign_node st j spec nodes' scr ra
        else
          Ret (0, (record_assignment (fst st) p (assigned_spec j n spec) scr ra, snd st ++ [p]))
  end.

Fixpoint reboot_loop (st : asg) (j : JobInfo) (spec : pars_spec_node) (nodes : list positive)
    (scr : ScratchType) (ra : option repository_alternatives) : outcome (Z * asg) :=
  match nodes with
  | [] => Ret (1, st)
  | p :: nodes' =>
      let! n := of_option (fst st !! p) in
      let! busy := node_taken (fst st) n in
      if busy then reboot_loop st j spec nodes' scr ra
      else
        let! (test, scr, ra) :=
          can_fit_job_for_boot db dyn (fst st) now parse_nodespec user_denied overlimit n q j spec scr ra in
        if negb (is_result test CheckAvailable) then reboot_loop st j spec nodes' scr ra
        else
          let pp := physical p n in
          Ret (0, (record_assignment (fst st) pp spec scr ra, snd st ++ [pp]))
  end.

Definition ondemand_reboot (st : asg) (j : JobInfo) (spec : pars_spec_node) (nodes : list positive)
  : outcome (Z * asg) :=
  if negb (bool_decide (cluster_mode j = ClusterNone)) then Ret (2, st)
  else reboot_loop st j spec nodes ScratchNone None.

(** The loop of [try_assign_nodes], once for each of the [count] nodes left. *)
Fixpoint try_assign_loop (count : nat) (st : asg) (j : JobInfo) (spec : pars_spec_node)
    (run_nodes boot_nodes : list positive) : outcome (CheckResult * asg) :=
  match count with
  | O => Ret (CheckAvailable, st)
  | S count =>
      let! (run_ret, st) :=
        match run_nodes with
        | [] => Ret (2, st)
        | _ => assign_node st j spec run_nodes ScratchNone None
        end in
      if run_ret =? 0 then try_assign_loop count st j spec run_nodes boot_nodes
      else
        let! (boot_ret, st) :=
          match boot_nodes with
          | [] => Ret (2, st)
          | _ => ondemand_reboot st j spec boot_nodes
          end in
        if boot_ret =? 0 then try_assign_loop count st j spec run_nodes boot_nodes
        else if (run_ret =? 2) && (boot_ret =? 2) then Ret (CheckNonFit, st)
        else Ret (CheckOccupied, st)
  end.

Definition try_assign_nodes (st : asg) (j : JobInfo) (spec : pars_spec_node)
    (run_nodes boot_nodes : list positive) : outcome (CheckResult * asg) :=
  try_assign_loop (Z.to_nat (node_count spec)) st j spec run_nodes boot_nodes.

Definition node_lt_in (st : node_store) (a b : positive) : bool :=
  match st !! a, st !! b with
  | Some x, Some y => node_lt x y
  | _, _ => false
  end.

Definition sort_nodes (st : node_store) (l : list positive) : list positive :=
  isort (node_lt_in st) l.

Definition node_names (st : node_store) (l : list positive) : gset string :=
  list_to_set (omap (fun p => node_name <$> st !! p) l).

Fixpoint try_assign_specs (st : asg) (j : JobInfo) (nodes : list positive)
    (specs : list pars_spec_node) (result : CheckResult) : outcome (CheckResult * asg) :=
  match specs with
  | [] => Ret (result, st)
  | iter :: specs' =>
      let! reboot_nodes :=
        filter_nodes (fst st) (fun n =>
          node_suitable_for_spec db dyn (fst st) now parse_nodespec user_denied overlimit n q j iter
            SuitableRebootMode) nodes in
      let fit_nodes := nodes in
      if Z.of_nat (size (node_names (fst st) (fit_nodes ++ reboot_nodes))) <? node_count iter
      then Ret (CheckNonFit, st)
      else
        let! (ret, st) := try_assign_nodes st j iter (sort_nodes (fst st) fit_nodes)
                            (sort_nodes (fst st) reboot_nodes) in
        if is_result ret CheckNonFit then Ret (CheckNonFit, st)
        else try_assign_specs st j nodes specs' (if is_result ret CheckOccupied then CheckOccupied else result)
  end.

Definition try_assign_spec (st : asg) (j : JobInfo) (nodes : list positive)
  : outcome (CheckResult * asg) :=
  try_assign_specs st j nodes (spec_nodes (parsed_nodespec parse_nodespec j)) CheckAvailable.

(** The nodes whose string resource [prop_id] has the value [i]. *)
Definition nodes_at (st : node_store) (prop_id i : nat) (nodes : list positive) : list positive :=
  List.filter (fun p => match st !! p with
                        | Some n => has_reg_prop (data n) prop_id (Z.of_nat i)
                        | None => false
                        end) nodes.

(** The loop over the values of the placement resource, from [i] on. *)
Fixpoint find_nodes_loop (count i : nat) (prop_id : nat) (st : asg) (j : JobInfo)
    (nodes : list positive) (result : CheckResult) : outcome (CheckResult * asg) :=
  match count with
  | O => Ret (result, st)
  | S count =>
      let st := (nodes_preassign_clean (fst st) nodes, []) in
      let! (ret, st) := try_assign_spec st j (nodes_at (fst st) prop_id i nodes) in
      match ret with
      | CheckAvailable => Ret (CheckAvailable, st)
      | CheckOccupied => find_nodes_loop count (S i) prop_id st j nodes CheckOccupied
      | CheckNonFit => find_nodes_loop count (S i) prop_id st j nodes result
      end
  end.

Definition find_nodes (reg : PropRegistry) (st : asg) (j : JobInfo) (nodes : list positive)
  : outcome (CheckResult * asg) :=
  if negb (String.eqb (placement j) "") then
    let '(found, prop_id) := get_property_id reg (placement j) in
    if negb found then
      Throw "Mismatch state, validity of registry should have been already checked."
    else
      let! (_, max_val_id) := of_option (value_count reg prop_id) in
      find_nodes_loop max_val_id 0 prop_id st j nodes CheckNonFit
  else try_assign_spec st j nodes.
End Assign.

(** The string that asks the server to run the job: the assigned nodes. *)
Definition get_target_full (db : RescInfoDb) (j : JobInfo) (n : node_info) (cluster : bool)
  : outcome string :=
  if negb (has_assignment (assign n)) then Ret ""%string
  else
    get_assign_string db (assign n) (node_name n)
      (if bool_decide (cluster_mode j = ClusterCreate) || cluster then RescOnlyAssignString
       else FullAssignString).

Fixpoint join_targets (db : RescInfoDb) (st : node_store) (j : JobInfo) (cluster first : bool)
    (sched : list positive) : outcome string :=
  match sched with
  | [] => Ret ""%string
  | p :: sched' =>
      let! n := of_option (st !! p) in
      let! t := get_target_full db j n cluster in
      let! rest := join_targets db st j cluster false sched' in
      Ret ((if first then "" else "+") ++ t ++ rest)%string
  end.

Definition booting_assigned (st : node_store) (nodes : list positive) : bool :=
  existsb (fun p => match st !! p with
                    | Some n => has_assignment (assign n)
                                && bool_decide (magrathea_status n = MagratheaStateBooting)
                    | None => false
                    end) nodes.

(** The string ([None] is NULL), [booting] and [minspec]. *)
Definition nodes_preassign_string (db : RescInfoDb) (parse_nodespec : string -> pars_spec)
    (st : node_store) (j : JobInfo) (nodes : list positive)
  : outcome (option string * Z * spec_float) :=
  let minus1 := fof_Z (F := binary64) (-1) in
  if booting_assigned st nodes then Ret (None, 1, minus1)
  else
    let cluster := existsb (fun p => match st !! p with
                                     | Some n => has_selected_alternative (assign n)
                                     | None => false
                                     end) nodes in
    let! s := join_targets db st j cluster true (schedule j) in
    let minspec := fold_left (fun m p =>
      match st !! p with
      | Some n =>
          if feq m minus1 then p_node_spec (data n)
          else if flt (p_node_spec (data n)) m then p_node_spec (data n) else m
      | None => m
      end) (schedule j) minus1 in
    Ret (Some (s ++ if is_exclusive parse_nodespec j then "#excl" else "")%string, 0, minspec).

(** ** What an assignment round does

    Virtual nodes are the slave nodes of a physical node.  [query_server] has
    the loop that would create them ([expand_virtual_nodes]) commented out, so
    that the nodes of a cycle are their own physical nodes. *)

Definition no_slaves (st : node_store) : Prop :=
  forall p n, st !! p = Some n -> p_phys_node n = None.

Section AssignFacts.
Variable db : RescInfoDb.
Variable dyn : gmap string Dyn.DynamicResource.
Variable now : Z.
Variable parse_nodespec : string -> pars_spec.
Variable user_denied : string -> string -> string -> bool.
Variable overlimit : bool.
Variable q : queue_info.
Variable j : JobInfo.

Notation assign_node' := (assign_node db dyn now parse_nodespec user_denied overlimit q).
Notation reboot_loop' := (reboot_loop db dyn now parse_nodespec user_denied overlimit q).
Notation try_assign_loop' := (try_assign_loop db dyn now parse_nodespec user_denied overlimit q).
Notation try_assign_specs' := (try_assign_specs db dyn now parse_nodespec user_denied overlimit q).

(** The node fits the specification now, to run the job or to be booted for it. *)
Definition fits_now (n : node_info) (spec : pars_spec_node) : Prop :=
  (exists scr scr', can_fit_job_for_run db dyn now parse_nodespec user_denied n q j spec scr
                    = (CheckAvailable, scr')) \/
  (exists st scr ra scr' ra',
     can_fit_job_for_boot db dyn st now parse_nodespec user_denied overlimit n q j spec scr ra
     = Ret (CheckAvailable, scr', ra')).

(** [p] was free and fitting in [st], and is assigned in [st']. *)
Definition newly_assigned (specs : list pars_spec_node) (st st' : node_store) (p : positive) : Prop :=
  exists n n' spec, st !! p = Some n /\ has_assignment (assign n) = false /\
    spec ∈ specs /\ fits_now n spec /\
    st' !! p = Some n' /\ has_assignment (assign n') = true /\ p_phys_node n' = p_phys_node n.

(** The schedule grows by the newly assigned nodes; no other node changes. *)
Definition grows (specs : list pars_spec_node) (k : nat) (a a' : asg) : Prop :=
  exists new, snd a' = snd a ++ new /\ length new = k /\ NoDup new /\
    (forall p, p ∉ new -> fst a' !! p = fst a !! p) /\
    (forall p, p ∈ new -> newly_assigned specs (fst a) (fst a') p).

Lemma grows_refl specs a : grows specs 0 a a.
Proof. exists []. rewrite app_nil_r. split_and!; [done|done|constructor|done|]. by intros p ?%elem_of_nil. Qed.

Lemma grows_weaken specs specs' k a a' : (forall s, s ∈ specs -> s ∈ specs') -> grows specs k a a' -> grows specs' k a a'.
Proof.
  intros Hs (new & ? & ? & ? & ? & Hnew). exists new. split_and!; try done.
  intros p Hp. destruct (Hnew p Hp) as (n & n' & spec & ? & ? & ? & ?).
  exists n, n', spec. eauto.
Qed.

Lemma grows_trans specs k1 k2 a b c :
  grows specs k1 a b -> grows specs k2 b c -> grows specs (k1 + k2) a c.
Proof.
  intros (n1 & E1 & L1 & D1 & F1 & H1) (n2 & E2 & L2 & D2 & F2 & H2).
  assert (Hdisj : forall p, p ∈ n1 -> p ∉ n2).
  { intros p Hp1 Hp2. destruct (H1 p Hp1) as (? & m & ? & ? & ? & ? & ? & Hm & Ha & ?).
    destruct (H2 p Hp2) as (m' & ? & ? & Hm' & Ha' & ?). congruence. }
  exists (n1 ++ n2). split_and!.
  - by rewrite E2, E1, (assoc_L (++)).
  - rewrite length_app. lia.
  - by apply NoDup_app.
  - intros p [Hp1 Hp2]%not_elem_of_app. by rewrite F2, F1.
  - intros p [Hp|Hp]%elem_of_app.
    + destruct (H1 p Hp) as (n & n' & spec & ? & ? & ? & ? & ? & ? & ?).
      exists n, n', spec. rewrite F2 by by apply Hdisj. split_and!; done.
    + destruct (H2 p Hp) as (n & n' & spec & ? & ? & ? & ? & ? & ? & ?).
      exists n, n', spec. rewrite <- F1 by (intros ?; by eapply Hdisj). split_and!; done.
Qed.

Lemma grows_no_slaves specs k a a' : grows specs k a a' -> no_slaves (fst a) -> no_slaves (fst a').
Proof.
  intros (new & _ & _ & _ & F & H) Hn p n Hp. destruct (decide (p ∈ new)) as [Hin|Hin].
  - destruct (H p Hin) as (m & m' & ? & Hm & ? & ? & ? & Hm' & ? & Hph).
    simplify_eq. rewrite Hph. by eapply Hn.
  - rewrite F in Hp by done. by eapply Hn.
Qed.

Lemma record_grows specs st sched p n spec spec' scr ra :
  st !! p = Some n -> has_assignment (assign n) = false -> spec ∈ specs -> fits_now n spec ->
  grows specs 1 (st, sched) (record_assignment st p spec' scr ra, sched ++ [p]).
Proof.
  intros Hp Ha Hs Hf. exists [p]. unfold record_assignment, set_node_assign. rewrite Hp.
  split_and!; [done|done|apply NoDup_singleton| |].
  - intros p' Hp'. simpl. rewrite lookup_insert_ne; [done|]. intros ->. apply Hp'. by left.
  - intros p' ->%list_elem_of_singleton.
    eexists n, (n <| assign := _ |>), spec. simpl. rewrite lookup_insert_eq.
    do 4 (split; [done|]). split; [reflexivity|done].
Qed.

Lemma taken_false st n : node_taken st n = Ret false -> has_assignment (assign n) = false.
Proof.
  unfold node_taken. destruct (physical_node st n); simpl; [|done..]. intros [= H].
  by apply orb_false_iff in H as [_ ?].
Qed.

Lemma assign_node_grows specs a spec nodes scr ra rc a' :
  spec ∈ specs -> assign_node' a j spec nodes scr ra = Ret (rc, a') ->
  (rc = 0 /\ grows specs 1 a a') \/ (rc = 1 /\ a' = a).
Proof.
  intros Hs. revert scr ra. induction nodes as [|p nodes IH]; intros scr ra; simpl.
  { intros [= <- <-]. by right. }
  destruct (fst a !! p) as [n|] eqn:Ep; simpl; [|done].
  destruct (node_taken (fst a) n) as [[]| |] eqn:Et; simpl; [apply IH| |done..].
  apply taken_false in Et. destruct a as [st sched]. simpl in *.
  destruct (bool_decide (cluster_mode j = ClusterCreate)); simpl.
  - destruct (can_fit_job_for_boot _ _ _ _ _ _ _ _ _ _ _ _ _) as [[[t s'] ra']| |] eqn:Ef; simpl; [|done..].
    destruct t; simpl; [|apply IH|apply IH].
    intros [= <- <-]. left. split; [done|]. eapply record_grows; eauto. right. eauto 6.
  - destruct (can_fit_job_for_run _ _ _ _ _ _ _ _ _ _) as [t s'] eqn:Ef; simpl.
    destruct t; simpl; [|apply IH|apply IH].
    intros [= <- <-]. left. split; [done|]. eapply record_grows; eauto. left. eauto.
Qed.

Lemma reboot_loop_grows specs a spec nodes scr ra rc a' :
  spec ∈ specs -> no_slaves (fst a) -> reboot_loop' a j spec nodes scr ra = Ret (rc, a') ->
  (rc = 0 /\ grows specs 1 a a') \/ (rc = 1 /\ a' = a).
Proof.
  intros Hs Hns. revert scr ra. induction nodes as [|p nodes IH]; intros scr ra; simpl.
  { intros [= <- <-]. by right. }
  destruct (fst a !! p) as [n|] eqn:Ep; simpl; [|done].
  destruct (node_taken (fst a) n) as [[]| |] eqn:Et; simpl; [apply IH| |done..].
  apply taken_false in Et. destruct a as [st sched]. simpl in *.
  destruct (can_fit_job_for_boot _ _ _ _ _ _ _ _ _ _ _ _ _) as [[[t s'] ra']| |] eqn:Ef; simpl; [|done..].
  destruct t; simpl; [|apply IH|apply IH].
  assert (Hphys : physical p n = p) by (unfold physical; by rewrite (Hns _ _ Ep)).
  intros [= <- <-]. rewrite Hphys. left. split; [done|].
  eapply record_grows; eauto. right. eauto 6.
Qed.

Lemma try_assign_loop_grows specs count a spec run boot r a' :
  spec ∈ specs -> no_slaves (fst a) -> try_assign_loop' count a j spec run boot = Ret (r, a') ->
  exists k, grows specs k a a' /\ (r = CheckAvailable -> k = count).
Proof.
  intros Hs. revert a. induction count as [|count IH]; intros a Hns; cbn [try_assign_loop].
  { intros [= <- <-]. exists 0%nat. split; [apply grows_refl|done]. }
  match goal with |- obind ?x _ = _ -> _ => destruct x as [[rr a1]| |] eqn:Ex end;
    cbn [obind]; [|done..].
  assert (H1 : (rr = 0 /\ grows specs 1 a a1) \/ (rr <> 0 /\ a1 = a)).
  { destruct run as [|p run]; [injection Ex as <- <-; right; split; [lia|done]|].
    destruct (assign_node_grows specs _ _ _ _ _ _ _ Hs Ex) as [?|[-> ->]]; [by left|right; split; [lia|done]]. }
  assert (Hstep : forall b, grows specs 1 a b -> try_assign_loop' count b j spec run boot = Ret (r, a') ->
    exists k, grows specs k a a' /\ (r = CheckAvailable -> k = S count)).
  { intros b Hb Hc. destruct (IH b) as (k & Hk & Hr); [by eapply grows_no_slaves|done|].
    exists (1 + k)%nat. split; [by eapply grows_trans|]. intros. rewrite Hr; done. }
  destruct H1 as [[-> Hg]|[Hne ->]]; [by apply Hstep|].
  apply Z.eqb_neq in Hne as ->.
  match goal with |- obind ?x _ = _ -> _ => destruct x as [[br a2]| |] eqn:Ey end;
    cbn [obind]; [|done..].
  assert (H2 : (br = 0 /\ grows specs 1 a a2) \/ (br <> 0 /\ a2 = a)).
  { destruct boot as [|p boot]; [injection Ey as <- <-; right; split; [lia|done]|].
    unfold ondemand_reboot in Ey. destruct (negb _); [injection Ey as <- <-; right; split; [lia|done]|].
    destruct (reboot_loop_grows specs _ _ _ _ _ _ _ Hs Hns Ey) as [?|[-> ->]]; [by left|right; split; [lia|done]]. }
  destruct H2 as [[-> Hg]|[Hne2 ->]]; [by apply Hstep|].
  apply Z.eqb_neq in Hne2 as ->.
  destruct (_ && _); intros [= <- <-]; exists 0%nat; (split; [apply grows_refl|done]).
Qed.

(** The nodes a request asks for. *)
Definition nodes_requested (specs : list pars_spec_node) : nat :=
  sum_list_with (fun s => Z.to_nat (node_count s)) specs.

Lemma try_assign_specs_grows all specs a nodes r0 r a' :
  (forall s, s ∈ specs -> s ∈ all) -> no_slaves (fst a) ->
  try_assign_specs' a j nodes specs r0 = Ret (r, a') ->
  exists k, grows all k a a' /\ (r = CheckAvailable -> r0 = CheckAvailable /\ k = nodes_requested specs).
Proof.
  revert a r0. induction specs as [|s specs IH]; intros a r0 Hall Hns; cbn [try_assign_specs].
  { intros [= <- <-]. exists 0%nat. split; [apply grows_refl|done]. }
  destruct (filter_nodes _ _ _) as [boot| |]; cbn [obind]; [|done..].
  destruct (_ <? _).
  { intros [= <- <-]. exists 0%nat. split; [apply grows_refl|done]. }
  destruct (try_assign_nodes _ _ _ _ _ _ _ _ _ _ _ _) as [[ret a1]| |] eqn:E; cbn [obind]; [|done..].
  destruct (try_assign_loop_grows all _ _ _ _ _ _ _ (Hall s ltac:(by left)) Hns E) as (k1 & Hg1 & Hr1).
  destruct (is_result ret CheckNonFit) eqn:Enf.
  { intros [= <- <-]. exists k1. split; [done|done]. }
  intros Hrest. apply IH in Hrest as (k2 & Hg2 & Hr2);
    [|intros ??; apply Hall; by right|by eapply grows_no_slaves].
  exists (k1 + k2)%nat. split; [by eapply grows_trans|].
  intros ->. destruct (Hr2 eq_refl) as [Hr0 ->].
  destruct ret; simpl in *; try done. rewrite (Hr1 eq_refl). done.
Qed.
End AssignFacts.

(** C10: Assigning a job's request never assigns a node twice and never takes a
    node that is not free: whatever [try_assign_spec] answers, the schedule has
    grown by pairwise different nodes, each without an assignment before, each
    found to fit one of the job's specifications now, and each assigned
    afterwards, and every other node is unchanged; when it answers
    [CheckAvailable], exactly the requested number of nodes has been assigned. *)
Theorem try_assign_spec_sound (db : RescInfoDb) (dyn : gmap string Dyn.DynamicResource) (now : Z)
    (parse : string -> pars_spec) (denied : string -> string -> string -> bool) (overlimit : bool)
    (q : queue_info) (j : JobInfo) (a a' : asg) (nodes : list positive) (r : CheckResult)
    (Hns : no_slaves (fst a))
    (Hrun : try_assign_spec db dyn now parse denied overlimit q a j nodes = Ret (r, a')) :
  let specs := spec_nodes (parsed_nodespec parse j) in
  exists k, grows db dyn now parse denied overlimit q j specs k a a' /\
    (r = CheckAvailable -> k = nodes_requested specs).
Proof.
  intros specs. destruct (try_assign_specs_grows db dyn now parse denied overlimit q j specs
    specs a nodes CheckAvailable r a') as (k & Hg & Hr); [done|done|exact Hrun|].
  exists k. split; [done|]. intros Hav. by apply Hr.
Qed.

Definition assign_example_store : node_store := {[ 1%positive := plan_example_node ]}.
Definition assign_example_job : JobInfo := new_JobInfo "1.srv" <| nodespec := "1:ppn=4"%string |>.

Lemma assign_example_no_slaves : no_slaves assign_example_store.
Proof.
  intros p n H. unfold assign_example_store in H.
  apply (lookup_singleton_Some (M := gmap positive)) in H as [_ <-]. done.
Qed.

Lemma try_assign_spec_sound_witness :
  exists a', try_assign_spec ∅ ∅ 0 toy_parse_nodespec (fun _ _ _ => false) false (new_queue_info "q")
    (assign_example_store, []) assign_example_job [1%positive] = Ret (CheckAvailable, a') /\
  length (snd a') = 1%nat.
Proof.
  eexists. split; [vm_compute; reflexivity|].
  destruct (try_assign_spec_sound ∅ ∅ 0 toy_parse_nodespec (fun _ _ _ => false) false (new_queue_info "q")
    assign_example_job (assign_example_store, []) _ [1%positive] CheckAvailable
    assign_example_no_slaves ltac:(vm_compute; reflexivity)) as (k & (new & E & L & _) & Hk).
  rewrite E. simpl. rewrite L, (Hk eq_refl). vm_compute. reflexivity.
Defined.

(** ** The fairshare cost of a job: JobInfo.cpp *)

Section Cost.
Variable parse_nodespec : string -> pars_spec.

(** The first node from the current position on that is not yet paid for; past
    the last node the read is out of bounds. *)
Fixpoint skip_flagged (st : node_store) (nodes : list positive) : outcome (positive * node_info * list positive) :=
  match nodes with
  | [] => UB
  | p :: nodes' =>
      let! n := of_option (st !! p) in
      if flag_fairshare (assign n) then skip_flagged st nodes' else Ret (p, n, nodes)
  end.

Definition node_share (j : JobInfo) (spec : pars_spec_node) (n : node_info) : spec_float :=
  let d := fof_Z (F := binary64) in
  let node_procs := d (u64 (p_core_total (data n))) in
  if is_exclusive parse_nodespec j then fmul (F := binary64) node_procs (p_node_cost (data n))
  else
    fmul (F := binary64)
      (fmul (F := binary64)
        (fmax (fdiv (F := binary64) (d (mem spec)) (d (get_mem_total n)))
              (fdiv (F := binary64) (d (procs spec)) node_procs))
        node_procs)
      (p_node_cost (data n)).

Fixpoint cost_loop (count : nat) (st : node_store) (j : JobInfo) (spec : pars_spec_node)
    (nodes : list positive) (cost : spec_float) : outcome (node_store * spec_float) :=
  match count with
  | O => Ret (st, cost)
  | S count =>
      let! (p, n, nodes) := skip_flagged st nodes in
      cost_loop count (set_node_assign st p (fun a => a <| flag_fairshare := true |>)) j spec nodes
        (fadd (F := binary64) cost (node_share j spec n))
  end.

Definition node_cost_lt_in (st : node_store) (spec : pars_spec_node) (excl : bool) (a b : positive) : bool :=
  match st !! a, st !! b with
  | Some x, Some y => node_cost_lt (procs spec) (mem spec) excl x y
  | _, _ => false
  end.

(** [fit] is [NodeSuitableForSpec] in its fairshare mode; nodes of equal cost
    are kept in their order. *)
Definition calculate_fairshare_cost
    (fit : node_store -> pars_spec_node -> node_info -> outcome bool)
    (st : node_store) (j : JobInfo) (nodes : list positive) : outcome (node_store * spec_float) :=
  ofold (fun '(st, cost) spec =>
           let! fairshare_nodes := filter_nodes st (fit st spec) nodes in
           cost_loop (Z.to_nat (node_count spec)) st j spec
             (isort (node_cost_lt_in st spec (is_exclusive parse_nodespec j)) fairshare_nodes) cost)
    (spec_nodes (parsed_nodespec parse_nodespec j)) (st, fzero).
End Cost.

(** ** check_nodespec *)

(** [propagate_resources] of NodeInfo.cpp on the physical node itself, by
    value: the utilization of each resource becomes the maximum. *)
Definition join_by_value (this right : gmap string Resource) : gmap string Resource :=
  union_with (fun a b => Some (set_utilization a (Z.max (p_assign a) (p_assign b)))) this right.

Definition propagate_into (source n : node_info) : node_info :=
  n <| p_core_assigned := Z.max (p_core_assigned n) (p_core_assigned source) |>
    <| data := data n <| p_resc := join_by_value (p_resc (data n)) (p_resc (data source)) |> |>.

Definition propagate_resources (st : node_store) (this : positive) (source : positive)
  : outcome node_store :=
  let! src := of_option (st !! source) in
  let! n := of_option (st !! this) in
  let st := <[this := propagate_into src n]> st in
  ofold (fun st p =>
           let! src := of_option (st !! source) in
           let! s := of_option (st !! p) in
           Ret (<[p := propagate_into src s]> st)) (p_slave_nodes n) st.

Section CheckNodespec.
Variable db : RescInfoDb.
Variable reg : PropRegistry.
Variable now : Z.
Variable parse_nodespec : string -> pars_spec.
Variable user_denied : string -> string -> string -> bool.
Variable q : queue_info.
(** [cstat.current_time]. *)
Variable current_time : Z.

(** The return code, the node store, the server and the job afterwards. *)
Definition check_result : Type := Z * node_store * server_info * JobInfo.

(** A starving job eats the resources of the nodes it would need. *)
Definition plan_starving (st : node_store) (s : server_info) (j : JobInfo)
  : outcome (node_store * server_info) :=
  let! (st, dyn) :=
    ofold (fun '(st, dyn) p =>
             let! n := of_option (st !! p) in
             let! spec := of_option (assignment (assign n)) in
             let! (st, dyn) := plan_on_node db parse_nodespec st dyn j p spec in
             let! st := propagate_resources st (physical p n) p in
             Ret (st, dyn))
      (schedule j) (st, dynamic_resources s) in
  Ret (st, s <| dynamic_resources := plan_on_server j dyn |>).

Definition slave_nodes_of (st : node_store) (nodes : list positive) : list positive :=
  concat (map (fun p => match st !! p with Some n => p_slave_nodes n | None => [] end) nodes).

Definition check_nodespec (st : node_store) (s : server_info) (j : JobInfo) (nodes : list positive)
  : outcome check_result :=
  let overlimit := installing_nodes_overlimit s in
  let dyn := dynamic_resources s in
  let find := find_nodes db dyn now parse_nodespec user_denied overlimit q reg in
  let! suitable :=
    filter_nodes st (fun n =>
      node_suitable_for_job st now parse_nodespec user_denied overlimit n j) nodes in
  let! (result, (st, sched)) := find (st, schedule j) j suitable in
  let j := j <| schedule := sched |> in
  match result with
  | CheckNonFit => Ret (REQUEST_NOT_MATCHED, nodes_preassign_clean st nodes, s, j)
  | CheckOccupied =>
      if is_admin_queue q then Ret (NODESPEC_NOT_ENOUGH_NODES_TOTAL, st, s, j)
      else
        let st := nodes_preassign_clean st nodes in
        let j := j <| schedule := [] |> in
        if is_starving j (starving_support q) current_time then
          let suitable := suitable ++ slave_nodes_of st suitable in
          let! (result, (st, sched)) := find (st, []) j suitable in
          let j := j <| schedule := sched |> in
          if is_result result CheckOccupied then Ret (NODESPEC_NOT_ENOUGH_NODES_TOTAL, st, s, j)
          else
            let! (st, s) := plan_starving st s j in
            Ret (JOB_SCHEDULED, st, s, j)
        else Ret (NODESPEC_NOT_ENOUGH_NODES_TOTAL, st, s, j)
  | CheckAvailable =>
      let! (st, cost) :=
        calculate_fairshare_cost parse_nodespec
          (fun st spec n =>
             node_suitable_for_spec db dyn st now parse_nodespec user_denied overlimit n q j spec
               SuitableFairshareMode) st j suitable in
      Ret (SUCCESS, st, s, j <| calculated_fairshare := cost |>)
  end.
End CheckNodespec.
