(* ===== verification/Check.v ===== *)
(** * The checks before a job is run: check.cpp, misc.cpp (cloud_check), and the
    cluster attributes and groups of legacy/site_pbs_cache_common.c

    A check answers 0, or the code of the limit that is in the way; the two
    chains of checks answer [SUCCESS] or a code.  The accessors of the server
    and of the queue fill their caches, so the server, the queue, the job and
    the node store are threaded. *)

From Stdlib Require Import ZArith Lia Bool Ascii String SpecFloat.
From S2P Require Import Prelude CString CFloat MiscHelpers Config Prime Resource PropRegistry DataTypes NodeData JobInfo StateCount QueueInfo ServerInfo NodeLogic NodeInfo JobPlan Assign.

Open Scope Z_scope.
Local Open Scope sched_scope.

(** ** legacy/site_pbs_cache_common.c *)

(** The first occurrence of [sub]: the character before it, when there is one,
    and the text from it on. *)
Fixpoint strstr_at (before : option ascii) (s sub : string) : option (option ascii * string) :=
  if String.prefix sub s then Some (before, s)
  else match s with EmptyString => None | String c t => strstr_at (Some c) t sub end.

Fixpoint drop_chars (n : nat) (s : string) : string :=
  match n, s with
  | S n, String _ t => drop_chars n t
  | _, _ => s
  end.

(** The value of [name=] in a metric string, up to a semicolon, colon or newline. *)
Definition retrieve_cluster_attr (metric name : string) : option string :=
  match strstr_at None metric (name ++ "=") with
  | None => None
  | Some (_, pos) =>
      Some (fst (take_token (";:" ++ String "010" EmptyString) (drop_chars (S (String.length name)) pos)))
  end.

(** Replacing an attribute cuts it out and appends the new value. *)
Fixpoint before_sub (s sub : string) : string :=
  if String.prefix sub s then EmptyString
  else match s with EmptyString => EmptyString | String c t => String c (before_sub t sub) end.

Definition store_cluster_attr (metric : option string) (name value : string) : string :=
  let pattern := (name ++ "=")%string in
  match metric with
  | None => (pattern ++ value)%string
  | Some m =>
      match strstr_at None m pattern with
      | Some (_, pos) =>
          let rest := match strchr pos ";" with Some r => r | None => EmptyString end in
          (before_sub m pattern ++ rest ++ ";" ++ pattern ++ value)%string
      | None => (m ++ ";" ++ pattern ++ value)%string
      end
  end.

Definition user_boundary (c : ascii) : bool :=
  (c =c " ") || (c =c ",") || (c =c "009").

(** The lines are those of the group file, key and rest; only the first
    occurrence of the user in a line is looked at. *)
Definition is_users_in_group (lines : option (list (string * string))) (grp user : string) : bool :=
  match lines with
  | None => false
  | Some lines =>
      existsb (fun '(key, first) =>
        String.eqb key grp &&
        match strstr_at None first user with
        | None => false
        | Some (before, s) =>
            let after := hd0 (drop_chars (String.length user) s) in
            match before with None => true | Some c => user_boundary c end
            && ((after =c NUL) || (after =c "010") || user_boundary after)
        end) lines
  end.

(** ** The limits of the server and of the queue *)

Definition check_server_max_user_run (s : server_info) (acc : string) : Z * server_info :=
  if max_user_run s =? RESC_INFINITY then (0, s)
  else
    let '(n, s) := server_jobs_for_user s acc in
    if n <? max_user_run s then (0, s) else (SERVER_USER_LIMIT_REACHED, s).

Definition check_queue_max_user_run (q : queue_info) (acc : string) : Z * queue_info :=
  if q_max_user_run q =? RESC_INFINITY then (0, q)
  else
    let '(n, q) := number_of_running_jobs_for_user q acc in
    if n <? q_max_user_run q then (0, q) else (QUEUE_USER_LIMIT_REACHED, q).

Definition check_queue_max_group_run (q : queue_info) (grp : string) : Z * queue_info :=
  if q_max_group_run q =? RESC_INFINITY then (0, q)
  else
    let '(n, q) := number_of_running_jobs_for_group q grp in
    if n <? q_max_group_run q then (0, q) else (QUEUE_GROUP_LIMIT_REACHED, q).

Definition check_server_max_group_run (s : server_info) (grp : string) : Z * server_info :=
  if max_group_run s =? RESC_INFINITY then (0, s)
  else
    let '(n, s) := server_jobs_for_group s grp in
    if n <? max_group_run s then (0, s) else (SERVER_GROUP_LIMIT_REACHED, s).

Definition check_queue_max_run (q : queue_info) : Z :=
  if q_max_run q =? RESC_INFINITY then 0
  else if q_max_run q >? sc_running (q_sc q) then 0
  else QUEUE_JOB_LIMIT_REACHED.

Definition check_server_max_run (s : server_info) : Z :=
  if max_run s =? RESC_INFINITY then 0
  else if max_run s >? sc_running (srv_sc s) then 0
  else SERVER_JOB_LIMIT_REACHED.

(** ** The queue *)

Definition check_ignored (c : config) (q : queue_info) : Z :=
  if existsb (fun n => strcmp (q_name q) n =? 0) (ignored_queues c) then QUEUE_IGNORED else SUCCESS.

(** [server_name] is the name of the server the queue resides on. *)
Definition check_queue_remote_local (c : config) (server_name : string) (q : queue_info) : Z :=
  if negb (is_global q) then
    if ignore_remote_local c then
      if String.prefix "localhost" server_name || String.prefix (local_server c) server_name then 0
      else QUEUE_REMOTE_LOCAL
    else 0
  else 0.

Definition check_ded_time_queue (s : status) (q : queue_info) : Z :=
  if st_ded_time s then if dedtime_queue q then 0 else DED_TIME
  else if dedtime_queue q then DED_TIME else 0.

(** A code of 0 lets the next check run; [check_ignored] never answers 0. *)
Definition is_ok_to_run_queue (c : config) (s : status) (server_name : string) (q : queue_info) : Z :=
  if is_exec q then
    if is_started q then
      let rc := check_ded_time_queue s q in
      if rc =? 0 then
        let rc := check_ignored c q in
        if rc =? 0 then
          let rc := check_queue_remote_local c server_name q in
          if rc =? 0 then SUCCESS else rc
        else rc
      else rc
    else QUEUE_NOT_STARTED
  else QUEUE_NOT_EXEC.

(** ** The job *)

Definition check_ded_time_boundry (c : config) (s : status) (j : JobInfo) : outcome Z :=
  match ded_time c with
  | [] => UB
  | g :: _ =>
      if negb (from g =? 0) then
        match find_resource_req (resreq j) "walltime" with
        | Some res =>
            let finish_time := i64 (current_time s + req_amount res) in
            if negb (st_ded_time s) && (finish_time >? from g) then Ret CROSS_DED_TIME_BOUNDRY
            else if st_ded_time s && (finish_time >? to g) then Ret CROSS_DED_TIME_BOUNDRY
            else Ret 0
        | None => Ret CROSS_DED_TIME_BOUNDRY
        end
      else Ret 0
  end.

(** The dynamic resources of the database the job asks for. *)
Definition dynamic_request_fits (dyn : gmap string Dyn.DynamicResource) (j : JobInfo) (i : RescInfo) : bool :=
  if negb (bool_decide (ri_source i = ResCheckDynamic)) then true
  else
    match find_resource_req (resreq j) (ri_name i) with
    | None => true
    | Some req =>
        match dyn !! ri_name i with
        | None => false
        | Some d => Dyn.would_fit d (req_amount req)
        end
    end.

Definition check_dynamic_resources (db : RescInfoDb) (s : server_info) (j : JobInfo) : Z :=
  if forallb (fun '(_, i) => dynamic_request_fits (dynamic_resources s) j i) (map_to_list db)
  then SUCCESS else INSUFICIENT_DYNAMIC_RESOURCE.

Section Check.
Variable db : RescInfoDb.
Variable reg : PropRegistry.
Variable conf : config.
Variable cstat : status.
Variable now : Z.
Variable parse_nodespec : string -> pars_spec.
Variable user_denied : string -> string -> string -> bool.
(** [xpbs_cache_get_local], [getgrnam] (the members) and the group file. *)
Variable cache_get : string -> string -> option string.
Variable getgrnam : string -> option (list string).
Variable group_lines : option (list (string * string)).

(** [count + this_job] is computed in an [int]. *)
Definition check_queue_proc_limits (q : queue_info) (j : JobInfo) : outcome Z :=
  let this_job := spec_total_procs (parse_nodespec (nodespec j)) in
  let over limit (count : outcome Z) :=
    if negb (limit =? RESC_INFINITY) then let! n := count in Ret (i32 (n + this_job) >? limit)
    else Ret false in
  let! b := over (q_max_proc q) (count_queue_procs parse_nodespec q) in
  if b then Ret QUEUE_PROC_LIMIT_REACHED
  else
    let! b := over (q_max_user_proc q) (count_queue_user_procs parse_nodespec q (account j)) in
    if b then Ret QUEUE_USER_PROC_LIMIT_REACHED
    else
      let! b := over (q_max_group_proc q) (count_queue_group_procs parse_nodespec q (group j)) in
      if b then Ret QUEUE_GROUP_PROC_LIMIT_REACHED else Ret 0.

(** The account without the host. *)
Definition job_owner (j : JobInfo) : string := fst (split_at (account j) "@").

(** The code of a job that uses a cluster, and whether it can never run. *)
Definition cloud_permission (j : JobInfo) (cluster : string) : Z * bool :=
  let jowner := job_owner j in
  match retrieve_cluster_attr cluster "owner" with
  | None => (0, false)
  | Some owner =>
      if String.eqb jowner owner then (0, false)
      else
        match retrieve_cluster_attr cluster "group" with
        | None => (CLUSTER_PERMISSIONS, false)
        | Some grp =>
            if match getgrnam grp with Some m => existsb (String.eqb jowner) m | None => false end
            then (0, false)
            else if is_users_in_group group_lines grp jowner then (0, false)
            else (CLUSTER_PERMISSIONS, true)
        end
  end.

Definition cloud_check (j : JobInfo) : Z * JobInfo :=
  let '(ret, never) :=
    if bool_decide (cluster_mode j = ClusterUse) then
      match cache_get (cluster_name j) "cluster" with
      | None => (CLUSTER_PERMISSIONS, false)
      | Some cluster => cloud_permission j cluster
      end
    else (0, false) in
  let j := if never then j <| can_never_run := true |> else j in
  if negb (ret =? 0) then (ret, j)
  else if bool_decide (cluster_mode j = ClusterCreate) then
    match cache_get (custom_name j) "cluster" with
    | Some _ => (CLUSTER_RUNNING, j)
    | None => (0, j)
    end
  else (0, j).

(** What the checks thread. *)
Record chk := mkChk { c_srv : server_info; c_queue : queue_info; c_job : JobInfo; c_nodes : node_store }.

(** The limits of the server, then those of the queue. *)
Definition check_run_limits (x : chk) : Z * chk :=
  let '(mkChk s q j st) := x in
  let rc := check_server_max_run s in
  if negb (rc =? 0) then (rc, x)
  else
    let '(rc, s) := check_server_max_user_run s (account j) in
    if negb (rc =? 0) then (rc, mkChk s q j st)
    else
      let '(rc, s) := check_server_max_group_run s (group j) in
      if negb (rc =? 0) then (rc, mkChk s q j st)
      else
        let rc := check_queue_max_run q in
        if negb (rc =? 0) then (rc, mkChk s q j st)
        else
          let '(rc, q) := check_queue_max_user_run q (account j) in
          if negb (rc =? 0) then (rc, mkChk s q j st)
          else
            let '(rc, q) := check_queue_max_group_run q (group j) in
            (rc, mkChk s q j st).

(** Dedicated time, the cluster, the dynamic resources and the nodes. *)
Definition check_resources (nodes : chk -> list positive) (x : chk) : outcome (Z * chk) :=
  let! rc := check_ded_time_boundry conf cstat (c_job x) in
  if negb (rc =? 0) then Ret (rc, x)
  else
    let '(rc, j) := cloud_check (c_job x) in
    let x := mkChk (c_srv x) (c_queue x) j (c_nodes x) in
    if negb (rc =? 0) then Ret (rc, x)
    else if negb (check_dynamic_resources db (c_srv x) j =? SUCCESS)
    then Ret (INSUFICIENT_DYNAMIC_RESOURCE, x)
    else
      let! (rc, st, s, j) :=
        check_nodespec db reg now parse_nodespec user_denied (c_queue x) (current_time cstat)
          (c_nodes x) (c_srv x) j (nodes x) in
      Ret (rc, mkChk s (c_queue x) j st).

(** The nodes of the queue, when it has nodes of its own, or those of no queue. *)
Definition candidate_nodes (x : chk) : list positive :=
  match excl_nodes (c_queue x) with
  | [] => if excl_nodes_only (c_queue x) then [] else non_dedicated_nodes (c_srv x)
  | l => l
  end.

Definition is_ok_to_run_job (x : chk) : outcome (Z * chk) :=
  let '(mkChk s q j st) := x in
  let count := default 0 (exec_count s !! account j) in
  let s := s <| exec_count := <[account j := count]> (exec_count s) |> in
  let x := mkChk s q j st in
  if count >=? max_user_run_conf conf then Ret (SCHEDULER_LOOP_RUN_LIMIT_REACHED, x)
  else if negb (String.eqb (placement j) "") && negb (fst (get_property_id reg (placement j)))
  then Ret (UNKNOWN_LOCATION_PROPERTY_REQUEST, x)
  else
    match srv_nodes s with
    | [] => UB
    | _ :: _ =>
        let '(rc, x) := check_run_limits x in
        if negb (rc =? 0) then Ret (rc, x)
        else
          let! rc := check_queue_proc_limits (c_queue x) j in
          if negb (rc =? 0) then Ret (rc, x)
          else check_resources candidate_nodes x
    end.

(** The check before a planned job is run, on the nodes of the plan. *)
Definition is_ok_to_run_job_new (ninfo_arr : list positive) (x : chk) : outcome (Z * chk) :=
  let '(rc, x) := check_run_limits x in
  if negb (rc =? 0) then Ret (rc, x)
  else check_resources (fun _ => ninfo_arr) x.
End Check.
