(* ===== verification/RunLimits.v ===== *)
(** * The limits are kept: what the checks of check.cpp promise, and what starting
    a job then does to the counters

    A job that passes [is_ok_to_run_job] leaves room for itself in every limit
    of the server and of the queue; [update_on_job_run] of both then keeps every
    limit. *)

From Stdlib Require Import ZArith Lia Bool Ascii String SpecFloat.
From S2P Require Import Prelude CString CFloat MiscHelpers Config Prime Resource PropRegistry DataTypes NodeData JobInfo StateCount QueueInfo ServerInfo NodeLogic NodeInfo JobPlan Assign Check.

Open Scope Z_scope.
Local Open Scope sched_scope.

(** ** The counters of the server *)

Record server_wf (s : server_info) : Prop := {
  sw_running : sc_running (srv_sc s) = Z.of_nat (length (running_jobs s));
  sw_bound : Z.of_nat (length (running_jobs s)) < 2 ^ 31;
  sw_group : cache_agrees (running_jobs_by_group s) (count_by_group (running_jobs s));
  sw_user : cache_agrees (running_jobs_by_user s) (count_by_user (running_jobs s))
}.

(** The limits and the running jobs are those of before. *)
Definition same_server (s s' : server_info) : Prop :=
  running_jobs s' = running_jobs s /\ max_run s' = max_run s /\ max_user_run s' = max_user_run s /\
  max_group_run s' = max_group_run s /\ dynamic_resources s' = dynamic_resources s /\
  exec_count s' = exec_count s /\ srv_nodes s' = srv_nodes s /\
  non_dedicated_nodes s' = non_dedicated_nodes s.

Definition same_queue (q q' : queue_info) : Prop :=
  q_running_jobs q' = q_running_jobs q /\ same_limits q q'.

Lemma same_server_refl s : same_server s s.
Proof. by split_and!. Qed.
Lemma same_server_trans a b c : same_server a b -> same_server b c -> same_server a c.
Proof. intros (?&?&?&?&?&?&?&?) (?&?&?&?&?&?&?&?). split_and!; congruence. Qed.
Lemma same_queue_refl q : same_queue q q.
Proof. by split_and!. Qed.
Lemma same_queue_trans a b c : same_queue a b -> same_queue b c -> same_queue a c.
Proof. unfold same_queue, same_limits. intros (?&?&?&?&?&?&?) (?&?&?&?&?&?&?). split_and!; congruence. Qed.

Lemma server_jobs_for_user_spec s u :
  server_wf s ->
  fst (server_jobs_for_user s u) = count_by_user (running_jobs s) u /\
  server_wf (snd (server_jobs_for_user s u)) /\ same_server s (snd (server_jobs_for_user s u)).
Proof.
  intros Hs. unfold server_jobs_for_user.
  destruct (running_jobs_by_user s !! u) as [v|] eqn:E; cbn [fst snd].
  - split_and!; [by apply (sw_user s Hs)|done|..]; done.
  - split; [done|]. split; [|by split_and!]. destruct Hs. constructor; cbn; try done.
    by apply cache_agrees_insert.
Qed.

Lemma server_jobs_for_group_spec s g :
  server_wf s ->
  fst (server_jobs_for_group s g) = count_by_group (running_jobs s) g /\
  server_wf (snd (server_jobs_for_group s g)) /\ same_server s (snd (server_jobs_for_group s g)).
Proof.
  intros Hs. unfold server_jobs_for_group.
  destruct (running_jobs_by_group s !! g) as [v|] eqn:E; cbn [fst snd].
  - split_and!; [by apply (sw_group s Hs)|done|..]; done.
  - split; [done|]. split; [|by split_and!]. destruct Hs. constructor; cbn; try done.
    by apply cache_agrees_insert.
Qed.

(** Starting a job on the server. *)
Lemma server_update_spec db parse store s j store' s' :
  server_wf s -> Z.of_nat (length (running_jobs s)) + 1 < 2 ^ 31 ->
  server_update_on_job_run db parse store s j = Ret (store', s') ->
  server_wf s' /\ running_jobs s' = running_jobs s ++ [j] /\ max_run s' = max_run s /\
  max_user_run s' = max_user_run s /\ max_group_run s' = max_group_run s.
Proof.
  intros Hs Hlen. pose proof (sw_running s Hs) as Hr. set (run := running_jobs s ++ [j]).
  assert (Hlen' : Z.of_nat (length run) = Z.of_nat (length (running_jobs s)) + 1)
    by (unfold run; rewrite length_app; simpl; lia).
  destruct (bump_agrees _ _ _ _ _ (Ret (count_by_group run (group j))) (sw_group s Hs)
    (count_by_group_snoc _ j) eq_refl) as (mg & Emg & Hmg).
  { pose proof (count_by_group_bounds run (group j)). fold run. in_range. }
  destruct (bump_agrees _ _ _ _ _ (Ret (count_by_user run (account j))) (sw_user s Hs)
    (count_by_user_snoc _ j) eq_refl) as (mu & Emu & Hmu).
  { pose proof (count_by_user_bounds run (account j)). fold run. in_range. }
  unfold server_update_on_job_run. cbv zeta.
  destruct (plan_on_nodes _ _ _ _ _) as [[st dyn]| |]; cbn [obind]; [|done..].
  cbn. fold run. rewrite Emg. cbn. fold run. rewrite Emu. cbn. intros [= <- <-].
  split; [|by split_and!]. constructor; cbn; try done; [|fold run; lia].
  fold run. rewrite Hr, i32_id; [lia|in_range].
Qed.

(** ** Room in a limit *)

Definition below (limit n : Z) : Prop := limit = RESC_INFINITY \/ n < limit.
Definition kept (limit n : Z) : Prop := limit = RESC_INFINITY \/ n <= limit.

Lemma below_kept limit n n' : below limit n -> n' <= n + 1 -> kept limit n'.
Proof. intros [|] ?; [by left|right; lia]. Qed.

Section Sound.
Variable parse : string -> pars_spec.
Notation procs := (total_procs parse).

(** The limits of the server and of the queue, for every user and group. *)
Record limits_hold (s : server_info) (q : queue_info) : Prop := {
  lh_server : kept (max_run s) (Z.of_nat (length (running_jobs s)));
  lh_server_user : forall u, kept (max_user_run s) (count_by_user (running_jobs s) u);
  lh_server_group : forall g, kept (max_group_run s) (count_by_group (running_jobs s) g);
  lh_queue : kept (q_max_run q) (Z.of_nat (length (q_running_jobs q)));
  lh_queue_user : forall u, kept (q_max_user_run q) (count_by_user (q_running_jobs q) u);
  lh_queue_group : forall g, kept (q_max_group_run q) (count_by_group (q_running_jobs q) g);
  lh_procs : kept (q_max_proc q) (cores parse (fun _ => true) (q_running_jobs q));
  lh_user_procs : forall u, kept (q_max_user_proc q) (cores parse (of_user u) (q_running_jobs q));
  lh_group_procs : forall g, kept (q_max_group_proc q) (cores parse (of_group g) (q_running_jobs q))
}.

(** There is room for the job. *)
Record room_for (s : server_info) (q : queue_info) (j : JobInfo) : Prop := {
  rf_server : below (max_run s) (Z.of_nat (length (running_jobs s)));
  rf_server_user : below (max_user_run s) (count_by_user (running_jobs s) (account j));
  rf_server_group : below (max_group_run s) (count_by_group (running_jobs s) (group j));
  rf_queue : below (q_max_run q) (Z.of_nat (length (q_running_jobs q)));
  rf_queue_user : below (q_max_user_run q) (count_by_user (q_running_jobs q) (account j));
  rf_queue_group : below (q_max_group_run q) (count_by_group (q_running_jobs q) (group j))
}.

Record procs_room (q : queue_info) (j : JobInfo) : Prop := {
  pr_all : kept (q_max_proc q) (cores parse (fun _ => true) (q_running_jobs q) + procs j);
  pr_user : kept (q_max_user_proc q) (cores parse (of_user (account j)) (q_running_jobs q) + procs j);
  pr_group : kept (q_max_group_proc q) (cores parse (of_group (group j)) (q_running_jobs q) + procs j)
}.

Lemma kept_adds limit f f' key d :
  adds_at f f' key d -> 0 <= d -> (forall k, kept limit (f k)) -> kept limit (f key + d) ->
  forall k, kept limit (f' k).
Proof.
  intros Ha Hd Hf Hk k. rewrite (Ha k). destruct (String.eqb_spec key k) as [<-|]; [done|].
  rewrite Z.add_0_r. apply Hf.
Qed.

(** With room for the job, the limits hold once the job is counted. *)
Lemma limits_hold_snoc s q s' q' j :
  limits_hold s q -> room_for s q j -> procs_room q j -> 0 <= procs j ->
  running_jobs s' = running_jobs s ++ [j] -> max_run s' = max_run s ->
  max_user_run s' = max_user_run s -> max_group_run s' = max_group_run s ->
  q_running_jobs q' = q_running_jobs q ++ [j] -> same_limits q q' ->
  limits_hold s' q'.
Proof.
  intros Hl Hr Hp Hj Er E1 E2 E3 Eq (F1 & F2 & F3 & F4 & F5 & F6).
  assert (Hb : forall limit n, below limit n -> kept limit (n + 1))
    by (intros ?? [|]; [by left|right; lia]).
  destruct Hl, Hr, Hp.
  constructor; rewrite ?Er, ?Eq, ?E1, ?E2, ?E3, ?F1, ?F2, ?F3, ?F4, ?F5, ?F6, ?length_app.
  - eapply below_kept; [done|simpl; lia].
  - eapply kept_adds; [apply count_by_user_snoc|lia|done|by apply Hb].
  - eapply kept_adds; [apply count_by_group_snoc|lia|done|by apply Hb].
  - eapply below_kept; [done|simpl; lia].
  - eapply kept_adds; [apply count_by_user_snoc|lia|done|by apply Hb].
  - eapply kept_adds; [apply count_by_group_snoc|lia|done|by apply Hb].
  - by rewrite cores_snoc.
  - apply (kept_adds _ _ _ _ _ (cores_user_snoc parse (q_running_jobs q) j)); done.
  - apply (kept_adds _ _ _ _ _ (cores_group_snoc parse (q_running_jobs q) j)); done.
Qed.

(** ** The checks of the limits *)

Ltac known_code := unfold SERVER_JOB_LIMIT_REACHED, SERVER_USER_LIMIT_REACHED, SERVER_GROUP_LIMIT_REACHED,
  QUEUE_JOB_LIMIT_REACHED, QUEUE_USER_LIMIT_REACHED, QUEUE_GROUP_LIMIT_REACHED in *.

Lemma check_server_max_run_spec s :
  server_wf s -> check_server_max_run s = 0 -> below (max_run s) (Z.of_nat (length (running_jobs s))).
Proof.
  intros Hs. rewrite <- (sw_running s Hs). unfold check_server_max_run, below. known_code.
  case_bools; lia.
Qed.

Lemma check_queue_max_run_spec q :
  queue_wf parse q -> check_queue_max_run q = 0 ->
  below (q_max_run q) (Z.of_nat (length (q_running_jobs q))).
Proof.
  intros Hq. rewrite <- (qw_running parse q Hq). unfold check_queue_max_run, below. known_code.
  case_bools; lia.
Qed.

Lemma check_server_max_user_run_spec s u :
  server_wf s ->
  server_wf (snd (check_server_max_user_run s u)) /\ same_server s (snd (check_server_max_user_run s u)) /\
  (fst (check_server_max_user_run s u) = 0 -> below (max_user_run s) (count_by_user (running_jobs s) u)).
Proof.
  intros Hs. unfold check_server_max_user_run, below. known_code.
  destruct (Z.eqb_spec (max_user_run s) RESC_INFINITY); [split_and!; try done; by left|].
  destruct (server_jobs_for_user_spec s u Hs) as (E & Hwf & Hsame).
  destruct (server_jobs_for_user s u) as [cnt s']. cbn [fst snd] in *. subst cnt.
  pose proof Hsame as (_ & _ & R & _). rewrite R.
  destruct (Z.ltb_spec (count_by_user (running_jobs s) u) (max_user_run s)); cbn [fst snd];
    (split; [done|split; [done|]]); [by right|done].
Qed.

Lemma check_server_max_group_run_spec s g :
  server_wf s ->
  server_wf (snd (check_server_max_group_run s g)) /\ same_server s (snd (check_server_max_group_run s g)) /\
  (fst (check_server_max_group_run s g) = 0 -> below (max_group_run s) (count_by_group (running_jobs s) g)).
Proof.
  intros Hs. unfold check_server_max_group_run, below. known_code.
  destruct (Z.eqb_spec (max_group_run s) RESC_INFINITY); [split_and!; try done; by left|].
  destruct (server_jobs_for_group_spec s g Hs) as (E & Hwf & Hsame).
  destruct (server_jobs_for_group s g) as [cnt s']. cbn [fst snd] in *. subst cnt.
  pose proof Hsame as (_ & _ & _ & R4 & _). rewrite R4.
  destruct (Z.ltb_spec (count_by_group (running_jobs s) g) (max_group_run s)); cbn [fst snd];
    (split; [done|split; [done|]]); [by right|done].
Qed.

Lemma check_queue_max_user_run_spec q u :
  queue_wf parse q ->
  queue_wf parse (snd (check_queue_max_user_run q u)) /\ same_queue q (snd (check_queue_max_user_run q u)) /\
  (fst (check_queue_max_user_run q u) = 0 -> below (q_max_user_run q) (count_by_user (q_running_jobs q) u)).
Proof.
  intros Hq. unfold check_queue_max_user_run, below. known_code.
  destruct (Z.eqb_spec (q_max_user_run q) RESC_INFINITY); [split_and!; try done; by left|].
  destruct (number_of_running_jobs_for_user_spec parse q u Hq) as (E & Hwf & Hrun).
  assert (Hsame : same_queue q (snd (number_of_running_jobs_for_user q u)))
    by (unfold number_of_running_jobs_for_user; destruct (_ !! _); by split_and!).
  destruct (number_of_running_jobs_for_user q u) as [cnt q']. cbn [fst snd] in *. subst cnt.
  pose proof Hsame as (_ & _ & R & _). rewrite R.
  destruct (Z.ltb_spec (count_by_user (q_running_jobs q) u) (q_max_user_run q)); cbn [fst snd];
    (split; [done|split; [done|]]); [by right|done].
Qed.

Lemma check_queue_max_group_run_spec q g :
  queue_wf parse q ->
  queue_wf parse (snd (check_queue_max_group_run q g)) /\ same_queue q (snd (check_queue_max_group_run q g)) /\
  (fst (check_queue_max_group_run q g) = 0 -> below (q_max_group_run q) (count_by_group (q_running_jobs q) g)).
Proof.
  intros Hq. unfold check_queue_max_group_run, below. known_code.
  destruct (Z.eqb_spec (q_max_group_run q) RESC_INFINITY); [split_and!; try done; by left|].
  destruct (number_of_running_jobs_for_group_spec parse q g Hq) as (E & Hwf & Hrun).
  assert (Hsame : same_queue q (snd (number_of_running_jobs_for_group q g)))
    by (unfold number_of_running_jobs_for_group; destruct (_ !! _); by split_and!).
  destruct (number_of_running_jobs_for_group q g) as [cnt q']. cbn [fst snd] in *. subst cnt.
  pose proof Hsame as (_ & _ & _ & R & _). rewrite R.
  destruct (Z.ltb_spec (count_by_group (q_running_jobs q) g) (q_max_group_run q)); cbn [fst snd];
    (split; [done|split; [done|]]); [by right|done].
Qed.

Lemma below_same_server s s' n n' g :
  same_server s s' -> below (max_run s) n -> below (max_user_run s) n' -> below (max_group_run s) g ->
  below (max_run s') n /\ below (max_user_run s') n' /\ below (max_group_run s') g.
Proof. intros (_ & -> & -> & -> & _). done. Qed.

(** The chain of limits: the caches fill, nothing else changes, and 0 means room. *)
Lemma check_run_limits_spec x :
  server_wf (c_srv x) -> queue_wf parse (c_queue x) ->
  let '(rc, x') := check_run_limits x in
  server_wf (c_srv x') /\ queue_wf parse (c_queue x') /\
  same_server (c_srv x) (c_srv x') /\ same_queue (c_queue x) (c_queue x') /\
  c_job x' = c_job x /\ c_nodes x' = c_nodes x /\
  (rc = 0 -> room_for (c_srv x) (c_queue x) (c_job x)).
Proof.
  destruct x as [s q j st]. cbn [c_srv c_queue c_job c_nodes]. intros Hs Hq.
  unfold check_run_limits.
  destruct (Z.eqb_spec (check_server_max_run s) 0) as [H1|H1]; cbn [negb];
    [|split_and!; try done; apply same_server_refl || apply same_queue_refl].
  apply check_server_max_run_spec in H1; [|done].
  pose proof (check_server_max_user_run_spec s (account j) Hs) as (Hs1 & Hss1 & H2).
  destruct (check_server_max_user_run s (account j)) as [rc s1]. cbn [fst snd] in *.
  destruct (Z.eqb_spec rc 0) as [->|Hrc]; cbn [negb];
    [|split_and!; try done; apply same_queue_refl].
  pose proof (check_server_max_group_run_spec s1 (group j) Hs1) as (Hs2 & Hss2 & H3).
  destruct (check_server_max_group_run s1 (group j)) as [rc s2]. cbn [fst snd] in *.
  pose proof (same_server_trans _ _ _ Hss1 Hss2) as Hss.
  destruct (Z.eqb_spec rc 0) as [->|Hrc]; cbn [negb];
    [|split_and!; try done; apply same_queue_refl].
  destruct (Z.eqb_spec (check_queue_max_run q) 0) as [H4|H4]; cbn [negb];
    [|split_and!; try done; apply same_queue_refl].
  apply check_queue_max_run_spec in H4; [|done].
  pose proof (check_queue_max_user_run_spec q (account j) Hq) as (Hq1 & Hsq1 & H5).
  destruct (check_queue_max_user_run q (account j)) as [rc q1]. cbn [fst snd] in *.
  destruct (Z.eqb_spec rc 0) as [->|Hrc]; cbn [negb]; [|by split_and!].
  pose proof (check_queue_max_group_run_spec q1 (group j) Hq1) as (Hq2 & Hsq2 & H6).
  destruct (check_queue_max_group_run q1 (group j)) as [rc q2]. cbn [fst snd c_srv c_queue c_job c_nodes] in *.
  split; [done|]. split; [done|]. split; [done|].
  split; [by eapply same_queue_trans|]. split; [done|]. split; [done|].
  intros ->. specialize (H2 eq_refl). specialize (H3 eq_refl).
  specialize (H5 eq_refl). specialize (H6 eq_refl).
  destruct Hss1 as (R & _ & _ & G & _). rewrite R, G in H3.
  destruct Hsq1 as (R' & _ & _ & G' & _). rewrite R', G' in H6. by constructor.
Qed.

(** The processor limits of the queue. *)
Lemma check_queue_proc_limits_spec q j :
  queue_wf parse q -> 0 <= procs j -> cores parse (fun _ => true) (q_running_jobs q) + procs j < 2 ^ 31 ->
  spec_total_procs (parse (nodespec j)) = procs j ->
  check_queue_proc_limits parse q j = Ret 0 -> procs_room q j.
Proof.
  intros Hq Hj Hb Hp. unfold check_queue_proc_limits, count_queue_procs, count_queue_user_procs,
    count_queue_group_procs. rewrite !(expects_running_ok parse) by done.
  rewrite !(sum_procs_cores parse) by apply Hq.
  rewrite Hp. cbn [obind].
  pose proof (fun p => cores_bounds parse p _ (qw_procs parse q Hq)) as Hc.
  assert (Hi : forall p, i32 (cores parse p (q_running_jobs q) + procs j)
                         = cores parse p (q_running_jobs q) + procs j)
    by (intros p; specialize (Hc p); apply i32_id; in_range).
  rewrite !Hi.
  assert (Hlim : forall lim n b, (if negb (lim =? RESC_INFINITY) then Ret (n >? lim) else Ret false) = Ret b ->
    b = false -> kept lim n).
  { intros lim n b H ->. unfold kept. destruct (Z.eqb_spec lim RESC_INFINITY); [by left|]. right.
    injection H as H. rewrite Z.gtb_ltb in H. by apply Z.ltb_ge in H. }
  unfold QUEUE_PROC_LIMIT_REACHED, QUEUE_USER_PROC_LIMIT_REACHED, QUEUE_GROUP_PROC_LIMIT_REACHED.
  destruct (if negb (q_max_proc q =? _) then _ else _) as [b1| |] eqn:E1; cbn [obind]; [|done..].
  destruct b1; [done|].
  destruct (if negb (q_max_user_proc q =? _) then _ else _) as [b2| |] eqn:E2; cbn [obind]; [|done..].
  destruct b2; [done|].
  destruct (if negb (q_max_group_proc q =? _) then _ else _) as [b3| |] eqn:E3; cbn [obind]; [|done..].
  destruct b3; [done|]. intros _. constructor; eapply Hlim; eauto.
Qed.
End Sound.

(** ** Dedicated time *)

(** Outside dedicated time a job that passes has a walltime and ends before
    every dedicated time of the configuration begins. *)
Definition clear_of_ded_time (c : config) (s : status) (j : JobInfo) : Prop :=
  forall g, g ∈ ded_time c -> from g <> 0 ->
  exists req, find_resource_req (resreq j) "walltime" = Some req /\
    i64 (current_time s + req_amount req) <= from g.

Lemma check_ded_time_spec c s j :
  ordered ded_lt (ded_time c) -> st_ded_time s = false ->
  check_ded_time_boundry c s j = Ret 0 -> clear_of_ded_time c s j.
Proof.
  intros Ho Hs. unfold check_ded_time_boundry, clear_of_ded_time.
  destruct (ded_time c) as [|h l]; [done|]. destruct Ho as [Hh _]. rewrite Forall_forall in Hh.
  assert (Hle : forall g, g ∈ h :: l -> from g <> 0 -> from h <> 0 /\ from h <= from g).
  { intros g [->|Hg]%elem_of_cons Hn; [done|]. specialize (Hh g Hg).
    unfold ded_lt, cmp_ded_time in Hh. revert Hh. case_bools; intros; try done; lia. }
  destruct (Z.eqb_spec (from h) 0) as [E|E]; cbn [negb].
  { intros _ g Hg Hn. by destruct (Hle g Hg Hn). }
  destruct (find_resource_req _ _) as [req|]; [|done]. cbv zeta. rewrite Hs. cbn [negb andb].
  rewrite Z.gtb_ltb. destruct (Z.ltb_spec (from h) (i64 (current_time s + req_amount req))); [done|].
  intros _ g Hg Hn. exists req. split; [done|]. destruct (Hle g Hg Hn). lia.
Qed.

(** ** The nodes *)

Section Nodes.
Variable db : RescInfoDb.
Variable reg : PropRegistry.
Variable now : Z.
Variable parse : string -> pars_spec.
Variable denied : string -> string -> string -> bool.
Variable q : queue_info.
Variable current_time : Z.

(** The schedule holds pairwise different nodes, as many as were requested. *)
Definition assigned_exactly (j : JobInfo) (sched : list positive) : Prop :=
  NoDup sched /\ length sched = nodes_requested (spec_nodes (parsed_nodespec parse j)).

Lemma try_assign_spec_exact dyn overlimit st j nodes st' sched' :
  no_slaves st ->
  try_assign_spec db dyn now parse denied overlimit q (st, []) j nodes = Ret (CheckAvailable, (st', sched')) ->
  assigned_exactly j sched'.
Proof.
  intros Hns H.
  destruct (try_assign_specs_grows db dyn now parse denied overlimit q j
    (spec_nodes (parsed_nodespec parse j)) (spec_nodes (parsed_nodespec parse j)) (st, []) nodes
    CheckAvailable CheckAvailable (st', sched') ltac:(done) Hns H) as (k & (new & E & L & N & _) & Hk).
  simpl in E. subst sched'. destruct (Hk eq_refl) as [_ ->]. by split.
Qed.

Lemma nodes_preassign_clean_no_slaves st nodes : no_slaves st -> no_slaves (nodes_preassign_clean st nodes).
Proof.
  unfold nodes_preassign_clean. revert st. induction nodes as [|p nodes IH]; intros st Hs; [done|].
  simpl. apply IH. unfold set_node_assign. destruct (st !! p) as [n|] eqn:E; [|done].
  intros r m. destruct (decide (p = r)) as [<-|Hne].
  - rewrite lookup_insert_eq. intros [= <-]. simpl. by eapply Hs.
  - rewrite lookup_insert_ne by done. apply Hs.
Qed.

Lemma find_nodes_exact dyn overlimit st j nodes st' sched' :
  no_slaves st ->
  find_nodes db dyn now parse denied overlimit q reg (st, []) j nodes = Ret (CheckAvailable, (st', sched')) ->
  assigned_exactly j sched'.
Proof.
  intros Hns. unfold find_nodes. destruct (negb _); [|by apply try_assign_spec_exact].
  destruct (get_property_id _ _) as [found prop_id]. destruct (negb found); [done|].
  destruct (value_count _ _) as [[a count]|]; cbn [of_option obind]; [|done].
  assert (H : forall count i (a : asg) r, no_slaves (fst a) -> r <> CheckAvailable ->
    find_nodes_loop db dyn now parse denied overlimit q count i prop_id a j nodes r
    = Ret (CheckAvailable, (st', sched')) ->
    assigned_exactly j sched'); [|by apply (H count 0%nat (st, []))].
  clear. induction count as [|count IH]; intros i a r Hns Hr; cbn [find_nodes_loop]; [congruence|].
  cbv zeta. cbn [fst].
  pose proof (nodes_preassign_clean_no_slaves (fst a) nodes Hns) as Hc.
  destruct (try_assign_spec _ _ _ _ _ _ _ _ _ _) as [[ret [st1 s1]]| |] eqn:E; cbn [obind]; [|done..].
  assert (Hns1 : no_slaves st1).
  { destruct (try_assign_specs_grows db dyn now parse denied overlimit q j
      (spec_nodes (parsed_nodespec parse j)) (spec_nodes (parsed_nodespec parse j))
      (nodes_preassign_clean (fst a) nodes, []) _ _ _ _
      ltac:(done) Hc E) as (k & Hg & _). by apply grows_no_slaves in Hg. }
  destruct ret; [|by apply (IH _ (st1, s1))..].
  intros [= -> ->]. exact (try_assign_spec_exact _ _ _ _ _ _ _ Hc E).
Qed.

Lemma check_nodespec_success st s j nodes st' s' j' :
  no_slaves st -> schedule j = [] ->
  check_nodespec db reg now parse denied q current_time st s j nodes = Ret (SUCCESS, st', s', j') ->
  s' = s /\ assigned_exactly j (schedule j') /\ account j' = account j /\ group j' = group j /\
  total_procs parse j' = total_procs parse j.
Proof.
  intros Hns Hsched. unfold check_nodespec. cbv zeta. rewrite Hsched.
  destruct (filter_nodes _ _ _) as [suitable| |]; cbn [obind]; [|done..].
  destruct (find_nodes _ _ _ _ _ _ _ _ _ _ _) as [[result [st1 sched]]| |] eqn:E; cbn [obind]; [|done..].
  destruct result.
  - destruct (calculate_fairshare_cost _ _ _ _ _) as [[st2 cost]| |]; cbn [obind]; [|done..].
    intros [= <- <- <-]. split; [done|]. split; [by eapply find_nodes_exact|]. by split_and!.
  - clear E. destruct (is_admin_queue q); [done|]. destruct (is_starving _ _ _); [|done].
    destruct (find_nodes _ _ _ _ _ _ _ _ _ _ _) as [[r2 [st2 sched2]]| |]; cbn [obind]; [|done..].
    destruct (is_result r2 CheckOccupied); [done|].
    destruct (plan_starving _ _ _ _ _) as [[]| |]; cbn [obind]; done.
  - done.
Qed.
End Nodes.

Lemma cloud_check_job parse cache getgr lines j :
  exists b, snd (cloud_check cache getgr lines j) = j <| can_never_run := b |> /\
  total_procs parse (j <| can_never_run := b |>) = total_procs parse j.
Proof.
  unfold cloud_check.
  match goal with |- context [let '(_, _) := ?e in _] => destruct e as [ret never] end.
  exists (if never then true else can_never_run j). split; [|done].
  assert (E : (if never then j <| can_never_run := true |> else j)
              = j <| can_never_run := if never then true else can_never_run j |>)
    by (destruct never; by destruct j).
  rewrite E. destruct (negb _); [done|]. destruct (bool_decide _); [|done]. by destruct (cache _ _).
Qed.

Section Accept.
Variable db : RescInfoDb.
Variable reg : PropRegistry.
Variable conf : config.
Variable cstat : status.
Variable now : Z.
Variable parse : string -> pars_spec.
Variable denied : string -> string -> string -> bool.
Variable cache : string -> string -> option string.
Variable getgr : string -> option (list string).
Variable lines : option (list (string * string)).
Notation procs := (total_procs parse).
Notation is_ok := (is_ok_to_run_job db reg conf cstat now parse denied cache getgr lines).

(** The state in which a check starts. *)
Record check_pre (x : chk) : Prop := {
  cp_server : server_wf (c_srv x);
  cp_queue : queue_wf parse (c_queue x);
  cp_nodes : no_slaves (c_nodes x);
  cp_schedule : schedule (c_job x) = [];
  cp_spec : spec_total_procs (parse (nodespec (c_job x))) = procs (c_job x);
  cp_procs : 0 <= procs (c_job x);
  cp_cores : cores parse (fun _ => true) (q_running_jobs (c_queue x)) + procs (c_job x) < 2 ^ 31
}.

Record accepted (x x' : chk) : Prop := {
  ac_exec : default 0 (exec_count (c_srv x) !! account (c_job x)) < max_user_run_conf conf;
  ac_room : room_for (c_srv x) (c_queue x) (c_job x);
  ac_procs : procs_room parse (c_queue x) (c_job x);
  ac_ded : ordered ded_lt (ded_time conf) -> st_ded_time cstat = false ->
           clear_of_ded_time conf cstat (c_job x);
  ac_dynamic : forall name i req, db !! name = Some i -> ri_source i = ResCheckDynamic ->
           find_resource_req (resreq (c_job x)) (ri_name i) = Some req ->
           exists d, dynamic_resources (c_srv x) !! ri_name i = Some d /\
             Dyn.would_fit d (req_amount req) = true;
  ac_nodes : assigned_exactly parse (c_job x) (schedule (c_job x'));
  ac_wf : server_wf (c_srv x') /\ queue_wf parse (c_queue x');
  ac_same : running_jobs (c_srv x') = running_jobs (c_srv x) /\ max_run (c_srv x') = max_run (c_srv x) /\
            max_user_run (c_srv x') = max_user_run (c_srv x) /\
            max_group_run (c_srv x') = max_group_run (c_srv x) /\ same_queue (c_queue x) (c_queue x');
  ac_job : account (c_job x') = account (c_job x) /\ group (c_job x') = group (c_job x) /\
           procs (c_job x') = procs (c_job x)
}.

Lemma check_dynamic_resources_spec s j :
  check_dynamic_resources db s j = SUCCESS ->
  forall name i req, db !! name = Some i -> ri_source i = ResCheckDynamic ->
    find_resource_req (resreq j) (ri_name i) = Some req ->
    exists d, dynamic_resources s !! ri_name i = Some d /\ Dyn.would_fit d (req_amount req) = true.
Proof.
  unfold check_dynamic_resources. destruct (forallb _ _) eqn:E; [|done].
  intros _ name i req Hi Hdyn Hreq. rewrite forallb_forall in E.
  specialize (E (name, i)). rewrite <- list_elem_of_In, elem_of_map_to_list in E. specialize (E Hi).
  unfold dynamic_request_fits in E. rewrite bool_decide_true, Hreq in E by done. simpl in E.
  destruct (dynamic_resources s !! ri_name i) as [d|]; [|done]. eauto.
Qed.

Lemma check_resources_success nodes x x' :
  no_slaves (c_nodes x) -> schedule (c_job x) = [] ->
  check_resources db reg conf cstat now parse denied cache getgr lines nodes x = Ret (SUCCESS, x') ->
  check_ded_time_boundry conf cstat (c_job x) = Ret 0 /\
  check_dynamic_resources db (c_srv x) (c_job x) = SUCCESS /\
  assigned_exactly parse (c_job x) (schedule (c_job x')) /\
  c_srv x' = c_srv x /\ c_queue x' = c_queue x /\
  account (c_job x') = account (c_job x) /\ group (c_job x') = group (c_job x) /\
  procs (c_job x') = procs (c_job x).
Proof.
  intros Hns Hsched. unfold check_resources.
  destruct (check_ded_time_boundry _ _ _) as [rc| |] eqn:Ed; cbn [obind]; [|done..].
  destruct (Z.eqb_spec rc 0) as [->|Hrc]; cbn [negb].
  2: { intros [= -> <-]. exfalso. revert Ed. unfold check_ded_time_boundry.
       destruct (ded_time conf); [done|]. destruct (negb _); [|done].
       destruct (find_resource_req _ _); [|done]. cbv zeta. by repeat destruct (_ && _). }
  destruct (cloud_check_job parse cache getgr lines (c_job x)) as (b & Ej & Hprocs).
  destruct (cloud_check cache getgr lines (c_job x)) as [rc j] eqn:Ec. cbn [snd] in Ej.
  cbn [c_srv c_queue c_nodes c_job].
  destruct (Z.eqb_spec rc 0) as [->|Hrc]; cbn [negb].
  2: { intros [= -> <-]. exfalso. revert Ec. unfold cloud_check, cloud_permission.
       repeat case_match; intros; simplify_eq. }
  destruct (Z.eqb_spec (check_dynamic_resources db (c_srv x) j) SUCCESS) as [Edyn|]; cbn [negb]; [|done].
  destruct (check_nodespec _ _ _ _ _ _ _ _ _ _ _) as [[[[rc st] s] j']| |] eqn:En; cbn [obind]; [|done..].
  intros [= -> <-]. cbn [c_srv c_queue c_nodes c_job].
  apply check_nodespec_success in En as (-> & Hn & Ha & Hg & Hp); [|done|by subst j].
  subst j. split_and!; done || congruence.
Qed.

(** No check of a limit answers [SUCCESS]. *)
Lemma check_run_limits_code x : fst (check_run_limits x) <> SUCCESS.
Proof.
  destruct x as [s q j st]. unfold check_run_limits, check_server_max_run, check_server_max_user_run,
    check_server_max_group_run, check_queue_max_run, check_queue_max_user_run, check_queue_max_group_run.
  repeat case_match; simplify_eq; done.
Qed.

Lemma check_queue_proc_limits_code q j : check_queue_proc_limits parse q j <> Ret SUCCESS.
Proof.
  unfold check_queue_proc_limits. cbv zeta.
  do 3 (match goal with |- context [obind ?e _] => destruct e as [[]| |] end; cbn [obind]; try done).
Qed.

Lemma is_ok_to_run_job_accepts x x' :
  check_pre x -> is_ok x = Ret (SUCCESS, x') -> accepted x x'.
Proof.
  intros [Hs Hq Hns Hsched Hspec Hprocs Hcores]. destruct x as [s q j st]. cbn [c_srv c_queue c_job c_nodes] in *.
  unfold is_ok_to_run_job.
  set (s0 := s <| exec_count := _ |>).
  assert (Hs0 : server_wf s0) by (by destruct Hs; constructor).
  destruct (Z.geb_spec (default 0 (exec_count s !! account j)) (max_user_run_conf conf)) as [|Hexec]; [done|].
  destruct (negb (String.eqb (placement j) "") && _); [done|].
  change (srv_nodes s0) with (srv_nodes s). destruct (srv_nodes s); [done|].
  pose proof (check_run_limits_spec parse (mkChk s0 q j st) Hs0 Hq) as Hlim.
  pose proof (check_run_limits_code (mkChk s0 q j st)) as Hcode.
  destruct (check_run_limits (mkChk s0 q j st)) as [rc x1]. cbn [fst c_srv c_queue c_job c_nodes] in Hlim.
  destruct Hlim as (Hs1 & Hq1 & Hss & Hsq & Hj1 & Hn1 & Hroom).
  destruct (Z.eqb_spec rc 0) as [->|Hrc]; cbn [negb].
  2: { intros [= -> _]. done. }
  destruct (check_queue_proc_limits parse (c_queue x1) j) as [rc| |] eqn:Ep; cbn [obind]; [|done..].
  destruct (Z.eqb_spec rc 0) as [->|Hrc]; cbn [negb].
  2: { intros [= -> _]. by apply check_queue_proc_limits_code in Ep. }
  pose proof Hsq as (Erun & Elim).
  apply check_queue_proc_limits_spec in Ep; [|done|done|by rewrite Erun|done].
  intros Hres. apply check_resources_success in Hres as (Hded & Hdyn & Hnodes & Es & Eq & Ea & Eg & Epr);
    [|by rewrite Hn1|by rewrite Hj1].
  rewrite Hj1 in *. destruct Hss as (R1 & R2 & R3 & R4 & R5 & _).
  constructor; cbn [c_srv c_queue c_job]; try done.
  - destruct (Hroom eq_refl). by constructor.
  - destruct Elim as (_ & _ & _ & L1 & L2 & L3). destruct Ep as [P1 P2 P3].
    rewrite L1, Erun in P1. rewrite L2, Erun in P2. rewrite L3, Erun in P3. by constructor.
  - intros. by apply check_ded_time_spec.
  - intros name i req H1 H2 H3.
    destruct (check_dynamic_resources_spec _ _ Hdyn name i req H1 H2 H3) as (d & Hd & Hfit).
    exists d. split; [|done]. by rewrite R5 in Hd.
  - by rewrite Es, Eq.
  - rewrite Es, Eq. by split_and!.
Qed.

(** Once the server has taken the job: the server, then the queue, are updated,
    and the job runs (SchedulerRealm.cpp, try_run_job). *)
Definition start_job (x : chk) : outcome chk :=
  let! (st, s) := server_update_on_job_run db parse (c_nodes x) (c_srv x) (c_job x) in
  let! q := update_on_job_run parse (c_queue x) (c_job x) in
  Ret (mkChk s q (update_job_on_run (c_job x)) st).

(** C8: A job that passes [is_ok_to_run_job] may run: its owner is within the
    starts of the cycle, the server and the queue have room for one more job, of
    this user and of this group, and for its processors; outside dedicated time
    it has a walltime and ends before every dedicated time begins; every dynamic
    resource it asks for fits; and its schedule is exactly the requested number
    of different nodes.  The checks only fill caches with the numbers that would
    be recomputed. *)
Theorem job_check_sound (x x' : chk) (Hpre : check_pre x) (Hok : is_ok x = Ret (SUCCESS, x')) :
  accepted x x'.
Proof. by apply is_ok_to_run_job_accepts. Qed.

(** C7: Running accepted jobs never breaks a limit: when the limits of the server
    and of the queue - running jobs in all, per user and per group, and
    processors in all, per user and per group - hold for every user and group,
    and a job passes [is_ok_to_run_job] and is started, they hold afterwards,
    the new job counted, and the bookkeeping they are read from is exact. *)
Theorem accepted_job_keeps_limits (x x' x'' : chk) (Hpre : check_pre x)
    (Hlim : limits_hold parse (c_srv x) (c_queue x))
    (Hlen : Z.of_nat (length (running_jobs (c_srv x))) + 1 < 2 ^ 31)
    (Hlenq : Z.of_nat (length (q_running_jobs (c_queue x))) + 1 < 2 ^ 31)
    (Hok : is_ok x = Ret (SUCCESS, x')) (Hstart : start_job x' = Ret x'') :
  limits_hold parse (c_srv x'') (c_queue x'') /\
  server_wf (c_srv x'') /\ queue_wf parse (c_queue x'').
Proof.
  destruct (is_ok_to_run_job_accepts x x' Hpre Hok) as
    [_ Hroom Hprocs _ _ _ [Hs Hq] (R1 & R2 & R3 & R4 & (Q1 & Q2)) (J1 & J2 & J3)].
  revert Hstart. unfold start_job.
  destruct (server_update_on_job_run _ _ _ _ _) as [[st s]| |] eqn:Es; cbn [obind]; [|done..].
  apply server_update_spec in Es as (Hs2 & S1 & S2 & S3 & S4); [|done|by rewrite R1].
  destruct (update_on_job_run_spec parse (c_queue x') (c_job x') Hq) as (q2 & -> & Hq2 & E1 & _ & E2);
    [rewrite J3; apply Hpre|rewrite Q1, J3; apply Hpre|by rewrite Q1|].
  cbn [obind]. intros [= <-]. cbn [c_srv c_queue]. split; [|done].
  assert (Hl : limits_hold parse (c_srv x') (c_queue x')).
  { destruct Q2 as (L1 & L2 & L3 & L4 & L5 & L6). destruct Hlim.
    constructor; rewrite ?R1, ?R2, ?R3, ?R4, ?Q1, ?L1, ?L2, ?L3, ?L4, ?L5, ?L6; done. }
  eapply limits_hold_snoc; [exact Hl| | |rewrite J3; apply Hpre|done..].
  - destruct Q2 as (L1 & L2 & L3 & _). destruct Hroom.
    constructor; rewrite ?R1, ?R2, ?R3, ?R4, ?Q1, ?L1, ?L2, ?L3, ?J1, ?J2; done.
  - destruct Q2 as (_ & _ & _ & L4 & L5 & L6). destruct Hprocs.
    constructor; rewrite ?Q1, ?L4, ?L5, ?L6, ?J1, ?J2, ?J3; done.
Qed.
End Accept.

(** ** An example: one node of eight cores, a job of four *)

Definition example_conf : config := init_config_defaults init_config_conf.
Definition example_job : JobInfo :=
  new_JobInfo "1.srv" <| account := "ann"%string |> <| group := "g"%string |>
    <| nodespec := "1:ppn=4"%string |>.
Definition example_chk : chk :=
  mkChk (new_server_info "srv" <| srv_nodes := [1%positive] |> <| non_dedicated_nodes := [1%positive] |>
           <| max_user_run := 1 |>)
    (new_queue_info "q" <| q_max_proc := 8 |>) example_job assign_example_store.

Definition example_is_ok (x : chk) : outcome (Z * chk) :=
  is_ok_to_run_job ∅ (mkPropRegistry ∅ [] [] []) example_conf zero_status 0 toy_parse_nodespec
    (fun _ _ _ => false) (fun _ _ => None) (fun _ => None) None x.

Lemma example_check_pre : check_pre toy_parse_nodespec example_chk.
Proof.
  constructor; try done; try (constructor; done). apply assign_example_no_slaves.
Qed.

Lemma job_check_sound_witness :
  exists x', example_is_ok example_chk = Ret (SUCCESS, x') /\ length (schedule (c_job x')) = 1%nat.
Proof.
  unfold example_is_ok. eexists.
  match goal with |- ?A = Ret _ /\ _ =>
    let v := eval vm_compute in A in
    match v with Ret (_, ?x) => assert (H : A = Ret (SUCCESS, x)) by (vm_compute; reflexivity) end end.
  split; [exact H|].
  destruct (ac_nodes _ _ _ _ _ _ (job_check_sound _ _ _ _ _ _ _ _ _ _ _ _ example_check_pre H))
    as [_ Hl]. rewrite Hl. vm_compute. reflexivity.
Defined.

Lemma example_limits_hold : limits_hold toy_parse_nodespec (c_srv example_chk) (c_queue example_chk).
Proof.
  constructor; intros; try (by left); right; vm_compute; discriminate.
Qed.

Lemma accepted_job_keeps_limits_witness :
  exists x' x'', example_is_ok example_chk = Ret (SUCCESS, x') /\
    start_job ∅ toy_parse_nodespec x' = Ret x'' /\
    limits_hold toy_parse_nodespec (c_srv x'') (c_queue x'') /\
    fst <$> (match example_is_ok x'' with Ret r => Some r | _ => None end) = Some SERVER_USER_LIMIT_REACHED.
Proof.
  unfold example_is_ok at 1. eexists _, _.
  match goal with |- ?A = Ret _ /\ _ =>
    let v := eval vm_compute in A in
    match v with Ret (_, ?x) => assert (H : A = Ret (SUCCESS, x)) by (vm_compute; reflexivity) end end.
  split; [exact H|].
  match goal with |- ?A = Ret _ /\ _ =>
    let v := eval vm_compute in A in
    match v with Ret ?x => assert (H2 : A = Ret x) by (vm_compute; reflexivity) end end.
  split; [exact H2|]. split; [|vm_compute; reflexivity].
  refine (proj1 (accepted_job_keeps_limits _ _ _ _ _ _ _ _ _ _ _ _ _ example_check_pre example_limits_hold
    _ _ H H2)); vm_compute; reflexivity.
Defined.

(** ** The check of a queue, and dedicated times that were missed *)

(** A queue is scheduled exactly when it is an execution queue that is
    started, takes jobs in the present time - a dedicated-time queue in dedicated
    time, any other outside of it - and is not in the list of ignored queues.
    Whether the queue is local to a remote server, which the last check of the
    chain tests, plays no part: [check_ignored] answers [SUCCESS], not 0, and
    ends the chain. *)
Theorem is_ok_to_run_queue_exact (c : config) (s : status) (server_name : string) (q : queue_info) :
  is_ok_to_run_queue c s server_name q = SUCCESS <->
    is_exec q = true /\ is_started q = true /\ dedtime_queue q = st_ded_time s /\
    Forall (fun n => strcmp (q_name q) n <> 0) (ignored_queues c).
Proof.
  unfold is_ok_to_run_queue, check_ignored, check_ded_time_queue. cbv zeta.
  assert (E : existsb (fun n => strcmp (q_name q) n =? 0) (ignored_queues c) = false <->
    Forall (fun n => strcmp (q_name q) n <> 0) (ignored_queues c)).
  { induction (ignored_queues c) as [|n l IH]; simpl; [done|]. rewrite orb_false_iff, Forall_cons, IH.
    by rewrite Z.eqb_neq. }
  rewrite <- E. clear E.
  destruct (is_exec q), (is_started q), (st_ded_time s), (dedtime_queue q), (existsb _ _);
    split; intros; try done; naive_solver.
Qed.

(** A dedicated time that began and ended between two cycle starts stays at the
    front of the table, and no job with a walltime, or without one, passes. *)
Lemma missed_ded_time_blocks c s j g l :
  ded_time c = g :: l -> from g <> 0 -> st_ded_time s = false -> from g < current_time s ->
  (forall r, find_resource_req (resreq j) "walltime" = Some r ->
     0 <= req_amount r /\ in_s 64 (current_time s + req_amount r)) ->
  check_ded_time_boundry c s j = Ret CROSS_DED_TIME_BOUNDRY.
Proof.
  intros Hc Hg Hs Hp Hw. unfold check_ded_time_boundry. rewrite Hc.
  destruct (Z.eqb_spec (from g) 0); [done|]. cbn [negb].
  destruct (find_resource_req _ _) as [r|]; [|done]. destruct (Hw r eq_refl) as [H1 H2].
  cbv zeta. rewrite i64_id by done. rewrite Hs, Z.gtb_ltb. cbn [negb andb].
  by destruct (Z.ltb_spec (from g) (current_time s + req_amount r)); [|lia].
Qed.
