(* ===== verification/PlanData.v ===== *)
(** * The data of the plan: plan_data_types.h

    The plan of a cluster is three doubly linked lists: jobs, gaps and limits.
    The links of an item are kept apart from its data, in the cell of the heap
    that holds the item (PlanList). *)

From Stdlib Require Import ZArith Lia Bool Ascii String SpecFloat.
From S2P Require Import Prelude DataTypes JobInfo.

Open Scope Z_scope.

Inductive listtype := Gaps | Jobs | Limits.

(** [DEFAULT_WALLTIME]: plan_config.h *)
Definition DEFAULT_WALLTIME : Z := 86400.

(** A planned job; [req_ppn] is per node, and [jinfo] a key of the store of the
    jobs the server reported.  The arrays of nodes, of their names
    and of the first free CPU indices are lists. *)
Record plan_job := mkPlanJob {
  pj_job_id : Z;
  pj_jinfo : option positive;
  pj_start_time : Z;
  pj_completion_time : Z;
  pj_estimated_processing : Z;
  pj_due_date : Z;
  pj_available_after : Z;
  pj_run_me : Z;
  pj_usage : Z;
  pj_req_ppn : Z;
  pj_original_req_ppn : Z;
  pj_req_num_nodes : Z;
  pj_req_mem : Z;
  pj_req_scratch_local : Z;
  pj_req_gpu : Z;
  pj_ninfo_arr : list (option positive);
  pj_fixed_nname_arr : option (list (option string));
  pj_fixed_nname_arr_backup : option (list (option string));
  pj_cpu_indexes : list Z;
  pj_latest_ncpu_index : list Z;
  pj_sch_nodespec : option string;
  pj_is_paused : bool;
  pj_account_id : Z
}.

#[export] Instance plan_job_fields : Fields plan_job :=
  fields_app (fields_app (fields_app (fields_app (fields_app (fields_app (fields_app
  (fields_app (fields_app (fields_app (fields_app (fields_app (fields_app (fields_app
  (fields_app (fields_app (fields_app (fields_app (fields_app (fields_app (fields_app
  (fields_app (fields_app (fields_const mkPlanJob)
  pj_job_id) pj_jinfo) pj_start_time) pj_completion_time) pj_estimated_processing) pj_due_date)
  pj_available_after) pj_run_me) pj_usage) pj_req_ppn) pj_original_req_ppn) pj_req_num_nodes)
  pj_req_mem) pj_req_scratch_local) pj_req_gpu) pj_ninfo_arr) pj_fixed_nname_arr)
  pj_fixed_nname_arr_backup) pj_cpu_indexes) pj_latest_ncpu_index) pj_sch_nodespec)
  pj_is_paused) pj_account_id.

(** What a node still offers during a gap. *)
Record plan_gap_mem := mkGapMem {
  gm_ninfo : option positive;
  gm_num_cpus : Z;
  gm_available_mem : Z;
  gm_available_scratch_local : Z;
  gm_tmp_used_cpus : Z;
  gm_updated : Z
}.

#[export] Instance plan_gap_mem_fields : Fields plan_gap_mem :=
  fields_app (fields_app (fields_app (fields_app (fields_app (fields_app (fields_const mkGapMem)
  gm_ninfo) gm_num_cpus) gm_available_mem) gm_available_scratch_local) gm_tmp_used_cpus) gm_updated.

(** A gap; [pg_following_job] points into the list of jobs. *)
Record plan_gap := mkPlanGap {
  pg_start_time : Z;
  pg_end_time : Z;
  pg_duration : Z;
  pg_usage : Z;
  pg_num_nodes : Z;
  pg_nodes_memory : option (list plan_gap_mem);
  pg_following_job : option positive
}.

#[export] Instance plan_gap_fields : Fields plan_gap :=
  fields_app (fields_app (fields_app (fields_app (fields_app (fields_app (fields_app (fields_const mkPlanGap)
  pg_start_time) pg_end_time) pg_duration) pg_usage) pg_num_nodes) pg_nodes_memory) pg_following_job.

(** The processors an account uses from a moment on. *)
Record plan_limit_account := mkAccount { la_account_id : Z; la_num_cpus : list Z }.

Record plan_limit := mkPlanLimit {
  pl_timestamp : Z;
  pl_accounts : list plan_limit_account;
  pl_num_accounts : Z;
  pl_capacity : Z
}.

#[export] Instance plan_limit_fields : Fields plan_limit :=
  fields_app (fields_app (fields_app (fields_app (fields_const mkPlanLimit)
  pl_timestamp) pl_accounts) pl_num_accounts) pl_capacity.

(** The nodes are keys of the node store; the arrays of the source have
    [pc_num_nodes] entries. *)
Record plan_cluster := mkCluster {
  pc_cluster_name : option string;
  pc_num_properties : Z;
  pc_cluster_properties : gset string;
  pc_sinfo : option positive;
  pc_num_nodes : Z;
  pc_nodes : list positive;
  pc_nodes_name : list string;
  pc_num_cpus : Z;
  pc_num_running_cpus : Z;
  pc_num_queued_jobs : Z;
  pc_available_ram : Z
}.

#[export] Instance plan_cluster_fields : Fields plan_cluster :=
  fields_app (fields_app (fields_app (fields_app (fields_app (fields_app (fields_app
  (fields_app (fields_app (fields_app (fields_app (fields_const mkCluster)
  pc_cluster_name) pc_num_properties) pc_cluster_properties) pc_sinfo) pc_num_nodes) pc_nodes)
  pc_nodes_name) pc_num_cpus) pc_num_running_cpus) pc_num_queued_jobs) pc_available_ram.

(** When a processor of a node is free first, in the simulation of the plan.
    [ff_releated_cpus] are the indices of the processors of the node, an array
    that its processors share; [ff_ninfo] is [None] in a slot that is not filled. *)
Record first_free_slot := mkSlot {
  ff_time : Z;
  ff_ninfo : option positive;
  ff_free_to_run : Z;
  ff_releated_cpus : list Z;
  ff_mem : Z;
  ff_scratch_local : Z;
  ff_available_mem : Z;
  ff_available_scratch_local : Z;
  ff_mem_used_per_cpu : Z;
  ff_scratch_local_used_per_cpu : Z;
  ff_updated : Z
}.

#[export] Instance first_free_slot_fields : Fields first_free_slot :=
  fields_app (fields_app (fields_app (fields_app (fields_app (fields_app (fields_app
  (fields_app (fields_app (fields_app (fields_app (fields_const mkSlot)
  ff_time) ff_ninfo) ff_free_to_run) ff_releated_cpus) ff_mem) ff_scratch_local) ff_available_mem)
  ff_available_scratch_local) ff_mem_used_per_cpu) ff_scratch_local_used_per_cpu) ff_updated.
