(* ===== verification/PlanList.v ===== *)
(** * The linked lists of the plan: plan_list_operations.cpp

    An item is a cell of a heap: its data and its two links.  A [plan_list] is
    the header of a doubly linked list; the operations rearrange the links in
    place.  What they promise is stated over the sequence of the items: [lists]
    relates a heap and a header to it, and each operation refines an operation
    on sequences. *)

From Stdlib Require Import ZArith Lia Bool Ascii String SpecFloat.
From S2P Require Import Prelude DataTypes JobInfo PlanData.

Open Scope Z_scope.
Local Open Scope sched_scope.

Record cell (A : Type) := mkCell { item : A; succ : option positive; pred : option positive }.
Arguments mkCell {A} _ _ _.
Arguments item {A} _.
Arguments succ {A} _.
Arguments pred {A} _.

Abbreviation heap A := (gmap positive (cell A)).

(** The header of a list, without the type, which the instances fix. *)
Record plan_list := mkList {
  num_items : Z;
  first : option positive;
  last_item : option positive;
  current : option positive
}.

#[export] Instance plan_list_fields : Fields plan_list :=
  fields_app (fields_app (fields_app (fields_app (fields_const mkList) num_items) first) last_item) current.

Section Lists.
Context {A : Type}.
(** What a null item is replaced by when it is added: [job_create] and
    [gap_create]; there is no default limit. *)
Variable create : option A.

Definition list_create : plan_list := mkList 0 None None None.

(** The links of a null pointer are null, and setting them does nothing; an item
    that is not allocated may not be touched. *)
Definition get_successor (h : heap A) (p : option positive) : outcome (option positive) :=
  match p with
  | None => Ret None
  | Some x => let! c := of_option (h !! x) in Ret (succ c)
  end.

Definition get_predeccessor (h : heap A) (p : option positive) : outcome (option positive) :=
  match p with
  | None => Ret None
  | Some x => let! c := of_option (h !! x) in Ret (pred c)
  end.

Definition set_successor (h : heap A) (p v : option positive) : outcome (heap A) :=
  match p with
  | None => Ret h
  | Some x => let! c := of_option (h !! x) in Ret (<[x := mkCell (item c) v (pred c)]> h)
  end.

Definition set_predeccessor (h : heap A) (p v : option positive) : outcome (heap A) :=
  match p with
  | None => Ret h
  | Some x => let! c := of_option (h !! x) in Ret (<[x := mkCell (item c) (succ c) v]> h)
  end.

Definition list_append (h : heap A) (l app : plan_list) : outcome (heap A * plan_list * Z) :=
  let! (h, l') :=
    if (num_items l >? 0) && (num_items app >? 0) then
      let! h := set_successor h (last_item l) (first app) in
      let! h := set_predeccessor h (first app) (last_item l) in
      Ret (h, mkList (i32 (num_items l + num_items app)) (first l) (last_item app) (current l))
    else Ret (h, l) in
  let l' :=
    if num_items l' =? 0
    then mkList (i32 (num_items l' + num_items app)) (first app) (last_item app) (current l') else l' in
  Ret (h, l', 0).

Definition list_get_first (l : plan_list) : plan_list := l <| current := first l |>.
Definition list_get_last (l : plan_list) : plan_list := l <| current := last_item l |>.

(** The results are the new [current]. *)
Definition list_get_next (h : heap A) (l : plan_list) : outcome plan_list :=
  match current l with
  | None => Ret (l <| current := first l |>)
  | Some _ => let! s := get_successor h (current l) in Ret (l <| current := s |>)
  end.

Definition list_get_previous (h : heap A) (l : plan_list) : outcome plan_list :=
  match current l with
  | None => Ret (l <| current := last_item l |>)
  | Some _ => let! s := get_predeccessor h (current l) in Ret (l <| current := s |>)
  end.

(** The allocation of an item for a null one. *)
Definition new_item (h : heap A) (p : option positive) : heap A * option positive :=
  match p, create with
  | None, Some a => let x := fresh (dom h) in (<[x := mkCell a None None]> h, Some x)
  | _, _ => (h, p)
  end.

Definition add_infrontof (h : heap A) (l : plan_list) (next new : option positive)
  : outcome (heap A * plan_list * option positive) :=
  let '(h, new) := new_item h new in
  let! before := get_predeccessor h next in
  let! (h, l) :=
    match before with
    | Some _ => let! h := set_successor h before new in Ret (h, l)
    | None => Ret (h, l <| first := new |>)
    end in
  let! h := set_successor h new next in
  let! h := set_predeccessor h new before in
  let! h := set_predeccessor h next new in
  Ret (h, l <| num_items := i32 (num_items l + 1) |> <| current := new |>, new).

Definition add_inbackof (h : heap A) (l : plan_list) (previous new : option positive)
  : outcome (heap A * plan_list * option positive) :=
  let '(h, new) := new_item h new in
  let! after := get_successor h previous in
  let! (h, l) :=
    match after with
    | Some _ => let! h := set_predeccessor h after new in Ret (h, l)
    | None => Ret (h, l <| last_item := new |>)
    end in
  let! h := set_successor h new after in
  let! h := set_predeccessor h new previous in
  let! h := set_successor h previous new in
  Ret (h, l <| num_items := i32 (num_items l + 1) |> <| current := new |>, new).

Definition only_item (h : heap A) (l : plan_list) (new : option positive)
  : heap A * plan_list * option positive :=
  (h, mkList (i32 (num_items l + 1)) new new new, new).

(** A list that counts items but has no first one would make the two functions
    call each other without end. *)
Definition list_add_begin (h : heap A) (l : plan_list) (new : option positive)
  : outcome (heap A * plan_list * option positive) :=
  let '(h, new) := new_item h new in
  if num_items l =? 0 then Ret (only_item h l new)
  else match first l with None => UB | Some _ => add_infrontof h l (first l) new end.

Definition list_add_end (h : heap A) (l : plan_list) (new : option positive)
  : outcome (heap A * plan_list * option positive) :=
  let '(h, new) := new_item h new in
  if num_items l =? 0 then Ret (only_item h l new)
  else match last_item l with None => UB | Some _ => add_inbackof h l (last_item l) new end.

Definition list_add_infrontof (h : heap A) (l : plan_list) (next new : option positive)
  : outcome (heap A * plan_list * option positive) :=
  match next with None => list_add_begin h l new | Some _ => add_infrontof h l next new end.

Definition list_add_inbackof (h : heap A) (l : plan_list) (previous new : option positive)
  : outcome (heap A * plan_list * option positive) :=
  match previous with None => list_add_end h l new | Some _ => add_inbackof h l previous new end.

(** [n] steps along a link. *)
Fixpoint walk (link : heap A -> option positive -> outcome (option positive)) (n : nat) (h : heap A)
    (p : option positive) : outcome (option positive) :=
  match n with
  | O => Ret p
  | S n => let! p := link h p in walk link n h p
  end.

(** From the nearer end; the position is out of range when [current] stays. *)
Definition list_get_item (h : heap A) (l : plan_list) (position : Z)
  : outcome (plan_list * option positive) :=
  if (num_items l <=? position) || (position <? 0) then Ret (l, None)
  else
    let! p :=
      if num_items l / 2 <? position
      then walk get_predeccessor (Z.to_nat (num_items l - position - 1)) h (last_item l)
      else walk get_successor (Z.to_nat position) h (first l) in
    Ret (l <| current := p |>, p).

(** [rand] is the value of [rand()]; the remainder by zero is undefined. *)
Definition list_get_random_item (h : heap A) (l : plan_list) (count_limit rand : Z)
  : outcome (plan_list * option positive) :=
  if num_items l <? count_limit then Ret (l, None)
  else if num_items l =? 0 then UB
  else list_get_item h l (Z.rem rand (num_items l)).

(** The item is unlinked, and freed or left with null links. *)
Definition list_remove_item (h : heap A) (l : plan_list) (item_remove : option positive)
    (set_free : bool) : outcome (heap A * plan_list * Z) :=
  match item_remove with
  | None => Ret (h, l, 1)
  | Some x =>
      let! before := get_predeccessor h item_remove in
      let! after := get_successor h item_remove in
      let! (h, l) :=
        match before with
        | Some _ => let! h := set_successor h before after in Ret (h, l)
        | None => let! h := set_predeccessor h after None in Ret (h, l <| first := after |>)
        end in
      let! (h, l) :=
        match after with
        | Some _ => let! h := set_predeccessor h after before in Ret (h, l)
        | None => let! h := set_successor h before None in Ret (h, l <| last_item := before |>)
        end in
      let l := l <| num_items := i32 (num_items l - 1) |> <| current := None |> in
      let! h :=
        if set_free then Ret (delete x h)
        else
          let! h := set_successor h item_remove None in
          set_predeccessor h item_remove None in
      Ret (h, l, 0)
  end.

Definition list_remove (h : heap A) (l : plan_list) (position : Z) (set_free : bool)
  : outcome (heap A * plan_list * Z) :=
  let! (l, p) := list_get_item h l position in list_remove_item h l p set_free.

Definition list_move_item (h : heap A) (l : plan_list) (item_move predeccessor : option positive)
  : outcome (heap A * plan_list * Z) :=
  match item_move with
  | None => Ret (h, l, 1)
  | Some _ =>
      let! (h, l, _) := list_remove_item h l item_move false in
      let! (h, l, _) :=
        match predeccessor with
        | Some _ => list_add_inbackof h l predeccessor item_move
        | None => let l := list_get_first l in list_add_infrontof h l (current l) item_move
        end in
      Ret (h, l, 0)
  end.

(** [move && move]: the second move runs only when the first one fails. *)
Definition list_swap_item (h : heap A) (l : plan_list) (one two : option positive)
  : outcome (heap A * plan_list * Z) :=
  let and_then (h : heap A) (l : plan_list) (a pa b pb : option positive) :=
    let! (h, l, rc) := list_move_item h l a pa in
    if rc =? 0 then Ret (h, l, 0)
    else
      let! (h, l, rc) := list_move_item h l b pb in
      Ret (h, l, if rc =? 0 then 0 else 1) in
  match one, two with
  | Some _, Some _ =>
      if bool_decide (one = two) then Ret (h, l, 1)
      else
        let! p := get_predeccessor h one in
        match p with
        | Some _ => and_then h l one two two p
        | None =>
            let! p := get_predeccessor h two in
            match p with
            | Some _ => and_then h l two one one p
            | None => Ret (h, l, 0)
            end
        end
  | _, _ => Ret (h, l, 1)
  end.

Definition list_repleace_item (h : heap A) (l : plan_list) (item_old item_new : option positive)
    (set_free : bool) : outcome (heap A * plan_list * Z) :=
  match item_old, item_new with
  | Some old, Some _ =>
      if bool_decide (item_old = item_new) then Ret (h, l, 1)
      else
        let! s := get_successor h item_new in
        let! p := get_predeccessor h item_new in
        if negb (bool_decide (s = None) && bool_decide (p = None)) then Ret (h, l, 1)
        else
          let! after := get_successor h item_old in
          let! h := set_successor h item_new after in
          let! before := get_predeccessor h item_old in
          let! h := set_predeccessor h item_new before in
          let! (h, l) :=
            match after with
            | Some _ => let! h := set_predeccessor h after item_new in Ret (h, l)
            | None => Ret (h, l <| last_item := item_new |>)
            end in
          let! (h, l) :=
            match before with
            | Some _ => let! h := set_successor h before item_new in Ret (h, l)
            | None => Ret (h, l <| first := item_new |>)
            end in
          let! h :=
            if set_free then Ret (delete old h)
            else let! h := set_successor h item_old None in set_predeccessor h item_old None in
          Ret (h, l, 0)
  | _, _ => Ret (h, l, 1)
  end.
End Lists.

(** ** The sequence of a list *)

Section Facts.
Context {A : Type}.
Implicit Types (h : heap A) (xs ys : list positive) (l : plan_list).

Definition from_head xs (after : option positive) : option positive :=
  match xs with [] => after | y :: _ => Some y end.
Definition to_last (before : option positive) xs : option positive :=
  match last xs with None => before | Some y => Some y end.

(** The cells [xs] are linked one to the next, between [before] and [after]. *)
Fixpoint dseg h (before : option positive) xs (after : option positive) : Prop :=
  match xs with
  | [] => True
  | x :: xs' =>
      (exists a, h !! x = Some (mkCell a (from_head xs' after) before)) /\ dseg h (Some x) xs' after
  end.

Record lists h l xs : Prop := {
  ls_nodup : NoDup xs;
  ls_links : dseg h None xs None;
  ls_first : first l = head xs;
  ls_last : last_item l = last xs;
  ls_num : num_items l = Z.of_nat (length xs)
}.

Lemma to_last_app before xs ys : to_last before (xs ++ ys) = to_last (to_last before xs) ys.
Proof.
  unfold to_last. destruct ys as [|y ys] using rev_ind; [by rewrite app_nil_r|].
  by rewrite (assoc_L (++)), !last_snoc.
Qed.

Lemma dseg_app h before xs ys after :
  dseg h before (xs ++ ys) after <->
  dseg h before xs (from_head ys after) /\ dseg h (to_last before xs) ys after.
Proof.
  revert before. induction xs as [|x xs IH]; intros before; simpl; [naive_solver|].
  rewrite IH. assert (E : to_last (Some x) xs = to_last before (x :: xs))
    by (unfold to_last; simpl; by destruct xs as [|z xs] using rev_ind; [|rewrite app_comm_cons, !last_snoc]).
  rewrite E. assert (E2 : from_head (xs ++ ys) after = from_head xs (from_head ys after))
    by (by destruct xs).
  rewrite E2. naive_solver.
Qed.

Lemma dseg_alter h f x before xs after :
  x ∉ xs -> dseg h before xs after -> dseg (alter f x h) before xs after.
Proof.
  revert before. induction xs as [|y xs IH]; intros before Hx; simpl; [done|].
  apply not_elem_of_cons in Hx as [Hne Hx]. intros [(a & Ha) Hs]. split; [|by apply IH].
  exists a. by rewrite lookup_alter_ne.
Qed.

Lemma dseg_delete h x before xs after :
  x ∉ xs -> dseg h before xs after -> dseg (delete x h) before xs after.
Proof.
  revert before. induction xs as [|y xs IH]; intros before Hx; simpl; [done|].
  apply not_elem_of_cons in Hx as [Hne Hx]. intros [(a & Ha) Hs]. split; [|by apply IH].
  exists a. by rewrite lookup_delete_ne.
Qed.

(** Changing the links of one cell. *)
Definition hs (x : positive) (v : option positive) h : heap A :=
  alter (fun c => mkCell (item c) v (pred c)) x h.
Definition hp (x : positive) (v : option positive) h : heap A :=
  alter (fun c => mkCell (item c) (succ c) v) x h.

Lemma set_successor_hs h x v : is_Some (h !! x) -> set_successor h (Some x) v = Ret (hs x v h).
Proof.
  intros [c Hc]. unfold set_successor, hs. rewrite Hc. cbn. f_equal.
  apply map_eq. intros y. destruct (decide (x = y)) as [<-|].
  - by rewrite lookup_insert_eq, lookup_alter_eq, Hc.
  - by rewrite lookup_insert_ne, lookup_alter_ne.
Qed.

Lemma set_predeccessor_hp h x v : is_Some (h !! x) -> set_predeccessor h (Some x) v = Ret (hp x v h).
Proof.
  intros [c Hc]. unfold set_predeccessor, hp. rewrite Hc. cbn. f_equal.
  apply map_eq. intros y. destruct (decide (x = y)) as [<-|].
  - by rewrite lookup_insert_eq, lookup_alter_eq, Hc.
  - by rewrite lookup_insert_ne, lookup_alter_ne.
Qed.

Lemma hs_is_Some h x v y : is_Some (hs x v h !! y) <-> is_Some (h !! y).
Proof. unfold hs. by rewrite lookup_alter_is_Some. Qed.
Lemma hp_is_Some h x v y : is_Some (hp x v h !! y) <-> is_Some (h !! y).
Proof. unfold hp. by rewrite lookup_alter_is_Some. Qed.

Lemma hs_eq h x v a s p : h !! x = Some (mkCell a s p) -> hs x v h !! x = Some (mkCell a v p).
Proof. intros H. unfold hs. by rewrite lookup_alter_eq, H. Qed.
Lemma hp_eq h x v a s p : h !! x = Some (mkCell a s p) -> hp x v h !! x = Some (mkCell a s v).
Proof. intros H. unfold hp. by rewrite lookup_alter_eq, H. Qed.
Lemma hs_ne h x y v : x <> y -> hs x v h !! y = h !! y.
Proof. apply lookup_alter_ne. Qed.
Lemma hp_ne h x y v : x <> y -> hp x v h !! y = h !! y.
Proof. apply lookup_alter_ne. Qed.

Lemma dseg_hs h x v before xs after : x ∉ xs -> dseg h before xs after -> dseg (hs x v h) before xs after.
Proof. apply dseg_alter. Qed.
Lemma dseg_hp h x v before xs after : x ∉ xs -> dseg h before xs after -> dseg (hp x v h) before xs after.
Proof. apply dseg_alter. Qed.

Lemma dseg_hs_last h p v before xs after :
  p ∉ xs -> dseg h before (xs ++ [p]) after -> dseg (hs p v h) before (xs ++ [p]) v.
Proof.
  rewrite !dseg_app. intros Hp [H1 [(a & Ha) _]]. split.
  - simpl in *. by apply dseg_hs.
  - split; [|done]. exists a. simpl in *. by eapply hs_eq.
Qed.

Lemma dseg_hp_first h x v before xs after :
  x ∉ xs -> dseg h before (x :: xs) after -> dseg (hp x v h) v (x :: xs) after.
Proof.
  intros Hx [(a & Ha) H]. split; [|by apply dseg_hp]. exists a. by eapply hp_eq.
Qed.

(** The data of the items. *)
Definition items h : gmap positive A := item <$> h.

Lemma items_hs h x v : items (hs x v h) = items h.
Proof.
  unfold items, hs. apply map_eq. intros y. rewrite !lookup_fmap.
  destruct (decide (x = y)) as [<-|]; [|by rewrite lookup_alter_ne].
  rewrite lookup_alter_eq. by destruct (h !! x).
Qed.
Lemma items_hp h x v : items (hp x v h) = items h.
Proof.
  unfold items, hp. apply map_eq. intros y. rewrite !lookup_fmap.
  destruct (decide (x = y)) as [<-|]; [|by rewrite lookup_alter_ne].
  rewrite lookup_alter_eq. by destruct (h !! x).
Qed.

Lemma dseg_lookup h before xs after y :
  dseg h before xs after -> y ∈ xs -> is_Some (h !! y).
Proof.
  revert before. induction xs as [|x xs IH]; intros before H Hy; [by apply elem_of_nil in Hy|].
  destruct H as [(a & Ha) H]. apply elem_of_cons in Hy as [->|Hy]; [by eexists|by eapply IH].
Qed.

(** A list has at most as many items as the heap has cells. *)
Lemma lists_size h l xs : lists h l xs -> (length xs <= size h)%nat.
Proof.
  intros Hl.
  rewrite <- (size_dom h), <- (size_list_to_set (C := gset positive) xs) by apply (ls_nodup _ _ _ Hl).
  apply subseteq_size. intros y Hy%elem_of_list_to_set. apply elem_of_dom.
  eapply dseg_lookup; [apply (ls_links _ _ _ Hl)|done].
Qed.

Lemma lookup_items h x c : h !! x = Some c -> items h !! x = Some (item c).
Proof. intros H. unfold items. by rewrite lookup_fmap, H. Qed.

Lemma items_lookup h x a : items h !! x = Some a -> exists c, h !! x = Some c /\ item c = a.
Proof. unfold items. rewrite lookup_fmap. destruct (h !! x) as [c|]; [|done]. intros [= <-]. eauto. Qed.

(** The links of the cells of a list are all that makes it a list. *)
Lemma lists_ext h h' l xs :
  (forall y c, y ∈ xs -> h !! y = Some c -> exists a, h' !! y = Some (mkCell a (succ c) (pred c))) ->
  lists h l xs -> lists h' l xs.
Proof.
  intros Hext [Hnd Hs Hf Hl Hn]. split; try done. clear Hnd Hf Hl Hn.
  revert Hs. generalize (@None positive) at 1 3 as before. induction xs as [|x xs IH]; intros before; [done|].
  intros [(a & Ha) Hs]. split; [|apply IH; [|done]; intros y c Hy; apply Hext; by right].
  destruct (Hext x _ ltac:(by left) Ha) as (b & Hb). by exists b.
Qed.
End Facts.

#[export] Hint Rewrite @items_hs @items_hp : sched_rw.

(** ** Each operation refines an operation on the sequence *)

Section Refinement.
Context {A : Type}.
Variable create : option A.
Implicit Types (h : heap A) (xs ys : list positive) (l : plan_list).

(** The data of all items and the cells outside of [xs] are as before. *)
Definition only_links h h' xs : Prop :=
  items h' = items h /\ forall y, y ∉ xs -> h' !! y = h !! y.

(** Membership facts, from those of the parts. *)
Ltac not_in :=
  repeat first [rewrite not_elem_of_app | rewrite not_elem_of_cons];
  repeat match goal with |- _ /\ _ => split end;
  solve [assumption | by apply not_elem_of_nil | congruence].

Ltac split_not_in H :=
  repeat first [rewrite not_elem_of_app in H | rewrite not_elem_of_cons in H]; destruct_and? H.

(** Cells that a change of links does not touch. *)
Ltac frame_seg :=
  repeat first [ apply dseg_hs; [not_in|] | apply dseg_hp; [not_in|] ].

Lemma segs_of h before xs1 x xs2 after :
  dseg h before (xs1 ++ x :: xs2) after <->
  dseg h before xs1 (Some x) /\
  (exists a, h !! x = Some (mkCell a (from_head xs2 after) (to_last before xs1))) /\
  dseg h (Some x) xs2 after.
Proof. rewrite dseg_app. done. Qed.

Lemma last_item_cons xs1 x y xs2 : last (xs1 ++ x :: y :: xs2) = last (xs1 ++ y :: xs2).
Proof. rewrite !last_app. done. Qed.

Ltac links_only :=
  split; [by repeat first [rewrite items_hs | rewrite items_hp]|];
  let y := fresh "y" in let Hy := fresh "Hy" in
  intros y Hy; split_not_in Hy;
  by repeat first [rewrite hs_ne by not_in | rewrite hp_ne by not_in].

(** Where an item sits among the others. *)
Lemma NoDup_mid (xs1 : list positive) x xs2 :
  NoDup (xs1 ++ x :: xs2) <->
  NoDup xs1 /\ NoDup xs2 /\ x ∉ xs1 /\ x ∉ xs2 /\ (forall y, y ∈ xs1 -> y ∉ xs2).
Proof. rewrite NoDup_app, NoDup_cons. set_solver. Qed.

Lemma add_infrontof_spec h l xs1 n xs2 x c :
  lists h l (xs1 ++ n :: xs2) -> h !! x = Some c -> x ∉ xs1 ++ n :: xs2 ->
  Z.of_nat (length (xs1 ++ n :: xs2)) + 1 < 2 ^ 31 ->
  exists h' l', add_infrontof create h l (Some n) (Some x) = Ret (h', l', Some x) /\
    lists h' l' (xs1 ++ x :: n :: xs2) /\ current l' = Some x /\
    only_links h h' (xs1 ++ x :: n :: xs2).
Proof.
  intros [Hnd Hseg Hf Hl Hn] Hx Hnx Hsmall.
  pose proof Hseg as (H1 & (a & Ha) & H2)%segs_of.
  split_not_in Hnx.
  assert (Hnd' : NoDup (xs1 ++ x :: n :: xs2)).
  { apply NoDup_mid in Hnd as (? & ? & ? & ? & Hd). apply NoDup_mid.
    split_and!; [done|by constructor|done|not_in|].
    intros y Hy. apply not_elem_of_cons. split; [by intros ->|by apply Hd]. }
  apply NoDup_mid in Hnd as (Hnd1 & Hnd2 & Hn1 & Hn2 & Hd).
  assert (Hnum : i32 (num_items l + 1) = Z.of_nat (length (xs1 ++ x :: n :: xs2))).
  { rewrite Hn, i32_id; rewrite !length_app in *; simpl in *; [lia|in_range]. }
  destruct c as [cx sx px].
  unfold add_infrontof. cbn [new_item get_predeccessor]. rewrite Ha. cbn [of_option obind pred].
  destruct xs1 as [|p xs1 _] using rev_ind.
  - cbn [to_last last app from_head] in *. cbn [obind].
    rewrite set_successor_hs by eauto. cbn [obind].
    rewrite set_predeccessor_hp by (rewrite hs_is_Some; eauto). cbn [obind].
    rewrite set_predeccessor_hp by (rewrite hp_is_Some, hs_is_Some; eauto). cbn [obind].
    eexists _, _. split; [done|]. split; [|split; [done|links_only]].
    split; cbn; try done. split; [|split].
    + exists cx. rewrite hp_ne by not_in. eapply hp_eq, hs_eq. exact Hx.
    + exists a. eapply hp_eq. by rewrite hp_ne, hs_ne.
    + by frame_seg.
  - assert (Hp : to_last None (xs1 ++ [p]) = Some p) by (unfold to_last; by rewrite last_snoc).
    rewrite Hp. rewrite Hp in Ha. pose proof H1 as (H1a & (ap & Hap) & _)%segs_of. cbn [from_head] in Hap.
    pose proof (Hd p ltac:(apply elem_of_app; right; by left)).
    apply NoDup_mid in Hnd1 as (_ & _ & Hp1 & _). split_not_in Hn1.
    match goal with H : x ∉ xs1 ++ [p] |- _ => split_not_in H end.
    rewrite set_successor_hs by eauto. cbn [obind].
    rewrite set_successor_hs by (rewrite hs_is_Some; eauto). cbn [obind].
    rewrite set_predeccessor_hp by (rewrite !hs_is_Some; eauto). cbn [obind].
    rewrite set_predeccessor_hp by (rewrite hp_is_Some, !hs_is_Some; eauto). cbn [obind].
    eexists _, _. split; [done|]. split; [|split; [done|links_only]].
    split; cbn; try done.
    + rewrite segs_of. rewrite Hp. split; [|split; [|split]].
      * frame_seg. by eapply dseg_hs_last.
      * exists cx. rewrite hp_ne by not_in. eapply hp_eq, hs_eq. by rewrite hs_ne by not_in.
      * exists a. eapply hp_eq. by rewrite hp_ne, !hs_ne by not_in.
      * by frame_seg.
    + rewrite Hf. by rewrite <- !(assoc_L (++)); destruct xs1.
    + by rewrite Hl, last_item_cons.
Qed.

Lemma add_inbackof_spec h l xs1 n xs2 x c :
  lists h l (xs1 ++ n :: xs2) -> h !! x = Some c -> x ∉ xs1 ++ n :: xs2 ->
  Z.of_nat (length (xs1 ++ n :: xs2)) + 1 < 2 ^ 31 ->
  exists h' l', add_inbackof create h l (Some n) (Some x) = Ret (h', l', Some x) /\
    lists h' l' (xs1 ++ n :: x :: xs2) /\ current l' = Some x /\
    only_links h h' (xs1 ++ n :: x :: xs2).
Proof.
  intros [Hnd Hseg Hf Hl Hn] Hx Hnx Hsmall.
  pose proof Hseg as (H1 & (a & Ha) & H2)%segs_of.
  split_not_in Hnx.
  apply NoDup_mid in Hnd as (Hnd1 & Hnd2 & Hn1 & Hn2 & Hd).
  assert (Hnd' : NoDup (xs1 ++ n :: x :: xs2)).
  { apply NoDup_mid. split_and!; [done|by constructor|done|not_in|].
    intros y Hy. apply not_elem_of_cons. split; [by intros ->|by apply Hd]. }
  assert (Hnum : i32 (num_items l + 1) = Z.of_nat (length (xs1 ++ n :: x :: xs2))).
  { rewrite Hn, i32_id; rewrite !length_app in *; simpl in *; [lia|in_range]. }
  destruct c as [cx sx px].
  unfold add_inbackof. cbn [new_item get_successor]. rewrite Ha. cbn [of_option obind succ].
  destruct xs2 as [|s xs2]; cbn [from_head] in *.
  - cbn [obind].
    rewrite set_successor_hs by eauto. cbn [obind].
    rewrite set_predeccessor_hp by (rewrite hs_is_Some; eauto). cbn [obind].
    rewrite set_successor_hs by (rewrite hp_is_Some, hs_is_Some; eauto). cbn [obind].
    eexists _, _. split; [done|]. split; [|split; [done|links_only]].
    split; cbn; try done.
    + rewrite segs_of. cbn [from_head dseg]. split; [by frame_seg|]. split; [|split; [|done]].
      * exists a. eapply hs_eq. by rewrite hp_ne, hs_ne by not_in.
      * exists cx. rewrite hs_ne by not_in. eapply hp_eq, hs_eq. exact Hx.
    + rewrite Hf. by destruct xs1.
    + by rewrite last_app.
  - pose proof H2 as [(b & Hb) H2b].
    split_not_in Hn2. match goal with H : x ∉ s :: xs2 |- _ => split_not_in H end.
    apply NoDup_cons in Hnd2 as [Hs2 Hnd2].
    assert (Hs1 : s ∉ xs1) by (intros Hin; apply (Hd s Hin); by left).
    rewrite set_predeccessor_hp by eauto. cbn [obind].
    rewrite set_successor_hs by (rewrite hp_is_Some; eauto). cbn [obind].
    rewrite set_predeccessor_hp by (rewrite hs_is_Some, hp_is_Some; eauto). cbn [obind].
    rewrite set_successor_hs by (rewrite hp_is_Some, hs_is_Some, hp_is_Some; eauto). cbn [obind].
    eexists _, _. split; [done|]. split; [|split; [done|links_only]].
    split; cbn; try done.
    + rewrite segs_of. cbn [from_head dseg]. split; [by frame_seg|]. split; [|split; [|split]].
      * exists a. eapply hs_eq. by rewrite hp_ne, hs_ne, hp_ne by not_in.
      * exists cx. rewrite hs_ne by not_in. eapply hp_eq, hs_eq. by rewrite hp_ne by not_in.
      * exists b. rewrite hs_ne, hp_ne, hs_ne by not_in. by eapply hp_eq.
      * by frame_seg.
    + rewrite Hf. by destruct xs1.
    + rewrite Hl, !last_app. by destruct xs2.
Qed.

(** Emptiness, from the header. *)
Lemma lists_nil h l : lists h l [] -> num_items l = 0.
Proof. by intros []. Qed.

Lemma lists_cons_num h l x xs : lists h l (x :: xs) -> num_items l <> 0 /\ first l = Some x.
Proof. intros [_ _ Hf _ Hn]. simpl in *. split; [lia|done]. Qed.

Lemma only_item_spec h l x c :
  lists h l [] -> h !! x = Some c -> succ c = None -> pred c = None ->
  lists h (mkList (i32 (num_items l + 1)) (Some x) (Some x) (Some x)) [x].
Proof.
  intros H Hx Hs Hp. rewrite (lists_nil _ _ H). destruct c as [a s p]. simpl in *. subst.
  split; cbn; try done; [apply NoDup_singleton|]. split; [by exists a|done].
Qed.

(** Adding at the ends.  On an empty list the links of the new item are left as
    they are, so it must come with null links. *)
Lemma list_add_begin_spec h l xs x c :
  lists h l xs -> h !! x = Some c -> succ c = None -> pred c = None -> x ∉ xs ->
  Z.of_nat (length xs) + 1 < 2 ^ 31 ->
  exists h' l', list_add_begin create h l (Some x) = Ret (h', l', Some x) /\
    lists h' l' (x :: xs) /\ current l' = Some x /\ only_links h h' (x :: xs).
Proof.
  intros Hl Hx Hs Hp Hnx Hsmall. unfold list_add_begin. cbn [new_item]. destruct xs as [|n xs].
  - destruct (Z.eqb_spec (num_items l) 0); [|by apply lists_nil in Hl].
    eexists _, _. split; [done|]. split; [by eapply only_item_spec|by split].
  - destruct (lists_cons_num _ _ _ _ Hl) as [Hn Hf].
    destruct (Z.eqb_spec (num_items l) 0); [done|]. rewrite Hf.
    by apply (add_infrontof_spec h l [] n xs x c).
Qed.

Lemma list_add_end_spec h l xs x c :
  lists h l xs -> h !! x = Some c -> succ c = None -> pred c = None -> x ∉ xs ->
  Z.of_nat (length xs) + 1 < 2 ^ 31 ->
  exists h' l', list_add_end create h l (Some x) = Ret (h', l', Some x) /\
    lists h' l' (xs ++ [x]) /\ current l' = Some x /\ only_links h h' (xs ++ [x]).
Proof.
  intros Hl Hx Hs Hp Hnx Hsmall. unfold list_add_end. cbn [new_item].
  destruct xs as [|n xs _] using rev_ind.
  - destruct (Z.eqb_spec (num_items l) 0); [|by apply lists_nil in Hl].
    eexists _, _. split; [done|]. split; [by eapply only_item_spec|by split].
  - pose proof (ls_last _ _ _ Hl) as HL. rewrite last_snoc in HL.
    pose proof (ls_num _ _ _ Hl) as Hn. rewrite length_app in Hn. simpl in Hn.
    destruct (Z.eqb_spec (num_items l) 0); [lia|]. rewrite HL.
    rewrite <- (assoc_L (++)). by apply (add_inbackof_spec h l xs n [] x c).
Qed.

(** Removing an item. *)
Lemma list_remove_item_spec h l xs1 x xs2 set_free :
  lists h l (xs1 ++ x :: xs2) -> Z.of_nat (length (xs1 ++ x :: xs2)) < 2 ^ 31 ->
  exists h' l', list_remove_item h l (Some x) set_free = Ret (h', l', 0) /\
    lists h' l' (xs1 ++ xs2) /\ current l' = None /\
    (forall y, y ∉ xs1 ++ x :: xs2 -> h' !! y = h !! y) /\
    if set_free then items h' = delete x (items h)
    else items h' = items h /\ exists a, h' !! x = Some (mkCell a None None).
Proof.
  intros [Hnd Hseg Hf Hl Hn] Hsmall.
  pose proof Hseg as (H1 & (a & Ha) & H2)%segs_of.
  pose proof Hnd as (Hnd1 & Hnd2 & Hx1 & Hx2 & Hd)%NoDup_mid.
  assert (Hnd' : NoDup (xs1 ++ xs2)) by (apply NoDup_app; auto).
  assert (Hnum : i32 (num_items l - 1) = Z.of_nat (length (xs1 ++ xs2))).
  { rewrite Hn, i32_id; rewrite !length_app in *; simpl in *; [lia|in_range]. }
  unfold list_remove_item. cbn [get_predeccessor get_successor]. rewrite Ha. cbn [of_option obind pred succ].
  (* the heap after the neighbours have been linked *)
  assert (Hgoal : forall h2 l2,
    dseg h2 None (xs1 ++ xs2) None -> first l2 = head (xs1 ++ xs2) -> last_item l2 = last (xs1 ++ xs2) ->
    num_items l2 = num_items l -> items h2 = items h -> (exists s p, h2 !! x = Some (mkCell a s p)) ->
    (forall y, y ∉ xs1 ++ x :: xs2 -> h2 !! y = h !! y) ->
    exists h' l', (let! h := if set_free then Ret (delete x h2)
        else let! h := set_successor h2 (Some x) None in set_predeccessor h (Some x) None in
        Ret (h, l2 <| num_items := i32 (num_items l2 - 1) |> <| current := None |>, 0)) = Ret (h', l', 0) /\
      lists h' l' (xs1 ++ xs2) /\ current l' = None /\
      (forall y, y ∉ xs1 ++ x :: xs2 -> h' !! y = h !! y) /\
      if set_free then items h' = delete x (items h)
      else items h' = items h /\ exists a, h' !! x = Some (mkCell a None None)).
  { intros h2 l2 Hs2 Hf2 Hl2 Hn2 Hi2 (s & p & Hx) Hout.
    assert (Hx' : x ∉ xs1 ++ xs2) by not_in.
    destruct set_free; cbn [obind].
    - eexists _, _. split; [done|]. split; [|split; [done|split]].
      + split; cbn; try done; [by apply dseg_delete|by rewrite Hn2].
      + intros y Hy. rewrite lookup_delete_ne by (split_not_in Hy; congruence). by apply Hout.
      + unfold items in *. by rewrite fmap_delete, Hi2.
    - rewrite set_successor_hs by eauto. cbn [obind].
      rewrite set_predeccessor_hp by (rewrite hs_is_Some; eauto). cbn [obind].
      eexists _, _. split; [done|]. split; [|split; [done|split; [|split]]].
      + split; cbn; try done; [by frame_seg|by rewrite Hn2].
      + intros y Hy. pose proof Hy as Hy'. split_not_in Hy'.
        rewrite hp_ne, hs_ne by congruence. by apply Hout.
      + by rewrite items_hp, items_hs.
      + exists a. by eapply hp_eq, hs_eq. }
  destruct xs1 as [|p xs1 _] using rev_ind; destruct xs2 as [|s xs2]; cbn [from_head] in Ha |- *.
  - cbn [to_last last obind set_predeccessor set_successor] in *. apply Hgoal; try done. eauto.
  - cbn [to_last last] in *. pose proof H2 as [(b & Hb) H2b].
    split_not_in Hx2. apply NoDup_cons in Hnd2 as [Hs2 _].
    rewrite set_predeccessor_hp by eauto. cbn [obind].
    rewrite set_predeccessor_hp by (rewrite hp_is_Some; eauto). cbn [obind].
    apply Hgoal; cbn; try done.
    + split; [exists b; by eapply hp_eq, hp_eq|by frame_seg].
    + by rewrite !items_hp.
    + eexists _, _. rewrite !hp_ne by congruence. done.
    + intros y Hy. split_not_in Hy. by rewrite !hp_ne by congruence.
  - assert (Hp : to_last None (xs1 ++ [p]) = Some p) by (unfold to_last; by rewrite last_snoc).
    rewrite Hp in Ha |- *. pose proof H1 as (H1a & (ap & Hap) & _)%segs_of.
    apply NoDup_mid in Hnd1 as (_ & _ & Hp1 & _). split_not_in Hx1.
    rewrite set_successor_hs by eauto. cbn [obind].
    rewrite set_successor_hs by (rewrite hs_is_Some; eauto). cbn [obind].
    apply Hgoal; cbn; rewrite ?app_nil_r; try done.
    + by eapply dseg_hs_last, dseg_hs_last.
    + rewrite Hf. by destruct xs1.
    + by rewrite last_snoc.
    + by rewrite !items_hs.
    + eexists _, _. rewrite !hs_ne by congruence. done.
    + intros y Hy. split_not_in Hy. by rewrite !hs_ne by congruence.
  - assert (Hp : to_last None (xs1 ++ [p]) = Some p) by (unfold to_last; by rewrite last_snoc).
    rewrite Hp in Ha |- *. pose proof H1 as (H1a & (ap & Hap) & _)%segs_of.
    pose proof H2 as [(b & Hb) H2b].
    pose proof (Hd p ltac:(apply elem_of_app; right; by left)) as Hps.
    assert (Hs1 : s ∉ xs1) by (intros Hin; apply (Hd s); [apply elem_of_app; by left|by left]).
    apply NoDup_mid in Hnd1 as (_ & _ & Hp1 & _). split_not_in Hx1. split_not_in Hx2. split_not_in Hps.
    apply NoDup_cons in Hnd2 as [Hs2 _].
    rewrite set_successor_hs by eauto. cbn [obind].
    rewrite set_predeccessor_hp by (rewrite hs_is_Some; eauto). cbn [obind].
    apply Hgoal; cbn; try done.
    + rewrite segs_of, Hp. split; [|split].
      * frame_seg. by eapply dseg_hs_last.
      * exists b. eapply hp_eq. by rewrite hs_ne by congruence.
      * by frame_seg.
    + rewrite Hf. by destruct xs1.
    + rewrite Hl, !last_app. by destruct xs2.
    + by rewrite items_hp, items_hs.
    + eexists _, _. rewrite hp_ne, hs_ne by congruence. done.
    + intros y Hy. split_not_in Hy. by rewrite hp_ne, hs_ne by congruence.
Qed.

(** Moving an item behind another one, or to the front. *)
Lemma list_move_item_spec h l xs1 x xs2 r1 n r2 :
  lists h l (xs1 ++ x :: xs2) -> xs1 ++ xs2 = r1 ++ n :: r2 ->
  Z.of_nat (length (xs1 ++ x :: xs2)) < 2 ^ 31 ->
  exists h' l', list_move_item create h l (Some x) (Some n) = Ret (h', l', 0) /\
    lists h' l' (r1 ++ n :: x :: r2) /\ items h' = items h /\
    (forall y, y ∉ xs1 ++ x :: xs2 -> h' !! y = h !! y).
Proof.
  intros Hl Er Hsmall. pose proof (ls_nodup _ _ _ Hl) as (_ & _ & Hx1 & Hx2 & _)%NoDup_mid.
  destruct (list_remove_item_spec h l xs1 x xs2 false Hl Hsmall)
    as (h1 & l1 & E1 & Hl1 & _ & Hout1 & Hi1 & a & Hx).
  unfold list_move_item. rewrite E1. cbn [obind list_add_inbackof].
  rewrite Er in Hl1. assert (Hnx : x ∉ r1 ++ n :: r2) by (rewrite <- Er; not_in).
  assert (Hlen : length (xs1 ++ x :: xs2) = S (length (r1 ++ n :: r2)))
    by (rewrite <- Er, !length_app; simpl; lia).
  destruct (add_inbackof_spec h1 l1 r1 n r2 x _ Hl1 Hx Hnx) as (h2 & l2 & -> & Hl2 & _ & Hi2 & Hout2);
    [lia|]. cbn [obind].
  exists h2, l2. split; [done|]. split; [done|]. split; [congruence|].
  intros y Hy. rewrite Hout2; [by apply Hout1|].
  assert (Hy' : y ∉ xs1 ++ xs2) by (split_not_in Hy; not_in). rewrite Er in Hy'.
  split_not_in Hy. split_not_in Hy'. not_in.
Qed.

Lemma list_move_front_spec h l xs1 x xs2 :
  lists h l (xs1 ++ x :: xs2) -> Z.of_nat (length (xs1 ++ x :: xs2)) < 2 ^ 31 ->
  exists h' l', list_move_item create h l (Some x) None = Ret (h', l', 0) /\
    lists h' l' (x :: xs1 ++ xs2) /\ items h' = items h /\
    (forall y, y ∉ xs1 ++ x :: xs2 -> h' !! y = h !! y).
Proof.
  intros Hl Hsmall. pose proof (ls_nodup _ _ _ Hl) as (_ & _ & Hx1 & Hx2 & _)%NoDup_mid.
  destruct (list_remove_item_spec h l xs1 x xs2 false Hl Hsmall)
    as (h1 & l1 & E1 & Hl1 & _ & Hout1 & Hi1 & a & Hx).
  unfold list_move_item. rewrite E1. cbn [obind list_get_first].
  assert (Hnx : x ∉ xs1 ++ xs2) by not_in.
  assert (Hlen : length (xs1 ++ x :: xs2) = S (length (xs1 ++ xs2))) by (rewrite !length_app; simpl; lia).
  assert (Hl1' : lists h1 (list_get_first l1) (xs1 ++ xs2)) by (by destruct Hl1; split).
  assert (Hadd : exists h2 l2, list_add_infrontof create h1 (list_get_first l1) (current (list_get_first l1)) (Some x)
      = Ret (h2, l2, Some x) /\ lists h2 l2 (x :: xs1 ++ xs2) /\ only_links h1 h2 (x :: xs1 ++ xs2)).
  { unfold list_add_infrontof. cbn [list_get_first current update].
    change (current (list_get_first l1)) with (first l1). rewrite (ls_first _ _ _ Hl1).
    destruct (xs1 ++ xs2) as [|n r] eqn:Er; cbn [head].
    - destruct (list_add_begin_spec h1 (list_get_first l1) [] x _ Hl1' Hx) as (h2 & l2 & ? & ? & _ & ?);
        [done|done|done|simpl; lia|eauto].
    - destruct (add_infrontof_spec h1 (list_get_first l1) [] n r x _ Hl1' Hx Hnx) as (h2 & l2 & ? & ? & _ & ?);
        [simpl in *; lia|eauto]. }
  destruct Hadd as (h2 & l2 & -> & Hl2 & Hi2 & Hout2). cbn [obind].
  exists h2, l2. split; [done|]. split; [done|]. split; [congruence|].
  intros y Hy. split_not_in Hy. rewrite Hout2 by not_in. apply Hout1. not_in.
Qed.

(** The neighbours of the item at a position. *)
Lemma lists_neighbours h l xs i x :
  lists h l xs -> xs !! i = Some x ->
  exists a, h !! x = Some (mkCell a (xs !! S i) (match i with O => None | S j => xs !! j end)).
Proof.
  intros [_ Hs _ _ _] Hi. apply list_elem_of_split_length in Hi as (xs1 & xs2 & -> & ->).
  apply segs_of in Hs as (_ & (a & Ha) & _). exists a. rewrite Ha. f_equal. f_equal.
  - rewrite lookup_app_r by lia. rewrite Nat.sub_succ_l, Nat.sub_diag by lia. by destruct xs2.
  - destruct xs1 as [|p xs1 _] using rev_ind; [done|]. unfold to_last. rewrite last_snoc, length_app. simpl.
    replace (length xs1 + 1)%nat with (S (length xs1)) by lia.
    rewrite <- (assoc_L (++)). by rewrite lookup_app_r, Nat.sub_diag by lia.
Qed.

Lemma walk_successor h l xs n i :
  lists h l xs -> walk get_successor n h (xs !! i) = Ret (xs !! (i + n)%nat).
Proof.
  intros Hl. revert i. induction n as [|n IH]; intros i; cbn [walk]; [by rewrite Nat.add_0_r|].
  assert (E : get_successor h (xs !! i) = Ret (xs !! S i)).
  { destruct (xs !! i) as [x|] eqn:Ei.
    - destruct (lists_neighbours _ _ _ _ _ Hl Ei) as (a & Ha). simpl. by rewrite Ha.
    - simpl. apply lookup_ge_None in Ei. by rewrite (proj2 (lookup_ge_None xs (S i))) by lia. }
  rewrite E. cbn [obind]. rewrite IH. by rewrite Nat.add_succ_r.
Qed.

Lemma walk_predeccessor h l xs n i :
  lists h l xs -> (n <= i)%nat -> (i < length xs)%nat ->
  walk get_predeccessor n h (xs !! i) = Ret (xs !! (i - n)%nat).
Proof.
  intros Hl. revert i. induction n as [|n IH]; intros i Hn Hi; cbn [walk]; [by rewrite Nat.sub_0_r|].
  destruct i as [|i]; [lia|]. destruct (lookup_lt_is_Some_2 xs (S i) Hi) as [x Ex]. rewrite Ex.
  destruct (lists_neighbours _ _ _ _ _ Hl Ex) as (a & Ha). cbn [get_predeccessor]. rewrite Ha. cbn [of_option obind pred].
  rewrite IH by lia. done.
Qed.

(** The item at a position is reached from the nearer end. *)
Lemma list_get_item_spec h l xs position :
  lists h l xs ->
  list_get_item h l position =
    if (0 <=? position) && (position <? Z.of_nat (length xs))
    then Ret (l <| current := xs !! Z.to_nat position |>, xs !! Z.to_nat position)
    else Ret (l, None).
Proof.
  intros Hl. unfold list_get_item. rewrite (ls_num _ _ _ Hl).
  destruct (Z.leb_spec (Z.of_nat (length xs)) position), (Z.ltb_spec position 0),
    (Z.leb_spec 0 position), (Z.ltb_spec position (Z.of_nat (length xs))); try lia; try done.
  cbn [orb andb]. destruct (Z.ltb_spec (Z.of_nat (length xs) / 2) position) as [Hfar|Hnear].
  - replace (last_item l) with (xs !! (length xs - 1)%nat).
    + rewrite (walk_predeccessor h l xs) by (done || lia). cbn [obind].
      replace (length xs - 1 - Z.to_nat (Z.of_nat (length xs) - position - 1))%nat
        with (Z.to_nat position) by lia. done.
    + rewrite (ls_last _ _ _ Hl), last_lookup. f_equal. lia.
  - replace (first l) with (xs !! 0%nat) by (rewrite (ls_first _ _ _ Hl); by destruct xs).
    by rewrite (walk_successor h l xs).
Qed.

(** Walking a list forward from before its start visits its items in order. *)
Lemma list_get_next_spec h l xs i x :
  lists h l xs -> (current l = None -> i = 0%nat) ->
  (current l <> None -> exists j, i = S j /\ current l = xs !! j) ->
  xs !! i = x -> list_get_next h l = Ret (l <| current := x |>).
Proof.
  intros Hl H0 HS <-. unfold list_get_next. destruct (current l) as [c|] eqn:Ec.
  - destruct (HS ltac:(done)) as (j & -> & Hj). symmetry in Hj.
    destruct (lists_neighbours _ _ _ _ _ Hl Hj) as (a & Ha). simpl. by rewrite Ha.
  - rewrite (H0 eq_refl), (ls_first _ _ _ Hl). by destruct xs.
Qed.

(** Appending a whole list. *)
Lemma list_append_spec h l xs app ys :
  lists h l xs -> lists h app ys -> NoDup (xs ++ ys) -> Z.of_nat (length (xs ++ ys)) < 2 ^ 31 ->
  exists h' l', list_append h l app = Ret (h', l', 0) /\ lists h' l' (xs ++ ys) /\
    only_links h h' (xs ++ ys).
Proof.
  intros Hl Ha Hnd Hsmall. unfold list_append.
  pose proof (ls_num _ _ _ Hl) as Hn1. pose proof (ls_num _ _ _ Ha) as Hn2. rewrite length_app in Hsmall.
  assert (Hsum : i32 (num_items l + num_items app) = Z.of_nat (length (xs ++ ys)))
    by (rewrite length_app, Hn1, Hn2, i32_id; [lia|in_range]).
  destruct (Z.gtb_spec (num_items l) 0) as [Hx|Hx], (Z.gtb_spec (num_items app) 0) as [Hy|Hy]; cbn [andb].
  - destruct xs as [|p xs _] using rev_ind; [simpl in *; lia|].
    destruct ys as [|s ys]; [simpl in *; lia|].
    destruct Hl as [_ Hs1 Hf1 HL1 _], Ha as [_ Hs2 Hf2 HL2 _].
    pose proof Hs1 as (H1a & (ap & Hap) & _)%segs_of. pose proof Hs2 as [(b & Hb) H2b].
    rewrite last_snoc in HL1. simpl in Hf2. rewrite HL1, Hf2.
    pose proof Hnd as (Hnd1 & Hdis & Hnd2)%NoDup_app. apply NoDup_cons in Hnd2 as [Hs2' _].
    pose proof (Hdis p ltac:(apply elem_of_app; right; by left)) as Hps.
    assert (Hs1' : s ∉ xs) by (intros Hin; apply (Hdis s); [apply elem_of_app; by left|by left]).
    apply NoDup_mid in Hnd1 as (_ & _ & Hp1 & _). split_not_in Hps.
    rewrite set_successor_hs by eauto. cbn [obind].
    rewrite set_predeccessor_hp by (rewrite hs_is_Some; eauto). cbn [obind].
    rewrite Hsum. cbn [num_items]. destruct (Z.eqb_spec (Z.of_nat (length ((xs ++ [p]) ++ s :: ys))) 0) as [E|_];
      [rewrite !length_app in E; simpl in E; lia|].
    eexists _, _. split; [done|]. split; [|links_only].
    split; cbn; try done.
    + rewrite segs_of. unfold to_last. rewrite last_snoc. split; [|split].
      * frame_seg. by eapply dseg_hs_last.
      * exists b. eapply hp_eq. by rewrite hs_ne by congruence.
      * by frame_seg.
    + rewrite Hf1. by destruct xs.
    + rewrite HL2, last_app. destruct (last (s :: ys)) eqn:E; [done|]. by apply last_None in E.
  - destruct ys; [|simpl in *; lia]. cbn [obind]. destruct (Z.eqb_spec (num_items l) 0); [lia|].
    rewrite app_nil_r. eexists _, _. split; [done|]. split; [done|by split].
  - destruct xs; [|simpl in *; lia]. cbn [obind]. destruct (Z.eqb_spec (num_items l) 0); [|lia].
    rewrite Hsum. eexists _, _. split; [done|]. split; [|done]. destruct Ha. by split.
  - destruct xs; [|simpl in *; lia]. destruct ys; [|simpl in *; lia]. cbn [obind].
    destruct (Z.eqb_spec (num_items l) 0); [|lia]. rewrite Hsum.
    eexists _, _. split; [done|]. split; [|done]. destruct Ha. by split.
Qed.

(** Taking the place of another item. *)
Lemma list_repleace_item_spec h l xs1 old xs2 new b set_free :
  lists h l (xs1 ++ old :: xs2) -> h !! new = Some (mkCell b None None) -> new ∉ xs1 ++ old :: xs2 ->
  exists h' l', list_repleace_item h l (Some old) (Some new) set_free = Ret (h', l', 0) /\
    lists h' l' (xs1 ++ new :: xs2) /\
    items h' = (if set_free then delete old (items h) else items h) /\
    (forall y, y ∉ xs1 ++ old :: new :: xs2 -> h' !! y = h !! y) /\
    (set_free = false -> exists a, h' !! old = Some (mkCell a None None)).
Proof.
  intros [Hnd Hseg Hf Hl Hn] Hnew Hnin.
  pose proof Hseg as (H1 & (a & Ha) & H2)%segs_of.
  pose proof Hnd as (Hnd1 & Hnd2 & Hx1 & Hx2 & Hd)%NoDup_mid.
  split_not_in Hnin.
  assert (Hnd' : NoDup (xs1 ++ new :: xs2)) by by apply NoDup_mid.
  unfold list_repleace_item. rewrite bool_decide_false by congruence.
  cbn [get_successor get_predeccessor]. rewrite Hnew. cbn [of_option obind succ pred].
  rewrite !bool_decide_true by done. cbn [negb andb]. rewrite Ha. cbn [of_option obind succ].
  rewrite set_successor_hs by eauto. cbn [obind]. rewrite hs_ne by congruence. rewrite Ha. cbn [of_option obind pred].
  rewrite set_predeccessor_hp by (rewrite hs_is_Some; eauto). cbn [obind].
  pose proof (hp_eq _ _ (to_last None xs1) _ _ _ (hs_eq _ _ (from_head xs2 None) _ _ _ Hnew)) as Hnew'.
  set (h1 := hp new _ _) in *.
  assert (H1' : dseg h1 None xs1 (Some old)) by (unfold h1; by frame_seg).
  assert (H2' : dseg h1 (Some old) xs2 None) by (unfold h1; by frame_seg).
  assert (Ho : h1 !! old = Some (mkCell a (from_head xs2 None) (to_last None xs1)))
    by (unfold h1; by rewrite hp_ne, hs_ne by congruence).
  assert (Hi1 : items h1 = items h) by (unfold h1; by rewrite items_hp, items_hs).
  assert (Hout1 : forall y, y ∉ xs1 ++ old :: new :: xs2 -> h1 !! y = h !! y)
    by (intros y Hy; split_not_in Hy; unfold h1; by rewrite hp_ne, hs_ne by congruence).
  clearbody h1. rewrite <- Hi1. clear Hi1 H1 H2 Ha Hnew Hseg.
  (* the last step: the replaced item is freed or left without links *)
  assert (Hgoal : forall h2 l2, dseg h2 None (xs1 ++ new :: xs2) None ->
    first l2 = head (xs1 ++ new :: xs2) -> last_item l2 = last (xs1 ++ new :: xs2) ->
    num_items l2 = num_items l -> items h2 = items h1 -> (exists s p, h2 !! old = Some (mkCell a s p)) ->
    (forall y, y ∉ xs1 ++ old :: new :: xs2 -> h2 !! y = h1 !! y) ->
    exists h' l', (let! h := if set_free then Ret (delete old h2)
        else let! h := set_successor h2 (Some old) None in set_predeccessor h (Some old) None in
        Ret (h, l2, 0)) = Ret (h', l', 0) /\ lists h' l' (xs1 ++ new :: xs2) /\
      items h' = (if set_free then delete old (items h1) else items h1) /\
      (forall y, y ∉ xs1 ++ old :: new :: xs2 -> h' !! y = h !! y) /\
      (set_free = false -> exists a, h' !! old = Some (mkCell a None None))).
  { intros h2 l2 Hs2 Hf2 Hl2 Hn2 Hi2 (os & op & Hold) Hout2.
    assert (Hnum : num_items l2 = Z.of_nat (length (xs1 ++ new :: xs2)))
      by (rewrite Hn2, Hn, !length_app; simpl; lia).
    assert (Hx' : old ∉ xs1 ++ new :: xs2) by not_in.
    destruct set_free; cbn [obind].
    - eexists _, _. split; [done|]. split; [split; try done; by apply dseg_delete|].
      split_and!; [unfold items in *; by rewrite fmap_delete, Hi2| |done].
      intros y Hy. rewrite lookup_delete_ne by (split_not_in Hy; congruence).
      rewrite Hout2 by done. by apply Hout1.
    - rewrite set_successor_hs by eauto. cbn [obind].
      rewrite set_predeccessor_hp by (rewrite hs_is_Some; eauto). cbn [obind].
      eexists _, _. split; [done|]. split; [split; try done; by frame_seg|].
      split_and!; [by rewrite items_hp, items_hs| |intros _; exists a; by eapply hp_eq, hs_eq].
      intros y Hy. pose proof Hy as Hy'. split_not_in Hy'. rewrite hp_ne, hs_ne by congruence.
      rewrite Hout2 by done. by apply Hout1. }
  destruct xs2 as [|s xs2]; cbn [from_head] in *.
  - cbn [obind get_predeccessor].
    destruct xs1 as [|p xs1 _] using rev_ind.
    + cbn in *. apply Hgoal; try done; eauto.
    + assert (Hp : to_last None (xs1 ++ [p]) = Some p) by (unfold to_last; by rewrite last_snoc).
      rewrite Hp in *. pose proof H1' as (H1a & (ap & Hap) & _)%segs_of.
      pose proof Hnd1 as (_ & _ & Hp1 & _)%NoDup_mid. split_not_in Hx1.
      match goal with H : new ∉ xs1 ++ [p] |- _ => split_not_in H end.
      rewrite set_successor_hs by eauto. cbn [obind].
      apply Hgoal; cbn; try done.
      * rewrite segs_of, Hp. split; [by eapply dseg_hs_last|]. split; [|done].
        exists b. by rewrite hs_ne by congruence.
      * rewrite Hf. by destruct xs1.
      * by rewrite last_snoc.
      * by rewrite items_hs.
      * eexists _, _. by rewrite hs_ne by congruence.
      * intros y Hy. split_not_in Hy. by rewrite hs_ne by congruence.
  - pose proof H2' as [(c & Hc) H2b]. split_not_in Hx2.
    match goal with H : new ∉ s :: xs2 |- _ => split_not_in H end.
    apply NoDup_cons in Hnd2 as [Hs2 _].
    assert (Hs1 : s ∉ xs1) by (intros Hin; apply (Hd s Hin); by left).
    rewrite set_predeccessor_hp by eauto. cbn [obind].
    destruct xs1 as [|p xs1 _] using rev_ind.
    + cbn in *. apply Hgoal; cbn; try done.
      * split; [exists b; by rewrite hp_ne by congruence|]. split; [exists c; by eapply hp_eq|by frame_seg].
      * by rewrite items_hp.
      * eexists _, _. by rewrite hp_ne by congruence.
      * intros y Hy. split_not_in Hy. by rewrite hp_ne by congruence.
    + assert (Hp : to_last None (xs1 ++ [p]) = Some p) by (unfold to_last; by rewrite last_snoc).
      rewrite Hp in *. pose proof H1' as (H1a & (ap & Hap) & _)%segs_of.
      pose proof Hnd1 as (_ & _ & Hp1 & _)%NoDup_mid. split_not_in Hx1. split_not_in Hs1.
      match goal with H : new ∉ xs1 ++ [p] |- _ => split_not_in H end.
      pose proof (Hd p ltac:(apply elem_of_app; right; by left)) as Hps. split_not_in Hps.
      rewrite set_successor_hs by (rewrite hp_is_Some; eauto). cbn [obind].
      apply Hgoal; cbn; try done.
      * rewrite segs_of, Hp. split; [|split; [|split]].
        -- eapply dseg_hs_last; [done|]. frame_seg. done.
        -- exists b. by rewrite hs_ne, hp_ne by congruence.
        -- exists c. rewrite hs_ne by congruence. by eapply hp_eq.
        -- by frame_seg.
      * rewrite Hf. by destruct xs1.
      * rewrite Hl, !last_app. by destruct xs2.
      * by rewrite items_hs, items_hp.
      * eexists _, _. by rewrite hs_ne, hp_ne by congruence.
      * intros y Hy. split_not_in Hy. by rewrite hs_ne, hp_ne by congruence.
Qed.

(** Swapping two neighbours moves the first behind the second.  Of two items
    further apart only the first is moved: the second move is never made. *)
Lemma list_swap_item_moves_one h l xs1 x xs2 y xs3 :
  lists h l (xs1 ++ x :: xs2 ++ y :: xs3) -> xs1 <> [] ->
  Z.of_nat (length (xs1 ++ x :: xs2 ++ y :: xs3)) < 2 ^ 31 ->
  exists h' l', list_swap_item create h l (Some x) (Some y) = Ret (h', l', 0) /\
    lists h' l' (xs1 ++ xs2 ++ y :: x :: xs3) /\ items h' = items h.
Proof.
  intros Hl Hne Hsmall. unfold list_swap_item.
  pose proof (ls_nodup _ _ _ Hl) as (_ & _ & _ & Hx2 & _)%NoDup_mid. split_not_in Hx2.
  rewrite bool_decide_false by congruence.
  pose proof (ls_links _ _ _ Hl) as (_ & (a & Ha) & _)%segs_of. cbn [get_predeccessor]. rewrite Ha.
  cbn [of_option obind pred].
  destruct xs1 as [|p xs1 _] using rev_ind; [done|]. unfold to_last. rewrite last_snoc.
  destruct (list_move_item_spec h l (xs1 ++ [p]) x (xs2 ++ y :: xs3) ((xs1 ++ [p]) ++ xs2) y xs3 Hl)
    as (h' & l' & E & Hl' & Hi & _); [by rewrite <- !(assoc_L (++))|done|].
  rewrite E. cbn [obind]. exists h', l'. split; [done|]. split; [|done].
  by rewrite <- (assoc_L (++)) in Hl'.
Qed.
End Refinement.
