(* ===== verification/PlanListSpec.v ===== *)
(** * What the lists of the plan promise, and that they keep it

    The contract: a list is a sequence of the items that are allocated, and the
    operations insert, remove, move and replace items of the sequence.  The
    refinement theorem runs any program of operations on the linked
    implementation of [PlanList] and on sequences: when the contract allows the
    program, the implementation runs it without touching a cell it must not
    touch, and the result is the linked form of the sequence. *)

From Stdlib Require Import ZArith Lia Bool Ascii String.
From S2P Require Import Prelude PlanList.

Open Scope Z_scope.
Local Open Scope sched_scope.

(** ** The contract *)

Inductive list_op :=
| AddBegin (x : positive)
| AddEnd (x : positive)
| AddInfrontof (next x : positive)
| AddInbackof (previous x : positive)
| RemoveItem (x : positive)
| FreeItem (x : positive)
| MoveItem (x : positive) (predeccessor : option positive)
| RepleaceItem (item_old item_new : positive).

Fixpoint insert_before (n x : positive) (xs : list positive) : list positive :=
  match xs with
  | [] => []
  | y :: ys => if decide (y = n) then x :: y :: ys else y :: insert_before n x ys
  end.

Fixpoint insert_after (n x : positive) (xs : list positive) : list positive :=
  match xs with
  | [] => []
  | y :: ys => if decide (y = n) then y :: x :: ys else y :: insert_after n x ys
  end.

Definition without (x : positive) (xs : list positive) : list positive := filter (fun y => y <> x) xs.
Definition replaced (x z : positive) (xs : list positive) : list positive :=
  (fun y => if decide (y = x) then z else y) <$> xs.

Section Contract.
Context {A : Type}.

(** The allocated items and the sequence. *)
Record seq_state := mkSeq { data : gmap positive A; order : list positive }.

Definition new_for (s : seq_state) (x : positive) : bool :=
  bool_decide (is_Some (data s !! x)) && bool_decide (x ∉ order s).

Definition seq_step (s : seq_state) (op : list_op) : option seq_state :=
  let xs := order s in
  let set ys := Some (mkSeq (data s) ys) in
  match op with
  | AddBegin x => if new_for s x then set (x :: xs) else None
  | AddEnd x => if new_for s x then set (xs ++ [x]) else None
  | AddInfrontof n x => if new_for s x && bool_decide (n ∈ xs) then set (insert_before n x xs) else None
  | AddInbackof n x => if new_for s x && bool_decide (n ∈ xs) then set (insert_after n x xs) else None
  | RemoveItem x => if bool_decide (x ∈ xs) then set (without x xs) else None
  | FreeItem x => if bool_decide (x ∈ xs) then Some (mkSeq (delete x (data s)) (without x xs)) else None
  | MoveItem x None => if bool_decide (x ∈ xs) then set (x :: without x xs) else None
  | MoveItem x (Some n) =>
      if bool_decide (x ∈ xs) && bool_decide (n ∈ without x xs)
      then set (insert_after n x (without x xs)) else None
  | RepleaceItem x z => if new_for s z && bool_decide (x ∈ xs) then set (replaced x z xs) else None
  end.

Fixpoint seq_run (s : seq_state) (ops : list list_op) : option seq_state :=
  match ops with
  | [] => Some s
  | op :: ops => match seq_step s op with Some s => seq_run s ops | None => None end
  end.

(** ** The implementation *)

Variable create : option A.

Definition list_step (h : heap A) (l : plan_list) (op : list_op) : outcome (heap A * plan_list) :=
  let fst3 {B} (r : outcome (heap A * plan_list * B)) := let! (h, l, _) := r in Ret (h, l) in
  match op with
  | AddBegin x => fst3 (list_add_begin create h l (Some x))
  | AddEnd x => fst3 (list_add_end create h l (Some x))
  | AddInfrontof n x => fst3 (list_add_infrontof create h l (Some n) (Some x))
  | AddInbackof n x => fst3 (list_add_inbackof create h l (Some n) (Some x))
  | RemoveItem x => fst3 (list_remove_item h l (Some x) false)
  | FreeItem x => fst3 (list_remove_item h l (Some x) true)
  | MoveItem x p => fst3 (list_move_item create h l (Some x) p)
  | RepleaceItem x z => fst3 (list_repleace_item h l (Some x) (Some z) false)
  end.

Fixpoint list_run (h : heap A) (l : plan_list) (ops : list list_op) : outcome (heap A * plan_list) :=
  match ops with
  | [] => Ret (h, l)
  | op :: ops => let! (h, l) := list_step h l op in list_run h l ops
  end.

(** ** The correspondence *)

(** The cells outside of the list are not linked. *)
Definition detached (h : heap A) (xs : list positive) : Prop :=
  forall y c, y ∉ xs -> h !! y = Some c -> succ c = None /\ pred c = None.

Record implements (h : heap A) (l : plan_list) (s : seq_state) : Prop := {
  im_lists : lists h l (order s);
  im_data : items h = data s;
  im_detached : detached h (order s)
}.

Lemma insert_before_split xs1 n xs2 x :
  n ∉ xs1 -> insert_before n x (xs1 ++ n :: xs2) = xs1 ++ x :: n :: xs2.
Proof.
  induction xs1 as [|y xs1 IH]; intros H; simpl; [by rewrite decide_True|].
  apply not_elem_of_cons in H as [? ?]. by rewrite decide_False, IH.
Qed.

Lemma insert_after_split xs1 n xs2 x :
  n ∉ xs1 -> insert_after n x (xs1 ++ n :: xs2) = xs1 ++ n :: x :: xs2.
Proof.
  induction xs1 as [|y xs1 IH]; intros H; simpl; [by rewrite decide_True|].
  apply not_elem_of_cons in H as [? ?]. by rewrite decide_False, IH.
Qed.

Lemma without_not_in x xs : x ∉ xs -> without x xs = xs.
Proof.
  intros H. unfold without. induction xs as [|y xs IH]; [done|].
  apply not_elem_of_cons in H as [? ?]. rewrite filter_cons_True, IH; done.
Qed.

Lemma without_split xs1 x xs2 : x ∉ xs1 -> x ∉ xs2 -> without x (xs1 ++ x :: xs2) = xs1 ++ xs2.
Proof.
  intros H1 H2. unfold without. rewrite filter_app, filter_cons_False by naive_solver.
  f_equal; by apply without_not_in.
Qed.

Lemma replaced_not_in x z xs : x ∉ xs -> replaced x z xs = xs.
Proof.
  unfold replaced. induction xs as [|y xs IH]; intros H; [done|].
  apply not_elem_of_cons in H as [? ?]. rewrite fmap_cons, decide_False, IH; done.
Qed.

Lemma replaced_split xs1 x z xs2 :
  x ∉ xs1 -> x ∉ xs2 -> replaced x z (xs1 ++ x :: xs2) = xs1 ++ z :: xs2.
Proof.
  intros H1 H2. rewrite <- (replaced_not_in x z xs1) at 2 by done.
  rewrite <- (replaced_not_in x z xs2) at 2 by done.
  unfold replaced. by rewrite fmap_app, fmap_cons, decide_True.
Qed.

(** A list has at most as many items as there are cells, one less when an
    allocated cell is not in it. *)
Lemma implements_size h l s :
  implements h l s -> (length (order s) <= size (data s))%nat /\
  forall x, is_Some (data s !! x) -> x ∉ order s -> (length (order s) < size (data s))%nat.
Proof.
  intros [[Hnd Hseg _ _ _] <- _].
  assert (Hsub : forall xs, NoDup xs -> (forall y, y ∈ xs -> y ∈ dom (items h)) ->
    (length xs <= size (items h))%nat).
  { intros xs Hxs Hin. rewrite <- (size_dom (items h)), <- (size_list_to_set (C := gset positive) xs) by done.
    apply subseteq_size. intros y Hy%elem_of_list_to_set. by apply Hin. }
  assert (Hin : forall y, y ∈ order s -> y ∈ dom (items h)).
  { intros y Hy. apply elem_of_dom. unfold items. rewrite lookup_fmap. apply fmap_is_Some.
    by eapply dseg_lookup. }
  split; [by apply Hsub|]. intros x Hx Hnx. apply (Hsub (x :: order s)); [by constructor|].
  intros y [->|Hy]%elem_of_cons; [by apply elem_of_dom|by apply Hin].
Qed.

(** A cell that is allocated and not in the list. *)
Lemma implements_new h l s x :
  implements h l s -> new_for s x = true ->
  (exists a, h !! x = Some (mkCell a None None)) /\ x ∉ order s /\
  Z.of_nat (length (order s)) + 1 <= Z.of_nat (size (data s)).
Proof.
  intros Him [Hx Hnx]%andb_true_iff. apply bool_decide_eq_true in Hx, Hnx.
  destruct (implements_size h l s Him) as [_ Hlen]. specialize (Hlen x Hx Hnx).
  destruct Him as [_ Hd Hdet]. rewrite <- Hd in Hx. unfold items in Hx. rewrite lookup_fmap in Hx.
  apply fmap_is_Some in Hx as [[a sc pr] Hx]. destruct (Hdet x _ Hnx Hx) as [E1 E2]. simpl in *. subst.
  split_and!; [eauto|done|lia].
Qed.

(** An operation that inserts a new item or moves one. *)
Lemma implements_links h l s h' l' ys :
  implements h l s -> lists h' l' ys -> only_links h h' ys ->
  (forall y, y ∈ order s -> y ∈ ys) -> implements h' l' (mkSeq (data s) ys).
Proof.
  intros [_ Hd Hdet] Hl' [Hi Hout] Hsub. split; simpl; [done|congruence|].
  intros y c Hy Hc. apply (Hdet y); [by intros ?%Hsub|]. by rewrite <- Hout.
Qed.

(** An operation that takes an item out, or puts another in its place. *)
Lemma implements_drop h l s h' l' m ys x :
  implements h l s -> lists h' l' ys -> items h' = m ->
  (forall y, y ∉ order s -> h' !! y = h !! y) ->
  (forall y, y ∈ order s -> y = x \/ y ∈ ys) ->
  (forall c, x ∉ ys -> h' !! x = Some c -> succ c = None /\ pred c = None) ->
  implements h' l' (mkSeq m ys).
Proof.
  intros [_ Hd Hdet] Hl' Hi Hout Hsub Hx. split; simpl; [done|done|].
  intros y c Hy Hc. destruct (decide (y = x)) as [->|Hne]; [by apply Hx|].
  assert (Ho : y ∉ order s) by (intros [?|?]%Hsub; done). apply (Hdet y); [done|]. by rewrite <- Hout.
Qed.

(** *** One operation *)
Section Step.
Context (h : heap A) (l : plan_list) (s : seq_state).
Hypothesis Him : implements h l s.
Hypothesis Hsz : Z.of_nat (size (data s)) < 2 ^ 31.

(** What the operation must come to. *)
Definition refines (op : list_op) (s' : seq_state) : Prop :=
  exists h' l', list_step h l op = Ret (h', l') /\ implements h' l' s'.

(** An item of the sequence, the items around it and what they share. *)
Ltac item_of Hx xs ys E :=
  apply list_elem_of_split in Hx as (xs & ys & E);
  let Hnd := fresh in
  pose proof (ls_nodup _ _ _ (im_lists _ _ _ Him)) as Hnd; rewrite E in Hnd;
  apply NoDup_mid in Hnd as (? & ? & ? & ? & ?).

Lemma step_lists : lists h l (order s) /\ Z.of_nat (length (order s)) < 2 ^ 31.
Proof. split; [apply Him|]. pose proof (implements_size h l s Him) as [Hlen _]. lia. Qed.

Ltac done_with Hl' Ho :=
  cbn [obind]; eexists _, _; split; [reflexivity|];
  eapply implements_links; [exact Him|exact Hl'|exact Ho|].

Section Add.
Context (x : positive).
Hypothesis Hnew : new_for s x = true.

Lemma step_add_begin : refines (AddBegin x) (mkSeq (data s) (x :: order s)).
Proof.
  destruct (implements_new h l s x Him Hnew) as ((a & Hx) & Hnx & Hlen). destruct step_lists as [Hl _].
  destruct (list_add_begin_spec create h l _ x _ Hl Hx) as (h' & l' & Eq & Hl' & _ & Ho); [done|done|done|lia|].
  unfold refines, list_step. rewrite Eq. done_with Hl' Ho. set_solver.
Qed.

Lemma step_add_end : refines (AddEnd x) (mkSeq (data s) (order s ++ [x])).
Proof.
  destruct (implements_new h l s x Him Hnew) as ((a & Hx) & Hnx & Hlen). destruct step_lists as [Hl _].
  destruct (list_add_end_spec create h l _ x _ Hl Hx) as (h' & l' & Eq & Hl' & _ & Ho); [done|done|done|lia|].
  unfold refines, list_step. rewrite Eq. done_with Hl' Ho. set_solver.
Qed.

Lemma step_add_infrontof n :
  n ∈ order s -> refines (AddInfrontof n x) (mkSeq (data s) (insert_before n x (order s))).
Proof.
  intros Hn. destruct (implements_new h l s x Him Hnew) as ((a & Hx) & Hnx & Hlen).
  destruct step_lists as [Hl _]. item_of Hn xs ys E. rewrite E in *.
  destruct (add_infrontof_spec create h l xs n ys x _ Hl Hx) as (h' & l' & Eq & Hl' & _ & Ho); [done|lia|].
  unfold refines, list_step, list_add_infrontof. rewrite Eq, insert_before_split by done.
  done_with Hl' Ho. rewrite E. set_solver.
Qed.

Lemma step_add_inbackof n :
  n ∈ order s -> refines (AddInbackof n x) (mkSeq (data s) (insert_after n x (order s))).
Proof.
  intros Hn. destruct (implements_new h l s x Him Hnew) as ((a & Hx) & Hnx & Hlen).
  destruct step_lists as [Hl _]. item_of Hn xs ys E. rewrite E in *.
  destruct (add_inbackof_spec create h l xs n ys x _ Hl Hx) as (h' & l' & Eq & Hl' & _ & Ho); [done|lia|].
  unfold refines, list_step, list_add_inbackof. rewrite Eq, insert_after_split by done.
  done_with Hl' Ho. rewrite E. set_solver.
Qed.

Lemma step_repleace z :
  z ∈ order s -> refines (RepleaceItem z x) (mkSeq (data s) (replaced z x (order s))).
Proof.
  intros Hz. destruct (implements_new h l s x Him Hnew) as ((a & Hx) & Hnx & Hlen).
  destruct step_lists as [Hl _]. item_of Hz xs ys E. rewrite E in *.
  destruct (list_repleace_item_spec h l xs z ys x _ false Hl Hx Hnx)
    as (h' & l' & Eq & Hl' & Hi & Ho & Hold). destruct (Hold eq_refl) as (b & Hz').
  unfold refines, list_step. rewrite Eq, replaced_split by done. cbn [obind]. eexists _, _. split; [done|].
  split; simpl; [done|by rewrite Hi, (im_data _ _ _ Him)|].
  intros y c Hy Hc. destruct (decide (y = z)) as [->|Hne]; [rewrite Hz' in Hc; by injection Hc as <-|].
  apply (im_detached _ _ _ Him y); [rewrite E; set_solver|]. rewrite <- Ho; [done|set_solver].
Qed.
End Add.

Section Take.
Context (x : positive).
Hypothesis Hx : x ∈ order s.

Lemma step_remove : refines (RemoveItem x) (mkSeq (data s) (without x (order s))).
Proof.
  destruct step_lists as [Hl Hlen]. pose proof Hx as Hx'. item_of Hx' xs ys E. rewrite E in Hl, Hlen.
  destruct (list_remove_item_spec h l xs x ys false Hl Hlen) as (h' & l' & Eq & Hl' & _ & Ho & Hi & a & Ha).
  unfold refines, list_step. rewrite Eq, E, without_split by done. cbn [obind]. eexists _, _. split; [done|].
  apply (implements_drop h l s h' l' _ _ x); try done; try rewrite E; [|done|set_solver|].
  - by rewrite Hi, (im_data _ _ _ Him).
  - intros c _ Hc. rewrite Ha in Hc. by injection Hc as <-.
Qed.

Lemma step_free : refines (FreeItem x) (mkSeq (delete x (data s)) (without x (order s))).
Proof.
  destruct step_lists as [Hl Hlen]. pose proof Hx as Hx'. item_of Hx' xs ys E. rewrite E in Hl, Hlen.
  destruct (list_remove_item_spec h l xs x ys true Hl Hlen) as (h' & l' & Eq & Hl' & _ & Ho & Hi).
  unfold refines, list_step. rewrite Eq, E, without_split by done. cbn [obind]. eexists _, _. split; [done|].
  apply (implements_drop h l s h' l' _ _ x); try done; try rewrite E; [|done|set_solver|].
  - by rewrite Hi, (im_data _ _ _ Him).
  - intros c _ Hc. assert (Hn : items h' !! x = None) by (rewrite Hi; apply lookup_delete_eq).
    unfold items in Hn. by rewrite lookup_fmap, Hc in Hn.
Qed.

(** A moved item stays among the same items. *)
Lemma implements_moved h' l' ys :
  lists h' l' ys -> items h' = items h -> (forall y, y ∉ order s -> h' !! y = h !! y) ->
  (forall y, y ∈ order s <-> y ∈ ys) -> implements h' l' (mkSeq (data s) ys).
Proof.
  intros Hl' Hi Ho Hsame. eapply implements_links; [done..| |by intros y ?%Hsame].
  split; [done|]. intros y Hy. apply Ho. by rewrite Hsame.
Qed.

Lemma step_move_front : refines (MoveItem x None) (mkSeq (data s) (x :: without x (order s))).
Proof.
  destruct step_lists as [Hl Hlen]. pose proof Hx as Hx'. item_of Hx' xs ys E. rewrite E in Hl, Hlen.
  destruct (list_move_front_spec create h l xs x ys Hl Hlen) as (h' & l' & Eq & Hl' & Hi & Ho).
  unfold refines, list_step. rewrite Eq. cbn [obind]. eexists _, _. split; [done|].
  rewrite E, without_split by done. rewrite <- E in Ho. apply implements_moved; [done..|]. rewrite E. set_solver.
Qed.

Lemma step_move n :
  n ∈ without x (order s) ->
  refines (MoveItem x (Some n)) (mkSeq (data s) (insert_after n x (without x (order s)))).
Proof.
  intros Hn. destruct step_lists as [Hl Hlen]. pose proof Hx as Hx'. item_of Hx' xs ys E.
  rewrite E in Hl, Hlen. rewrite E, without_split in * by done.
  pose proof Hn as (r1 & r2 & Er)%list_elem_of_split.
  assert (Hr : n ∉ r1).
  { assert (Hnd : NoDup (xs ++ ys)) by (apply NoDup_app; auto). rewrite Er in Hnd.
    by apply NoDup_mid in Hnd as (_ & _ & ? & _). }
  destruct (list_move_item_spec create h l xs x ys r1 n r2 Hl Er Hlen) as (h' & l' & Eq & Hl' & Hi & Ho).
  unfold refines, list_step. rewrite Eq. cbn [obind]. eexists _, _. split; [done|].
  rewrite Er, insert_after_split by done. rewrite <- E in Ho. apply implements_moved; [done..|].
  intros y. rewrite E. assert (y ∈ xs ++ ys <-> y ∈ r1 ++ n :: r2) by (by rewrite Er). set_solver.
Qed.
End Take.

Lemma list_step_refines op s' : seq_step s op = Some s' -> refines op s'.
Proof.
  destruct op as [x|x|n x|n x|x|x|x [n|]|x z]; cbn [seq_step]; intros Hstep;
    match type of Hstep with (if ?b then _ else _) = _ => destruct b eqn:Hb; [|done] end;
    injection Hstep as <-; to_props;
    first [by apply step_add_begin|by apply step_add_end|by apply step_add_infrontof
          |by apply step_add_inbackof|by apply step_remove|by apply step_free|by apply step_move
          |by apply step_move_front|by apply step_repleace].
Qed.
End Step.

Lemma seq_step_size s op s' : seq_step s op = Some s' -> (size (data s') <= size (data s))%nat.
Proof.
  destruct op as [x|x|n x|n x|x|x|x [n|]|x z]; cbn [seq_step]; intros Hstep;
    match type of Hstep with (if ?b then _ else _) = _ => destruct b; [|done] end;
    injection Hstep as <-; simpl; try done.
  by apply map_subseteq_size, delete_subseteq.
Qed.

(** *** Programs of operations *)
Lemma list_run_implements ops h l s s' :
  implements h l s -> Z.of_nat (size (data s)) < 2 ^ 31 -> seq_run s ops = Some s' ->
  exists h' l', list_run h l ops = Ret (h', l') /\ implements h' l' s'.
Proof.
  revert h l s. induction ops as [|op ops IH]; intros h l s Him Hsz Hrun; simpl in *.
  - injection Hrun as <-. eauto.
  - destruct (seq_step s op) as [s1|] eqn:Es; [|done].
    destruct (list_step_refines h l s Him Hsz op s1 Es) as (h1 & l1 & -> & Him1). cbn [obind].
    apply (IH _ _ s1); [done| |done]. apply seq_step_size in Es. lia.
Qed.

Lemma list_create_implements (m : gmap positive A) :
  implements ((fun a => mkCell a None None) <$> m) list_create (mkSeq m []).
Proof.
  split; simpl; [by split; try constructor| |].
  - unfold items. rewrite <- map_fmap_compose. apply map_eq. intros x. rewrite lookup_fmap.
    by destruct (m !! x).
  - intros y c _ Hc. rewrite lookup_fmap in Hc. by destruct (m !! y); simplify_eq/=.
Qed.

End Contract.
Arguments seq_state : clear implicits.
Arguments mkSeq {A} _ _.

(** C14: A list of the plan is a sequence.  Any program of insertions at the ends
    or next to an item, removals, frees, moves and replacements that makes sense
    on the sequence (an item is inserted only while it is allocated and not in
    the list, and taken, moved or replaced only while it is in it) runs on the
    linked list from the empty list, touching only allocated items, and leaves
    the linked form of the sequence: read forward and backward by the links, with
    the header's ends and count, the data of the items as they were and the items
    outside the list without links. *)
Theorem plan_list_refines_sequence {A} (create : option A) (m : gmap positive A)
    (ops : list list_op) (s : seq_state A)
    (Hsize : Z.of_nat (size m) < 2 ^ 31) (Hrun : seq_run (mkSeq m []) ops = Some s) :
  exists h l, list_run create ((fun a => mkCell a None None) <$> m) list_create ops = Ret (h, l) /\
    implements h l s /\
    num_items l = Z.of_nat (length (order s)) /\
    (forall i, list_get_item h l (Z.of_nat i) =
      if (i <? length (order s))%nat then Ret (l <| current := order s !! i |>, order s !! i)
      else Ret (l, None)).
Proof.
  destruct (list_run_implements create ops _ _ _ s (list_create_implements m) Hsize Hrun) as (h & l & E & Him).
  exists h, l. split_and!; [done|done|apply Him|]. intros i.
  rewrite (list_get_item_spec h l (order s)) by apply Him. rewrite Nat2Z.id.
  destruct (Z.leb_spec 0 (Z.of_nat i)), (Z.ltb_spec (Z.of_nat i) (Z.of_nat (length (order s)))),
    (Nat.ltb_spec i (length (order s))); simpl; done || lia.
Qed.

(** Five items: three added, one moved to the front, one replaced, one freed. *)
Definition example_items : gmap positive Z := list_to_map [(1%positive, 10); (2%positive, 20); (3%positive, 30); (4%positive, 40); (5%positive, 50)].
Definition example_ops : list list_op :=
  [AddEnd 1; AddEnd 3; AddInfrontof 3 2; MoveItem 3 None; RepleaceItem 1 5; MoveItem 3 (Some 5);
   AddInbackof 2 4; FreeItem 3]%positive.

Lemma plan_list_refines_sequence_witness :
  exists s, seq_run (mkSeq example_items []) example_ops = Some s /\ order s = [5; 2; 4]%positive /\
  exists h l, list_run None ((fun a => mkCell a None None) <$> example_items) list_create example_ops = Ret (h, l) /\
    implements h l s.
Proof.
  eexists. split; [vm_compute; reflexivity|]. split; [reflexivity|].
  destruct (plan_list_refines_sequence None example_items example_ops
    (mkSeq (delete 3%positive example_items) [5; 2; 4]%positive)) as (h & l & E & Him & _).
  - vm_compute. reflexivity.
  - vm_compute. reflexivity.
  - exists h, l. split; [exact E|]. exact Him.
Defined.
