(* ===== verification/PlanValues.v ===== *)
(** * Lists of the plan as sequences of values

    The data of the items of a list, in order, and how the operations and the
    walks over the list act on it.  [values_are] relates a list in the heap to
    the values of its items; the cells of other lists are left alone. *)

From Stdlib Require Import ZArith Lia Bool Ascii String.
From S2P Require Import Prelude PlanList.

Open Scope Z_scope.
Local Open Scope sched_scope.

Section Values.
Context {A : Type}.
Implicit Types (h : heap A) (l : plan_list) (xs ys : list positive) (vs : list A).

Definition item_at h (x : positive) : outcome A := let! c := of_option (h !! x) in Ret (item c).
Definition set_item h (x : positive) (a : A) : heap A := alter (fun c => mkCell a (succ c) (pred c)) x h.
Definition alloc h (a : A) : heap A * positive := let x := fresh (dom h) in (<[x := mkCell a None None]> h, x).

(** A walk over a list: the body is run on each item in turn, and may end the
    walk.  The next item is taken from the item the list is at. *)
Fixpoint each {S : Type} (body : positive -> heap A -> plan_list -> S -> outcome (heap A * plan_list * S * bool))
    (fuel : nat) h l (s : S) : outcome (heap A * plan_list * S) :=
  match fuel with
  | O => UB
  | S fuel =>
      let! l := list_get_next h l in
      match current l with
      | None => Ret (h, l, s)
      | Some x =>
          let! (h, l, s, go) := body x h l s in
          if go : bool then each body fuel h l s else Ret (h, l, s)
      end
  end.

(** A walk from the start; the fuel is the number of cells. *)
Definition for_each {S : Type} (body : positive -> heap A -> plan_list -> S -> outcome (heap A * plan_list * S * bool))
    h l (s : S) : outcome (heap A * plan_list * S) :=
  each body (size h + 1) h (l <| current := None |>) s.

Record values_are h l xs vs : Prop := {
  va_lists : lists h l xs;
  va_items : Forall2 (fun x v => items h !! x = Some v) xs vs
}.

Lemma values_length h l xs vs : values_are h l xs vs -> length xs = length vs.
Proof. intros [_ H]. by eapply Forall2_length. Qed.

Lemma values_lookup h l xs vs i x :
  values_are h l xs vs -> xs !! i = Some x -> exists v, vs !! i = Some v /\ items h !! x = Some v.
Proof. intros [_ H] Hi. exact (Forall2_lookup_l _ _ _ i x H Hi). Qed.

Lemma item_at_items h x a : items h !! x = Some a -> item_at h x = Ret a.
Proof. intros (c & Hc & <-)%items_lookup. unfold item_at. by rewrite Hc. Qed.

Lemma items_set_item h x a : items (set_item h x a) = alter (fun _ => a) x (items h).
Proof.
  unfold items, set_item. apply map_eq. intros y. rewrite lookup_fmap.
  destruct (decide (x = y)) as [<-|Hne].
  - rewrite !lookup_alter_eq, lookup_fmap. by destruct (h !! x).
  - by rewrite !lookup_alter_ne, lookup_fmap.
Qed.

Lemma lists_set_item h l xs x a : lists h l xs -> lists (set_item h x a) l xs.
Proof.
  apply lists_ext. intros y c _ Hc. unfold set_item. destruct (decide (x = y)) as [<-|Hne].
  - exists a. by rewrite lookup_alter_eq, Hc.
  - exists (item c). rewrite lookup_alter_ne by done. rewrite Hc. by destruct c.
Qed.

Lemma items_frame (m m' : gmap positive A) xs vs :
  (forall y, y ∈ xs -> m' !! y = m !! y) ->
  Forall2 (fun x v => m !! x = Some v) xs vs -> Forall2 (fun x v => m' !! x = Some v) xs vs.
Proof.
  intros Hf H. induction H as [|x v xs vs Hx H IH]; constructor.
  - by rewrite Hf by (by left).
  - apply IH. intros y Hy. apply Hf. by right.
Qed.

(** The item at a place of the sequence. *)
Lemma values_at h l xs1 x xs2 vs1 v vs2 :
  values_are h l (xs1 ++ x :: xs2) (vs1 ++ v :: vs2) -> length xs1 = length vs1 ->
  items h !! x = Some v /\ item_at h x = Ret v /\ x ∉ xs1 /\ x ∉ xs2.
Proof.
  intros [Hl Hi] Hlen. pose proof (ls_nodup _ _ _ Hl) as (_ & _ & H1 & H2 & _)%NoDup_mid.
  apply Forall2_app_inv in Hi as [_ Hi]; [|done]. apply Forall2_cons in Hi as [Hx _].
  split_and!; [done|by apply item_at_items|done|done].
Qed.

Lemma values_set h l xs1 x xs2 vs1 v vs2 v' :
  values_are h l (xs1 ++ x :: xs2) (vs1 ++ v :: vs2) -> length xs1 = length vs1 ->
  values_are (set_item h x v') l (xs1 ++ x :: xs2) (vs1 ++ v' :: vs2).
Proof.
  intros H Hlen. destruct (values_at _ _ _ _ _ _ _ _ H Hlen) as (Hx & _ & H1 & H2). destruct H as [Hl Hi].
  apply Forall2_app_inv in Hi as [Hi1 Hi2]; [|done]. apply Forall2_cons in Hi2 as [_ Hi2].
  split; [by apply lists_set_item|]. rewrite items_set_item. apply Forall2_app; [|constructor].
  - eapply items_frame; [|exact Hi1]. intros y Hy. apply lookup_alter_ne. set_solver.
  - by rewrite lookup_alter_eq, Hx.
  - eapply items_frame; [|exact Hi2]. intros y Hy. apply lookup_alter_ne. set_solver.
Qed.

(** A change of a cell outside of the list. *)
Lemma values_set_other h l xs vs y a : y ∉ xs -> values_are h l xs vs -> values_are (set_item h y a) l xs vs.
Proof.
  intros Hy [Hl Hi]. split; [by apply lists_set_item|]. rewrite items_set_item.
  eapply items_frame; [|exact Hi]. intros z Hz. apply lookup_alter_ne. set_solver.
Qed.

(** ** New items *)

(** A cell for [a] that no list holds. *)
Definition spare h (c : positive) (a : A) : Prop := h !! c = Some (mkCell a None None).

Lemma alloc_values h l xs vs a :
  values_are h l xs vs ->
  let '(h', c) := alloc h a in
  values_are h' l xs vs /\ spare h' c a /\ c ∉ xs /\ forall y, is_Some (h !! y) -> y <> c /\ items h' !! y = items h !! y.
Proof.
  intros [Hl Hi]. unfold alloc. set (c := fresh (dom h)).
  assert (Hc : h !! c = None) by (apply not_elem_of_dom, is_fresh).
  assert (Hcx : c ∉ xs).
  { intros Hin. destruct (dseg_lookup _ _ _ _ c (ls_links _ _ _ Hl) Hin) as [d Hd]. by rewrite Hc in Hd. }
  assert (Hitems : items (<[c := mkCell a None None]> h) = <[c := a]> (items h)) by (unfold items; by rewrite fmap_insert).
  split_and!; [|by apply lookup_insert_eq|done|].
  - split.
    + eapply lists_ext; [|exact Hl]. intros y d _ Hd. exists (item d).
      rewrite lookup_insert_ne by (by intros <-; rewrite Hc in Hd). rewrite Hd. by destruct d.
    + rewrite Hitems. eapply items_frame; [|exact Hi]. intros y Hy. apply lookup_insert_ne. set_solver.
  - intros y [d Hd]. assert (y <> c) by (intros ->; by rewrite Hc in Hd). split; [done|].
    rewrite Hitems. by apply lookup_insert_ne.
Qed.

Lemma spare_set_item h c a x v : x <> c -> spare h c a -> spare (set_item h x v) c a.
Proof. intros Hne H. unfold spare, set_item. by rewrite lookup_alter_ne. Qed.

Lemma values_grow h h' l l' xs1 c xs2 vs1 a vs2 :
  values_are h l (xs1 ++ xs2) (vs1 ++ vs2) -> length xs1 = length vs1 -> spare h c a ->
  lists h' l' (xs1 ++ c :: xs2) -> items h' = items h -> values_are h' l' (xs1 ++ c :: xs2) (vs1 ++ a :: vs2).
Proof.
  intros [_ Hi] Hlen Hc Hl' Hi'. split; [done|]. rewrite Hi'. apply Forall2_app_inv in Hi as [Hi1 Hi2]; [|done].
  apply Forall2_app; [done|]. constructor; [|done]. by apply lookup_items in Hc.
Qed.

Section Put.
Context (create : option A) (h : heap A) (l : plan_list) (c : positive) (a : A).
Hypothesis Hspare : spare h c a.

Lemma put_infrontof xs1 x xs2 vs1 v vs2 :
  values_are h l (xs1 ++ x :: xs2) (vs1 ++ v :: vs2) -> length xs1 = length vs1 -> c ∉ xs1 ++ x :: xs2 ->
  Z.of_nat (length (xs1 ++ x :: xs2)) + 1 < 2 ^ 31 ->
  exists h' l', list_add_infrontof create h l (Some x) (Some c) = Ret (h', l', Some c) /\
    values_are h' l' (xs1 ++ c :: x :: xs2) (vs1 ++ a :: v :: vs2) /\ items h' = items h.
Proof.
  intros H Hlen Hc Hsmall.
  destruct (add_infrontof_spec create h l xs1 x xs2 c _ (va_lists _ _ _ _ H) Hspare Hc Hsmall)
    as (h' & l' & E & Hl' & _ & Hi & _).
  exists h', l'. split; [exact E|]. split; [by eapply values_grow|done].
Qed.

Lemma put_inbackof xs1 x xs2 vs1 v vs2 :
  values_are h l (xs1 ++ x :: xs2) (vs1 ++ v :: vs2) -> length xs1 = length vs1 -> c ∉ xs1 ++ x :: xs2 ->
  Z.of_nat (length (xs1 ++ x :: xs2)) + 1 < 2 ^ 31 ->
  exists h' l', list_add_inbackof create h l (Some x) (Some c) = Ret (h', l', Some c) /\
    values_are h' l' (xs1 ++ x :: c :: xs2) (vs1 ++ v :: a :: vs2) /\ items h' = items h.
Proof.
  intros H Hlen Hc Hsmall.
  destruct (add_inbackof_spec create h l xs1 x xs2 c _ (va_lists _ _ _ _ H) Hspare Hc Hsmall)
    as (h' & l' & E & Hl' & _ & Hi & _).
  exists h', l'. split; [exact E|]. split; [|done].
  pose proof (values_grow h h' l l' (xs1 ++ [x]) c xs2 (vs1 ++ [v]) a vs2) as Hgrow.
  rewrite <- !(assoc_L (++)) in Hgrow. apply Hgrow; try done. rewrite !length_app. simpl. lia.
Qed.

Lemma put_end xs vs :
  values_are h l xs vs -> c ∉ xs -> Z.of_nat (length xs) + 1 < 2 ^ 31 ->
  exists h' l', list_add_end create h l (Some c) = Ret (h', l', Some c) /\
    values_are h' l' (xs ++ [c]) (vs ++ [a]) /\ items h' = items h.
Proof.
  intros H Hc Hsmall.
  destruct (list_add_end_spec create h l xs c _ (va_lists _ _ _ _ H) Hspare) as (h' & l' & E & Hl' & _ & Hi & _); [done..|].
  exists h', l'. split; [exact E|]. split; [|done].
  eapply (values_grow h h' l l' xs c [] vs a []); rewrite ?app_nil_r; try done. by eapply values_length.
Qed.

Lemma put_begin xs vs :
  values_are h l xs vs -> c ∉ xs -> Z.of_nat (length xs) + 1 < 2 ^ 31 ->
  exists h' l', list_add_begin create h l (Some c) = Ret (h', l', Some c) /\
    values_are h' l' (c :: xs) (a :: vs) /\ items h' = items h.
Proof.
  intros H Hc Hsmall.
  destruct (list_add_begin_spec create h l xs c _ (va_lists _ _ _ _ H) Hspare) as (h' & l' & E & Hl' & _ & Hi & _); [done..|].
  exists h', l'. split; [exact E|]. split; [|done].
  by apply (values_grow h h' l l' [] c xs [] a vs).
Qed.
End Put.

(** ** Walks *)

Lemma lists_current h l xs p : lists h l xs -> lists h (l <| current := p |>) xs.
Proof. by intros []. Qed.
Lemma values_current h l xs vs p : values_are h l xs vs -> values_are h (l <| current := p |>) xs vs.
Proof. intros [Hl Hi]. split; [by apply lists_current|done]. Qed.

(** The next item, when the walk is behind [ys]. *)
Lemma next_of_walk h l ys zs :
  lists h l (ys ++ zs) -> current l = last ys -> list_get_next h l = Ret (l <| current := head zs |>).
Proof.
  intros Hl Hc. apply (list_get_next_spec h l (ys ++ zs) (length ys)); [done| | |].
  - rewrite Hc. intros ?%last_None. by subst.
  - rewrite Hc. destruct ys as [|y ys _] using rev_ind; [done|]. intros _. exists (length ys).
    rewrite length_app, last_snoc. simpl. split; [lia|]. rewrite <- (assoc_L (++)). by rewrite lookup_app_r, Nat.sub_diag.
  - rewrite lookup_app_r, Nat.sub_diag by lia. by destruct zs.
Qed.

(** A walk whose body sets the item it is at and goes on is a map with an
    accumulator over the values. *)
Fixpoint map_acc {S} (f : A -> S -> A * S) (vs : list A) (s : S) : list A * S :=
  match vs with
  | [] => ([], s)
  | v :: vs => let (v', s) := f v s in let (vs', s) := map_acc f vs s in (v' :: vs', s)
  end.

Lemma each_map {S} (body : positive -> heap A -> plan_list -> S -> outcome (heap A * plan_list * S * bool))
    (f : A -> S -> A * S) fuel ys zs us vs h l s :
  (forall x v h l s, x ∈ zs -> v ∈ vs -> items h !! x = Some v ->
    body x h l s = Ret (set_item h x (f v s).1, l, (f v s).2, true)) ->
  values_are h l (ys ++ zs) (us ++ vs) -> length ys = length us -> current l = last ys -> (length zs < fuel)%nat ->
  exists h' l', each body fuel h l s = Ret (h', l', (map_acc f vs s).2) /\
    values_are h' l' (ys ++ zs) (us ++ (map_acc f vs s).1) /\ current l' = None /\ dom h' = dom h /\
    forall y, y ∉ zs -> items h' !! y = items h !! y.
Proof.
  revert ys zs us h l s fuel. induction vs as [|v vs IH]; intros ys zs us h l s fuel Hbody H Hlen Hc Hf;
    pose proof (values_length _ _ _ _ H) as Hlens; rewrite !length_app in Hlens;
    destruct zs as [|z zs]; simpl in Hlens; try lia; (destruct fuel as [|fuel]; [simpl in Hf; lia|]);
    cbn [each]; rewrite (next_of_walk h l ys _ (va_lists _ _ _ _ H) Hc); cbn [obind head].
  - simpl. exists h, (l <| current := None |>). split_and!; try done. by apply values_current.
  - change (current (l <| current := Some z |>)) with (Some z). cbv iota.
    destruct (values_at _ _ _ _ _ _ _ _ H Hlen) as (Hz & _ & _ & Hzz).
    rewrite (Hbody z v) by (by left || done). cbn [obind]. destruct (f v s) as [v' s'] eqn:Ef. simpl.
    apply (values_current _ _ _ _ (Some z)), (values_set _ _ _ _ _ _ _ _ v') in H; [|done].
    destruct (IH (ys ++ [z]) zs (us ++ [v']) (set_item h z v') (l <| current := Some z |>) s' fuel)
      as (h' & l' & E & H' & Hc' & Hdom & Hout).
    + intros x w h2 l2 s2 Hx Hw. apply Hbody; by right.
    + by rewrite <- !(assoc_L (++)).
    + rewrite !length_app. simpl. lia.
    + by rewrite last_snoc.
    + simpl in Hf. lia.
    + cbn [map_acc]. rewrite Ef. destruct (map_acc f vs s') as [vs' s2]. simpl in *. exists h', l'. rewrite E.
      split_and!; try done.
      * by rewrite <- !(assoc_L (++)) in H'.
      * rewrite Hdom. apply set_eq. intros y. rewrite !elem_of_dom. unfold set_item. by rewrite lookup_alter_is_Some.
      * intros y Hy. apply not_elem_of_cons in Hy as [Hy1 Hy2]. rewrite Hout by done.
        rewrite items_set_item. by rewrite lookup_alter_ne.
Qed.

(** A walk that reads the items and their successors, and may end at an item. *)
Fixpoint fold_until {S} (f : A -> option A -> S -> outcome (S * bool)) (vs : list A) (s : S) : outcome S :=
  match vs with
  | [] => Ret s
  | v :: vs => let! (s, go) := f v (head vs) s in if go : bool then fold_until f vs s else Ret s
  end.

(** The cell of an item of a list whose next item is [w]. *)
Definition next_value h (x : positive) (v : A) (w : option A) : Prop :=
  exists s p, h !! x = Some (mkCell v s p) /\
    match s with None => w = None | Some y => exists a, items h !! y = Some a /\ w = Some a end.

Lemma values_next h l xs1 x xs2 vs1 v vs2 :
  values_are h l (xs1 ++ x :: xs2) (vs1 ++ v :: vs2) -> length xs1 = length vs1 -> next_value h x v (head vs2).
Proof.
  intros H Hlen. destruct (values_at _ _ _ _ _ _ _ _ H Hlen) as (Hx & _). destruct H as [Hl Hi].
  pose proof (ls_links _ _ _ Hl) as (_ & (a & Ha) & _)%segs_of.
  pose proof (lookup_items _ _ _ Ha) as Ha'. simpl in Ha'. assert (a = v) as -> by congruence.
  eexists _, _. split; [exact Ha|].
  apply Forall2_app_inv in Hi as [_ Hi]; [|done]. apply Forall2_cons in Hi as [_ Hi].
  destruct Hi as [|y w xs2 vs2 Hy Hi]; simpl; [done|]. by exists w.
Qed.

Lemma each_fold {S} (body : positive -> heap A -> plan_list -> S -> outcome (heap A * plan_list * S * bool))
    (f : A -> option A -> S -> outcome (S * bool)) fuel ys zs us vs h l s :
  (forall x v w l s, x ∈ zs -> next_value h x v w ->
    body x h l s = let! (s, go) := f v w s in Ret (h, l, s, go)) ->
  values_are h l (ys ++ zs) (us ++ vs) -> length ys = length us -> current l = last ys -> (length zs < fuel)%nat ->
  match fold_until f vs s with
  | Ret s' => exists l', each body fuel h l s = Ret (h, l', s') /\ values_are h l' (ys ++ zs) (us ++ vs)
  | Throw w => each body fuel h l s = Throw w
  | UB => each body fuel h l s = UB
  end.
Proof.
  revert ys zs us l s fuel. induction vs as [|v vs IH]; intros ys zs us l s fuel Hbody H Hlen Hc Hf;
    pose proof (values_length _ _ _ _ H) as Hlens; rewrite !length_app in Hlens;
    destruct zs as [|z zs]; simpl in Hlens; try lia; (destruct fuel as [|fuel]; [simpl in Hf; lia|]);
    cbn [each fold_until]; rewrite (next_of_walk h l ys _ (va_lists _ _ _ _ H) Hc); cbn [obind head].
  - simpl. eexists. split; [done|]. by apply values_current.
  - change (current (l <| current := Some z |>)) with (Some z). cbv iota.
    rewrite (Hbody z v (head vs)) by (by left || by eapply values_next).
    destruct (f v (head vs) s) as [[s' go]|w|]; cbn [obind]; [|done..].
    apply (values_current _ _ _ _ (Some z)) in H. destruct go; [|eauto].
    specialize (IH (ys ++ [z]) zs (us ++ [v]) (l <| current := Some z |>) s' fuel).
    rewrite <- !(assoc_L (++)) in IH. apply IH; try done.
    + intros x w nw l2 s2 Hx. apply Hbody; by right.
    + rewrite !length_app. simpl. lia.
    + by rewrite last_snoc.
    + simpl in Hf. lia.
Qed.

(** The walks from the start. *)
Lemma for_each_map {S} (body : positive -> heap A -> plan_list -> S -> outcome (heap A * plan_list * S * bool))
    (f : A -> S -> A * S) xs vs h l s :
  (forall x v h l s, x ∈ xs -> v ∈ vs -> items h !! x = Some v ->
    body x h l s = Ret (set_item h x (f v s).1, l, (f v s).2, true)) ->
  values_are h l xs vs ->
  exists h' l', for_each body h l s = Ret (h', l', (map_acc f vs s).2) /\
    values_are h' l' xs (map_acc f vs s).1 /\ dom h' = dom h /\ forall y, y ∉ xs -> items h' !! y = items h !! y.
Proof.
  intros Hbody H. pose proof (lists_size h l xs (va_lists _ _ _ _ H)) as Hsz.
  destruct (each_map body f (size h + 1) [] xs [] vs h (l <| current := None |>) s)
    as (h' & l' & E & H' & _ & Hd & Ho); try done; [by apply values_current|lia|]. by exists h', l'.
Qed.

Lemma for_each_fold {S} (body : positive -> heap A -> plan_list -> S -> outcome (heap A * plan_list * S * bool))
    (f : A -> option A -> S -> outcome (S * bool)) xs vs h l s :
  (forall x v w l s, x ∈ xs -> next_value h x v w ->
    body x h l s = let! (s, go) := f v w s in Ret (h, l, s, go)) ->
  values_are h l xs vs ->
  match fold_until f vs s with
  | Ret s' => exists l', for_each body h l s = Ret (h, l', s') /\ values_are h l' xs vs
  | Throw w => for_each body h l s = Throw w
  | UB => for_each body h l s = UB
  end.
Proof.
  intros Hbody H. pose proof (lists_size h l xs (va_lists _ _ _ _ H)) as Hsz.
  apply (each_fold body f (size h + 1) [] xs [] vs h (l <| current := None |>) s); try done; [by apply values_current|lia].
Qed.
End Values.
