(* ===== verification/PlanOrder.v ===== *)
(** * The order of the planned jobs: list_adjust_job_position of plan_list_operations.cpp

    The jobs of a cluster's plan are kept by start time, jobs that start together
    by identifier.  When the start time of one job changes, the job is moved to
    its place.  The two searches follow the links of the list, so they are given
    as much fuel as there are cells. *)

From Stdlib Require Import ZArith Lia Bool Ascii String SpecFloat.
From stdpp Require Import sorting.
From S2P Require Import Prelude DataTypes JobInfo PlanData PlanList PlanListSpec.

Open Scope Z_scope.
Local Open Scope sched_scope.

(** The conditions of the two loops. *)
Definition starts_after (p job : plan_job) : bool :=
  (pj_start_time p >? pj_start_time job)
  || ((pj_start_time p =? pj_start_time job) && (pj_job_id p >? pj_job_id job)).
Definition starts_before (s job : plan_job) : bool :=
  (pj_start_time s <? pj_start_time job)
  || ((pj_start_time s =? pj_start_time job) && (pj_job_id s <? pj_job_id job)).

(** Follows a link while the items satisfy a test. *)
Fixpoint seek (link : cell plan_job -> option positive) (test : plan_job -> bool) (fuel : nat)
    (h : heap plan_job) (p : option positive) : outcome (option positive) :=
  match p, fuel with
  | None, _ => Ret None
  | Some _, O => UB
  | Some x, S fuel =>
      let! c := of_option (h !! x) in
      if test (item c) then seek link test fuel h (link c) else Ret p
  end.

Definition list_adjust_job_position (create : option plan_job) (h : heap plan_job) (l : plan_list)
    (job : positive) : outcome (heap plan_job * plan_list * Z) :=
  let! c := of_option (h !! job) in
  let fuel := S (size h) in
  let! new_predeccessor := seek pred (fun p => starts_after p (item c)) fuel h (pred c) in
  let! new_successor := seek succ (fun s => starts_before s (item c)) fuel h (succ c) in
  let! new_predeccessor :=
    if bool_decide (new_successor = succ c) then Ret new_predeccessor
    else match new_successor with
         | None => Ret (last_item l)
         | Some _ => get_predeccessor h new_successor
         end in
  if bool_decide (new_predeccessor = pred c) then Ret (h, l, 0)
  else
    let! (h, l, _) := list_move_item create h l (Some job) new_predeccessor in
    Ret (h, l, 0).

(** ** The order *)

(** What an item is ordered by: its start time, then its identifier. *)
Definition order_key (m : gmap positive plan_job) (x : positive) : Z * Z :=
  match m !! x with Some j => (pj_start_time j, pj_job_id j) | None => (0, 0) end.

Definition not_later (m : gmap positive plan_job) (x y : positive) : Prop :=
  (order_key m x).1 < (order_key m y).1
  \/ (order_key m x).1 = (order_key m y).1 /\ (order_key m x).2 <= (order_key m y).2.

Abbreviation planned_order m := (StronglySorted (not_later m)).

#[export] Instance not_later_trans m : Transitive (not_later m).
Proof. intros x y z. unfold not_later. lia. Qed.

Lemma not_later_total m x y : not_later m x y \/ not_later m y x.
Proof. unfold not_later. lia. Qed.

Section Order.
Context (m : gmap positive plan_job) (x y : positive) (j k : plan_job).
Hypotheses (Hx : m !! x = Some j) (Hy : m !! y = Some k).

Lemma starts_after_key : if starts_after j k then ~ not_later m x y else not_later m x y.
Proof.
  unfold starts_after, not_later, order_key. rewrite Hx, Hy. simpl. case_bools; simpl; lia.
Qed.

Lemma starts_before_key : if starts_before j k then ~ not_later m y x else not_later m y x.
Proof.
  unfold starts_before, not_later, order_key. rewrite Hx, Hy. simpl. case_bools; simpl; lia.
Qed.
End Order.

Section Searches.
Context {h : heap plan_job} {l : plan_list} {xs : list positive}.
Hypothesis Hl : lists h l xs.

(** The search forward stops at the first item of the rest that fails the test. *)
Lemma seek_forward test fuel xs1 x xs2 :
  xs = xs1 ++ x :: xs2 -> (length xs2 < fuel)%nat ->
  exists f1 f2, xs2 = f1 ++ f2 /\ seek succ test fuel h (head xs2) = Ret (head f2) /\
    Forall (fun y => exists j, items h !! y = Some j /\ test j = true) f1 /\
    (forall y f2', f2 = y :: f2' -> exists j, items h !! y = Some j /\ test j = false).
Proof.
  revert xs1 x fuel. induction xs2 as [|y xs2 IH]; intros xs1 x fuel E Hf.
  - exists [], []. split_and!; try done. by destruct fuel.
  - destruct fuel as [|fuel]; [simpl in Hf; lia|]. simpl in Hf.
    pose proof (ls_links _ _ _ Hl) as Hs. rewrite E in Hs.
    apply segs_of in Hs as (_ & _ & (a & Ha) & _).
    assert (Hi : items h !! y = Some a) by (unfold items; by rewrite lookup_fmap, Ha).
    cbn [seek head]. rewrite Ha. cbn [of_option obind item succ]. destruct (test a) eqn:Et.
    + destruct (IH (xs1 ++ [x]) y fuel) as (f1 & f2 & -> & E2 & Hf1 & Hf2);
        [by rewrite <- (assoc_L (++))|lia|].
      exists (y :: f1), f2. split_and!; [done| |constructor; eauto|done].
      rewrite <- E2. by destruct (f1 ++ f2).
    + exists [], (y :: xs2). split_and!; [done|done|constructor|]. intros ? ? [= <- <-]. eauto.
Qed.

Lemma seek_backward test fuel xs1 x xs2 :
  xs = xs1 ++ x :: xs2 -> (length xs1 < fuel)%nat ->
  exists b1 b2, xs1 = b1 ++ b2 /\ seek pred test fuel h (last xs1) = Ret (last b1) /\
    Forall (fun y => exists j, items h !! y = Some j /\ test j = true) b2 /\
    (forall b1' y, b1 = b1' ++ [y] -> exists j, items h !! y = Some j /\ test j = false).
Proof.
  revert x xs2 fuel. induction xs1 as [|y xs1 IH] using rev_ind; intros x xs2 fuel E Hf.
  - exists [], []. split_and!; try done; [by destruct fuel|]. intros [] ? [=].
  - rewrite length_app in Hf. simpl in Hf. destruct fuel as [|fuel]; [lia|].
    rewrite <- (assoc_L (++)) in E. simpl in E.
    pose proof (ls_links _ _ _ Hl) as Hs. rewrite E in Hs.
    apply segs_of in Hs as (_ & (a & Ha) & _).
    assert (Hi : items h !! y = Some a) by (unfold items; by rewrite lookup_fmap, Ha).
    rewrite last_snoc. cbn [seek]. rewrite Ha. cbn [of_option obind item pred]. destruct (test a) eqn:Et.
    + destruct (IH y (x :: xs2) fuel) as (b1 & b2 & -> & E2 & Hb2 & Hb1); [done|lia|].
      exists b1, (b2 ++ [y]). split_and!; [by rewrite (assoc_L (++))| |apply Forall_app; eauto|done].
      rewrite <- E2. unfold to_last. by destruct (last (b1 ++ b2)).
    + exists (xs1 ++ [y]), []. split_and!; [by rewrite app_nil_r|by rewrite last_snoc|constructor|].
      intros ? ? [-> [= ->]]%app_inj_2; eauto.
Qed.
End Searches.

(** ** The adjusted list *)

Lemma planned_insert m xs1 x xs2 :
  planned_order m (xs1 ++ xs2) -> (forall y, y ∈ xs1 -> not_later m y x) ->
  (forall y, y ∈ xs2 -> not_later m x y) -> planned_order m (xs1 ++ x :: xs2).
Proof.
  intros (H & H1 & H2)%StronglySorted_app Hb Ha. apply StronglySorted_app. split_and!; [|done|].
  - intros y z Hy [->|Hz]%elem_of_cons; auto.
  - constructor; [done|by apply Forall_forall].
Qed.

(** An item in order with the last of a sorted list is in order with all. *)
Lemma planned_all_before m xs x :
  planned_order m xs -> (forall ys y, xs = ys ++ [y] -> not_later m y x) ->
  forall y, y ∈ xs -> not_later m y x.
Proof.
  destruct xs as [|y xs _] using rev_ind; intros Hs Hy z Hz; [by apply elem_of_nil in Hz|].
  apply elem_of_app in Hz as [Hz| ->%list_elem_of_singleton]; [|by eapply Hy].
  transitivity y; [|by eapply Hy]. eapply StronglySorted_app_1_elem_of; [done|done|by left].
Qed.

Lemma planned_all_after m xs x :
  planned_order m xs -> (forall y ys, xs = y :: ys -> not_later m x y) ->
  forall y, y ∈ xs -> not_later m x y.
Proof.
  destruct xs as [|y xs]; intros Hs Hy z Hz; [by apply elem_of_nil in Hz|].
  apply elem_of_cons in Hz as [->|Hz]; [by eapply Hy|].
  transitivity y; [by eapply Hy|]. apply StronglySorted_inv in Hs as [_ Hs].
  by eapply Forall_forall in Hs.
Qed.

(** What the two searches say about the order, for the job of [x]. *)
Section Found.
Context {m : gmap positive plan_job} {x : positive} {a : plan_job} {xs : list positive}.
Hypothesis Hi : m !! x = Some a.

Lemma all_not_after :
  planned_order m xs ->
  (forall ys y, xs = ys ++ [y] -> exists j, m !! y = Some j /\ starts_after j a = false) ->
  forall y, y ∈ xs -> not_later m y x.
Proof.
  intros Hs Hlast. apply planned_all_before; [done|]. intros ys y E. destruct (Hlast ys y E) as (j & Hj & Ht).
  pose proof (starts_after_key m y x j a Hj Hi) as K. by rewrite Ht in K.
Qed.

Lemma all_not_before :
  planned_order m xs ->
  (forall y ys, xs = y :: ys -> exists j, m !! y = Some j /\ starts_before j a = false) ->
  forall y, y ∈ xs -> not_later m x y.
Proof.
  intros Hs Hhead. apply planned_all_after; [done|]. intros y ys E. destruct (Hhead y ys E) as (j & Hj & Ht).
  pose proof (starts_before_key m y x j a Hj Hi) as K. by rewrite Ht in K.
Qed.

Lemma all_after :
  Forall (fun y => exists j, m !! y = Some j /\ starts_after j a = true) xs ->
  forall y, y ∈ xs -> not_later m x y.
Proof.
  intros H y Hy. eapply Forall_forall in H as (j & Hj & Ht); [|done].
  pose proof (starts_after_key m y x j a Hj Hi) as K. rewrite Ht in K. by destruct (not_later_total m x y).
Qed.

Lemma all_before :
  Forall (fun y => exists j, m !! y = Some j /\ starts_before j a = true) xs ->
  forall y, y ∈ xs -> not_later m y x.
Proof.
  intros H y Hy. eapply Forall_forall in H as (j & Hj & Ht); [|done].
  pose proof (starts_before_key m y x j a Hj Hi) as K. rewrite Ht in K. by destruct (not_later_total m x y).
Qed.
End Found.

(** The rest of a list without duplicates starts elsewhere. *)
Lemma heads_differ (y : positive) f1 f2 :
  NoDup ((y :: f1) ++ f2) -> head f2 <> head ((y :: f1) ++ f2).
Proof.
  intros Hnd%NoDup_app Hy%head_Some_elem_of. destruct Hnd as (_ & Hdis & _). apply (Hdis y); [by left|done].
Qed.

Section Adjust.
Context (create : option plan_job) (h : heap plan_job) (l : plan_list).
Context (xs1 : list positive) (x : positive) (xs2 : list positive).
Hypothesis Hl : lists h l (xs1 ++ x :: xs2).
Hypothesis Hsmall : Z.of_nat (length (xs1 ++ x :: xs2)) < 2 ^ 31.

(** The place of the job among the others. *)
Lemma move_to r1 r2 :
  xs1 ++ xs2 = r1 ++ r2 ->
  exists h' l', list_move_item create h l (Some x) (last r1) = Ret (h', l', 0) /\
    lists h' l' (r1 ++ x :: r2) /\ items h' = items h.
Proof.
  intros E. destruct r1 as [|n r1 _] using rev_ind.
  - destruct (list_move_front_spec create h l xs1 x xs2 Hl Hsmall) as (h' & l' & E1 & Hl' & Hi & _).
    exists h', l'. split; [done|]. rewrite E in Hl'. done.
  - rewrite last_snoc. rewrite <- (assoc_L (++)) in E.
    destruct (list_move_item_spec create h l xs1 x xs2 r1 n r2 Hl E Hsmall) as (h' & l' & E1 & Hl' & Hi & _).
    exists h', l'. by rewrite <- (assoc_L (++)).
Qed.

(** The item before the rest of the list, through the rest or the header. *)
Lemma before_rest f1 z f2 :
  xs2 = (f1 ++ [z]) ++ f2 ->
  match head f2 with None => Ret (last_item l) | Some _ => get_predeccessor h (head f2) end = Ret (Some z).
Proof.
  intros Ef. destruct f2 as [|w f2]; simpl.
  - rewrite (ls_last _ _ _ Hl), Ef, app_nil_r, app_comm_cons, (assoc_L (++)). by rewrite last_snoc.
  - pose proof (ls_links _ _ _ Hl) as Hseg. rewrite Ef in Hseg.
    rewrite app_comm_cons, (assoc_L (++)) in Hseg.
    apply segs_of in Hseg as (_ & (c & Hc) & _). rewrite Hc. cbn [of_option obind pred].
    rewrite app_comm_cons, (assoc_L (++)). unfold to_last. by rewrite last_snoc.
Qed.

(** The job is at its place among the others, which are as they were. *)
Definition adjusted (r : outcome (heap plan_job * plan_list * Z)) : Prop :=
  exists h' l' r1 r2, r = Ret (h', l', 0) /\ r1 ++ r2 = xs1 ++ xs2 /\ lists h' l' (r1 ++ x :: r2) /\
    items h' = items h /\ planned_order (items h) (r1 ++ x :: r2).

(** The last step, given the item behind which the job goes. *)
Definition put_behind (p : option positive) : outcome (heap plan_job * plan_list * Z) :=
  if bool_decide (p = last xs1) then Ret (h, l, 0)
  else
    let! (h, l, _) := list_move_item create h l (Some x) p in
    Ret (h, l, 0).

Hypothesis Hs : planned_order (items h) (xs1 ++ xs2).

Lemma put_behind_adjusted r1 r2 :
  xs1 ++ xs2 = r1 ++ r2 -> (last r1 = last xs1 -> r1 = xs1) ->
  (forall y, y ∈ r1 -> not_later (items h) y x) -> (forall y, y ∈ r2 -> not_later (items h) x y) ->
  adjusted (put_behind (last r1)).
Proof.
  intros E Hsame Hb Ha. unfold put_behind.
  assert (Hsort : planned_order (items h) (r1 ++ x :: r2)) by (apply planned_insert; [by rewrite <- E|done..]).
  destruct (decide (last r1 = last xs1)) as [Hlast|Hlast].
  - rewrite bool_decide_true by done. rewrite (Hsame Hlast) in *. apply app_inv_head in E as <-.
    exists h, l, xs1, xs2. by split_and!.
  - rewrite bool_decide_false by done. destruct (move_to r1 r2 E) as (h' & l' & -> & Hl' & Hi').
    cbn [obind]. exists h', l', r1, r2. by split_and!.
Qed.

(** Two prefixes of a list without duplicates that end alike are the same. *)
Lemma prefix_last (r1 r2 : list positive) : NoDup (r1 ++ r2) -> last r1 = last (r1 ++ r2) -> r2 = [].
Proof.
  destruct r2 as [|y r2 _] using rev_ind; [done|]. rewrite (assoc_L (++)), last_snoc.
  intros Hnd Hy%last_Some_elem_of. apply NoDup_app in Hnd as (_ & Hdis & _).
  exfalso. apply (Hdis y); [apply elem_of_app; by left|by left].
Qed.

Lemma list_adjust_spec : adjusted (list_adjust_job_position create h l x).
Proof.
  pose proof Hs as (H12 & Hs1 & Hs2)%StronglySorted_app.
  pose proof (ls_nodup _ _ _ Hl) as (Hnd1 & Hnd2 & _ & _ & Hd)%NoDup_mid.
  pose proof (lists_size h l _ Hl) as Hsize. rewrite length_app in Hsize. simpl in Hsize.
  pose proof (ls_links _ _ _ Hl) as (_ & (a & Ha) & _)%segs_of.
  assert (Hi : items h !! x = Some a) by (unfold items; by rewrite lookup_fmap, Ha).
  unfold list_adjust_job_position. rewrite Ha. cbn [of_option obind item pred succ].
  replace (to_last None xs1) with (last xs1) by (unfold to_last; by destruct (last xs1)).
  replace (from_head xs2 None) with (head xs2) by by destruct xs2.
  destruct (seek_backward Hl (fun p => starts_after p a) (S (size h)) xs1 x xs2 eq_refl)
    as (b1 & b2 & Eb & -> & Hb2 & Hb1); [lia|].
  destruct (seek_forward Hl (fun p => starts_before p a) (S (size h)) xs1 x xs2 eq_refl)
    as (f1 & f2 & Ef & -> & Hf1 & Hf2); [lia|]. cbn [obind].
  rewrite Eb in Hs1. rewrite Ef in Hs2.
  pose proof (all_not_after Hi (StronglySorted_app_1_l _ _ _ Hs1) Hb1) as Kb1.
  pose proof (all_not_before Hi (StronglySorted_app_1_r _ _ _ Hs2) Hf2) as Kf2.
  pose proof (all_after Hi Hb2) as Kb2. pose proof (all_before Hi Hf1) as Kf1.
  destruct f1 as [|y f1].
  - simpl in Ef. subst f2. rewrite bool_decide_true by done. cbn [obind].
    apply (put_behind_adjusted b1 (b2 ++ xs2)); [by rewrite Eb, <- (assoc_L (++))| |done|].
    + rewrite Eb in Hnd1 |- *. intros ->%prefix_last; [|done]. by rewrite app_nil_r.
    + intros y [Hy|Hy]%elem_of_app; auto.
  - rewrite bool_decide_false by (rewrite Ef in Hnd2 |- *; by apply heads_differ).
    destruct (exists_last (l := y :: f1)) as (f1' & z & Ez); [done|]. rewrite Ez in *. clear y f1 Ez.
    rewrite (before_rest _ _ _ Ef). cbn [obind].
    assert (Hz : z ∈ xs2) by (rewrite Ef; set_solver).
    replace (Some z) with (last (xs1 ++ f1' ++ [z])) by (by rewrite (assoc_L (++)), last_snoc).
    apply (put_behind_adjusted _ f2); [by rewrite Ef, <- !(assoc_L (++))| | |done].
    + rewrite (assoc_L (++)), last_snoc. intros Hp%eq_sym%last_Some_elem_of. by destruct (Hd z).
    + intros w [Hw|Hw]%elem_of_app; [|by apply Kf1].
      transitivity z; [by apply H12|apply Kf1; set_solver].
Qed.
End Adjust.

(** C15: Re-planning keeps a plan in order.  When the other jobs of a plan are in
    the order of their start times, jobs that start together by identifier, then
    [list_adjust_job_position] ends, whatever the job's new start time, and leaves
    a list in that order with the same jobs: the other jobs in the order they
    had, the data of no job changed. *)
Theorem adjusting_a_job_keeps_the_plan_sorted (create : option plan_job) (h : heap plan_job) (l : plan_list)
    (xs1 : list positive) (job : positive) (xs2 : list positive)
    (Hlist : lists h l (xs1 ++ job :: xs2))
    (Hlength : Z.of_nat (length (xs1 ++ job :: xs2)) < 2 ^ 31)
    (Hothers : planned_order (items h) (xs1 ++ xs2)) :
  exists h' l' ys, list_adjust_job_position create h l job = Ret (h', l', 0) /\
    lists h' l' ys /\ planned_order (items h') ys /\
    without job ys = xs1 ++ xs2 /\ ys ≡ₚ xs1 ++ job :: xs2 /\ items h' = items h.
Proof.
  destruct (list_adjust_spec create h l xs1 job xs2 Hlist Hlength Hothers)
    as (h' & l' & r1 & r2 & -> & E & Hl' & Hi & Hs).
  pose proof (ls_nodup _ _ _ Hl') as (_ & _ & H1 & H2 & _)%NoDup_mid.
  exists h', l', (r1 ++ job :: r2). rewrite Hi. split_and!; try done.
  - by rewrite without_split.
  - by rewrite <- !Permutation_middle, E.
Qed.

(** Four jobs of which the second was given a later start, to be moved behind the
    third and before the fourth, which starts at the same time. *)
Definition example_job (job_id start_time : Z) : plan_job :=
  mkPlanJob job_id None start_time (start_time + 10) 10 0 0 0 1 1 0 1 1 0 0 [] None None [] [] None false (-1).

Definition example_plan : heap plan_job := list_to_map
  [(1%positive, mkCell (example_job 7 10) (Some 2%positive) None);
   (2%positive, mkCell (example_job 4 30) (Some 3%positive) (Some 1%positive));
   (3%positive, mkCell (example_job 9 20) (Some 4%positive) (Some 2%positive));
   (4%positive, mkCell (example_job 5 30) None (Some 3%positive))].

Definition example_list : plan_list := mkList 4 (Some 1%positive) (Some 4%positive) None.

Lemma adjusting_a_job_keeps_the_plan_sorted_witness :
  (exists h' l', list_adjust_job_position None example_plan example_list 2%positive = Ret (h', l', 0) /\
    (x ← first l'; c ← h' !! x; succ c) = Some 3%positive) /\
  exists h' l' ys, list_adjust_job_position None example_plan example_list 2%positive = Ret (h', l', 0) /\
    lists h' l' ys /\ planned_order (items h') ys /\ without 2%positive ys = [1; 3; 4]%positive.
Proof.
  split; [eexists _, _; split; [vm_compute; reflexivity|vm_compute; reflexivity]|].
  destruct (adjusting_a_job_keeps_the_plan_sorted None example_plan example_list [1%positive] 2%positive
    [3%positive; 4%positive]) as (h' & l' & ys & E & Hl & Hs & Hw & _).
  - split; [apply (bool_decide_unpack _); vm_compute; exact I| |reflexivity|reflexivity|reflexivity].
    repeat split; eexists; reflexivity.
  - vm_compute. reflexivity.
  - repeat constructor; unfold not_later; vm_compute; auto.
  - exists h', l', ys. split_and!; [exact E|exact Hl|exact Hs|exact Hw].
Defined.
