(* ===== verification/PlanGaps.v ===== *)
(** * The gaps of a plan: plan_gaps_memory.cpp, and the insertion of plan_gaps.cpp

    A gap is a stretch of time during which processors of some nodes are free.
    The gaps of a plan are disjoint and in order; [insert_new_gap] lays one more
    gap over them, cutting the gaps at its ends and adding to those it covers.
    The gap that is inserted is an item of the same heap, in another list, and is
    cut down on the way.  The nodes and the jobs are stores that are only read. *)

From Stdlib Require Import ZArith Lia Bool Ascii String SpecFloat.
From S2P Require Import Prelude CString CFloat MiscHelpers Resource DataTypes NodeData JobInfo NodeLogic PlanData PlanList PlanValues.

Local Open Scope string_scope.
Open Scope Z_scope.
Local Open Scope sched_scope.

Definition LONG_MAX : Z := 9223372036854775807.

(** ** plan_gaps_memory.cpp *)

Definition get_node_mem (n : node_info) : Z :=
  match get_resource (data n) "mem" with None => -1 | Some r => p_max r end.

Definition get_node_scratch_local (n : node_info) : Z :=
  match get_resource (data n) "scratch_local" with None => -1 | Some r => p_max r end.

(** The array of a gap, as far as it is in use. *)
Definition memories (g : plan_gap) : outcome (list plan_gap_mem) :=
  if pg_num_nodes g <=? 0 then Ret []
  else match pg_nodes_memory g with
       | Some ms => if pg_num_nodes g <=? Z.of_nat (length ms)
                    then Ret (take (Z.to_nat (pg_num_nodes g)) ms) else UB
       | None => UB
       end.

Definition with_memories (g : plan_gap) (ms : list plan_gap_mem) : plan_gap :=
  g <| pg_nodes_memory := Some ms |> <| pg_num_nodes := Z.of_nat (length ms) |>.

(** A new entry; the source leaves the last two fields uninitialised, they are
    set before they are read. *)
Definition new_mem (ninfo : option positive) (num_cpus mem scratch_local : Z) : plan_gap_mem :=
  mkGapMem ninfo num_cpus mem scratch_local 0 0.

Definition copy_mem (s : plan_gap_mem) : plan_gap_mem :=
  new_mem (gm_ninfo s) (gm_num_cpus s) (gm_available_mem s) (gm_available_scratch_local s).

(** The entry of a node of the source gap is added to the one of the target. *)
Fixpoint add_mem (ms : list plan_gap_mem) (s : plan_gap_mem) : list plan_gap_mem :=
  match ms with
  | [] => [copy_mem s]
  | m :: ms =>
      if bool_decide (gm_ninfo s = gm_ninfo m)
      then m <| gm_num_cpus := i32 (gm_num_cpus m + gm_num_cpus s) |> :: ms
      else m :: add_mem ms s
  end.

Definition add_mem_gap_to_gap (gap_target gap_source : plan_gap) : outcome plan_gap :=
  let gap_target := gap_target <| pg_usage := i32 (pg_usage gap_target + pg_usage gap_source) |> in
  let! ss := memories gap_source in
  if bool_decide (ss = []) then Ret gap_target
  else
    let! ms := memories gap_target in
    Ret (with_memories gap_target (fold_left add_mem ss ms)).

Section Memory.
Variable nodes : gmap positive node_info.
Variable jobs : heap plan_job.

(** The job's memory is taken from each entry of a node that the job uses, once
    for each part of it on the node; the first time the entry starts from the
    whole memory of the node. *)
Definition take_job_memory (job : plan_job) (m : plan_gap_mem) : outcome plan_gap_mem :=
  if pj_req_num_nodes job <=? Z.of_nat (length (pj_ninfo_arr job)) then
    ofold (fun m ninfo =>
      if bool_decide (gm_ninfo m = ninfo) then
        let! m :=
          if gm_updated m =? 0 then
            let! p := of_option ninfo in
            let! n := of_option (nodes !! p) in
            Ret (m <| gm_available_mem := get_node_mem n |>
                   <| gm_available_scratch_local := get_node_scratch_local n |>
                   <| gm_updated := 1 |>)
          else Ret m in
        Ret (m <| gm_available_mem := i64 (gm_available_mem m - pj_req_mem job) |>)
      else Ret m) (take (Z.to_nat (pj_req_num_nodes job)) (pj_ninfo_arr job)) m
  else UB.

Fixpoint omap_all {A B} (f : A -> outcome B) (l : list A) : outcome (list B) :=
  match l with
  | [] => Ret []
  | a :: l => let! b := f a in let! bs := omap_all f l in Ret (b :: bs)
  end.

(** The first job that starts when [job] does. *)
Fixpoint first_of_start (fuel : nat) (job : positive) : outcome positive :=
  match fuel with
  | O => UB
  | S fuel =>
      let! c := of_option (jobs !! job) in
      match pred c with
      | None => Ret job
      | Some p =>
          let! cp := of_option (jobs !! p) in
          if pj_start_time (item cp) =? pj_start_time (item c) then first_of_start fuel p else Ret job
      end
  end.

(** The memory of all jobs from [job] on that start together is taken. *)
Fixpoint take_jobs_memory (fuel : nat) (job : positive) (ms : list plan_gap_mem)
  : outcome (list plan_gap_mem) :=
  match fuel with
  | O => UB
  | S fuel =>
      let! c := of_option (jobs !! job) in
      let! ms := omap_all (take_job_memory (item c)) ms in
      match succ c with
      | None => Ret ms
      | Some s =>
          let! cs := of_option (jobs !! s) in
          if pj_start_time (item c) =? pj_start_time (item cs) then take_jobs_memory fuel s ms else Ret ms
      end
  end.

Definition adjust_gap_memory (gap_new last_gap : plan_gap) : outcome plan_gap :=
  match pg_following_job last_gap with
  | None => Ret gap_new
  | Some job =>
      let! ms := memories gap_new in
      let ms := (fun m => m <| gm_updated := 0 |>) <$> ms in
      let! job := first_of_start (size jobs) job in
      let! ms := take_jobs_memory (size jobs) job ms in
      if bool_decide (ms = []) then Ret gap_new else Ret (with_memories gap_new ms)
  end.
End Memory.

(** ** plan_gaps.cpp: creation and insertion *)

(** The fields that [gap_create] leaves uninitialised are those of [junk]. *)
Definition gap_create (junk : plan_gap) : cell plan_gap :=
  mkCell (junk <| pg_num_nodes := 0 |> <| pg_nodes_memory := None |>) None None.

Definition gap_fillin (gap : option (cell plan_gap)) (junk : plan_gap) (start_time end_time duration usage : Z)
    (following_job successor predeccessor : option positive) : cell plan_gap :=
  let g := item (match gap with Some c => c | None => gap_create junk end) in
  mkCell (mkPlanGap start_time end_time duration usage (pg_num_nodes g) (pg_nodes_memory g) following_job)
    successor predeccessor.

(** The copy has its own array and no links. *)
Definition gap_duplicate (gap : plan_gap) : outcome plan_gap :=
  let! ms := memories gap in
  Ret (mkPlanGap (pg_start_time gap) (pg_end_time gap) (pg_duration gap) (pg_usage gap) (pg_num_nodes gap)
    (Some (copy_mem <$> ms)) (pg_following_job gap)).

(** The times of a gap, its duration following them. *)
Definition starting_at (g : plan_gap) (t : Z) : plan_gap :=
  g <| pg_start_time := t |> <| pg_duration := i64 (pg_end_time g - t) |>.
Definition ending_at (g : plan_gap) (t : Z) : plan_gap :=
  g <| pg_end_time := t |> <| pg_duration := i64 (t - pg_start_time g) |>.

Section Insert.
Variable nodes : gmap positive node_info.
Variable jobs : heap plan_job.
Variable create : option plan_gap.

(** Back over the gaps that end after [start]. *)
Fixpoint back_to (fuel : nat) (h : heap plan_gap) (start : Z) (last_gap : positive) : outcome positive :=
  match fuel with
  | O => UB
  | S fuel =>
      let! p := get_predeccessor h (Some last_gap) in
      match p with
      | None => Ret last_gap
      | Some gap_previouse =>
          let! g := item_at h gap_previouse in
          if pg_end_time g <=? start then Ret last_gap else back_to fuel h start gap_previouse
      end
  end.

Definition add_copy_end (h : heap plan_gap) (l : plan_list) (new : positive)
  : outcome (heap plan_gap * plan_list * option positive) :=
  let! g := item_at h new in
  let! copy := gap_duplicate g in
  let (h, c) := alloc h copy in
  list_add_end create h l (Some c).

(** The new gap starts before the last one: the part before it is a gap. *)
Definition cut_before (h : heap plan_gap) (l : plan_list) (last new : positive)
  : outcome (heap plan_gap * plan_list) :=
  let! gl := item_at h last in
  let! g := item_at h new in
  if pg_start_time gl >? pg_start_time g then
    let! copy := gap_duplicate g in
    let (h, c) := alloc h (ending_at copy (pg_start_time gl)) in
    let! (h, l, _) := list_add_infrontof create h l (Some last) (Some c) in
    Ret (set_item h new (starting_at g (pg_start_time gl)), l)
  else Ret (h, l).

(** The new gap starts inside the last one, which is cut. *)
Definition cut_start (h : heap plan_gap) (l : plan_list) (last new : positive)
  : outcome (heap plan_gap * plan_list) :=
  let! gl := item_at h last in
  let! g := item_at h new in
  if pg_start_time gl <? pg_start_time g then
    let! copy := gap_duplicate gl in
    let (h, c) := alloc h (ending_at copy (pg_start_time g)) in
    let h := set_item h last (starting_at gl (pg_start_time g)) in
    let! (h, l, _) := list_add_infrontof create h l (Some last) (Some c) in
    Ret (h, l)
  else Ret (h, l).

(** The new gap ends inside the last one, which is cut. *)
Definition cut_end (h : heap plan_gap) (l : plan_list) (last new : positive)
  : outcome (heap plan_gap * plan_list) :=
  let! gl := item_at h last in
  let! g := item_at h new in
  if pg_end_time g <? pg_end_time gl then
    let! copy := gap_duplicate gl in
    let (h, c) := alloc h (starting_at copy (pg_end_time g)) in
    let h := set_item h last (ending_at gl (pg_end_time g)) in
    let! (h, l, _) := list_add_inbackof create h l (Some last) (Some c) in
    let! gl := item_at h last in
    let! gl := add_mem_gap_to_gap gl g in
    Ret (set_item h last gl, l)
  else Ret (h, l).

Fixpoint insert_new_gap (fuel : nat) (h : heap plan_gap) (l : plan_list) (last_gap : option positive)
    (new : positive) : outcome (heap plan_gap * plan_list * option positive) :=
  match fuel with
  | O => UB
  | S fuel =>
  match (match last_gap with None => last_item l | Some _ => last_gap end) with
  | None => add_copy_end h l new
  | Some last =>
      let! gl := item_at h last in
      let! g := item_at h new in
      if pg_end_time gl <=? pg_start_time g then
        let! h :=
          if pg_end_time gl =? pg_start_time g
          then let! g := adjust_gap_memory nodes jobs g gl in Ret (set_item h new g)
          else Ret h in
        add_copy_end h l new
      else
        let! last := back_to (size h) h (pg_start_time g) last in
        let! gl := item_at h last in
        if pg_end_time g <=? pg_start_time gl then
          let! copy := gap_duplicate g in
          let (h, c) := alloc h copy in
          list_add_infrontof create h l (Some last) (Some c)
        else
          let! (h, l) := cut_before h l last new in
          let! (h, l) := cut_start h l last new in
          let! gl := item_at h last in
          let! g := item_at h new in
          if pg_end_time gl =? pg_end_time g then
            let! gl := add_mem_gap_to_gap gl g in
            Ret (set_item h last gl, l, Some last)
          else
            let! (h, l) := cut_end h l last new in
            let! gl := item_at h last in
            if pg_end_time gl <? pg_end_time g then
              let! gl := add_mem_gap_to_gap gl g in
              let h := set_item h last gl in
              let! g := adjust_gap_memory nodes jobs g gl in
              let h := set_item h new (starting_at g (pg_end_time gl)) in
              let! s := get_successor h (Some last) in
              insert_new_gap fuel h l s new
            else Ret (h, l, Some last)
  end
  end.
End Insert.

(** ** The times and the processors of gaps *)

(** What a gap offers, apart from its times: its processors, and those of each
    of its nodes. *)
Definition mem_view (m : plan_gap_mem) : option positive * Z := (gm_ninfo m, gm_num_cpus m).
Definition cpus_of (g : plan_gap) : list (option positive * Z) := mem_view <$> default [] (pg_nodes_memory g).
Definition view (g : plan_gap) : Z * list (option positive * Z) := (pg_usage g, cpus_of g).

Fixpoint add_cpus (v : list (option positive * Z)) (s : option positive * Z) : list (option positive * Z) :=
  match v with
  | [] => [s]
  | m :: v => if bool_decide (s.1 = m.1) then (m.1, i32 (m.2 + s.2)) :: v else m :: add_cpus v s
  end.
Definition add_views (v1 v2 : Z * list (option positive * Z)) : Z * list (option positive * Z) :=
  (i32 (v1.1 + v2.1), fold_left add_cpus v2.2 v1.2).

(** The sums of two gaps stay in range. *)
Definition fits (g1 g2 : plan_gap) : Prop :=
  in_s 32 (pg_usage g1 + pg_usage g2) /\
  forall n c1 c2, (n, c1) ∈ cpus_of g1 -> (n, c2) ∈ cpus_of g2 -> in_s 32 (c1 + c2).

(** An amount that gaps offer and that adds up. *)
Class GapAmount (q : plan_gap -> Z) := {
  ga_view g g' : view g = view g' -> q g = q g';
  ga_add g g1 g2 : fits g1 g2 -> NoDup (cpus_of g2).*1 -> view g = add_views (view g1) (view g2) ->
    q g = q g1 + q g2
}.

#[export] Instance usage_amount : GapAmount pg_usage.
Proof.
  split; unfold view; [by intros g g' [= -> _]|]. intros g g1 g2 [Hu _] _ [= -> _].
  simpl. by rewrite i32_id.
Qed.

Fixpoint cpus_on (n : option positive) (v : list (option positive * Z)) : Z :=
  match v with [] => 0 | m :: v => (if decide (m.1 = n) then m.2 else 0) + cpus_on n v end.

Definition node_cpus (n : option positive) (g : plan_gap) : Z := cpus_on n (cpus_of g).

Lemma add_cpus_on n v s :
  (forall c, (s.1, c) ∈ v -> in_s 32 (c + s.2)) ->
  cpus_on n (add_cpus v s) = cpus_on n v + (if decide (s.1 = n) then s.2 else 0).
Proof.
  destruct s as [k c]. induction v as [|[m d] v IH]; simpl; intros H; [lia|].
  destruct (bool_decide_reflect (k = m)) as [->|Hne]; simpl.
  - rewrite i32_id by (apply H; by left). repeat case_decide; solve [congruence|lia].
  - rewrite IH by (intros c' Hc'; apply H; by right). simpl. lia.
Qed.

Lemma add_cpus_elem v s k c : k <> s.1 -> (k, c) ∈ add_cpus v s -> (k, c) ∈ v.
Proof.
  destruct s as [j d]. simpl. intros Hk. induction v as [|[m e] v IH]; simpl.
  - intros [= -> _]%list_elem_of_singleton. done.
  - case_bool_decide as E; simpl.
    + subst. intros [[= -> ->]|H]%elem_of_cons; [done|by right].
    + intros [[= -> ->]|H]%elem_of_cons; [by left|right; by apply IH].
Qed.

Lemma fold_add_cpus_on n ss v :
  NoDup ss.*1 -> (forall k c1 c2, (k, c1) ∈ v -> (k, c2) ∈ ss -> in_s 32 (c1 + c2)) ->
  cpus_on n (fold_left add_cpus ss v) = cpus_on n v + cpus_on n ss.
Proof.
  revert v. induction ss as [|[k c] ss IH]; intros v Hnd H; simpl; [lia|].
  simpl in Hnd. apply NoDup_cons in Hnd as [Hk Hnd]. rewrite IH; [|done|].
  - rewrite add_cpus_on by (intros c' Hc'; apply (H k); [done|by left]). simpl. lia.
  - intros j c1 c2 H1 H2. apply (H j); [|by right]. apply (add_cpus_elem _ (k, c)); [|done].
    simpl. intros ->. apply Hk. apply list_elem_of_fmap. by exists (k, c2).
Qed.

#[export] Instance node_cpus_amount n : GapAmount (node_cpus n).
Proof.
  split; unfold node_cpus, view; [by intros g g' [= _ ->]|].
  intros g g1 g2 [_ Hc] Hnd [= _ ->]. by apply fold_add_cpus_on.
Qed.

(** What the gaps offer at a moment. *)
Definition covers (g : plan_gap) (t : Z) : bool := (pg_start_time g <=? t) && (t <? pg_end_time g).
Definition amount (q : plan_gap -> Z) (t : Z) (g : plan_gap) : Z := if covers g t then q g else 0.
Definition profile (q : plan_gap -> Z) (gs : list plan_gap) (t : Z) : Z := foldr Z.add 0 (amount q t <$> gs).

Lemma profile_app q gs1 gs2 t : profile q (gs1 ++ gs2) t = profile q gs1 t + profile q gs2 t.
Proof. unfold profile. rewrite fmap_app. induction (amount q t <$> gs1); simpl; lia. Qed.
Lemma profile_cons q g gs t : profile q (g :: gs) t = amount q t g + profile q gs t.
Proof. done. Qed.
Lemma profile_nil q t : profile q [] t = 0.
Proof. done. Qed.

Create Rewrite HintDb profile.
#[export] Hint Rewrite profile_app profile_cons profile_nil : profile.
