(* ===== verification/PlanGapsSpec.v ===== *)
(** * Inserting a gap adds what it offers

    [insert_new_gap] is specified by the profile of the gaps: at every moment the
    gaps offer what they offered before, and what the new gap offers.  The proof
    follows the gaps as sequences: [gaps_are] relates the list in the heap to the
    values of its gaps. *)

From Stdlib Require Import ZArith Lia Bool Ascii String SpecFloat.
From stdpp Require Import sorting.
From S2P Require Import Prelude CString CFloat MiscHelpers Resource DataTypes NodeData JobInfo NodeLogic PlanData PlanList PlanListSpec PlanValues PlanGaps.

Open Scope Z_scope.
Local Open Scope sched_scope.

(** The gaps are disjoint and follow each other. *)
Abbreviation in_order := (StronglySorted (fun g g' : plan_gap => pg_end_time g <= pg_start_time g')).

Section Insertion.
Context (nodes : gmap positive node_info) (jobs : heap plan_job) (jl : plan_list) (js : list positive).
Hypothesis Hjobs : lists jobs jl js.
Hypothesis Hnodes : forall j c, j ∈ js -> jobs !! j = Some c ->
  pj_req_num_nodes (item c) <= Z.of_nat (length (pj_ninfo_arr (item c))).

(** A gap of the plan: its nodes are known and named once, the job after it is a
    job of the plan. *)
Record gap_ok (g : plan_gap) : Prop := {
  go_times : 0 <= pg_start_time g < pg_end_time g /\ pg_end_time g <= LONG_MAX;
  go_count : pg_num_nodes g = Z.of_nat (length (default [] (pg_nodes_memory g)));
  go_once : NoDup (cpus_of g).*1;
  go_known : forall n, n ∈ (cpus_of g).*1 -> exists p nd, n = Some p /\ nodes !! p = Some nd;
  go_job : forall j, pg_following_job g = Some j -> j ∈ js
}.

Lemma memories_ok g : gap_ok g -> memories g = Ret (default [] (pg_nodes_memory g)).
Proof.
  intros [_ Hc _ _ _]. unfold memories. rewrite Hc. destruct (pg_nodes_memory g) as [[|m ms]|]; simpl; try done.
  destruct (Z.leb_spec (Z.of_nat (S (length ms))) 0); [lia|]. rewrite Z.leb_refl, Nat2Z.id.
  by rewrite take_ge by (simpl; lia).
Qed.

(** *** The memory of the jobs is taken: the processors stay *)

Lemma take_job_memory_view job m :
  pj_req_num_nodes job <= Z.of_nat (length (pj_ninfo_arr job)) ->
  (exists p nd, gm_ninfo m = Some p /\ nodes !! p = Some nd) ->
  exists m', take_job_memory nodes job m = Ret m' /\ mem_view m' = mem_view m.
Proof.
  intros Hlen Hm. unfold take_job_memory. destruct (Z.leb_spec (pj_req_num_nodes job) (Z.of_nat (length (pj_ninfo_arr job)))); [|lia].
  generalize (take (Z.to_nat (pj_req_num_nodes job)) (pj_ninfo_arr job)) as ns. intros ns.
  revert m Hm. induction ns as [|n ns IH]; intros m (p & nd & Hm & Hp); cbn [ofold]; [by exists m|].
  case_bool_decide as En; [|by apply IH; eauto].
  assert (Hstep : exists m1, (let! m := if gm_updated m =? 0 then
        let! p := of_option n in let! n := of_option (nodes !! p) in
        Ret (m <| gm_available_mem := get_node_mem n |> <| gm_available_scratch_local := get_node_scratch_local n |>
               <| gm_updated := 1 |>)
      else Ret m in Ret (m <| gm_available_mem := i64 (gm_available_mem m - pj_req_mem job) |>)) = Ret m1
      /\ mem_view m1 = mem_view m).
  { rewrite <- En, Hm. cbn [of_option obind]. rewrite Hp. cbn [of_option obind].
    destruct (gm_updated m =? 0); cbn [obind]; eauto. }
  destruct Hstep as (m1 & -> & Hv). destruct (IH m1) as (m' & E & Hv').
  - exists p, nd. unfold mem_view in Hv. split; [congruence|done].
  - exists m'. by rewrite E, Hv'.
Qed.

Lemma omap_all_view job ms :
  pj_req_num_nodes job <= Z.of_nat (length (pj_ninfo_arr job)) ->
  (forall n, n ∈ (mem_view <$> ms).*1 -> exists p nd, n = Some p /\ nodes !! p = Some nd) ->
  exists ms', omap_all (take_job_memory nodes job) ms = Ret ms' /\ mem_view <$> ms' = mem_view <$> ms.
Proof.
  intros Hlen. induction ms as [|m ms IH]; intros Hk; cbn [omap_all]; [by exists []|].
  destruct (take_job_memory_view job m Hlen) as (m' & -> & Hv).
  { destruct (Hk (gm_ninfo m)) as (p & nd & ? & ?); [by left|eauto]. }
  destruct IH as (ms' & -> & Hvs); [intros n Hn; apply Hk; by right|].
  exists (m' :: ms'). cbn [obind]. split; [done|]. by rewrite !fmap_cons, Hv, Hvs.
Qed.

Lemma first_of_start_ok fuel i j :
  js !! i = Some j -> (i < fuel)%nat -> exists i' j', first_of_start jobs fuel j = Ret j' /\ js !! i' = Some j'.
Proof.
  revert i j. induction fuel as [|fuel IH]; intros i j Hi Hf; [lia|].
  destruct (lists_neighbours jobs jl js i j Hjobs Hi) as (a & Ha). cbn [first_of_start]. rewrite Ha.
  cbn [of_option obind pred item]. destruct i as [|i]; [by eauto|].
  destruct (lookup_lt_is_Some_2 js i) as [k Hk]; [apply lookup_lt_Some in Hi; lia|]. rewrite Hk.
  destruct (lists_neighbours jobs jl js i k Hjobs Hk) as (b & Hb). rewrite Hb. cbn [of_option obind item].
  destruct (_ =? _); [|by eauto]. apply (IH i k); [done|lia].
Qed.

Lemma take_jobs_memory_view fuel i j ms :
  js !! i = Some j -> (length js <= i + fuel)%nat ->
  (forall n, n ∈ (mem_view <$> ms).*1 -> exists p nd, n = Some p /\ nodes !! p = Some nd) ->
  exists ms', take_jobs_memory nodes jobs fuel j ms = Ret ms' /\ mem_view <$> ms' = mem_view <$> ms.
Proof.
  revert i j ms. induction fuel as [|fuel IH]; intros i j ms Hi Hf Hk.
  { apply lookup_lt_Some in Hi. lia. }
  destruct (lists_neighbours jobs jl js i j Hjobs Hi) as (a & Ha). cbn [take_jobs_memory]. rewrite Ha.
  cbn [of_option obind succ item].
  destruct (omap_all_view a ms) as (ms1 & -> & Hv1); [|done|].
  { apply (Hnodes j _ ltac:(by eapply list_elem_of_lookup_2) Ha). }
  cbn [obind]. destruct (js !! S i) as [k|] eqn:Hn; [|by eauto].
  destruct (lists_neighbours jobs jl js (S i) k Hjobs Hn) as (b & Hb). rewrite Hb. cbn [of_option obind item].
  destruct (_ =? _); [|by eauto]. destruct (IH (S i) k ms1) as (ms2 & -> & Hv2); [done|lia| |].
  - by rewrite Hv1.
  - exists ms2. by rewrite Hv2.
Qed.

(** The gap with other amounts of memory. *)
Definition same_but_memory (g g' : plan_gap) : Prop :=
  pg_start_time g' = pg_start_time g /\ pg_end_time g' = pg_end_time g /\
  pg_following_job g' = pg_following_job g /\ view g' = view g.

Lemma same_but_memory_trans g1 g2 g3 : same_but_memory g1 g2 -> same_but_memory g2 g3 -> same_but_memory g1 g3.
Proof. unfold same_but_memory. intros (? & ? & ? & ?) (? & ? & ? & ?). split_and!; congruence. Qed.

Lemma gap_ok_same g g' :
  gap_ok g -> same_but_memory g g' ->
  pg_num_nodes g' = Z.of_nat (length (default [] (pg_nodes_memory g'))) -> gap_ok g'.
Proof.
  intros [Ht Hc Ho Hk Hj] (Es & Ee & Ef & [= Eu Ev]) Hc'.
  split; rewrite ?Es, ?Ee, ?Ef, ?Ev; done.
Qed.

Lemma adjust_ok g gl :
  gap_ok g -> gap_ok gl ->
  exists g', adjust_gap_memory nodes jobs g gl = Ret g' /\ same_but_memory g g' /\ gap_ok g'.
Proof.
  intros Hg Hgl. unfold adjust_gap_memory.
  destruct (pg_following_job gl) as [j|] eqn:Ej; [|by exists g; split_and!].
  rewrite memories_ok by done. cbn [obind].
  destruct (list_elem_of_lookup_1 js j) as (i & Hi); [by apply Hgl|].
  pose proof (lists_size jobs jl js Hjobs) as Hsz.
  destruct (first_of_start_ok (size jobs) i j) as (i' & j' & -> & Hi'); [done|apply lookup_lt_Some in Hi; lia|].
  cbn [obind].
  assert (Hview : mem_view <$> ((fun m => m <| gm_updated := 0 |>) <$> default [] (pg_nodes_memory g)) = cpus_of g)
    by (unfold cpus_of; by rewrite <- list_fmap_compose).
  destruct (take_jobs_memory_view (size jobs) i' j' ((fun m => m <| gm_updated := 0 |>) <$> default [] (pg_nodes_memory g)))
    as (ms & -> & Hms); [done|lia|rewrite Hview; by apply Hg|].
  rewrite Hview in Hms. cbn [obind]. case_bool_decide as Ems; [by exists g|].
  assert (Hsame : same_but_memory g (with_memories g ms))
    by (split_and!; try done; unfold view, cpus_of; simpl; by rewrite Hms).
  exists (with_memories g ms). split; [done|]. split; [done|]. by apply (gap_ok_same g).
Qed.
(** *** The values *)

Lemma starting_at_ok g t : gap_ok g -> 0 <= t < pg_end_time g -> gap_ok (starting_at g t).
Proof. intros [Ht Hc Ho Hk Hj] H. split; simpl; try done. lia. Qed.

Lemma ending_at_ok g t : gap_ok g -> pg_start_time g < t <= LONG_MAX -> gap_ok (ending_at g t).
Proof. intros [Ht Hc Ho Hk Hj] H. split; simpl; try done. lia. Qed.

Lemma gap_duplicate_ok g :
  gap_ok g -> exists copy, gap_duplicate g = Ret copy /\ same_but_memory g copy /\ gap_ok copy.
Proof.
  intros Hg. unfold gap_duplicate. rewrite memories_ok by done. cbn [obind]. eexists. split; [done|].
  assert (Hs : forall copy, copy = mkPlanGap (pg_start_time g) (pg_end_time g) (pg_duration g) (pg_usage g) (pg_num_nodes g)
      (Some (copy_mem <$> default [] (pg_nodes_memory g))) (pg_following_job g) -> same_but_memory g copy).
  { intros copy ->. split_and!; try done. unfold view, cpus_of. simpl. f_equal. by rewrite <- list_fmap_compose. }
  split; [by apply Hs|]. apply (gap_ok_same g); [done|by apply Hs|]. simpl. rewrite length_fmap. apply Hg.
Qed.

Lemma add_cpus_keys v s n : n ∈ (add_cpus v s).*1 <-> n = s.1 \/ n ∈ v.*1.
Proof.
  induction v as [|m v IH]; simpl; [set_solver|]. case_bool_decide as E; simpl; [rewrite E; set_solver|].
  rewrite !elem_of_cons, IH. naive_solver.
Qed.

Lemma add_cpus_once v s : NoDup v.*1 -> NoDup (add_cpus v s).*1.
Proof.
  induction v as [|m v IH]; simpl; [intros _; apply NoDup_singleton|]. intros [Hm Hv]%NoDup_cons.
  case_bool_decide as E; simpl; constructor; auto. rewrite add_cpus_keys. naive_solver.
Qed.

Lemma fold_add_cpus_ok ss v :
  NoDup v.*1 -> NoDup (fold_left add_cpus ss v).*1 /\
  forall n, n ∈ (fold_left add_cpus ss v).*1 -> n ∈ v.*1 \/ n ∈ ss.*1.
Proof.
  revert v. induction ss as [|s ss IH]; intros v Hv; simpl; [naive_solver|].
  destruct (IH (add_cpus v s) (add_cpus_once _ _ Hv)) as [H1 H2]. split; [done|].
  intros n [Hn|Hn]%H2; [apply add_cpus_keys in Hn|]; set_solver.
Qed.

Lemma fold_add_mem_view ss ms :
  mem_view <$> fold_left add_mem ss ms = fold_left add_cpus (mem_view <$> ss) (mem_view <$> ms).
Proof.
  revert ms. induction ss as [|s ss IH]; intros ms; simpl; [done|]. rewrite IH. f_equal.
  induction ms as [|m ms IHm]; simpl; [done|]. case_bool_decide; simpl; [done|]. f_equal; exact IHm.
Qed.

Lemma add_gap_ok g1 g2 :
  gap_ok g1 -> gap_ok g2 ->
  exists g', add_mem_gap_to_gap g1 g2 = Ret g' /\ view g' = add_views (view g1) (view g2) /\ gap_ok g' /\
    pg_start_time g' = pg_start_time g1 /\ pg_end_time g' = pg_end_time g1.
Proof.
  intros H1 H2. unfold add_mem_gap_to_gap. rewrite memories_ok by done. cbn [obind].
  set (g := g1 <| pg_usage := _ |>). assert (Hg : gap_ok g) by (by destruct H1; split).
  assert (Hkeys : forall g', view g' = add_views (view g1) (view g2) -> pg_following_job g' = pg_following_job g1 ->
    pg_num_nodes g' = Z.of_nat (length (default [] (pg_nodes_memory g'))) ->
    pg_start_time g' = pg_start_time g1 -> pg_end_time g' = pg_end_time g1 -> gap_ok g').
  { intros g' [= _ Hv] Hf Hc Hs He.
    destruct (fold_add_cpus_ok (cpus_of g2) (cpus_of g1) (go_once _ H1)) as [Ho Hk].
    split; rewrite ?Hs, ?He, ?Hf, ?Hv; try done; [apply H1|..|apply H1].
    intros n [Hn|Hn]%Hk; [by apply H1|by apply H2]. }
  case_bool_decide as Ess.
  - exists g. assert (Hv : view g = add_views (view g1) (view g2)).
    { unfold view, add_views, cpus_of. simpl. by rewrite Ess. }
    split_and!; try done.
  - rewrite memories_ok by done. cbn [obind]. eexists. split; [done|].
    assert (Hv : view (with_memories g (fold_left add_mem (default [] (pg_nodes_memory g2)) (default [] (pg_nodes_memory g))))
      = add_views (view g1) (view g2)).
    { unfold view, add_views, cpus_of. simpl. by rewrite fold_add_mem_view. }
    split_and!; try done. by apply Hkeys.
Qed.

(** *** Order and profile *)

Lemma in_order_insert gs1 gs2 c :
  in_order (gs1 ++ gs2) -> Forall (fun g => pg_end_time g <= pg_start_time c) gs1 ->
  Forall (fun g => pg_end_time c <= pg_start_time g) gs2 -> in_order (gs1 ++ c :: gs2).
Proof.
  intros (H & H1 & H2)%StronglySorted_app Hb Ha. apply StronglySorted_app. split_and!; [|done|by constructor].
  intros a b Hin [->|Hb']%elem_of_cons; [by eapply Forall_forall in Hb|by apply H].
Qed.

Lemma in_order_replace gs1 gx gs2 mid :
  in_order (gs1 ++ gx :: gs2) -> in_order mid ->
  Forall (fun m => pg_start_time gx <= pg_start_time m /\ pg_end_time m <= pg_end_time gx) mid ->
  in_order (gs1 ++ mid ++ gs2).
Proof.
  intros (H & H1 & [H2 Hx]%StronglySorted_inv)%StronglySorted_app Hmid Hm.
  rewrite Forall_forall in Hm, Hx. apply StronglySorted_app. split_and!; [|done|].
  - intros a b Ha [Hb|Hb]%elem_of_app; [|apply H; [done|by right]].
    specialize (H a gx Ha ltac:(by left)). specialize (Hm b Hb). lia.
  - apply StronglySorted_app. split_and!; [|done|done].
    intros a b Ha Hb. specialize (Hm a Ha). specialize (Hx b Hb). lia.
Qed.

Lemma in_order_mid gs1 gx gs2 :
  in_order (gs1 ++ gx :: gs2) ->
  in_order (gs1 ++ gs2) /\ Forall (fun g => pg_end_time g <= pg_start_time gx) gs1 /\
  Forall (fun g => pg_end_time gx <= pg_start_time g) gs2.
Proof.
  intros H. split_and!.
  - by apply (in_order_replace gs1 gx gs2 []); [|constructor|constructor].
  - apply StronglySorted_app in H as (H & _ & _). apply Forall_forall. intros g Hg. apply H; [done|by left].
  - by apply StronglySorted_app in H as (_ & _ & [_ H]%StronglySorted_inv).
Qed.

(** The insertion of [g] into [rest], the gaps from where it may start on. *)
Record ready (gs1 rest : list plan_gap) (g : plan_gap) : Prop := {
  rd_order : in_order (gs1 ++ rest);
  rd_ok : Forall gap_ok (gs1 ++ rest);
  rd_new : gap_ok g;
  rd_fits : Forall (fun gp => fits gp g) rest;
  rd_before : Forall (fun gp => pg_end_time gp <= pg_start_time g) gs1
}.

(** What is in the list and what is still to be inserted stay the same in sum. *)
Definition total (q : plan_gap -> Z) (gs : list plan_gap) (g : plan_gap) (t : Z) : Z :=
  profile q gs t + amount q t g.
Definition conserves (gs : list plan_gap) (g : plan_gap) (gs' : list plan_gap) (g' : plan_gap) : Prop :=
  forall q, GapAmount q -> forall t, total q gs' g' t = total q gs g t.
(** All of it is in the list. *)
Definition inserted (gs : list plan_gap) (g : plan_gap) (gs' : list plan_gap) : Prop :=
  in_order gs' /\ Forall gap_ok gs' /\ forall q, GapAmount q -> forall t, profile q gs' t = total q gs g t.

Lemma conserves_trans gs g gs1 g1 gs2 g2 :
  conserves gs g gs1 g1 -> conserves gs1 g1 gs2 g2 -> conserves gs g gs2 g2.
Proof. intros H1 H2 q Hq t. by rewrite H2, H1. Qed.
Lemma conserves_inserted gs g gs1 g1 gs2 :
  conserves gs g gs1 g1 -> inserted gs1 g1 gs2 -> inserted gs g gs2.
Proof. intros H1 (? & ? & H2). split_and!; [done..|]. intros q Hq t. by rewrite H2, H1. Qed.

(** The amount of a piece of a gap, given the gap it is a piece of. *)
Lemma amount_of q t g g' : GapAmount q -> view g' = view g -> amount q t g' = if covers g' t then q g else 0.
Proof. intros Hq Hv. unfold amount. by rewrite (ga_view (q := q) g' g Hv). Qed.

Lemma amount_sum q t g g1 g2 :
  GapAmount q -> gap_ok g2 -> fits g1 g2 -> view g = add_views (view g1) (view g2) ->
  amount q t g = if covers g t then q g1 + q g2 else 0.
Proof. intros Hq H2 Hf Hv. unfold amount. by rewrite (ga_add (q := q) g g1 g2 Hf (go_once _ H2) Hv). Qed.

Section Steps.
Context (gs1 : list plan_gap) (gx : plan_gap) (gs2 : list plan_gap) (g : plan_gap).

Lemma Forall_mid {P : plan_gap -> Prop} : Forall P (gs1 ++ gx :: gs2) -> P gx /\ Forall P gs2 /\ Forall P gs1.
Proof. rewrite Forall_app, Forall_cons. naive_solver. Qed.

(** The rest starts after the new gap ends. *)
Lemma step_whole rest copy :
  ready gs1 rest g -> (forall g' gs, rest = g' :: gs -> pg_end_time g <= pg_start_time g') ->
  gap_ok copy -> same_but_memory g copy -> inserted (gs1 ++ rest) g (gs1 ++ copy :: rest).
Proof.
  intros [Ho Hok Hg _ Hb] Hr Hc (Es & Ee & _ & Hv). split; [|split].
  - apply in_order_insert; [done|by rewrite Es|]. rewrite Ee. destruct rest as [|g' gs]; [done|].
    specialize (Hr g' gs eq_refl). apply in_order_mid in Ho as (_ & _ & Ha).
    apply Forall_app in Hok as [_ [Hg' Hgs]%Forall_cons]. constructor; [done|].
    eapply Forall_impl; [exact Ha|]. simpl. pose proof (go_times _ Hg'). intros; lia.
  - apply Forall_app in Hok as [? ?]. apply Forall_app. split; [done|by constructor].
  - intros q Hq t. unfold total. autorewrite with profile. rewrite (amount_of q t g copy Hq Hv), (amount_of q t g g Hq eq_refl).
    unfold covers. rewrite Es, Ee. lia.
Qed.

Hypothesis Hready : ready gs1 (gx :: gs2) g.

(** The part of the new gap before the first gap. *)
Lemma step_before copy :
  pg_start_time g < pg_start_time gx -> pg_start_time gx < pg_end_time g ->
  gap_ok copy -> same_but_memory g copy ->
  let gs1' := gs1 ++ [ending_at copy (pg_start_time gx)] in let g' := starting_at g (pg_start_time gx) in
  ready gs1' (gx :: gs2) g' /\ conserves (gs1 ++ gx :: gs2) g (gs1' ++ gx :: gs2) g'.
Proof.
  intros H1 H2 Hc (Es & Ee & _ & Hv). cbn zeta. destruct Hready as [Ho Hok Hg Hf Hb].
  pose proof (go_times _ Hg). pose proof (in_order_mid _ _ _ Ho) as (Ho2 & Hbx & Hax).
  pose proof (Forall_mid Hok) as (Hgx & Hok2 & Hok1). pose proof (go_times _ Hgx). split; [split|].
  - rewrite <- (assoc_L (++)). apply in_order_insert; [done|simpl; by rewrite Es|]. simpl.
    constructor; [done|]. eapply Forall_impl; [exact Hax|]. simpl. intros; lia.
  - rewrite <- (assoc_L (++)). apply Forall_app. split; [done|]. constructor; [|by constructor]. apply ending_at_ok; [done|lia].
  - apply starting_at_ok; [done|lia].
  - done.
  - apply Forall_app. split; [|by constructor]. eapply Forall_impl; [exact Hb|]. simpl. intros; lia.
  - intros q Hq t. unfold total. autorewrite with profile.
    rewrite (amount_of q t g (ending_at copy _) Hq Hv), (amount_of q t g (starting_at g _) Hq eq_refl),
      (amount_of q t g g Hq eq_refl).
    clear - Es Ee H1 H2. unfold covers. simpl. rewrite Es. case_bools; lia.
Qed.

(** The part of the first gap before the new one. *)
Lemma step_start copy :
  pg_start_time gx < pg_start_time g -> pg_start_time g < pg_end_time gx ->
  gap_ok copy -> same_but_memory gx copy ->
  let gs1' := gs1 ++ [ending_at copy (pg_start_time g)] in let gx' := starting_at gx (pg_start_time g) in
  ready gs1' (gx' :: gs2) g /\ conserves (gs1 ++ gx :: gs2) g (gs1' ++ gx' :: gs2) g.
Proof.
  intros H1 H2 Hc (Es & Ee & _ & Hv). cbn zeta. destruct Hready as [Ho Hok Hg Hf Hb].
  pose proof (go_times _ Hg). pose proof (Forall_mid Hok) as (Hgx & Hok2 & Hok1). pose proof (go_times _ Hgx).
  rewrite <- (assoc_L (++)). split; [split|]; rewrite <- ?(assoc_L (++)).
  - simpl. apply (in_order_replace gs1 gx gs2 [_; _] Ho).
    + repeat constructor. simpl. lia.
    + repeat constructor; simpl; lia.
  - apply Forall_app. split; [done|]. constructor; [apply ending_at_ok; [done|lia]|].
    constructor; [apply starting_at_ok; [done|lia]|done].
  - done.
  - apply Forall_cons in Hf as [Hf Hf2]. by constructor.
  - apply Forall_app. split; [done|by constructor].
  - intros q Hq t. unfold total. simpl. autorewrite with profile.
    rewrite (amount_of q t gx (ending_at copy _) Hq Hv), (amount_of q t gx (starting_at gx _) Hq eq_refl),
      (amount_of q t gx gx Hq eq_refl).
    clear - Es Ee H1 H2. unfold covers. simpl. rewrite Es. case_bools; lia.
Qed.

Hypothesis Haligned : pg_start_time gx = pg_start_time g.

(** The first gap and the new one are the same stretch. *)
Lemma step_equal gx' :
  pg_end_time gx = pg_end_time g -> gap_ok gx' -> view gx' = add_views (view gx) (view g) ->
  pg_start_time gx' = pg_start_time gx -> pg_end_time gx' = pg_end_time gx ->
  inserted (gs1 ++ gx :: gs2) g (gs1 ++ gx' :: gs2).
Proof.
  intros H1 Hx Hv Es Ee. destruct Hready as [Ho Hok Hg Hf Hb]. pose proof (Forall_mid Hok) as (Hgx & Hok2 & Hok1).
  apply Forall_cons in Hf as [Hf _]. split; [|split].
  - apply (in_order_replace gs1 gx gs2 [gx'] Ho); repeat constructor; lia.
  - apply Forall_app. by split; [|constructor].
  - intros q Hq t. unfold total. autorewrite with profile. rewrite (amount_sum q t gx' gx g) by done.
    unfold amount, covers. rewrite Es, Ee, Haligned, H1. case_bools; lia.
Qed.

(** The new gap ends inside the first one. *)
Lemma step_end copy gx' :
  pg_end_time g < pg_end_time gx -> gap_ok copy -> same_but_memory gx copy ->
  gap_ok gx' -> view gx' = add_views (view gx) (view g) ->
  pg_start_time gx' = pg_start_time gx -> pg_end_time gx' = pg_end_time g ->
  inserted (gs1 ++ gx :: gs2) g (gs1 ++ gx' :: starting_at copy (pg_end_time g) :: gs2).
Proof.
  intros H1 Hc (Es' & Ee' & _ & Hv') Hx Hv Es Ee. destruct Hready as [Ho Hok Hg Hf Hb].
  pose proof (Forall_mid Hok) as (Hgx & Hok2 & Hok1). pose proof (go_times _ Hg). pose proof (go_times _ Hgx).
  apply Forall_cons in Hf as [Hf _]. split; [|split].
  - apply (in_order_replace gs1 gx gs2 [gx'; starting_at copy (pg_end_time g)] Ho);
      repeat constructor; simpl; lia.
  - apply Forall_app. split; [done|]. constructor; [done|]. constructor; [apply starting_at_ok; [done|lia]|done].
  - intros q Hq t. unfold total. autorewrite with profile. rewrite (amount_sum q t gx' gx g) by done.
    rewrite (amount_of q t gx (starting_at copy _) Hq Hv').
    unfold amount, covers. simpl. rewrite Es, Ee, Ee', Haligned. case_bools; lia.
Qed.

(** The new gap goes on after the first one. *)
Lemma step_rest g' gx' :
  pg_end_time gx < pg_end_time g -> gap_ok g' -> same_but_memory g g' ->
  gap_ok gx' -> view gx' = add_views (view gx) (view g) ->
  pg_start_time gx' = pg_start_time gx -> pg_end_time gx' = pg_end_time gx ->
  ready (gs1 ++ [gx']) gs2 (starting_at g' (pg_end_time gx)) /\
  conserves (gs1 ++ gx :: gs2) g ((gs1 ++ [gx']) ++ gs2) (starting_at g' (pg_end_time gx)).
Proof.
  intros H1 Hc (Es' & Ee' & _ & Hv') Hx Hv Es Ee. destruct Hready as [Ho Hok Hg Hf Hb].
  pose proof (Forall_mid Hok) as (Hgx & Hok2 & Hok1). pose proof (go_times _ Hg). pose proof (go_times _ Hgx).
  apply Forall_cons in Hf as [Hf Hf2]. rewrite <- (assoc_L (++)). simpl. split; [split|].
  - rewrite <- (assoc_L (++)). apply (in_order_replace gs1 gx gs2 [gx'] Ho); repeat constructor; lia.
  - rewrite <- (assoc_L (++)). apply Forall_app. by split; [|constructor].
  - apply starting_at_ok; [done|lia].
  - eapply Forall_impl; [exact Hf2|]. intros gp [Hu Hn]. injection Hv' as Eu Ev.
    split; simpl; [by rewrite Eu|]. change (cpus_of (starting_at g' (pg_end_time gx))) with (cpus_of g'). by rewrite Ev.
  - apply Forall_app. split; [|repeat constructor; simpl; lia].
    eapply Forall_impl; [exact Hb|]. simpl. intros; lia.
  - intros q Hq t. unfold total. autorewrite with profile. rewrite (amount_sum q t gx' gx g) by done.
    rewrite (amount_of q t g (starting_at g' _) Hq Hv').
    unfold amount, covers. simpl. rewrite Es, Ee, Ee', Haligned. case_bools; lia.
Qed.
End Steps.
(** *** The list as the sequence of its gaps *)
Section Sequence.
Variable create : option plan_gap.

Record gaps_are (h : heap plan_gap) (l : plan_list) (xs : list positive) (gs : list plan_gap)
    (new : positive) (g : plan_gap) : Prop := {
  gr_values : values_are h l xs gs;
  gr_new : items h !! new = Some g;
  gr_apart : new ∉ xs
}.

Lemma gr_lists h l xs gs new g : gaps_are h l xs gs new g -> lists h l xs.
Proof. intros H. apply (gr_values _ _ _ _ _ _ H). Qed.
Lemma gr_items h l xs gs new g :
  gaps_are h l xs gs new g -> Forall2 (fun x gp => items h !! x = Some gp) xs gs.
Proof. intros H. apply (gr_values _ _ _ _ _ _ H). Qed.

Lemma gaps_are_at h l xs1 x xs2 gs1 gx gs2 new g :
  gaps_are h l (xs1 ++ x :: xs2) (gs1 ++ gx :: gs2) new g -> length xs1 = length gs1 ->
  items h !! x = Some gx /\ item_at h x = Ret gx /\ item_at h new = Ret g /\ new <> x.
Proof.
  intros [Hv Hn Ha] Hlen. destruct (values_at _ _ _ _ _ _ _ _ Hv Hlen) as (Hx & Ex & _).
  apply not_elem_of_app in Ha as [_ [Ha _]%not_elem_of_cons]. split_and!; [done|done|by apply item_at_items|done].
Qed.

(** Changing a gap of the list, and the gap that is inserted. *)
Lemma gaps_set h l xs1 x xs2 gs1 gx gs2 new g gx' :
  gaps_are h l (xs1 ++ x :: xs2) (gs1 ++ gx :: gs2) new g -> length xs1 = length gs1 ->
  gaps_are (set_item h x gx') l (xs1 ++ x :: xs2) (gs1 ++ gx' :: gs2) new g.
Proof.
  intros H Hlen. destruct (gaps_are_at _ _ _ _ _ _ _ _ _ _ H Hlen) as (_ & _ & _ & Hne). destruct H as [Hv Hn Ha].
  split; [by eapply values_set|by rewrite items_set_item, lookup_alter_ne|done].
Qed.

Lemma gaps_set_new h l xs gs new g g' :
  gaps_are h l xs gs new g -> gaps_are (set_item h new g') l xs gs new g'.
Proof.
  intros [Hv Hn Ha]. split; [by apply values_set_other|by rewrite items_set_item, lookup_alter_eq, Hn|done].
Qed.

(** A new cell for a copy. *)
Lemma gaps_alloc h l xs gs new g copy :
  gaps_are h l xs gs new g ->
  let '(h', c) := alloc h copy in gaps_are h' l xs gs new g /\ spare h' c copy /\ c ∉ xs /\ new <> c.
Proof.
  intros [Hv Hn Ha]. pose proof (alloc_values h l xs gs copy Hv) as H.
  destruct (alloc h copy) as [h' c]. destruct H as (Hv' & Hs & Hc & Hold).
  destruct (Hold new) as [Hne Hi]; [destruct (items_lookup _ _ _ Hn) as (d & Hd & _); eauto|].
  split_and!; try done. split; [done|by rewrite Hi|done].
Qed.

(** The copy put in front of the gap [x], or behind it, [x] being cut in between,
    or at the end. *)
Lemma gaps_grow h h' l l' xs xs' gs gs' new g c :
  gaps_are h l xs gs new g -> values_are h' l' xs' gs' -> items h' = items h -> new <> c ->
  (forall y, y ∈ xs' -> y ∈ xs \/ y = c) -> gaps_are h' l' xs' gs' new g.
Proof.
  intros [_ Hn Ha] Hv' Hi Hne Hsub. split; [done|by rewrite Hi|]. intros [Hin|Heq]%Hsub; done.
Qed.

Lemma put_before h l xs1 x xs2 gs1 gx gs2 new g copy :
  gaps_are h l (xs1 ++ x :: xs2) (gs1 ++ gx :: gs2) new g -> length xs1 = length gs1 ->
  Z.of_nat (length (xs1 ++ x :: xs2)) + 1 < 2 ^ 31 ->
  exists h' l' c, (let (h, c) := alloc h copy in list_add_infrontof create h l (Some x) (Some c)) = Ret (h', l', Some c) /\
    gaps_are h' l' (xs1 ++ c :: x :: xs2) (gs1 ++ copy :: gx :: gs2) new g.
Proof.
  intros H Hlen Hsmall. pose proof (gaps_alloc _ _ _ _ _ _ copy H) as Ha.
  destruct (alloc h copy) as [h1 c]. destruct Ha as (H1 & Hs & Hc & Hne).
  destruct (put_infrontof create h1 l c copy Hs xs1 x xs2 gs1 gx gs2 (gr_values _ _ _ _ _ _ H1) Hlen Hc Hsmall)
    as (h' & l' & E & Hv' & Hi). exists h', l', c. split; [done|]. eapply gaps_grow; try done. set_solver.
Qed.

Lemma put_before_cut h l xs1 x xs2 gs1 gx gs2 new g copy gx' :
  gaps_are h l (xs1 ++ x :: xs2) (gs1 ++ gx :: gs2) new g -> length xs1 = length gs1 ->
  Z.of_nat (length (xs1 ++ x :: xs2)) + 1 < 2 ^ 31 ->
  exists h' l' c, (let (h, c) := alloc h copy in
      list_add_infrontof create (set_item h x gx') l (Some x) (Some c)) = Ret (h', l', Some c) /\
    gaps_are h' l' (xs1 ++ c :: x :: xs2) (gs1 ++ copy :: gx' :: gs2) new g.
Proof.
  intros H Hlen Hsmall. pose proof (gaps_alloc _ _ _ _ _ _ copy H) as Ha.
  destruct (alloc h copy) as [h1 c]. destruct Ha as (H1 & Hs & Hc & Hne).
  apply (gaps_set _ _ _ _ _ _ _ _ _ _ gx') in H1; [|done].
  apply (spare_set_item _ _ _ x gx') in Hs; [|set_solver].
  destruct (put_infrontof create _ l c copy Hs xs1 x xs2 gs1 gx' gs2 (gr_values _ _ _ _ _ _ H1) Hlen Hc Hsmall)
    as (h' & l' & E & Hv' & Hi). exists h', l', c. split; [done|]. eapply gaps_grow; try done. set_solver.
Qed.

Lemma put_behind_cut h l xs1 x xs2 gs1 gx gs2 new g copy gx' :
  gaps_are h l (xs1 ++ x :: xs2) (gs1 ++ gx :: gs2) new g -> length xs1 = length gs1 ->
  Z.of_nat (length (xs1 ++ x :: xs2)) + 1 < 2 ^ 31 ->
  exists h' l' c, (let (h, c) := alloc h copy in
      list_add_inbackof create (set_item h x gx') l (Some x) (Some c)) = Ret (h', l', Some c) /\
    gaps_are h' l' (xs1 ++ x :: c :: xs2) (gs1 ++ gx' :: copy :: gs2) new g.
Proof.
  intros H Hlen Hsmall. pose proof (gaps_alloc _ _ _ _ _ _ copy H) as Ha.
  destruct (alloc h copy) as [h1 c]. destruct Ha as (H1 & Hs & Hc & Hne).
  apply (gaps_set _ _ _ _ _ _ _ _ _ _ gx') in H1; [|done].
  apply (spare_set_item _ _ _ x gx') in Hs; [|set_solver].
  destruct (put_inbackof create _ l c copy Hs xs1 x xs2 gs1 gx' gs2 (gr_values _ _ _ _ _ _ H1) Hlen Hc Hsmall)
    as (h' & l' & E & Hv' & Hi). exists h', l', c. split; [done|]. eapply gaps_grow; try done. set_solver.
Qed.

Lemma put_last h l xs gs new g copy :
  gaps_are h l xs gs new g -> Z.of_nat (length xs) + 1 < 2 ^ 31 ->
  exists h' l' c, (let (h, c) := alloc h copy in list_add_end create h l (Some c)) = Ret (h', l', Some c) /\
    gaps_are h' l' (xs ++ [c]) (gs ++ [copy]) new g.
Proof.
  intros H Hsmall. pose proof (gaps_alloc _ _ _ _ _ _ copy H) as Ha.
  destruct (alloc h copy) as [h1 c]. destruct Ha as (H1 & Hs & Hc & Hne).
  destruct (put_end create h1 l c copy Hs xs gs (gr_values _ _ _ _ _ _ H1) Hc Hsmall) as (h' & l' & E & Hv' & Hi).
  exists h', l', c. split; [done|]. eapply gaps_grow; try done. set_solver.
Qed.

(** *** The steps of the insertion *)

Lemma last_gap h l xs1 x xs2 gs1 gx gs2 new g :
  gaps_are h l (xs1 ++ x :: xs2) (gs1 ++ gx :: gs2) new g -> length xs1 = length gs1 ->
  get_successor h (Some x) = Ret (head xs2).
Proof.
  intros Hg _. pose proof (ls_links _ _ _ (gr_lists _ _ _ _ _ _ Hg)) as (_ & (a & Ha) & _)%segs_of.
  cbn [get_successor]. rewrite Ha. cbn. by destruct xs2.
Qed.

Section Step.
Context {h : heap plan_gap} {l : plan_list} {xs1 : list positive} {x : positive} {xs2 : list positive}.
Context {gs1 : list plan_gap} {gx : plan_gap} {gs2 : list plan_gap} {new : positive} {g : plan_gap}.
Hypothesis Hgaps : gaps_are h l (xs1 ++ x :: xs2) (gs1 ++ gx :: gs2) new g.
Hypothesis Hlen : length xs1 = length gs1.
Hypothesis Hready : ready gs1 (gx :: gs2) g.
Hypothesis Hsmall : Z.of_nat (length (xs1 ++ x :: xs2)) + 1 < 2 ^ 31.

Lemma ready_ok : gap_ok gx /\ gap_ok g.
Proof. split; [apply (Forall_mid _ _ _ (rd_ok _ _ _ Hready))|apply Hready]. Qed.

(** What a cut comes to: more gaps in front of the same last gap. *)
Definition cut_to (r : outcome (heap plan_gap * plan_list)) (P : plan_gap -> plan_gap -> Prop) : Prop :=
  exists h' l' xs1' gs1' gx' g', r = Ret (h', l') /\
    gaps_are h' l' (xs1' ++ x :: xs2) (gs1' ++ gx' :: gs2) new g' /\ length xs1' = length gs1' /\
    (length xs1' <= S (length xs1))%nat /\
    ready gs1' (gx' :: gs2) g' /\ conserves (gs1 ++ gx :: gs2) g (gs1' ++ gx' :: gs2) g' /\
    pg_end_time gx' = pg_end_time gx /\ pg_end_time g' = pg_end_time g /\ P gx' g'.

Lemma cut_none (P : plan_gap -> plan_gap -> Prop) : P gx g -> cut_to (Ret (h, l)) P.
Proof.
  intros HP. exists h, l, xs1, gs1, gx, g. split_and!; try done; lia.
Qed.

Lemma cut_before_ok :
  pg_start_time gx < pg_end_time g -> pg_start_time g < pg_end_time gx ->
  cut_to (cut_before create h l x new)
    (fun gx' g' => pg_start_time gx' <= pg_start_time g' /\ pg_start_time g' < pg_end_time gx').
Proof.
  intros Hover Hover'. destruct (gaps_are_at _ _ _ _ _ _ _ _ _ _ Hgaps Hlen) as (_ & Ex & En & _).
  unfold cut_before. rewrite Ex, En. cbn [obind].
  destruct (Z.gtb_spec (pg_start_time gx) (pg_start_time g)) as [Hlt|Hge]; [|apply cut_none; lia].
  destruct ready_ok as [Hgx Hg]. destruct (gap_duplicate_ok g Hg) as (copy & -> & Hsame & Hc). cbn [obind].
  destruct (put_before h l xs1 x xs2 gs1 gx gs2 new g (ending_at copy (pg_start_time gx)) Hgaps Hlen Hsmall)
    as (h' & l' & c & E & Hgaps').
  destruct (alloc h _) as [h1 c1]. rewrite E. cbn [obind].
  destruct (step_before gs1 gx gs2 g Hready copy Hlt Hover Hc Hsame) as [Hr Hcons].
  exists (set_item h' new (starting_at g (pg_start_time gx))), l', (xs1 ++ [c]),
    (gs1 ++ [ending_at copy (pg_start_time gx)]), gx, (starting_at g (pg_start_time gx)).
  split_and!; try done.
  - rewrite <- !(assoc_L (++)). by eapply gaps_set_new.
  - rewrite !length_app. simpl. lia.
  - rewrite length_app. simpl. lia.
  - pose proof (go_times _ Hgx). simpl. lia.
Qed.

Lemma cut_start_ok :
  pg_start_time g < pg_end_time gx -> pg_start_time gx <= pg_start_time g ->
  cut_to (cut_start create h l x new) (fun gx' g' => pg_start_time gx' = pg_start_time g').
Proof.
  intros Hover Hle. destruct (gaps_are_at _ _ _ _ _ _ _ _ _ _ Hgaps Hlen) as (_ & Ex & En & _).
  unfold cut_start. rewrite Ex, En. cbn [obind].
  destruct (Z.ltb_spec (pg_start_time gx) (pg_start_time g)) as [Hlt|Hge]; [|apply cut_none; lia].
  destruct ready_ok as [Hgx Hg]. destruct (gap_duplicate_ok gx Hgx) as (copy & -> & Hsame & Hc). cbn [obind].
  destruct (put_before_cut h l xs1 x xs2 gs1 gx gs2 new g (ending_at copy (pg_start_time g))
    (starting_at gx (pg_start_time g)) Hgaps Hlen Hsmall) as (h' & l' & c & E & Hgaps').
  destruct (alloc h _) as [h1 c1]. rewrite E. cbn [obind].
  destruct (step_start gs1 gx gs2 g Hready copy Hlt Hover Hc Hsame) as [Hr Hcons].
  exists h', l', (xs1 ++ [c]), (gs1 ++ [ending_at copy (pg_start_time g)]), (starting_at gx (pg_start_time g)), g.
  split_and!; try done.
  - by rewrite <- !(assoc_L (++)).
  - rewrite !length_app. simpl. lia.
  - rewrite length_app. simpl. lia.
Qed.

(** The new gap and the last one start together: what remains. *)
Hypothesis Haligned : pg_start_time gx = pg_start_time g.

(** The outcome of an insertion. *)
Definition inserts (r : outcome (heap plan_gap * plan_list * option positive)) (gs : list plan_gap) (g : plan_gap) : Prop :=
  exists h' l' p ys gs' g', r = Ret (h', l', p) /\ gaps_are h' l' ys gs' new g' /\ inserted gs g gs'.

Lemma insert_equal :
  pg_end_time gx = pg_end_time g ->
  inserts (let! gl := add_mem_gap_to_gap gx g in Ret (set_item h x gl, l, Some x)) (gs1 ++ gx :: gs2) g.
Proof.
  intros He. destruct ready_ok as [Hgx Hg]. destruct (add_gap_ok gx g Hgx Hg) as (gx' & -> & Hv & Hok & Es & Ee).
  cbn [obind]. eexists _, _, _, _, _, _. split; [done|]. split; [by eapply gaps_set|].
  by apply step_equal.
Qed.

Lemma cut_end_ok :
  pg_end_time g < pg_end_time gx ->
  exists h' l' ys1 gl' ys2 gs', cut_end create h l x new = Ret (h', l') /\
    gaps_are h' l' (ys1 ++ x :: ys2) gs' new g /\ inserted (gs1 ++ gx :: gs2) g gs' /\
    item_at h' x = Ret gl' /\ pg_end_time gl' = pg_end_time g.
Proof.
  intros Hlt. destruct (gaps_are_at _ _ _ _ _ _ _ _ _ _ Hgaps Hlen) as (_ & Ex & En & _).
  unfold cut_end. rewrite Ex, En. cbn [obind].
  destruct (Z.ltb_spec (pg_end_time g) (pg_end_time gx)); [|lia].
  destruct ready_ok as [Hgx Hg]. destruct (gap_duplicate_ok gx Hgx) as (copy & -> & Hsame & Hc). cbn [obind].
  destruct (put_behind_cut h l xs1 x xs2 gs1 gx gs2 new g (starting_at copy (pg_end_time g))
    (ending_at gx (pg_end_time g)) Hgaps Hlen Hsmall) as (h' & l' & c & E & Hgaps').
  destruct (alloc h _) as [h1 c1]. rewrite E. cbn [obind].
  destruct (gaps_are_at _ _ _ _ _ _ _ _ _ _ Hgaps' Hlen) as (_ & -> & _ & _). cbn [obind].
  pose proof (go_times _ Hgx). pose proof (go_times _ Hg).
  destruct (add_gap_ok (ending_at gx (pg_end_time g)) g) as (gx' & -> & Hv & Hok & Es & Ee);
    [apply ending_at_ok; [done|lia]|done|]. cbn [obind].
  pose proof (gaps_set _ _ _ _ _ _ _ _ _ _ gx' Hgaps' Hlen) as Hgaps2.
  eexists _, _, _, _, _, _. split; [done|]. split; [exact Hgaps2|]. split; [by apply step_end|].
  split; [apply (gaps_are_at _ _ _ _ _ _ _ _ _ _ Hgaps2 Hlen)|by rewrite Ee].
Qed.
End Step.

(** Behind the last gap. *)
Lemma insert_end fuel h l xs gs new g :
  gaps_are h l xs gs new g -> ready gs [] g -> (fuel > 0)%nat ->
  Z.of_nat (length xs) + 1 < 2 ^ 31 ->
  inserts (insert_new_gap nodes jobs create fuel h l None new) gs g (new := new).
Proof.
  intros Hgaps Hready Hfuel Hsmall. destruct fuel as [|fuel]; [lia|]. cbn [insert_new_gap].
  pose proof (item_at_items _ _ _ (gr_new _ _ _ _ _ _ Hgaps)) as En.
  rewrite (ls_last _ _ _ (gr_lists _ _ _ _ _ _ Hgaps)).
  (* the copy is added at the end, of the gap with other amounts of memory at most *)
  assert (Hadd : forall h1 g1, gaps_are h1 l xs gs new g1 -> gap_ok g1 -> same_but_memory g g1 ->
    inserts (add_copy_end create h1 l new) gs g (new := new)).
  { intros h1 g1 Hgaps1 Hg1 Hsame1. unfold add_copy_end.
    rewrite (item_at_items _ _ _ (gr_new _ _ _ _ _ _ Hgaps1)). cbn [obind].
    destruct (gap_duplicate_ok g1 Hg1) as (copy & -> & Hsame & Hc). cbn [obind].
    destruct (put_last h1 l xs gs new g1 copy Hgaps1 Hsmall) as (h' & l' & c & E & Hgaps').
    destruct (alloc h1 copy) as [h2 c2]. rewrite E.
    eexists _, _, _, _, _, _. split; [done|]. split; [exact Hgaps'|].
    rewrite <- (app_nil_r gs) at 1. apply step_whole; try done. by eapply same_but_memory_trans. }
  pose proof (rd_new _ _ _ Hready) as Hg.
  destruct xs as [|x xs _] using rev_ind; [by apply (Hadd h g)|]. rewrite last_snoc.
  pose proof (Forall2_length _ _ _ (gr_items _ _ _ _ _ _ Hgaps)) as Hlen. rewrite length_app in Hlen. simpl in Hlen.
  destruct gs as [|gx gs _] using rev_ind; [simpl in Hlen; lia|]. rewrite length_app in Hlen. simpl in Hlen.
  destruct (gaps_are_at h l xs x [] gs gx [] new g Hgaps) as (_ & Ex & _); [lia|].
  rewrite Ex, En. cbn [obind].
  pose proof (rd_before _ _ _ Hready) as [_ Hb]%Forall_app. apply Forall_cons in Hb as [Hb _].
  pose proof (rd_ok _ _ _ Hready) as Hok. rewrite app_nil_r in Hok. apply Forall_app in Hok as [_ [Hgx _]%Forall_cons].
  destruct (Z.leb_spec (pg_end_time gx) (pg_start_time g)); [|lia].
  destruct (_ =? _); [|by apply (Hadd h g)].
  destruct (adjust_ok g gx Hg Hgx) as (g' & -> & Hsame & Hg'). cbn [obind].
  apply (Hadd _ g'); [by eapply gaps_set_new|done|done].
Qed.

(** *** The whole insertion *)

Lemma back_to_ok fuel h l xs gs new g start i y :
  gaps_are h l xs gs new g -> xs !! i = Some y -> (i < fuel)%nat ->
  exists j x, back_to fuel h start y = Ret x /\ xs !! j = Some x /\ (j <= i)%nat /\
    (j = i \/ exists gx, gs !! j = Some gx /\ start < pg_end_time gx) /\
    (forall k gk, j = S k -> gs !! k = Some gk -> pg_end_time gk <= start).
Proof.
  intros Hgaps. revert i y. induction fuel as [|fuel IH]; intros i y Hi Hf; [lia|].
  destruct (lists_neighbours h l xs i y (gr_lists _ _ _ _ _ _ Hgaps) Hi) as (a & Ha).
  cbn [back_to get_predeccessor]. rewrite Ha. cbn [of_option obind pred]. destruct i as [|i].
  { exists 0%nat, y. split_and!; try done; try (by left). }
  destruct (lookup_lt_is_Some_2 xs i) as [p Hp]; [apply lookup_lt_Some in Hi; lia|]. rewrite Hp.
  destruct (Forall2_lookup_l _ _ _ i p (gr_items _ _ _ _ _ _ Hgaps) Hp) as (gp & Hgp & Hip).
  rewrite (item_at_items h p gp Hip). cbn [obind]. destruct (Z.leb_spec (pg_end_time gp) start) as [Hle|Hlt].
  - exists (S i), y. split_and!; try done; [by left|]. intros k gk [= <-] Hgk. by simplify_eq.
  - destruct (IH i p Hp) as (j & x & E & Hx & Hj & Hend & Hpre); [lia|].
    exists j, x. split_and!; try done; [lia|]. right. destruct Hend as [->|]; eauto.
Qed.

(** A search that starts elsewhere and stops at [x] makes no difference. *)
Lemma insert_from fuel h l y x new gy gx g :
  item_at h y = Ret gy -> item_at h x = Ret gx -> item_at h new = Ret g ->
  pg_start_time g < pg_end_time gy -> pg_start_time g < pg_end_time gx ->
  back_to (size h) h (pg_start_time g) y = Ret x -> back_to (size h) h (pg_start_time g) x = Ret x ->
  insert_new_gap nodes jobs create fuel h l (Some y) new = insert_new_gap nodes jobs create fuel h l (Some x) new.
Proof.
  intros Ey Ex En Hy Hx By Bx. destruct fuel as [|fuel]; [done|]. cbn [insert_new_gap].
  rewrite Ey, Ex, En. cbn [obind].
  destruct (Z.leb_spec (pg_end_time gy) (pg_start_time g)); [lia|].
  destruct (Z.leb_spec (pg_end_time gx) (pg_start_time g)); [lia|]. by rewrite By, Bx.
Qed.

Lemma back_to_here h l xs1 x xs2 gs1 gx gs2 new g :
  gaps_are h l (xs1 ++ x :: xs2) (gs1 ++ gx :: gs2) new g -> length xs1 = length gs1 ->
  Forall (fun gp => pg_end_time gp <= pg_start_time g) gs1 ->
  back_to (size h) h (pg_start_time g) x = Ret x.
Proof.
  intros Hgaps Hlen Hb. pose proof (lists_size h l _ (gr_lists _ _ _ _ _ _ Hgaps)) as Hsz.
  rewrite length_app in Hsz. simpl in Hsz.
  assert (Hx : (xs1 ++ x :: xs2) !! length xs1 = Some x) by (by rewrite lookup_app_r, Nat.sub_diag).
  destruct (back_to_ok (size h) h l _ _ new g (pg_start_time g) (length xs1) x Hgaps Hx)
    as (j & y & E & Hy & Hj & Hend & _); [lia|].
  rewrite E. destruct (decide (j = length xs1)) as [->|Hne]; [congruence|].
  destruct Hend as [|(gj & Hgj & Hlt)]; [done|].
  rewrite lookup_app_l in Hgj by lia. eapply Forall_lookup_1 in Hb; [|exact Hgj]. simpl in Hb. lia.
Qed.

Lemma inserts_conserves (new : positive) r gs g gs' g' :
  conserves gs g gs' g' -> inserts r gs' g' (new := new) -> inserts r gs g (new := new).
Proof.
  intros Hc (h & l & p & ys & gs1 & g1 & E & Hg & Hi). exists h, l, p, ys, gs1, g1.
  split_and!; [done|done|by eapply conserves_inserted].
Qed.

(** The new gap goes on after the gap it starts with: the rest is inserted behind. *)
Lemma insert_rest fuel h l xs1 x xs2 gs1 gx gs2 new g :
  gaps_are h l (xs1 ++ x :: xs2) (gs1 ++ gx :: gs2) new g -> length xs1 = length gs1 ->
  ready gs1 (gx :: gs2) g -> pg_start_time gx = pg_start_time g -> pg_end_time gx < pg_end_time g ->
  (forall h l xs gs g, gaps_are h l (xs ++ xs2) (gs ++ gs2) new g -> length xs = length gs ->
    (length xs <= S (length xs1))%nat -> ready gs gs2 g ->
    Forall (fun gp => pg_start_time g <= pg_start_time gp) gs2 ->
    inserts (insert_new_gap nodes jobs create fuel h l (head xs2) new) (gs ++ gs2) g (new := new)) ->
  inserts (let! gl := add_mem_gap_to_gap gx g in
           let h := set_item h x gl in
           let! g := adjust_gap_memory nodes jobs g gl in
           let h := set_item h new (starting_at g (pg_end_time gl)) in
           let! s := get_successor h (Some x) in
           insert_new_gap nodes jobs create fuel h l s new) (gs1 ++ gx :: gs2) g (new := new).
Proof.
  intros Hgaps Hlen Hready Hal Hlt IH. destruct (ready_ok Hready) as [Hgx Hg].
  pose proof (rd_order _ _ _ Hready) as Ho.
  destruct (add_gap_ok gx g Hgx Hg) as (gx' & -> & Hv & Hok & Es & Ee). cbn [obind].
  destruct (adjust_ok g gx' Hg Hok) as (g' & -> & Hsame & Hg'). cbn [obind]. rewrite Ee.
  pose proof (gaps_set _ _ _ _ _ _ _ _ _ _ gx' Hgaps Hlen) as Hgaps1.
  apply (gaps_set_new _ _ _ _ _ _ (starting_at g' (pg_end_time gx))) in Hgaps1.
  rewrite (last_gap _ _ _ _ _ _ _ _ _ _ Hgaps1 Hlen). cbn [obind].
  destruct (step_rest gs1 gx gs2 g Hready Hal g' gx') as [Hr Hc]; try done.
  eapply inserts_conserves; [exact Hc|]. apply (IH _ _ (xs1 ++ [x])).
  - by rewrite <- !(assoc_L (++)).
  - rewrite !length_app. simpl. lia.
  - rewrite length_app. simpl. lia.
  - done.
  - simpl. by apply in_order_mid in Ho as (_ & _ & ?).
Qed.

(** The new gap starts with the gap [x]. *)
Lemma insert_aligned fuel h l xs1 x xs2 gs1 gx gs2 new g :
  gaps_are h l (xs1 ++ x :: xs2) (gs1 ++ gx :: gs2) new g -> length xs1 = length gs1 ->
  ready gs1 (gx :: gs2) g -> pg_start_time gx = pg_start_time g ->
  Z.of_nat (length (xs1 ++ x :: xs2)) + 1 < 2 ^ 31 ->
  (forall h l xs gs g, gaps_are h l (xs ++ xs2) (gs ++ gs2) new g -> length xs = length gs ->
    (length xs <= S (length xs1))%nat -> ready gs gs2 g ->
    Forall (fun gp => pg_start_time g <= pg_start_time gp) gs2 ->
    inserts (insert_new_gap nodes jobs create fuel h l (head xs2) new) (gs ++ gs2) g (new := new)) ->
  inserts (let! gl := item_at h x in
           let! g := item_at h new in
           if pg_end_time gl =? pg_end_time g then
             let! gl := add_mem_gap_to_gap gl g in
             Ret (set_item h x gl, l, Some x)
           else
             let! (h, l) := cut_end create h l x new in
             let! gl := item_at h x in
             if pg_end_time gl <? pg_end_time g then
               let! gl := add_mem_gap_to_gap gl g in
               let h := set_item h x gl in
               let! g := adjust_gap_memory nodes jobs g gl in
               let h := set_item h new (starting_at g (pg_end_time gl)) in
               let! s := get_successor h (Some x) in
               insert_new_gap nodes jobs create fuel h l s new
             else Ret (h, l, Some x)) (gs1 ++ gx :: gs2) g (new := new).
Proof.
  intros Hgaps Hlen Hready Hal Hsmall IH.
  destruct (gaps_are_at _ _ _ _ _ _ _ _ _ _ Hgaps Hlen) as (_ & Ex & En & _). rewrite Ex, En. cbn [obind].
  destruct (Z.eqb_spec (pg_end_time gx) (pg_end_time g)) as [Heq|Hne]; [by eapply insert_equal|].
  destruct (decide (pg_end_time g < pg_end_time gx)) as [Hlt|Hge].
  - destruct (cut_end_ok Hgaps Hlen Hready Hsmall Hal Hlt) as (h' & l' & ys1 & gl' & ys2 & gs' & -> & Hg' & Hi & Ex' & He).
    cbn [obind]. rewrite Ex'. cbn [obind]. rewrite He, Z.ltb_irrefl. eexists _, _, _, _, _, _. by split_and!.
  - assert (Ecut : cut_end create h l x new = Ret (h, l)).
    { unfold cut_end. rewrite Ex, En. cbn [obind]. destruct (Z.ltb_spec (pg_end_time g) (pg_end_time gx)); [lia|done]. }
    rewrite Ecut. cbn [obind]. rewrite Ex. cbn [obind].
    destruct (Z.ltb_spec (pg_end_time gx) (pg_end_time g)); [|lia]. by eapply insert_rest.
Qed.

Lemma insert_at fuel h l xs1 x xs2 gs1 gx gs2 new g :
  gaps_are h l (xs1 ++ x :: xs2) (gs1 ++ gx :: gs2) new g -> length xs1 = length gs1 ->
  ready gs1 (gx :: gs2) g -> pg_start_time g < pg_end_time gx -> (length gs2 + 2 <= fuel)%nat ->
  Z.of_nat (length (xs1 ++ x :: xs2)) + 3 * Z.of_nat (length gs2) + 6 < 2 ^ 31 ->
  inserts (insert_new_gap nodes jobs create fuel h l (Some x) new) (gs1 ++ gx :: gs2) g (new := new).
Proof.
  revert h l xs1 x xs2 gs1 gx gs2 g.
  induction fuel as [|fuel IH]; intros h l xs1 x xs2 gs1 gx gs2 g Hgaps Hlen Hready Hover Hfuel Hsmall; [lia|].
  cbn [insert_new_gap].
  destruct (gaps_are_at _ _ _ _ _ _ _ _ _ _ Hgaps Hlen) as (_ & Ex & En & _). rewrite Ex, En. cbn [obind].
  destruct (Z.leb_spec (pg_end_time gx) (pg_start_time g)); [lia|].
  rewrite (back_to_here _ _ _ _ _ _ _ _ _ _ Hgaps Hlen (rd_before _ _ _ Hready)). cbn [obind]. rewrite Ex. cbn [obind].
  destruct (Z.leb_spec (pg_end_time g) (pg_start_time gx)) as [Hwhole|Hcut].
  - destruct (ready_ok Hready) as [_ Hg]. destruct (gap_duplicate_ok g Hg) as (copy & -> & Hsame & Hc). cbn [obind].
    destruct (put_before h l xs1 x xs2 gs1 gx gs2 new g copy Hgaps Hlen) as (h' & l' & c & E & Hgaps'); [lia|].
    destruct (alloc h copy) as [h1 c1]. rewrite E. eexists _, _, _, _, _, _. split; [done|]. split; [exact Hgaps'|].
    apply step_whole; try done. by intros g' gs [= <- _].
  - destruct (cut_before_ok Hgaps Hlen Hready) as (h1 & l1 & xs1a & gs1a & gxa & ga & -> & Hgaps1 & Hlen1 & Hle1 &
      Hready1 & Hc1 & Ee1 & Eg1 & Hs1 & Hs1'); [lia|lia|done|]. cbn [obind].
    rewrite length_app in Hsmall. simpl in Hsmall.
    destruct (cut_start_ok Hgaps1 Hlen1 Hready1) as (h2 & l2 & xs1b & gs1b & gxb & gb & -> & Hgaps2 & Hlen2 & Hle2 &
      Hready2 & Hc2 & Ee2 & Eg2 & Hs2); [rewrite length_app; simpl; lia|done|done|].
    cbn [obind]. eapply inserts_conserves; [by eapply conserves_trans|].
    eapply insert_aligned; try done; [rewrite length_app; simpl; lia|].
    intros h3 l3 xs3 gs3 g3 Hgaps3 Hlen3 Hle3 Hready3 Hafter.
    pose proof (Forall2_length _ _ _ (gr_items _ _ _ _ _ _ Hgaps3)) as Hlen4. rewrite !length_app in Hlen4.
    destruct gs2 as [|gs gs2], xs2 as [|y xs2]; simpl in Hlen4; try lia.
    + rewrite !app_nil_r in Hgaps3. rewrite app_nil_r. apply (insert_end _ _ _ xs3); [exact Hgaps3|exact Hready3|lia|lia].
    + apply Forall_cons in Hafter as [Hafter _].
      pose proof (rd_ok _ _ _ Hready3) as [_ [Hgs _]%Forall_cons]%Forall_app. pose proof (go_times _ Hgs).
      eapply (IH _ _ xs3); [exact Hgaps3|done|done|lia|simpl in Hfuel; lia|].
      rewrite length_app. simpl in Hsmall |- *. lia.
Qed.

Lemma ready_split gs1 gs2 g :
  in_order (gs1 ++ gs2) -> Forall gap_ok (gs1 ++ gs2) -> gap_ok g -> Forall (fun gp => fits gp g) (gs1 ++ gs2) ->
  (forall gs gk, gs1 = gs ++ [gk] -> pg_end_time gk <= pg_start_time g) -> ready gs1 gs2 g.
Proof.
  intros Ho Hok Hg Hf Hlast. split; try done; [by apply Forall_app in Hf as [_ ?]|].
  destruct gs1 as [|gk gs1 _] using rev_ind; [done|]. specialize (Hlast gs1 gk eq_refl).
  apply Forall_app in Hok as [[_ [Hgk _]%Forall_cons]%Forall_app _]. pose proof (go_times _ Hgk).
  rewrite <- (assoc_L (++)) in Ho. apply in_order_mid in Ho as (_ & Hb & _).
  apply Forall_app. split; [|by repeat constructor]. eapply Forall_impl; [exact Hb|]. simpl. intros; lia.
Qed.

Lemma insert_new_gap_ok fuel h l xs gs new g :
  gaps_are h l xs gs new g -> in_order gs -> Forall gap_ok gs -> gap_ok g -> Forall (fun gp => fits gp g) gs ->
  (length gs + 2 <= fuel)%nat -> 4 * Z.of_nat (length xs) + 6 < 2 ^ 31 ->
  inserts (insert_new_gap nodes jobs create fuel h l None new) gs g (new := new).
Proof.
  intros Hgaps Ho Hok Hg Hf Hfuel Hsmall.
  pose proof (Forall2_length _ _ _ (gr_items _ _ _ _ _ _ Hgaps)) as Hlen.
  assert (Hend : (forall gs1 gk, gs = gs1 ++ [gk] -> pg_end_time gk <= pg_start_time g) ->
    inserts (insert_new_gap nodes jobs create fuel h l None new) gs g (new := new)).
  { intros Hlast. apply (insert_end _ _ _ xs); [done| |lia|lia].
    apply ready_split; rewrite ?app_nil_r; done. }
  destruct gs as [|gy gs _] using rev_ind; [apply Hend; by intros []|].
  rewrite length_app in Hlen, Hfuel. simpl in Hlen, Hfuel.
  destruct xs as [|y xs _] using rev_ind; [simpl in Hlen; lia|]. rewrite length_app in Hlen, Hsmall. simpl in Hlen, Hsmall.
  destruct (decide (pg_end_time gy <= pg_start_time g)) as [Hle|Hgt].
  { apply Hend. by intros gs1 gk [-> [= ->]]%app_inj_2. }
  clear Hend. pose proof (lists_size h l _ (gr_lists _ _ _ _ _ _ Hgaps)) as Hsz. rewrite length_app in Hsz. simpl in Hsz.
  assert (Hy : (xs ++ [y]) !! length xs = Some y) by (by rewrite lookup_app_r, Nat.sub_diag).
  destruct (back_to_ok (size h) h l _ _ new g (pg_start_time g) (length xs) y Hgaps Hy)
    as (j & x & Hback & Hx & Hj & Hover & Hpre); [lia|].
  destruct (Forall2_lookup_l _ _ _ j x (gr_items _ _ _ _ _ _ Hgaps) Hx) as (gx & Hgx & Hix).
  assert (Hxover : pg_start_time g < pg_end_time gx).
  { destruct Hover as [->|(gx' & Hgx' & Hlt)]; [|by simplify_eq].
    rewrite lookup_app_r in Hgx by lia. replace (length xs - length gs)%nat with 0%nat in Hgx by lia.
    simpl in Hgx. simplify_eq. lia. }
  destruct (gaps_are_at h l xs y [] gs gy [] new g Hgaps) as (_ & Ey & En & _); [lia|].
  assert (Enone : insert_new_gap nodes jobs create fuel h l None new = insert_new_gap nodes jobs create fuel h l (Some y) new).
  { destruct fuel as [|fuel]; [done|]. cbn [insert_new_gap].
    by rewrite (ls_last _ _ _ (gr_lists _ _ _ _ _ _ Hgaps)), last_snoc. }
  assert (Hl1 : length (take j (xs ++ [y])) = length (take j (gs ++ [gy])))
    by (rewrite !length_take, !length_app; simpl; lia).
  assert (Hl2 : (length (drop (S j) (gs ++ [gy])) <= length gs)%nat) by (rewrite length_drop, length_app; simpl; lia).
  assert (Hlx : length (xs ++ [y]) = (length gs + 1)%nat) by (rewrite length_app; simpl; lia).
  pose proof (take_drop_middle _ _ _ Hx) as Exs. pose proof (take_drop_middle _ _ _ Hgx) as Egs.
  assert (Hpre' : forall gs0 gk, take j (gs ++ [gy]) = gs0 ++ [gk] -> pg_end_time gk <= pg_start_time g).
  { intros gs0 gk Etake. assert (Hj' : j = S (length gs0)).
    { apply (f_equal length) in Etake. rewrite length_take, !length_app in Etake. simpl in Etake. lia. }
    apply (Hpre (length gs0) gk Hj').
    rewrite <- Egs, Etake, <- (assoc_L (++)). by rewrite lookup_app_r, Nat.sub_diag by lia. }
  rewrite <- Exs in Hgaps, Hlx. rewrite <- Egs in Hgaps, Ho, Hok, Hf |- *.
  pose proof (ready_split _ _ _ Ho Hok Hg Hf Hpre') as Hready.
  pose proof (back_to_here _ _ _ _ _ _ _ _ _ _ Hgaps Hl1 (rd_before _ _ _ Hready)) as Hx2.
  rewrite Enone, (insert_from _ h l y x new gy gx g); try done; [| |lia].
  - eapply insert_at; try done; [lia|]. rewrite Hlx. lia.
  - by apply item_at_items.
Qed.
End Sequence.
End Insertion.

(** C16: Inserting a gap into a plan ends, touches nothing that is not allocated and
    leaves disjoint gaps in the order of their times, which at every moment offer
    exactly what the gaps offered before and, while the new gap lasts, what it
    offers: in processors together, and in processors of each node. *)
Theorem inserting_a_gap_adds_its_offer (nodes : gmap positive node_info)
    (jobs : heap plan_job) (jl : plan_list) (js : list positive) (create : option plan_gap)
    (Hjobs : lists jobs jl js)
    (Harrays : forall j c, j ∈ js -> jobs !! j = Some c ->
      pj_req_num_nodes (item c) <= Z.of_nat (length (pj_ninfo_arr (item c))))
    (h : heap plan_gap) (l : plan_list) (xs : list positive) (gs : list plan_gap) (new : positive) (g : plan_gap)
    (Hgaps : gaps_are h l xs gs new g) (Horder : in_order gs)
    (Hok : Forall (gap_ok nodes js) gs) (Hnew : gap_ok nodes js g) (Hfits : Forall (fun gp => fits gp g) gs)
    (Hlength : 4 * Z.of_nat (length xs) + 6 < 2 ^ 31)
    (fuel : nat) (Hfuel : (length gs + 2 <= fuel)%nat) :
  exists h' l' p ys gs' g', insert_new_gap nodes jobs create fuel h l None new = Ret (h', l', p) /\
    gaps_are h' l' ys gs' new g' /\ in_order gs' /\ Forall (gap_ok nodes js) gs' /\
    (forall t, profile pg_usage gs' t = profile pg_usage gs t + amount pg_usage t g) /\
    (forall n t, profile (node_cpus n) gs' t = profile (node_cpus n) gs t + amount (node_cpus n) t g).
Proof.
  destruct (insert_new_gap_ok nodes jobs jl js Hjobs Harrays create fuel h l xs gs new g)
    as (h' & l' & p & ys & gs' & g' & E & Hgaps' & Ho & Hoks & Hsum); try done.
  exists h', l', p, ys, gs', g'. split_and!; try done.
  - intros t. apply (Hsum pg_usage _ t).
  - intros n t. apply (Hsum (node_cpus n) _ t).
Qed.

(** A gap of two processors of a node from 10 to 20 and one of another node from
    30 to 40; the new gap has processors of both nodes from 15 to 35. *)
Definition example_nodes : gmap positive node_info :=
  let n := new_node_info (new_NodeData "n" 8 8 false) MagratheaStateFree in
  <[1%positive := n]> (<[2%positive := n]> ∅).

Definition example_gap (start_time end_time usage : Z) (ms : list plan_gap_mem) : plan_gap :=
  mkPlanGap start_time end_time (end_time - start_time) usage (Z.of_nat (length ms)) (Some ms) None.

Definition gap_a : plan_gap := example_gap 10 20 2 [new_mem (Some 1%positive) 2 100 0].
Definition gap_b : plan_gap := example_gap 30 40 1 [new_mem (Some 2%positive) 1 100 0].
Definition gap_new : plan_gap :=
  example_gap 15 35 3 [new_mem (Some 2%positive) 2 50 0; new_mem (Some 1%positive) 1 50 0].

Definition example_heap : heap plan_gap := list_to_map
  [(1%positive, mkCell gap_a (Some 2%positive) None); (2%positive, mkCell gap_b None (Some 1%positive));
   (3%positive, mkCell gap_new None None)].

Definition example_gaps : plan_list := mkList 2 (Some 1%positive) (Some 2%positive) None.

Lemma inserting_a_gap_adds_its_offer_witness :
  exists h' l' p ys gs' g',
    insert_new_gap example_nodes ∅ None 4 example_heap example_gaps None 3%positive = Ret (h', l', p) /\
    gaps_are h' l' ys gs' 3%positive g' /\ num_items l' = 5 /\
    profile pg_usage gs' 17 = 5 /\ profile (node_cpus (Some 2%positive)) gs' 32 = 3.
Proof.
  assert (Hn : forall n, n = Some 1%positive \/ n = Some 2%positive -> exists p nd, n = Some p /\ example_nodes !! p = Some nd)
    by (intros n [-> | ->]; eexists _, _; split; reflexivity).
  assert (Hok : forall g, 0 <= pg_start_time g < pg_end_time g /\ pg_end_time g <= LONG_MAX ->
    pg_num_nodes g = Z.of_nat (length (default [] (pg_nodes_memory g))) -> NoDup (cpus_of g).*1 ->
    (forall n, n ∈ (cpus_of g).*1 -> n = Some 1%positive \/ n = Some 2%positive) -> pg_following_job g = None ->
    gap_ok example_nodes [] g).
  { intros g H1 H2 H3 H4 H5. split; try done; [intros n Hin; by apply Hn, H4|by rewrite H5]. }
  destruct (inserting_a_gap_adds_its_offer example_nodes ∅ list_create [] None) with
    (h := example_heap) (l := example_gaps) (xs := [1%positive; 2%positive]) (gs := [gap_a; gap_b]) (new := 3%positive)
    (g := gap_new) (fuel := 4%nat) as (h' & l' & p & ys & gs' & g' & E & Hg & _ & _ & Hu & Hc).
  - split; try done; constructor.
  - intros j c Hj. by apply elem_of_nil in Hj.
  - split; [split; [|repeat constructor]|reflexivity|apply (bool_decide_unpack _); vm_compute; exact I].
    split; [apply (bool_decide_unpack _); vm_compute; exact I| |reflexivity|reflexivity|reflexivity].
    repeat split; eexists; reflexivity.
  - repeat constructor. simpl. lia.
  - constructor; [|constructor; [|constructor]]; apply Hok; (try reflexivity); try (simpl; unfold LONG_MAX; lia);
      try (apply (bool_decide_unpack _); vm_compute; exact I);
      intros n Hin; vm_compute in Hin; set_solver.
  - apply Hok; (try reflexivity); try (simpl; unfold LONG_MAX; lia);
      try (apply (bool_decide_unpack _); vm_compute; exact I);
      intros n Hin; vm_compute in Hin; set_solver.
  - assert (Hin : forall gp n1 c1 n2 c2, gp = gap_a \/ gp = gap_b -> (n1, c1) ∈ cpus_of gp -> (n2, c2) ∈ cpus_of gap_new ->
      in_s 32 (c1 + c2)).
    { intros gp n1 c1 n2 c2 Hgp H1 H2. assert (c1 = 1 \/ c1 = 2) by (destruct Hgp as [-> | ->]; vm_compute in H1; set_solver).
      assert (c2 = 1 \/ c2 = 2) by (vm_compute in H2; set_solver). in_range. }
    constructor; [|constructor; [|constructor]]; (split; [simpl; in_range|]);
      intros n c1 c2 H1 H2; [apply (Hin gap_a n c1 n c2)|apply (Hin gap_b n c1 n c2)]; auto.
  - simpl. lia.
  - simpl. lia.
  - exists h', l', p, ys, gs', g'. split; [exact E|]. split; [exact Hg|]. split; [|split].
    + revert E. vm_compute. intros E. injection E as _ <- _. reflexivity.
    + rewrite Hu. reflexivity.
    + rewrite Hc. reflexivity.
Defined.
