(* ===== verification/PlanLimits.v ===== *)
(** * The limits of a plan: plan_limits.cpp

    A plan keeps, from moment to moment, how many processors the jobs of each
    account use, by the length of the jobs.  A [plan_limit] holds from its time
    stamp to the one of the next; its accounts are kept in the order of their
    identifiers and found by binary search.  The limits themselves, percentages
    of the running processors of the cluster, come from the configuration. *)

From Stdlib Require Import ZArith Lia Bool Ascii String SpecFloat.
From S2P Require Import Prelude CString CFloat MiscHelpers Config DataTypes JobInfo PlanData PlanList PlanValues.

Local Open Scope string_scope.
Open Scope Z_scope.
Local Open Scope sched_scope.

Definition NUM_LIMITS : Z := 8.

(** ** Accounts and their identifiers *)

(** The table of the accounts seen; the identifier is the position. *)
Fixpoint account_index (table : list string) (account : string) : option Z :=
  match table with
  | [] => None
  | a :: table => if String.eqb a account then Some 0 else Z.succ <$> account_index table account
  end.

Definition set_and_get_account_id (table : list string) (account : string) : list string * Z :=
  match account_index table account with
  | Some i => (table, i)
  | None => ((table ++ [account])%list, Z.of_nat (length table))
  end.

(** ** The limits of a cluster *)

(** The entry with the largest key that is not above [running_cpus]; the pointer
    is left uninitialised when there is none. *)
Definition best_limit (running_cpus : Z) (k : Z) (v : cluster_limits_arrays)
    (best : option (Z * cluster_limits_arrays)) : option (Z * cluster_limits_arrays) :=
  if running_cpus >=? k then
    match best with
    | Some (k', _) => if k' <? k then Some (k, v) else best
    | None => Some (k, v)
    end
  else best.

Definition find_limits_for_cluster (limits_map : gmap string (gmap Z cluster_limits_arrays))
    (cluster : option string) (running_cpus : Z) : outcome cluster_limits_arrays :=
  let! limit_array :=
    match limits_map !! default "" cluster with
    | Some a => Ret a
    | None => of_option (limits_map !! "")
    end in
  of_option (snd <$> map_fold (best_limit running_cpus) None limit_array).

(** ** The accounts of a limit *)

Definition limit_create (timestamp : Z) : plan_limit := mkPlanLimit timestamp [] 0 0.

(** The place of a new account, from the end on; the first account is never
    moved. *)
Fixpoint new_position (n : nat) (accounts : list plan_limit_account) (account_id : Z) : nat :=
  match n with
  | S (S _ as m) =>
      match accounts !! m with
      | Some a => if la_account_id a >? account_id then new_position m accounts account_id else n
      | None => n
      end
  | _ => n
  end.

Definition new_account (account_id : Z) : plan_limit_account :=
  mkAccount account_id (replicate (Z.to_nat NUM_LIMITS) 0).

Definition limit_add_account (limit : plan_limit) (account_id : Z) : plan_limit * Z :=
  let n := length (pl_accounts limit) in
  let p := new_position n (pl_accounts limit) account_id in
  let num_accounts := i32 (pl_num_accounts limit + 1) in
  let capacity := if num_accounts >? pl_capacity limit then i32 (pl_capacity limit + 10) else pl_capacity limit in
  (mkPlanLimit (pl_timestamp limit)
     (take p (pl_accounts limit) ++ new_account account_id :: drop p (pl_accounts limit))
     num_accounts capacity,
   Z.of_nat p).

(** The bounds stay within the array, so their sum does not wrap. *)
Fixpoint bin_search_account (fuel : nat) (accounts : list plan_limit_account) (a b id : Z) : outcome Z :=
  match fuel with
  | O => UB
  | S fuel =>
      if (b <? a) || (a >? b) then Ret (-1)
      else
        let middle := Z.quot (i32 (a + b)) 2 in
        let! m := if middle <? 0 then UB else of_option (accounts !! Z.to_nat middle) in
        if la_account_id m =? id then Ret middle
        else if a =? b then Ret (-1)
        else if id >? la_account_id m then bin_search_account fuel accounts (i32 (middle + 1)) b id
        else bin_search_account fuel accounts a (i32 (middle - 1)) id
  end.

Definition limit_find_account (limit : plan_limit) (account_id : Z) : outcome Z :=
  let accounts := pl_accounts limit in
  if pl_num_accounts limit =? 0 then Ret (-1)
  else
    let! f := of_option (head accounts) in
    let! l := of_option (last accounts) in
    if (account_id <? la_account_id f) || (la_account_id l <? account_id) then Ret (-1)
    else bin_search_account (S (length accounts)) accounts 0 (pl_num_accounts limit - 1) account_id.

(** ** Adding jobs *)

Fixpoint first_suiting (walltime : Z) (tresholds : list Z) : Z :=
  match tresholds with
  | [] => 0
  | t :: ts => if walltime <=? t then 0 else 1 + first_suiting walltime ts
  end.

Section Limits.
Variable limits_map : gmap string (gmap Z cluster_limits_arrays).

(** The position is the number of thresholds when the job is longer than all. *)
Definition walltime_suits_to_limit (walltime : Z) (cluster : plan_cluster) : outcome Z :=
  let! limits := find_limits_for_cluster limits_map (pc_cluster_name cluster) (pc_num_running_cpus cluster) in
  Ret (first_suiting walltime (tresholds limits)).

Definition account_at (accounts : list plan_limit_account) (i : Z) : outcome plan_limit_account :=
  if i <? 0 then UB else of_option (accounts !! Z.to_nat i).

(** An array of [NUM_LIMITS] counters. *)
Definition cpus_at (account : plan_limit_account) (i : Z) : outcome Z :=
  if i <? 0 then UB else of_option (la_num_cpus account !! Z.to_nat i).

Definition add_to_account (limit : plan_limit) (found_account found_limit num_cpus : Z) : outcome plan_limit :=
  let! a := account_at (pl_accounts limit) found_account in
  let! n := cpus_at a found_limit in
  let a := mkAccount (la_account_id a) (<[Z.to_nat found_limit := i32 (n + num_cpus)]> (la_num_cpus a)) in
  Ret (limit <| pl_accounts := <[Z.to_nat found_account := a]> (pl_accounts limit) |>).

Definition add_limit_to_limit (limit : plan_limit) (account_id walltime num_cpus : Z) (cluster : plan_cluster)
  : outcome plan_limit :=
  let! found_account := limit_find_account limit account_id in
  let (limit, found_account) :=
    if found_account =? -1 then limit_add_account limit account_id else (limit, found_account) in
  let! found_limit := walltime_suits_to_limit (i32 walltime) cluster in
  add_to_account limit found_account found_limit num_cpus.

(** The accounts are copied, so that the two limits share nothing. *)
Definition clone_limit (old_limit : plan_limit) (new_timestamp : Z) : plan_limit :=
  mkPlanLimit new_timestamp (pl_accounts old_limit) (pl_num_accounts old_limit) (pl_num_accounts old_limit).

(** The next limit of a walk. *)
Definition next_limit (h : heap plan_limit) (x : positive) : outcome (option plan_limit) :=
  let! s := get_successor h (Some x) in
  match s with
  | None => Ret None
  | Some y => let! v := item_at h y in Ret (Some v)
  end.

Definition clone_step (create : option plan_limit) (new_timestamp : Z)
    (x : positive) (h : heap plan_limit) (l : plan_list) (_ : unit)
  : outcome (heap plan_limit * plan_list * unit * bool) :=
  let! limit := item_at h x in
  if pl_timestamp limit =? new_timestamp then Ret (h, l, tt, false)
  else
    let! next := next_limit h x in
    match next with
    | None =>
        if pl_timestamp limit <? new_timestamp then
          let (h, c) := alloc h (limit_create new_timestamp) in
          let! (h, l, _) := list_add_end create h l (Some c) in
          Ret (h, l, tt, false)
        else Ret (h, l, tt, true)
    | Some s =>
        if (pl_timestamp limit <? new_timestamp) && (pl_timestamp s >? new_timestamp) then
          let (h, c) := alloc h (clone_limit limit new_timestamp) in
          let! (h, l, _) := list_add_inbackof create h l (Some x) (Some c) in
          Ret (h, l, tt, false)
        else Ret (h, l, tt, true)
    end.

Definition clone_limit_timestamp (create : option plan_limit) (h : heap plan_limit) (l : plan_list)
    (new_timestamp : Z) : outcome (heap plan_limit * plan_list) :=
  let! (h, l, _) := for_each (clone_step create new_timestamp) h l tt in Ret (h, l).

(** Whether some limit has one of the two time stamps. *)
Definition find_times_step (start_time completion_time : Z)
    (x : positive) (h : heap plan_limit) (l : plan_list) (found : bool * bool)
  : outcome (heap plan_limit * plan_list * (bool * bool) * bool) :=
  let! limit := item_at h x in
  Ret (h, l, (fst found || (pl_timestamp limit =? start_time), snd found || (pl_timestamp limit =? completion_time)), true).

Definition add_job_step (job : plan_job) (cluster : plan_cluster)
    (x : positive) (h : heap plan_limit) (l : plan_list) (_ : unit)
  : outcome (heap plan_limit * plan_list * unit * bool) :=
  let! limit := item_at h x in
  if (pl_timestamp limit >=? pj_start_time job) && (pl_timestamp limit <? pj_completion_time job) then
    let! limit :=
      add_limit_to_limit limit (pj_account_id job) (i64 (pj_completion_time job - pj_start_time job))
        (i32 (pj_req_ppn job * pj_req_num_nodes job)) cluster in
    Ret (set_item h x limit, l, tt, true)
  else Ret (h, l, tt, true).

Definition add_job_to_limits (create : option plan_limit) (h : heap plan_limit) (l : plan_list)
    (job : plan_job) (cluster : plan_cluster) : outcome (heap plan_limit * plan_list) :=
  let! (h, l) :=
    match last_item l with
    | None =>
        let (h, c) := alloc h (limit_create (pj_completion_time job)) in
        let! (h, l, _) := list_add_end create h l (Some c) in
        Ret (h, l)
    | Some _ => Ret (h, l)
    end in
  let! f := of_option (first l) in
  let! limit := item_at h f in
  let! (h, l) :=
    if pl_timestamp limit >? pj_start_time job then
      let (h, c) := alloc h (limit_create (pj_start_time job)) in
      let! (h, l, _) := list_add_begin create h l (Some c) in
      Ret (h, l)
    else Ret (h, l) in
  let! (h, l, found) :=
    for_each (find_times_step (pj_start_time job) (pj_completion_time job)) h l (false, false) in
  let! (h, l) := if fst found then Ret (h, l) else clone_limit_timestamp create h l (pj_start_time job) in
  let! (h, l) := if snd found then Ret (h, l) else clone_limit_timestamp create h l (pj_completion_time job) in
  let! (h, l, _) := for_each (add_job_step job cluster) h l tt in
  Ret (h, l).

(** ** The checks *)

Definition sum_limits_of_limit (limit : plan_limit) (limit_position : Z) : outcome Z :=
  ofold (fun sum a => let! n := cpus_at a limit_position in Ret (i32 (sum + n))) (pl_accounts limit) 0.

Definition value_at (values : list Z) (i : Z) : outcome Z :=
  if i <? 0 then UB else of_option (values !! Z.to_nat i).

(** The limit holds at some moment of the gap, as the code sees it. *)
Definition overlaps_gap (limit : plan_limit) (next : option plan_limit) (gap : plan_gap) : bool :=
  (pl_timestamp limit >=? pg_start_time gap) && (pl_timestamp limit <? pg_end_time gap)
  || match next with
     | None => false
     | Some s => (pl_timestamp limit <? pg_start_time gap) && (pl_timestamp s >? pg_start_time gap)
     end.

Section Values.
Variables limits_values limits_values_global : list Z.

Definition gap_ok_step (account_id num_cpus found_limit : Z) (gap : plan_gap)
    (limit : plan_limit) (next : option plan_limit) (ok : bool) : outcome (bool * bool) :=
  let! global_ok :=
    if overlaps_gap limit next gap then
      let! global_limit_value := sum_limits_of_limit limit found_limit in
      let! v := value_at limits_values_global found_limit in
      Ret (negb (v <? i32 (global_limit_value + num_cpus)))
    else Ret true in
  if negb global_ok then Ret (false, false)
  else
    let! found_account := limit_find_account limit account_id in
    if negb (found_account =? -1) && overlaps_gap limit next gap then
      let! v := value_at limits_values found_limit in
      let! a := account_at (pl_accounts limit) found_account in
      let! n := cpus_at a found_limit in
      if v <? i32 (n + num_cpus) then Ret (false, false) else Ret (ok, true)
    else Ret (ok, true).

(** The answer 1 is [true].  The walltime of the job is converted to [int]. *)
Definition limits_is_gap_ok (jinfos : gmap positive JobInfo) (h : heap plan_limit) (l : plan_list) (job : plan_job) (gap : plan_gap)
    (cluster : plan_cluster) : outcome (plan_list * bool) :=
  let! p := of_option (pj_jinfo job) in
  let! jinfo := of_option (jinfos !! p) in
  let num_cpus := i32 (pj_req_ppn job * pj_req_num_nodes job) in
  let! found_limit := walltime_suits_to_limit (i32 (get_walltime jinfo)) cluster in
  if found_limit =? -1 then Ret (l, false)
  else
    let! v := value_at limits_values found_limit in
    if v <? num_cpus then Ret (l, false)
    else
      let! (_, l, ok) :=
        for_each (fun x h l ok =>
          let! limit := item_at h x in
          let! next := next_limit h x in
          let! (ok, go) := gap_ok_step (pj_account_id job) num_cpus found_limit gap limit next ok in
          Ret (h, l, ok, go)) h l true in
      Ret (l, ok).

(** The limit holds at the start of the job, or begins while the job runs. *)
Definition overlaps_job (limit : plan_limit) (next : option plan_limit) (job : plan_job) : bool :=
  match next with
  | None => false
  | Some s => (pl_timestamp limit <=? pj_start_time job) && (pl_timestamp s >? pj_start_time job)
  end
  || (pl_timestamp limit >? pj_start_time job) && (pl_timestamp limit <? pj_completion_time job).

(** The job starts when the limit ends. *)
Definition start_after (job : plan_job) (next : option plan_limit) : outcome plan_job :=
  let! s := of_option next in
  Ret (job <| pj_start_time := pl_timestamp s |>
           <| pj_completion_time := i64 (pl_timestamp s + pj_estimated_processing job) |>).

Definition adjust_step (found_limit : Z) (limit : plan_limit) (next : option plan_limit) (job : plan_job)
  : outcome (plan_job * bool) :=
  let num_cpus := i32 (pj_req_ppn job * pj_req_num_nodes job) in
  let! moved :=
    if overlaps_job limit next job then
      let! global_limit_value := sum_limits_of_limit limit found_limit in
      let! v := value_at limits_values_global found_limit in
      if i32 (global_limit_value + num_cpus) >? v
      then let! job := start_after job next in Ret (Some job) else Ret None
    else Ret None in
  match moved with
  | Some job => Ret (job, true)
  | None =>
      let! found_account := limit_find_account limit (pj_account_id job) in
      if found_account =? -1 then Ret (job, true)
      else if overlaps_job limit next job then
        let! a := account_at (pl_accounts limit) found_account in
        let! n := cpus_at a found_limit in
        let! v := value_at limits_values found_limit in
        if i32 (n + num_cpus) >? v then let! job := start_after job next in Ret (job, true) else Ret (job, true)
      else Ret (job, true)
  end.

Definition adjust_job_starttime_according_to_limits (h : heap plan_limit) (l : plan_list) (job : plan_job)
    (cluster : plan_cluster) : outcome (plan_list * plan_job) :=
  let! found_limit := walltime_suits_to_limit (i32 (pj_estimated_processing job)) cluster in
  let! (_, l, job) :=
    for_each (fun x h l job =>
      let! limit := item_at h x in
      let! next := next_limit h x in
      let! (job, go) := adjust_step found_limit limit next job in
      Ret (h, l, job, go)) h l job in
  Ret (l, job).
End Values.

(** ** The values of the limits *)

(** [vector::resize]. *)
Definition resize (values : list Z) (n : nat) (v : Z) : list Z := take n values ++ replicate (n - length values) v.

(** An [int] times a [float], truncated back to [int]. *)
Definition percent_of (cpus : Z) (percentage : spec_float) : Z :=
  ftrunc (fmul (F := binary32) (fof_Z (F := binary32) cpus) percentage).

Definition update_limits_values (limits_values limits_values_global : list Z) (cluster : plan_cluster)
  : outcome (list Z * list Z) :=
  let! limits := find_limits_for_cluster limits_map (pc_cluster_name cluster) (pc_num_running_cpus cluster) in
  let n := length (tresholds limits) in
  ofold (fun '(v, g) i =>
    let v := resize v n 2 in
    let g := resize g n 2 in
    let! p := of_option (percentages limits !! i) in
    let! pg := of_option (percentages_global limits !! i) in
    Ret (<[i := percent_of (pc_num_running_cpus cluster) p]> v,
         <[i := percent_of (pc_num_running_cpus cluster) pg]> g)) (seq 0 n) (limits_values, limits_values_global).
End Limits.
