(* ===== verification/PlanLimitsSpec.v ===== *)
(** * What the limits promise

    The binary search is correct on accounts in order; the use that a plan
    records grows by what each job uses, while it runs; a gap is accepted only
    when the limits leave room at every moment of it.  The accounts are not
    always in order: one that belongs in front of the first is put behind it, and
    is never found again. *)

From Stdlib Require Import ZArith Lia Bool Ascii String SpecFloat.
From stdpp Require Import sorting.
From S2P Require Import Prelude CString CFloat MiscHelpers Config DataTypes JobInfo PlanData PlanList PlanValues PlanLimits.

Open Scope Z_scope.
Local Open Scope sched_scope.

(** ** The limits of a cluster *)

Lemma best_limit_spec running (m : gmap Z cluster_limits_arrays) :
  match map_fold (best_limit running) None m with
  | Some (k, v) => m !! k = Some v /\ k <= running /\ forall k', is_Some (m !! k') -> k' <= running -> k' <= k
  | None => forall k', is_Some (m !! k') -> running < k'
  end.
Proof.
  apply (map_fold_weak_ind (fun r m => match r with
    | Some (k, v) => m !! k = Some v /\ k <= running /\ forall k', is_Some (m !! k') -> k' <= running -> k' <= k
    | None => forall k', is_Some (m !! k') -> running < k'
    end)); [intros k' []; set_solver|].
  clear m. intros k v m r Hk IH. unfold best_limit.
  assert (Hin : forall k', is_Some (<[k := v]> m !! k') -> k' = k \/ is_Some (m !! k')).
  { intros k' H. destruct (decide (k = k')) as [->|Hne]; [by left|right]. by rewrite lookup_insert_ne in H. }
  destruct (Z.geb_spec running k) as [Hle|Hgt]; destruct r as [[k1 v1]|]; [destruct (Z.ltb_spec k1 k)|..];
    try destruct IH as (H1 & H2 & H3); split_and?; try done; try apply lookup_insert_eq; try lia.
  - intros k' [->|H']%Hin Hk'; [lia|]. specialize (H3 k' H' Hk'). lia.
  - rewrite lookup_insert_ne; [done|]. intros ->. congruence.
  - intros k' [->|H']%Hin Hk'; [lia|]. by apply H3.
  - intros k' [->|H']%Hin Hk'; [lia|]. specialize (IH k' H'). lia.
  - rewrite lookup_insert_ne; [done|]. intros ->. congruence.
  - intros k' [->|H']%Hin Hk'; [lia|]. by apply H3.
  - intros k' [->|H']%Hin; [lia|]. by apply IH.
Qed.

(** ** The binary search *)

Section Search.
Context (accounts : list plan_limit_account) (id : Z).
Hypothesis Hsmall : Z.of_nat (length accounts) < 2 ^ 30.

(** An index whose account has the identifier. *)
Definition found_at (r : Z) : Prop :=
  0 <= r /\ exists a, accounts !! Z.to_nat r = Some a /\ la_account_id a = id.

Definition sorted_accounts : Prop := StronglySorted (fun a b => la_account_id a < la_account_id b) accounts.

Lemma sorted_lookup_lt i j a b :
  sorted_accounts -> accounts !! i = Some a -> accounts !! j = Some b -> (i < j)%nat -> la_account_id a < la_account_id b.
Proof.
  intros Hs Hi Hj Hij. unfold sorted_accounts in Hs. rewrite <- (take_drop j accounts) in Hs. apply StronglySorted_app in Hs as (H & _ & _).
  apply H.
  - apply list_elem_of_lookup. exists i. by rewrite lookup_take_lt.
  - apply list_elem_of_lookup. exists 0%nat. by rewrite lookup_drop, Nat.add_0_r.
Qed.

(** The search stays within the array, whatever its order, and what it finds has
    the identifier; in an ordered array it finds the account when it is between
    the bounds. *)
Lemma bin_search_spec fuel a b :
  0 <= a -> b < Z.of_nat (length accounts) -> a <= b + 1 -> b - a + 2 <= Z.of_nat fuel ->
  exists r, bin_search_account fuel accounts a b id = Ret r /\ (r = -1 \/ found_at r) /\
    (sorted_accounts -> forall i, a <= i <= b -> found_at i -> r = i).
Proof.
  revert a b. induction fuel as [|fuel IH]; intros a b Ha Hb Hab Hf; [lia|].
  cbn [bin_search_account].
  destruct ((b <? a) || (a >? b)) eqn:Eempty.
  { exists (-1). split_and!; [done|by left|]. intros _ i Hi.
    apply orb_true_iff in Eempty as [E|E]; [apply Z.ltb_lt in E|rewrite Z.gtb_lt in E]; lia. }
  to_props.
  assert (Em : Z.quot (i32 (a + b)) 2 = (a + b) / 2) by (rewrite i32_id by in_range; apply Z.quot_div_nonneg; lia).
  rewrite Em. assert (Hm : a <= (a + b) / 2 <= b) by (split; [apply Z.div_le_lower_bound|apply Z.div_le_upper_bound]; lia).
  set (m := (a + b) / 2) in *. clearbody m. destruct (Z.ltb_spec m 0); [lia|].
  destruct (lookup_lt_is_Some_2 accounts (Z.to_nat m)) as [am Ham]; [lia|]. rewrite Ham. cbn [of_option obind].
  assert (Hother : forall i, sorted_accounts -> found_at i -> i <> m ->
    if bool_decide (i < m) then id < la_account_id am else la_account_id am < id).
  { intros i Hs (Hi & ai & Hai & <-) Hne. case_bool_decide.
    - eapply (sorted_lookup_lt (Z.to_nat i) (Z.to_nat m)); eauto; lia.
    - eapply (sorted_lookup_lt (Z.to_nat m) (Z.to_nat i)); eauto; lia. }
  destruct (Z.eqb_spec (la_account_id am) id) as [Hid|Hid].
  { exists m. split_and!; [done|right; split; [lia|eauto]|]. intros Hs i Hi Hfi.
    destruct (decide (i = m)) as [->|Hne]; [done|]. specialize (Hother i Hs Hfi Hne). case_bool_decide; lia. }
  destruct (Z.eqb_spec a b) as [Heq|Hneq].
  { exists (-1). split_and!; [done|by left|]. intros Hs i Hi (Hi0 & ai & Hai & Hai2).
    assert (i = m) as -> by lia. congruence. }
  destruct (Z.gtb_spec id (la_account_id am)) as [Hgt|Hle].
  - rewrite i32_id by in_range. destruct (IH (m + 1) b) as (r & E & Hr & Hc); [lia..|].
    exists r. split_and!; [done|done|]. intros Hs i Hi Hfi. apply Hc; [done| |done].
    destruct (decide (i = m)) as [->|Hne]; [destruct Hfi as (_ & ? & ? & ?); congruence|].
    specialize (Hother i Hs Hfi Hne). case_bool_decide; lia.
  - rewrite i32_id by in_range. destruct (IH a (m - 1)) as (r & E & Hr & Hc); [lia..|].
    exists r. split_and!; [done|done|]. intros Hs i Hi Hfi. apply Hc; [done| |done].
    destruct (decide (i = m)) as [->|Hne]; [destruct Hfi as (_ & ? & ? & ?); congruence|].
    specialize (Hother i Hs Hfi Hne). case_bool_decide; lia.
Qed.
End Search.

(** ** The use of a limit *)

Definition cpus_for (a : plan_limit_account) (i : Z) : Z := default 0 (la_num_cpus a !! Z.to_nat i).

(** The processors of the accounts that [p] selects, for jobs of the length [i]. *)
Definition use (p : Z -> bool) (i : Z) (limit : plan_limit) : Z :=
  foldr Z.add 0 ((fun a => if p (la_account_id a) then cpus_for a i else 0) <$> pl_accounts limit).

Record limit_ok (limit : plan_limit) : Prop := {
  lo_num : pl_num_accounts limit = Z.of_nat (length (pl_accounts limit));
  lo_arrays : Forall (fun a => Z.of_nat (length (la_num_cpus a)) = NUM_LIMITS) (pl_accounts limit)
}.

Lemma sum_app (f : plan_limit_account -> Z) l1 l2 :
  foldr Z.add 0 (f <$> (l1 ++ l2)) = foldr Z.add 0 (f <$> l1) + foldr Z.add 0 (f <$> l2).
Proof. rewrite fmap_app. induction (f <$> l1); simpl; lia. Qed.

Lemma sum_insert (f : plan_limit_account -> Z) (l : list plan_limit_account) i a b :
  l !! i = Some a -> foldr Z.add 0 (f <$> <[i := b]> l) = foldr Z.add 0 (f <$> l) - f a + f b.
Proof.
  intros Hi. pose proof (lookup_lt_Some _ _ _ Hi) as Hlt.
  rewrite <- (take_drop_middle l i a Hi) at 2. rewrite insert_take_drop by done. rewrite !sum_app. simpl. lia.
Qed.

Lemma cpus_at_ok a i : Z.of_nat (length (la_num_cpus a)) = NUM_LIMITS -> 0 <= i < NUM_LIMITS -> cpus_at a i = Ret (cpus_for a i).
Proof.
  intros Hl Hi. unfold cpus_at, cpus_for. destruct (Z.ltb_spec i 0); [lia|].
  destruct (lookup_lt_is_Some_2 (la_num_cpus a) (Z.to_nat i)) as [n ->]; [lia|done].
Qed.

Section Accounting.
Context (limit : plan_limit).
Hypothesis Hok : limit_ok limit.

Lemma add_to_account_spec id r i n :
  found_at (pl_accounts limit) id r -> 0 <= i < NUM_LIMITS ->
  (forall a, a ∈ pl_accounts limit -> in_s 32 (cpus_for a i + n)) ->
  exists limit', add_to_account limit r i n = Ret limit' /\ limit_ok limit' /\
    pl_timestamp limit' = pl_timestamp limit /\ length (pl_accounts limit') = length (pl_accounts limit) /\
    forall p j, 0 <= j -> use p j limit' = use p j limit + (if p id && (j =? i) then n else 0).
Proof.
  intros (Hr & a & Ha & Hid) Hi Hroom. destruct Hok as [Hn Harr].
  assert (Hain : a ∈ pl_accounts limit) by by eapply list_elem_of_lookup_2.
  assert (Hlen : Z.of_nat (length (la_num_cpus a)) = NUM_LIMITS) by (by eapply Forall_forall in Harr).
  unfold add_to_account, account_at. destruct (Z.ltb_spec r 0); [lia|]. rewrite Ha. cbn [of_option obind].
  rewrite cpus_at_ok by done. cbn [obind]. rewrite i32_id by (by apply Hroom). eexists. split; [done|].
  simpl. split_and!; [split; simpl; [by rewrite length_insert|]|done|by rewrite length_insert|].
  - apply Forall_insert; [done|]. simpl. by rewrite length_insert.
  - intros p j Hj. unfold use. simpl. rewrite (sum_insert _ _ _ a) by done. simpl. rewrite <- Hid.
    destruct (p (la_account_id a)); simpl; [|lia]. unfold cpus_for. simpl. destruct (Z.eqb_spec j i) as [->|Hne].
    + rewrite list_lookup_insert_eq by lia. simpl. lia.
    + rewrite list_lookup_insert_ne by lia. lia.
Qed.

Lemma new_position_le n accounts id : (new_position n accounts id <= n)%nat.
Proof.
  induction n as [|[|n] IH]; simpl in *; try lia. destruct (accounts !! S n) as [a|]; [|done].
  destruct (_ >? _); lia.
Qed.

Lemma limit_add_account_spec id :
  Z.of_nat (length (pl_accounts limit)) < 2 ^ 30 ->
  let (limit', r) := limit_add_account limit id in
  limit_ok limit' /\ found_at (pl_accounts limit') id r /\ pl_timestamp limit' = pl_timestamp limit /\
  (forall a, a ∈ pl_accounts limit' -> a = new_account id \/ a ∈ pl_accounts limit) /\
  length (pl_accounts limit') = S (length (pl_accounts limit)) /\
  forall p j, use p j limit' = use p j limit.
Proof.
  intros Hsmall. unfold limit_add_account. destruct Hok as [Hn Harr].
  set (q := new_position _ _ _). pose proof (new_position_le (length (pl_accounts limit)) (pl_accounts limit) id) as Hq.
  fold q in Hq. clearbody q. simpl. split_and!.
  - split; simpl.
    + rewrite length_app, length_cons, length_take, length_drop, Hn, i32_id by in_range. lia.
    + apply Forall_app. split; [by apply Forall_take|]. constructor; [done|by apply Forall_drop].
  - split; [lia|]. exists (new_account id). split; [|done]. rewrite Nat2Z.id, lookup_app_r; rewrite length_take; [|lia].
    by replace (q - q `min` length (pl_accounts limit))%nat with 0%nat by lia.
  - done.
  - intros a [Ha|[->|Ha]%elem_of_cons]%elem_of_app; [right|by left|right];
      rewrite <- (take_drop q (pl_accounts limit)); apply elem_of_app; auto.
  - rewrite length_app, length_cons, length_take, length_drop. lia.
  - intros p j. unfold use. cbn [pl_accounts]. rewrite sum_app, fmap_cons. cbn [foldr].
    change (la_account_id (new_account id)) with id.
    pose proof (sum_app (fun a => if p (la_account_id a) then cpus_for a j else 0)
      (take q (pl_accounts limit)) (drop q (pl_accounts limit))) as Hsum. rewrite take_drop in Hsum.
    assert (E : cpus_for (new_account id) j = 0).
    { unfold cpus_for, new_account. simpl. by destruct (Z.to_nat j) as [|[|[|[|[|[|[|[|[|?]]]]]]]]]. }
    rewrite E. destruct (p id); lia.
Qed.
End Accounting.

Lemma limit_find_account_spec limit id :
  limit_ok limit -> Z.of_nat (length (pl_accounts limit)) < 2 ^ 30 ->
  exists r, limit_find_account limit id = Ret r /\ (r = -1 \/ found_at (pl_accounts limit) id r) /\
    (sorted_accounts (pl_accounts limit) -> forall i, found_at (pl_accounts limit) id i -> r = i).
Proof.
  intros [Hn Harr] Hsmall. unfold limit_find_account. rewrite Hn. set (as_ := pl_accounts limit) in *.
  destruct (Z.eqb_spec (Z.of_nat (length as_)) 0) as [H0|H0].
  { exists (-1). split_and!; [done|by left|]. intros _ i (Hi & a & Ha & _). apply lookup_lt_Some in Ha. lia. }
  destruct (lookup_lt_is_Some_2 as_ 0) as [f Hf]; [lia|].
  destruct (lookup_lt_is_Some_2 as_ (length as_ - 1)) as [l Hl]; [lia|].
  assert (Eh : head as_ = Some f) by by rewrite head_lookup.
  assert (El : last as_ = Some l) by (rewrite last_lookup; by replace (Nat.pred (length as_)) with (length as_ - 1)%nat by lia).
  rewrite Eh, El. cbn [of_option obind].
  destruct ((id <? la_account_id f) || (la_account_id l <? id)) eqn:Eb.
  - exists (-1). split_and!; [done|by left|]. intros Hs i (Hi & a & Ha & Hid). pose proof (lookup_lt_Some _ _ _ Ha) as Hlt.
    apply orb_true_iff in Eb as [E|E]; apply Z.ltb_lt in E.
    + destruct (decide (Z.to_nat i = 0)%nat) as [E0|]; [rewrite E0 in Ha; simplify_eq; lia|].
      pose proof (sorted_lookup_lt as_ 0 (Z.to_nat i) f a Hs Hf Ha). lia.
    + destruct (decide (Z.to_nat i = length as_ - 1)%nat) as [E0|]; [rewrite E0 in Ha; simplify_eq; lia|].
      pose proof (sorted_lookup_lt as_ (Z.to_nat i) (length as_ - 1) a l Hs Ha Hl). lia.
  - destruct (bin_search_spec as_ id Hsmall (S (length as_)) 0 (Z.of_nat (length as_) - 1)) as (r & E & Hr & Hc); [lia..|].
    exists r. split_and!; [done|done|]. intros Hs i Hfi. apply Hc; [done| |done].
    destruct Hfi as (Hi & a & Ha & _). apply lookup_lt_Some in Ha. lia.
Qed.

Section Adding.
Context (limits_map : gmap string (gmap Z cluster_limits_arrays)) (cluster : plan_cluster).
Context (account_id walltime n fl : Z).
Hypothesis Hsuits : walltime_suits_to_limit limits_map (i32 walltime) cluster = Ret fl.
Hypothesis Hfl : 0 <= fl < NUM_LIMITS.

(** There is room for the job in the counters of a limit, and for its account. *)
Definition roomy (limit : plan_limit) : Prop :=
  Z.of_nat (length (pl_accounts limit)) + 1 < 2 ^ 30 /\
  forall a, a ∈ pl_accounts limit -> in_s 32 (cpus_for a fl + n).

Lemma add_limit_to_limit_spec limit :
  limit_ok limit -> roomy limit -> in_s 32 n ->
  exists limit', add_limit_to_limit limits_map limit account_id walltime n cluster = Ret limit' /\ limit_ok limit' /\
    pl_timestamp limit' = pl_timestamp limit /\
    forall p j, 0 <= j -> use p j limit' = use p j limit + (if p account_id && (j =? fl) then n else 0).
Proof.
  intros Hok [Hlen Hroom] Hn. unfold add_limit_to_limit.
  destruct (limit_find_account_spec limit account_id Hok) as (r & -> & Hr & _); [lia|]. cbn [obind].
  rewrite Hsuits. destruct (Z.eqb_spec r (-1)) as [->|Hne].
  - pose proof (limit_add_account_spec limit Hok account_id) as Hadd.
    destruct (limit_add_account limit account_id) as [limit1 r1].
    destruct Hadd as (Hok1 & Hf1 & Ht1 & Hin1 & _ & Hu1); [lia|]. cbn [obind].
    destruct (add_to_account_spec limit1 Hok1 account_id r1 fl n Hf1 Hfl) as (limit' & E & Hok' & Ht & _ & Hu).
    { intros a [->|Ha]%Hin1; [|by apply Hroom].
      assert (E : cpus_for (new_account account_id) fl = 0).
      { unfold cpus_for, new_account. simpl. by destruct (Z.to_nat fl) as [|[|[|[|[|[|[|[|[|?]]]]]]]]]. }
      by rewrite E. }
    exists limit'. split_and!; [done|done|congruence|]. intros p j Hj. by rewrite Hu, Hu1.
  - destruct Hr as [|Hr]; [done|]. cbn [obind].
    destruct (add_to_account_spec limit Hok account_id r fl n Hr Hfl Hroom) as (limit' & E & Hok' & Ht & _ & Hu).
    exists limit'. by split_and!.
Qed.
End Adding.

(** ** The limits from moment to moment *)

Abbreviation in_time := (StronglySorted (fun v w : plan_limit => pl_timestamp v < pl_timestamp w)).

(** The limit that holds at [t]: the last one that has begun. *)
Fixpoint holds_at (vs : list plan_limit) (t : Z) : option plan_limit :=
  match vs with
  | [] => None
  | v :: vs => if pl_timestamp v <=? t then Some (default v (holds_at vs t)) else None
  end.

Definition use_at (p : Z -> bool) (i : Z) (vs : list plan_limit) (t : Z) : Z := from_option (use p i) 0 (holds_at vs t).

Lemma in_time_mid vs1 v vs2 :
  in_time (vs1 ++ v :: vs2) <->
  in_time vs1 /\ in_time vs2 /\ (forall w, w ∈ vs1 -> pl_timestamp w < pl_timestamp v) /\
  (forall w, w ∈ vs2 -> pl_timestamp v < pl_timestamp w).
Proof.
  rewrite StronglySorted_app. split.
  - intros (H & H1 & [H2 Hv]%StronglySorted_inv). rewrite Forall_forall in Hv. split_and!; try done.
    intros w Hw. apply H; [done|by left].
  - intros (H1 & H2 & H3 & H4). split_and!; [|done|constructor; [done|by apply Forall_forall]].
    intros a b Ha [->|Hb]%elem_of_cons; [by apply H3|]. specialize (H3 a Ha). specialize (H4 b Hb). lia.
Qed.

Lemma holds_at_app vs1 v vs2 t :
  in_time (vs1 ++ v :: vs2) ->
  holds_at (vs1 ++ v :: vs2) t = if pl_timestamp v <=? t then holds_at (v :: vs2) t else holds_at vs1 t.
Proof.
  intros (H1 & _ & Hlt & _)%in_time_mid. induction vs1 as [|w vs1 IH]; simpl.
  - by destruct (pl_timestamp v <=? t).
  - apply StronglySorted_inv in H1 as [H1 _]. rewrite IH by (done || (intros u Hu; apply Hlt; by right)).
    specialize (Hlt w ltac:(by left)). destruct (Z.leb_spec (pl_timestamp v) t); [|done].
    destruct (Z.leb_spec (pl_timestamp w) t); [|lia]. simpl.
    destruct (Z.leb_spec (pl_timestamp v) t); [done|lia].
Qed.

(** The limit that holds is the latest of those that have begun. *)
Lemma holds_at_spec vs t :
  in_time vs ->
  match holds_at vs t with
  | Some v => v ∈ vs /\ pl_timestamp v <= t /\ forall w, w ∈ vs -> pl_timestamp w <= t -> pl_timestamp w <= pl_timestamp v
  | None => forall w, w ∈ vs -> t < pl_timestamp w
  end.
Proof.
  induction vs as [|v vs IH]; intros Hs; simpl; [set_solver|].
  apply StronglySorted_inv in Hs as [Hs Hv]. rewrite Forall_forall in Hv. specialize (IH Hs).
  destruct (Z.leb_spec (pl_timestamp v) t) as [Hle|Hgt].
  - destruct (holds_at vs t) as [w|]; simpl.
    + destruct IH as (Hw & Hwt & Hmax). split_and!; [by right|done|]. intros u [->|Hu]%elem_of_cons Hut.
      * specialize (Hv w Hw). lia.
      * by apply Hmax.
    + split_and!; [by left|done|]. intros u [->|Hu]%elem_of_cons Hut; [lia|]. specialize (IH u Hu). lia.
  - intros w [->|Hw]%elem_of_cons; [done|]. specialize (Hv w Hw). lia.
Qed.

Lemma holds_at_map (f : plan_limit -> plan_limit) vs t :
  (forall v, pl_timestamp (f v) = pl_timestamp v) -> holds_at (f <$> vs) t = f <$> holds_at vs t.
Proof.
  intros Hf. induction vs as [|v vs IH]; [done|]. rewrite fmap_cons. cbn [holds_at]. rewrite Hf, IH.
  destruct (_ <=? t); [|done]. by destruct (holds_at vs t).
Qed.

(** ** A limit that begins at a given time *)

(** [vs'] is [vs] with a limit that begins at [t] in its place: a copy of the one
    before it, or an empty one at the end. *)
Definition cloned (t : Z) (vs vs' : list plan_limit) : Prop :=
  exists vs1 v vs2 new, vs = vs1 ++ v :: vs2 /\ vs' = vs1 ++ v :: new :: vs2 /\ pl_timestamp v < t /\
    match vs2 with
    | [] => new = limit_create t
    | w :: _ => t < pl_timestamp w /\ new = clone_limit v t
    end.

Lemma next_limit_value h x v w : next_value h x v w -> next_limit h x = Ret w /\ item_at h x = Ret v.
Proof.
  intros (s & p & Hx & Hs). split; [|unfold item_at; by rewrite Hx].
  unfold next_limit. cbn [get_successor]. rewrite Hx. cbn [of_option obind succ].
  destruct s as [y|]; [|by subst]. destruct Hs as (a & Ha & ->). by rewrite (item_at_items h y a Ha).
Qed.

Section Clone.
Context (create : option plan_limit) (t : Z).

(** A copy behind the item the walk is at, and an empty limit at the end. *)
Lemma add_behind h l xs1 x xs2 vs1 v vs2 a :
  values_are h l (xs1 ++ x :: xs2) (vs1 ++ v :: vs2) -> length xs1 = length vs1 ->
  Z.of_nat (length (xs1 ++ x :: xs2)) + 1 < 2 ^ 31 ->
  exists h' l' c, (let (h, c) := alloc h a in list_add_inbackof create h l (Some x) (Some c)) = Ret (h', l', Some c) /\
    values_are h' l' (xs1 ++ x :: c :: xs2) (vs1 ++ v :: a :: vs2).
Proof.
  intros H Hlen Hsmall. pose proof (alloc_values h l _ _ a H) as Ha. destruct (alloc h a) as [h1 c].
  destruct Ha as (H1 & Hs & Hc & _).
  destruct (put_inbackof create h1 l c a Hs xs1 x xs2 vs1 v vs2 H1 Hlen Hc Hsmall) as (h' & l' & E & H' & _).
  by exists h', l', c.
Qed.

Lemma add_last h l xs vs a :
  values_are h l xs vs -> Z.of_nat (length xs) + 1 < 2 ^ 31 ->
  exists h' l' c, (let (h, c) := alloc h a in list_add_end create h l (Some c)) = Ret (h', l', Some c) /\
    values_are h' l' (xs ++ [c]) (vs ++ [a]).
Proof.
  intros H Hsmall. pose proof (alloc_values h l _ _ a H) as Ha. destruct (alloc h a) as [h1 c].
  destruct Ha as (H1 & Hs & Hc & _).
  destruct (put_end create h1 l c a Hs xs vs H1 Hc Hsmall) as (h' & l' & E & H' & _). by exists h', l', c.
Qed.

Lemma add_first h l xs vs a :
  values_are h l xs vs -> Z.of_nat (length xs) + 1 < 2 ^ 31 ->
  exists h' l' c, (let (h, c) := alloc h a in list_add_begin create h l (Some c)) = Ret (h', l', Some c) /\
    values_are h' l' (c :: xs) (a :: vs).
Proof.
  intros H Hsmall. pose proof (alloc_values h l _ _ a H) as Ha. destruct (alloc h a) as [h1 c].
  destruct Ha as (H1 & Hs & Hc & _).
  destruct (put_begin create h1 l c a Hs xs vs H1 Hc Hsmall) as (h' & l' & E & H' & _). by exists h', l', c.
Qed.

Lemma clone_step_at x h l v w :
  next_value h x v w ->
  clone_step create t x h l tt =
    if pl_timestamp v =? t then Ret (h, l, tt, false)
    else match w with
    | None =>
        if pl_timestamp v <? t then
          let (h, c) := alloc h (limit_create t) in
          let! (h, l, _) := list_add_end create h l (Some c) in Ret (h, l, tt, false)
        else Ret (h, l, tt, true)
    | Some s =>
        if (pl_timestamp v <? t) && (pl_timestamp s >? t) then
          let (h, c) := alloc h (clone_limit v t) in
          let! (h, l, _) := list_add_inbackof create h l (Some x) (Some c) in Ret (h, l, tt, false)
        else Ret (h, l, tt, true)
    end.
Proof.
  intros Hx. destruct (next_limit_value _ _ _ _ Hx) as [En Ei]. unfold clone_step. rewrite Ei. cbn [obind].
  destruct (_ =? _); [done|]. rewrite En. by destruct w.
Qed.

Lemma clone_each vs fuel ys zs us h l v :
  values_are h l (ys ++ zs) (us ++ v :: vs) -> length ys = length us -> current l = last ys ->
  (length zs < fuel)%nat -> Z.of_nat (length (ys ++ zs)) + 1 < 2 ^ 31 ->
  pl_timestamp v < t -> (forall w, w ∈ vs -> pl_timestamp w <> t) ->
  exists h' l' xs' vs', each (clone_step create t) fuel h l tt = Ret (h', l', tt) /\
    values_are h' l' xs' (us ++ vs') /\ cloned t (v :: vs) vs' /\ length xs' = S (length (ys ++ zs)).
Proof.
  revert fuel ys zs us l v. induction vs as [|w vs IH]; intros fuel ys zs us l v H Hlen Hc Hf Hsmall Hv Hne;
    pose proof (values_length _ _ _ _ H) as Hlens; rewrite !length_app in Hlens;
    (destruct zs as [|z zs]; simpl in Hlens; [lia|]); (destruct fuel as [|fuel]; [simpl in Hf; lia|]);
    cbn [each]; rewrite (next_of_walk h l ys _ (va_lists _ _ _ _ H) Hc); cbn [obind head];
    change (current (l <| current := Some z |>)) with (Some z); cbv iota;
    rewrite (clone_step_at z h _ v _ (values_next _ _ _ _ _ _ _ _ H Hlen));
    (destruct (Z.eqb_spec (pl_timestamp v) t); [lia|]); cbn [obind head]; (destruct (Z.ltb_spec (pl_timestamp v) t); [|lia]);
    apply (values_current _ _ _ _ (Some z)) in H.
  - destruct (add_last h (l <| current := Some z |>) _ _ (limit_create t) H Hsmall) as (h' & l' & c & E & H').
    destruct (alloc h (limit_create t)) as [h1 c1]. rewrite E. cbn [obind].
    eexists _, _, _, (v :: [limit_create t]). split; [done|]. split; [by rewrite <- (assoc_L (++) us) in H'|].
    split; [|rewrite length_app; simpl; lia]. by exists [], v, [], (limit_create t).
  - destruct (Z.gtb_spec (pl_timestamp w) t) as [Hgt|Hle]; cbn [andb].
    + destruct (add_behind h (l <| current := Some z |>) ys z zs us v (w :: vs) (clone_limit v t) H Hlen Hsmall)
        as (h' & l' & c & E & H').
      destruct (alloc h (clone_limit v t)) as [h1 c1]. rewrite E. cbn [obind].
      eexists _, _, _, (v :: clone_limit v t :: w :: vs). split; [done|]. split; [exact H'|].
      split; [|rewrite !length_app; simpl; lia]. exists [], v, (w :: vs), (clone_limit v t). by split_and!.
    + cbn [obind]. assert (pl_timestamp w <> t) by (apply Hne; by left).
      destruct (IH fuel (ys ++ [z]) zs (us ++ [v]) (l <| current := Some z |>) w)
        as (h' & l' & xs' & vs' & E & H' & (vs1 & u & vs2 & new & E1 & E2 & Hu) & Hl').
      * by rewrite <- !(assoc_L (++)).
      * rewrite !length_app. simpl. lia.
      * by rewrite last_snoc.
      * simpl in Hf. lia.
      * by rewrite <- (assoc_L (++)).
      * lia.
      * intros u Hu. apply Hne. by right.
      * exists h', l', xs', (v :: vs'). rewrite E. split; [done|]. split; [by rewrite <- (assoc_L (++) us) in H'|].
        split; [|by rewrite Hl', <- (assoc_L (++))]. exists (v :: vs1), u, vs2, new. split_and!; [by rewrite E1|by rewrite E2|apply Hu|apply Hu].
Qed.

Lemma clone_limit_timestamp_spec h l xs vs v vs0 :
  values_are h l xs vs -> vs = v :: vs0 -> Z.of_nat (length xs) + 1 < 2 ^ 31 ->
  pl_timestamp v < t -> (forall w, w ∈ vs -> pl_timestamp w <> t) ->
  exists h' l' xs' vs', clone_limit_timestamp create h l t = Ret (h', l') /\ values_are h' l' xs' vs' /\
    cloned t vs vs' /\ length xs' = S (length xs).
Proof.
  intros H -> Hsmall Hv Hne. pose proof (lists_size h l xs (va_lists _ _ _ _ H)) as Hsz.
  destruct (clone_each vs0 (size h + 1) [] xs [] h (l <| current := None |>) v)
    as (h' & l' & xs' & vs' & E & H' & Hc & Hl'); try done; [by apply values_current|lia|intros w Hw; apply Hne; by right|].
  exists h', l', xs', vs'. unfold clone_limit_timestamp, for_each. rewrite E. by split_and!.
Qed.
End Clone.

(** ** The limits of a plan *)

(** In time, well formed, and nothing is used any more from the last one on. *)
Record limits_ok (vs : list plan_limit) : Prop := {
  lk_time : in_time vs;
  lk_ok : Forall limit_ok vs;
  lk_last : forall v, last vs = Some v -> pl_accounts v = []
}.

(** [vs'] records the same use as [vs], in limits with the accounts of limits of
    [vs], or none. *)
Record refined (vs vs' : list plan_limit) : Prop := {
  rf_use : forall p i t, use_at p i vs' t = use_at p i vs t;
  rf_kept : forall v, v ∈ vs -> v ∈ vs';
  rf_from : forall w, w ∈ vs' -> pl_accounts w = [] \/ exists v, v ∈ vs /\ pl_accounts w = pl_accounts v
}.

Lemma use_same p i v w : pl_accounts v = pl_accounts w -> use p i v = use p i w.
Proof. intros E. unfold use. by rewrite E. Qed.

Lemma use_none p i v : pl_accounts v = [] -> use p i v = 0.
Proof. intros E. unfold use. by rewrite E. Qed.

Lemma refined_trans vs1 vs2 vs3 : refined vs1 vs2 -> refined vs2 vs3 -> refined vs1 vs3.
Proof.
  intros [U1 K1 F1] [U2 K2 F2]. split; [intros; by rewrite U2, U1|auto|].
  intros w [Hw|(v & Hv & Hw)]%F2; [by left|]. destruct (F1 v Hv) as [E|(u & Hu & E)]; [left; congruence|].
  right. exists u. split; [done|congruence].
Qed.

Lemma refined_refl vs : refined vs vs.
Proof. split; eauto. Qed.

(** An empty limit in front of all the others. *)
Lemma first_refined vs t :
  limits_ok vs -> (forall v vs0, vs = v :: vs0 -> t < pl_timestamp v) ->
  limits_ok (limit_create t :: vs) /\ refined vs (limit_create t :: vs).
Proof.
  intros [Ht Hok Hl] Hlt.
  assert (Hall : forall w, w ∈ vs -> t < pl_timestamp w).
  { destruct vs as [|v vs]; [set_solver|]. specialize (Hlt v vs eq_refl). apply StronglySorted_inv in Ht as [_ Hv].
    intros w [->|Hw]%elem_of_cons; [done|]. eapply Forall_forall in Hv; [|done]. lia. }
  split; split.
  - constructor; [done|]. apply Forall_forall. intros w Hw. by apply Hall.
  - constructor; [by split|done].
  - intros v. destruct vs; [by intros [= <-]|]. by apply Hl.
  - intros p i u. unfold use_at. simpl. destruct (Z.leb_spec t u); simpl.
    + by destruct (holds_at vs u).
    + destruct vs as [|v vs]; [done|]. simpl. specialize (Hlt v vs eq_refl).
      destruct (Z.leb_spec (pl_timestamp v) u); [lia|done].
  - intros v Hv. by right.
  - intros w [->|Hw]%elem_of_cons; [by left|right; eauto].
Qed.

(** Only the new limit is not one of [vs]. *)
Lemma cloned_from t vs vs' : cloned t vs vs' -> forall w, w ∈ vs' -> pl_timestamp w = t \/ w ∈ vs.
Proof.
  intros (vs1 & v & vs2 & new & -> & -> & _ & Hnew) w.
  assert (pl_timestamp new = t) by (destruct vs2; [by subst|by destruct Hnew as [_ ->]]).
  intros [Hw|[->|[->|Hw]%elem_of_cons]%elem_of_cons]%elem_of_app; [right|right|by left|right]; set_solver.
Qed.

Lemma cloned_refined t vs vs' :
  limits_ok vs -> cloned t vs vs' ->
  limits_ok vs' /\ refined vs vs' /\ exists w, w ∈ vs' /\ pl_timestamp w = t.
Proof.
  intros [Ht Hok Hl] (vs1 & v & vs2 & new & -> & -> & Hv & Hnew).
  assert (Hn : pl_timestamp new = t /\ limit_ok new /\
    (pl_accounts new = [] /\ vs2 = [] \/ pl_accounts new = pl_accounts v /\ vs2 <> [] /\ forall w, w ∈ vs2 -> t < pl_timestamp w)).
  { apply in_time_mid in Ht as (_ & Ht2 & _ & _). apply Forall_app in Hok as [_ [[Hvn Hva] Hok]%Forall_cons].
    destruct vs2 as [|w vs2]; [subst new; split_and!; try done; by left|]. destruct Hnew as [Hw ->].
    split_and!; [done|by split|right; split_and!; try done].
    apply StronglySorted_inv in Ht2 as [_ Ht2]. intros u [->|Hu]%elem_of_cons; [done|].
    eapply Forall_forall in Ht2; [|done]. lia. }
  clear Hnew. destruct Hn as (<- & Hnok & Hnacc).
  assert (Ht' : in_time (vs1 ++ v :: new :: vs2)).
  { apply in_time_mid in Ht as (Ht1 & Ht2 & H1 & H2). apply in_time_mid. split_and!; [done| |done|].
    - constructor; [done|]. apply Forall_forall. intros w Hw. destruct Hnacc as [[_ ->]|(_ & _ & H)]; [set_solver|auto].
    - intros w [->|Hw]%elem_of_cons; auto. }
  split; [split|split; [split|]].
  - done.
  - apply Forall_app in Hok as [H1 [H2 H3]%Forall_cons]. apply Forall_app. split; [done|]. constructor; [done|by constructor].
  - intros u. destruct Hnacc as [[En ->]|(_ & Hne & _)]; [rewrite last_app; by intros [= <-]|].
    intros Hu. apply Hl. destruct vs2; [done|]. rewrite !last_app in *. done.
  - intros p i u. unfold use_at. rewrite !holds_at_app by done. destruct (Z.leb_spec (pl_timestamp v) u); [|done].
    cbn [holds_at]. destruct (Z.leb_spec (pl_timestamp v) u); [|lia]. simpl.
    destruct (Z.leb_spec (pl_timestamp new) u); simpl.
    + destruct (holds_at vs2 u) as [w|] eqn:Ew; [done|]. simpl.
      destruct Hnacc as [[En ->]|[En _]]; [|by apply use_same].
      rewrite (use_none p i new En). symmetry. apply use_none, Hl. by rewrite last_snoc.
    + destruct (holds_at vs2 u) as [w|] eqn:Ew; [|done].
      apply in_time_mid in Ht as (_ & Ht2 & _). pose proof (holds_at_spec vs2 u Ht2) as Hw. rewrite Ew in Hw.
      destruct Hw as (Hw & Hwu & _). destruct Hnacc as [[_ ->]|(_ & _ & Hlater)]; [set_solver|]. specialize (Hlater w Hw). lia.
  - intros w Hw. set_solver.
  - intros w Hw. apply elem_of_app in Hw as [Hw|[->|[->|Hw]%elem_of_cons]%elem_of_cons];
      [right; exists w; set_solver|right; exists v; set_solver| |right; exists w; set_solver].
    destruct Hnacc as [[E _]|[E _]]; [by left|right; exists v; set_solver].
  - exists new. split; [set_solver|done].
Qed.

(** ** Adding a job *)

Lemma set_item_id {A} (h : heap A) x v : items h !! x = Some v -> set_item h x v = h.
Proof.
  intros (c & Hc & <-)%items_lookup. unfold set_item. apply map_eq. intros y.
  destruct (decide (x = y)) as [<-|]; [|by rewrite lookup_alter_ne]. rewrite lookup_alter_eq, Hc. by destruct c.
Qed.

Lemma map_acc_fmap {A S} (g : A -> A) (vs : list A) (s : S) : map_acc (fun v s => (g v, s)) vs s = (g <$> vs, s).
Proof. induction vs as [|v vs IH]; [done|]. rewrite fmap_cons. simpl. by rewrite IH. Qed.

Lemma in_time_fmap (f : plan_limit -> plan_limit) vs :
  (forall v, pl_timestamp (f v) = pl_timestamp v) -> in_time vs -> in_time (f <$> vs).
Proof.
  intros Hf. induction 1 as [|v vs Hs IH Hv]; [constructor|]. rewrite fmap_cons. constructor; [done|].
  apply Forall_fmap. eapply Forall_impl; [exact Hv|]. intros w. simpl. by rewrite !Hf.
Qed.

Lemma add_to_account_timestamp v r i m v' : add_to_account v r i m = Ret v' -> pl_timestamp v' = pl_timestamp v.
Proof.
  unfold add_to_account. destruct (account_at _ _); cbn [obind]; try done.
  destruct (cpus_at _ _); cbn [obind]; [|done..]. by intros [= <-].
Qed.

Lemma add_limit_timestamp limits_map v id walltime m cluster v' :
  add_limit_to_limit limits_map v id walltime m cluster = Ret v' -> pl_timestamp v' = pl_timestamp v.
Proof.
  unfold add_limit_to_limit. destruct (limit_find_account v id) as [r| |]; cbn [obind]; try done.
  destruct (r =? -1); [unfold limit_add_account|]; (destruct (walltime_suits_to_limit _ _ _); cbn [obind]; [|done..]);
    by intros ->%add_to_account_timestamp.
Qed.

Section AddJob.
Context (limits_map : gmap string (gmap Z cluster_limits_arrays)) (cluster : plan_cluster) (create : option plan_limit).
Context (job : plan_job) (fl : Z).
Let walltime := i64 (pj_completion_time job - pj_start_time job).
Let n := i32 (pj_req_ppn job * pj_req_num_nodes job).
Hypothesis Hruns : pj_start_time job < pj_completion_time job.
Hypothesis Hsuits : walltime_suits_to_limit limits_map (i32 walltime) cluster = Ret fl.
Hypothesis Hfl : 0 <= fl < NUM_LIMITS.

Definition runs_at (t : Z) : bool := (pj_start_time job <=? t) && (t <? pj_completion_time job).

(** What the last loop makes of a limit. *)
Definition with_job (v : plan_limit) : plan_limit :=
  if runs_at (pl_timestamp v) then
    match add_limit_to_limit limits_map v (pj_account_id job) walltime n cluster with Ret v' => v' | _ => v end
  else v.

Lemma with_job_spec v :
  limit_ok v -> roomy n fl v ->
  limit_ok (with_job v) /\ pl_timestamp (with_job v) = pl_timestamp v /\
  (runs_at (pl_timestamp v) = true ->
    add_limit_to_limit limits_map v (pj_account_id job) walltime n cluster = Ret (with_job v)) /\
  forall p i, 0 <= i -> use p i (with_job v) =
    use p i v + (if runs_at (pl_timestamp v) && (p (pj_account_id job) && (i =? fl)) then n else 0).
Proof.
  intros Hok Hroom. unfold with_job. destruct (runs_at (pl_timestamp v)); [|split_and!; try done; intros; simpl; lia].
  destruct (add_limit_to_limit_spec limits_map cluster (pj_account_id job) walltime n fl Hsuits Hfl v Hok Hroom)
    as (v' & -> & Hok' & Ht & Hu); [by apply wrap_s_range|]. by split_and!.
Qed.

Lemma add_loop_spec h l xs vs :
  values_are h l xs vs -> Forall limit_ok vs -> Forall (roomy n fl) vs ->
  exists h' l', for_each (add_job_step limits_map job cluster) h l tt = Ret (h', l', tt) /\
    values_are h' l' xs (with_job <$> vs).
Proof.
  intros H Hok Hroom.
  destruct (for_each_map (add_job_step limits_map job cluster) (fun v s => (with_job v, s)) xs vs h l tt)
    as (h' & l' & E & H' & _); [|done|rewrite map_acc_fmap in E, H'; by exists h', l'].
  intros x v h1 l1 [] _ Hv Hx. unfold add_job_step. rewrite (item_at_items h1 x v Hx). cbn [obind fst snd].
  eapply Forall_forall in Hok, Hroom; [|done..]. destruct (with_job_spec v Hok Hroom) as (_ & _ & Hadd & _).
  rewrite Z.geb_leb. fold (runs_at (pl_timestamp v)). destruct (runs_at (pl_timestamp v)) eqn:Er.
  - fold walltime n. rewrite Hadd by done. done.
  - rewrite set_item_id; [done|]. unfold with_job. by rewrite Er.
Qed.

Lemma with_job_timestamp v : pl_timestamp (with_job v) = pl_timestamp v.
Proof.
  unfold with_job. destruct (runs_at _); [|done].
  destruct (add_limit_to_limit _ _ _ _ _ _) as [v'| |] eqn:E; try done. by eapply add_limit_timestamp.
Qed.

(** With limits that begin when the job starts and when it ends. *)
Lemma with_job_uses vs :
  limits_ok vs -> Forall (roomy n fl) vs ->
  (exists v, v ∈ vs /\ pl_timestamp v = pj_start_time job) ->
  (exists v, v ∈ vs /\ pl_timestamp v = pj_completion_time job) ->
  limits_ok (with_job <$> vs) /\ forall p i t, 0 <= i ->
    use_at p i (with_job <$> vs) t = use_at p i vs t + (if runs_at t && (p (pj_account_id job) && (i =? fl)) then n else 0).
Proof.
  intros [Ht Hok Hl] Hroom (vs_ & Hs & Es) (vc & Hc & Ec).
  pose proof with_job_timestamp as Hts.
  split; [split|].
  - by apply in_time_fmap.
  - apply Forall_fmap, Forall_forall. intros v Hv. eapply Forall_forall in Hok, Hroom; [|done..].
    by apply with_job_spec.
  - intros v Hv. rewrite fmap_last in Hv. destruct (last vs) as [w|] eqn:El; [|done]. simplify_eq/=.
    assert (Hw : runs_at (pl_timestamp w) = false).
    { unfold runs_at. destruct (Z.ltb_spec (pl_timestamp w) (pj_completion_time job)); [|by rewrite andb_false_r].
      pose proof (last_Some_elem_of _ _ El) as Hin.
      destruct vs as [|u vs _] using rev_ind; [done|]. rewrite last_snoc in El. injection El as ->.
      apply elem_of_app in Hc as [Hc| ->%list_elem_of_singleton]; [|lia].
      apply in_time_mid in Ht as (_ & _ & Hlt & _). specialize (Hlt vc Hc). lia. }
    unfold with_job. rewrite Hw. by apply Hl.
  - intros p i t Hi. unfold use_at. rewrite holds_at_map by done. pose proof (holds_at_spec vs t Ht) as Hh.
    destruct (holds_at vs t) as [v|]; simpl.
    + destruct Hh as (Hv & Hvt & Hmax). eapply Forall_forall in Hok, Hroom; [|done..].
      destruct (with_job_spec v Hok Hroom) as (_ & _ & _ & Hu). rewrite Hu by done. do 2 f_equal.
      assert (Hr : runs_at (pl_timestamp v) = runs_at t); [|by rewrite Hr].
      unfold runs_at. pose proof (Hmax _ Hs) as H1. pose proof (Hmax _ Hc) as H2. rewrite Es in H1. rewrite Ec in H2.
      destruct (Z.leb_spec (pj_start_time job) t), (Z.leb_spec (pj_start_time job) (pl_timestamp v)),
        (Z.ltb_spec (pl_timestamp v) (pj_completion_time job)), (Z.ltb_spec t (pj_completion_time job)); simpl; lia || done.
    + specialize (Hh _ Hs). unfold runs_at. destruct (Z.leb_spec (pj_start_time job) t); [lia|done].
Qed.

(** *** The steps before the last loop *)

(** A step that refines the limits, by [k] items at most. *)
Definition refining (k : nat) (xs : list positive) (vs : list plan_limit)
    (r : outcome (heap plan_limit * plan_list)) (P : list plan_limit -> Prop) : Prop :=
  exists h' l' xs' vs', r = Ret (h', l') /\ values_are h' l' xs' vs' /\ limits_ok vs' /\ refined vs vs' /\
    (length xs' <= length xs + k)%nat /\ P vs'.

Lemma refining_none h l xs vs (P : list plan_limit -> Prop) k :
  values_are h l xs vs -> limits_ok vs -> P vs -> refining k xs vs (Ret (h, l)) P.
Proof. intros H Hok HP. exists h, l, xs, vs. split_and!; try done; [apply refined_refl|lia]. Qed.

Lemma some_limit h l xs vs :
  values_are h l xs vs -> limits_ok vs -> Z.of_nat (length xs) + 1 < 2 ^ 31 ->
  refining 1 xs vs (match last_item l with
    | None => let (h, c) := alloc h (limit_create (pj_completion_time job)) in
              let! (h, l, _) := list_add_end create h l (Some c) in Ret (h, l)
    | Some _ => Ret (h, l)
    end) (fun vs' => vs' <> []).
Proof.
  intros H Hok Hsmall. rewrite (ls_last _ _ _ (va_lists _ _ _ _ H)).
  destruct vs as [|v vs]; pose proof (values_length _ _ _ _ H) as Hlen; destruct xs as [|x xs]; try done.
  - destruct (add_last create h l [] [] (limit_create (pj_completion_time job)) H Hsmall) as (h' & l' & c & E & H').
    cbn [last]. destruct (alloc h _) as [h1 c1]. rewrite E. cbn [obind].
    exists h', l', [c], [limit_create (pj_completion_time job)]. split_and!; try done.
    + split; [by repeat constructor|by repeat constructor|by intros v [= <-]].
    + split; [intros p i t; unfold use_at; simpl; by destruct (_ <=? t)|set_solver|].
      intros w ->%list_elem_of_singleton. by left.
  - destruct (last (x :: xs)) eqn:E; [by apply refining_none|by apply last_None in E].
Qed.

Lemma begin_limit h l xs vs :
  values_are h l xs vs -> limits_ok vs -> vs <> [] -> Z.of_nat (length xs) + 1 < 2 ^ 31 ->
  refining 1 xs vs (let! f := of_option (first l) in
    let! limit := item_at h f in
    if pl_timestamp limit >? pj_start_time job then
      let (h, c) := alloc h (limit_create (pj_start_time job)) in
      let! (h, l, _) := list_add_begin create h l (Some c) in Ret (h, l)
    else Ret (h, l)) (fun vs' => exists v vs0, vs' = v :: vs0 /\ pl_timestamp v <= pj_start_time job).
Proof.
  intros H Hok Hne Hsmall. pose proof (values_length _ _ _ _ H) as Hlen.
  destruct vs as [|v vs]; [done|]. destruct xs as [|x xs]; [done|].
  rewrite (ls_first _ _ _ (va_lists _ _ _ _ H)). cbn [of_option obind head].
  destruct (values_at h l [] x xs [] v vs H eq_refl) as (_ & -> & _). cbn [obind].
  destruct (Z.gtb_spec (pl_timestamp v) (pj_start_time job)) as [Hgt|Hle].
  - destruct (add_first create h l _ _ (limit_create (pj_start_time job)) H Hsmall) as (h' & l' & c & E & H').
    destruct (alloc h _) as [h1 c1]. rewrite E. cbn [obind].
    destruct (first_refined (v :: vs) (pj_start_time job) Hok) as [Hok' Href]; [intros w vs0 [= <- _]; lia|].
    eexists h', l', _, _. split_and!; [done|done|done|done|simpl; lia|]. eexists _, _. split; [done|]. simpl. lia.
  - apply refining_none; [done|done|]. by exists v, vs.
Qed.

Definition has_time (t : Z) (vs : list plan_limit) : bool := existsb (fun v => pl_timestamp v =? t) vs.

Lemma has_time_iff t vs : has_time t vs = true <-> exists v, v ∈ vs /\ pl_timestamp v = t.
Proof.
  unfold has_time. rewrite existsb_exists. split; intros (v & Hv & Ht); exists v.
  - apply Z.eqb_eq in Ht. by rewrite list_elem_of_In.
  - rewrite <- list_elem_of_In. split; [done|by apply Z.eqb_eq].
Qed.

Lemma find_times_spec h l xs vs :
  values_are h l xs vs ->
  exists l', for_each (find_times_step (pj_start_time job) (pj_completion_time job)) h l (false, false)
    = Ret (h, l', (has_time (pj_start_time job) vs, has_time (pj_completion_time job) vs)) /\ values_are h l' xs vs.
Proof.
  intros H.
  pose proof (for_each_fold (find_times_step (pj_start_time job) (pj_completion_time job))
    (fun v _ found => Ret ((fst found || (pl_timestamp v =? pj_start_time job),
      snd found || (pl_timestamp v =? pj_completion_time job)), true)) xs vs h l (false, false)) as Hf.
  assert (E : forall vs b1 b2, fold_until (fun v _ found => Ret ((fst found || (pl_timestamp v =? pj_start_time job),
      snd found || (pl_timestamp v =? pj_completion_time job)), true)) vs (b1, b2)
    = Ret (b1 || has_time (pj_start_time job) vs, b2 || has_time (pj_completion_time job) vs)).
  { clear. induction vs as [|v vs IH]; intros b1 b2; [unfold has_time; simpl; by rewrite !orb_false_r|].
    cbn [fold_until obind fst snd]. rewrite IH. unfold has_time. simpl. by rewrite !orb_assoc. }
  rewrite E in Hf. apply Hf; [|done]. intros x v w l1 s _ Hx. unfold find_times_step.
  destruct (next_limit_value _ _ _ _ Hx) as [_ ->]. done.
Qed.

Lemma clone_time t h l xs vs v vs0 :
  values_are h l xs vs -> limits_ok vs -> vs = v :: vs0 -> pl_timestamp v <= t -> Z.of_nat (length xs) + 1 < 2 ^ 31 ->
  refining 1 xs vs (if has_time t vs then Ret (h, l) else clone_limit_timestamp create h l t)
    (fun vs' => (exists w, w ∈ vs' /\ pl_timestamp w = t) /\ (forall w, w ∈ vs' -> pl_timestamp w = t \/ w ∈ vs) /\
      exists w vs0, vs' = w :: vs0 /\ pl_timestamp w <= pl_timestamp v).
Proof.
  intros H Hok Ev Hle Hsmall. destruct (has_time t vs) eqn:Et.
  - apply refining_none; [done|done|]. split; [by apply has_time_iff|]. split; [by right|]. by exists v, vs0.
  - assert (Hne : forall w, w ∈ vs -> pl_timestamp w <> t).
    { intros w Hw Heq. rewrite <- not_true_iff_false, has_time_iff in Et. apply Et. eauto. }
    destruct (clone_limit_timestamp_spec create t h l xs vs v vs0 H Ev Hsmall) as (h' & l' & xs' & vs' & E & H' & Hc & Hl').
    { assert (pl_timestamp v <> t) by (apply Hne; rewrite Ev; by left). lia. }
    { done. }
    destruct (cloned_refined t vs vs' Hok Hc) as (Hok' & Href & Hw).
    exists h', l', xs', vs'. split_and!; try done; [lia|by apply cloned_from|].
    destruct Hc as (vs1 & u & vs2 & new & -> & -> & _). destruct vs1; simpl in Ev; simplify_eq; eexists _, _; by split.
Qed.

Lemma refined_roomy vs vs' : refined vs vs' -> Forall (roomy n fl) vs -> Forall (roomy n fl) vs'.
Proof.
  intros [_ _ Hfrom] Hroom. rewrite Forall_forall in Hroom. apply Forall_forall. intros w Hw. unfold roomy.
  destruct (Hfrom w Hw) as [->|(v & Hv & ->)]; [split; [done|set_solver]|by apply Hroom].
Qed.

Lemma add_job_to_limits_spec h l xs vs :
  values_are h l xs vs -> limits_ok vs -> Forall (roomy n fl) vs -> Z.of_nat (length xs) + 5 < 2 ^ 31 ->
  exists h' l' xs' vs', add_job_to_limits limits_map create h l job cluster = Ret (h', l') /\
    values_are h' l' xs' vs' /\ limits_ok vs' /\ forall p i t, 0 <= i ->
      use_at p i vs' t = use_at p i vs t + (if runs_at t && (p (pj_account_id job) && (i =? fl)) then n else 0).
Proof.
  intros H Hok Hroom Hsmall. unfold add_job_to_limits.
  destruct (some_limit h l xs vs H Hok) as (h1 & l1 & xs1 & vs1 & -> & H1 & Hok1 & Hr1 & Hl1 & Hne1); [lia|]. cbn [obind].
  destruct (begin_limit h1 l1 xs1 vs1 H1 Hok1 Hne1) as (h2 & l2 & xs2 & vs2 & E2 & H2 & Hok2 & Hr2 & Hl2 & v2 & vs2' & Ev2 & Ht2); [lia|].
  destruct (of_option (first l1)) as [f| |]; cbn [obind] in E2 |- *; try done.
  destruct (item_at h1 f) as [lf| |]; cbn [obind] in E2 |- *; try done. rewrite E2. cbn [obind]. clear E2.
  destruct (find_times_spec h2 l2 xs2 vs2 H2) as (l3 & -> & H3). cbn [obind fst snd].
  destruct (clone_time (pj_start_time job) h2 l3 xs2 vs2 v2 vs2' H3 Hok2 Ev2 Ht2)
    as (h4 & l4 & xs4 & vs4 & -> & H4 & Hok4 & Hr4 & Hl4 & Hs4 & Hf4 & v4 & vs4' & Ev4 & Ht4); [lia|]. cbn [obind].
  assert (Hc : exists h5 l5 xs5 vs5, (if has_time (pj_completion_time job) vs2 then Ret (h4, l4)
      else clone_limit_timestamp create h4 l4 (pj_completion_time job)) = Ret (h5, l5) /\ values_are h5 l5 xs5 vs5 /\
    limits_ok vs5 /\ refined vs4 vs5 /\ exists w, w ∈ vs5 /\ pl_timestamp w = pj_completion_time job).
  { destruct (has_time (pj_completion_time job) vs2) eqn:Ec.
    - apply has_time_iff in Ec as (w & Hw & Ew). exists h4, l4, xs4, vs4. split_and!; try done; [apply refined_refl|].
      exists w. split; [by apply Hr4|done].
    - destruct (has_time (pj_completion_time job) vs4) eqn:Ec4.
      + (* only the limit that begins with the job is new *)
        rewrite <- not_true_iff_false in Ec. destruct Ec. apply has_time_iff in Ec4 as (w & Hw & Ew). apply has_time_iff.
        exists w. split; [|done]. destruct (Hf4 w Hw); [lia|done].
      + destruct (clone_time (pj_completion_time job) h4 l4 xs4 vs4 v4 vs4' H4 Hok4 Ev4)
          as (h5 & l5 & xs5 & vs5 & E5 & H5 & Hok5 & Hr5 & Hl5 & Hc5 & _ & _); [lia|lia|].
        rewrite Ec4 in E5. exists h5, l5, xs5, vs5. by split_and!. }
  destruct Hc as (h5 & l5 & xs5 & vs5 & -> & H5 & Hok5 & Hr5 & Hc5). cbn [obind].
  assert (Hr : refined vs vs5) by (do 3 (eapply refined_trans; [done|]); done).
  pose proof (refined_roomy _ _ Hr Hroom) as Hroom5.
  destruct (add_loop_spec h5 l5 xs5 vs5 H5 (lk_ok _ Hok5) Hroom5) as (h6 & l6 & -> & H6). cbn [obind].
  destruct (with_job_uses vs5 Hok5 Hroom5) as [Hok6 Huse]; [|done|].
  { destruct Hs4 as (w & Hw & Ew). exists w. split; [by apply Hr5|done]. }
  exists h6, l6, xs5, (with_job <$> vs5). split_and!; try done. intros p i t Hi. by rewrite Huse, (rf_use _ _ Hr).
Qed.
End AddJob.
