(* ===== verification/PlanLimitsChecks.v ===== *)
(** * The properties of the limits

    The limits of a cluster are looked up exactly; the search for an account is
    exact on ordered accounts, and accounts stay ordered unless a new one belongs
    in front of the first; adding a job adds its use while it runs; a gap is
    accepted only with room for the job at every moment of it. *)

From Stdlib Require Import ZArith Lia Bool Ascii String SpecFloat.
From stdpp Require Import sorting.
From S2P Require Import Prelude CString CFloat MiscHelpers Config DataTypes JobInfo PlanData PlanList PlanValues PlanLimits PlanLimitsSpec.

Open Scope Z_scope.
Local Open Scope sched_scope.

(** ** The limits of a cluster *)

(** The limits of a cluster are those configured for the largest number of
    processors that is not above the running ones, of the cluster itself or of
    the default when the cluster is not configured; the pointer is read
    uninitialised exactly when every configured number is larger, or when there
    is no default to fall back to. *)
Theorem limits_of_cluster_exact limits_map cluster running :
  let table := match limits_map !! default ""%string cluster with
               | Some a => Some a
               | None => limits_map !! ""%string
               end in
  match find_limits_for_cluster limits_map cluster running with
  | Ret v => exists m k, table = Some m /\ m !! k = Some v /\ k <= running /\
      forall k', is_Some (m !! k') -> k' <= running -> k' <= k
  | UB => forall m k, table = Some m -> is_Some (m !! k) -> running < k
  | Throw _ => False
  end.
Proof.
  intros table. unfold find_limits_for_cluster.
  replace (match limits_map !! default ""%string cluster with Some a => Ret a | None => of_option (limits_map !! ""%string) end)
    with (of_option table) by (unfold table; by destruct (limits_map !! default ""%string cluster)).
  clearbody table. destruct table as [m|]; cbn [of_option obind]; [|done].
  pose proof (best_limit_spec running m) as H. destruct (map_fold (best_limit running) None m) as [[k v]|]; simpl.
  - destruct H as (H1 & H2 & H3). by exists m, k.
  - intros m' k [= <-]. apply H.
Qed.

(** ** Finding accounts *)

(** C30: the binary search for an account ends within the number of accounts and
    stays within the array: on accounts in the order of their identifiers it
    answers the position of the account, and -1 when there is none. *)
Theorem find_account_exact limit id
    (Hok : limit_ok limit) (Hsmall : Z.of_nat (length (pl_accounts limit)) < 2 ^ 30)
    (Hsorted : sorted_accounts (pl_accounts limit)) :
  exists r, limit_find_account limit id = Ret r /\
    forall i, found_at (pl_accounts limit) id i <-> r = i /\ r <> -1.
Proof.
  destruct (limit_find_account_spec limit id Hok Hsmall) as (r & E & Hr & Hc). exists r. split; [done|].
  intros i. split.
  - intros Hi. pose proof (Hc Hsorted i Hi) as ->. split; [done|]. destruct Hi. lia.
  - intros [-> Hne]. by destruct Hr.
Qed.

Definition account_with (id cpus : Z) : plan_limit_account := mkAccount id (replicate 8 cpus).

Lemma find_account_exact_witness :
  limit_find_account (mkPlanLimit 5 [account_with 1 3; account_with 4 0; account_with 9 2] 3 10) 9 = Ret 2 /\
  exists r, limit_find_account (mkPlanLimit 5 [account_with 1 3; account_with 4 0; account_with 9 2] 3 10) 9 = Ret r /\
    forall i, found_at [account_with 1 3; account_with 4 0; account_with 9 2] 9 i <-> r = i /\ r <> -1.
Proof.
  split; [reflexivity|].
  apply (find_account_exact (mkPlanLimit 5 [account_with 1 3; account_with 4 0; account_with 9 2] 3 10) 9).
  - split; [reflexivity|]. repeat constructor.
  - simpl. lia.
  - unfold sorted_accounts. simpl. repeat constructor; simpl; lia.
Defined.

Lemma new_position_after n accounts id :
  (forall i a, (new_position n accounts id <= i < n)%nat -> accounts !! i = Some a -> id < la_account_id a) /\
  ((0 < n)%nat -> (1 <= new_position n accounts id)%nat) /\
  forall i a, S i = new_position n accounts id -> (1 <= i)%nat -> accounts !! i = Some a -> la_account_id a <= id.
Proof.
  induction n as [|[|n] IH]; [split_and!; intros; simpl in *; lia..|].
  change (new_position (S (S n)) accounts id) with
    (match accounts !! S n with
     | Some a => if la_account_id a >? id then new_position (S n) accounts id else S (S n)
     | None => S (S n) end).
  destruct (accounts !! S n) as [b|] eqn:Eb; [destruct (Z.gtb_spec (la_account_id b) id)|].
  - destruct IH as (IH1 & IH2 & IH3). split_and!; [|intros; apply IH2; lia|done].
    intros i a [Hi Hi'] Ha. destruct (decide (i = S n)) as [->|]; [simplify_eq; lia|]. eapply IH1; [|done]. lia.
  - split_and!; [intros; lia|lia|]. intros i a [= ->] _ Ha. simplify_eq. lia.
  - split_and!; [intros; lia|lia|]. intros i a [= ->] _ Ha. congruence.
Qed.

Lemma sorted_accounts_mid xs a ys :
  sorted_accounts (xs ++ a :: ys) <->
  sorted_accounts xs /\ sorted_accounts ys /\ (forall b, b ∈ xs -> la_account_id b < la_account_id a) /\
  (forall b, b ∈ ys -> la_account_id a < la_account_id b) /\ (forall b c, b ∈ xs -> c ∈ ys -> la_account_id b < la_account_id c).
Proof.
  unfold sorted_accounts. rewrite StronglySorted_app. split.
  - intros (H & H1 & [H2 Hv]%StronglySorted_inv). rewrite Forall_forall in Hv. split_and!; try done.
    + intros w Hw. apply H; [done|by left].
    + intros b c Hb Hc. apply H; [done|by right].
  - intros (H1 & H2 & H3 & H4 & H5). split_and!; [|done|constructor; [done|by apply Forall_forall]].
    intros b c Hb [->|Hc]%elem_of_cons; auto.
Qed.

(** Behind the first account, a new one is put at its place. *)
Lemma add_account_sorted limit id :
  sorted_accounts (pl_accounts limit) -> (forall a, a ∈ pl_accounts limit -> la_account_id a <> id) ->
  (forall a, head (pl_accounts limit) = Some a -> la_account_id a < id) ->
  sorted_accounts (pl_accounts (limit_add_account limit id).1).
Proof.
  intros Hs Hne Hhead. unfold limit_add_account. cbn [fst pl_accounts]. set (as_ := pl_accounts limit) in *.
  destruct (new_position_after (length as_) as_ id) as (Hafter & Hpos & Hbefore).
  pose proof (new_position_le (length as_) as_ id) as Hle. set (p := new_position (length as_) as_ id) in *. clearbody p.
  pose proof Hs as Hs'. unfold sorted_accounts in Hs'. rewrite <- (take_drop p as_) in Hs'.
  apply StronglySorted_app in Hs' as (Hcross & Ht & Hd). apply sorted_accounts_mid. split_and!; try done.
  - intros b Hb. simpl. destruct as_ as [|f rest] eqn:Ea; [by rewrite take_nil in Hb; apply elem_of_nil in Hb|].
    simpl in Hle, Hpos. destruct p as [|i]; [lia|]. apply list_elem_of_lookup_1 in Hb as [j Hj].
    apply lookup_take_Some in Hj as [Hj Hji]. specialize (Hhead f eq_refl).
    destruct (decide (i = 0)%nat) as [->|Hi]; [assert (j = 0)%nat as -> by lia; simpl in Hj; by simplify_eq|].
    destruct (lookup_lt_is_Some_2 (f :: rest) i) as [c Hc]; [simpl; lia|].
    assert (Hc' : la_account_id c <= id) by (eapply (Hbefore i); [done|lia|done]).
    assert (Hcid : la_account_id c <> id) by (apply Hne; by eapply list_elem_of_lookup_2).
    destruct (decide (j = i)) as [->|Hji']; [simplify_eq; lia|].
    pose proof (sorted_lookup_lt (f :: rest) j i b c Hs Hj Hc). lia.
  - intros b Hb. simpl. apply list_elem_of_lookup_1 in Hb as [j Hj]. rewrite lookup_drop in Hj.
    apply (Hafter (p + j)%nat); [|done]. apply lookup_lt_Some in Hj. lia.
Qed.

(** C29: a new account keeps the accounts in order, and is found again at its
    place, unless it belongs in front of the first one: then it is put behind
    it, and the search never finds it, so that the limit of its user is not
    checked against what he already uses. *)
Theorem new_account_found_unless_first limit id
    (Hok : limit_ok limit) (Hsmall : Z.of_nat (length (pl_accounts limit)) + 1 < 2 ^ 30)
    (Hsorted : sorted_accounts (pl_accounts limit)) (Hnew : forall a, a ∈ pl_accounts limit -> la_account_id a <> id) :
  let (limit', r) := limit_add_account limit id in
  found_at (pl_accounts limit') id r /\
  if match head (pl_accounts limit) with Some f => id <? la_account_id f | None => false end
  then limit_find_account limit' id = Ret (-1)
  else sorted_accounts (pl_accounts limit') /\ limit_find_account limit' id = Ret r.
Proof.
  pose proof (limit_add_account_spec limit Hok id) as Hadd.
  pose proof (add_account_sorted limit id Hsorted Hnew) as Hsort.
  destruct (new_position_after (length (pl_accounts limit)) (pl_accounts limit) id) as (_ & Hpos & _).
  unfold limit_add_account in *. cbn [fst pl_accounts] in *.
  destruct Hadd as (Hok' & Hf & _ & _ & Hlen & _); [lia|]. set (p := new_position _ _ _) in *. clearbody p.
  split; [done|]. destruct (head (pl_accounts limit)) as [f|] eqn:Ef.
  - destruct (Z.ltb_spec id (la_account_id f)) as [Hlt|Hge].
    + destruct (pl_accounts limit) as [|f' as_] eqn:Ea; simplify_eq/=. destruct p as [|p]; [lia|]. cbn [take].
      unfold limit_find_account. cbn [pl_accounts pl_num_accounts app].
      destruct (_ =? 0); [done|]. cbn [head]. destruct (last (f :: _)) as [z|] eqn:Ez; [|by apply last_None in Ez].
      cbn [of_option obind]. destruct (Z.ltb_spec id (la_account_id f)); [done|lia].
    + assert (Hin : f ∈ pl_accounts limit) by (by apply head_Some_elem_of).
      specialize (Hnew f Hin). assert (Hs : sorted_accounts (take p (pl_accounts limit) ++ new_account id :: drop p (pl_accounts limit)))
        by (apply Hsort; intros a [= <-]; lia).
      split; [done|]. destruct (limit_find_account_spec _ id Hok') as (r & -> & _ & Hc); [simpl; rewrite Hlen; lia|].
      by rewrite (Hc Hs _ Hf).
  - assert (Hs : sorted_accounts (take p (pl_accounts limit) ++ new_account id :: drop p (pl_accounts limit)))
      by (by apply Hsort).
    split; [done|]. destruct (limit_find_account_spec _ id Hok') as (r & -> & _ & Hc); [simpl; rewrite Hlen; lia|].
    by rewrite (Hc Hs _ Hf).
Qed.

(** The account 2 in front of the account 3 is lost. *)
Lemma new_account_found_unless_first_witness :
  let limit := mkPlanLimit 5 [account_with 3 1; account_with 7 1] 2 10 in
  let (limit', r) := limit_add_account limit 2 in
  r = 1 /\ found_at (pl_accounts limit') 2 r /\ limit_find_account limit' 2 = Ret (-1).
Proof.
  split; [reflexivity|].
  apply (new_account_found_unless_first (mkPlanLimit 5 [account_with 3 1; account_with 7 1] 2 10) 2).
  - split; [reflexivity|]. repeat constructor.
  - simpl. lia.
  - unfold sorted_accounts. simpl. repeat constructor; simpl; lia.
  - intros a Ha. simpl in Ha. set_unfold. destruct Ha as [->|[->|[]]]; simpl; lia.
Defined.

(** ** The gap check *)

(** A walk that reads each item and the one behind it. *)
Lemma walk_with_next {S} (f : plan_limit -> option plan_limit -> S -> outcome (S * bool)) h l xs vs s :
  values_are h l xs vs ->
  match fold_until f vs s with
  | Ret s' => exists l', for_each (fun x h l s =>
        let! v := item_at h x in let! w := next_limit h x in
        let! (s, go) := f v w s in Ret (h, l, s, go)) h l s = Ret (h, l', s') /\ values_are h l' xs vs
  | Throw w => for_each (fun x h l s =>
        let! v := item_at h x in let! w := next_limit h x in
        let! (s, go) := f v w s in Ret (h, l, s, go)) h l s = Throw w
  | UB => for_each (fun x h l s =>
        let! v := item_at h x in let! w := next_limit h x in
        let! (s, go) := f v w s in Ret (h, l, s, go)) h l s = UB
  end.
Proof.
  intros H. apply (for_each_fold _ f xs vs h l s); [|done].
  intros x v w l1 s1 _ Hx. destruct (next_limit_value _ _ _ _ Hx) as [-> ->]. done.
Qed.

Section Moments.
Context (gap : plan_gap).

(** The limit that holds at a moment of the gap overlaps the gap, or is the last. *)
Lemma holds_at_split vs t v :
  in_time vs -> holds_at vs t = Some v ->
  exists vs1 vs2, vs = vs1 ++ v :: vs2 /\ pl_timestamp v <= t /\ match head vs2 with Some w => t < pl_timestamp w | None => True end.
Proof.
  intros Hs Hv. pose proof (holds_at_spec vs t Hs) as H. rewrite Hv in H. destruct H as (Hin & Ht & Hmax).
  apply list_elem_of_split in Hin as (vs1 & vs2 & ->). exists vs1, vs2. split_and!; [done|done|].
  destruct vs2 as [|w vs2]; [done|]. simpl. apply in_time_mid in Hs as (_ & _ & _ & Hw).
  specialize (Hw w ltac:(by left)). destruct (Z.le_gt_cases (pl_timestamp w) t) as [Hle|]; [|lia].
  specialize (Hmax w ltac:(set_solver) Hle). lia.
Qed.

Lemma holds_at_mid vs1 v vs2 t :
  in_time (vs1 ++ v :: vs2) -> pl_timestamp v <= t -> match head vs2 with Some w => t < pl_timestamp w | None => True end ->
  holds_at (vs1 ++ v :: vs2) t = Some v.
Proof.
  intros Hs Ht Hw. rewrite holds_at_app by done. destruct (Z.leb_spec (pl_timestamp v) t); [|lia]. cbn [holds_at].
  destruct (Z.leb_spec (pl_timestamp v) t); [|lia]. destruct vs2 as [|w vs2]; [done|]. simpl in *.
  by destruct (Z.leb_spec (pl_timestamp w) t); [lia|].
Qed.

(** The limit the check looks at for a moment of the gap: the one that holds then,
    unless it began before the gap and no other follows. *)
Definition checked_limit (vs : list plan_limit) (t : Z) : option plan_limit :=
  match holds_at vs t with
  | Some v =>
      if (pg_start_time gap <=? pl_timestamp v) || existsb (fun w => pl_timestamp v <? pl_timestamp w) vs then Some v else None
  | None => None
  end.

Lemma overlapping_holds vs1 v vs2 :
  in_time (vs1 ++ v :: vs2) -> pg_start_time gap < pg_end_time gap -> overlaps_gap v (head vs2) gap = true ->
  exists t, pg_start_time gap <= t < pg_end_time gap /\ checked_limit (vs1 ++ v :: vs2) t = Some v.
Proof.
  intros Hs Hg Ho. unfold overlaps_gap in Ho. apply orb_true_iff in Ho as [Ho|Ho].
  - to_props. exists (pl_timestamp v). split; [lia|]. unfold checked_limit. rewrite holds_at_mid; [|done|lia|].
    + by rewrite (proj2 (Z.leb_le _ _)) by lia.
    + apply in_time_mid in Hs as (_ & _ & _ & Hlater). destruct vs2 as [|w vs2]; [done|]. simpl. apply Hlater. by left.
  - destruct (head vs2) as [w|] eqn:Ew; [|done]. to_props. exists (pg_start_time gap). split; [lia|].
    unfold checked_limit. rewrite holds_at_mid; [|done|lia|rewrite Ew; lia].
    assert (E : existsb (fun w => pl_timestamp v <? pl_timestamp w) (vs1 ++ v :: vs2) = true); [|by rewrite E, orb_true_r].
    apply existsb_exists. exists w. split; [|apply Z.ltb_lt; lia].
    apply in_or_app. right. right. destruct vs2; [done|]. injection Ew as ->. by left.
Qed.

Lemma checked_overlaps vs t v :
  in_time vs -> pg_start_time gap <= t < pg_end_time gap -> checked_limit vs t = Some v ->
  exists vs1 vs2, vs = vs1 ++ v :: vs2 /\ overlaps_gap v (head vs2) gap = true.
Proof.
  intros Hs Ht Hv. unfold checked_limit in Hv. destruct (holds_at vs t) as [v'|] eqn:Eh; [|done].
  destruct (_ || _) eqn:Ec; [|done]. injection Hv as ->.
  destruct (holds_at_split vs t v Hs Eh) as (vs1 & vs2 & -> & Hvt & Hw). exists vs1, vs2. split; [done|].
  unfold overlaps_gap. apply orb_true_iff.
  destruct (Z.le_gt_cases (pg_start_time gap) (pl_timestamp v)) as [Hle|Hgt].
  - left. rewrite Z.geb_leb. apply andb_true_iff. split; [by apply Z.leb_le|apply Z.ltb_lt; lia].
  - right. apply orb_true_iff in Ec as [Ec%Z.leb_le|Ec]; [lia|]. apply existsb_exists in Ec as (w & Hin%list_elem_of_In & Hlt%Z.ltb_lt).
    apply in_time_mid in Hs as (_ & _ & Hbefore & _).
    destruct vs2 as [|u vs2]; simpl in *.
    + apply elem_of_app in Hin as [Hin|Hin]; [specialize (Hbefore w Hin); lia|]. apply list_elem_of_singleton in Hin as ->. lia.
    + rewrite Z.gtb_ltb. apply andb_true_iff. rewrite !Z.ltb_lt. lia.
Qed.

Lemma checked_holds vs t v : in_time vs -> checked_limit vs t = Some v -> holds_at vs t = Some v /\ v ∈ vs.
Proof.
  intros Hs Hv. unfold checked_limit in Hv. destruct (holds_at vs t) as [v'|] eqn:Eh; [|done].
  destruct (_ || _); [|done]. injection Hv as ->. split; [done|].
  destruct (holds_at_split vs t v Hs Eh) as (vs1 & vs2 & -> & _). set_solver.
Qed.

(** Nothing is used at a moment that is not looked at. *)
Lemma unchecked_idle p i vs t : limits_ok vs -> checked_limit vs t = None -> use_at p i vs t = 0.
Proof.
  intros [Hs _ Hl] Hv. unfold checked_limit in Hv. unfold use_at. destruct (holds_at vs t) as [v|] eqn:Eh; [|done].
  destruct (_ || _) eqn:Ec; [done|]. apply orb_false_iff in Ec as [_ Ec]. apply use_none.
  destruct (holds_at_split vs t v Hs Eh) as (vs1 & vs2 & -> & _ & _). apply in_time_mid in Hs as (_ & _ & _ & Hlater).
  destruct vs2 as [|w vs2]; [apply Hl; by rewrite last_snoc|]. exfalso.
  assert (existsb (fun w => pl_timestamp v <? pl_timestamp w) (vs1 ++ v :: w :: vs2) = true) by
    (apply existsb_exists; exists w; split; [apply in_or_app; right; right; by left|apply Z.ltb_lt, Hlater; by left]). congruence.
Qed.
End Moments.

Section GapCheck.
Context (id n fl : Z) (gap : plan_gap) (values values_global : list Z) (user_max global_max : Z).
Hypothesis Hfl : 0 <= fl < NUM_LIMITS.
Hypothesis Huser : values !! Z.to_nat fl = Some user_max.
Hypothesis Hglobal : values_global !! Z.to_nat fl = Some global_max.
Hypothesis Hn : 0 <= n.
Hypothesis Hfirst : n <= user_max.

Abbreviation all := (fun _ : Z => true).
Abbreviation mine := (Z.eqb id).

(** What is used is not negative, and one more job still fits an [int]. *)
Record countable (v : plan_limit) : Prop := {
  ct_ok : limit_ok v;
  ct_small : Z.of_nat (length (pl_accounts v)) < 2 ^ 30;
  ct_pos : forall a, a ∈ pl_accounts v -> 0 <= cpus_for a fl;
  ct_room : use all fl v + n < 2 ^ 31
}.

Lemma sum_nonneg (f : plan_limit_account -> Z) l : (forall a, a ∈ l -> 0 <= f a) -> 0 <= foldr Z.add 0 (f <$> l).
Proof.
  induction l as [|a l IH]; intros H; [done|]. rewrite fmap_cons. cbn [foldr].
  specialize (IH ltac:(intros; apply H; by right)). specialize (H a ltac:(by left)). lia.
Qed.

Lemma sum_member (f : plan_limit_account -> Z) l a :
  (forall a, a ∈ l -> 0 <= f a) -> a ∈ l -> f a <= foldr Z.add 0 (f <$> l).
Proof.
  intros H (l1 & l2 & ->)%list_elem_of_split. rewrite sum_app, fmap_cons. cbn [foldr].
  pose proof (sum_nonneg f l1 ltac:(intros; apply H; set_solver)).
  pose proof (sum_nonneg f l2 ltac:(intros; apply H; set_solver)). lia.
Qed.

Lemma sum_limits_spec v : countable v -> sum_limits_of_limit v fl = Ret (use all fl v).
Proof.
  intros [[_ Harr] _ Hpos Hroom]. unfold sum_limits_of_limit, use in *.
  assert (H : forall l s, 0 <= s -> (forall a, a ∈ l -> 0 <= cpus_for a fl) ->
    Forall (fun a => Z.of_nat (length (la_num_cpus a)) = NUM_LIMITS) l ->
    s + foldr Z.add 0 ((fun a => if true then cpus_for a fl else 0) <$> l) < 2 ^ 31 ->
    ofold (fun sum a => let! n := cpus_at a fl in Ret (i32 (sum + n))) l s
      = Ret (s + foldr Z.add 0 ((fun a => if true then cpus_for a fl else 0) <$> l))).
  { clear - Hfl. induction l as [|a l IH]; intros s Hs Hpos Harr Hroom; [simpl; f_equal; lia|].
    apply Forall_cons in Harr as [Ha Harr]. rewrite fmap_cons in *. cbn [foldr] in *.
    pose proof (Hpos a ltac:(by left)) as Hpa.
    pose proof (sum_nonneg (fun a => if true then cpus_for a fl else 0) l ltac:(intros; apply Hpos; by right)).
    cbn [ofold]. rewrite cpus_at_ok by done. cbn [obind]. rewrite i32_id by in_range.
    rewrite IH; [f_equal; lia|lia|intros; apply Hpos; by right|done|lia]. }
  rewrite H by (done || lia). f_equal.
Qed.

Lemma use_of_account v r a :
  sorted_accounts (pl_accounts v) -> pl_accounts v !! r = Some a -> la_account_id a = id ->
  use mine fl v = cpus_for a fl.
Proof.
  intros Hs Ha Hid. unfold use. rewrite <- (take_drop_middle _ _ _ Ha), sum_app. rewrite fmap_cons. cbn [foldr].
  rewrite Hid, Z.eqb_refl.
  assert (H0 : forall l, (forall b, b ∈ l -> la_account_id b <> id) ->
    foldr Z.add 0 ((fun a => if id =? la_account_id a then cpus_for a fl else 0) <$> l) = 0).
  { induction l as [|b l IH]; intros H; [done|]. rewrite fmap_cons. cbn [foldr]. rewrite IH by (intros; apply H; by right).
    specialize (H b ltac:(by left)). by destruct (Z.eqb_spec id (la_account_id b)). }
  rewrite !H0; [lia|..]; intros b Hb; apply list_elem_of_lookup_1 in Hb as [j Hj].
  - rewrite lookup_drop in Hj. pose proof (sorted_lookup_lt _ r (S r + j) a b Hs Ha Hj). lia.
  - apply lookup_take_Some in Hj as [Hj Hlt]. pose proof (sorted_lookup_lt _ j r b a Hs Hj Ha). lia.
Qed.

Lemma use_of_nobody v : ~ (exists i, found_at (pl_accounts v) id i) -> use mine fl v = 0.
Proof.
  intros H. unfold use. assert (Ha : forall a, a ∈ pl_accounts v -> la_account_id a <> id).
  { intros a [i Hi]%list_elem_of_lookup_1 Hid. apply H. exists (Z.of_nat i). split; [lia|]. exists a. by rewrite Nat2Z.id. }
  induction (pl_accounts v) as [|a l IH]; [done|]. rewrite fmap_cons. cbn [foldr].
  rewrite IH; [|intros (i & Hi & b & Hb & Hbid); apply (Ha b); [right; by eapply list_elem_of_lookup_2|done]|intros; apply Ha; by right].
  specialize (Ha a ltac:(by left)). by destruct (Z.eqb_spec id (la_account_id a)).
Qed.

(** What the account of the job uses, as far as the search finds it. *)
Definition found_use (v : plan_limit) : Z :=
  match limit_find_account v id with
  | Ret r => if r =? -1 then 0 else from_option (fun a => cpus_for a fl) 0 (pl_accounts v !! Z.to_nat r)
  | _ => 0
  end.

(** There is room for the job beside what a limit uses. *)
Definition room_in (v : plan_limit) : Prop := use all fl v + n <= global_max /\ found_use v + n <= user_max.

Lemma found_use_sorted v : countable v -> sorted_accounts (pl_accounts v) -> found_use v = use mine fl v.
Proof.
  intros Hv Hs. pose proof Hv as [Hok Hsmall _ _]. unfold found_use.
  destruct (limit_find_account_spec v id Hok Hsmall) as (r & -> & Hr & Hc). destruct (Z.eqb_spec r (-1)) as [->|Hne].
  - symmetry. apply use_of_nobody. intros [i Hi]. pose proof (Hc Hs i Hi). subst i. destruct Hi. lia.
  - destruct Hr as [|(Hr0 & a & Ha & Hid)]; [done|]. rewrite Ha. symmetry. by apply (use_of_account v (Z.to_nat r) a).
Qed.

Lemma gap_ok_step_spec v w :
  countable v ->
  exists go, gap_ok_step values values_global id n fl gap v w true = Ret (go, go) /\
    (go = true <-> (overlaps_gap v w gap = true -> room_in v)).
Proof.
  intros Hv. unfold gap_ok_step, value_at. destruct (Z.ltb_spec fl 0); [lia|]. rewrite Huser, Hglobal. cbn [of_option obind].
  pose proof (sum_limits_spec v Hv) as Hsum. pose proof Hv as [Hok Hsmall Hpos Hroom].
  assert (0 <= use all fl v) by (apply sum_nonneg; done).
  destruct (limit_find_account_spec v id Hok Hsmall) as (r & Er & Hr & Hc). unfold room_in, found_use. rewrite Er.
  destruct (overlaps_gap v w gap); cbn [obind negb].
  2:{ cbn [obind]. rewrite andb_false_r. by exists true. }
  rewrite Hsum. cbn [obind]. rewrite i32_id by in_range.
  destruct (Z.ltb_spec global_max (use all fl v + n)) as [Hover|Hfree]; cbn [negb obind].
  { exists false. split; [done|]. split; [done|]. intros H'. destruct (H' eq_refl). lia. }
  rewrite andb_true_r. destruct (Z.eqb_spec r (-1)) as [->|Hne]; cbn [negb].
  { exists true. split; [done|]. split; [|done]. intros _ _. lia. }
  destruct Hr as [|(Hr0 & a & Ha & Hid)]; [done|]. unfold account_at. destruct (Z.ltb_spec r 0); [lia|].
  rewrite Ha. cbn [of_option obind from_option]. rewrite cpus_at_ok; [|apply (proj1 (Forall_forall _ _) (lo_arrays v Hok)); by eapply list_elem_of_lookup_2|done].
  cbn [obind]. pose proof (Hpos a ltac:(by eapply list_elem_of_lookup_2)).
  assert (cpus_for a fl <= use all fl v) by (apply (sum_member (fun a => cpus_for a fl)); [done|by eapply list_elem_of_lookup_2]).
  rewrite i32_id by in_range. destruct (Z.ltb_spec user_max (cpus_for a fl + n)).
  - exists false. split; [done|]. split; [done|]. intros H'. destruct (H' eq_refl). lia.
  - exists true. split; [done|]. split; [|done]. intros _ _. lia.
Qed.

(** The walk accepts exactly when every limit that overlaps the gap has room. *)
Lemma gap_walk_spec vs :
  Forall countable vs ->
  exists b, fold_until (gap_ok_step values values_global id n fl gap) vs true = Ret b /\
    (b = true <-> forall vs1 v vs2, vs = vs1 ++ v :: vs2 -> overlaps_gap v (head vs2) gap = true -> room_in v).
Proof.
  induction vs as [|v vs IH]; intros Hall; cbn [fold_until].
  - exists true. split; [done|]. split; [|done]. by intros _ [] ? ?.
  - apply Forall_cons in Hall as [Hv Hall]. destruct (gap_ok_step_spec v (head vs) Hv) as (go & -> & Hgo). cbn [obind].
    destruct go.
    + destruct (IH Hall) as (b & -> & Hb). exists b. split; [done|]. rewrite Hb. split.
      * intros H [|u vs1] v' vs2 [= <- ->] Ho; [by apply Hgo|by eapply H].
      * intros H vs1 v' vs2 -> Ho. by apply (H (v :: vs1) v' vs2).
    + exists false. split; [done|]. split; [done|]. intros H. apply Hgo. intros Ho. by apply (H [] v vs).
Qed.
End GapCheck.

(** C27: the limits accept a gap exactly when the processors of the job are within
    the limit of a user and, at every moment of the gap whose limit is looked at,
    they are within the global limit together with those all jobs use, and within
    the limit of a user together with those of the account that the search finds.
    A moment is not looked at when no limit has begun, or when the last one began
    before the gap: then nothing is used, but the job alone may exceed the global
    limit.  The search finds all that the account uses when the accounts are in
    order, so that the limit of a user is then kept at every moment. *)
Theorem accepted_gap_keeps_limits (limits_map : gmap string (gmap Z cluster_limits_arrays)) (cluster : plan_cluster)
    (h : heap plan_limit) (l : plan_list) (xs : list positive) (vs : list plan_limit) (job : plan_job)
    (jinfos : gmap positive JobInfo) (p : positive) (jinfo : JobInfo) (gap : plan_gap) (fl user_max global_max : Z) (values values_global : list Z)
    (Hvalues : values_are h l xs vs) (Hlimits : limits_ok vs)
    (Hjinfo : pj_jinfo job = Some p) (Hjob : jinfos !! p = Some jinfo)
    (Hsuits : walltime_suits_to_limit limits_map (i32 (get_walltime jinfo)) cluster = Ret fl) (Hfl : 0 <= fl < NUM_LIMITS)
    (Huser : values !! Z.to_nat fl = Some user_max) (Hglobal : values_global !! Z.to_nat fl = Some global_max)
    (Hcpus : 0 <= i32 (pj_req_ppn job * pj_req_num_nodes job))
    (Hcount : Forall (countable (i32 (pj_req_ppn job * pj_req_num_nodes job)) fl) vs)
    (Hgap : pg_start_time gap < pg_end_time gap) :
  let n := i32 (pj_req_ppn job * pj_req_num_nodes job) in
  let in_gap t := pg_start_time gap <= t < pg_end_time gap in
  exists l' ok, limits_is_gap_ok limits_map values values_global jinfos h l job gap cluster = Ret (l', ok) /\
    (ok = true <-> n <= user_max /\ forall t v, in_gap t -> checked_limit gap vs t = Some v ->
       use (fun _ => true) fl v + n <= global_max /\ found_use (pj_account_id job) fl v + n <= user_max) /\
    (forall t, in_gap t -> checked_limit gap vs t = None -> use_at (fun _ => true) fl vs t = 0) /\
    (ok = true -> Forall (fun v => sorted_accounts (pl_accounts v)) vs ->
       forall t, in_gap t -> use_at (Z.eqb (pj_account_id job)) fl vs t + n <= user_max).
Proof.
  intros n in_gap. fold n in Hcpus, Hcount. set (id := pj_account_id job).
  assert (Hidle : forall t, in_gap t -> checked_limit gap vs t = None -> use_at (fun _ => true) fl vs t = 0)
    by (intros t _; by apply unchecked_idle).
  enough (exists l' ok, limits_is_gap_ok limits_map values values_global jinfos h l job gap cluster = Ret (l', ok) /\
    (ok = true <-> n <= user_max /\ forall t v, in_gap t -> checked_limit gap vs t = Some v ->
       use (fun _ => true) fl v + n <= global_max /\ found_use id fl v + n <= user_max)) as (l' & ok & E & Hiff).
  { exists l', ok. do 3 (split; [done|]). intros Hok Hs t Ht. apply Hiff in Hok as [H1 H2].
    destruct (checked_limit gap vs t) as [v|] eqn:Ev; [|rewrite (unchecked_idle gap) by done; lia].
    destruct (H2 t v Ht Ev) as [_ H3]. destruct (checked_holds gap vs t v (lk_time _ Hlimits) Ev) as [Eh Hin].
    rewrite Forall_forall in Hs, Hcount. unfold use_at. rewrite Eh. cbn [from_option].
    by rewrite <- (found_use_sorted id n fl v (Hcount v Hin) (Hs v Hin)). }
  unfold limits_is_gap_ok. rewrite Hjinfo. cbn [of_option obind]. rewrite Hjob. cbn [of_option obind]. rewrite Hsuits. cbn [obind].
  destruct (Z.eqb_spec fl (-1)); [lia|]. unfold value_at at 1. destruct (Z.ltb_spec fl 0); [lia|]. rewrite Huser.
  cbn [of_option obind]. fold n id. destruct (Z.ltb_spec user_max n) as [Hlt|Hge].
  { exists l, false. split; [done|]. split; [done|]. lia. }
  destruct (gap_walk_spec id n fl gap values values_global user_max global_max Hfl Huser Hglobal Hcpus Hge vs Hcount)
    as (b & Ew & Hb).
  pose proof (walk_with_next (gap_ok_step values values_global id n fl gap) h l xs vs true Hvalues) as Hwalk.
  rewrite Ew in Hwalk. destruct Hwalk as (l' & -> & _). cbn [obind]. exists l', b. split; [done|]. rewrite Hb. split.
  - intros Hall. split; [done|]. intros t v Ht Hv.
    destruct (checked_overlaps gap vs t v (lk_time _ Hlimits) Ht Hv) as (vs1 & vs2 & E & Ho). by apply (Hall vs1 v vs2).
  - intros [_ Hall] vs1 v vs2 -> Ho.
    destruct (overlapping_holds gap vs1 v vs2 (lk_time _ Hlimits) Hgap Ho) as (t & Ht & Hv). by apply (Hall t v).
Qed.

(** Account 1 uses four processors from 100 to 200; at most six are for one user,
    and eight for all. *)
Definition example_table : gmap string (gmap Z cluster_limits_arrays) :=
  {[ ""%string := {[ 0 := mkLimits [] [] [7200; 14400] ]} ]}.
Definition example_limit : plan_limit := mkPlanLimit 100 [mkAccount 1 [4; 0; 0; 0; 0; 0; 0; 0]] 1 10.
Definition example_limits : list plan_limit := [example_limit; limit_create 200].
Definition example_limit_heap : heap plan_limit := list_to_map
  [(1%positive, mkCell example_limit (Some 2%positive) None); (2%positive, mkCell (limit_create 200) None (Some 1%positive))].
Definition example_limit_list : plan_list := mkList 2 (Some 1%positive) (Some 2%positive) None.
Definition example_cluster : plan_cluster := mkCluster None 0 ∅ None 0 [] [] 16 16 0 0.
Definition example_plan_job (account ppn start : Z) : plan_job :=
  mkPlanJob 7 (Some 1%positive) start (start + 100) 100 0 0 0 0 ppn ppn 1 0 0 0 [] None None [] [] None false account.

Lemma example_limits_ok :
  values_are example_limit_heap example_limit_list [1%positive; 2%positive] example_limits /\ limits_ok example_limits.
Proof.
  split; [split; [|repeat constructor]|split].
  - split; [apply (bool_decide_unpack _); vm_compute; exact I| |reflexivity|reflexivity|reflexivity].
    repeat split; eexists; reflexivity.
  - repeat constructor.
  - repeat constructor.
  - intros v [= <-]. reflexivity.
Qed.

(** A gap from 150 to 300 has room for two more processors of user 1, not for
    three. *)
Definition example_jinfos : gmap positive JobInfo := {[ 1%positive := new_JobInfo "7.srv" ]}.

Lemma accepted_gap_keeps_limits_witness :
  exists l1 l2,
    limits_is_gap_ok example_table [6] [8] example_jinfos example_limit_heap example_limit_list (example_plan_job 1 2 150)
      (mkPlanGap 150 300 150 9 0 None None) example_cluster = Ret (l1, true) /\
    limits_is_gap_ok example_table [6] [8] example_jinfos example_limit_heap example_limit_list (example_plan_job 1 3 150)
      (mkPlanGap 150 300 150 9 0 None None) example_cluster = Ret (l2, false) /\
    (forall t v, 150 <= t < 300 -> checked_limit (mkPlanGap 150 300 150 9 0 None None) example_limits t = Some v ->
      use (fun _ => true) 0 v + 2 <= 8) /\
    forall t, 150 <= t < 300 -> use_at (Z.eqb 1) 0 example_limits t + 2 <= 6.
Proof.
  destruct example_limits_ok as [Hv Hl].
  destruct (accepted_gap_keeps_limits example_table example_cluster example_limit_heap example_limit_list
    [1%positive; 2%positive] example_limits (example_plan_job 1 2 150)
    example_jinfos 1 (new_JobInfo "7.srv")
    (mkPlanGap 150 300 150 9 0 None None) 0 6 8 [6] [8]) as (l1 & ok & E & Hok & _ & Hmine); try done.
  - repeat constructor; simpl; try lia; try done; intros a Ha; set_unfold; [destruct Ha as [->|[]]; unfold cpus_for; simpl; lia|done].
  - assert (ok = true) as -> by (revert E; vm_compute; congruence).
    exists l1. eexists. split; [exact E|]. split; [vm_compute; reflexivity|]. destruct (proj1 Hok eq_refl) as [_ H1]. split.
    + intros t v Ht Hc. exact (proj1 (H1 t v Ht Hc)).
    + apply (Hmine eq_refl). unfold example_limits, sorted_accounts. repeat constructor.
Defined.

(** The last limit began before the gap: the job with ten processors is accepted,
    though all jobs together may use eight. *)
Lemma idle_moments_are_not_checked :
  exists l', limits_is_gap_ok example_table [16] [8] example_jinfos example_limit_heap example_limit_list (example_plan_job 1 10 250)
    (mkPlanGap 250 300 50 16 0 None None) example_cluster = Ret (l', true).
Proof. eexists. vm_compute. reflexivity. Qed.

(** ** Adding a job *)

(** C28: adding a job to the limits of a plan makes no access out of bounds, keeps
    the limits in time and well formed, and adds the processors of the job to
    what its account uses, for jobs of its length, exactly from its start up to
    its completion: at every moment, for every account and length, the use is
    the one before, plus that of the job. *)
Theorem adding_a_job_records_its_use (limits_map : gmap string (gmap Z cluster_limits_arrays)) (cluster : plan_cluster)
    (create : option plan_limit) (h : heap plan_limit) (l : plan_list) (xs : list positive) (vs : list plan_limit)
    (job : plan_job) (fl : Z) (Hvalues : values_are h l xs vs) (Hlimits : limits_ok vs)
    (Hruns : pj_start_time job < pj_completion_time job)
    (Hsuits : walltime_suits_to_limit limits_map (i32 (i64 (pj_completion_time job - pj_start_time job))) cluster = Ret fl)
    (Hfl : 0 <= fl < NUM_LIMITS)
    (Hroom : Forall (roomy (i32 (pj_req_ppn job * pj_req_num_nodes job)) fl) vs)
    (Hsmall : Z.of_nat (length xs) + 5 < 2 ^ 31) :
  exists h' l' xs' vs', add_job_to_limits limits_map create h l job cluster = Ret (h', l') /\
    values_are h' l' xs' vs' /\ limits_ok vs' /\ forall p i t, 0 <= i ->
      use_at p i vs' t = use_at p i vs t +
        (if ((pj_start_time job <=? t) && (t <? pj_completion_time job)) && (p (pj_account_id job) && (i =? fl))
         then i32 (pj_req_ppn job * pj_req_num_nodes job) else 0).
Proof. by apply (add_job_to_limits_spec limits_map cluster create job fl Hruns Hsuits Hfl h l xs vs). Qed.

Lemma adding_a_job_records_its_use_witness :
  exists h' l' xs' vs', add_job_to_limits example_table None example_limit_heap example_limit_list
      (example_plan_job 2 3 150) example_cluster = Ret (h', l') /\ num_items l' = 4 /\
    values_are h' l' xs' vs' /\ use_at (fun _ => true) 0 vs' 160 = 7 /\ use_at (Z.eqb 2) 0 vs' 240 = 3.
Proof.
  destruct example_limits_ok as [Hv Hl].
  destruct (adding_a_job_records_its_use example_table example_cluster None example_limit_heap example_limit_list
    [1%positive; 2%positive] example_limits (example_plan_job 2 3 150) 0) as (h' & l' & xs' & vs' & E & H' & _ & Hu); try done.
  - constructor; [|constructor; [|constructor]]; (split; [reflexivity|]); intros a Ha; set_unfold; [|done].
    destruct Ha as [->|[]]; split; vm_compute; congruence.
  - exists h', l', xs', vs'. split; [exact E|]. split; [revert E; vm_compute; intros E; injection E as _ <-; reflexivity|].
    split; [exact H'|]. split; (rewrite Hu by lia; reflexivity).
Defined.
