(* ===== verification/PlanTime.v ===== *)
(** * Walltime limits of nodes: the properties of plan_schedule.cpp

    A node accepts only jobs of a certain length when it has a property
    [min_<time>] or [max_<time>].  [decode_time] reads the two formats of a time:
    numbers with units, and fields between colons. *)

From Stdlib Require Import ZArith Lia Bool Ascii String.
From S2P Require Import Prelude CString MiscHelpers.

Local Open Scope string_scope.
Open Scope Z_scope.
Local Open Scope sched_scope.

(** ** decode_time *)

Definition PBS_MAX_TIME : Z := LONG_MAX - 1.

(** [strpbrk], as a position. *)
Fixpoint find_char (p : ascii -> bool) (s : string) : option nat :=
  match s with
  | EmptyString => None
  | String c s => if p c then Some O else S <$> find_char p s
  end.

Definition one_of (cs : string) (c : ascii) : bool := in_set c cs.

Fixpoint sdrop (n : nat) (s : string) : string :=
  match n, s with
  | O, _ => s
  | S n, String _ s => sdrop n s
  | S _, EmptyString => EmptyString
  end.

Definition char_at (s : string) (k : nat) : ascii := hd0 (sdrop k s).

(** Back over the digits from position [k]; the start is never passed. *)
Fixpoint number_start (s : string) (k : nat) : nat :=
  match k with
  | O => O
  | S k' => if isdigit (char_at s k) then number_start s k' else S k
  end.

(** The number before the first of the characters [cs]. *)
Definition number_before (cs s : string) : Z :=
  match find_char (one_of cs) s with
  | Some (S k) => atoi (sdrop (number_start s k) s)
  | _ => 0
  end.

(** Each product is one of [int]s, the sum is a [long long]. *)
Definition decode_units (s : string) : Z :=
  i64 (number_before "sS" s + i32 (number_before "mM" s * 60) + i32 (number_before "hH" s * (60 * 60))
       + i32 (number_before "dD" s * (24 * 60 * 60)) + i32 (number_before "wW" s * (7 * 24 * 60 * 60))).

(** The fields; [field] is the text since the last colon.  The fraction is what
    follows the point. *)
Fixpoint decode_fields (s field : string) (use_days : bool) (days rv : Z) : option (Z * Z * string * string) :=
  match s with
  | EmptyString => Some (days, rv, field, "")
  | String c t =>
      if c =c ":" then
        if use_days then decode_fields t "" false (atoi field) rv
        else decode_fields t "" use_days days (i64 (rv * 60 + atoi field))
      else if c =c "." then Some (days, rv, field, t)
      else if isdigit c then decode_fields t (field ++ String c "") use_days days rv
      else None
  end.

(** Three characters, the missing ones zeros. *)
Definition milliseconds (fraction : string) : Z :=
  atoi (substring 0 3 (substring 0 3 fraction ++ "000")).

Section Decode.
(** [PBSE_BADATVAL] of the Torque library. *)
Variable badval : Z.

Definition decode_colons (s : string) : Z :=
  let ncolon := count_char s ":" in
  if (3 <? ncolon)%nat then badval
  else
    match decode_fields s "" (2 <? ncolon)%nat 0 0 with
    | None => badval
    | Some (days, rv, field, fraction) =>
        let rv := i64 (rv * 60 + atoi field) in
        let rv := if days >? 0 then i64 (rv + i32 (days * (24 * 3600))) else rv in
        if rv >? PBS_MAX_TIME then badval
        else if milliseconds fraction >=? 500 then i64 (rv + 1) else rv
    end.

Definition decode_time (val : option string) : Z :=
  match val with
  | None => 0
  | Some s =>
      if String.eqb s "" then 0
      else match find_char (one_of "sSmMhHdDwW") s with
           | Some _ => decode_units s
           | None => decode_colons s
           end
  end.

(** ** The limits among the properties *)

(** True when either is a prefix of the other. *)
Fixpoint is_prefix (s1 s2 : string) : bool :=
  match s1, s2 with
  | String a s1, String b s2 => if Ascii.eqb a b then is_prefix s1 s2 else false
  | _, _ => true
  end.

Definition is_excluded (s : string) : bool := is_prefix s "min_" || is_prefix s "max_".

Definition filter_exclude (strings : gset string) (select_exclude : bool) : gset string :=
  filter (fun s => is_excluded s = select_exclude) strings.

(** [c_str() + 4]: past the end of a shorter string. *)
Definition after_prefix (s : string) : outcome string :=
  if (String.length s <? 4)%nat then UB else Ret (sdrop 4 s).

(** The last one in the order of the set. *)
Definition walltime_limit (prefix : string) (properties : gset string) : outcome Z :=
  ofold (fun ret s =>
    if is_prefix s prefix then let! value := after_prefix s in Ret (decode_time (Some value)) else Ret ret)
    (isort String.ltb (elements (filter_exclude properties true))) 0.

Definition get_walltime_limit_min (properties : gset string) : outcome Z := walltime_limit "min_" properties.
Definition get_walltime_limit_max (properties : gset string) : outcome Z := walltime_limit "max_" properties.
End Decode.

Example decode_1 : decode_time 0 (Some "2w3d4h5m6s") = 2 * 604800 + 3 * 86400 + 4 * 3600 + 5 * 60 + 6.
Proof. reflexivity. Qed.
Example decode_2 : decode_time 0 (Some "1:02:03:04.5") = 86400 + 2 * 3600 + 3 * 60 + 5.
Proof. reflexivity. Qed.
Example decode_3 : get_walltime_limit_max 0 {[ "max_2h"; "xx"; "max_10h" ]} = Ret 7200.
Proof. vm_compute. reflexivity. Qed.

(** ** Numbers in a string *)

Fixpoint all_digits (s : string) : bool :=
  match s with EmptyString => true | String c s => isdigit c && all_digits s end.

Lemma all_digits_dec_digits fuel z acc :
  0 <= z -> all_digits acc = true -> all_digits (dec_digits fuel z acc) = true.
Proof.
  revert z acc. induction fuel as [|fuel IH]; intros z acc Hz Hacc; simpl; [done|].
  pose proof (Z.mod_pos_bound z 10 ltac:(lia)).
  assert (Hacc' : all_digits (String (digit_char (z mod 10)) acc) = true)
    by (simpl; by rewrite isdigit_digit_char, Hacc).
  destruct (z <? 10); [done|]. apply IH; [apply Z.div_pos; lia|done].
Qed.

Lemma dec_nonneg z : 0 <= z -> dec z = dec_nat z.
Proof. intros Hz. unfold dec. destruct (Z.ltb_spec z 0); [lia|done]. Qed.

Lemma all_digits_dec z : 0 <= z -> all_digits (dec z) = true.
Proof. intros Hz. rewrite dec_nonneg by done. by apply all_digits_dec_digits. Qed.

Lemma dec_nonempty z : 0 <= z -> exists c s, dec z = String c s.
Proof.
  intros Hz. rewrite dec_nonneg by done. pose proof (hd0_dec_nat z Hz) as H. destruct (dec_nat z); [done|eauto].
Qed.

Lemma scan_digits_app d rest v :
  all_digits d = true -> isdigit (hd0 rest) = false ->
  scan_digits v (d ++ rest) = (fst (scan_digits v d), rest).
Proof.
  intros Hd Hr. revert v. induction d as [|c d IH]; intros v; simpl.
  - by destruct rest as [|r rest]; simpl in *; [|rewrite Hr].
  - simpl in Hd. apply andb_true_iff in Hd as [Hc Hd]. rewrite Hc. by apply IH.
Qed.

(** [atoi] reads a printed number up to the first character that is no digit. *)
Lemma atoi_dec_app z rest : 0 <= z < 2 ^ 31 -> isdigit (hd0 rest) = false -> atoi (dec z ++ rest) = z.
Proof.
  intros Hz Hr. unfold atoi, strtol10. pose proof (hd0_dec_nat z ltac:(lia)) as Hd.
  rewrite dec_nonneg by lia. pose proof (all_digits_dec z ltac:(lia)) as Hall. rewrite dec_nonneg in Hall by lia.
  destruct (isdigit_not_space _ Hd) as (H1 & H2 & H3).
  assert (Hs : skip_spaces (dec_nat z ++ rest) = dec_nat z ++ rest).
  { destruct (dec_nat z); simpl in *; [done|]. by rewrite H1. }
  assert (Hh : hd0 (dec_nat z ++ rest) = hd0 (dec_nat z)) by (destruct (dec_nat z); done).
  rewrite Hs, Hh, H2, H3, Hh, Hd, scan_digits_app, scan_digits_dec_nat by (done || lia). simpl.
  rewrite saturate_id by (unfold in_s; lia). apply i32_id. unfold in_s. lia.
Qed.

Lemma string_app_assoc a b c : (a ++ b) ++ c = a ++ (b ++ c).
Proof. induction a as [|x a IH]; simpl; [done|]. exact (f_equal (String x) IH). Qed.
Lemma string_app_nil a : a ++ "" = a.
Proof. induction a as [|x a IH]; simpl; [done|]. exact (f_equal (String x) IH). Qed.

Lemma sdrop_app a b : sdrop (String.length a) (a ++ b) = b.
Proof. by induction a. Qed.

Lemma sdrop_app_add a b k : sdrop (String.length a + k) (a ++ b) = sdrop k b.
Proof. by induction a. Qed.

(** Where the number between [p] and [rest] starts. *)
Lemma number_start_app p x d rest :
  isdigit x = false -> all_digits d = true -> p <> "" ->
  number_start ((p ++ String x "") ++ d ++ rest) (String.length p + String.length d) = S (String.length p).
Proof.
  intros Hx Hd Hp. set (s := (p ++ String x "") ++ d ++ rest).
  assert (Hat : forall k, (k < String.length d)%nat -> isdigit (char_at s (String.length p + S k)) = true).
  { intros k Hk. unfold char_at, s. rewrite string_app_assoc, sdrop_app_add. simpl.
    clear -Hd Hk. revert k Hk. induction d as [|c d IH]; intros k Hk; simpl in *; [lia|].
    apply andb_true_iff in Hd as [Hc Hd]. destruct k; simpl; [done|]. apply IH; [done|lia]. }
  assert (H0 : char_at s (String.length p) = x).
  { unfold char_at, s. by rewrite string_app_assoc, sdrop_app. }
  assert (Hlen : String.length p <> O) by (by destruct p).
  revert Hat. generalize (String.length d) as n. intros n Hat. induction n as [|n IH].
  - rewrite Nat.add_0_r. destruct (String.length p) as [|m] eqn:E; [done|]. cbn [number_start]. by rewrite H0, Hx.
  - rewrite Nat.add_succ_r. cbn [number_start]. rewrite <- Nat.add_succ_r, Hat by lia. apply IH. intros k Hk. apply Hat. lia.
Qed.

Lemma number_start_front d rest n :
  all_digits d = true -> (n < String.length d)%nat -> number_start (d ++ rest) n = O.
Proof.
  intros Hd. induction n as [|n IH]; intros Hn; [done|]. cbn [number_start].
  assert (isdigit (char_at (d ++ rest) (S n)) = true) as ->; [|apply IH; lia].
  clear IH. revert n Hn. induction d as [|c d IH]; intros n Hn; simpl in *; [lia|].
  apply andb_true_iff in Hd as [_ Hd]. unfold char_at in *. simpl. destruct n.
  - destruct d as [|c' d]; simpl in *; [lia|]. by apply andb_true_iff in Hd as [? _].
  - apply IH; [done|lia].
Qed.

Fixpoint none_of (p : ascii -> bool) (s : string) : bool :=
  match s with EmptyString => true | String c s => negb (p c) && none_of p s end.

Lemma find_char_app q a b :
  none_of q a = true -> find_char q (a ++ b) = (fun k => (String.length a + k)%nat) <$> find_char q b.
Proof.
  induction a as [|x a IH]; intros H; simpl.
  - change ("" ++ b) with b. destruct (find_char q b); reflexivity.
  - simpl in H. destruct (q x); [done|]. rewrite IH by done. by destruct (find_char q b).
Qed.

Lemma none_of_app q a b : none_of q (a ++ b) = none_of q a && none_of q b.
Proof. induction a as [|x a IH]; simpl; [done|]. by rewrite IH, andb_assoc. Qed.

Lemma none_of_find q s : none_of q s = true -> find_char q s = None.
Proof. induction s as [|x s IH]; simpl; [done|]. destruct (q x); [done|]. simpl. intros H. by rewrite IH. Qed.

Lemma none_of_digits q s : (forall c, isdigit c = true -> q c = false) -> all_digits s = true -> none_of q s = true.
Proof.
  intros Hq. induction s as [|x s IH]; simpl; [done|]. intros [Hx H]%andb_true_iff. by rewrite Hq, IH.
Qed.

(** ** Times with units *)

Inductive time_unit := Seconds | Minutes | Hours | Days | Weeks.

#[export] Instance time_unit_eq_dec : EqDecision time_unit.
Proof. solve_decision. Defined.

Definition unit_char (u : time_unit) : ascii :=
  match u with Seconds => "s" | Minutes => "m" | Hours => "h" | Days => "d" | Weeks => "w" end.
Definition unit_chars (u : time_unit) : string :=
  match u with Seconds => "sS" | Minutes => "mM" | Hours => "hH" | Days => "dD" | Weeks => "wW" end.
Definition unit_seconds (u : time_unit) : Z :=
  match u with Seconds => 1 | Minutes => 60 | Hours => 3600 | Days => 86400 | Weeks => 604800 end.

(** Numbers with units, as they are written. *)
Fixpoint print_units (ps : list (Z * time_unit)) : string :=
  match ps with
  | [] => ""
  | (n, u) :: ps => dec n ++ String (unit_char u) (print_units ps)
  end.

Fixpoint amount_of (u : time_unit) (ps : list (Z * time_unit)) : Z :=
  match ps with
  | [] => 0
  | (n, v) :: ps => if decide (u = v) then n else amount_of u ps
  end.

Lemma print_units_app ps1 ps2 : print_units (ps1 ++ ps2) = print_units ps1 ++ print_units ps2.
Proof.
  induction ps1 as [|[n u] ps1 IH]; [done|]. cbn [app print_units]. rewrite IH, string_app_assoc. done.
Qed.

Lemma digit_no_unit u c : isdigit c = true -> one_of (unit_chars u) c = false.
Proof.
  intros H. unfold one_of. destruct u; simpl;
    repeat match goal with |- context [Ascii.eqb c ?d] => destruct (Ascii.eqb_spec c d) as [->|_]; [by vm_compute in H|] end;
    done.
Qed.

Lemma none_of_dec u n : 0 <= n -> none_of (one_of (unit_chars u)) (dec n) = true.
Proof. intros Hn. apply none_of_digits; [apply digit_no_unit|by apply all_digits_dec]. Qed.

Lemma none_of_print u ps :
  Forall (fun p => 0 <= p.1) ps -> u ∉ ps.*2 -> none_of (one_of (unit_chars u)) (print_units ps) = true.
Proof.
  induction ps as [|[n v] ps IH]; intros Hn Hu; [done|]. apply Forall_cons in Hn as [Hn Hns].
  rewrite fmap_cons in Hu. apply not_elem_of_cons in Hu as [Huv Hu]. cbn [print_units]. rewrite none_of_app, none_of_dec by done.
  simpl. rewrite IH by done. simpl in Huv. by destruct u, v.
Qed.

Lemma number_before_at u ps1 n ps2 :
  Forall (fun p => 0 <= p.1) ps1 -> 0 <= n < 2 ^ 31 -> u ∉ ps1.*2 ->
  number_before (unit_chars u) (print_units (ps1 ++ (n, u) :: ps2)) = n.
Proof.
  intros Hps Hn Hu. rewrite print_units_app. cbn [print_units]. unfold number_before.
  rewrite find_char_app by (by apply none_of_print). rewrite find_char_app by (apply none_of_dec; lia).
  assert (Hc : find_char (one_of (unit_chars u)) (String (unit_char u) (print_units ps2)) = Some O) by (by destruct u).
  rewrite Hc. cbn [fmap option_fmap option_map]. rewrite Nat.add_0_r.
  assert (Hrest : isdigit (hd0 (String (unit_char u) (print_units ps2))) = false) by (by destruct u).
  destruct (dec_nonempty n ltac:(lia)) as (c & t & Hd).
  assert (Hlen : String.length (dec n) = S (String.length t)) by (by rewrite Hd).
  destruct ps1 as [|[m v] ps1 _] using rev_ind.
  - simpl. rewrite Hlen. change ("" ++ ?x) with x.
    rewrite number_start_front by (try lia; apply all_digits_dec; lia). simpl. by apply atoi_dec_app.
  - apply Forall_app in Hps as [_ [Hm _]%Forall_cons].
    assert (E : print_units (ps1 ++ [(m, v)]) = (print_units ps1 ++ dec m) ++ String (unit_char v) "").
    { rewrite print_units_app. simpl. by rewrite string_app_assoc. }
    rewrite E. set (p := print_units ps1 ++ dec m).
    assert (Hp : p <> "").
    { unfold p. destruct (dec_nonempty m Hm) as (c' & t' & ->). by destruct (print_units ps1). }
    rewrite strlength_app, Hlen. cbn [String.length].
    replace (String.length p + 1 + S (String.length t))%nat with (S (String.length p + S (String.length t))) by lia.
    cbv iota. rewrite <- Hlen. rewrite number_start_app by first [done|by destruct v|apply all_digits_dec; lia].
    rewrite string_app_assoc. replace (S (String.length p)) with (String.length p + 1)%nat by lia.
    rewrite sdrop_app_add. simpl. by apply atoi_dec_app.
Qed.

Lemma amount_of_notin u ps : u ∉ ps.*2 -> amount_of u ps = 0.
Proof.
  induction ps as [|[n v] ps IH]; [done|]. rewrite fmap_cons, not_elem_of_cons. intros [Hne H]. simpl in *.
  rewrite decide_False by done. by apply IH.
Qed.

Lemma number_before_print u ps :
  Forall (fun p => 0 <= p.1 < 2 ^ 31) ps -> NoDup ps.*2 ->
  number_before (unit_chars u) (print_units ps) = amount_of u ps.
Proof.
  intros Hps Hnd. assert (Hps' : Forall (fun p => 0 <= p.1) ps) by (eapply Forall_impl; [exact Hps|]; intros p Hp; simpl in *; lia).
  destruct (decide (u ∈ ps.*2)) as [Hin|Hout].
  - apply list_elem_of_fmap in Hin as ([n v] & -> & Hin). apply list_elem_of_split in Hin as (ps1 & ps2 & ->).
    rewrite fmap_app, fmap_cons in Hnd. simpl in Hnd.
    assert (Hv : v ∉ ps1.*2) by (intros Hv; apply NoDup_app in Hnd as (_ & Hd & _); apply (Hd v Hv); by left).
    apply Forall_app in Hps as [_ [Hn _]%Forall_cons]. apply Forall_app in Hps' as [Hps' _].
    simpl. rewrite number_before_at by done.
    clear -Hv. induction ps1 as [|[m w] ps1 IH]; simpl; [by rewrite decide_True|].
    rewrite fmap_cons, not_elem_of_cons in Hv. destruct Hv. rewrite decide_False by done. by apply IH.
  - rewrite amount_of_notin by done. unfold number_before.
    rewrite none_of_find by (by apply none_of_print). done.
Qed.

Definition total_seconds (ps : list (Z * time_unit)) : Z := sumZ (fun p => p.1 * unit_seconds p.2) ps.

Lemma total_by_unit ps :
  NoDup ps.*2 ->
  total_seconds ps = amount_of Seconds ps + amount_of Minutes ps * 60 + amount_of Hours ps * 3600
                     + amount_of Days ps * 86400 + amount_of Weeks ps * 604800.
Proof.
  induction ps as [|[n u] ps IH]; intros Hnd; [done|]. rewrite fmap_cons in Hnd. apply NoDup_cons in Hnd as [Hu Hnd].
  unfold total_seconds in *. rewrite sumZ_cons, IH by done. simpl in Hu. cbn [amount_of fst snd].
  pose proof (amount_of_notin u ps Hu). destruct u; simpl decide; cbn [unit_seconds]; repeat case_decide; try done; lia.
Qed.

(** ** Times with fields *)

Lemma decode_fields_digits d rest field use_days days rv :
  all_digits d = true -> decode_fields (d ++ rest) field use_days days rv = decode_fields rest (field ++ d) use_days days rv.
Proof.
  revert field. induction d as [|c d IH]; intros field Hd; [by rewrite string_app_nil|].
  simpl in Hd. apply andb_true_iff in Hd as [Hc Hd].
  change (String c d ++ rest) with (String c (d ++ rest)). cbn [decode_fields]. unfold ascii_eqb.
  destruct (Ascii.eqb_spec c ":") as [->|_]; [by vm_compute in Hc|].
  destruct (Ascii.eqb_spec c ".") as [->|_]; [by vm_compute in Hc|].
  rewrite Hc, IH, string_app_assoc by done. done.
Qed.

Lemma decode_fields_colon n rest use_days days rv :
  0 <= n < 2 ^ 31 ->
  decode_fields (dec n ++ String ":" rest) "" use_days days rv =
  if use_days then decode_fields rest "" false n rv else decode_fields rest "" use_days days (i64 (rv * 60 + n)).
Proof.
  intros Hn. rewrite decode_fields_digits by (apply all_digits_dec; lia). change ("" ++ dec n) with (dec n).
  cbn [decode_fields]. rewrite atoi_dec by (unfold in_s; lia). by destruct use_days.
Qed.

Lemma decode_fields_end n use_days days rv :
  0 <= n -> decode_fields (dec n) "" use_days days rv = Some (days, rv, dec n, "").
Proof.
  intros Hn. rewrite <- (string_app_nil (dec n)) at 1. rewrite decode_fields_digits by (by apply all_digits_dec). done.
Qed.

Lemma count_char_app a b c : count_char (a ++ b) c = (count_char a c + count_char b c)%nat.
Proof. induction a as [|x a IH]; simpl; [done|]. rewrite IH. by destruct (Ascii.eqb x c). Qed.

Lemma count_colons_dec n : 0 <= n -> count_char (dec n) ":" = O.
Proof.
  intros Hn. pose proof (all_digits_dec n Hn) as H. induction (dec n) as [|x t IH]; simpl in *; [done|].
  apply andb_true_iff in H as [Hx H]. destruct (Ascii.eqb_spec x ":") as [->|_]; [by vm_compute in Hx|]. by apply IH.
Qed.

Lemma no_units_in_digits c : isdigit c = true -> one_of "sSmMhHdDwW" c = false.
Proof.
  intros H. unfold one_of. simpl.
  repeat match goal with |- context [Ascii.eqb c ?d] => destruct (Ascii.eqb_spec c d) as [->|_]; [by vm_compute in H|] end.
  done.
Qed.

(** A time without units is read field by field. *)
Lemma decode_time_fields badval n rest :
  0 <= n -> none_of (one_of "sSmMhHdDwW") rest = true ->
  decode_time badval (Some (dec n ++ rest)) = decode_colons badval (dec n ++ rest).
Proof.
  intros Hn Hr. unfold decode_time. destruct (dec_nonempty n Hn) as (c & t & Hd).
  replace (dec n ++ rest =? "")%string with false by (by rewrite Hd).
  rewrite none_of_find; [done|]. rewrite none_of_app, Hr, andb_true_r.
  apply none_of_digits; [apply no_units_in_digits|by apply all_digits_dec].
Qed.

Lemma none_of_dec_any n : 0 <= n -> none_of (one_of "sSmMhHdDwW") (dec n) = true.
Proof. intros Hn. apply none_of_digits; [apply no_units_in_digits|by apply all_digits_dec]. Qed.
Definition clock (h m s : Z) : string := dec h ++ String ":" (dec m ++ String ":" (dec s)).

Lemma decode_clock badval h m s :
  0 <= h < 2 ^ 31 -> 0 <= m < 2 ^ 31 -> 0 <= s < 2 ^ 31 ->
  decode_time badval (Some (clock h m s)) = h * 3600 + m * 60 + s.
Proof.
  intros Hh Hm Hs. unfold clock.
  rewrite decode_time_fields; [|lia|simpl; rewrite none_of_app; simpl; by rewrite !none_of_dec_any by lia].
  unfold decode_colons. rewrite !count_char_app. simpl. rewrite !count_char_app. simpl.
  rewrite !count_colons_dec by lia. simpl. change (2 <? 2)%nat with false.
  rewrite !decode_fields_colon by lia. cbv iota. rewrite decode_fields_end by lia. cbv zeta iota.
  rewrite atoi_dec by (unfold in_s; lia). rewrite (i64_id (0 * 60 + h)) by (unfold in_s; lia).
  rewrite (i64_id (_ + m)) by (unfold in_s; lia). rewrite (i64_id (_ + s)) by (unfold in_s; lia).
  change (0 >? 0) with false. change (milliseconds "" >=? 500) with false. unfold PBS_MAX_TIME, LONG_MAX. cbv iota.
  destruct (Z.gtb_spec (((0 * 60 + h) * 60 + m) * 60 + s) (9223372036854775807 - 1)); lia.
Qed.

Lemma decode_day_clock badval d h m s :
  0 <= d -> d * 86400 < 2 ^ 31 -> 0 <= h < 2 ^ 31 -> 0 <= m < 2 ^ 31 -> 0 <= s < 2 ^ 31 ->
  decode_time badval (Some (dec d ++ String ":" (clock h m s))) = d * 86400 + h * 3600 + m * 60 + s.
Proof.
  intros Hd0 Hd Hh Hm Hs. unfold clock.
  rewrite decode_time_fields; [|lia|simpl; rewrite !none_of_app; simpl; rewrite !none_of_app; simpl; by rewrite !none_of_dec_any by lia].
  unfold decode_colons. rewrite !count_char_app. simpl. rewrite !count_char_app. simpl. rewrite !count_char_app. simpl.
  rewrite !count_colons_dec by lia. simpl. change (3 <? 3)%nat with false. change (2 <? 3)%nat with true. cbv iota.
  rewrite !decode_fields_colon by lia. cbv iota. rewrite decode_fields_end by lia. cbv zeta iota.
  rewrite atoi_dec by (unfold in_s; lia). rewrite (i64_id (0 * 60 + h)) by (unfold in_s; lia).
  rewrite (i64_id (_ + m)) by (unfold in_s; lia). rewrite (i64_id (_ + s)) by (unfold in_s; lia).
  change (milliseconds "" >=? 500) with false. unfold PBS_MAX_TIME, LONG_MAX. cbv iota.
  rewrite i32_id by (unfold in_s; lia). rewrite i64_id by (unfold in_s; lia).
  destruct (Z.gtb_spec d 0);
    match goal with |- context [?x >? ?y] => destruct (Z.gtb_spec x y) end; lia.
Qed.

Lemma decode_print_units badval ps :
  ps <> [] -> Forall (fun p => 0 <= p.1 /\ p.1 * unit_seconds p.2 < 2 ^ 31) ps -> NoDup ps.*2 ->
  decode_time badval (Some (print_units ps)) = total_seconds ps.
Proof.
  intros Hne Hps Hnd.
  assert (Hps' : Forall (fun p => 0 <= p.1 < 2 ^ 31) ps).
  { eapply Forall_impl; [exact Hps|]. intros [n u]. simpl. destruct u; simpl; lia. }
  assert (Hamount : forall u, 0 <= amount_of u ps /\ amount_of u ps * unit_seconds u < 2 ^ 31).
  { clear -Hps. intros u. induction Hps as [|[n v] ps Hp Hps IH]; simpl in *; [destruct u; simpl; lia|].
    destruct (decide (u = v)) as [->|_]; [done|exact IH]. }
  unfold decode_time. destruct ps as [|[n u] ps]; [done|].
  pose proof Hps' as [Hn _]%Forall_cons. destruct (dec_nonempty n ltac:(simpl in Hn; lia)) as (c & t & Hd).
  replace (print_units ((n, u) :: ps) =? "")%string with false by (cbn [print_units]; by rewrite Hd).
  cbn [print_units]. rewrite find_char_app by (apply none_of_dec_any; simpl in Hn; lia).
  assert (Hc : find_char (one_of "sSmMhHdDwW") (String (unit_char u) (print_units ps)) = Some O) by (by destruct u).
  rewrite Hc. cbn [fmap option_fmap option_map]. change (dec n ++ String (unit_char u) (print_units ps)) with (print_units ((n, u) :: ps)).
  unfold decode_units. rewrite total_by_unit by done.
  rewrite (number_before_print Seconds), (number_before_print Minutes), (number_before_print Hours),
    (number_before_print Days), (number_before_print Weeks) by done.
  pose proof (Hamount Seconds). pose proof (Hamount Minutes). pose proof (Hamount Hours).
  pose proof (Hamount Days). pose proof (Hamount Weeks). cbn [unit_seconds] in *.
  rewrite !i32_id by (unfold in_s; lia). rewrite i64_id by (unfold in_s; lia). lia.
Qed.

(** C26: a time that is written as numbers with different units, in any order, is
    decoded to the sum of its parts in seconds, and so is one that is written as
    hours, minutes and seconds, with or without days in front. *)
Theorem decode_time_reads_times (badval : Z) (ps : list (Z * time_unit)) (d h m s : Z)
    (Hne : ps <> []) (Hps : Forall (fun p => 0 <= p.1 /\ p.1 * unit_seconds p.2 < 2 ^ 31) ps) (Hnd : NoDup ps.*2)
    (Hd : 0 <= d) (Hdays : d * 86400 < 2 ^ 31) (Hh : 0 <= h < 2 ^ 31) (Hm : 0 <= m < 2 ^ 31) (Hs : 0 <= s < 2 ^ 31) :
  decode_time badval (Some (print_units ps)) = total_seconds ps /\
  decode_time badval (Some (clock h m s)) = h * 3600 + m * 60 + s /\
  decode_time badval (Some (dec d ++ String ":" (clock h m s))) = d * 86400 + h * 3600 + m * 60 + s.
Proof. split_and!; [by apply decode_print_units|by apply decode_clock|by apply decode_day_clock]. Qed.

Lemma decode_time_reads_times_witness :
  decode_time 15014 (Some "90m2h1w") = 90 * 60 + 2 * 3600 + 604800 /\
  decode_time 15014 (Some "3:45:10") = 3 * 3600 + 45 * 60 + 10.
Proof.
  destruct (decode_time_reads_times 15014 [(90, Minutes); (2, Hours); (1, Weeks)] 2 3 45 10) as (H1 & H2 & _);
    [done| | |lia..|].
  - repeat constructor; simpl; lia.
  - apply (bool_decide_unpack _). vm_compute. exact I.
  - split; [exact H1|exact H2].
Defined.

(** A property that is shorter than the prefix passes for a limit, and is then
    read past its end. *)
Lemma short_property_is_read_past_its_end badval : get_walltime_limit_min badval {[ "m" ]} = UB.
Proof. reflexivity. Qed.
