(* ===== verification/PlanClusters.v ===== *)
(** * The clusters of the schedule: plan_schedule.cpp

    The scheduler plans each cluster of nodes on its own.  A node belongs to the
    first cluster of its cluster name that knows it or has its properties; the
    schedule keeps, cluster by cluster, the lists of jobs, gaps and limits. *)

From Stdlib Require Import ZArith Lia Bool Ascii String.
From S2P Require Import Prelude CString MiscHelpers Resource DataTypes Config NodeData JobInfo QueueInfo NodeLogic PlanData PlanList PlanGaps PlanTime.

Local Open Scope string_scope.
Open Scope Z_scope.
Local Open Scope sched_scope.

(** The arrays of [sched] have [num_clusters] entries.  The [sinfo] fields of the
    lists are only copied, and left out. *)
Record sched := mkSched {
  s_num_clusters : Z;
  s_clusters : list plan_cluster;
  s_jobs : list plan_list;
  s_gaps : list plan_list;
  s_limits : list plan_list;
  s_updated : list Z
}.

#[export] Instance sched_fields : Fields sched :=
  fields_app (fields_app (fields_app (fields_app (fields_app (fields_app (fields_const mkSched)
  s_num_clusters) s_clusters) s_jobs) s_gaps) s_limits) s_updated.

Definition schedule_create : sched := mkSched 0 [] [] [] [] [].

(** The counts that [cluster_create] leaves uninitialised are those of [junk]. *)
Definition cluster_create (junk : plan_cluster) : plan_cluster :=
  junk <| pc_nodes := [] |> <| pc_num_nodes := 0 |> <| pc_nodes_name := [] |> <| pc_num_properties := 0 |>
       <| pc_sinfo := None |>.

Definition is_off (n : node_info) : bool :=
  p_is_down (nd_state (data n)) || p_is_offline (nd_state (data n)) || p_is_notusable n.

Definition cores_total (n : node_info) : Z := p_core_total (data n).

Section Clusters.
(** What [cluster_create] and [realloc] leave uninitialised. *)
Variable junk : plan_cluster.
Variable junk_updated : Z.

Definition schedule_add_cluster (s : sched) (cluster_name : string) (properties : gset string) : sched :=
  let props := filter_exclude properties false in
  let cl := cluster_create junk
    <| pc_cluster_name := Some cluster_name |> <| pc_num_nodes := 0 |> <| pc_num_cpus := 0 |>
    <| pc_num_running_cpus := 0 |> <| pc_available_ram := 0 |>
    <| pc_num_properties := Z.of_nat (size props) |> <| pc_cluster_properties := props |> in
  mkSched (i32 (s_num_clusters s + 1)) (s_clusters s ++ [cl])%list (s_jobs s ++ [list_create])%list
    (s_gaps s ++ [list_create])%list (s_limits s ++ [list_create])%list (s_updated s ++ [junk_updated])%list.

(** Zero when the property is there. *)
Definition find_property (properties : list string) (property : string) : Z :=
  if existsb (fun p => strcmp p property =? 0) properties then 0 else 1.

(** Whether the properties are those of the cluster; the source answers 0 then. *)
Definition cluster_check_fit (cl : plan_cluster) (n : node_info) : bool :=
  bool_decide (pc_cluster_properties cl = filter_exclude (p_phys_props (data n)) false).

Definition add_node (cl : plan_cluster) (p : positive) (n : node_info) : plan_cluster :=
  let cl := cl <| pc_num_nodes := i32 (pc_num_nodes cl + 1) |> <| pc_nodes := (pc_nodes cl ++ [p])%list |>
    <| pc_nodes_name := (pc_nodes_name cl ++ [node_name n])%list |>
    <| pc_num_cpus := i32 (pc_num_cpus cl + cores_total n) |> in
  if negb (is_off n) then
    cl <| pc_num_running_cpus := i32 (pc_num_running_cpus cl + p_core_free (data n)) |>
       <| pc_available_ram := i64 (pc_available_ram cl + get_node_mem n) |>
  else cl.

Definition cluster_add_node (s : sched) (clus_number : nat) (p : positive) (n : node_info) : sched :=
  s <| s_clusters := alter (fun cl => add_node cl p n) clus_number (s_clusters s) |>.

Definition plan_set_cluster_server (s : sched) (clus_number : nat) (sinfo : option positive) : sched :=
  s <| s_clusters := alter (fun cl => cl <| pc_sinfo := sinfo |>) clus_number (s_clusters s) |>.

(** The position of a node of the name among the nodes of a cluster. *)
Fixpoint position_of (names : list string) (name : string) : option nat :=
  match names with
  | [] => None
  | m :: names => if strcmp m name =? 0 then Some O else S <$> position_of names name
  end.

(** The first cluster that knows the node, at a position, or that fits it. *)
Fixpoint find_place (clusters : list plan_cluster) (cluster_name : string) (n : node_info) : option (nat * option nat) :=
  match clusters with
  | [] => None
  | cl :: clusters =>
      let here :=
        if String.eqb (default "" (pc_cluster_name cl)) cluster_name then
          match position_of (pc_nodes_name cl) (node_name n) with
          | Some j => Some (O, Some j)
          | None => if cluster_check_fit cl n then Some (O, None) else None
          end
        else None in
      match here with
      | Some r => Some r
      | None => match find_place clusters cluster_name n with Some (i, r) => Some (S i, r) | None => None end
      end
  end.

(** A null cluster name is set to the empty one. *)
Definition plan_find_cluster_for_node (nodes : gmap positive node_info) (s : sched) (sinfo : option positive) (p : positive)
  : outcome (gmap positive node_info * sched) :=
  let! n := of_option (nodes !! p) in
  let name := default "" (nd_cluster_name n) in
  let nodes := <[p := n <| nd_cluster_name := Some name |>]> nodes in
  Ret (nodes,
    match find_place (s_clusters s) name n with
    | Some (i, Some j) =>
        let s := s <| s_clusters := alter (fun cl => cl <| pc_nodes := <[j := p]> (pc_nodes cl) |>) i (s_clusters s) |> in
        plan_set_cluster_server s i sinfo
    | Some (i, None) => plan_set_cluster_server (cluster_add_node s i p n) i sinfo
    | None =>
        let last := length (s_clusters s) in
        let s := schedule_add_cluster s name (p_phys_props (data n)) in
        plan_set_cluster_server (cluster_add_node s last p n) last sinfo
    end).

Definition plan_update_clusters (nodes : gmap positive node_info) (s : sched) (sinfo : option positive)
    (server_nodes : list positive) : outcome (gmap positive node_info * sched) :=
  ofold (fun '(nodes, s) p => plan_find_cluster_for_node nodes s sinfo p) server_nodes (nodes, s).
End Clusters.

(** ** Which clusters suit a job *)

Section Suitable.
(** The Torque library: the parser of nodespecs, null for one it cannot read. *)
Variable parse_nodespec : string -> option pars_spec.
(** [conf.default_queue]. *)
Variable default_queue : string.
Variable nodes : gmap positive node_info.

Definition in_cluster (cl : plan_cluster) (property : string) : bool := bool_decide (property ∈ pc_cluster_properties cl).

(** The parsed nodespec.  An empty one is replaced by a string literal, which is
    then freed. *)
Definition parse_request (jinfo : JobInfo) : outcome (option pars_spec) :=
  if String.eqb (nodespec jinfo) "" then UB else Ret (parse_nodespec (nodespec jinfo)).

(** The required property of the queue [q] excludes the cluster, or that of
    another queue which the cluster has does. *)
Definition queue_excludes (queues : list queue_info) (q : queue_info) (cl : plan_cluster) : bool :=
  if is_prefix (q_name q) "backfill" && in_cluster cl "q_backfill" then false
  else
    match required_property q with
    | Some p => negb (is_prefix p "q_") && negb (in_cluster cl p)
    | None => false
    end
    || ((strcmp (q_name q) default_queue =? 0) || is_prefix (q_name q) "q_" || is_prefix (q_name q) "backfill")
       && existsb (fun r =>
            match required_property r with
            | Some p => (strlen p >? 0) && negb (is_prefix p "q_") && in_cluster cl p && negb (strcmp (q_name q) (q_name r) =? 0)
            | None => false
            end) queues.

(** The properties without a value of the first part of the request. *)
Definition request_excludes (cl : plan_cluster) (p : pars_prop) : bool :=
  match prop_value p with
  | Some _ => false
  | None => if hd0 (prop_name p) =c "^" then in_cluster cl (tl0 (prop_name p)) else negb (in_cluster cl (prop_name p))
  end.

Definition node_of (p : positive) : outcome node_info := of_option (nodes !! p).

(** The nodes that are missing after every node took as many parts as fit. *)
Definition missing_nodes (cl : plan_cluster) (job : plan_job) : outcome Z :=
  ofold (fun req p =>
    let! n := node_of p in
    if cores_total n >=? pj_req_ppn job then
      if pj_req_ppn job =? 0 then UB else Ret (i32 (req - Z.quot (cores_total n) (pj_req_ppn job)))
    else Ret req) (pc_nodes cl) (pj_req_num_nodes job).

(** Whether some node has enough GPUs. *)
Definition has_gpus (cl : plan_cluster) (job : plan_job) : outcome bool :=
  ofold (fun found p =>
    if found : bool then Ret true
    else
      let! n := node_of p in
      Ret (match get_resource (data n) "gpu" with
           | Some res => pj_req_gpu job <=? p_max res
           | None => false
           end)) (pc_nodes cl) false.

(** Zero when the cluster suits the job.  The answers on GPUs are the wrong way
    round in the source. *)
Definition check_cluster_suitable (queues : list queue_info) (q : queue_info) (cl : plan_cluster) (job : plan_job)
    (jinfo : JobInfo) : outcome Z :=
  if pj_req_scratch_local job =? -2 then Ret 1
  else if queue_excludes queues q cl then Ret 1
  else
    let! request := parse_request jinfo in
    match request with
    | None => Ret SCHD_ERROR
    | Some spec =>
        let! part := of_option (head (spec_nodes spec)) in
        if existsb (request_excludes cl) (properties part) then Ret 1
        else if String.eqb (placement jinfo) "" && (hd0 (placement jinfo) =c "^") && in_cluster cl (tl0 (placement jinfo))
        then Ret 1
        else
          let! missing := missing_nodes cl job in
          if missing <=? 0 then Ret 0
          else if pj_req_gpu job >? 0 then
            let! found := has_gpus cl job in Ret (if found then 1 else 0)
          else Ret 1
    end.

(** The scratch of the first part of the request; [-2] when it is not local. *)
Definition job_get_scratch_local (jinfo : JobInfo) : outcome Z :=
  let! request := parse_request jinfo in
  match request with
  | None => Ret (-1)
  | Some spec =>
      let! part := of_option (head (spec_nodes spec)) in
      Ret (match scratch_type part with
           | ScratchSSD | ScratchShared => -2
           | _ => i64 (scratch part)
           end)
  end.
End Suitable.

(** ** Where the nodes are *)

Definition cluster_of (n : node_info) : string := default "" (nd_cluster_name n).

(** What is kept beside a schedule: for each node of each cluster, the number of
    processors it had when it was added.  The source adds these up, and does not
    count a node anew when it is replaced. *)
Abbreviation counts := (list (list Z)).

(** A node, with its name and its count, at a place of a cluster of the given name. *)
Definition node_at_place (cname name : string) (p : positive) (c : Z) (cl : plan_cluster) (k : list Z) (j : nat) : Prop :=
  pc_cluster_name cl = Some cname /\ pc_nodes_name cl !! j = Some name /\ pc_nodes cl !! j = Some p /\ k !! j = Some c.

Definition placed (cs : counts) (s : sched) (cname name : string) (p : positive) (c : Z) : Prop :=
  exists i cl k j, s_clusters s !! i = Some cl /\ cs !! i = Some k /\ node_at_place cname name p c cl k j.

Section Placed.
Variable junk : plan_cluster.
Variable junk_updated : Z.

Record cluster_ok (k : list Z) (cl : plan_cluster) : Prop := {
  co_nodes : pc_num_nodes cl = i32 (Z.of_nat (length (pc_nodes cl)));
  co_names : length (pc_nodes_name cl) = length (pc_nodes cl);
  co_counts : length k = length (pc_nodes cl);
  co_cpus : pc_num_cpus cl = i32 (sumZ id k);
  co_nodup : NoDup (pc_nodes_name cl);
  co_named : is_Some (pc_cluster_name cl)
}.

Record sched_ok (cs : counts) (s : sched) : Prop := {
  so_num : s_num_clusters s = i32 (Z.of_nat (length (s_clusters s)));
  so_jobs : length (s_jobs s) = length (s_clusters s);
  so_gaps : length (s_gaps s) = length (s_clusters s);
  so_limits : length (s_limits s) = length (s_clusters s);
  so_updated : length (s_updated s) = length (s_clusters s);
  so_clusters : Forall2 cluster_ok cs (s_clusters s)
}.

Lemma position_of_Some names name j : position_of names name = Some j -> names !! j = Some name.
Proof.
  revert j. induction names as [|m names IH]; intros j; simpl; [done|].
  destruct (Z.eqb_spec (strcmp m name) 0) as [E|_].
  - intros [= <-]. apply strcmp_eq in E. by subst.
  - destruct (position_of names name); [|done]. intros [= <-]. by apply IH.
Qed.

Lemma position_of_None names name : position_of names name = None -> name ∉ names.
Proof.
  induction names as [|m names IH]; simpl; [set_solver|].
  destruct (Z.eqb_spec (strcmp m name) 0) as [|E]; [done|].
  destruct (position_of names name); [done|]. intros _. rewrite not_elem_of_cons. split; [|by apply IH].
  intros ->. by rewrite strcmp_refl in E.
Qed.

(** What is found: a cluster of the name, and the node in it or a fit. *)
Lemma find_place_spec cls cname n i r :
  find_place cls cname n = Some (i, r) ->
  exists cl, cls !! i = Some cl /\ default "" (pc_cluster_name cl) = cname /\
    match r with
    | Some j => pc_nodes_name cl !! j = Some (node_name n)
    | None => node_name n ∉ pc_nodes_name cl /\ cluster_check_fit cl n = true
    end.
Proof.
  revert i r. induction cls as [|cl cls IH]; intros i r; cbn [find_place]; [done|].
  destruct (String.eqb_spec (default "" (pc_cluster_name cl)) cname) as [E|_].
  - destruct (position_of _ _) as [j|] eqn:Ej.
    + intros [= <- <-]. exists cl. split_and!; [done..|]. by apply position_of_Some.
    + destruct (cluster_check_fit cl n) eqn:Ef.
      * intros [= <- <-]. exists cl. split_and!; [done..|by apply position_of_None|done].
      * destruct (find_place cls cname n) as [[i' r']|]; [|done]. intros [= <- <-]. by apply IH.
  - destruct (find_place cls cname n) as [[i' r']|]; [|done]. intros [= <- <-]. by apply IH.
Qed.

Lemma add_node_fields cl p n :
  pc_nodes (add_node cl p n) = (pc_nodes cl ++ [p])%list /\ pc_nodes_name (add_node cl p n) = (pc_nodes_name cl ++ [node_name n])%list /\
  pc_num_nodes (add_node cl p n) = i32 (pc_num_nodes cl + 1) /\ pc_num_cpus (add_node cl p n) = i32 (pc_num_cpus cl + cores_total n) /\
  pc_cluster_name (add_node cl p n) = pc_cluster_name cl.
Proof. unfold add_node. by destruct (negb (is_off n)). Qed.

Lemma add_node_ok k cl p n :
  cluster_ok k cl -> node_name n ∉ pc_nodes_name cl -> cluster_ok (k ++ [cores_total n]) (add_node cl p n).
Proof.
  intros [H1 H2 H3 H4 H5 H6] Hn. destruct (add_node_fields cl p n) as (E1 & E2 & E3 & E4 & E5).
  constructor; rewrite ?E1, ?E2, ?E3, ?E4, ?E5.
  - rewrite H1, wrap_s_add_l by lia. f_equal. rewrite length_app. simpl. lia.
  - rewrite !length_app. simpl. lia.
  - rewrite !length_app. simpl. lia.
  - rewrite H4, wrap_s_add_l by lia. rewrite sumZ_app. simpl. unfold id. f_equal. lia.
  - apply NoDup_app. split_and!; [done| |by apply NoDup_singleton]. intros x Hx ->%list_elem_of_singleton. done.
  - done.
Qed.

(** A job that needs GPUs is sent to the clusters that lack them: when its
    processors do not fit, a cluster with a node that has the GPUs does not suit
    it, and one without does. *)
Lemma gpu_answer_is_inverted parse_nodespec default_queue nodes queues q cl job jinfo spec part missing found :
  pj_req_scratch_local job <> -2 -> queue_excludes default_queue queues q cl = false ->
  parse_request parse_nodespec jinfo = Ret (Some spec) -> head (spec_nodes spec) = Some part ->
  existsb (request_excludes cl) (properties part) = false ->
  missing_nodes nodes cl job = Ret missing -> 0 < missing -> 0 < pj_req_gpu job -> has_gpus nodes cl job = Ret found ->
  check_cluster_suitable parse_nodespec default_queue nodes queues q cl job jinfo = Ret (if found then 1 else 0).
Proof.
  intros H1 H2 H3 H4 H5 H6 H7 H8 H9. unfold check_cluster_suitable.
  destruct (Z.eqb_spec (pj_req_scratch_local job) (-2)); [done|]. rewrite H2, H3. cbn [obind]. rewrite H4. cbn [of_option obind].
  rewrite H5. destruct (String.eqb_spec (placement jinfo) "") as [->|_]; cbn [andb hd0];
    rewrite H6; cbn [obind]; (destruct (Z.leb_spec missing 0); [lia|]);
    (destruct (Z.gtb_spec (pj_req_gpu job) 0); [|lia]); by rewrite H9.
Qed.

(** Changing one cluster of a schedule, and its counts. *)
Lemma alter_clusters_ok f g i cs s :
  (forall k cl, s_clusters s !! i = Some cl -> cluster_ok k cl -> cluster_ok (g k) (f cl)) -> sched_ok cs s ->
  sched_ok (alter g i cs) (s <| s_clusters := alter f i (s_clusters s) |>).
Proof.
  intros Hf [H1 H2 H3 H4 H5 H6]. constructor; cbn -[alter]; rewrite ?length_alter; try done.
  apply Forall2_alter; [done|]. intros k cl _ Hcl. by apply Hf.
Qed.

Lemma alter_placed f g i cs s cname name q c :
  (forall k cl j, s_clusters s !! i = Some cl -> cs !! i = Some k ->
    node_at_place cname name q c (f cl) (g k) j <-> node_at_place cname name q c cl k j) ->
  placed (alter g i cs) (s <| s_clusters := alter f i (s_clusters s) |>) cname name q c <-> placed cs s cname name q c.
Proof.
  intros Hf. unfold placed. cbn -[alter]. split; intros (m & cl & k & j & Hm & Hk & H); (destruct (decide (i = m)) as [<-|Hne];
    [|exists m, cl, k, j; rewrite ?list_lookup_alter_ne in * by done; done]).
  - rewrite list_lookup_alter_eq in Hm. rewrite list_lookup_alter_eq in Hk. destruct (s_clusters s !! i) as [cl0|] eqn:E; [|done].
    destruct (cs !! i) as [k0|] eqn:E'; [|done]. injection Hm as <-. injection Hk as <-.
    exists i, cl0, k0, j. rewrite E, E'. split_and!; [done..|]. by apply Hf.
  - exists i, (f cl), (g k), j. rewrite !list_lookup_alter_eq, Hm, Hk. split_and!; [done..|]. by apply Hf.
Qed.

Lemma alter_counts_id (i : nat) (cs : counts) : alter (fun k => k) i cs = cs.
Proof. by apply list_alter_id. Qed.

(** The node of a name keeps its place and its count unless it is the one that is
    placed. *)
Definition others_stay (n : node_info) (cs : counts) (s : sched) (cs' : counts) (s' : sched) : Prop :=
  forall cname name q c, (cname, name) <> (cluster_of n, node_name n) -> placed cs' s' cname name q c <-> placed cs s cname name q c.

(** The count of a node that is placed is the number of its processors when it is
    new, and the one it had when it was known. *)
Definition counted (cs : counts) (s : sched) (n : node_info) (c : Z) : Prop :=
  c = cores_total n \/ exists q, placed cs s (cluster_of n) (node_name n) q c.

(** No count is changed. *)
Definition counts_kept (cs cs' : counts) : Prop := forall i k, cs !! i = Some k -> exists k', cs' !! i = Some k' /\ k `prefix_of` k'.

Lemma counts_kept_refl cs : counts_kept cs cs.
Proof. intros i k Hk. by exists k. Qed.

Lemma counts_kept_trans cs1 cs2 cs3 : counts_kept cs1 cs2 -> counts_kept cs2 cs3 -> counts_kept cs1 cs3.
Proof. intros H1 H2 i k Hk. destruct (H1 i k Hk) as (k' & Hk' & ?). destruct (H2 i k' Hk') as (k3 & ? & ?). exists k3. split; [done|by etrans]. Qed.

Lemma counts_kept_alter (c : Z) i cs : counts_kept cs (alter (fun k => k ++ [c])%list i cs).
Proof.
  intros m k Hk. destruct (decide (i = m)) as [<-|Hne].
  - exists (k ++ [c])%list. split; [by rewrite list_lookup_alter_eq, Hk|by apply prefix_app_r].
  - exists k. by rewrite list_lookup_alter_ne.
Qed.

Lemma set_server_ok cs s i sinfo : sched_ok cs s -> sched_ok cs (plan_set_cluster_server s i sinfo).
Proof. rewrite <- (alter_counts_id i cs) at 2. apply alter_clusters_ok. by intros k cl _ []. Qed.

Lemma set_server_placed cs s i sinfo cname name q c :
  placed cs (plan_set_cluster_server s i sinfo) cname name q c <-> placed cs s cname name q c.
Proof. rewrite <- (alter_counts_id i cs) at 1. by apply alter_placed. Qed.

(** What placing a node gives. *)
Record placing (n : node_info) (p : positive) (cs : counts) (s : sched) (cs' : counts) (s' : sched) : Prop := {
  pg_ok : sched_ok cs' s';
  pg_placed : exists c, placed cs' s' (cluster_of n) (node_name n) p c /\ counted cs s n c;
  pg_others : others_stay n cs s cs' s';
  pg_counts : counts_kept cs cs'
}.

Lemma set_server_placing n p cs s cs' s' i sinfo :
  placing n p cs s cs' s' -> placing n p cs s cs' (plan_set_cluster_server s' i sinfo).
Proof.
  intros [H1 (c & H2 & H3) H4 H5]. constructor; [by apply set_server_ok| | |done].
  - exists c. split; [by apply set_server_placed|done].
  - intros cn name q d Hne. rewrite set_server_placed. by apply H4.
Qed.

Lemma replace_node_spec cs s i j cl n p :
  sched_ok cs s -> s_clusters s !! i = Some cl -> pc_cluster_name cl = Some (cluster_of n) ->
  pc_nodes_name cl !! j = Some (node_name n) ->
  placing n p cs s cs (s <| s_clusters := alter (fun cl => cl <| pc_nodes := <[j := p]> (pc_nodes cl) |>) i (s_clusters s) |>).
Proof.
  intros Hok Hi Hname Hj. destruct (Forall2_lookup_r _ _ _ i cl (so_clusters _ _ Hok) Hi) as (k & Hk & Hcl).
  assert (Hlt : (j < length (pc_nodes cl))%nat) by (rewrite <- (co_names _ _ Hcl); by apply lookup_lt_Some in Hj).
  destruct (lookup_lt_is_Some_2 k j) as [c Hc]; [by rewrite (co_counts _ _ Hcl)|].
  destruct (lookup_lt_is_Some_2 (pc_nodes cl) j Hlt) as [q0 Hq0].
  constructor; [| | |by apply counts_kept_refl].
  - rewrite <- (alter_counts_id i cs). apply alter_clusters_ok; [|done].
    intros k' cl' _ []. constructor; cbn -[insert]; rewrite ?length_insert; done.
  - exists c. split; [|right; exists q0; by exists i, cl, k, j].
    exists i, (cl <| pc_nodes := <[j := p]> (pc_nodes cl) |>), k, j.
    split; [cbn -[alter insert]; by rewrite list_lookup_alter_eq, Hi|]. unfold node_at_place. split_and!; try done.
    cbn -[insert]. by apply list_lookup_insert_eq.
  - intros cname name q d Hne. rewrite <- (alter_counts_id i cs) at 1. apply alter_placed.
    intros k' cl' j' Hi' _. assert (cl' = cl) as -> by congruence. unfold node_at_place. cbn -[insert].
    destruct (decide (j = j')) as [<-|Hjj]; [|by rewrite list_lookup_insert_ne].
    split; intros (H1 & H2 & _); destruct Hne; congruence.
Qed.

Lemma extend_cluster_spec cs s i cl n p :
  sched_ok cs s -> s_clusters s !! i = Some cl -> pc_cluster_name cl = Some (cluster_of n) ->
  node_name n ∉ pc_nodes_name cl ->
  placing n p cs s (alter (fun k => k ++ [cores_total n])%list i cs) (cluster_add_node s i p n).
Proof.
  intros Hok Hi Hname Hn. destruct (Forall2_lookup_r _ _ _ i cl (so_clusters _ _ Hok) Hi) as (k & Hk & Hcl).
  constructor; [| | |apply counts_kept_alter].
  - apply alter_clusters_ok; [|done]. intros k' cl' Hi' Hok'. assert (cl' = cl) as -> by congruence. by apply add_node_ok.
  - exists (cores_total n). split; [|by left]. destruct (add_node_fields cl p n) as (E1 & E2 & _ & _ & E5).
    exists i, (add_node cl p n), (k ++ [cores_total n])%list, (length (pc_nodes cl)). unfold cluster_add_node.
    split; [cbn -[alter]; by rewrite list_lookup_alter_eq, Hi|]. split; [by rewrite list_lookup_alter_eq, Hk|].
    unfold node_at_place. rewrite E1, E2, E5. split; [done|].
    rewrite !lookup_app_r by (rewrite ?(co_names _ _ Hcl), ?(co_counts _ _ Hcl); lia).
    by rewrite (co_names _ _ Hcl), (co_counts _ _ Hcl), Nat.sub_diag.
  - intros cname name q d Hne. apply alter_placed. intros k' cl' j' Hi' Hk'.
    assert (cl' = cl) as -> by congruence. assert (k' = k) as -> by congruence.
    destruct (add_node_fields cl p n) as (E1 & E2 & _ & _ & E5). unfold node_at_place. rewrite E1, E2, E5.
    split; intros (H1 & H2 & H3 & H4); (split; [done|]); [|by split_and!; apply lookup_app_l_Some].
    apply lookup_app_Some in H2 as [H2|[_ H2]].
    + pose proof (lookup_lt_Some _ _ _ H2). rewrite lookup_app_l in H3 by (rewrite <- (co_names _ _ Hcl); done).
      rewrite lookup_app_l in H4 by (rewrite (co_counts _ _ Hcl), <- (co_names _ _ Hcl); done). done.
    + apply list_lookup_singleton_Some in H2 as [_ H2]. destruct Hne. congruence.
Qed.

Lemma new_cluster_ok cs s cname props :
  sched_ok cs s ->
  let s' := schedule_add_cluster junk junk_updated s cname props in
  sched_ok (cs ++ [[]]) s' /\ (forall cn name q c, placed (cs ++ [[]]) s' cn name q c <-> placed cs s cn name q c) /\
  counts_kept cs (cs ++ [[]]) /\
  exists cl, s_clusters s' !! length (s_clusters s) = Some cl /\ pc_cluster_name cl = Some cname /\ pc_nodes_name cl = [].
Proof.
  intros [H1 H2 H3 H4 H5 H6] s'. split_and!.
  - constructor; unfold s', schedule_add_cluster; cbn -[i32]; rewrite ?length_app; cbn [length]; try lia.
    + rewrite H1, wrap_s_add_l by lia. f_equal. lia.
    + apply Forall2_app; [done|]. repeat constructor; simpl; done.
  - intros cn name q c. unfold s', placed. cbn. split; intros (m & cl & k & j & Hm & Hk & Hrest); exists m, cl, k, j.
    + apply lookup_app_Some in Hm as [Hm|[Hge Hm]]; [|apply list_lookup_singleton_Some in Hm as [_ <-]; by destruct Hrest as (_ & ? & _)].
      pose proof (lookup_lt_Some _ _ _ Hm). pose proof (Forall2_length _ _ _ H6).
      rewrite lookup_app_l in Hk by lia. done.
    + split; [by apply lookup_app_l_Some|]. split; [by apply lookup_app_l_Some|done].
  - intros i k Hk. exists k. split; [by apply lookup_app_l_Some|done].
  - eexists. split; [unfold s'; cbn; rewrite lookup_app_r, Nat.sub_diag by lia; reflexivity|]. by split.
Qed.

(** A node put in the cluster that was just made. *)
Lemma new_cluster_placing cs s n p :
  sched_ok cs s ->
  placing n p cs s (alter (fun k => k ++ [cores_total n])%list (length (s_clusters s)) (cs ++ [[]])%list)
    (cluster_add_node (schedule_add_cluster junk junk_updated s (cluster_of n) (p_phys_props (data n))) (length (s_clusters s)) p n).
Proof.
  intros Hok. destruct (new_cluster_ok cs s (cluster_of n) (p_phys_props (data n)) Hok) as (H1 & H2 & H3 & cl & Hcl & Hnm & Hnone).
  destruct (extend_cluster_spec _ _ _ cl n p H1 Hcl Hnm ltac:(rewrite Hnone; set_solver)) as [G1 (c & G2 & _) G3 G4].
  pose proof (Forall2_length _ _ _ (so_clusters _ _ Hok)) as Hlen.
  constructor; [done| | |by eapply counts_kept_trans].
  - exists (cores_total n). split; [|by left]. destruct (add_node_fields cl p n) as (E1 & E2 & _ & _ & E5).
    set (i := length (s_clusters s)) in *. destruct (Forall2_lookup_r _ _ _ i cl (so_clusters _ _ H1) Hcl) as (k & Hk & Hok').
    exists i, (add_node cl p n), (k ++ [cores_total n])%list, (length (pc_nodes cl)). unfold cluster_add_node.
    split; [cbn -[alter schedule_add_cluster]; by rewrite list_lookup_alter_eq, Hcl|]. split; [by rewrite list_lookup_alter_eq, Hk|].
    unfold node_at_place. rewrite E1, E2, E5. split; [done|].
    rewrite !lookup_app_r by (rewrite ?(co_names _ _ Hok'), ?(co_counts _ _ Hok'); lia).
    by rewrite (co_names _ _ Hok'), (co_counts _ _ Hok'), Nat.sub_diag.
  - intros cn name q d Hne. rewrite (G3 cn name q d Hne). apply H2.
Qed.

Lemma find_cluster_spec nodes cs s sinfo p n :
  sched_ok cs s -> nodes !! p = Some n ->
  exists cs' s', plan_find_cluster_for_node junk junk_updated nodes s sinfo p =
      Ret (<[p := n <| nd_cluster_name := Some (cluster_of n) |>]> nodes, s') /\ placing n p cs s cs' s'.
Proof.
  intros Hok Hp. unfold plan_find_cluster_for_node. rewrite Hp. cbn [of_option obind]. fold (cluster_of n).
  destruct (find_place (s_clusters s) (cluster_of n) n) as [[i r]|] eqn:E; cbv zeta.
  - destruct (find_place_spec _ _ _ _ _ E) as (cl & Hi & Hname & Hr).
    destruct (Forall2_lookup_r _ _ _ i cl (so_clusters _ _ Hok) Hi) as (k & _ & Hcl).
    destruct (co_named _ _ Hcl) as [nm Hnm]. rewrite Hnm in Hname. simpl in Hname. subst nm.
    destruct r as [j|]; eexists _, _; (split; [reflexivity|]); apply set_server_placing.
    + by eapply replace_node_spec.
    + destruct Hr as [Hr _]. by eapply extend_cluster_spec.
  - eexists _, _. split; [reflexivity|]. apply set_server_placing. by apply new_cluster_placing.
Qed.

(** The lists of the clusters there are stay as they are. *)
Definition plans_kept (s s' : sched) : Prop :=
  s_jobs s `prefix_of` s_jobs s' /\ s_gaps s `prefix_of` s_gaps s' /\ s_limits s `prefix_of` s_limits s'.

Lemma plans_kept_trans s1 s2 s3 : plans_kept s1 s2 -> plans_kept s2 s3 -> plans_kept s1 s3.
Proof. intros (H1 & H2 & H3) (G1 & G2 & G3). split_and!; by etrans. Qed.

Lemma find_cluster_plans nodes s sinfo p nodes' s' :
  plan_find_cluster_for_node junk junk_updated nodes s sinfo p = Ret (nodes', s') -> plans_kept s s'.
Proof.
  unfold plan_find_cluster_for_node. destruct (nodes !! p) as [n|]; [|done]. cbn [of_option obind]. intros [= _ <-].
  destruct (find_place _ _ _) as [[i [j|]]|]; cbv zeta; unfold plans_kept; cbn -[alter]; split_and!; try done;
    by apply prefix_app_r.
Qed.

Lemma Forall2_impl_elem {A B} (P Q : A -> B -> Prop) l k :
  (forall x y, x ∈ l -> P x y -> Q x y) -> Forall2 P l k -> Forall2 Q l k.
Proof.
  intros H Hall. induction Hall as [|x y l k Hxy Hall IH]; constructor; [apply H; [by left|done]|].
  apply IH. intros a b Ha. apply H. by right.
Qed.

Lemma Forall2_impl_names {A B} (P Q : A -> B -> Prop) l k :
  (forall x y, y ∈ k -> P x y -> Q x y) -> Forall2 P l k -> Forall2 Q l k.
Proof.
  intros H Hall. induction Hall as [|x y l k Hxy Hall IH]; constructor; [apply H; [by left|done]|].
  apply IH. intros a b Hb. apply H. by right.
Qed.

Lemma update_clusters_spec ps ns nodes cs s sinfo :
  sched_ok cs s -> Forall2 (fun p n => nodes !! p = Some n) ps ns -> NoDup ps -> NoDup (node_name <$> ns) ->
  exists nodes' cs' s', plan_update_clusters junk junk_updated nodes s sinfo ps = Ret (nodes', s') /\ sched_ok cs' s' /\
    Forall2 (fun p n => exists c, placed cs' s' (cluster_of n) (node_name n) p c /\ counted cs s n c) ps ns /\
    counts_kept cs cs' /\ plans_kept s s' /\
    forall cname name q c, name ∉ node_name <$> ns -> placed cs' s' cname name q c <-> placed cs s cname name q c.
Proof.
  revert ns nodes cs s. induction ps as [|p ps IH]; intros ns nodes cs s Hok Hps Hnd Hnames.
  - apply Forall2_nil_inv_l in Hps as ->. exists nodes, cs, s. split_and!; try done. apply counts_kept_refl.
  - apply Forall2_cons_inv_l in Hps as (n & ns' & Hp & Hps & ->).
    apply NoDup_cons in Hnd as [Hpn Hnd]. rewrite fmap_cons in Hnames. apply NoDup_cons in Hnames as [Hn Hnames].
    destruct (find_cluster_spec nodes cs s sinfo p n Hok Hp) as (cs1 & s1 & E1 & [Hok1 (c & Hp1 & Hc1) Ho1 Hk1]).
    pose proof (find_cluster_plans _ _ _ _ _ _ E1) as Hpl1.
    destruct (IH ns' (<[p := n <| nd_cluster_name := Some (cluster_of n) |>]> nodes) cs1 s1 Hok1)
      as (nodes' & cs' & s' & E & Hok' & Hall & Hk & Hpl & Ho); [|done..|].
    { eapply Forall2_impl_elem; [|exact Hps]. intros q m Hq Hm. rewrite lookup_insert_ne; [done|]. by intros ->. }
    exists nodes', cs', s'. unfold plan_update_clusters in *. cbn [ofold]. rewrite E1. cbn [obind]. split_and!; [done..| | | |].
    + constructor; [exists c; split; [by apply Ho|done]|]. eapply Forall2_impl_names; [|exact Hall].
      intros q m Hm (d & Hd & Hcd). exists d. split; [done|]. destruct Hcd as [->|[q' Hq']]; [by left|right]. exists q'.
      apply (Ho1 (cluster_of m)); [|done]. intros [= _ E']. apply Hn. rewrite <- E'. by apply list_elem_of_fmap_2.
    + by eapply counts_kept_trans.
    + by eapply plans_kept_trans.
    + intros cname name q d Hname. rewrite fmap_cons in Hname. apply not_elem_of_cons in Hname as [Hne Hname].
      rewrite (Ho cname name q d Hname). apply Ho1. congruence.
Qed.
End Placed.

(** C25: bringing the clusters up to date with the nodes of the server leaves the
    schedule well formed: each cluster has as many names as nodes, no name twice,
    and the sum of the numbers of processors its nodes had when they were added.
    Every node of the server is then a node of a cluster of its cluster name:
    either it is counted with the processors it has, or it took the place of a
    node of its name which such a cluster knew, and that one's count stays, also
    when the node came back with another number of processors.  The nodes of other
    names keep their places and counts, none of them is added, and the lists of
    the clusters there were are not touched. *)
Theorem updating_clusters_places_every_node (junk : plan_cluster) (junk_updated : Z) (cs : counts)
    (nodes : gmap positive node_info) (s : sched) (sinfo : option positive) (ps : list positive) (ns : list node_info)
    (Hok : sched_ok cs s) (Hnodes : Forall2 (fun p n => nodes !! p = Some n) ps ns)
    (Hkeys : NoDup ps) (Hnames : NoDup (node_name <$> ns)) :
  exists nodes' cs' s', plan_update_clusters junk junk_updated nodes s sinfo ps = Ret (nodes', s') /\ sched_ok cs' s' /\
    Forall2 (fun p n => exists c, placed cs' s' (cluster_of n) (node_name n) p c /\ counted cs s n c) ps ns /\
    counts_kept cs cs' /\ plans_kept s s' /\
    forall cname name q c, name ∉ node_name <$> ns -> placed cs' s' cname name q c <-> placed cs s cname name q c.
Proof. by apply update_clusters_spec. Qed.

Definition example_node (name : string) (np : Z) (props : gset string) (cluster : option string) : node_info :=
  new_node_info (new_NodeData name np np false <| p_phys_props := props |>) MagratheaStateNone <| nd_cluster_name := cluster |>.

Definition example_nodes : gmap positive node_info :=
  {[ 1%positive := example_node "n1" 4 {[ "infiniband" ]} (Some "c1"); 2%positive := example_node "n2" 8 {[ "infiniband"; "max_2h" ]} (Some "c1") ]}.

Definition empty_cluster : plan_cluster := mkCluster None 0 ∅ None 0 [] [] 0 0 0 0.

(** The node 1 is new; it comes back as node 3 with twice as many processors, and
    the cluster still has four. *)
Definition grown_nodes : gmap positive node_info :=
  <[3%positive := example_node "n1" 8 {[ "infiniband" ]} (Some "c1")]> example_nodes.

Definition sched_after (nodes : gmap positive node_info) (s : sched) (ps : list positive) : sched :=
  match plan_update_clusters empty_cluster 0 nodes s None ps with Ret (_, s) => s | _ => s end.

Lemma updating_clusters_places_every_node_witness :
  let s := sched_after grown_nodes schedule_create [1%positive; 2%positive] in
  let s' := sched_after grown_nodes s [3%positive] in
  exists cs', sched_ok cs' s' /\ (exists c, placed cs' s' "c1" "n1" 3 c) /\
    (pc_num_cpus <$> s_clusters s') = [12] /\ (pc_nodes <$> s_clusters s') = [[3%positive; 2%positive]] /\
    cores_total (example_node "n1" 8 {[ "infiniband" ]} (Some "c1")) = 8.
Proof.
  intros s s'.
  destruct (updating_clusters_places_every_node empty_cluster 0 [] grown_nodes schedule_create None [1%positive; 2%positive]
    [example_node "n1" 4 {[ "infiniband" ]} (Some "c1"); example_node "n2" 8 {[ "infiniband"; "max_2h" ]} (Some "c1")])
    as (nodes & cs & s0 & E & Hok & _).
  - constructor; try reflexivity. constructor.
  - constructor; [reflexivity|]. constructor; [reflexivity|constructor].
  - apply (bool_decide_unpack _). vm_compute. exact I.
  - apply (bool_decide_unpack _). vm_compute. exact I.
  - assert (s0 = s) as -> by (unfold s, sched_after; rewrite E; reflexivity).
    destruct (updating_clusters_places_every_node empty_cluster 0 cs grown_nodes s None [3%positive]
      [example_node "n1" 8 {[ "infiniband" ]} (Some "c1")] Hok) as (nodes' & cs' & s1 & E' & Hok' & Hall & _).
    + constructor; [reflexivity|constructor].
    + apply (bool_decide_unpack _). vm_compute. exact I.
    + apply (bool_decide_unpack _). vm_compute. exact I.
    + assert (s1 = s') as -> by (unfold s', sched_after; rewrite E'; reflexivity).
      exists cs'. apply Forall2_cons in Hall as [(c & Hc & _) _]. split; [exact Hok'|]. split; [exists c; exact Hc|].
      split; [vm_compute; reflexivity|]. split; vm_compute; reflexivity.
Defined.
