(* ===== verification/PlanSlots.v ===== *)
(** * First free slots: plan_first_free_slot.cpp, and the gaps made of them

    To plan a cluster anew, the scheduler keeps for each of its processors the
    time from which it is free, and the memory that its node then has.  The slots
    of a node are neighbours in the array; they share the array of their indices.
    The gaps of plan_gaps.cpp and plan_gaps_memory.cpp are read off the slots. *)

From Stdlib Require Import ZArith Lia Bool Ascii String.
From S2P Require Import Prelude CString MiscHelpers Resource DataTypes NodeData JobInfo NodeLogic PlanData PlanList PlanValues PlanGaps PlanTime PlanClusters.

Local Open Scope string_scope.
Open Scope Z_scope.
Local Open Scope sched_scope.

Abbreviation slots := (list first_free_slot).

(** ** Access *)

Definition index_of (i : Z) : outcome nat := if i <? 0 then UB else Ret (Z.to_nat i).

Definition slot_at (ss : slots) (i : nat) : outcome first_free_slot := of_option (ss !! i).
Definition slot_node (s : first_free_slot) : outcome positive := of_option (ff_ninfo s).

Definition update_slot (f : first_free_slot -> first_free_slot) (ss : slots) (i : nat) : outcome slots :=
  let! s := slot_at ss i in Ret (<[i := f s]> ss).

Definition update_slots (f : first_free_slot -> first_free_slot) (idx : list nat) (ss : slots) : outcome slots :=
  ofold (update_slot f) idx ss.

Section Slots.
(** The Torque library: the error code of [decode_time], and the parser of
    nodespecs. *)
Variable badval : Z.
Variable parse_nodespec : string -> option pars_spec.
Variable jinfos : gmap positive JobInfo.

Definition slot_cores (nodes : gmap positive node_info) (s : first_free_slot) : outcome Z :=
  let! p := slot_node s in let! n := of_option (nodes !! p) in Ret (cores_total n).

(** ** first_free_slots_create *)

(** A slot as it is allocated; the fields left uninitialised are those of an
    empty record, of which only the node is looked at before it is set. *)
Definition blank_slot : first_free_slot := mkSlot (-1) None 0 [] 0 0 0 0 0 0 0.

Definition new_slot (p : positive) (n : node_info) (releated_cpus : list Z) : first_free_slot :=
  mkSlot (-1) (Some p) 0 releated_cpus (get_node_mem n) (get_node_scratch_local n) (get_node_mem n)
    (get_node_scratch_local n) 0 0 0.

(** The slots of a node follow those before; there must be room for one even if
    the node has no processor. *)
Definition create_node_slots (nodes : gmap positive node_info) (num_cpus : nat) (ss : slots) (p : positive) : outcome slots :=
  let! n := of_option (nodes !! p) in
  let counter := length ss in
  let cores := Z.to_nat (cores_total n) in
  if decide (counter < num_cpus /\ counter + cores <= num_cpus)%nat then
    Ret (ss ++ replicate cores (new_slot p n (Z.of_nat <$> seq counter cores)))%list
  else UB.

Definition first_free_slots_create (nodes : gmap positive node_info) (cl : plan_cluster) : outcome slots :=
  let num_cpus := Z.to_nat (pc_num_cpus cl) in
  let! ss := ofold (create_node_slots nodes num_cpus) (pc_nodes cl) [] in
  Ret (ss ++ replicate (num_cpus - length ss) blank_slot)%list.

(** More processors than the cluster counts, as after a node came back with more
    of them, overrun the array. *)
Lemma uncounted_processors_overrun nodes cl ns :
  Forall2 (fun p n => nodes !! p = Some n) (pc_nodes cl) ns -> Forall (fun n => 0 <= cores_total n) ns ->
  0 <= pc_num_cpus cl < sumZ cores_total ns -> first_free_slots_create nodes cl = UB.
Proof.
  intros Hns Hpos Hsum. unfold first_free_slots_create.
  assert (forall ss : slots, pc_num_cpus cl < Z.of_nat (length ss) + sumZ cores_total ns -> (length ss <= Z.to_nat (pc_num_cpus cl))%nat ->
    ofold (create_node_slots nodes (Z.to_nat (pc_num_cpus cl))) (pc_nodes cl) ss = UB) as ->; [|done|cbn [length]; lia|cbn [length]; lia].
  destruct Hsum as [Hpos0 _]. revert Hpos. induction Hns as [|p n ps ns Hp Hns IH]; intros Hpos ss Hss Hle; [simpl in Hss; lia|].
  rewrite sumZ_cons in Hss. cbn [ofold].
  apply Forall_cons in Hpos as [Hn Hpos].
  assert (create_node_slots nodes (Z.to_nat (pc_num_cpus cl)) ss p = UB \/
    exists new, (length ss + Z.to_nat (cores_total n) <= Z.to_nat (pc_num_cpus cl))%nat /\ length new = Z.to_nat (cores_total n) /\
      create_node_slots nodes (Z.to_nat (pc_num_cpus cl)) ss p = Ret (ss ++ new)%list) as [->|(new & Hfit & Hnew & ->)]; [|done|].
  - unfold create_node_slots. rewrite Hp. cbn [of_option obind]. destruct (decide _) as [[_ Hfit]|_]; [right|by left].
    eexists. split; [exact Hfit|]. split; [|reflexivity]. by rewrite length_replicate.
  - cbn [obind]. apply IH; [done|..]; rewrite length_app; lia.
Qed.

(** ** first_free_slots_initialize *)

Definition is_unavailable (n : node_info) : bool :=
  is_off n || p_is_unknown (nd_state (data n)) || p_is_reserved (nd_state (data n)) || p_is_busy (nd_state (data n)).

(** The walltime limits of the node of a slot. *)
Definition set_limits (nodes : gmap positive node_info) (s : first_free_slot) : outcome (gmap positive node_info) :=
  let! p := slot_node s in
  let! n := of_option (nodes !! p) in
  let! lo := get_walltime_limit_min badval (p_phys_props (data n)) in
  let! hi := get_walltime_limit_max badval (p_phys_props (data n)) in
  Ret (<[p := n <| walltime_limit_min := lo |> <| walltime_limit_max := hi |>]> nodes).

Definition idle_slot (time free : Z) (s : first_free_slot) : first_free_slot :=
  s <| ff_free_to_run := free |> <| ff_time := time |> <| ff_mem_used_per_cpu := 0 |> <| ff_scratch_local_used_per_cpu := 0 |>.

(** The slot of a processor that runs a job: an overdue job is taken to end in a
    second. *)
Definition busy_slot (time : Z) (j : JobInfo) (s : first_free_slot) : outcome first_free_slot :=
  let! walltime := of_option (find_resource_req (resreq j) "walltime") in
  let ends := i64 (stime j + req_amount walltime) in
  let ends := if ends <=? time then i64 (time + 1) else ends in
  let! mem := of_option (find_resource_req (resreq j) "mem") in
  let! scratch := job_get_scratch_local parse_nodespec j in
  let! procs := of_option (find_resource_req (resreq j) "procs") in
  let usage := i32 (req_amount procs) in
  if usage =? 0 then UB
  else Ret (s <| ff_time := ends |> <| ff_free_to_run := 0 |>
              <| ff_mem_used_per_cpu := Z.quot (req_amount mem) usage |>
              <| ff_scratch_local_used_per_cpu := Z.quot scratch usage |>).

Definition slot_of_cpu (time : Z) (jobs : list (option positive)) (j : nat) (s : first_free_slot) : outcome first_free_slot :=
  let! job := of_option (jobs !! j) in
  match job with
  | None => Ret (idle_slot time 1 s)
  | Some p => let! jinfo := of_option (jinfos !! p) in busy_slot time jinfo s
  end.

(** What is left of the memory of a node when the processor is free: what the
    processors that are free later use is taken off. *)
Definition available_at (all : slots) (s : first_free_slot) : first_free_slot :=
  let later := filter (fun s' => ff_time s < ff_time s') all in
  s <| ff_available_mem := fold_left (fun m s' => i64 (m - ff_mem_used_per_cpu s')) later (ff_mem s) |>
    <| ff_available_scratch_local :=
         fold_left (fun m s' => i64 (m - ff_scratch_local_used_per_cpu s')) later (ff_scratch_local s) |>.

Record init_state := mkInit {
  in_nodes : gmap positive node_info;
  in_slots : slots;
  in_counter : nat;
  in_running : Z
}.

(** One processor: the limits of its node, and the slot after [f]. *)
Definition init_slot (f : nat -> first_free_slot -> outcome first_free_slot) (counter : nat)
    (st : gmap positive node_info * slots) (j : nat) : outcome (gmap positive node_info * slots) :=
  let '(nodes, ss) := st in
  let! s := slot_at ss (counter + j) in
  let! nodes := set_limits nodes s in
  let! s := f j s in
  Ret (nodes, <[(counter + j)%nat := s]> ss).

Definition init_node (time : Z) (st : init_state) (p : positive) : outcome init_state :=
  let '(mkInit nodes ss counter running) := st in
  let! n := of_option (nodes !! p) in
  let cores := Z.to_nat (cores_total n) in
  let run f := ofold (init_slot f counter) (seq 0 cores) (nodes, ss) in
  if is_unavailable n then
    let! (nodes, ss) := run (fun _ s => Ret (idle_slot (-1) 0 s)) in
    Ret (mkInit nodes ss (counter + cores) (i32 (running - cores_total n)))
  else
    match jobs_on_cpu n with
    | None =>
        let! (nodes, ss) := run (fun _ s => Ret (idle_slot time 1 s)) in
        Ret (mkInit nodes ss (counter + cores) running)
    | Some jobs =>
        let! (nodes, ss) := run (slot_of_cpu time jobs) in
        let mine := take cores (drop counter ss) in
        Ret (mkInit nodes (take counter ss ++ (available_at mine <$> mine) ++ drop (counter + cores) ss)%list
               (counter + cores) running)
    end.

(** The slots, the nodes with their walltime limits, and the cluster with the
    number of its processors that are not on an unavailable node. *)
Definition first_free_slots_initialize (nodes : gmap positive node_info) (cl : plan_cluster) (ss : slots) (time : Z)
  : outcome (gmap positive node_info * plan_cluster * slots) :=
  let! st := ofold (init_node time) (pc_nodes cl) (mkInit nodes ss 0 (pc_num_cpus cl)) in
  Ret (in_nodes st, cl <| pc_num_running_cpus := in_running st |>, in_slots st).
End Slots.

(** ** first_free_slots_update *)

(** The first [n] elements of an array. *)
Definition first_of {A} (n : Z) (l : list A) : outcome (list A) :=
  if n <=? Z.of_nat (length l) then Ret (take (Z.to_nat n) l) else UB.

Section Update.
Variable nodes : gmap positive node_info.
Variable job : plan_job.

(** The indices of the processors of the node of a slot. *)
Definition related (s : first_free_slot) : outcome (list nat) :=
  let! cores := slot_cores nodes s in
  let! idx := first_of cores (ff_releated_cpus s) in
  omap_all index_of idx.

(** The marks: 0 the processors of the job, 1 those free before it starts, 2 those
    free from its start on, 3 those free when it ends, 4 those free later. *)
Definition classify (s : first_free_slot) : first_free_slot :=
  if ff_updated s =? 0 then s
  else
    let u := if ff_time s <? pj_start_time job then 1 else ff_updated s in
    let u := if ff_time s >=? pj_start_time job then 2 else u in
    let u := if ff_time s =? pj_completion_time job then 3 else u in
    let u := if ff_time s >? pj_completion_time job then 4 else u in
    s <| ff_updated := u |>.

(** The job takes its memory from the processors that are free while it runs;
    when it ends, the processors free later still have theirs. *)
Definition release (st : slots * Z * Z) (i : nat) : outcome (slots * Z * Z) :=
  let '(ss, new_mem, new_scratch) := st in
  let! s := slot_at ss i in
  let ss := if ff_updated s =? 2 then <[i := s <| ff_available_mem := i64 (ff_available_mem s - pj_req_mem job) |>]> ss else ss in
  if ff_updated s =? 4 then
    Ret (ss, i64 (new_mem - ff_mem_used_per_cpu s), i64 (new_scratch - ff_scratch_local_used_per_cpu s))
  else Ret (ss, new_mem, new_scratch).

Definition settle (new_mem new_scratch : Z) (ss : slots) (i : nat) : outcome slots :=
  let! s := slot_at ss i in
  if (ff_updated s =? 0) || (ff_updated s =? 3) then
    if pj_req_ppn job =? 0 then UB
    else Ret (<[i := s <| ff_available_mem := new_mem |> <| ff_available_scratch_local := new_scratch |>
                       <| ff_mem_used_per_cpu := Z.quot (pj_req_mem job) (pj_req_ppn job) |>
                       <| ff_scratch_local_used_per_cpu := Z.quot (pj_req_scratch_local job) (pj_req_ppn job) |>]> ss)
  else Ret ss.

(** The node of the slot [first], after [mark] has marked the processors of the job. *)
Definition update_node (mark : slots -> outcome slots) (ss : slots) (first : nat) : outcome slots :=
  let! s := slot_at ss first in
  let! rel := related s in
  let! ss := update_slots (fun s => s <| ff_updated := -1 |>) rel ss in
  let! ss := mark ss in
  let! ss := update_slots classify rel ss in
  let! (ss, new_mem, new_scratch) := ofold release rel (ss, ff_mem s, ff_scratch_local s) in
  ofold (settle new_mem new_scratch) rel ss.

Definition take_slot (s : first_free_slot) : first_free_slot := s <| ff_time := pj_completion_time job |> <| ff_updated := 0 |>.

Definition mark_cpus (ss : slots) : outcome slots :=
  let! cpus := first_of (pj_usage job) (pj_cpu_indexes job) in
  ofold (fun ss c => let! i := index_of c in update_slot take_slot ss i) cpus ss.

Definition first_free_slots_update (ss : slots) : outcome slots :=
  let! firsts := first_of (pj_req_num_nodes job) (pj_latest_ncpu_index job) in
  ofold (fun ss c => let! i := index_of c in update_node mark_cpus ss i) firsts ss.

(** ** first_free_slots_update_exclusive *)

(** Whether the slot is of the node; the node may be null. *)
Definition slot_is_of (s : first_free_slot) (p : option positive) : outcome bool :=
  let! q := slot_node s in Ret (bool_decide (Some q = p)).

Fixpoint first_slot_of (i : nat) (ss : slots) (p : option positive) : outcome (option nat) :=
  match ss with
  | [] => Ret None
  | s :: ss => let! b := slot_is_of s p in if b : bool then Ret (Some i) else first_slot_of (S i) ss p
  end.

Definition mark_nodes (ss : slots) : outcome slots :=
  let! ps := first_of (pj_req_num_nodes job) (pj_ninfo_arr job) in
  ofold (fun ss p =>
    ofold (fun ss i =>
      let! s := slot_at ss i in
      let! b := slot_is_of s p in
      Ret (if b : bool then <[i := take_slot s]> ss else ss)) (seq 0 (length ss)) ss) ps ss.

(** The slot of the node before is used when the node has none. *)
Definition first_free_slots_update_exclusive (ss : slots) : outcome slots :=
  let! ps := first_of (pj_req_num_nodes job) (pj_ninfo_arr job) in
  let! (ss, _) :=
    ofold (fun '(ss, first) p =>
      let! found := first_slot_of 0 ss p in
      let first := match found with Some k => Some k | None => first end in
      let! k := of_option first in
      let! ss := update_node mark_nodes ss k in
      Ret (ss, first)) ps (ss, None) in
  Ret ss.
End Update.

(** ** Gaps from slots *)

(** A free processor is added to the entry of its node. *)
Fixpoint add_free_cpu (ms : list plan_gap_mem) (s : first_free_slot) : list plan_gap_mem :=
  match ms with
  | [] => [new_mem (ff_ninfo s) 1 (ff_available_mem s) (ff_available_scratch_local s)]
  | m :: ms =>
      if bool_decide (gm_ninfo m = ff_ninfo s)
      then m <| gm_available_mem := ff_available_mem s |> <| gm_available_scratch_local := ff_available_scratch_local s |>
             <| gm_num_cpus := i32 (gm_num_cpus m + 1) |> :: ms
      else m :: add_free_cpu ms s
  end.

(** The gap with the processors of the slots that are free before it ends. *)
Definition gap_of_slots (gap : plan_gap) (ss : list first_free_slot) : plan_gap :=
  let ms := fold_left add_free_cpu ss [] in
  gap <| pg_usage := i32 (Z.of_nat (length ss)) |> <| pg_num_nodes := i32 (Z.of_nat (length ms)) |>
      <| pg_nodes_memory := match ms with [] => None | _ => Some ms end |>.

Definition gap_memory_create (gap : plan_gap) (job : plan_job) (ss : slots) : outcome plan_gap :=
  let! cpus := first_of (pj_usage job) (pj_cpu_indexes job) in
  let! mine := omap_all (fun c => slot_at ss (Z.to_nat c)) (filter (fun c => 0 <= c) cpus) in
  let free := filter (fun s => ff_time s < pg_end_time gap) mine in
  let! _ := omap_all slot_node free in
  Ret (gap_of_slots gap free).

(** All processors of the cluster that are not on a node that is off. *)
Definition gap_memory_create_last (nodes : gmap positive node_info) (gap : plan_gap) (ss : slots) : outcome plan_gap :=
  let free := filter (fun s => ff_time s < pg_end_time gap) ss in
  let! on := ofold (fun on s =>
    let! p := slot_node s in
    let! n := of_option (nodes !! p) in
    Ret (if is_off n then on else on ++ [s])%list) free [] in
  Ret (gap_of_slots gap on).

(** The first of the earliest slots that are not used yet. *)
Fixpoint earliest (i : nat) (ss : slots) (used : list bool) (best : option (nat * Z)) : option (nat * Z) :=
  match ss, used with
  | s :: ss, u :: used =>
      let t := match best with Some (_, t) => t | None => PlanGaps.LONG_MAX end in
      earliest (S i) ss used (if (ff_time s <? t) && negb u then Some (i, ff_time s) else best)
  | _, _ => best
  end.

Definition gaps_ith_smallest (ss : slots) (used : list bool) : option nat * list bool :=
  match earliest 0 ss used None with
  | Some (i, _) => (Some i, <[i := true]> used)
  | None => (None, used)
  end.

Section NotTheLast.
Variable nodes : gmap positive node_info.
Variable create : option plan_gap.
(** The fields of a new gap that are set later. *)
Variable junk : plan_gap.
Variable ss : slots.
Variable max_completion_time : Z.

Record gap_walk := mkWalk {
  gw_heap : heap plan_gap;
  gw_list : plan_list;
  gw_used : list bool;
  gw_start : Z
}.

(** One processor: a gap ends when the next processor becomes free. *)
Definition next_gap (st : gap_walk) (_ : nat) : outcome gap_walk :=
  let (cpu_index, used) := gaps_ith_smallest ss (gw_used st) in
  match cpu_index with
  | None => Ret (mkWalk (gw_heap st) (gw_list st) used (gw_start st))
  | Some i =>
      let! s := slot_at ss i in
      let gap_start := if gw_start st =? -1 then ff_time s else gw_start st in
      if gap_start =? ff_time s then Ret (mkWalk (gw_heap st) (gw_list st) used gap_start)
      else
        let gap_end := Z.min (ff_time s) max_completion_time in
        let! (h, l) :=
          if gap_end >? gap_start then
            let gap := item (gap_fillin None junk gap_start gap_end (i64 (gap_end - gap_start)) 0 None None None) in
            let (h, c) := alloc (gw_heap st) gap in
            let! (h, l, _) := list_add_end create h (gw_list st) (Some c) in
            let! gap := gap_memory_create_last nodes gap ss in
            Ret (set_item h c gap, l)
          else Ret (gw_heap st, gw_list st) in
        Ret (mkWalk h l used (ff_time s))
  end.

Definition gap_create_not_the_last (h : heap plan_gap) : outcome (heap plan_gap * plan_list) :=
  let used := (fun s => bool_decide (ff_time s = -1)) <$> ss in
  let! st := ofold next_gap (seq 0 (length ss)) (mkWalk h list_create used (-1)) in
  Ret (gw_heap st, gw_list st).
End NotTheLast.
