(* ===== verification/PlanFind.v ===== *)
(** * Finding a gap for a job: plan_gaps.cpp

    A new job is put in the first gap of a cluster from which on enough nodes
    have room for its parts, for its whole length, and whose limits allow it.  The
    search walks over the gaps, and from each gap and node on over the gaps that
    follow without a break; both walks share the header of the list.  The gaps
    and the limits are only read. *)

From Stdlib Require Import ZArith Lia Bool Ascii String.
From S2P Require Import Prelude CString MiscHelpers Resource DataTypes Config NodeData JobInfo NodeLogic PlanData PlanList PlanValues PlanGaps PlanLimits PlanTime PlanClusters PlanSlots.

Local Open Scope string_scope.
Open Scope Z_scope.
Local Open Scope sched_scope.

(** What a search changes: the positions in the lists, the names of the nodes
    fixed for the job, and the values of the limits. *)
Record search := mkSearch {
  se_gaps : plan_list;
  se_limits : plan_list;
  se_job : plan_job;
  se_values : list Z;
  se_values_global : list Z
}.

#[export] Instance search_fields : Fields search :=
  fields_app (fields_app (fields_app (fields_app (fields_app (fields_const mkSearch)
  se_gaps) se_limits) se_job) se_values) se_values_global.

(** The variables of the walk from a gap on; [next_gap] is not initialised. *)
Record reach := mkReach {
  re_duration : Z;
  re_plan_num_nodes : Z;
  re_tmp_max_nodes_ppn : Z;
  re_considered : list positive;
  re_next_gap : option positive;
  re_gap_ok : bool
}.

#[export] Instance reach_fields : Fields reach :=
  fields_app (fields_app (fields_app (fields_app (fields_app (fields_app (fields_const mkReach)
  re_duration) re_plan_num_nodes) re_tmp_max_nodes_ppn) re_considered) re_next_gap) re_gap_ok.

(** How many parts of a job fit on a node during a gap. *)
Definition check_node_in_gap (gap : plan_gap) (ninfo : option positive) (req_usage req_mem req_scratch_local : Z) : outcome Z :=
  let! ms := memories gap in
  match find_first (fun m => bool_decide (gm_ninfo m = ninfo)) ms with
  | None => Ret 0
  | Some m =>
      if req_usage =? 0 then UB
      else
        let res := Z.quot (gm_num_cpus m) req_usage in
        let res :=
          if (req_mem >? 0) && (res >? Z.quot (gm_available_mem m) req_mem)
          then i32 (Z.quot (gm_available_mem m) req_mem) else res in
        let res :=
          if (req_scratch_local >? 0) && (res >? Z.quot (gm_available_scratch_local m) req_scratch_local)
          then i32 (Z.quot (gm_available_scratch_local m) req_scratch_local) else res in
        Ret res
  end.

Section Find.
Variable badval : Z.
Variable parse_nodespec : string -> option pars_spec.
Variable jinfos : gmap positive JobInfo.
Variable nodes : gmap positive node_info.
Variable limits_map : gmap string (gmap Z cluster_limits_arrays).
Variable limits : heap plan_limit.
Variable cluster : plan_cluster.

Definition job_of (job : plan_job) : outcome JobInfo :=
  let! p := of_option (pj_jinfo job) in of_option (jinfos !! p).

(** [jinfo->is_exclusive()], which parses the nodespec when it has to. *)
Definition job_is_exclusive (job : plan_job) : outcome bool :=
  let! j := job_of job in
  let! spec :=
    match p_parsed_nodespec j with
    | Some spec => Ret spec
    | None => of_option (parse_nodespec (if String.eqb (nodespec j) "" then "1:ppn=1" else nodespec j))
    end in
  Ret (spec_exclusive spec).

(** An exclusive job has one part on a node. *)
Definition places (gap : plan_gap) (ninfo : option positive) (job : plan_job) : outcome Z :=
  let! k := check_node_in_gap gap ninfo (pj_req_ppn job) (pj_req_mem job) (pj_req_scratch_local job) in
  let! excl := job_is_exclusive job in
  Ret (if excl && (k >? 0) then 1 else k).

(** The node of an entry of a gap cannot take the job from the start of the gap. *)
Definition node_unfit (gap : plan_gap) (m : plan_gap_mem) (job : plan_job) : outcome bool :=
  let! p := of_option (gm_ninfo m) in
  let! n := of_option (nodes !! p) in
  let avail_before := p_avail_before (data n) in
  if is_off n
     || (negb (avail_before =? 0) && (avail_before <? i64 (pg_start_time gap + pj_estimated_processing job)))
     || (gm_num_cpus m <? pj_req_ppn job) || (gm_available_mem m <? pj_req_mem job)
     || ((gm_available_scratch_local m >? -1) && (gm_available_scratch_local m <? pj_req_scratch_local job))
  then Ret true
  else
    let! lo := get_walltime_limit_min badval (p_phys_props (data n)) in
    if negb (lo =? 0) && (lo >? pj_estimated_processing job) then Ret true
    else
      let! hi := get_walltime_limit_max badval (p_phys_props (data n)) in
      Ret (negb (hi =? 0) && (hi <? pj_estimated_processing job)).

(** The node lacks the GPUs of the job. *)
Definition lacks_gpu (m : plan_gap_mem) (job : plan_job) : outcome bool :=
  if pj_req_gpu job >? 0 then
    let! p := of_option (gm_ninfo m) in
    let! n := of_option (nodes !! p) in
    Ret (match get_resource (data n) "gpu" with None => true | Some r => pj_req_gpu job >? p_max r end)
  else Ret false.

(** The first [count] names that are null are set. *)
Fixpoint fill_names (count : nat) (names : list (option string)) (name : string) : outcome (list (option string)) :=
  match count with
  | O => Ret names
  | S count =>
      match names with
      | [] => UB
      | x :: names =>
          let! names := fill_names count names name in
          Ret (match x with None => Some name | Some _ => x end :: names)
      end
  end.

Definition fix_names (fix_job : bool) (count : Z) (m : plan_gap_mem) (job : plan_job) : outcome plan_job :=
  if fix_job then
    if count <=? 0 then Ret job
    else
      let! names := of_option (pj_fixed_nname_arr job) in
      let! p := of_option (gm_ninfo m) in
      let! n := of_option (nodes !! p) in
      let! names := fill_names (Z.to_nat count) names (node_name n) in
      Ret (job <| pj_fixed_nname_arr := Some names |>)
  else Ret job.

(** The names fixed before are forgotten. *)
Definition clear_names (job : plan_job) : outcome plan_job :=
  if pj_req_num_nodes job <=? 0 then Ret job
  else
    let! names := of_option (pj_fixed_nname_arr job) in
    let! _ := first_of (pj_req_num_nodes job) names in
    Ret (job <| pj_fixed_nname_arr :=
           Some (replicate (Z.to_nat (pj_req_num_nodes job)) None ++ drop (Z.to_nat (pj_req_num_nodes job)) names)%list |>).

Section Heap.
Variable h : heap plan_gap.

Fixpoint all_gaps_ok (considered : list positive) (st : search) : outcome (search * bool) :=
  match considered with
  | [] => Ret (st, true)
  | x :: considered =>
      let! gap := item_at h x in
      let! (l, ok) :=
        limits_is_gap_ok limits_map (se_values st) (se_values_global st) jinfos limits (se_limits st) (se_job st) gap cluster in
      let st := st <| se_limits := l |> in
      if ok : bool then all_gaps_ok considered st else Ret (st, false)
  end.

Definition check_considered_gaps (considered : list positive) (st : search) : outcome (search * bool) :=
  let! (v, g) := update_limits_values limits_map (se_values st) (se_values_global st) cluster in
  all_gaps_ok considered (st <| se_values := v |> <| se_values_global := g |>).

Definition starts_at_end_of_previous (x : positive) : outcome bool :=
  let! g := item_at h x in
  let! p := get_predeccessor h (Some x) in
  let! p := of_option p in
  let! gp := item_at h p in
  Ret (pg_start_time g =? pg_end_time gp).

(** The parts of the job on one more node are planned; no more than there are. *)
Definition add_nodes (fix_job : bool) (m : plan_gap_mem) (r : reach) (st : search) : outcome (reach * search) :=
  let n := i32 (re_plan_num_nodes r + re_tmp_max_nodes_ppn r) in
  let n := if n >? pj_req_num_nodes (se_job st) then pj_req_num_nodes (se_job st) else n in
  let! job := fix_names fix_job n m (se_job st) in
  Ret (r <| re_plan_num_nodes := n |>, st <| se_job := job |>).

(** One more gap, in which [k] parts fit on the node. *)
Definition extend (next : positive) (g : plan_gap) (k : Z) (r : reach) : reach :=
  mkReach
    (if pg_duration g =? PlanGaps.LONG_MAX then PlanGaps.LONG_MAX else i64 (re_duration r + pg_duration g))
    (re_plan_num_nodes r)
    (if k <? re_tmp_max_nodes_ppn r then k else re_tmp_max_nodes_ppn r)
    (re_considered r ++ [next])%list (Some next) (re_gap_ok r).

(** The gaps after the one the search is at, as long as they follow without a
    break and the job is longer; the answer is whether the gap is found. *)
Fixpoint reach_on (fuel : nat) (fix_job : bool) (m : plan_gap_mem) (r : reach) (st : search)
  : outcome (reach * search * bool) :=
  match fuel with
  | O => UB
  | S fuel =>
      if negb (re_duration r <? pj_estimated_processing (se_job st)) then Ret (r, st, false)
      else
        let! l := list_get_next h (se_gaps st) in
        let st := st <| se_gaps := l |> in
        match current l with
        | None => Ret (r, st, false)
        | Some next =>
            let r := r <| re_next_gap := Some next |> in
            let! follows := starts_at_end_of_previous next in
            if negb follows then Ret (r <| re_gap_ok := false |>, st, false)
            else
              let! g := item_at h next in
              let! k := places g (gm_ninfo m) (se_job st) in
              if k =? 0 then Ret (r <| re_gap_ok := false |>, st, false)
              else
                let r := extend next g k r in
                let long_enough := re_duration r >=? pj_estimated_processing (se_job st) in
                let! (r, st) := if long_enough then add_nodes fix_job m r st else Ret (r, st) in
                if long_enough && (re_plan_num_nodes r =? pj_req_num_nodes (se_job st)) then
                  let! (st, ok) := check_considered_gaps (re_considered r) st in
                  if ok : bool then Ret (r, st, true) else reach_on fuel fix_job m r st
                else reach_on fuel fix_job m r st
        end
  end.

(** The nodes of the gap [x], from the entries [ms] on. *)
Fixpoint search_nodes (fix_job : bool) (x : positive) (gap : plan_gap) (ms : list plan_gap_mem)
    (plan_num_nodes : Z) (considered : list positive) (next_gap : option positive) (st : search)
  : outcome (option positive * search * bool) :=
  match ms with
  | [] => Ret (next_gap, st, false)
  | m :: ms =>
      let! unfit := node_unfit gap m (se_job st) in
      if unfit : bool then search_nodes fix_job x gap ms plan_num_nodes considered next_gap st
      else
        let! lacks := lacks_gpu m (se_job st) in
        if lacks : bool then search_nodes fix_job x gap ms plan_num_nodes considered next_gap st
        else
          let! k := places gap (gm_ninfo m) (se_job st) in
          let r := mkReach (pg_duration gap) plan_num_nodes k (considered ++ [x])%list next_gap true in
          let too_short := pg_duration gap <? pj_estimated_processing (se_job st) in
          let! (r, st, found) :=
            if too_short
            then reach_on (S (size h)) fix_job m r (st <| se_gaps := se_gaps st <| current := Some x |> |>)
            else let! (r, st) := add_nodes fix_job m r st in Ret (r, st, false) in
          if found : bool then Ret (re_next_gap r, st, true)
          else
            let! broken :=
              if too_short then
                let! next := of_option (re_next_gap r) in
                let! follows := starts_at_end_of_previous next in Ret (negb follows)
              else Ret false in
            if broken : bool then Ret (re_next_gap r, st, false)
            else
              let enough := re_gap_ok r && (re_duration r >=? pj_estimated_processing (se_job st))
                            && (re_plan_num_nodes r >=? pj_req_num_nodes (se_job st)) in
              let! (st, ok) := if enough then check_considered_gaps (re_considered r) st else Ret (st, false) in
              if ok : bool then Ret (re_next_gap r, st, true)
              else search_nodes fix_job x gap ms (re_plan_num_nodes r) (re_considered r) (re_next_gap r) st
  end.

Fixpoint search_gaps (fuel : nat) (fix_job : bool) (next_gap : option positive) (st : search)
  : outcome (search * option positive) :=
  match fuel with
  | O => UB
  | S fuel =>
      let! l := list_get_next h (se_gaps st) in
      let st := st <| se_gaps := l |> in
      match current l with
      | None => Ret (st, None)
      | Some x =>
          let! gap := item_at h x in
          if pg_usage gap <? pj_usage (se_job st) then search_gaps fuel fix_job next_gap st
          else
            let! job := clear_names (se_job st) in
            let! ms := memories gap in
            let! (next_gap, st, found) := search_nodes fix_job x gap ms 0 [] next_gap (st <| se_job := job |>) in
            if found : bool then Ret (st, Some x)
            else search_gaps fuel fix_job next_gap (st <| se_gaps := se_gaps st <| current := Some x |> |>)
      end
  end.

Definition find_first_gap (fix_job : bool) (st : search) : outcome (search * option positive) :=
  search_gaps (S (size h)) fix_job None (st <| se_gaps := se_gaps st <| current := None |> |>).
End Heap.
End Find.

(** The job starts with the gap, in front of the job that follows the gap; 1 when
    the gap is too small. *)
Definition job_put_in_gap (create : option plan_job) (jobs : heap plan_job) (l : plan_list) (x : positive) (gap : plan_gap)
  : outcome (heap plan_job * plan_list * Z) :=
  let! job := item_at jobs x in
  if pj_req_ppn job >? pg_usage gap then Ret (jobs, l, 1)
  else
    let start := pg_start_time gap in
    let jobs := set_item jobs x (job <| pj_start_time := start |>
      <| pj_completion_time := i64 (start + pj_estimated_processing job) |>) in
    let! (jobs, l, _) :=
      match pg_following_job gap with
      | Some f => list_add_infrontof create jobs l (Some f) (Some x)
      | None => list_add_end create jobs l (Some x)
      end in
    Ret (jobs, l, 0).
