(* ===== verification/PlanFindSpec.v ===== *)
(** * A gap that is found suits the job

    The contract of [find_first_gap]: from the start of the gap on, for the whole
    length of the job, the nodes that are counted have room for their parts of
    the job in every gap, and the limits accept every one of these gaps. *)

From Stdlib Require Import ZArith Lia Bool Ascii String.
From S2P Require Import Prelude CString MiscHelpers Resource DataTypes Config NodeData JobInfo NodeLogic PlanData PlanList PlanValues PlanGaps PlanLimits PlanTime PlanClusters PlanSlots PlanFind.

Local Open Scope string_scope.
Open Scope Z_scope.
Local Open Scope sched_scope.

(** ** Stretches of gaps *)

(** Each gap starts when the one before it ends. *)
Fixpoint follow (prev : plan_gap) (gs : list plan_gap) : Prop :=
  match gs with [] => True | g :: gs => pg_start_time g = pg_end_time prev /\ follow g gs end.

(** The length of a stretch, as the code adds it up. *)
Definition stretch_length (d : Z) (gs : list plan_gap) : Z :=
  fold_left (fun d g => if pg_duration g =? PlanGaps.LONG_MAX then PlanGaps.LONG_MAX else i64 (d + pg_duration g)) gs d.

Lemma follow_snoc prev gs g :
  follow prev (gs ++ [g]) <-> follow prev gs /\ pg_start_time g = pg_end_time (default prev (last gs)).
Proof.
  revert prev. induction gs as [|a gs IH]; intros prev; simpl; [tauto|]. rewrite IH.
  destruct gs as [|b gs]; simpl; [tauto|]. destruct (last (b :: gs)) eqn:E; [|by apply last_None in E]. simpl. tauto.
Qed.

(** The fields of the job that the search reads do not change. *)
Definition same_job (job job' : plan_job) : Prop := job' = job <| pj_fixed_nname_arr := pj_fixed_nname_arr job' |>.

Lemma same_job_refl job : same_job job job.
Proof. by destruct job. Qed.

Lemma same_job_set job job' names : same_job job job' -> same_job job (job' <| pj_fixed_nname_arr := names |>).
Proof. unfold same_job. intros ->. by destruct job. Qed.

Section Sound.
Variable badval : Z.
Variable parse_nodespec : string -> option pars_spec.
Variable jinfos : gmap positive JobInfo.
Variable nodes : gmap positive node_info.
Variable limits_map : gmap string (gmap Z cluster_limits_arrays).
Variable limits : heap plan_limit.
Variable cluster : plan_cluster.
Variable h : heap plan_gap.
Variable xs : list positive.
Variable vs : list plan_gap.
Variable job : plan_job.

(** The limits accept a gap for the job, with values of the limits that are up
    to date. *)
Definition accepted (g : plan_gap) : Prop :=
  exists v0 g0 values values_global l l',
    update_limits_values limits_map v0 g0 cluster = Ret (values, values_global) /\
    limits_is_gap_ok limits_map values values_global jinfos limits l job g cluster = Ret (l', true).

Definition inv (st : search) : Prop := same_job job (se_job st) /\ values_are h (se_gaps st) xs vs.

(** The room that an entry of a gap gives does not wrap. *)
Definition entry_ok (m : plan_gap_mem) : Prop :=
  0 <= gm_num_cpus m < 2 ^ 30 /\ (0 < pj_req_mem job -> 0 <= gm_available_mem m) /\
  (0 < pj_req_scratch_local job -> 0 <= gm_available_scratch_local m).

Abbreviation places := (places parse_nodespec jinfos).

Lemma quot_cap res avail req :
  0 <= res < 2 ^ 30 -> 0 < req -> 0 <= avail ->
  0 <= (if res >? Z.quot avail req then i32 (Z.quot avail req) else res) <= res.
Proof.
  intros Hres Hreq Ha. pose proof (Z.quot_pos avail req Ha Hreq).
  destruct (Z.gtb_spec res (Z.quot avail req)); [|lia]. rewrite i32_id by (unfold in_s; lia). lia.
Qed.

Lemma quot_small c p : 0 <= c -> 0 < p -> 0 <= Z.quot c p <= c.
Proof.
  intros Hc Hp. rewrite Z.quot_div_nonneg by lia. split; [apply Z.div_pos; lia|].
  apply Z.div_le_upper_bound; nia.
Qed.

Lemma places_same g p job' : same_job job job' -> places g p job' = places g p job.
Proof. intros ->. reflexivity. Qed.

Lemma places_range g p k :
  Forall entry_ok (default [] (pg_nodes_memory g)) -> 0 < pj_req_ppn job ->
  places g p job = Ret k -> 0 <= k < 2 ^ 30.
Proof.
  intros Hok Hppn. unfold PlanFind.places, check_node_in_gap.
  destruct (memories g) as [ms| |] eqn:Em; cbn [obind]; [|done..].
  assert (Hms : Forall entry_ok ms).
  { revert Em. unfold memories. destruct (pg_num_nodes g <=? 0); [intros [= <-]; constructor|].
    destruct (pg_nodes_memory g) as [l|]; [|done]. destruct (_ <=? _); [|done]. intros [= <-]. by apply Forall_take. }
  match goal with |- context [find_first ?q ms] => destruct (find_first q ms) as [m|] eqn:Ef end.
  - apply find_first_Some in Ef as (l1 & l2 & -> & _). apply Forall_app in Hms as [_ [(Hc & Hm & Hs) _]%Forall_cons].
    destruct (Z.eqb_spec (pj_req_ppn job) 0); [lia|]. cbn [obind].
    destruct (job_is_exclusive _ _ _) as [excl| |]; cbn [obind]; [|done..].
    pose proof (quot_small (gm_num_cpus m) (pj_req_ppn job) ltac:(lia) Hppn) as H1.
    match goal with |- context [if ?b && (Z.quot (gm_num_cpus m) _ >? ?a) then ?x else ?y] =>
      assert (H2 : 0 <= (if b && (y >? a) then x else y) < 2 ^ 30) end.
    { destruct (Z.gtb_spec (pj_req_mem job) 0) as [Hlt|_]; simpl; [|lia].
      pose proof (quot_cap (Z.quot (gm_num_cpus m) (pj_req_ppn job)) (gm_available_mem m) (pj_req_mem job)); lia. }
    intros [= <-]. revert H2.
    match goal with |- 0 <= ?r < _ -> _ => generalize r end. intros r Hr.
    assert (H3 : 0 <= (if (pj_req_scratch_local job >? 0) && (r >? Z.quot (gm_available_scratch_local m) (pj_req_scratch_local job))
      then i32 (Z.quot (gm_available_scratch_local m) (pj_req_scratch_local job)) else r) < 2 ^ 30).
    { destruct (Z.gtb_spec (pj_req_scratch_local job) 0) as [Hlt|_]; simpl; [|lia].
      pose proof (quot_cap r (gm_available_scratch_local m) (pj_req_scratch_local job)); lia. }
    match goal with |- 0 <= (if excl && (?q >? 0) then 1 else ?q) < _ => generalize dependent q end.
    intros q Hq. destruct (excl && (q >? 0)); lia.
  - cbn [obind]. destruct (job_is_exclusive _ _ _) as [excl| |]; [|done..]. intros [= <-]. destruct excl; simpl; lia.
Qed.

Lemma limits_same values values_global l g job' :
  same_job job job' ->
  limits_is_gap_ok limits_map values values_global jinfos limits l job' g cluster =
  limits_is_gap_ok limits_map values values_global jinfos limits l job g cluster.
Proof. intros ->. reflexivity. Qed.

(** ** The checks of the limits *)

Lemma all_gaps_ok_spec considered st st' ok :
  inv st -> (exists v0 g0, update_limits_values limits_map v0 g0 cluster = Ret (se_values st, se_values_global st)) ->
  all_gaps_ok jinfos limits_map limits cluster h considered st = Ret (st', ok) ->
  inv st' /\ se_gaps st' = se_gaps st /\
  (ok = true -> Forall (fun x => exists g, items h !! x = Some g /\ accepted g) considered).
Proof.
  revert st. induction considered as [|x considered IH]; intros st Hinv Hvals; cbn [all_gaps_ok].
  - by intros [= <- <-].
  - unfold item_at. destruct (h !! x) as [c|] eqn:Ex; cbn [of_option obind]; [|done].
    rewrite (limits_same _ _ _ _ _ (proj1 Hinv)).
    destruct (limits_is_gap_ok _ _ _ _ _ _ _ _ _) as [[l b]|w|] eqn:El; cbn [obind]; [|done..].
    assert (Hinv' : inv (st <| se_limits := l |>)) by (destruct Hinv; by split).
    destruct b.
    + intros E. destruct (IH (st <| se_limits := l |>) Hinv' Hvals E) as (H1 & H2 & H3). split_and!; [done..|].
      intros Hok. constructor; [|by apply H3]. exists (item c). split; [by apply (lookup_items h x c)|].
      destruct Hvals as (v0 & g0 & Hv). exists v0, g0, (se_values st), (se_values_global st), (se_limits st), l. done.
    + intros [= <- <-]. done.
Qed.

Lemma check_considered_gaps_spec considered st st' ok :
  inv st -> check_considered_gaps jinfos limits_map limits cluster h considered st = Ret (st', ok) ->
  inv st' /\ se_gaps st' = se_gaps st /\
  (ok = true -> Forall (fun x => exists g, items h !! x = Some g /\ accepted g) considered).
Proof.
  intros Hinv. unfold check_considered_gaps.
  destruct (update_limits_values _ _ _ _) as [[v g]|w|] eqn:Eu; cbn [obind]; [|done..]. intros E.
  apply all_gaps_ok_spec in E; [exact E|destruct Hinv; by split|]. by exists (se_values st), (se_values_global st).
Qed.

(** ** Counting a node *)

Lemma fix_names_same fix_job count m job' job'' :
  same_job job job' -> fix_names nodes fix_job count m job' = Ret job'' -> same_job job job''.
Proof.
  intros Hj. unfold fix_names. destruct fix_job; [|by intros [= <-]]. destruct (count <=? 0); [by intros [= <-]|].
  destruct (pj_fixed_nname_arr job'); [|done]. cbn [of_option obind].
  destruct (gm_ninfo m); [|done]. cbn [of_option obind]. destruct (nodes !! _); [|done]. cbn [of_option obind].
  destruct (fill_names _ _ _); [|done..]. cbn [obind]. intros [= <-]. by apply same_job_set.
Qed.

Definition capped (n : Z) : Z := if i32 n >? pj_req_num_nodes job then pj_req_num_nodes job else i32 n.

Lemma add_nodes_spec fix_job m r st r' st' :
  inv st -> add_nodes nodes fix_job m r st = Ret (r', st') ->
  inv st' /\ se_gaps st' = se_gaps st /\
  r' = r <| re_plan_num_nodes := capped (re_plan_num_nodes r + re_tmp_max_nodes_ppn r) |>.
Proof.
  intros [Hj Hv]. unfold add_nodes, capped.
  assert (En : pj_req_num_nodes (se_job st) = pj_req_num_nodes job) by (by rewrite Hj). rewrite En. cbv zeta.
  destruct (fix_names _ _ _ _ _) as [job''| |] eqn:Ef; cbn [obind]; [|done..]. intros [= <- <-].
  split; [|done]. split; [|done]. simpl. by eapply fix_names_same.
Qed.

(** ** The walk from a gap on *)

Lemma starts_at_end_spec l ys y z zs us v w ws :
  values_are h l (ys ++ y :: z :: zs) (us ++ v :: w :: ws) -> length ys = length us ->
  starts_at_end_of_previous h z = Ret (pg_start_time w =? pg_end_time v) /\ item_at h z = Ret w /\ items h !! z = Some w.
Proof.
  intros Hv Hlen.
  assert (Hv' : values_are h l ((ys ++ [y]) ++ z :: zs) ((us ++ [v]) ++ w :: ws)) by (by rewrite <- !(assoc_L (++)%list)).
  destruct (values_at _ _ _ _ _ _ _ _ Hv Hlen) as (_ & Ey & _).
  destruct (values_at _ _ _ _ _ _ _ _ Hv') as (Hz & Ez & _); [rewrite !length_app; simpl; lia|].
  pose proof (ls_links _ _ _ (va_lists _ _ _ _ Hv')) as (_ & (a & Ha) & _)%segs_of.
  unfold starts_at_end_of_previous. rewrite Ez. cbn [obind get_predeccessor]. rewrite Ha. cbn [of_option obind pred].
  unfold to_last. rewrite last_snoc. cbn [of_option obind]. rewrite Ey. done.
Qed.

(** The room of a node, over the gap [v0] and the gaps [c] after it. *)
Definition roomy (m : plan_gap_mem) (k : Z) (g : plan_gap) : Prop := exists k', places g (gm_ninfo m) job = Ret k' /\ k <= k'.

Definition seen (considered : list positive) (g : plan_gap) : Prop := exists p, p ∈ considered /\ items h !! p = Some g.

Record covers (m : plan_gap_mem) (v0 : plan_gap) (c : list plan_gap) (r : reach) : Prop := {
  cv_follow : follow v0 c;
  cv_length : re_duration r = stretch_length (pg_duration v0) c;
  cv_room : Forall (roomy m (re_tmp_max_nodes_ppn r)) (v0 :: c);
  cv_seen : Forall (seen (re_considered r)) (v0 :: c);
  cv_nonneg : 0 <= re_tmp_max_nodes_ppn r
}.

Definition est : Z := pj_estimated_processing job.

(** Either the walk stops short, or the stretch is long enough and the node is
    counted. *)
Record reached (m : plan_gap_mem) (v0 : plan_gap) (rest : list plan_gap) (r r' : reach) (found : bool) : Prop := {
  rd_considered : re_considered r ⊆ re_considered r';
  rd_result :
    (found = false /\ re_plan_num_nodes r' = re_plan_num_nodes r /\ (re_gap_ok r' = false \/ re_duration r' < est)) \/
    (exists c, c `prefix_of` rest /\ covers m v0 c r' /\ est <= re_duration r' /\
       re_plan_num_nodes r' = capped (re_plan_num_nodes r + re_tmp_max_nodes_ppn r') /\
       (found = true -> pj_req_num_nodes job <= re_plan_num_nodes r' /\
          Forall (fun x => exists g, items h !! x = Some g /\ accepted g) (re_considered r')))
}.

Lemma covers_snoc m v0 c r g k z :
  covers m v0 c r -> pg_start_time g = pg_end_time (default v0 (last c)) ->
  places g (gm_ninfo m) job = Ret k -> 0 <= k -> items h !! z = Some g ->
  covers m v0 (c ++ [g])%list (extend z g k r).
Proof.
  intros [H1 H2 H3 H4 H5] Hg Hk Hk0 Hz. constructor; unfold extend; cbn [re_duration re_plan_num_nodes re_tmp_max_nodes_ppn re_considered].
  - by apply follow_snoc.
  - unfold stretch_length in *. by rewrite fold_left_app, <- H2.
  - rewrite app_comm_cons. apply Forall_app. split.
    + eapply Forall_impl; [exact H3|]. intros g' (k' & Hk' & Hle). exists k'. split; [done|].
      destruct (Z.ltb_spec k (re_tmp_max_nodes_ppn r)); lia.
    + repeat constructor. exists k. split; [done|]. destruct (Z.ltb_spec k (re_tmp_max_nodes_ppn r)); lia.
  - rewrite app_comm_cons. apply Forall_app. split.
    + eapply Forall_impl; [exact H4|]. intros g' (p & Hp & Hi). exists p. split; [|done]. apply elem_of_app. by left.
    + repeat constructor. exists z. split; [|done]. apply elem_of_app. right. by apply list_elem_of_singleton.
  - destruct (k <? re_tmp_max_nodes_ppn r); lia.
Qed.

Lemma covers_plan m v0 c r n : covers m v0 c r -> covers m v0 c (r <| re_plan_num_nodes := n |>).
Proof. by intros []. Qed.

(** A walk that is long enough is over. *)
Lemma reach_on_done fuel fix_job m r st r' st' found :
  same_job job (se_job st) -> est <= re_duration r ->
  reach_on parse_nodespec jinfos nodes limits_map limits cluster h fuel fix_job m r st = Ret (r', st', found) ->
  r' = r /\ st' = st /\ found = false.
Proof.
  intros Hj Hd. destruct fuel; cbn [reach_on]; [done|].
  assert (E : pj_estimated_processing (se_job st) = est) by (by rewrite Hj). rewrite E.
  destruct (Z.ltb_spec (re_duration r) est); [lia|]. by intros [= <- <- <-].
Qed.

Lemma reach_on_spec fix_job m v0 rest fuel :
  Forall (fun g => Forall entry_ok (default [] (pg_nodes_memory g))) vs -> 0 < pj_req_ppn job ->
  forall ys y zs us v ws c r st r' st' found,
  xs = (ys ++ y :: zs)%list -> vs = (us ++ v :: ws)%list -> length ys = length us -> v = default v0 (last c) ->
  rest = (c ++ ws)%list ->
  inv st -> current (se_gaps st) = Some y -> covers m v0 c r -> re_duration r < est ->
  reach_on parse_nodespec jinfos nodes limits_map limits cluster h fuel fix_job m r st = Ret (r', st', found) ->
  inv st' /\ reached m v0 rest r r' found.
Proof.
  intros Hok Hppn. induction fuel as [|fuel IH]; intros ys y zs us v ws c r st r' st' found Hxs Hvs Hlen Hv Hrest Hinv Hcur Hcov Hd;
    cbn [reach_on]; [done|].
  destruct Hinv as [Hj Hval]. assert (Eest : pj_estimated_processing (se_job st) = est) by (by rewrite Hj). rewrite Eest.
  destruct (Z.ltb_spec (re_duration r) est); [|lia]. cbn [negb].
  assert (Hnext : list_get_next h (se_gaps st) = Ret (se_gaps st <| current := head zs |>)).
  { apply (next_of_walk h (se_gaps st) (ys ++ [y]) zs); [|by rewrite last_snoc].
    rewrite <- (assoc_L (++)%list). simpl. rewrite <- Hxs. exact (va_lists _ _ _ _ Hval). }
  rewrite Hnext. cbn [obind].
  assert (Hinv1 : inv (st <| se_gaps := se_gaps st <| current := head zs |> |>)) by (split; [done|]; by apply values_current).
  destruct zs as [|z zs].
  { cbn. intros [= <- <- <-]. split; [done|]. constructor; [done|]. left. split_and!; try done. right. lia. }
  cbn [head].
  change (current (se_gaps st <| current := Some z |>)) with (Some z). cbv iota zeta.
  assert (Hval' := Hval). rewrite Hxs, Hvs in Hval'. pose proof (values_length _ _ _ _ Hval') as Hl.
  rewrite !length_app in Hl. destruct ws as [|w ws]; [simpl in Hl; lia|].
  destruct (starts_at_end_spec _ _ _ _ _ _ _ _ _ Hval' Hlen) as (-> & -> & Hz). cbn [obind].
  destruct (Z.eqb_spec (pg_start_time w) (pg_end_time v)) as [Hfol|]; cbn [negb].
  2:{ intros [= <- <- <-]. split; [done|]. constructor; [done|]. left. split_and!; try done. by left. }
  rewrite (places_same _ _ (se_job (st <| se_gaps := se_gaps st <| current := Some z |> |>)) Hj).
  destruct (places w (gm_ninfo m) job) as [k|w'|] eqn:Ek; cbn [obind]; [|done..].
  assert (Hk : 0 <= k < 2 ^ 30).
  { apply (places_range w (gm_ninfo m)); [|done..]. rewrite Forall_forall in Hok. apply Hok. rewrite Hvs. set_solver. }
  destruct (Z.eqb_spec k 0) as [_|Hk0].
  { intros [= <- <- <-]. split; [done|]. constructor; [done|]. left. split_and!; try done. by left. }
  assert (Hcov1 : covers m v0 (c ++ [w])%list (extend z w k r)) by (apply covers_snoc; [done|by rewrite <- Hv|done|lia|done]).
  assert (Hxs1 : xs = ((ys ++ [y]) ++ z :: zs)%list) by (by rewrite <- (assoc_L (++)%list)).
  assert (Hvs1 : vs = ((us ++ [v]) ++ w :: ws)%list) by (by rewrite <- (assoc_L (++)%list)).
  assert (Hrest1 : rest = ((c ++ [w]) ++ ws)%list) by (by rewrite <- (assoc_L (++)%list)).
  change (extend z w k (r <| re_next_gap := Some z |>)) with (extend z w k r).
  set (r1 := extend z w k r) in *. set (st1 := st <| se_gaps := _ |>) in *.
  assert (Hsub : re_considered r ⊆ re_considered r1) by (unfold r1, extend; cbn [re_considered]; set_solver).
  change (pj_estimated_processing (se_job st1)) with (pj_estimated_processing (se_job st)). rewrite Eest.
  destruct (Z.geb_spec (re_duration r1) est) as [Hlong|Hshort].
  - destruct (add_nodes _ _ _ _ _) as [[r2 st2]| |] eqn:Ea; cbn [obind]; [|done..].
    destruct (add_nodes_spec _ _ _ _ _ _ Hinv1 Ea) as (Hinv2 & Hg2 & ->).
    assert (Enum2 : pj_req_num_nodes (se_job st2) = pj_req_num_nodes job) by (destruct Hinv2 as [-> _]; done). rewrite Enum2.
    set (r2 := r1 <| re_plan_num_nodes := _ |>) in *.
    assert (Hcov2 : covers m v0 (c ++ [w])%list r2) by (by apply covers_plan).
    assert (Hright : forall b : bool, (b = true -> pj_req_num_nodes job <= re_plan_num_nodes r2 /\
        Forall (fun x => exists g, items h !! x = Some g /\ accepted g) (re_considered r2)) -> reached m v0 rest r r2 b).
    { intros b Hb. constructor; [exact Hsub|]. right. exists (c ++ [w])%list. split; [by exists ws|]. by split_and!. }
    destruct (Z.eqb_spec (re_plan_num_nodes r2) (pj_req_num_nodes job)) as [Hplan|_]; cbn [andb].
    + destruct (check_considered_gaps _ _ _ _ _ _ _) as [[st3 ok]| |] eqn:Ec; cbn [obind]; [|done..].
      destruct (check_considered_gaps_spec _ _ _ _ Hinv2 Ec) as (Hinv3 & _ & Hok3). destruct ok.
      * intros [= <- <- <-]. split; [done|]. apply Hright. intros _. split; [lia|by apply Hok3].
      * intros E. apply reach_on_done in E as (-> & -> & ->); [|apply Hinv3|done]. split; [done|]. by apply Hright.
    + intros E. apply reach_on_done in E as (-> & -> & ->); [|apply Hinv2|done]. split; [done|]. by apply Hright.
  - cbn [obind andb]. intros E.
    eapply (IH (ys ++ [y])%list z zs (us ++ [v])%list w ws (c ++ [w])%list r1 st1) in E as [Hinv' Hre];
      try done; [|by rewrite !length_app, Hlen|by rewrite last_snoc].
    split; [done|]. destruct Hre as [H1 H2]. constructor; [by etrans|exact H2].
Qed.

(** ** The nodes of a gap *)

Lemma unfit_same g m job' : same_job job job' -> node_unfit badval nodes g m job' = node_unfit badval nodes g m job.
Proof. intros ->. reflexivity. Qed.
Lemma lacks_same m job' : same_job job job' -> lacks_gpu nodes m job' = lacks_gpu nodes m job.
Proof. intros ->. reflexivity. Qed.

(** [k] parts of the job fit on the node of an entry of [v0], from the start of
    the gap on until the job ends, in gaps of which [P] holds. *)
Record serves (P : plan_gap -> Prop) (v0 : plan_gap) (rest : list plan_gap) (mk : plan_gap_mem * Z) : Prop := {
  sv_fit : node_unfit badval nodes v0 mk.1 job = Ret false;
  sv_gpu : lacks_gpu nodes mk.1 job = Ret false;
  sv_nonneg : 0 <= mk.2;
  sv_stretch : exists c, c `prefix_of` rest /\ follow v0 c /\ est <= stretch_length (pg_duration v0) c /\
    Forall (fun g => roomy mk.1 mk.2 g /\ P g) (v0 :: c)
}.

Lemma serves_impl (P Q : plan_gap -> Prop) v0 rest mk : (forall g, P g -> Q g) -> serves P v0 rest mk -> serves Q v0 rest mk.
Proof.
  intros H [H1 H2 H3 (c & Hc & Hf & Hl & Hr)]. constructor; try done. exists c. split_and!; try done.
  eapply Forall_impl; [exact Hr|]. intros g [Hg Hp]. split; [done|by apply H].
Qed.

(** The nodes counted so far. *)
Record counted (v0 : plan_gap) (rest : list plan_gap) (pre : list plan_gap_mem) (considered : list positive) (plan : Z)
    (served : list (plan_gap_mem * Z)) : Prop := {
  ct_sub : served.*1 `sublist_of` pre;
  ct_serves : Forall (serves (seen considered) v0 rest) served;
  ct_plan : plan <= sumZ snd served;
  ct_range : 0 <= plan <= pj_req_num_nodes job
}.

(** Room for the whole job that the limits accept. *)
Definition room_for_job (v0 : plan_gap) (rest : list plan_gap) (ms : list plan_gap_mem) : Prop :=
  exists served, served.*1 `sublist_of` ms /\ pj_req_num_nodes job <= sumZ snd served /\
    Forall (serves accepted v0 rest) served.

Lemma counted_done v0 rest pre considered plan served ms :
  counted v0 rest pre considered plan served -> pj_req_num_nodes job <= plan ->
  Forall (fun x => exists g, items h !! x = Some g /\ accepted g) considered -> room_for_job v0 rest (pre ++ ms)%list.
Proof.
  intros [H1 H2 H3 H4] Hplan Hacc. exists served. split_and!.
  - by apply sublist_inserts_r.
  - lia.
  - eapply Forall_impl; [exact H2|]. intros mk. apply serves_impl. intros g (p & Hp & Hg).
    rewrite Forall_forall in Hacc. destruct (Hacc p Hp) as (g' & Hg' & Ha). by assert (g' = g) as -> by congruence.
Qed.

Lemma counted_weaken v0 rest pre considered considered' plan served m :
  counted v0 rest pre considered plan served -> considered ⊆ considered' ->
  counted v0 rest (pre ++ [m])%list considered' plan served.
Proof.
  intros [H1 H2 H3 H4] Hsub. constructor; try done; [by apply sublist_inserts_r|].
  eapply Forall_impl; [exact H2|]. intros mk. apply serves_impl. intros g (p & Hp & Hg). exists p. split; [by apply Hsub|done].
Qed.

Lemma capped_spec plan k : 0 <= plan <= pj_req_num_nodes job -> pj_req_num_nodes job < 2 ^ 30 -> 0 <= k < 2 ^ 30 ->
  0 <= capped (plan + k) <= pj_req_num_nodes job /\ capped (plan + k) <= plan + k.
Proof.
  intros Hp Hr Hk. unfold capped. rewrite i32_id by (unfold in_s; lia).
  destruct (Z.gtb_spec (plan + k) (pj_req_num_nodes job)); lia.
Qed.

(** A node that is reached is counted. *)
Lemma counted_step v0 rest pre considered plan served m r r' found :
  counted v0 rest pre considered plan served -> pj_req_num_nodes job < 2 ^ 30 ->
  Forall entry_ok (default [] (pg_nodes_memory v0)) -> 0 < pj_req_ppn job ->
  node_unfit badval nodes v0 m job = Ret false -> lacks_gpu nodes m job = Ret false ->
  considered ⊆ re_considered r -> re_plan_num_nodes r = plan -> reached m v0 rest r r' found ->
  exists served', counted v0 rest (pre ++ [m])%list (re_considered r') (re_plan_num_nodes r') served'.
Proof.
  intros Hct Hreq Hok Hppn Hfit Hgpu Hsub Hplan [Hsub' [(_ & E & _)|(c & Hc & Hcov & Hlen & E & _)]].
  - exists served. rewrite E, Hplan. apply (counted_weaken _ _ _ considered); [done|]. by etrans.
  - pose proof (counted_weaken _ _ _ _ (re_considered r') _ _ m Hct ltac:(by etrans)) as [H1 H2 H3 H4].
    destruct Hcov as [C1 C2 C3 C4 C5].
    assert (Hk : 0 <= re_tmp_max_nodes_ppn r' < 2 ^ 30).
    { split; [done|]. apply Forall_cons in C3 as [(k' & Hk' & Hle) _]. pose proof (places_range _ _ _ Hok Hppn Hk'). lia. }
    destruct (capped_spec plan (re_tmp_max_nodes_ppn r') H4 Hreq Hk) as [G1 G2].
    exists (served ++ [(m, re_tmp_max_nodes_ppn r')])%list. rewrite E, Hplan. constructor.
    + rewrite fmap_app. apply sublist_app; [|done]. by destruct Hct.
    + apply Forall_app. split; [done|]. repeat constructor; try done. exists c. split_and!; try done; [by rewrite <- C2|].
      apply Forall_and. split; [exact C3|exact C4].
    + rewrite sumZ_app. simpl. lia.
    + done.
Qed.

Lemma search_nodes_spec fix_job ys x zs us v0 ws :
  xs = (ys ++ x :: zs)%list -> vs = (us ++ v0 :: ws)%list -> length ys = length us ->
  Forall (fun g => Forall entry_ok (default [] (pg_nodes_memory g))) vs -> 0 < pj_req_ppn job -> pj_req_num_nodes job < 2 ^ 30 ->
  forall ms plan considered next st next' st' found served pre,
  inv st -> counted v0 ws pre considered plan served ->
  search_nodes badval parse_nodespec jinfos nodes limits_map limits cluster h fix_job x v0 ms plan considered next st
    = Ret (next', st', found) ->
  inv st' /\ (found = true -> room_for_job v0 ws (pre ++ ms)%list).
Proof.
  intros Hxs Hvs Hlen Hall Hppn Hreq ms. pose proof Hall as Hall0.
  rewrite Hvs in Hall0. apply Forall_app in Hall0 as [_ [Hok _]%Forall_cons].
  induction ms as [|m ms IH]; intros plan considered next st next' st' found served pre Hinv Hct; cbn [search_nodes].
  { by intros [= <- <- <-]. }
  assert (Hskip : counted v0 ws (pre ++ [m])%list considered plan served) by (by eapply counted_weaken).
  assert (Hpre : forall l, ((pre ++ [m]) ++ l)%list = (pre ++ m :: l)%list) by (intros l; by rewrite <- (assoc_L (++)%list)).
  assert (Hj : same_job job (se_job st)) by apply Hinv.
  rewrite (unfit_same _ _ _ Hj), (lacks_same _ _ Hj), (places_same _ _ _ Hj).
  destruct (node_unfit badval nodes v0 m job) as [[|]| |] eqn:Efit; cbn [obind]; [|..|done|done].
  { rewrite <- Hpre. by eapply IH. }
  destruct (lacks_gpu nodes m job) as [[|]| |] eqn:Egpu; cbn [obind]; [|..|done|done].
  { rewrite <- Hpre. by eapply IH. }
  destruct (places v0 (gm_ninfo m) job) as [k| |] eqn:Ek; cbn [obind]; [|done..].
  pose proof (places_range _ _ _ Hok Hppn Ek) as Hk.
  assert (Eest : pj_estimated_processing (se_job st) = est) by (by rewrite Hj). rewrite Eest. cbv zeta.
  set (r0 := mkReach (pg_duration v0) plan k (considered ++ [x])%list next true).
  assert (Hcov0 : covers m v0 [] r0).
  { constructor; try done; [repeat constructor; by exists k|repeat constructor|cbn; lia].
    exists x. split; [cbn; apply elem_of_app; right; by apply list_elem_of_singleton|].
    destruct Hinv as [_ Hv]. rewrite Hxs, Hvs in Hv. by destruct (values_at _ _ _ _ _ _ _ _ Hv Hlen). }
  assert (Hsub0 : considered ⊆ re_considered r0) by (unfold r0; cbn; set_solver).
  match goal with |- context [obind (if ?b then ?e1 else ?e2) _] => set (walk := if b then e1 else e2) end.
  assert (Hwalk : forall r1 st1 b, walk = Ret (r1, st1, b) -> inv st1 /\ reached m v0 ws r0 r1 b).
  { unfold walk. destruct (Z.ltb_spec (pg_duration v0) est) as [Hshort|Hlong]; intros r1 st1 b E.
    - apply (reach_on_spec fix_job m v0 ws (S (size h)) Hall Hppn ys x zs us v0 ws [] r0 _ _ _ _) in E; try done.
      destruct Hinv as [H1 H2]. split; [done|]. by apply values_current.
    - destruct (add_nodes _ _ _ _ _) as [[r2 st2]| |] eqn:Ea; cbn [obind] in E; [|done..]. injection E as <- <- <-.
      destruct (add_nodes_spec _ _ _ _ _ _ Hinv Ea) as (Hinv2 & _ & ->). split; [done|]. constructor; [done|]. right.
      exists []. split; [apply prefix_nil|]. split; [by apply covers_plan|]. by split_and!. }
  destruct walk as [[[r1 st1] b]| |]; cbn [obind]; [|done..].
  destruct (Hwalk r1 st1 b eq_refl) as [Hinv1 Hre].
  destruct (counted_step _ _ _ _ _ _ _ _ _ _ Hct Hreq Hok Hppn Efit Egpu Hsub0 eq_refl Hre) as (served' & Hct').
  destruct b.
  { intros [= <- <- <-]. split; [done|]. intros _. destruct (rd_result _ _ _ _ _ _ Hre) as [(? & _)|(c & _ & _ & _ & _ & Hf)]; [done|].
    destruct (Hf eq_refl) as [Hf1 Hf2]. rewrite <- Hpre. by eapply counted_done. }
  destruct (if pg_duration v0 <? est then _ else _) as [[|]| |]; cbn [obind]; [by intros [= <- <- <-]| |done|done].
  assert (Eest1 : pj_estimated_processing (se_job st1) = est) by (destruct Hinv1 as [-> _]; done).
  assert (Enum1 : pj_req_num_nodes (se_job st1) = pj_req_num_nodes job) by (destruct Hinv1 as [-> _]; done).
  rewrite Eest1, Enum1.
  destruct (_ && _ && (re_plan_num_nodes r1 >=? pj_req_num_nodes job)) eqn:Een; cbn [obind].
  - destruct (check_considered_gaps _ _ _ _ _ _ _) as [[st2 ok]| |] eqn:Ec; cbn [obind]; [|done..].
    destruct (check_considered_gaps_spec _ _ _ _ Hinv1 Ec) as (Hinv2 & _ & Hok2). destruct ok.
    + intros [= <- <- <-]. split; [done|]. intros _. rewrite <- Hpre. eapply counted_done; [done|to_props; lia|by apply Hok2].
    + rewrite <- Hpre. by eapply IH.
  - rewrite <- Hpre. by eapply IH.
Qed.

(** ** The gaps *)

Lemma clear_names_same job' job'' : same_job job job' -> clear_names job' = Ret job'' -> same_job job job''.
Proof.
  intros Hj. unfold clear_names. destruct (_ <=? 0); [by intros [= <-]|].
  destruct (pj_fixed_nname_arr job'); [|done]. cbn [of_option obind].
  destruct (first_of _ _); [|done..]. cbn [obind]. intros [= <-]. by apply same_job_set.
Qed.

(** The gap at a place of the list suits the job. *)
Definition suits (x : positive) : Prop :=
  exists xs1 xs2 vs1 v vs2 ms, xs = (xs1 ++ x :: xs2)%list /\ vs = (vs1 ++ v :: vs2)%list /\ length xs1 = length vs1 /\
    pj_usage job <= pg_usage v /\ memories v = Ret ms /\ room_for_job v vs2 ms.

Lemma search_gaps_spec fix_job :
  Forall (fun g => Forall entry_ok (default [] (pg_nodes_memory g))) vs -> 0 < pj_req_ppn job ->
  0 <= pj_req_num_nodes job < 2 ^ 30 ->
  forall fuel ys zs us ws next st st' x,
  xs = (ys ++ zs)%list -> vs = (us ++ ws)%list -> length ys = length us -> inv st -> current (se_gaps st) = last ys ->
  search_gaps badval parse_nodespec jinfos nodes limits_map limits cluster h fuel fix_job next st = Ret (st', Some x) ->
  suits x.
Proof.
  intros Hall Hppn Hreq fuel. induction fuel as [|fuel IH]; intros ys zs us ws next st st' x Hxs Hvs Hlen Hinv Hcur;
    cbn [search_gaps]; [done|].
  destruct Hinv as [Hj Hv]. assert (Hv' := Hv). rewrite Hxs, Hvs in Hv'.
  rewrite (next_of_walk h (se_gaps st) ys zs (va_lists _ _ _ _ Hv') Hcur). cbn [obind].
  destruct zs as [|z zs]; [done|]. cbn [head]. change (current (se_gaps st <| current := Some z |>)) with (Some z). cbv iota zeta.
  pose proof (values_length _ _ _ _ Hv') as Hl. rewrite !length_app in Hl. destruct ws as [|w ws]; [simpl in Hl; lia|].
  destruct (values_at _ _ _ _ _ _ _ _ Hv' Hlen) as (_ & -> & _). cbn [obind].
  assert (Hxs1 : xs = ((ys ++ [z]) ++ zs)%list) by (by rewrite <- (assoc_L (++)%list)).
  assert (Hvs1 : vs = ((us ++ [w]) ++ ws)%list) by (by rewrite <- (assoc_L (++)%list)).
  assert (Hnext : forall next st2, inv st2 -> current (se_gaps st2) = Some z ->
    search_gaps badval parse_nodespec jinfos nodes limits_map limits cluster h fuel fix_job next st2 = Ret (st', Some x) -> suits x).
  { intros next2 st2 Hinv2 Hcur2 E. eapply (IH (ys ++ [z])%list zs (us ++ [w])%list ws); [..|exact E];
      rewrite ?length_app, ?Hlen, ?last_snoc; done. }
  assert (Hinv1 : inv (st <| se_gaps := se_gaps st <| current := Some z |> |>)) by (split; [done|]; by apply values_current).
  destruct (Z.ltb_spec (pg_usage w) (pj_usage (se_job (st <| se_gaps := se_gaps st <| current := Some z |> |>)))) as [_|Hus];
    [by apply Hnext|].
  match goal with |- context [clear_names ?j] => destruct (clear_names j) as [job1| |] eqn:Ec end; cbn [obind]; [|done..].
  apply (clear_names_same _ _ Hj) in Ec.
  destruct (memories w) as [ms| |] eqn:Em; cbn [obind]; [|done..].
  destruct (search_nodes _ _ _ _ _ _ _ _ _ _ _ _ _ _ _ _) as [[[next' st2] found]| |] eqn:Es; cbn [obind]; [|done..].
  eapply (search_nodes_spec fix_job ys z zs us w ws Hxs Hvs Hlen Hall Hppn (proj2 Hreq) _ _ _ _ _ _ _ _ [] []) in Es as [Hinv2 Hfound];
    [|split; [exact Ec|by apply values_current]|constructor; try done; simpl; lia].
  destruct found.
  - intros [= _ <-]. exists ys, zs, us, w, ws, ms. split_and!; try done; [|by apply Hfound].
    revert Hus. simpl. rewrite Hj. simpl. lia.
  - apply Hnext; [|done]. destruct Hinv2 as [H1 H2]. split; [done|]. by apply values_current.
Qed.
End Sound.
