(* ===== verification/PlanFindTotal.v ===== *)
(** * The search for a gap ends

    With well-formed gaps, nodes and limits, [find_first_gap] makes no access
    out of bounds and ends: the fuel of its walks is enough.  With the contract
    of PlanFindSpec this gives its whole behaviour: an answer, and a gap that is
    answered suits the job. *)

From Stdlib Require Import ZArith Lia Bool Ascii String.
From S2P Require Import Prelude CString MiscHelpers Resource DataTypes Config NodeData JobInfo NodeLogic PlanData PlanList PlanValues PlanGaps PlanLimits PlanLimitsSpec PlanLimitsChecks PlanTime PlanClusters PlanSlots PlanFind PlanFindSpec.

Local Open Scope string_scope.
Open Scope Z_scope.
Local Open Scope sched_scope.

(** ** The values of the limits *)

Lemma resize_length values n v : (n <= length (resize values n v))%nat.
Proof. unfold resize. rewrite length_app, length_take, length_replicate. lia. Qed.

Lemma update_limits_values_total limits_map cluster lims v g :
  find_limits_for_cluster limits_map (pc_cluster_name cluster) (pc_num_running_cpus cluster) = Ret lims ->
  (length (tresholds lims) <= length (percentages lims))%nat ->
  (length (tresholds lims) <= length (percentages_global lims))%nat ->
  exists v' g', update_limits_values limits_map v g cluster = Ret (v', g') /\
    forall i, (i < length (tresholds lims))%nat -> is_Some (v' !! i) /\ is_Some (g' !! i).
Proof.
  intros Hl Hp Hg. unfold update_limits_values. rewrite Hl. cbn [obind].
  remember (length (tresholds lims)) as n eqn:En. clear En.
  assert (H : forall js v g, Forall (fun i => i < n)%nat js ->
    (js = [] -> n <= length v /\ n <= length g)%nat ->
    exists v' g', ofold (fun '(v, g) i =>
      let v := resize v n 2 in let g := resize g n 2 in
      let! p := of_option (percentages lims !! i) in
      let! pg := of_option (percentages_global lims !! i) in
      Ret (<[i := percent_of (pc_num_running_cpus cluster) p]> v,
           <[i := percent_of (pc_num_running_cpus cluster) pg]> g)) js (v, g) = Ret (v', g') /\
      (n <= length v' /\ n <= length g')%nat).
  { clear v g. induction js as [|i js IH]; intros v g Hi Hne; cbn [ofold]; [exists v, g; by split; [|apply Hne]|].
    apply Forall_cons in Hi as [Hi His].
    destruct (lookup_lt_is_Some_2 (percentages lims) i ltac:(lia)) as [p ->].
    destruct (lookup_lt_is_Some_2 (percentages_global lims) i ltac:(lia)) as [pg ->]. cbn [of_option obind].
    apply IH; [done|]. intros _. rewrite !length_insert. split; apply resize_length. }
  destruct (H (seq 0 n) v g) as (v' & g' & E & Hv & Hg').
  - apply Forall_forall. intros i Hi%elem_of_seq. lia.
  - destruct n; [lia|done].
  - exists v', g'. split; [exact E|]. intros i Hi. split; apply lookup_lt_is_Some_2; lia.
Qed.

Section Total.
Variable badval : Z.
Variable parse_nodespec : string -> option pars_spec.
Variable jinfos : gmap positive JobInfo.
Variable nodes : gmap positive node_info.
Variable limits_map : gmap string (gmap Z cluster_limits_arrays).
Variable limits : heap plan_limit.
Variable cluster : plan_cluster.
Variable h : heap plan_gap.
Variable xs : list positive.
Variable vs : list plan_gap.
Variable lxs : list positive.
Variable lvs : list plan_limit.
Variable job : plan_job.

(** The limits of the cluster cover the length of the job, and the counters of
    its account have room for it. *)
Record limits_ready : Prop := {
  lr_cpus : 0 <= i32 (pj_req_ppn job * pj_req_num_nodes job);
  lr_limits : exists p j lims, pj_jinfo job = Some p /\ jinfos !! p = Some j /\
    find_limits_for_cluster limits_map (pc_cluster_name cluster) (pc_num_running_cpus cluster) = Ret lims /\
    (length (tresholds lims) <= length (percentages lims))%nat /\ (length (tresholds lims) <= length (percentages_global lims))%nat /\
    0 <= first_suiting (i32 (get_walltime j)) (tresholds lims) < Z.of_nat (length (tresholds lims)) /\
    Z.of_nat (length (tresholds lims)) <= NUM_LIMITS /\
    Forall (countable (i32 (pj_req_ppn job * pj_req_num_nodes job)) (first_suiting (i32 (get_walltime j)) (tresholds lims))) lvs
}.

(** The nodes of the entries of a gap are there, and their limits are readable. *)
Definition gap_ready (g : plan_gap) : Prop :=
  exists ms, memories g = Ret ms /\ forall m, m ∈ ms -> exists p n lo hi, gm_ninfo m = Some p /\ nodes !! p = Some n /\
    get_walltime_limit_min badval (p_phys_props (data n)) = Ret lo /\
    get_walltime_limit_max badval (p_phys_props (data n)) = Ret hi.

Record ready : Prop := {
  ry_limits : limits_ready;
  ry_exclusive : exists b, job_is_exclusive parse_nodespec jinfos job = Ret b;
  ry_ppn : 0 < pj_req_ppn job;
  ry_nodes : 0 <= pj_req_num_nodes job < 2 ^ 30;
  ry_gaps : Forall gap_ready vs;
  ry_entries : Forall (fun g => Forall (entry_ok job) (default [] (pg_nodes_memory g))) vs;
  ry_last : forall g, last vs = Some g -> pj_estimated_processing job <= pg_duration g
}.

Hypothesis Hready : ready.

Definition est : Z := pj_estimated_processing job.
Abbreviation inv := (inv h xs vs job).

(** The search is in a state from which it goes on. *)
Record live (st : search) : Prop := {
  lv_inv : inv st;
  lv_limits : values_are limits (se_limits st) lxs lvs;
  lv_names : exists names, pj_fixed_nname_arr (se_job st) = Some names /\ pj_req_num_nodes job <= Z.of_nat (length names)
}.

Definition items_of (considered : list positive) : Prop := Forall (fun x => is_Some (h !! x)) considered.

Lemma all_gaps_ok_total considered st :
  live st -> items_of considered ->
  (exists p j lims, pj_jinfo job = Some p /\ jinfos !! p = Some j /\
    find_limits_for_cluster limits_map (pc_cluster_name cluster) (pc_num_running_cpus cluster) = Ret lims /\
    is_Some (se_values st !! Z.to_nat (first_suiting (i32 (get_walltime j)) (tresholds lims))) /\
    is_Some (se_values_global st !! Z.to_nat (first_suiting (i32 (get_walltime j)) (tresholds lims)))) ->
  exists st' ok, all_gaps_ok jinfos limits_map limits cluster h considered st = Ret (st', ok) /\ live st'.
Proof.
  intros Hst Hin Hvals. revert st Hst Hvals. induction Hin as [|x considered [c Hx] Hin IH]; intros st Hst Hvals; cbn [all_gaps_ok].
  - by exists st, true.
  - unfold item_at at 1. rewrite Hx. cbn [of_option obind].
    destruct Hst as [[Hj Hv] Hl Hn].
    rewrite (limits_same jinfos limits_map limits cluster job _ _ _ _ _ Hj).
    destruct (lr_limits (ry_limits Hready)) as (p & j & lims & Hp & Hjp & Hlims & _ & _ & Hfl & Hnum & Hcount).
    destruct Hvals as (p' & j' & lims' & Hp' & Hjp' & Hlims' & [um Hum] & [gm Hgm]).
    assert (p' = p) as -> by congruence. assert (j' = j) as -> by congruence. assert (lims' = lims) as -> by congruence.
    assert (Hone : exists l' ok, limits_is_gap_ok limits_map (se_values st) (se_values_global st) jinfos limits
      (se_limits st) job (item c) cluster = Ret (l', ok) /\ values_are limits l' lxs lvs).
    { unfold limits_is_gap_ok. rewrite Hp. cbn [of_option obind]. rewrite Hjp. cbn [of_option obind].
      unfold walltime_suits_to_limit. rewrite Hlims. cbn [obind].
      destruct (Z.eqb_spec (first_suiting (i32 (get_walltime j)) (tresholds lims)) (-1)); [lia|]. unfold value_at at 1.
      destruct (Z.ltb_spec (first_suiting (i32 (get_walltime j)) (tresholds lims)) 0); [lia|]. rewrite Hum. cbn [of_option obind].
      destruct (Z.ltb_spec um (i32 (pj_req_ppn job * pj_req_num_nodes job))) as [|Hfirst]; [by exists (se_limits st), false|].
      destruct (gap_walk_spec (pj_account_id job) (i32 (pj_req_ppn job * pj_req_num_nodes job))
        (first_suiting (i32 (get_walltime j)) (tresholds lims)) (item c) (se_values st) (se_values_global st) um gm
        ltac:(lia) Hum Hgm (lr_cpus (ry_limits Hready)) Hfirst lvs Hcount) as (b & Ew & _).
      pose proof (walk_with_next (gap_ok_step (se_values st) (se_values_global st) (pj_account_id job)
        (i32 (pj_req_ppn job * pj_req_num_nodes job)) (first_suiting (i32 (get_walltime j)) (tresholds lims)) (item c))
        limits (se_limits st) lxs lvs true Hl) as Hwalk.
      rewrite Ew in Hwalk. destruct Hwalk as (l' & -> & Hl'). cbn [obind]. by exists l', b. }
    destruct Hone as (l' & ok & -> & Hl'). cbn [obind].
    assert (Hst' : live (st <| se_limits := l' |>)) by (by constructor).
    destruct ok; [|by exists (st <| se_limits := l' |>), false].
    apply IH; [done|]. exists p, j, lims. split_and!; try done; by eexists.
Qed.

Lemma check_total considered st :
  live st -> items_of considered ->
  exists st' ok, check_considered_gaps jinfos limits_map limits cluster h considered st = Ret (st', ok) /\ live st'.
Proof.
  intros [Hi Hl Hn] Hin. unfold check_considered_gaps.
  destruct (lr_limits (ry_limits Hready)) as (p & j & lims & Hp & Hjp & Hlims & H1 & H2 & Hfl & Hnum & Hcount).
  destruct (update_limits_values_total limits_map cluster lims (se_values st) (se_values_global st) Hlims H1 H2) as (v & g & -> & Hvg).
  cbn [obind]. apply all_gaps_ok_total; [|done|].
  - constructor; [|done|done]. destruct Hi. by split.
  - exists p, j, lims. destruct (Hvg (Z.to_nat (first_suiting (i32 (get_walltime j)) (tresholds lims)))); [lia|]. done.
Qed.

Lemma fill_names_total count names name :
  (count <= length names)%nat -> exists names', fill_names count names name = Ret names' /\ length names' = length names.
Proof.
  revert names. induction count as [|count IH]; intros [|x names] H; simpl in *; try lia; [by exists []|by exists (x :: names)|].
  destruct (IH names ltac:(lia)) as (names' & -> & Hl). cbn [obind]. eexists. split; [done|]. simpl. by rewrite Hl.
Qed.

(** An entry whose node is there. *)
Definition entry_ready (m : plan_gap_mem) : Prop :=
  exists p n lo hi, gm_ninfo m = Some p /\ nodes !! p = Some n /\
    get_walltime_limit_min badval (p_phys_props (data n)) = Ret lo /\
    get_walltime_limit_max badval (p_phys_props (data n)) = Ret hi.

Lemma add_nodes_total fix_job m r st :
  live st -> entry_ready m -> exists r' st', add_nodes nodes fix_job m r st = Ret (r', st') /\ live st' /\
    se_gaps st' = se_gaps st.
Proof.
  intros [Hi Hl (names & En & Hlen)] (p & n & lo & hi & Hm & Hn & _).
  assert (Enum : pj_req_num_nodes (se_job st) = pj_req_num_nodes job) by (destruct Hi as [-> _]; done).
  unfold add_nodes. rewrite Enum. cbv zeta.
  set (cnt := if _ >? _ then _ else _).
  assert (Hcnt : cnt <= pj_req_num_nodes job).
  { unfold cnt. destruct (Z.gtb_spec (i32 (re_plan_num_nodes r + re_tmp_max_nodes_ppn r)) (pj_req_num_nodes job)); lia. }
  assert (H : exists job', fix_names nodes fix_job cnt m (se_job st) = Ret job' /\
    exists names, pj_fixed_nname_arr job' = Some names /\ pj_req_num_nodes job <= Z.of_nat (length names)).
  { unfold fix_names. destruct fix_job; [|exists (se_job st); split; [done|]; by exists names].
    destruct (cnt <=? 0); [exists (se_job st); split; [done|]; by exists names|].
    rewrite En, Hm. cbn [of_option obind]. rewrite Hn. cbn [of_option obind].
    destruct (fill_names_total (Z.to_nat cnt) names (node_name n) ltac:(lia)) as (names' & -> & Hlen'). cbn [obind].
    eexists. split; [done|]. exists names'. split; [done|]. lia. }
  destruct H as (job' & Ef & Hnames). rewrite Ef. cbn [obind]. eexists _, _. split; [done|]. split; [|done].
  constructor; [|done|done]. destruct Hi as [Hj Hv]. split; [|done]. simpl. by eapply (fix_names_same nodes).
Qed.

Lemma places_total g p : gap_ready g -> exists k, places parse_nodespec jinfos g p job = Ret k.
Proof.
  intros (ms & Em & _). unfold places, check_node_in_gap. rewrite Em. cbn [obind].
  destruct (ry_exclusive Hready) as [b Hb]. rewrite Hb. pose proof (ry_ppn Hready).
  destruct (find_first _ ms); cbn [obind]; [|by eexists].
  destruct (Z.eqb_spec (pj_req_ppn job) 0); [lia|]. cbn [obind]. by eexists.
Qed.

Lemma unfit_total g m : entry_ready m -> exists b, node_unfit badval nodes g m job = Ret b.
Proof.
  intros (p & n & lo & hi & Hm & Hn & Hlo & Hhi). unfold node_unfit. rewrite Hm. cbn [of_option obind]. rewrite Hn. cbn [of_option obind].
  rewrite Hlo, Hhi. cbv zeta. cbn [obind]. destruct (_ || _); [by eexists|]. destruct (_ && _); by eexists.
Qed.

Lemma lacks_total m : entry_ready m -> exists b, lacks_gpu nodes m job = Ret b.
Proof.
  intros (p & n & lo & hi & Hm & Hn & _). unfold lacks_gpu. destruct (_ >? 0); [|by eexists].
  rewrite Hm. cbn [of_option obind]. rewrite Hn. cbn [of_option obind]. by eexists.
Qed.

(** The item whose start the search compares with the end before it. *)
Definition next_ok (next : option positive) : Prop :=
  exists p b, next = Some p /\ starts_at_end_of_previous h p = Ret b.

Lemma live_at st p : live st -> live (st <| se_gaps := se_gaps st <| current := p |> |>).
Proof. intros [[Hj Hv] Hl Hn]. constructor; [|done|done]. split; [done|]. by apply values_current. Qed.

Lemma reach_on_total fix_job m : entry_ready m -> forall fuel ys y zs us v ws r st,
  xs = (ys ++ y :: zs)%list -> vs = (us ++ v :: ws)%list -> length ys = length us ->
  live st -> current (se_gaps st) = Some y -> items_of (re_considered r) -> (length zs < fuel)%nat ->
  next_ok (re_next_gap r) \/ (zs <> [] /\ re_duration r < est) ->
  exists r' st' found, reach_on parse_nodespec jinfos nodes limits_map limits cluster h fuel fix_job m r st = Ret (r', st', found) /\
    live st' /\ items_of (re_considered r') /\ next_ok (re_next_gap r').
Proof.
  intros Hm fuel. induction fuel as [|fuel IH]; intros ys y zs us v ws r st Hxs Hvs Hlen Hst Hcur Hcons Hfuel Hnext; [lia|].
  cbn [reach_on]. destruct Hst as [[Hj Hv] Hl Hnames].
  assert (Hst : live st) by (constructor; [by split|done|done]).
  assert (Eest : pj_estimated_processing (se_job st) = est) by (by rewrite Hj). rewrite Eest.
  destruct (Z.ltb_spec (re_duration r) est) as [Hd|Hd]; cbn [negb].
  2:{ exists r, st, false. split; [done|]. split; [done|]. split; [done|]. destruct Hnext as [?|[_ ?]]; [done|lia]. }
  assert (Hn : list_get_next h (se_gaps st) = Ret (se_gaps st <| current := head zs |>)).
  { apply (next_of_walk h (se_gaps st) (ys ++ [y]) zs); [|by rewrite last_snoc].
    rewrite <- (assoc_L (++)%list). simpl. rewrite <- Hxs. exact (va_lists _ _ _ _ Hv). }
  rewrite Hn. cbn [obind]. pose proof (live_at st (head zs) Hst) as Hst1. destruct zs as [|z zs].
  { cbn. eexists _, _, _. split; [done|]. split; [done|]. split; [done|]. by destruct Hnext as [?|[? _]]. }
  cbn [head] in *. change (current (se_gaps st <| current := Some z |>)) with (Some z). cbv iota zeta.
  assert (Hv' := Hv). rewrite Hxs, Hvs in Hv'. pose proof (values_length _ _ _ _ Hv') as Hlv.
  rewrite !length_app in Hlv. destruct ws as [|w ws]; [simpl in Hlv; lia|].
  destruct (starts_at_end_spec h _ _ _ _ _ _ _ _ _ Hv' Hlen) as (Es & Ei & Hz). rewrite Es, Ei. cbn [obind].
  assert (Hnok : next_ok (Some z)) by (by eexists _, _).
  destruct (pg_start_time w =? pg_end_time v); cbn [negb]; [|by eexists _, _, _].
  rewrite (places_same _ _ _ _ _ (se_job (st <| se_gaps := se_gaps st <| current := Some z |> |>)) Hj).
  assert (Hw : gap_ready w) by (pose proof (ry_gaps Hready) as H; rewrite Forall_forall in H; apply H; rewrite Hvs; set_solver).
  destruct (places_total w (gm_ninfo m) Hw) as [k ->]. cbn [obind].
  destruct (k =? 0); [by eexists _, _, _|].
  change (extend z w k (r <| re_next_gap := Some z |>)) with (extend z w k r).
  set (r1 := extend z w k r). set (st1 := st <| se_gaps := _ |>) in *.
  assert (Hcons1 : items_of (re_considered r1)).
  { unfold r1, extend. cbn [re_considered]. apply Forall_app. split; [done|]. repeat constructor.
    apply items_lookup in Hz as (c & Hc & _). by eexists. }
  assert (Hgo : forall r2 st2, live st2 -> current (se_gaps st2) = Some z -> re_considered r2 = re_considered r1 ->
    re_next_gap r2 = Some z ->
    exists r' st' found, reach_on parse_nodespec jinfos nodes limits_map limits cluster h fuel fix_job m r2 st2 = Ret (r', st', found) /\
      live st' /\ items_of (re_considered r') /\ next_ok (re_next_gap r')).
  { intros r2 st2 Hst2 Hcur2 Hc2 Hn2. apply (IH (ys ++ [y])%list z zs (us ++ [v])%list w ws).
    - by rewrite <- (assoc_L (++)%list).
    - by rewrite <- (assoc_L (++)%list).
    - rewrite !length_app. simpl. lia.
    - done.
    - done.
    - by rewrite Hc2.
    - simpl in Hfuel. lia.
    - left. by rewrite Hn2. }
  destruct (re_duration r1 >=? _) eqn:Elong.
  - destruct (add_nodes_total fix_job m r1 st1 Hst1 Hm) as (r2 & st2 & Ea & Hst2 & Hg2). rewrite Ea. cbn [obind].
    destruct (add_nodes_spec nodes h xs vs job fix_job m r1 st1 r2 st2 (lv_inv _ Hst1) Ea) as (_ & _ & ->).
    set (r2 := r1 <| re_plan_num_nodes := _ |>).
    destruct (_ && _); [|by apply Hgo; [|rewrite Hg2|..]].
    destruct (check_total (re_considered r1) st2 Hst2 Hcons1) as (st3 & ok & Ec & Hst3).
    change (re_considered r2) with (re_considered r1). rewrite Ec. cbn [obind].
    destruct (check_considered_gaps_spec _ _ _ _ _ _ _ _ _ _ _ _ (lv_inv _ Hst2) Ec) as (_ & Hg3 & _).
    destruct ok; [by eexists _, _, _|]. apply Hgo; [done|by rewrite Hg3, Hg2|done..].
  - cbn [obind andb]. by apply Hgo.
Qed.

Lemma search_nodes_total fix_job ys x zs us v0 ws :
  xs = (ys ++ x :: zs)%list -> vs = (us ++ v0 :: ws)%list -> length ys = length us ->
  forall ms plan considered next st,
  (forall m, m ∈ ms -> entry_ready m) -> live st -> items_of considered -> next = None \/ next_ok next ->
  exists next' st' found,
    search_nodes badval parse_nodespec jinfos nodes limits_map limits cluster h fix_job x v0 ms plan considered next st
      = Ret (next', st', found) /\ live st' /\ (next' = None \/ next_ok next').
Proof.
  intros Hxs Hvs Hlen ms. induction ms as [|m ms IH]; intros plan considered next st Hms Hst Hcons Hnext; cbn [search_nodes].
  { by eexists _, _, _. }
  assert (Hgo : forall plan considered next st, live st -> items_of considered -> next = None \/ next_ok next ->
    exists next' st' found,
      search_nodes badval parse_nodespec jinfos nodes limits_map limits cluster h fix_job x v0 ms plan considered next st
        = Ret (next', st', found) /\ live st' /\ (next' = None \/ next_ok next')).
  { intros ????. apply IH. intros m' Hm'. apply Hms. by right. }
  pose proof (Hms m ltac:(by left)) as Hm. pose proof (proj1 (lv_inv _ Hst)) as Hj.
  rewrite (unfit_same badval nodes job _ _ _ Hj), (lacks_same nodes job _ _ Hj), (places_same parse_nodespec jinfos job _ _ _ Hj).
  destruct (unfit_total v0 m Hm) as [[|] ->]; cbn [obind]; [by apply Hgo|].
  destruct (lacks_total m Hm) as [[|] ->]; cbn [obind]; [by apply Hgo|].
  assert (Hv0 : gap_ready v0) by (pose proof (ry_gaps Hready) as H; rewrite Forall_forall in H; apply H; rewrite Hvs; set_solver).
  destruct (places_total v0 (gm_ninfo m) Hv0) as [k ->]. cbn [obind].
  assert (Eest : pj_estimated_processing (se_job st) = est) by (by rewrite Hj). rewrite Eest. cbv zeta.
  set (r0 := mkReach (pg_duration v0) plan k (considered ++ [x])%list next true).
  assert (Hval : values_are h (se_gaps st) (ys ++ x :: zs) (us ++ v0 :: ws)) by (rewrite <- Hxs, <- Hvs; apply (lv_inv _ Hst)).
  destruct (values_at _ _ _ _ _ _ _ _ Hval Hlen) as (Hx & _ & _).
  assert (Hcons0 : items_of (re_considered r0)).
  { apply Forall_app. split; [done|]. repeat constructor. apply items_lookup in Hx as (c & Hc & _). by eexists. }
  assert (Hwalk : exists r1 st1 b,
    (if pg_duration v0 <? est
     then reach_on parse_nodespec jinfos nodes limits_map limits cluster h (S (size h)) fix_job m r0
            (st <| se_gaps := se_gaps st <| current := Some x |> |>)
     else let! (r, st) := add_nodes nodes fix_job m r0 st in Ret (r, st, false)) = Ret (r1, st1, b) /\
    live st1 /\ items_of (re_considered r1) /\
    (if pg_duration v0 <? est then next_ok (re_next_gap r1) else re_next_gap r1 = None \/ next_ok (re_next_gap r1))).
  { destruct (Z.ltb_spec (pg_duration v0) est) as [Hshort|_].
    - apply (reach_on_total fix_job m Hm (S (size h)) ys x zs us v0 ws); try done; [by apply live_at| |].
      + pose proof (lists_size _ _ _ (va_lists _ _ _ _ Hval)) as Hsz. rewrite length_app in Hsz. simpl in Hsz. lia.
      + right. split; [|done]. intros ->. pose proof (values_length _ _ _ _ Hval) as Hl. rewrite !length_app in Hl.
        destruct ws; [|simpl in Hl; lia]. pose proof (ry_last Hready v0) as Hlast.
        rewrite Hvs, last_snoc in Hlast. specialize (Hlast eq_refl). unfold est in *. lia.
    - destruct (add_nodes_total fix_job m r0 st Hst Hm) as (r1 & st1 & E & Hst1 & _). rewrite E. cbn [obind].
      destruct (add_nodes_spec nodes h xs vs job fix_job m r0 st r1 st1 (lv_inv _ Hst) E) as (_ & _ & ->).
      eexists _, _, _. split; [done|]. split_and!; done. }
  destruct Hwalk as (r1 & st1 & b & -> & Hst1 & Hcons1 & Hnext1). cbn [obind].
  assert (Hnext2 : re_next_gap r1 = None \/ next_ok (re_next_gap r1)) by (destruct (_ <? _) in Hnext1; [by right|done]).
  destruct b; [by eexists _, _, _|].
  assert (Hbroken : exists b, (if pg_duration v0 <? est then
      let! next := of_option (re_next_gap r1) in let! follows := starts_at_end_of_previous h next in Ret (negb follows)
    else Ret false) = Ret b).
  { destruct (pg_duration v0 <? est); [|by eexists]. destruct Hnext1 as (p & b & -> & Hb). cbn [of_option obind]. rewrite Hb. cbn [obind]. by eexists. }
  destruct Hbroken as [[|] ->]; cbn [obind]; [by eexists _, _, _|].
  destruct (_ && _ && _); cbn [obind]; [|by apply Hgo].
  destruct (check_total (re_considered r1) st1 Hst1 Hcons1) as (st2 & ok & -> & Hst2). cbn [obind].
  destruct ok; [by eexists _, _, _|by apply Hgo].
Qed.

Lemma clear_names_total st :
  live st -> exists job', clear_names (se_job st) = Ret job' /\ live (st <| se_job := job' |>).
Proof.
  intros [[Hj Hv] Hl (names & En & Hlen)].
  assert (Enum : pj_req_num_nodes (se_job st) = pj_req_num_nodes job) by (by rewrite Hj).
  assert (H : exists job', clear_names (se_job st) = Ret job' /\ exists names, pj_fixed_nname_arr job' = Some names /\
    pj_req_num_nodes job <= Z.of_nat (length names)).
  { unfold clear_names. rewrite Enum. destruct (_ <=? 0); [exists (se_job st); split; [done|]; by exists names|].
    rewrite En. cbn [of_option obind]. unfold first_of. destruct (Z.leb_spec (pj_req_num_nodes job) (Z.of_nat (length names))); [|lia].
    cbn [obind]. eexists. split; [done|]. eexists. split; [reflexivity|].
    rewrite length_app, length_replicate, length_drop. pose proof (ry_nodes Hready). lia. }
  destruct H as (job' & E & Hn). exists job'. split; [exact E|]. constructor; [|done|done]. split; [|done]. simpl.
  by eapply clear_names_same.
Qed.

Lemma search_gaps_total fix_job fuel : forall ys zs us ws next st,
  xs = (ys ++ zs)%list -> vs = (us ++ ws)%list -> length ys = length us -> live st -> current (se_gaps st) = last ys ->
  (length zs < fuel)%nat -> next = None \/ next_ok next ->
  exists st' r, search_gaps badval parse_nodespec jinfos nodes limits_map limits cluster h fuel fix_job next st = Ret (st', r).
Proof.
  induction fuel as [|fuel IH]; intros ys zs us ws next st Hxs Hvs Hlen Hst Hcur Hfuel Hnext; [lia|]. cbn [search_gaps].
  pose proof (proj2 (lv_inv _ Hst)) as Hv. rewrite Hxs, Hvs in Hv.
  rewrite (next_of_walk h (se_gaps st) ys zs (va_lists _ _ _ _ Hv) Hcur). cbn [obind].
  destruct zs as [|z zs]; [by eexists _, _|]. cbn [head].
  change (current (se_gaps st <| current := Some z |>)) with (Some z). cbv iota zeta.
  pose proof (values_length _ _ _ _ Hv) as Hl. rewrite !length_app in Hl. destruct ws as [|w ws]; [simpl in Hl; lia|].
  destruct (values_at _ _ _ _ _ _ _ _ Hv Hlen) as (_ & -> & _). cbn [obind].
  pose proof (live_at st (Some z) Hst) as Hst1. set (st1 := st <| se_gaps := _ |>) in *.
  assert (Hgo : forall next st2, live st2 -> current (se_gaps st2) = Some z -> next = None \/ next_ok next -> exists st' r,
    search_gaps badval parse_nodespec jinfos nodes limits_map limits cluster h fuel fix_job next st2 = Ret (st', r)).
  { intros next2 st2 Hst2 Hcur2 Hn2. apply (IH (ys ++ [z])%list zs (us ++ [w])%list ws); rewrite ?length_app, ?last_snoc, ?Hlen;
      try done; [by rewrite <- (assoc_L (++)%list)|by rewrite <- (assoc_L (++)%list)|simpl in Hfuel; lia]. }
  destruct (_ <? _); [by apply Hgo|].
  destruct (clear_names_total st1 Hst1) as (job1 & -> & Hst2). cbn [obind].
  assert (Hw : gap_ready w) by (pose proof (ry_gaps Hready) as H; rewrite Forall_forall in H; apply H; rewrite Hvs; set_solver).
  destruct Hw as (ms & -> & Hms). cbn [obind].
  destruct (search_nodes_total fix_job ys z zs us w ws Hxs Hvs Hlen ms 0 [] next (st1 <| se_job := job1 |>) Hms Hst2)
    as (next' & st3 & found & -> & Hst3 & Hn3); [by constructor|done|]. cbn [obind].
  destruct found; [by eexists _, _|]. apply Hgo; [by apply live_at|done|done].
Qed.
End Total.

(** C24: with well-formed gaps, nodes, limits and job, and a last gap that is long
    enough, the search for a gap ends without an access out of bounds.  A gap
    that it answers offers the processors of the job; nodes that are usable from
    its start on have together room for all parts of the job, in every one of
    the unbroken gaps until the job ends, and the limits accept each of these
    gaps. *)
Theorem found_gap_suits_the_job (badval : Z) (parse_nodespec : string -> option pars_spec) (jinfos : gmap positive JobInfo)
    (nodes : gmap positive node_info) (limits_map : gmap string (gmap Z cluster_limits_arrays)) (limits : heap plan_limit)
    (cluster : plan_cluster) (h : heap plan_gap) (xs : list positive) (vs : list plan_gap) (lxs : list positive)
    (lvs : list plan_limit) (job : plan_job) (fix_job : bool) (st : search)
    (Hready : ready badval parse_nodespec jinfos nodes limits_map cluster vs lvs job)
    (Hgaps : values_are h (se_gaps st) xs vs) (Hlimits : values_are limits (se_limits st) lxs lvs)
    (Hjob : se_job st = job)
    (Hnames : exists names, pj_fixed_nname_arr job = Some names /\ pj_req_num_nodes job <= Z.of_nat (length names)) :
  exists st' r, find_first_gap badval parse_nodespec jinfos nodes limits_map limits cluster h fix_job st = Ret (st', r) /\
    forall x, r = Some x -> suits badval parse_nodespec jinfos nodes limits_map limits cluster xs vs job x.
Proof.
  assert (Hst : live limits h xs vs lxs lvs job (st <| se_gaps := se_gaps st <| current := None |> |>)).
  { constructor; [split|done|]; simpl; rewrite ?Hjob; [apply same_job_refl|by apply values_current|done]. }
  pose proof (lists_size _ _ _ (va_lists _ _ _ _ Hgaps)) as Hsz.
  destruct (search_gaps_total badval parse_nodespec jinfos nodes limits_map limits cluster h xs vs lxs lvs job Hready fix_job (S (size h))
    [] xs [] vs None _ eq_refl eq_refl eq_refl Hst eq_refl ltac:(lia) ltac:(by left)) as (st' & r & E).
  exists st', r. split; [exact E|]. intros x ->.
  destruct Hready as [_ _ Hppn Hn _ He _].
  by eapply (search_gaps_spec _ _ _ _ _ _ _ h xs vs job fix_job He Hppn Hn (S (size h)) [] xs [] vs None
    (st <| se_gaps := se_gaps st <| current := None |> |>)); [..|exact (lv_inv _ _ _ _ _ _ _ _ Hst)|reflexivity|exact E].
Qed.

(** Two nodes, of which the second takes two of the three parts of the job; the
    first gap is too short, but the second follows it. *)
Definition example_entries : list plan_gap_mem :=
  [mkGapMem (Some 1%positive) 4 100 0 0 0; mkGapMem (Some 2%positive) 8 100 0 0 0].
Definition example_gaps : list plan_gap :=
  [mkPlanGap 100 150 50 12 2 (Some example_entries) None;
   mkPlanGap 150 PlanGaps.LONG_MAX PlanGaps.LONG_MAX 12 2 (Some example_entries) None].
Definition example_gap_heap : heap plan_gap := list_to_map
  [(1%positive, mkCell (mkPlanGap 100 150 50 12 2 (Some example_entries) None) (Some 2%positive) None);
   (2%positive, mkCell (mkPlanGap 150 PlanGaps.LONG_MAX PlanGaps.LONG_MAX 12 2 (Some example_entries) None) None (Some 1%positive))].
Definition example_new_job : plan_job :=
  mkPlanJob 7 (Some 1%positive) (-1) (-1) 100 0 0 0 9 3 0 3 10 0 0 [None; None; None] (Some [None; None; None]) None
    [] [] None false 1.
Definition whole : SpecFloat.spec_float := SpecFloat.S754_finite false 8388608 (-23).
Definition example_full_table : gmap string (gmap Z cluster_limits_arrays) :=
  {[ "" := {[ 0 := mkLimits [whole; whole] [whole; whole] [7200; 14400] ]} ]}.
Definition example_parser (_ : string) : option pars_spec := Some (mkSpec false [] 3 9).
Definition example_search : search :=
  mkSearch (mkList 2 (Some 1%positive) (Some 2%positive) None) example_limit_list example_new_job [] [].

Lemma example_ready :
  ready 0 example_parser example_jinfos example_nodes example_full_table example_cluster example_gaps example_limits example_new_job.
Proof.
  constructor.
  - constructor; [vm_compute; congruence|].
    exists 1%positive, (new_JobInfo "7.srv"), (mkLimits [whole; whole] [whole; whole] [7200; 14400]).
    split; [reflexivity|]. split; [reflexivity|]. split; [reflexivity|]. simpl. split; [lia|]. split; [lia|].
    split; [vm_compute; split; congruence|]. split; [vm_compute; congruence|].
    repeat constructor; simpl; try lia; try done; intros a Ha; set_unfold; [destruct Ha as [->|[]]; unfold cpus_for; simpl; lia|done].
  - exists false. reflexivity.
  - reflexivity.
  - vm_compute. split; congruence.
  - assert (H : forall m, m ∈ example_entries -> exists p n lo hi, gm_ninfo m = Some p /\ example_nodes !! p = Some n /\
      get_walltime_limit_min 0 (p_phys_props (data n)) = Ret lo /\ get_walltime_limit_max 0 (p_phys_props (data n)) = Ret hi).
    { intros m Hm. unfold example_entries in Hm. rewrite !elem_of_cons in Hm. destruct Hm as [->|[->|Hm]].
      - exists 1%positive, (example_node "n1" 4 {[ "infiniband" ]} (Some "c1")), 0, 0.
        split; [reflexivity|]. split; [reflexivity|]. split; vm_compute; reflexivity.
      - exists 2%positive, (example_node "n2" 8 {[ "infiniband"; "max_2h" ]} (Some "c1")), 0, 7200.
        split; [reflexivity|]. split; [reflexivity|]. split; vm_compute; reflexivity.
      - by apply not_elem_of_nil in Hm. }
    repeat constructor; by exists example_entries.
  - repeat constructor; vm_compute; congruence.
  - intros g [= <-]. vm_compute. congruence.
Qed.

Lemma found_gap_suits_the_job_witness :
  exists st', find_first_gap 0 example_parser example_jinfos example_nodes example_full_table example_limit_heap example_cluster
      example_gap_heap true example_search = Ret (st', Some 1%positive) /\
    pj_fixed_nname_arr (se_job st') = Some [Some "n1"; Some "n2"; Some "n2"] /\
    suits 0 example_parser example_jinfos example_nodes example_full_table example_limit_heap example_cluster
      [1%positive; 2%positive] example_gaps example_new_job 1.
Proof.
  destruct (found_gap_suits_the_job 0 example_parser example_jinfos example_nodes example_full_table example_limit_heap example_cluster
    example_gap_heap [1%positive; 2%positive] example_gaps [1%positive; 2%positive] example_limits example_new_job true example_search)
    as (st' & r & E & Hr).
  - exact example_ready.
  - split; [|repeat constructor].
    split; [apply (bool_decide_unpack _); vm_compute; exact I| |reflexivity|reflexivity|reflexivity].
    repeat split; eexists; reflexivity.
  - apply example_limits_ok.
  - reflexivity.
  - eexists. split; [reflexivity|]. simpl. lia.
  - exists st'. assert (Hc : r = Some 1%positive /\ pj_fixed_nname_arr (se_job st') = Some [Some "n1"; Some "n2"; Some "n2"]).
    { revert E. vm_compute. intros E. injection E as <- <-. split; reflexivity. }
    destruct Hc as [-> Hc]. split; [exact E|]. split; [exact Hc|]. by apply Hr.
Defined.
