(* ===== verification/PlanUpdate.v ===== *)
(** * Planning a job anew: update_job of plan_operations.cpp

    The jobs of a cluster are planned one after the other.  A job takes the
    processors that are free first, as many of one node at a time as each of its
    parts needs; an exclusive job takes whole nodes.  The processors free before
    the job starts become gaps, and the slots are brought up to date. *)

From Stdlib Require Import ZArith Lia Bool Ascii String.
From S2P Require Import Prelude CString MiscHelpers Resource DataTypes Config NodeData JobInfo NodeLogic PlanData PlanList PlanValues PlanGaps PlanLimits PlanTime PlanClusters PlanSlots PlanFind.

Local Open Scope string_scope.
Open Scope Z_scope.
Local Open Scope sched_scope.

(** ** ith_smallest

    The availability of a slot: 0 it can be used; positive, the attempt it was
    last taken in; negative, why it cannot be used. *)

Abbreviation DOWN := (-1).
Abbreviation FEW_CPUS := (-2).
Abbreviation NO_MEM := (-3).
Abbreviation NO_AVAILABLE_MEM := (-4).
Abbreviation MEM_EXCEPTION := (-5).
Abbreviation USED := (-6).
Abbreviation PROHIBITED := (-7).
Abbreviation AVAILABLE_TOO_SHORT := (-8).
Abbreviation UNFIT_NODE := (-9).

Section Smallest.
Variable considered_node : option positive.
Variable attempt_count : Z.
(** The latest processor taken of the node, and of all nodes. *)
Variable node_latest total_latest : option first_free_slot.

(** The memory does not matter on a slot that is free before one that is taken:
    the job starts later than that. *)
Definition except (s : first_free_slot) (a : Z) : Z :=
  let a :=
    match node_latest with
    | Some nl =>
        if (a =? NO_AVAILABLE_MEM) && bool_decide (ff_ninfo s = considered_node) && bool_decide (ff_ninfo nl = ff_ninfo s)
           && (ff_time nl >? ff_time s) then MEM_EXCEPTION else a
    | None => a
    end in
  match node_latest, total_latest with
  | None, Some tl => if (a =? NO_AVAILABLE_MEM) && (ff_time tl >? ff_time s) then MEM_EXCEPTION else a
  | _, _ => a
  end.

Definition can_take (s : first_free_slot) (a : Z) : bool :=
  (a =? 0) || (a =? MEM_EXCEPTION) || ((a >? 0) && (a <? attempt_count) && bool_decide (ff_ninfo s = considered_node)).

(** The first of the earliest slots that can be taken; the time is put in an
    [int].  The exceptions last for one step. *)
Fixpoint scan_slots (i : nat) (ss : slots) (avail : list Z) (best : option (nat * Z)) : option (nat * Z) * list Z :=
  match ss, avail with
  | s :: ss, a :: avail =>
      let possible_min := i32 (ff_time s) in
      let a := except s a in
      let min := match best with Some (_, t) => t | None => PlanGaps.LONG_MAX end in
      let best := if (possible_min <? min) && can_take s a then Some (i, possible_min) else best in
      let (r, avail) := scan_slots (S i) ss avail best in
      (r, (if a =? MEM_EXCEPTION then NO_AVAILABLE_MEM else a) :: avail)
  | _, _ => (best, avail)
  end.

Definition ith_smallest (ss : slots) (avail : list Z) : option nat * list Z :=
  match scan_slots 0 ss avail None with
  | (Some (i, _), avail) => (Some i, <[i := attempt_count]> avail)
  | (None, avail) => (None, avail)
  end.
End Smallest.

(** An index that is [-1] when there is none. *)
Definition slot_opt (ss : slots) (i : option nat) : outcome (option first_free_slot) :=
  match i with
  | Some i => let! s := slot_at ss i in Ret (Some s)
  | None => Ret None
  end.

Definition store {A} (l : list A) (i : nat) (v : A) : outcome (list A) :=
  if decide (i < length l)%nat then Ret (<[i := v]> l) else UB.

(** An index is put at position [k], before the ones of later slots. *)
Fixpoint insert_by_time (ss : slots) (cpus : list Z) (k : nat) (cpu : nat) (t : Z) : outcome (list Z) :=
  match k with
  | O => store cpus O (Z.of_nat cpu)
  | S k' =>
      let! c := of_option (cpus !! k') in
      let! i := index_of c in
      let! s := slot_at ss i in
      if ff_time s >? t then let! cpus := store cpus k c in insert_by_time ss cpus k' cpu t
      else store cpus k (Z.of_nat cpu)
  end.

(** The later of two slots, the new one when they are equal. *)
Definition later (ss : slots) (latest : option nat) (cpu : nat) (t : Z) : outcome (option nat) :=
  match latest with
  | None => Ret (Some cpu)
  | Some k => let! s := slot_at ss k in Ret (Some (if ff_time s <=? t then cpu else k))
  end.

(** ** The search for processors *)

(** The local variables of the loop of [update_job].  [hu_tmp_cpu_arr] is the
    array [tmp_cpu_arr] as far as it is written. *)
Record hunt := mkHunt {
  hu_job : plan_job;
  hu_avail : list Z;
  hu_node_ppn_free : list Z;
  hu_considered_node : option positive;
  hu_plan_num_nodes : Z;
  hu_attempt_count : Z;
  hu_job_cpu : Z;
  hu_node_latest : option nat;
  hu_total_latest : option nat;
  hu_tmp_cpu_arr : list nat
}.

#[export] Instance hunt_fields : Fields hunt :=
  fields_app (fields_app (fields_app (fields_app (fields_app (fields_app (fields_app
  (fields_app (fields_app (fields_app (fields_const mkHunt)
  hu_job) hu_avail) hu_node_ppn_free) hu_considered_node) hu_plan_num_nodes) hu_attempt_count) hu_job_cpu)
  hu_node_latest) hu_total_latest) hu_tmp_cpu_arr.

Section Update.
(** The Torque library. *)
Variable parse_nodespec : string -> option pars_spec.
Variable jinfos : gmap positive JobInfo.
Variable nodes : gmap positive node_info.

Definition node_of_slot (s : first_free_slot) : outcome node_info :=
  let! p := slot_node s in of_option (nodes !! p).

(** The names fixed for the parts of a job. *)
Definition fixed_names (job : plan_job) : outcome (list (option string)) :=
  if pj_req_num_nodes job <=? 0 then Ret []
  else let! names := of_option (pj_fixed_nname_arr job) in first_of (pj_req_num_nodes job) names.

Definition is_null {A} (x : option A) : bool := match x with None => true | Some _ => false end.

Definition has_name (name : string) (x : option string) : bool :=
  match x with Some y => strcmp y name =? 0 | None => false end.

(** Whether the node of a slot lacks the GPUs of the job. *)
Definition slot_lacks_gpu (job : plan_job) (n : node_info) : bool :=
  (pj_req_gpu job >? 0) &&
  match get_resource (data n) "gpu" with None => true | Some r => p_max r <? pj_req_gpu job end.

Definition slot_availability (job : plan_job) (wipe exclusive : bool) (names : list (option string)) (s : first_free_slot)
  : outcome Z :=
  if ff_time s =? -1 then Ret DOWN
  else
    let! n := node_of_slot s in
    if negb (p_avail_before (data n) =? 0) && (p_avail_before (data n) <? pj_completion_time job) then Ret AVAILABLE_TOO_SHORT
    else if negb (walltime_limit_min n =? 0) && (walltime_limit_min n >? pj_estimated_processing job) then Ret UNFIT_NODE
    else if negb (walltime_limit_max n =? 0) && (walltime_limit_max n <? pj_estimated_processing job) then Ret UNFIT_NODE
    else if slot_lacks_gpu job n then Ret UNFIT_NODE
    else if negb exclusive && negb wipe && negb (existsb (has_name (node_name n)) names) then Ret PROHIBITED
    else if pj_req_ppn job >? cores_total n then Ret FEW_CPUS
    else if (pj_req_mem job >? ff_mem s) || (pj_req_scratch_local job >? ff_scratch_local s) then Ret NO_MEM
    else if (pj_req_mem job >? ff_available_mem s) || (pj_req_scratch_local job >? ff_available_scratch_local s)
    then Ret NO_AVAILABLE_MEM
    else Ret 0.

Section Hunt.
Variable ss : slots.
(** Whether no nodes are fixed for the job. *)
Variable wipe : bool.

(** A name that is fixed for one more part may be used again; the parts of other
    nodes are not touched.  The answer is whether the node is used up. *)
Fixpoint use_fixed (name : string) (names : list (option string)) (free : list Z) (not_anymore : bool) : list Z * bool :=
  match names, free with
  | x :: names, f :: free =>
      if (f =? 1) && has_name name x then
        if not_anymore then (f :: free, false)
        else let (free, r) := use_fixed name names free true in (0 :: free, r)
      else let (free, r) := use_fixed name names free not_anymore in (f :: free, r)
  | _, _ => (free, not_anymore)
  end.

Definition prohibit (p : option positive) (avail : list Z) : list Z :=
  zip_with (fun s a => if bool_decide (ff_ninfo s = p) && negb (a =? USED) then PROHIBITED else a) ss avail.

(** A part of the job is complete: its processors are used, and its node is fixed
    or, when nodes are fixed, one of them is used up. *)
Definition complete_part (st : hunt) : outcome hunt :=
  let job := hu_job st in
  let! plan_num_nodes := index_of (hu_plan_num_nodes st) in
  let! job_cpu := index_of (hu_job_cpu st) in
  let! last := of_option (pj_cpu_indexes job !! job_cpu) in
  let! last := index_of last in
  let! s := slot_at ss last in
  let! p := of_option (hu_considered_node st) in
  let! n := of_option (nodes !! p) in
  let! ninfo_arr := store (pj_ninfo_arr job) plan_num_nodes (Some p) in
  let! latest := of_option (hu_node_latest st) in
  let! latest_ncpu_index := store (pj_latest_ncpu_index job) plan_num_nodes (Z.of_nat latest) in
  let! cpus := first_of (pj_req_ppn job) (hu_tmp_cpu_arr st) in
  let avail := fold_left (fun avail (c : nat) => <[c := USED]> avail) cpus (hu_avail st) in
  let job := job <| pj_start_time := ff_time s |>
                 <| pj_completion_time := i64 (ff_time s + pj_estimated_processing job) |>
                 <| pj_ninfo_arr := ninfo_arr |> <| pj_latest_ncpu_index := latest_ncpu_index |> in
  let st := st <| hu_considered_node := None |> <| hu_node_latest := None |>
               <| hu_plan_num_nodes := i32 (hu_plan_num_nodes st + 1) |> in
  if wipe then
    let! names := of_option (pj_fixed_nname_arr job) in
    let! names := store names plan_num_nodes (Some (node_name n)) in
    Ret (st <| hu_avail := avail |> <| hu_job := job <| pj_fixed_nname_arr := Some names |> |>)
  else
    let! names := fixed_names job in
    let (free, not_anymore) := use_fixed (node_name n) names (hu_node_ppn_free st) false in
    Ret (st <| hu_avail := if not_anymore : bool then prohibit (Some p) avail else avail |>
            <| hu_node_ppn_free := free |> <| hu_job := job |>).

(** The slot [c] is taken.  On another node than before the current part is begun
    anew. *)
Definition put_cpu (st : hunt) (c : nat) : outcome hunt :=
  let! s := slot_at ss c in
  let! p := slot_node s in
  let job := hu_job st in
  let first_cpu := i32 (hu_plan_num_nodes st * pj_req_ppn job) in
  let moved := match hu_considered_node st with Some q => negb (bool_decide (q = p)) | None => false end in
  let attempt := if moved then i32 (hu_attempt_count st + 1) else hu_attempt_count st in
  let avail := if moved then <[c := attempt]> (hu_avail st) else hu_avail st in
  let job_cpu := if moved then first_cpu else hu_job_cpu st in
  let! k := index_of job_cpu in
  let! cpus := insert_by_time ss (pj_cpu_indexes job) k c (ff_time s) in
  let! node_latest := later ss (hu_node_latest st) c (ff_time s) in
  let! total_latest := later ss (hu_total_latest st) c (ff_time s) in
  let! j := index_of (i32 (job_cpu - first_cpu)) in
  if decide ((j <= length (hu_tmp_cpu_arr st))%nat /\ Z.of_nat j < pj_req_ppn job) then
    Ret (mkHunt (job <| pj_cpu_indexes := cpus |>) avail (hu_node_ppn_free st) (Some p) (hu_plan_num_nodes st) attempt
           job_cpu node_latest total_latest (take j (hu_tmp_cpu_arr st) ++ [c])%list)
  else UB.

Definition take_cpu (st : hunt) (c : nat) : outcome hunt :=
  let! st := put_cpu st c in
  let! st :=
    if i32 (hu_job_cpu st + 1) =? i32 (i32 (hu_plan_num_nodes st + 1) * pj_req_ppn (hu_job st))
    then complete_part st else Ret st in
  Ret (st <| hu_job_cpu := i32 (hu_job_cpu st + 1) |>).

(** The loop; the answer is whether enough processors are found. *)
Fixpoint hunt_cpus (fuel : nat) (st : hunt) : outcome (hunt * bool) :=
  match fuel with
  | O => UB
  | S fuel =>
      if hu_job_cpu st <? pj_usage (hu_job st) then
        let! node_latest := slot_opt ss (hu_node_latest st) in
        let! total_latest := slot_opt ss (hu_total_latest st) in
        match ith_smallest (hu_considered_node st) (hu_attempt_count st) node_latest total_latest ss (hu_avail st) with
        | (None, avail) => Ret (st <| hu_avail := avail |>, false)
        | (Some c, avail) => let! st := take_cpu (st <| hu_avail := avail |>) c in hunt_cpus fuel st
        end
      else Ret (st, true)
  end.
End Hunt.
End Update.
