(* ===== verification/PlanUpdateJob.v ===== *)
(** * Planning a job anew: whole nodes, gaps, and update_job of plan_operations.cpp

    An exclusive job takes the nodes that are free first as a whole.  When the
    processors of a job are found, its start is moved behind what the limits
    forbid, the times at which its processors wait for it become gaps, and the
    slots are brought up to date. *)

From Stdlib Require Import ZArith Lia Bool Ascii String.
From S2P Require Import Prelude CString MiscHelpers Resource DataTypes Config NodeData JobInfo NodeLogic PlanData PlanList PlanValues PlanGaps PlanLimits PlanTime PlanClusters PlanSlots PlanFind PlanUpdate.

Local Open Scope string_scope.
Open Scope Z_scope.
Local Open Scope sched_scope.

Definition fill {A} (n : Z) (v : A) (l : list A) : outcome (list A) :=
  let! _ := first_of n l in Ret (replicate (Z.to_nat n) v ++ drop (Z.to_nat n) l)%list.

(** The time that stands for no node. *)
Definition NEVER : Z := 7226578800.

Section Job.
(** The Torque library. *)
Variable parse_nodespec : string -> option pars_spec.
Variable jinfos : gmap positive JobInfo.
Variable nodes : gmap positive node_info.

(** ** Exclusive jobs *)

Record earliest_state := mkEarliest {
  en_node : option positive;
  en_best_node : option positive;
  en_overall_earliest_time : Z;
  en_latest_node_time : Z
}.

Section Exclusive.
Variable ss : slots.
Variable avail : list Z.

Definition earliest_step (job : plan_job) (counter : nat) (st : earliest_state) (i : nat) : outcome earliest_state :=
  let! s := slot_at ss i in
  let! p := slot_node s in
  let! n := of_option (nodes !! p) in
  if (cores_total n <? pj_req_ppn job) || is_off n then Ret st
  else
    let! a := of_option (avail !! i) in
    if (a =? NO_MEM) || (a =? AVAILABLE_TOO_SHORT) || (a =? UNFIT_NODE) then Ret st
    else
      let! chosen := first_of (Z.of_nat counter) (pj_ninfo_arr job) in
      if bool_decide (Some p ∈ chosen) then Ret st
      else
        let best := match en_best_node st with None => Some p | Some _ => en_best_node st end in
        let node := match en_node st with None => Some p | Some _ => en_node st end in
        let latest :=
          if bool_decide (node = Some p) && (en_latest_node_time st <? ff_time s)
          then ff_time s else en_latest_node_time st in
        if negb (bool_decide (node = Some p)) || (Z.of_nat i =? Z.of_nat (length ss) - 1) then
          if latest <=? en_overall_earliest_time st
          then Ret (mkEarliest (Some p) node latest 0)
          else Ret (mkEarliest (Some p) best (en_overall_earliest_time st) 0)
        else Ret (mkEarliest node best (en_overall_earliest_time st) latest).

(** The node that is free first among those not chosen yet becomes the one of the
    part [counter]; the answer is the time it is free. *)
Definition find_earliest_node (counter : nat) (job : plan_job) : outcome (plan_job * Z) :=
  let! ninfo_arr :=
    if (counter =? 0)%nat then fill (pj_req_num_nodes job) None (pj_ninfo_arr job) else Ret (pj_ninfo_arr job) in
  let job := job <| pj_ninfo_arr := ninfo_arr |> in
  let! st := ofold (earliest_step job counter) (seq 0 (length ss)) (mkEarliest None None NEVER 0) in
  let! ninfo_arr := store ninfo_arr counter (en_best_node st) in
  Ret (job <| pj_ninfo_arr := ninfo_arr |>, en_overall_earliest_time st).

Definition choose_nodes (job : plan_job) : outcome plan_job :=
  ofold (fun job counter =>
    let! (job, time) := find_earliest_node counter job in
    Ret (job <| pj_start_time := time |>)) (seq 0 (Z.to_nat (pj_req_num_nodes job))) job.
End Exclusive.

(** Whether the slot is of one of the nodes of the job. *)
Definition on_nodes (ps : list (option positive)) (s : first_free_slot) : outcome bool :=
  match ps with
  | [] => Ret false
  | _ => let! p := slot_node s in Ret (bool_decide (Some p ∈ ps))
  end.

(** The processors of the nodes wait until the job starts. *)
Definition wait_for_start (job : plan_job) (ps : list (option positive)) (s : first_free_slot) : outcome first_free_slot :=
  let! b := on_nodes ps s in
  Ret (if (b : bool) && (pj_start_time job <? ff_time s) then s <| ff_time := pj_start_time job |> else s).

(** The first processors of each node, as many as a part needs. *)
Definition first_cpus (job : plan_job) (ss : slots) (ps : list (option positive)) : list nat :=
  mjoin ((fun p => take (Z.to_nat (pj_req_ppn job))
    (filter (fun i => (ff_ninfo <$> ss !! i) = Some p) (seq 0 (length ss)))) <$> ps).

Definition assign_first_cpus (ss : slots) (ps : list (option positive)) (job : plan_job) : outcome plan_job :=
  let chosen := take (Z.to_nat (pj_usage job)) (first_cpus job ss ps) in
  let! _ := first_of (Z.of_nat (length chosen)) (pj_cpu_indexes job) in
  Ret (job <| pj_cpu_indexes := ((Z.of_nat <$> chosen) ++ drop (length chosen) (pj_cpu_indexes job))%list |>).

(** The nodes of an exclusive job; there are none when the time is [NEVER]. *)
Definition take_nodes (ss : slots) (avail : list Z) (job : plan_job) : outcome (plan_job * slots * bool) :=
  let! job := choose_nodes ss avail job in
  if pj_start_time job =? NEVER then Ret (job, ss, false)
  else
    let! ps := first_of (pj_req_num_nodes job) (pj_ninfo_arr job) in
    let! ss := omap_all (wait_for_start job ps) ss in
    let job := job <| pj_completion_time := i64 (pj_start_time job + pj_estimated_processing job) |> in
    let! job := assign_first_cpus ss ps job in
    Ret (job, ss, true).

(** All processors of the nodes, in the order of their times; the new array has
    room for every slot. *)
Definition take_all_cpus (ss : slots) (job : plan_job) : outcome plan_job :=
  let! ps := first_of (pj_req_num_nodes job) (pj_ninfo_arr job) in
  let! (cpus, n) :=
    ofold (fun '(cpus, n) i =>
      let! s := slot_at ss i in
      ofold (fun '(cpus, n) p =>
        let! b := slot_is_of s p in
        if b : bool then
          let! cpus := insert_by_time ss cpus n i (ff_time s) in Ret (cpus, S n)
        else Ret (cpus, n)) ps (cpus, n)) (seq 0 (length ss)) (replicate (length ss) 0, O) in
  Ret (job <| pj_cpu_indexes := cpus |> <| pj_usage := i32 (Z.of_nat n) |>).

(** ** The gaps in front of a job *)

Record cut := mkCut {
  cu_slots : slots;
  cu_heap : heap plan_gap;
  cu_list : plan_list;
  cu_run_me : Z;
  cu_gap_start : Z;
  cu_gap_usage : Z
}.

Section Gaps.
Variable create : option plan_gap.
(** The fields of a new gap that are set later. *)
Variable junk : plan_gap.
(** The job and its place. *)
Variable x : positive.
Variable job : plan_job.

Definition cut_gap (st : cut) (c : Z) : outcome cut :=
  let '(mkCut ss h l run_me gap_start gap_usage) := st in
  let! i := index_of c in
  let! s := slot_at ss i in
  let run_me := if ff_free_to_run s =? 0 then 0 else run_me in
  let ss := <[i := s <| ff_free_to_run := 0 |>]> ss in
  let gap_start := if gap_start =? -1 then ff_time s else gap_start in
  let usage := i32 (gap_usage + 1) in
  if gap_start =? ff_time s then Ret (mkCut ss h l run_me gap_start usage)
  else
    let gap := item (gap_fillin None junk gap_start (ff_time s) (i64 (ff_time s - gap_start)) gap_usage (Some x) None None) in
    let (h, c) := alloc h gap in
    let! (h, l, _) := list_add_end create h l (Some c) in
    let! gap := gap_memory_create gap job ss in
    Ret (mkCut ss (set_item h c gap) l run_me (ff_time s) usage).

Definition cut_gaps (ss : slots) (h : heap plan_gap) : outcome cut :=
  let! cpus := first_of (pj_usage job) (pj_cpu_indexes job) in
  ofold cut_gap cpus (mkCut ss h list_create 1 (-1) 0).
End Gaps.

(** ** update_job *)

Section UpdateJob.
Variable limits_map : gmap string (gmap Z cluster_limits_arrays).
Variables limits_values limits_values_global : list Z.
Variable cluster : plan_cluster.
Variable create : option plan_gap.
Variable junk : plan_gap.

(** The availability of the slots, and the job before the search. *)
Definition prepare (job : plan_job) (exclusive : bool) (ss : slots) : outcome (plan_job * list Z * bool) :=
  let! names := fixed_names job in
  let wipe := existsb is_null names in
  let! job := if wipe then clear_names job else Ret job in
  let! avail := omap_all (slot_availability nodes job wipe exclusive names) ss in
  let! cpu_indexes := fill (pj_usage job) (-1) (pj_cpu_indexes job) in
  let! latest_ncpu_index := fill (pj_req_num_nodes job) (-1) (pj_latest_ncpu_index job) in
  Ret (job <| pj_start_time := -1 |> <| pj_completion_time := -1 |> <| pj_cpu_indexes := cpu_indexes |>
           <| pj_latest_ncpu_index := latest_ncpu_index |>, avail, wipe).

Definition start_hunt (job : plan_job) (avail : list Z) : hunt :=
  mkHunt job avail (replicate (Z.to_nat (pj_req_num_nodes job)) 1) None 0 1 0 None None [].

(** A pick takes a new slot or one of an earlier attempt; this fuel is enough. *)
Definition hunt_fuel (ss : slots) : nat := S (length ss * S (length ss)).

(** The first fixed name is forgotten when the search fails. *)
Definition search_cpus (job : plan_job) (avail : list Z) (wipe : bool) (ss : slots) : outcome (plan_job * bool) :=
  let! (st, found) := hunt_cpus nodes ss wipe (hunt_fuel ss) (start_hunt job avail) in
  let job := hu_job st in
  if found : bool then Ret (job, true)
  else
    let! names := of_option (pj_fixed_nname_arr job) in
    let! names := store names 0 None in
    Ret (job <| pj_fixed_nname_arr := Some names |>, false).

(** The job, the slots, the list of the limits and the gaps; there are no gaps
    when the job cannot be planned. *)
Definition update_job (x : positive) (job : plan_job) (ss : slots) (limits : heap plan_limit) (ll : plan_list)
    (gaps : heap plan_gap) : outcome (plan_job * slots * plan_list * heap plan_gap * option plan_list) :=
  let! exclusive := job_is_exclusive parse_nodespec jinfos job in
  let! (job, avail, wipe) := prepare job exclusive ss in
  let! (job, ss, found) :=
    if exclusive : bool then take_nodes ss avail job
    else let! (job, found) := search_cpus job avail wipe ss in Ret (job, ss, found) in
  if negb found then Ret (job, ss, ll, gaps, None)
  else
    let job :=
      if exclusive && negb (pj_original_req_ppn job =? 0)
      then job <| pj_req_ppn := pj_original_req_ppn job |> <| pj_original_req_ppn := 0 |> else job in
    let! (ll, job) :=
      adjust_job_starttime_according_to_limits limits_map limits_values limits_values_global limits ll job cluster in
    let! job := if exclusive : bool then take_all_cpus ss job else Ret job in
    let! st := cut_gaps create junk x job ss gaps in
    let job := job <| pj_run_me := cu_run_me st |> in
    let! ss :=
      if exclusive : bool then first_free_slots_update_exclusive nodes job (cu_slots st)
      else first_free_slots_update nodes job (cu_slots st) in
    Ret (job, ss, ll, cu_heap st, Some (cu_list st)).
End UpdateJob.
End Job.
