(* ===== verification/PlanHunt.v ===== *)
(** * The search for processors ends and finds the earliest ones

    What [ith_smallest] picks, and the invariant of the loop of [update_job]. *)

From Stdlib Require Import ZArith Lia Bool Ascii String.
From stdpp Require Import sorting.
From S2P Require Import Prelude CString MiscHelpers Resource DataTypes Config NodeData JobInfo NodeLogic PlanData PlanList PlanValues PlanGaps PlanLimits PlanTime PlanClusters PlanSlots PlanFind PlanUpdate PlanUpdateJob.

Local Open Scope string_scope.
Open Scope Z_scope.
Local Open Scope sched_scope.

(** ** What is picked *)

Section Pick.
Variable considered_node : option positive.
Variable attempt_count : Z.
Variable node_latest total_latest : option first_free_slot.

(** Slot [i] can be taken, at a time. *)
Definition takable (ss : slots) (avail : list Z) (i : nat) (t : Z) : Prop :=
  exists s a, ss !! i = Some s /\ avail !! i = Some a /\ t = i32 (ff_time s) /\
    can_take considered_node attempt_count s (except considered_node node_latest total_latest s a) = true.

Definition no_worse (k : nat) (t : Z) (i : nat) (u : Z) : Prop := t < u \/ (t = u /\ (k <= i)%nat).

Lemma takable_cons s ss a avail i t : takable ss avail i t -> takable (s :: ss) (a :: avail) (S i) t.
Proof. intros (s' & a' & H). by exists s', a'. Qed.

Lemma takable_cons_inv s ss a avail i t :
  takable (s :: ss) (a :: avail) i t ->
  (i = O /\ t = i32 (ff_time s) /\ can_take considered_node attempt_count s (except considered_node node_latest total_latest s a) = true)
  \/ exists j, i = S j /\ takable ss avail j t.
Proof.
  destruct i as [|i]; intros (s' & a' & H1 & H2 & H3 & H4); simpl in *.
  - left. by simplify_eq.
  - right. exists i. split; [done|]. by exists s', a'.
Qed.

Lemma int_below_max z : i32 z < PlanGaps.LONG_MAX.
Proof. pose proof (wrap_s_range 32 z ltac:(lia)) as H. unfold in_s, i32, PlanGaps.LONG_MAX in *. lia. Qed.

Lemma scan_slots_spec ss avail i best :
  length avail = length ss -> (forall k t, best = Some (k, t) -> (k < i)%nat) ->
  match fst (scan_slots considered_node attempt_count node_latest total_latest i ss avail best) with
  | None => best = None /\ forall j t, ~ takable ss avail j t
  | Some (k, t) =>
      (best = Some (k, t) \/ exists j, k = (i + j)%nat /\ takable ss avail j t) /\
      (forall b u, best = Some (b, u) -> no_worse k t b u) /\
      (forall j u, takable ss avail j u -> no_worse k t (i + j) u)
  end.
Proof.
  revert avail i best. induction ss as [|s ss IH]; intros [|a avail] i best Hlen Hbest; try done; cbn [scan_slots].
  - destruct best as [[k t]|]; cbn [fst].
    + split_and!; [by left| |by intros j u (s & a & ? & _)]. intros b u [= <- <-]. right. lia.
    + split; [done|]. by intros j t (s & a & ? & _).
  - injection Hlen as Hlen.
    set (a' := except considered_node node_latest total_latest s a).
    set (min := match best with Some (_, t) => t | None => PlanGaps.LONG_MAX end).
    set (best' := if (i32 (ff_time s) <? min) && can_take considered_node attempt_count s a' then Some (i, i32 (ff_time s)) else best).
    assert (Hbest' : forall k t, best' = Some (k, t) -> (k < S i)%nat).
    { unfold best'. intros k t. destruct (_ && _); [intros [= <- <-]; lia|]. intros E. apply Hbest in E. lia. }
    specialize (IH avail (S i) best' Hlen Hbest').
    destruct (scan_slots considered_node attempt_count node_latest total_latest (S i) ss avail best') as [r rest]; cbn [fst] in *.
    pose proof (int_below_max (ff_time s)) as Hmax.
    assert (Hhere : can_take considered_node attempt_count s a' = true -> exists k t, best' = Some (k, t) /\ no_worse k t i (i32 (ff_time s))).
    { intros Ht. unfold best'. rewrite Ht, andb_true_r. destruct (Z.ltb_spec (i32 (ff_time s)) min) as [Hlt|Hge].
      - exists i, (i32 (ff_time s)). split; [done|]. right. lia.
      - subst min. destruct best as [[k t]|]; [|lia]. exists k, t. split; [done|].
        destruct (decide (t = i32 (ff_time s))) as [->|]; [right|left; lia]. specialize (Hbest k _ eq_refl). lia. }
    destruct r as [[k t]|].
    + destruct IH as (H1 & H2 & H3). split_and!.
      * destruct H1 as [H1|(j & -> & Hj)].
        -- unfold best' in H1. destruct (_ && _) eqn:E; [|by left].
           injection H1 as <- <-. right. exists O. split; [lia|]. exists s, a. apply andb_true_iff in E as [_ E].
           split_and!; done.
        -- right. exists (S j). split; [lia|]. by apply takable_cons.
      * intros b u ->. unfold best', min in *. cbv beta iota in H2. destruct (_ && _) eqn:E.
        -- apply andb_true_iff in E as [E%Z.ltb_lt _]. specialize (H2 i _ eq_refl).
           unfold no_worse in *. lia.
        -- by apply H2.
      * intros j u [(-> & -> & Ht)|(j' & -> & Hj)]%takable_cons_inv.
        -- destruct (Hhere Ht) as (k' & t' & Eb & Hw). specialize (H2 _ _ Eb). unfold no_worse in *. lia.
        -- specialize (H3 _ _ Hj). unfold no_worse in *. lia.
    + destruct IH as [Hn Ht]. assert (Hcan : can_take considered_node attempt_count s a' = false).
      { apply not_true_is_false. intros E. destruct (Hhere E) as (k & t & E' & _). congruence. }
      unfold best' in Hn. rewrite Hcan, andb_false_r in Hn. split; [done|].
      intros j t [(-> & -> & Ht')|(j' & -> & Hj)]%takable_cons_inv; [|by apply (Ht j' t)].
      fold a' in Ht'. congruence.
Qed.

Lemma except_cases s a :
  except considered_node node_latest total_latest s a = a \/
  a = NO_AVAILABLE_MEM /\ except considered_node node_latest total_latest s a = MEM_EXCEPTION.
Proof.
  destruct (decide (a = NO_AVAILABLE_MEM)) as [->|Hne].
  - unfold except. destruct node_latest as [nl|], total_latest as [tl|]; cbv beta iota zeta;
      repeat (match goal with |- context [if ?b then _ else _] => destruct b end); first [by left|by right].
  - left. apply Z.eqb_neq in Hne. unfold except. destruct node_latest, total_latest; cbv beta iota zeta; by rewrite ?Hne.
Qed.

Lemma scan_slots_avail ss avail i best :
  length avail = length ss -> Forall (fun a => a <> MEM_EXCEPTION) avail ->
  snd (scan_slots considered_node attempt_count node_latest total_latest i ss avail best) = avail.
Proof.
  revert avail i best. induction ss as [|s ss IH]; intros [|a avail] i best Hlen Hall; try done; cbn [scan_slots].
  injection Hlen as Hlen. apply Forall_cons in Hall as [Ha Hall].
  match goal with |- context [scan_slots _ _ _ _ (S i) ss avail ?b] => specialize (IH avail (S i) b Hlen Hall);
    destruct (scan_slots considered_node attempt_count node_latest total_latest (S i) ss avail b) as [r rest] end.
  cbn [snd] in *. subst rest. f_equal.
  destruct (except_cases s a) as [->|[-> ->]]; [|done]. by destruct (Z.eqb_spec a MEM_EXCEPTION).
Qed.

(** The first of the earliest slots that can be taken, marked with the attempt. *)
Lemma ith_smallest_spec ss avail :
  length avail = length ss -> Forall (fun a => a <> MEM_EXCEPTION) avail ->
  match ith_smallest considered_node attempt_count node_latest total_latest ss avail with
  | (None, avail') => avail' = avail /\ forall j t, ~ takable ss avail j t
  | (Some k, avail') => avail' = <[k := attempt_count]> avail /\
      exists t, takable ss avail k t /\ forall j u, takable ss avail j u -> no_worse k t j u
  end.
Proof.
  intros Hlen Hall. unfold ith_smallest.
  pose proof (scan_slots_spec ss avail 0 None Hlen ltac:(done)) as H.
  pose proof (scan_slots_avail ss avail 0 None Hlen Hall) as Ha.
  destruct (scan_slots considered_node attempt_count node_latest total_latest 0 ss avail None) as [[[k t]|] avail']; cbn [fst snd] in *; subst avail'.
  - split; [done|]. exists t. destruct H as ([H|(j & -> & Hj)] & _ & H3); [done|]. by split.
  - by destruct H.
Qed.
End Pick.

(** ** Counting *)

Section Count.
Context {A : Type} (P : A -> Prop) `{forall x, Decision (P x)}.

Definition count (l : list A) : nat := length (filter P l).

Lemma count_le l : (count l <= length l)%nat.
Proof. apply length_filter. Qed.

Lemma count_cons x l : count (x :: l) = ((if decide (P x) then 1 else 0) + count l)%nat.
Proof. unfold count. rewrite filter_cons. by case_decide. Qed.

Lemma count_insert l i x y :
  l !! i = Some x ->
  (count (<[i := y]> l) + (if decide (P x) then 1 else 0) = count l + (if decide (P y) then 1 else 0))%nat.
Proof.
  revert i. induction l as [|z l IH]; intros [|i] E; simpl in E; try done.
  - injection E as ->. change (<[O := y]> (x :: l)) with (y :: l). rewrite !count_cons. lia.
  - change (<[S i := y]> (z :: l)) with (z :: <[i := y]> l). rewrite !count_cons. specialize (IH i E). lia.
Qed.

Lemma count_mono l l' :
  Forall2 (fun x y => P y -> P x) l l' -> (count l' <= count l)%nat.
Proof.
  induction 1 as [|x y l l' Hxy _ IH]; [done|]. rewrite !count_cons. repeat case_decide; try lia. exfalso; auto.
Qed.
End Count.

(** ** Insertion by time *)

Section Insertion.
Variable ss : slots.

Definition time_of (c : nat) : Z := default 0 (ff_time <$> ss !! c).
Definition earlier (c d : nat) : Prop := time_of c <= time_of d.

(** The first indices of an array are those of the slots [cs]. *)
Definition holds (cpus : list Z) (cs : list nat) : Prop :=
  take (length cs) cpus = Z.of_nat <$> cs /\ (length cs <= length cpus)%nat.

Lemma index_of_nat (i : nat) : index_of (Z.of_nat i) = Ret i.
Proof. unfold index_of. destruct (Z.ltb_spec (Z.of_nat i) 0); [lia|]. by rewrite Nat2Z.id. Qed.

Lemma time_of_slot c s : ss !! c = Some s -> time_of c = ff_time s.
Proof. unfold time_of. by intros ->. Qed.

Lemma holds_snoc cpus cs c : holds cpus (cs ++ [c]) -> holds cpus cs /\ cpus !! length cs = Some (Z.of_nat c).
Proof.
  intros [H1 H2]. rewrite length_app in H1, H2. simpl in H1, H2.
  assert (H3 : take (length cs) (take (length cs + 1) cpus) = Z.of_nat <$> cs).
  { rewrite H1, fmap_app. rewrite take_app_le by (rewrite length_fmap; lia). apply take_ge. rewrite length_fmap. lia. }
  rewrite take_take, Nat.min_l in H3 by lia. split; [by split; [|lia]|].
  rewrite <- (lookup_take_lt cpus (length cs + 1)) by lia. rewrite H1, fmap_app.
  rewrite lookup_app_r by (rewrite length_fmap; lia). by rewrite length_fmap, Nat.sub_diag.
Qed.

Lemma holds_add cpus cs c : holds cpus cs -> cpus !! length cs = Some (Z.of_nat c) -> holds cpus (cs ++ [c]).
Proof.
  intros [H1 H2] Hc. pose proof (lookup_lt_Some _ _ _ Hc) as Hlt. split; rewrite length_app; simpl; [|lia].
  rewrite Nat.add_1_r, (take_S_r _ _ _ Hc), H1, fmap_app. done.
Qed.

Lemma sorted_snoc cs c :
  StronglySorted earlier (cs ++ [c]) <-> StronglySorted earlier cs /\ Forall (fun d => earlier d c) cs.
Proof.
  induction cs as [|d cs IH]; simpl.
  - split; [intros _; split; constructor|]. intros _. repeat constructor.
  - split.
    + intros [Hs Hf]%StronglySorted_inv. apply IH in Hs as [Hs Hc]. apply Forall_app in Hf as [Hf [Hd _]%Forall_cons].
      by split; constructor.
    + intros [[Hs Hf]%StronglySorted_inv [Hd Hc]%Forall_cons]. constructor; [by apply IH|]. apply Forall_app. by repeat constructor.
Qed.

Lemma store_ok {B} (l : list B) i v : (i < length l)%nat -> store l i v = Ret (<[i := v]> l).
Proof. intros H. unfold store. by rewrite decide_True. Qed.

(** The index is put where it keeps the order; what follows the first indices
    stays. *)
Lemma insert_by_time_spec cpus cs cpu :
  holds cpus cs -> (length cs < length cpus)%nat -> Forall (fun c => is_Some (ss !! c)) cs ->
  StronglySorted earlier cs ->
  exists cpus' cs', insert_by_time ss cpus (length cs) cpu (time_of cpu) = Ret cpus' /\ holds cpus' cs' /\
    cs' ≡ₚ cpu :: cs /\ StronglySorted earlier cs' /\ length cpus' = length cpus /\
    (forall i, (length cs < i)%nat -> cpus' !! i = cpus !! i).
Proof.
  revert cpus. induction cs as [|c cs IH] using rev_ind; intros cpus Hh Hlen Hv Hs; simpl in Hlen.
  - cbn [insert_by_time length]. rewrite store_ok by done. exists (<[O := Z.of_nat cpu]> cpus), [cpu].
    split_and!; [done| |done|repeat constructor|by rewrite length_insert|].
    + destruct cpus; simpl in *; [lia|]. split; simpl; [by rewrite take_0|lia].
    + intros i Hi. apply list_lookup_insert_ne. lia.
  - rewrite length_app in Hlen. simpl in Hlen. apply holds_snoc in Hh as [Hh Hc]. apply Forall_app in Hv as [Hv [[s Hsc] _]%Forall_cons].
    apply sorted_snoc in Hs as [Hs Hle]. rewrite length_app, Nat.add_1_r. cbn [insert_by_time]. rewrite Hc. cbn [of_option obind].
    rewrite index_of_nat. cbn [obind]. unfold slot_at. rewrite Hsc. cbn [of_option obind]. rewrite <- (time_of_slot c s) by done.
    destruct (Z.gtb_spec (time_of c) (time_of cpu)) as [Hgt|Hge].
    + rewrite store_ok by lia. cbn [obind].
      destruct (IH (<[S (length cs) := Z.of_nat c]> cpus)) as (cpus' & cs' & E & Hh' & Hp & Hs' & Hl & Hrest).
      * destruct Hh as [H1 H2]. split; [|by rewrite length_insert]. by rewrite take_insert_ge by lia.
      * rewrite length_insert. lia.
      * done.
      * done.
      * exists cpus', (cs' ++ [c])%list. rewrite length_insert in Hl. split_and!; [done| | | |done|].
        -- apply holds_add; [done|]. rewrite (Permutation_length Hp). simpl. rewrite Hrest by lia. apply list_lookup_insert_eq. lia.
        -- by rewrite Hp.
        -- apply sorted_snoc. split; [done|]. rewrite Hp. constructor; [unfold earlier; lia|done].
        -- intros i Hi. rewrite Hrest by lia. apply list_lookup_insert_ne. lia.
    + rewrite store_ok by lia. exists (<[S (length cs) := Z.of_nat cpu]> cpus), (cs ++ [c; cpu])%list.
      split_and!; [done| | | |by rewrite length_insert|].
      * change [c; cpu] with ([c] ++ [cpu])%list. rewrite app_assoc. apply holds_add.
        -- apply holds_add; [|by rewrite list_lookup_insert_ne by lia].
           destruct Hh as [H1 H2]. split; [|by rewrite length_insert]. by rewrite take_insert_ge by lia.
        -- rewrite length_app, Nat.add_1_r. apply list_lookup_insert_eq. lia.
      * change [c; cpu] with ([c] ++ [cpu])%list. rewrite app_assoc. rewrite (Permutation_app_comm _ [cpu]). done.
      * change [c; cpu] with ([c] ++ [cpu])%list. rewrite app_assoc. apply sorted_snoc. split; [by apply sorted_snoc|].
        apply Forall_app. split; [|constructor; [unfold earlier; lia|done]].
        eapply Forall_impl; [exact Hle|]. intros d Hd. unfold earlier in *. lia.
      * intros i Hi. apply list_lookup_insert_ne. lia.
Qed.
End Insertion.
