(* ===== verification/PlanHuntSpec.v ===== *)
(** * The invariant of the search for processors

    The processors taken so far are usable and in the order of their times, the
    parts that are complete are on nodes of the cluster, and every round makes
    the search smaller: this is what makes [update_job] end. *)

From Stdlib Require Import ZArith Lia Bool Ascii String.
From stdpp Require Import sorting.
From S2P Require Import Prelude CString MiscHelpers Resource DataTypes Config NodeData JobInfo NodeLogic PlanData PlanList PlanValues PlanGaps PlanLimits PlanTime PlanClusters PlanSlots PlanFind PlanUpdate PlanUpdateJob PlanHunt.

Local Open Scope string_scope.
Open Scope Z_scope.
Local Open Scope sched_scope.

Definition fresh_slot (a : Z) : Prop := a = 0 \/ a = NO_AVAILABLE_MEM.
Definition stale_slot (attempt a : Z) : Prop := 0 < a < attempt.
#[export] Instance fresh_slot_dec a : Decision (fresh_slot a) := _.
#[export] Instance stale_slot_dec attempt a : Decision (stale_slot attempt a) := _.

Record same_request (j j' : plan_job) : Prop := {
  sr_usage : pj_usage j' = pj_usage j;
  sr_ppn : pj_req_ppn j' = pj_req_ppn j;
  sr_nodes : pj_req_num_nodes j' = pj_req_num_nodes j;
  sr_estimated : pj_estimated_processing j' = pj_estimated_processing j
}.

Lemma filter_all {A} (P : A -> Prop) `{forall x, Decision (P x)} l : Forall P l -> filter P l = l.
Proof. induction 1 as [|x l Hx Hl IH]; [done|]. by rewrite filter_cons, decide_True, IH. Qed.

Lemma filter_none {A} (P : A -> Prop) `{forall x, Decision (P x)} l : Forall (fun x => ~ P x) l -> filter P l = [].
Proof. induction 1 as [|x l Hx Hl IH]; [done|]. by rewrite filter_cons, decide_False. Qed.

Section Hunt.
Variable nodes : gmap positive node_info.
Variable ss : slots.
Variable wipe : bool.
(** The availability before the search, and the request. *)
Variable avail0 : list Z.
Variable job0 : plan_job.

Abbreviation ppn := (pj_req_ppn job0).
Abbreviation parts := (pj_req_num_nodes job0).
Abbreviation usage := (pj_usage job0).

Definition node_at (c : nat) : option positive := ss !! c ≫= ff_ninfo.

(** A processor that the job may take. *)
Definition usable (c : nat) : Prop :=
  (exists p n, node_at c = Some p /\ nodes !! p = Some n) /\ exists a, avail0 !! c = Some a /\ fresh_slot a.

Record hunt_setting : Prop := {
  hs_length : length avail0 = length ss;
  hs_avail : Forall (fun a => a <= 0 /\ a <> MEM_EXCEPTION) avail0;
  hs_usable : forall c a, avail0 !! c = Some a -> fresh_slot a -> exists p n, node_at c = Some p /\ nodes !! p = Some n;
  hs_ppn : 0 < ppn;
  hs_nodes : 0 < parts;
  hs_usage : 0 <= usage < 2 ^ 31;
  hs_small : ppn * parts < 2 ^ 31;
  hs_more : ppn * parts < usage -> ppn * parts + ppn < 2 ^ 31;
  hs_slots : Z.of_nat (length ss) < 2 ^ 31 - 1;
  hs_times : Forall (fun s => in_s 32 (ff_time s)) ss
}.

(** A complete part: its node, and a slot of it. *)
Definition part_done (job : plan_job) (k : nat) : Prop :=
  exists p l, pj_ninfo_arr job !! k = Some (Some p) /\ is_Some (nodes !! p) /\
    pj_latest_ncpu_index job !! k = Some (Z.of_nat l) /\ node_at l = Some p.

(** [m] processors are taken, the slots [cs].  The processors of the parts that are
    complete are free at the start. *)
Record hunt_inv (m : Z) (cs : list nat) (st : hunt) : Prop := {
  hi_job : same_request job0 (hu_job st);
  hi_cpu_room : usage <= Z.of_nat (length (pj_cpu_indexes (hu_job st)));
  hi_ninfo_room : parts <= Z.of_nat (length (pj_ninfo_arr (hu_job st)));
  hi_ninfo_exact : ppn * parts + ppn <= usage -> Z.of_nat (length (pj_ninfo_arr (hu_job st))) = parts;
  hi_latest_room : parts <= Z.of_nat (length (pj_latest_ncpu_index (hu_job st)));
  hi_names : exists names, pj_fixed_nname_arr (hu_job st) = Some names /\ parts <= Z.of_nat (length names);
  hi_length : length (hu_avail st) = length ss;
  hi_avail : forall c a, hu_avail st !! c = Some a ->
    a <> MEM_EXCEPTION /\ a <= hu_attempt_count st /\ (fresh_slot a \/ 0 < a -> usable c);
  hi_attempt : 1 <= hu_attempt_count st /\
    hu_attempt_count st + Z.of_nat (count fresh_slot (hu_avail st)) <= Z.of_nat (length ss) + 1;
  hi_plan : 0 <= hu_plan_num_nodes st <= parts;
  hi_m : hu_plan_num_nodes st * ppn <= m <= hu_plan_num_nodes st * ppn + ppn /\ m <= usage /\
    m - hu_plan_num_nodes st * ppn <= Z.of_nat (length (hu_tmp_cpu_arr st));
  hi_cs : holds (pj_cpu_indexes (hu_job st)) cs /\ Z.of_nat (length cs) = m /\ Forall usable cs /\
    StronglySorted (earlier ss) cs;
  hi_considered :
    match hu_considered_node st with
    | None => hu_node_latest st = None /\ m = hu_plan_num_nodes st * ppn
    | Some p => is_Some (nodes !! p) /\ exists l, hu_node_latest st = Some l /\ node_at l = Some p
    end;
  hi_total : forall l, hu_total_latest st = Some l -> is_Some (ss !! l);
  hi_first : forall l c, hu_node_latest st = Some l -> hu_avail st !! c = Some 0 -> time_of ss l <= time_of ss c;
  hi_parts : forall k, Z.of_nat k < hu_plan_num_nodes st -> part_done (hu_job st) k;
  hi_start : 0 < hu_plan_num_nodes st ->
    Forall (fun c => time_of ss c <= pj_start_time (hu_job st)) (take (Z.to_nat (hu_plan_num_nodes st * ppn)) cs) /\
    pj_completion_time (hu_job st) = i64 (pj_start_time (hu_job st) + pj_estimated_processing job0)
}.

Hypothesis Hset : hunt_setting.

Lemma usable_slot c : usable c -> is_Some (ss !! c).
Proof. intros [(p & n & Hp & _) _]. unfold node_at in Hp. by destruct (ss !! c). Qed.

Lemma node_at_slot c p : node_at c = Some p -> exists s, ss !! c = Some s /\ ff_ninfo s = Some p.
Proof. unfold node_at. destruct (ss !! c) as [s|] eqn:E; [|done]. intros H. by exists s. Qed.

Lemma time_of_int c : is_Some (ss !! c) -> i32 (time_of ss c) = time_of ss c.
Proof.
  intros [s Hs]. rewrite (time_of_slot ss c s Hs). apply i32_id.
  apply (proj1 (Forall_lookup _ _) (hs_times Hset) c s Hs).
Qed.

(** Earlier slots come first, and of those of the same time the first. *)
Definition before (c d : nat) : Prop := time_of ss c < time_of ss d \/ (time_of ss c = time_of ss d /\ (c <= d)%nat).

(** A slot without the memory is taken when a later one is taken already. *)
Definition excepted (st : hunt) (c : nat) (a : Z) : Prop :=
  a = NO_AVAILABLE_MEM /\ (node_at c = hu_considered_node st \/ hu_considered_node st = None) /\
  (forall l, hu_node_latest st = Some l -> time_of ss c < time_of ss l) /\
  (hu_node_latest st = None -> hu_total_latest st <> None).

(** What a pick is, of the availabilities and the variables of a state. *)
Record pick (st : hunt) (c : nat) : Prop := {
  pk_usable : usable c;
  pk_old : exists a, hu_avail st !! c = Some a /\
    (a = 0 \/ excepted st c a \/ (stale_slot (hu_attempt_count st) a /\ node_at c = hu_considered_node st));
  pk_fresh : forall d, hu_avail st !! d = Some 0 -> before c d;
  pk_stale : forall d a, hu_avail st !! d = Some a -> stale_slot (hu_attempt_count st) a ->
    node_at d = hu_considered_node st -> before c d
}.

Lemma slot_opt_latest (o : option nat) :
  (forall l, o = Some l -> is_Some (ss !! l)) -> slot_opt ss o = Ret (o ≫= (fun l => ss !! l)).
Proof.
  destruct o as [l|]; [|done]. intros H. destruct (H l eq_refl) as [s Hs]. simpl. unfold slot_at. by rewrite Hs.
Qed.

Lemma node_latest_slot m cs st l : hunt_inv m cs st -> hu_node_latest st = Some l -> exists s, ss !! l = Some s /\ ff_ninfo s = hu_considered_node st.
Proof.
  intros Hi Hl. pose proof (hi_considered _ _ _ Hi) as H. destruct (hu_considered_node st) as [p|].
  - destruct H as (_ & l' & Hl' & Hp). assert (l' = l) as -> by congruence. by apply node_at_slot.
  - destruct H as [H _]. congruence.
Qed.

Lemma take_zero (st : hunt) nl tl c :
  length (hu_avail st) = length ss -> hu_avail st !! c = Some 0 ->
  takable (hu_considered_node st) (hu_attempt_count st) nl tl ss (hu_avail st) c (i32 (time_of ss c)).
Proof.
  intros Hlen Hc. pose proof (lookup_lt_Some _ _ _ Hc) as Hlt. rewrite Hlen in Hlt.
  apply lookup_lt_is_Some in Hlt as [s Hs]. exists s, 0. rewrite (time_of_slot ss c s Hs). split_and!; try done.
  destruct (except_cases (hu_considered_node st) nl tl s 0) as [->|[? _]]; done.
Qed.

Lemma take_stale (st : hunt) nl tl c a :
  hu_avail st !! c = Some a -> stale_slot (hu_attempt_count st) a -> node_at c = hu_considered_node st -> is_Some (node_at c) ->
  takable (hu_considered_node st) (hu_attempt_count st) nl tl ss (hu_avail st) c (i32 (time_of ss c)).
Proof.
  intros Hc [H1 H2] Hn [p Hp]. destruct (node_at_slot c p Hp) as (s & Hs & Hsp). exists s, a.
  rewrite (time_of_slot ss c s Hs). split_and!; try done.
  destruct (except_cases (hu_considered_node st) nl tl s a) as [->|[? _]]; [|lia].
  unfold can_take. rewrite (proj2 (Z.gtb_lt a 0)), (proj2 (Z.ltb_lt _ _)) by lia. rewrite bool_decide_true by congruence.
  by rewrite !orb_true_r.
Qed.

Lemma except_mem considered nl tl s :
  except considered nl tl s NO_AVAILABLE_MEM = MEM_EXCEPTION ->
  (exists l, nl = Some l /\ ff_ninfo s = considered /\ ff_time s < ff_time l) \/
  (nl = None /\ exists l, tl = Some l /\ ff_time s < ff_time l).
Proof.
  unfold except. rewrite Z.eqb_refl. destruct nl as [l|]; cbv zeta; cbn [andb].
  - destruct (_ && _) eqn:E; [|done]. intros _. left. to_props. exists l. split_and!; [done|done|lia].
  - destruct tl as [l|]; [|done]. destruct (ff_time l >? ff_time s) eqn:E; [|done]. intros _. right. to_props. eauto with lia.
Qed.

Lemma takable_time cn at_ nl tl avail c t :
  takable cn at_ nl tl ss avail c t -> is_Some (ss !! c) /\ t = time_of ss c.
Proof.
  intros (s & a & Hs & _ & -> & _). split; [by exists s|]. rewrite <- (time_of_slot ss c s Hs). by apply time_of_int.
Qed.

(** A slot that can be taken is a pick when none comes before it. *)
Lemma takable_pick m cs st c t :
  hunt_inv m cs st ->
  takable (hu_considered_node st) (hu_attempt_count st) (hu_node_latest st ≫= (fun l => ss !! l))
    (hu_total_latest st ≫= (fun l => ss !! l)) ss (hu_avail st) c t ->
  exists a, hu_avail st !! c = Some a /\
    (a = 0 \/ excepted st c a \/ (stale_slot (hu_attempt_count st) a /\ node_at c = hu_considered_node st)).
Proof.
  intros Hi (s & a & Hs & Ha & _ & Htake). exists a. split; [done|].
  destruct (hi_avail _ _ _ Hi c a Ha) as (Hne & _ & _).
  assert (Hnode : node_at c = ff_ninfo s) by (unfold node_at; by rewrite Hs).
  destruct (except_cases (hu_considered_node st) (hu_node_latest st ≫= (fun l => ss !! l))
    (hu_total_latest st ≫= (fun l => ss !! l)) s a) as [E|[-> E]]; rewrite E in Htake; unfold can_take in Htake.
  - apply orb_true_iff in Htake as [[H%Z.eqb_eq|H%Z.eqb_eq]%orb_true_iff|H]; [by left|done|].
    right. right. to_props. split; [split; lia|]. by rewrite Hnode.
  - right. left. unfold excepted. split; [done|]. apply except_mem in E as [(ls & Hl & Hn & Hlt)|(Hnl & tl & Htl & _)].
    + destruct (hu_node_latest st) as [l|] eqn:El; [|done]. simpl in Hl. split_and!; [left; by rewrite Hnode| |done].
      intros l' [= <-]. by rewrite (time_of_slot ss c s Hs), (time_of_slot ss l ls Hl).
    + destruct (hu_node_latest st) as [l|] eqn:El.
      * destruct (node_latest_slot _ _ _ l Hi El) as (ls & Hl & _). simpl in Hnl. congruence.
      * pose proof (hi_considered _ _ _ Hi) as Hc. split_and!; [right|done|intros _ ?; by simplify_option_eq].
        destruct (hu_considered_node st); [|done]. destruct Hc as (_ & l & Hl & _). congruence.
Qed.

Lemma pick_ok m cs st :
  hunt_inv m cs st ->
  match ith_smallest (hu_considered_node st) (hu_attempt_count st) (hu_node_latest st ≫= (fun l => ss !! l))
          (hu_total_latest st ≫= (fun l => ss !! l)) ss (hu_avail st) with
  | (None, avail) => avail = hu_avail st /\ (forall d, hu_avail st !! d <> Some 0) /\
      (forall d a, hu_avail st !! d = Some a -> stale_slot (hu_attempt_count st) a -> node_at d = hu_considered_node st -> False)
  | (Some c, avail) => avail = <[c := hu_attempt_count st]> (hu_avail st) /\ pick st c
  end.
Proof.
  intros Hi. pose proof (hi_length _ _ _ Hi) as Hlen.
  assert (Hall : Forall (fun a => a <> MEM_EXCEPTION) (hu_avail st)).
  { apply Forall_lookup. intros c a Ha. by apply (hi_avail _ _ _ Hi c a Ha). }
  pose proof (ith_smallest_spec (hu_considered_node st) (hu_attempt_count st) (hu_node_latest st ≫= (fun l => ss !! l))
    (hu_total_latest st ≫= (fun l => ss !! l)) ss (hu_avail st) Hlen Hall) as H.
  assert (Hstale : forall d a, hu_avail st !! d = Some a -> stale_slot (hu_attempt_count st) a -> is_Some (node_at d)).
  { intros d a Hd [Ha _]. destruct (proj2 (proj2 (hi_avail _ _ _ Hi d a Hd)) (or_intror Ha)) as [(p & n & Hp & _) _]. by exists p. }
  destruct (ith_smallest _ _ _ _ _ _) as [[c|] avail].
  - destruct H as [-> (t & Ht & Hmin)]. split; [done|]. destruct (takable_time _ _ _ _ _ _ _ Ht) as [Hc ->].
    destruct (takable_pick _ _ _ _ _ Hi Ht) as (a & Ha & Hold).
    assert (Hbefore : forall d, takable (hu_considered_node st) (hu_attempt_count st) (hu_node_latest st ≫= (fun l => ss !! l))
      (hu_total_latest st ≫= (fun l => ss !! l)) ss (hu_avail st) d (i32 (time_of ss d)) -> before c d).
    { intros d Hd. pose proof (Hmin d _ Hd) as Hw. destruct (takable_time _ _ _ _ _ _ _ Hd) as [Hsd E]. by rewrite E in Hw. }
    constructor.
    + apply (proj2 (proj2 (hi_avail _ _ _ Hi c a Ha))). destruct Hold as [->|[[-> _]|[[H1 H2] _]]];
        [by left; left|by left; right|by right].
    + by exists a.
    + intros d Hd. apply Hbefore. by apply take_zero.
    + intros d b Hd Hb Hn. apply Hbefore. eapply take_stale; [done..|]. by eapply Hstale.
  - destruct H as [-> Hnone]. split_and!; [done| |].
    + intros d Hd. eapply Hnone. by apply take_zero.
    + intros d a Hd Ha Hn. eapply Hnone. eapply take_stale; [done..|]. by eapply Hstale.
Qed.

(** ** Taking a processor *)

(** Whether the slot is on another node than the one considered. *)
Definition moves (st : hunt) (c : nat) : Prop := hu_considered_node st <> None /\ node_at c <> hu_considered_node st.
#[export] Instance moves_dec st c : Decision (moves st c) := _.

(** The number of processors kept, and the attempt, when [c] is taken. *)
Definition kept (m : Z) (st : hunt) (c : nat) : Z := if decide (moves st c) then hu_plan_num_nodes st * ppn else m.
Definition attempt_of (st : hunt) (c : nat) : Z :=
  if decide (moves st c) then hu_attempt_count st + 1 else hu_attempt_count st.
Definition latest_of (o : option nat) (c : nat) : nat :=
  match o with Some l => if decide (time_of ss l <= time_of ss c) then c else l | None => c end.

(** The state in which the slot [c] is put, with the indices [cpus]. *)
Definition put_state (m : Z) (st : hunt) (c : nat) (cpus : list Z) : hunt :=
  mkHunt (hu_job st <| pj_cpu_indexes := cpus |>) (<[c := attempt_of st c]> (hu_avail st)) (hu_node_ppn_free st) (node_at c)
    (hu_plan_num_nodes st) (attempt_of st c) (kept m st c) (Some (latest_of (hu_node_latest st) c))
    (Some (latest_of (hu_total_latest st) c))
    (take (Z.to_nat (kept m st c - hu_plan_num_nodes st * ppn)) (hu_tmp_cpu_arr st) ++ [c])%list.

Lemma later_ok o c s :
  (forall l, o = Some l -> is_Some (ss !! l)) -> ss !! c = Some s -> later ss o c (ff_time s) = Ret (Some (latest_of o c)).
Proof.
  intros Ho Hs. unfold later, latest_of. destruct o as [l|]; [|done]. destruct (Ho l eq_refl) as [sl Hl].
  unfold slot_at. rewrite Hl. cbn [of_option obind]. rewrite (time_of_slot ss l sl Hl), (time_of_slot ss c s Hs).
  by destruct (Z.leb_spec (ff_time sl) (ff_time s)); [rewrite decide_True by lia|rewrite decide_False by lia].
Qed.

(** A pick on another node was free all along. *)
Lemma moves_zero m cs st c : hunt_inv m cs st -> pick st c -> moves st c -> hu_avail st !! c = Some 0.
Proof.
  intros _ [_ (a & Ha & Hold) _ _] [Hc Hn]. destruct Hold as [->|[(_ & [H|H] & _)|[_ H]]]; [done|by destruct Hn|by destruct Hc|by destruct Hn].
Qed.

Lemma attempt_small m cs st c : hunt_inv m cs st -> pick st c ->
  hu_attempt_count st <= attempt_of st c /\
  attempt_of st c + Z.of_nat (count fresh_slot (<[c := attempt_of st c]> (hu_avail st))) <= Z.of_nat (length ss) + 1.
Proof.
  intros Hi Hp. destruct (hi_attempt _ _ _ Hi) as [H1 H2]. destruct (pk_old _ _ Hp) as (a & Ha & _).
  pose proof (count_insert fresh_slot (hu_avail st) c a (attempt_of st c) Ha) as Hc.
  assert (Hnf : 1 <= attempt_of st c) by (unfold attempt_of; destruct (decide (moves st c)); lia).
  rewrite (decide_False (P := fresh_slot (attempt_of st c))) in Hc by (unfold fresh_slot; lia).
  unfold attempt_of in *. destruct (decide (moves st c)) as [Hm|Hm].
  - rewrite (moves_zero _ _ _ _ Hi Hp Hm) in Ha. injection Ha as <-. rewrite decide_True in Hc by (by left). lia.
  - destruct (decide (fresh_slot a)); lia.
Qed.

Lemma kept_range m cs st c : hunt_inv m cs st -> hu_plan_num_nodes st * ppn <= kept m st c <= m.
Proof. intros Hi. destruct (hi_m _ _ _ Hi) as (H1 & _ & _). unfold kept. case_decide; lia. Qed.

(** While processors are missing, so is a part, or there are more processors than
    the parts have. *)
Lemma part_missing m cs st : hunt_inv m cs st -> m < usage ->
  (hu_plan_num_nodes st < parts \/ hu_plan_num_nodes st = parts /\ ppn * parts < usage) /\
  0 <= hu_plan_num_nodes st * ppn /\ (hu_plan_num_nodes st + 1) * ppn < 2 ^ 31 /\ hu_plan_num_nodes st + 1 < 2 ^ 31.
Proof.
  intros Hi Hm. destruct (hi_m _ _ _ Hi) as ([H1 _] & _ & _). pose proof (hi_plan _ _ _ Hi) as H2.
  pose proof (hs_ppn Hset) as H4. pose proof (hs_small Hset) as H5. pose proof (hs_more Hset) as H6.
  destruct (decide (hu_plan_num_nodes st = parts)) as [E|]; [rewrite E in *|].
  - assert (ppn * parts < usage) by nia. specialize (H6 ltac:(lia)). split_and!; [right|..]; nia.
  - split_and!; [left|..]; nia.
Qed.

(** Another slot among those in the order of their times moves the first ones
    behind only. *)
Lemma first_ones_stay c cs cs' k n t :
  StronglySorted (earlier ss) cs' -> cs' ≡ₚ c :: take k cs -> (n <= k)%nat -> (n <= length cs)%nat ->
  Forall (fun d => time_of ss d <= t) (take n cs) -> Forall (fun d => time_of ss d <= t) (take n cs').
Proof.
  intros Hs Hp Hnk Hlen Hall. set (P d := time_of ss d <= t).
  assert (Hcount : (n <= length (filter P cs'))%nat).
  { rewrite (Permutation_length (filter_Permutation P _ _ Hp)).
    assert (Hf : (n <= length (filter P (take k cs)))%nat).
    { rewrite <- (take_drop n (take k cs)), take_take, Nat.min_l, filter_app, length_app by lia.
      rewrite (filter_all P (take n cs)), length_take by done. lia. }
    rewrite filter_cons. case_decide; simpl; lia. }
  clear Hp Hall Hnk Hlen. revert n Hcount. induction Hs as [|d cs' Hs IH Hd]; intros n Hcount; [rewrite take_nil; constructor|].
  destruct n as [|n]; [constructor|]. cbn [take]. rewrite filter_cons in Hcount. case_decide as Hdt.
  - constructor; [done|]. apply IH. simpl in Hcount. lia.
  - exfalso. assert (filter P cs' = []) as E; [|rewrite E in Hcount; simpl in Hcount; lia].
    apply filter_none. eapply Forall_impl; [exact Hd|]. unfold P, earlier in *. intros e He. lia.
Qed.

Lemma holds_take cpus cs k : holds cpus cs -> holds cpus (take k cs).
Proof.
  intros [H1 H2]. split; [|rewrite length_take; lia]. by rewrite fmap_take, <- H1, take_take, length_take.
Qed.

Lemma sorted_take cs k : StronglySorted (earlier ss) cs -> StronglySorted (earlier ss) (take k cs).
Proof.
  revert k. induction cs as [|c cs IH]; intros [|k] H; simpl; try constructor.
  - apply IH. by apply StronglySorted_inv in H as [H _].
  - apply StronglySorted_inv in H as [_ H]. by apply Forall_take.
Qed.

Lemma moves_bool st c p :
  node_at c = Some p ->
  (match hu_considered_node st with Some q => negb (bool_decide (q = p)) | None => false end) = bool_decide (moves st c).
Proof.
  intros Hnp. destruct (hu_considered_node st) as [q|] eqn:Eq.
  - destruct (decide (q = p)) as [->|Hne]; [rewrite bool_decide_true by done|rewrite bool_decide_false by done].
    + rewrite bool_decide_false; [done|]. intros [_ H]. congruence.
    + rewrite bool_decide_true; [done|]. split; congruence.
  - by rewrite bool_decide_false by (intros [? _]; congruence).
Qed.

Lemma put_cpu_eq m cs st c :
  hunt_inv m cs st -> pick st c -> hu_job_cpu st = m -> m < usage -> m < hu_plan_num_nodes st * ppn + ppn ->
  exists cpus cs',
    put_cpu ss (st <| hu_avail := <[c := hu_attempt_count st]> (hu_avail st) |>) c = Ret (put_state m st c cpus) /\
    holds cpus cs' /\ cs' ≡ₚ c :: take (Z.to_nat (kept m st c)) cs /\ StronglySorted (earlier ss) cs' /\
    length cpus = length (pj_cpu_indexes (hu_job st)).
Proof.
  intros Hi Hp Hj Hm Hroom. destruct (pk_usable _ _ Hp) as [(p & n & Hnp & Hnn) _].
  destruct (node_at_slot c p Hnp) as (s & Hs & Hsp). pose proof (part_missing _ _ _ Hi Hm) as (_ & Hpl0 & Hpl1 & _).
  pose proof (attempt_small _ _ _ _ Hi Hp) as [Ha1 Ha2]. pose proof (kept_range m cs st c Hi) as Hk.
  destruct (hi_m _ _ _ Hi) as (Hm1 & Hm2 & Hm3). destruct (hi_cs _ _ _ Hi) as (Hh & Hlen & Hus & Hsort).
  pose proof (hs_usage Hset) as Hsmall. pose proof (hs_ppn Hset) as Hppn0. pose proof (hs_slots Hset) as Hslots. pose proof (hi_attempt _ _ _ Hi) as [Ha0 _].
  pose proof (hi_cpu_room _ _ _ Hi) as Hcroom.
  destruct (insert_by_time_spec ss (pj_cpu_indexes (hu_job st)) (take (Z.to_nat (kept m st c)) cs) c)
    as (cpus & cs' & E & Hh' & Hperm & Hsort' & Hl & _).
  { by apply holds_take. }
  { rewrite length_take. lia. }
  { apply Forall_take. eapply Forall_impl; [exact Hus|]. apply usable_slot. }
  { by apply sorted_take. }
  exists cpus, cs'. split_and!; try done.
  pose proof (moves_bool st c p Hnp) as Hmoved.
  assert (Hlat : forall l, hu_node_latest st = Some l -> is_Some (ss !! l)).
  { intros l Hl'. destruct (node_latest_slot _ _ _ _ Hi Hl') as (sl & ? & _). by exists sl. }
  pose proof (hi_total _ _ _ Hi) as Htot. pose proof (sr_ppn _ _ (hi_job _ _ _ Hi)) as Hppn.
  assert (Hi1 : i32 (hu_plan_num_nodes st * ppn) = hu_plan_num_nodes st * ppn) by (apply i32_id; in_range).
  assert (Hi2 : i32 (kept m st c - hu_plan_num_nodes st * ppn) = kept m st c - hu_plan_num_nodes st * ppn) by (apply i32_id; in_range).
  assert (Hi3 : (if bool_decide (moves st c) then i32 (hu_attempt_count st + 1) else hu_attempt_count st) = attempt_of st c).
  { unfold attempt_of in *. case_bool_decide; [rewrite decide_True in Ha2 |- * by done; apply i32_id; in_range|by rewrite decide_False]. }
  assert (Hi4 : (if bool_decide (moves st c) then hu_plan_num_nodes st * ppn else hu_job_cpu st) = kept m st c).
  { unfold kept. case_bool_decide; [by rewrite decide_True|by rewrite decide_False]. }
  assert (Hi5 : (if bool_decide (moves st c) then <[c := attempt_of st c]> (<[c := hu_attempt_count st]> (hu_avail st))
      else <[c := hu_attempt_count st]> (hu_avail st)) = <[c := attempt_of st c]> (hu_avail st)).
  { unfold attempt_of. case_bool_decide; [rewrite decide_True by done; apply list_insert_insert_eq|by rewrite decide_False]. }
  pose proof (Nat2Z.id (Z.to_nat (kept m st c))) as Hid.
  assert (Hk1 : index_of (kept m st c) = Ret (Z.to_nat (kept m st c))) by (unfold index_of; destruct (Z.ltb_spec (kept m st c) 0); [lia|done]).
  assert (Hk2 : index_of (kept m st c - hu_plan_num_nodes st * ppn) = Ret (Z.to_nat (kept m st c - hu_plan_num_nodes st * ppn)))
    by (unfold index_of; destruct (Z.ltb_spec (kept m st c - hu_plan_num_nodes st * ppn) 0); [lia|done]).
  rewrite length_take, Nat.min_l in E by lia. rewrite (time_of_slot ss c s Hs) in E.
  pose proof (later_ok (hu_node_latest st) c s Hlat Hs) as Hl1. pose proof (later_ok (hu_total_latest st) c s Htot Hs) as Hl2.
  unfold put_state. rewrite Hnp.
  destruct st as [job avail free cn plan att jc nl tl tmp]. cbn in * |-. cbn -[put_cpu].
  change (mkHunt job avail free cn plan att jc nl tl tmp <| hu_avail := <[c := att]> avail |>)
    with (mkHunt job (<[c := att]> avail) free cn plan att jc nl tl tmp).
  unfold put_cpu, slot_at, slot_node. rewrite Hs. cbn [of_option obind]. rewrite Hsp. cbn [of_option obind].
  cbn [hu_considered_node hu_plan_num_nodes hu_job hu_attempt_count hu_avail hu_job_cpu hu_node_latest hu_total_latest hu_tmp_cpu_arr hu_node_ppn_free].
  rewrite Hmoved, Hppn, Hi1, Hi3, Hi4, Hk1, Hi5. cbn [obind]. rewrite E. cbn [obind]. rewrite Hl1, Hl2. cbn [obind].
  rewrite Hi2, Hk2. cbn [obind]. rewrite decide_True by lia. done.
Qed.

Lemma insert_other (l : list Z) c d v : l !! c <> None -> (<[c := v]> l) !! d = if decide (c = d) then Some v else l !! d.
Proof.
  intros Hc. case_decide as H.
  - subst. apply list_lookup_insert_eq. apply lookup_lt_is_Some. by destruct (l !! d).
  - by apply list_lookup_insert_ne.
Qed.

Lemma put_avail m cs st c : hunt_inv m cs st -> pick st c ->
  forall d a, <[c := attempt_of st c]> (hu_avail st) !! d = Some a ->
    a <> MEM_EXCEPTION /\ a <= attempt_of st c /\ (fresh_slot a \/ 0 < a -> usable d).
Proof.
  intros Hi Hp d a. pose proof (attempt_small _ _ _ _ Hi Hp) as [Ha _]. pose proof (hi_attempt _ _ _ Hi) as [Ha0 _].
  destruct (pk_old _ _ Hp) as (b & Hb & _). rewrite insert_other by congruence. case_decide as H.
  - intros [= <-]. subst d. split_and!; [lia|lia|]. intros _. by apply pk_usable with st.
  - intros Hd. destruct (hi_avail _ _ _ Hi d a Hd) as (H1 & H2 & H3). split_and!; [done|lia|done].
Qed.

(** The latest slot of the part is on the node of the part. *)
Lemma latest_node m cs st c p : hunt_inv m cs st -> pick st c -> node_at c = Some p ->
  node_at (latest_of (hu_node_latest st) c) = Some p /\
  (forall d, hu_avail st !! d = Some 0 -> time_of ss (latest_of (hu_node_latest st) c) <= time_of ss d).
Proof.
  intros Hi Hp Hnp.
  assert (Hc : forall d, hu_avail st !! d = Some 0 -> time_of ss c <= time_of ss d).
  { intros d Hd. destruct (pk_fresh _ _ Hp d Hd); lia. }
  unfold latest_of. destruct (hu_node_latest st) as [l|] eqn:El; [|by split].
  case_decide as Hlt; [by split|]. split; [|intros d Hd; eapply (hi_first _ _ _ Hi); eauto].
  destruct (node_latest_slot _ _ _ l Hi El) as (sl & Hsl & Hn). unfold node_at. rewrite Hsl. simpl. rewrite Hn.
  destruct (decide (moves st c)) as [Hm|Hm].
  - pose proof (hi_first _ _ _ Hi l c El (moves_zero _ _ _ _ Hi Hp Hm)). lia.
  - pose proof (hi_considered _ _ _ Hi) as H. destruct (hu_considered_node st) as [q|] eqn:Eq; [|destruct H; congruence].
    destruct (decide (q = p)) as [->|Hne]; [done|]. destruct Hm. split; congruence.
Qed.

Lemma put_inv m cs st c cpus cs' :
  hunt_inv m cs st -> pick st c -> m < usage -> m < hu_plan_num_nodes st * ppn + ppn ->
  holds cpus cs' -> cs' ≡ₚ c :: take (Z.to_nat (kept m st c)) cs -> StronglySorted (earlier ss) cs' ->
  length cpus = length (pj_cpu_indexes (hu_job st)) ->
  hunt_inv (kept m st c + 1) cs' (put_state m st c cpus).
Proof.
  intros Hi Hp Hm Hroom Hh Hperm Hsort Hlen. destruct (pk_usable _ _ Hp) as [(p & n & Hnp & Hnn) _].
  pose proof (part_missing _ _ _ Hi Hm) as (_ & Hpl0 & _). pose proof (kept_range m cs st c Hi) as Hk.
  destruct (hi_m _ _ _ Hi) as (Hm1 & Hm2 & Hm3). destruct (hi_cs _ _ _ Hi) as (_ & Hcs & Hus & _).
  destruct (latest_node _ _ _ _ _ Hi Hp Hnp) as [Hl1 Hl2].
  destruct (attempt_small _ _ _ _ Hi Hp) as [Ha1 Ha2]. pose proof (hi_attempt _ _ _ Hi) as [Ha0 _].
  destruct (pk_old _ _ Hp) as (b & Hb & _).
  constructor; cbn -[insert].
  - destruct (hi_job _ _ _ Hi). by constructor.
  - rewrite Hlen. by apply (hi_cpu_room _ _ _ Hi).
  - apply (hi_ninfo_room _ _ _ Hi).
  - apply (hi_ninfo_exact _ _ _ Hi).
  - apply (hi_latest_room _ _ _ Hi).
  - apply (hi_names _ _ _ Hi).
  - rewrite length_insert. apply (hi_length _ _ _ Hi).
  - by eapply put_avail.
  - split; [lia|done].
  - apply (hi_plan _ _ _ Hi).
  - rewrite length_app, length_take. simpl. lia.
  - split_and!; [done| | |done].
    + rewrite (Permutation_length Hperm). simpl. rewrite length_take. lia.
    + rewrite Hperm. constructor; [by apply pk_usable with st|by apply Forall_take].
  - rewrite Hnp. split; [by exists n|]. eexists. split; [reflexivity|done].
  - intros l [= <-]. unfold latest_of. destruct (hu_total_latest st) as [l|] eqn:El; [|by eapply usable_slot, pk_usable].
    case_decide; [by eapply usable_slot, pk_usable|by apply (hi_total _ _ _ Hi)].
  - intros l d [= <-]. rewrite insert_other by congruence. case_decide; [intros [=]; lia|]. apply Hl2.
  - apply (hi_parts _ _ _ Hi).
  - intros Hpos. destruct (hi_start _ _ _ Hi Hpos) as [Hst Hcomp]. split; [|done].
    eapply first_ones_stay; [done|done|lia|lia|done].
Qed.

(** ** Completing a part *)

(** What completing a part does to an availability. *)
Definition closed (a a' : Z) : Prop := a' = a \/ a' = USED \/ a' = PROHIBITED.

Lemma closed_refl l : Forall2 closed l l.
Proof. induction l; constructor; [by left|done]. Qed.

Lemma closed_trans l1 l2 l3 : Forall2 closed l1 l2 -> Forall2 closed l2 l3 -> Forall2 closed l1 l3.
Proof.
  intros H. revert l3. induction H as [|x y l1 l2 Hxy H IH]; intros l3 H3; inversion H3; subst; constructor.
  - destruct Hxy as [->|[->| ->]]; unfold closed in *; intuition.
  - by apply IH.
Qed.

Lemma closed_use l (cpus : list nat) : Forall2 closed l (fold_left (fun avail c => <[c := USED]> avail) cpus l).
Proof.
  revert l. induction cpus as [|c cpus IH]; intros l; simpl; [apply closed_refl|].
  eapply closed_trans; [|apply IH]. clear. revert c. induction l as [|x l IH]; intros [|c]; constructor; try by left.
  - right. by left.
  - apply closed_refl.
  - apply IH.
Qed.

Lemma closed_prohibit p l : length l = length ss -> Forall2 closed l (prohibit ss p l).
Proof.
  unfold prohibit. generalize ss as ss'. induction l as [|a l IH]; intros [|s ss'] Hlen; try done; simpl; constructor.
  - case_match; [right; by right|by left].
  - apply IH. by injection Hlen.
Qed.

Lemma closed_lookup l l' c a' : Forall2 closed l l' -> l' !! c = Some a' -> exists a, l !! c = Some a /\ closed a a'.
Proof. intros H Hc. destruct (Forall2_lookup_r _ _ _ c a' H Hc) as (a & ? & ?). by exists a. Qed.

Lemma closed_count l l' : Forall2 closed l l' -> (count fresh_slot l' <= count fresh_slot l)%nat.
Proof.
  intros H. apply count_mono. eapply Forall2_impl; [exact H|]. intros a a' [->|[->| ->]]; [done| |]; intros [?|?]; done.
Qed.

(** The state after the part at [k] is complete, on node [p]. *)
Definition part_state (st : hunt) (k : nat) (p : positive) (last l : nat) (names : list (option string)) (avail free : list Z) : hunt :=
  let job := hu_job st in
  mkHunt
    (job <| pj_start_time := time_of ss last |>
         <| pj_completion_time := i64 (time_of ss last + pj_estimated_processing job) |>
         <| pj_ninfo_arr := <[k := Some p]> (pj_ninfo_arr job) |>
         <| pj_latest_ncpu_index := <[k := Z.of_nat l]> (pj_latest_ncpu_index job) |>
         <| pj_fixed_nname_arr := Some names |>)
    avail free None (hu_plan_num_nodes st + 1) (hu_attempt_count st) (hu_job_cpu st) None (hu_total_latest st)
    (hu_tmp_cpu_arr st).

Lemma index_of_pos z : 0 <= z -> index_of z = Ret (Z.to_nat z).
Proof. intros H. unfold index_of. by destruct (Z.ltb_spec z 0); [lia|]. Qed.

Lemma holds_lookup cpus cs i c : holds cpus cs -> cs !! i = Some c -> cpus !! i = Some (Z.of_nat c).
Proof.
  intros [H1 H2] Hi. pose proof (lookup_lt_Some _ _ _ Hi) as Hlt.
  rewrite <- (lookup_take_lt cpus (length cs)) by done. by rewrite H1, list_lookup_fmap, Hi.
Qed.

Lemma complete_part_eq m cs st :
  hunt_inv m cs st -> m = hu_plan_num_nodes st * ppn + ppn -> hu_job_cpu st = m - 1 -> hu_plan_num_nodes st < parts ->
  exists p last l names avail free,
    complete_part nodes ss wipe st = Ret (part_state st (Z.to_nat (hu_plan_num_nodes st)) p last l names avail free) /\
    hu_considered_node st = Some p /\ is_Some (nodes !! p) /\ node_at l = Some p /\ cs !! Z.to_nat (m - 1) = Some last /\
    Forall2 closed (hu_avail st) avail /\ parts <= Z.of_nat (length names).
Proof.
  intros Hi Hm Hjc Hpl. pose proof (hs_ppn Hset) as Hppn0. pose proof (hs_small Hset) as Hsmall.
  destruct (hi_m _ _ _ Hi) as (_ & Hmu & Htmp). pose proof (hi_plan _ _ _ Hi) as Hplan.
  destruct (hi_cs _ _ _ Hi) as (Hh & Hlen & Hus & _).
  pose proof (hi_considered _ _ _ Hi) as Hcons. destruct (hu_considered_node st) as [p|] eqn:Ep; [|lia].
  destruct Hcons as ([n Hn] & l & El & Hlp).
  destruct (lookup_lt_is_Some_2 cs (Z.to_nat (m - 1)) ltac:(nia)) as [last Hlast].
  destruct (usable_slot last) as [s Hs]. { by eapply (proj1 (Forall_lookup _ _) Hus). }
  destruct (hi_names _ _ _ Hi) as (names & Hnames & Hnlen). destruct (hi_job _ _ _ Hi) as [_ Hppn Hparts _].
  pose proof (hi_ninfo_room _ _ _ Hi) as Hr1. pose proof (hi_latest_room _ _ _ Hi) as Hr2.
  assert (Hpl32 : i32 (hu_plan_num_nodes st + 1) = hu_plan_num_nodes st + 1) by (apply i32_id; unfold in_s; nia).
  set (cpus := take (Z.to_nat (pj_req_ppn (hu_job st))) (hu_tmp_cpu_arr st)).
  set (avail1 := fold_left (fun avail (c : nat) => <[c := USED]> avail) cpus (hu_avail st)).
  pose proof (closed_use (hu_avail st) cpus) as Hc1. fold avail1 in Hc1.
  set (used := use_fixed (node_name n) (take (Z.to_nat parts) names) (hu_node_ppn_free st) false).
  exists p, last, l, (if wipe then <[Z.to_nat (hu_plan_num_nodes st) := Some (node_name n)]> names else names),
    (if wipe then avail1 else if snd used then prohibit ss (Some p) avail1 else avail1),
    (if wipe then hu_node_ppn_free st else fst used).
  split_and!; try done; [| |by destruct wipe; rewrite ?length_insert].
  - unfold complete_part, part_state. rewrite Hjc, !index_of_pos by nia. cbn [obind]. rewrite (holds_lookup _ _ _ _ Hh Hlast).
    cbn [of_option obind]. rewrite index_of_nat. cbn [obind]. unfold slot_at. rewrite Hs. cbn [of_option obind].
    rewrite Ep, El. cbn [of_option obind]. rewrite Hn. cbn [of_option obind]. rewrite !store_ok by lia. cbn [obind].
    unfold first_of at 1. rewrite (proj2 (Z.leb_le _ _)) by lia. cbn [obind]. fold cpus. fold avail1. rewrite Hpl32, (time_of_slot ss last s Hs).
    destruct st as [job avail free cn plan att jc nl tl tmp]. cbn in * |-. unfold fixed_names. cbn. rewrite Hnames. cbn [of_option obind].
    subst jc. destruct wipe.
    + rewrite store_ok by lia. by destruct job.
    + rewrite Hparts, (proj2 (Z.leb_gt _ _)) by (pose proof (hs_nodes Hset); lia). cbn [obind].
      unfold first_of. rewrite (proj2 (Z.leb_le _ _)) by lia. cbn [obind]. fold used. destruct used as [free' b]. cbn [fst snd].
      destruct job. cbn in Hnames. subst. by destruct b.
  - destruct wipe; [done|]. destruct (snd used); [|done]. eapply closed_trans; [exact Hc1|]. apply closed_prohibit.
    rewrite <- (Forall2_length _ _ _ Hc1). apply (hi_length _ _ _ Hi).
Qed.

(** There is no room for one part more than the job has. *)
Lemma complete_part_overruns m cs st :
  hunt_inv m cs st -> hu_plan_num_nodes st = parts -> ppn * parts + ppn <= usage -> complete_part nodes ss wipe st = UB.
Proof.
  intros Hi Hpl Hu. pose proof (hi_ninfo_exact _ _ _ Hi Hu) as Hlen. pose proof (hs_nodes Hset).
  unfold complete_part. rewrite index_of_pos by lia. cbn [obind].
  destruct (index_of (hu_job_cpu st)) as [i| |] eqn:E1; cbn [obind]; try done; [|unfold index_of in E1; by destruct (Z.ltb_spec (hu_job_cpu st) 0)].
  destruct (pj_cpu_indexes (hu_job st) !! i) as [z|]; cbn [of_option obind]; [|done].
  destruct (index_of z) as [k| |] eqn:E2; cbn [obind]; try done; [|unfold index_of in E2; by destruct (Z.ltb_spec z 0)].
  unfold slot_at. destruct (ss !! k) as [sl|]; cbn [of_option obind]; [|done].
  destruct (hu_considered_node st) as [p|]; cbn [of_option obind]; [|done].
  destruct (nodes !! p) as [n|]; cbn [of_option obind]; [|done].
  unfold store. by rewrite decide_False by lia.
Qed.

Lemma sorted_last cs last :
  StronglySorted (earlier ss) cs -> cs !! (length cs - 1)%nat = Some last -> Forall (fun c => time_of ss c <= time_of ss last) cs.
Proof.
  induction cs as [|d cs IH] using rev_ind; intros Hs Hl; [constructor|].
  rewrite length_app in Hl. simpl in Hl. rewrite lookup_app_r, Nat.add_sub, Nat.sub_diag in Hl by lia. injection Hl as ->.
  apply sorted_snoc in Hs as [_ Hs]. apply Forall_app. split; [exact Hs|]. by repeat constructor.
Qed.

Lemma part_done_kept job job' k :
  pj_ninfo_arr job' !! k = pj_ninfo_arr job !! k -> pj_latest_ncpu_index job' !! k = pj_latest_ncpu_index job !! k ->
  part_done job k -> part_done job' k.
Proof. intros H1 H2 (p & l & ? & ? & ? & ?). exists p, l. by rewrite H1, H2. Qed.

Lemma part_inv m cs st p last l names avail free :
  hunt_inv m cs st -> m = hu_plan_num_nodes st * ppn + ppn -> hu_plan_num_nodes st < parts ->
  is_Some (nodes !! p) -> node_at l = Some p -> cs !! Z.to_nat (m - 1) = Some last ->
  Forall2 closed (hu_avail st) avail -> parts <= Z.of_nat (length names) ->
  hunt_inv m cs (part_state st (Z.to_nat (hu_plan_num_nodes st)) p last l names avail free).
Proof.
  intros Hi Hm Hpl Hp Hl Hlast Hc Hnames. pose proof (hs_ppn Hset) as Hppn0.
  destruct (hi_m _ _ _ Hi) as (Hm1 & Hm2 & Htmp). pose proof (hi_plan _ _ _ Hi) as Hplan.
  destruct (hi_cs _ _ _ Hi) as (Hh & Hlen & Hus & Hsort). destruct (hi_attempt _ _ _ Hi) as [Ha1 Ha2].
  pose proof (hi_ninfo_room _ _ _ Hi) as Hr1. pose proof (hi_latest_room _ _ _ Hi) as Hr2.
  constructor; cbn -[insert count]; rewrite ?length_insert.
  - destruct (hi_job _ _ _ Hi). by constructor.
  - apply (hi_cpu_room _ _ _ Hi).
  - done.
  - apply (hi_ninfo_exact _ _ _ Hi).
  - done.
  - by exists names.
  - rewrite <- (Forall2_length _ _ _ Hc). apply (hi_length _ _ _ Hi).
  - intros c a' Ha'. destruct (closed_lookup _ _ _ _ Hc Ha') as (a & Ha & [->|[->| ->]]); [by apply (hi_avail _ _ _ Hi)| |];
      (split_and!; [done|lia|]; intros [[?|?]|?]; done).
  - split; [done|]. pose proof (closed_count _ _ Hc). lia.
  - lia.
  - lia.
  - done.
  - split; [done|lia].
  - apply (hi_total _ _ _ Hi).
  - done.
  - intros k Hk. destruct (decide (Z.to_nat (hu_plan_num_nodes st) = k)) as [<-|Hne].
    + exists p, l. cbn -[insert]. by rewrite !list_lookup_insert_eq by lia.
    + eapply part_done_kept; [..|apply (hi_parts _ _ _ Hi k); lia]; cbn -[insert]; by rewrite list_lookup_insert_ne.
  - intros _. split; [|by rewrite (sr_estimated _ _ (hi_job _ _ _ Hi))]. apply Forall_take, sorted_last; [done|].
    replace (length cs - 1)%nat with (Z.to_nat (m - 1)) by lia. done.
Qed.

(** ** A round of the loop *)

(** The rounds left: every round takes a fresh slot, or again one that an earlier
    attempt took. *)
Definition weight (st : hunt) : nat :=
  (count fresh_slot (hu_avail st) * S (length ss) + count (stale_slot (hu_attempt_count st)) (hu_avail st))%nat.

Definition hunt_ready (cs : list nat) (st : hunt) : Prop :=
  hunt_inv (hu_job_cpu st) cs st /\ hu_job_cpu st < hu_plan_num_nodes st * ppn + ppn.

Lemma put_weight m cs st c cpus : hunt_inv m cs st -> pick st c -> (weight (put_state m st c cpus) < weight st)%nat.
Proof.
  intros Hi Hp. destruct (pk_old _ _ Hp) as (a & Ha & Hold). destruct (hi_attempt _ _ _ Hi) as [H1 _].
  pose proof (count_insert fresh_slot (hu_avail st) c a (attempt_of st c) Ha) as Hf.
  pose proof (count_insert (stale_slot (attempt_of st c)) (hu_avail st) c a (attempt_of st c) Ha) as Hs.
  assert (Hge : hu_attempt_count st <= attempt_of st c) by (by eapply attempt_small).
  rewrite (decide_False (P := fresh_slot (attempt_of st c))) in Hf by (unfold fresh_slot; lia).
  rewrite (decide_False (P := stale_slot (attempt_of st c) (attempt_of st c))) in Hs by (unfold stale_slot; lia).
  unfold weight, put_state. cbn [hu_avail hu_attempt_count].
  pose proof (count_le (stale_slot (attempt_of st c)) (<[c := attempt_of st c]> (hu_avail st))) as Hle.
  rewrite length_insert, (hi_length _ _ _ Hi) in Hle.
  destruct (decide (fresh_slot a)) as [Hfa|Hfa].
  - (* nia *) set (F := count fresh_slot (<[c := attempt_of st c]> (hu_avail st))) in *.
    replace (count fresh_slot (hu_avail st)) with (S F) by lia. simpl. lia.
  - assert (Hst : stale_slot (hu_attempt_count st) a) by (destruct Hold as [->|[[-> _]|[? _]]]; [by destruct Hfa; left|by destruct Hfa; right|done]).
    assert (Hsame : attempt_of st c = hu_attempt_count st).
    { unfold attempt_of. rewrite decide_False; [done|]. intros Hmv. rewrite (moves_zero _ _ _ _ Hi Hp Hmv) in Ha.
      injection Ha as <-. apply Hfa. by left. }
    rewrite Hsame in *. rewrite decide_True in Hs by done. lia.
Qed.

Lemma closed_weight l l' attempt : 1 <= attempt -> Forall2 closed l l' ->
  (count fresh_slot l' <= count fresh_slot l)%nat /\ (count (stale_slot attempt) l' <= count (stale_slot attempt) l)%nat.
Proof.
  intros Ha H. split; [by apply closed_count|]. apply count_mono. eapply Forall2_impl; [exact H|].
  intros a a' [->|[->| ->]]; [done| |]; intros [? ?]; lia.
Qed.

(** The state between taking a slot and counting it. *)
Definition count_cpu (st : hunt) : hunt := st <| hu_job_cpu := hu_job_cpu st + 1 |>.

Lemma count_cpu_inv m cs st : hunt_inv m cs st -> hunt_inv m cs (count_cpu st).
Proof. intros []. by constructor. Qed.

(** What a round does with a pick: the slot joins the others, and may complete a
    part. *)
Inductive taken (st : hunt) (cs : list nat) (c : nat) (cs' : list nat) : hunt -> Prop :=
| taken_more cpus :
    kept (hu_job_cpu st) st c + 1 <> hu_plan_num_nodes st * ppn + ppn ->
    cs' ≡ₚ c :: take (Z.to_nat (kept (hu_job_cpu st) st c)) cs ->
    taken st cs c cs' (count_cpu (put_state (hu_job_cpu st) st c cpus))
| taken_part cpus p last l names avail free :
    kept (hu_job_cpu st) st c + 1 = hu_plan_num_nodes st * ppn + ppn ->
    cs' ≡ₚ c :: take (Z.to_nat (kept (hu_job_cpu st) st c)) cs ->
    node_at c = Some p -> last ∈ cs' ->
    taken st cs c cs'
      (count_cpu (part_state (put_state (hu_job_cpu st) st c cpus) (Z.to_nat (hu_plan_num_nodes st)) p last l names avail free)).

(** The job has as many processors more than its parts as a part has. *)
Definition overrun : Prop := ppn * parts + ppn <= usage.

Lemma take_cpu_ok cs st c :
  hunt_ready cs st -> hu_job_cpu st < usage -> pick st c ->
  (take_cpu nodes ss wipe (st <| hu_avail := <[c := hu_attempt_count st]> (hu_avail st) |>) c = UB /\ overrun) \/
  exists st' cs', take_cpu nodes ss wipe (st <| hu_avail := <[c := hu_attempt_count st]> (hu_avail st) |>) c = Ret st' /\
    taken st cs c cs' st' /\ hunt_ready cs' st' /\ (weight st' < weight st)%nat.
Proof.
  intros [Hi Hroom] Hm Hp. destruct (put_cpu_eq _ _ _ _ Hi Hp eq_refl Hm Hroom) as (cpus & cs' & E & Hh & Hperm & Hsort & Hlen).
  pose proof (put_inv _ _ _ _ _ _ Hi Hp Hm Hroom Hh Hperm Hsort Hlen) as Hi'.
  pose proof (put_weight (hu_job_cpu st) cs st c cpus Hi Hp) as Hw. pose proof (kept_range _ _ _ c Hi) as Hk.
  pose proof (part_missing _ _ _ Hi Hm) as (Hmiss & Hpl0 & Hpl1 & Hpl2). pose proof (hs_ppn Hset) as Hppn0.
  pose proof (hi_plan _ _ _ Hi) as Hplan. pose proof (hs_usage Hset) as Husage. pose proof (hs_nodes Hset) as Hn0.
  set (st1 := put_state (hu_job_cpu st) st c cpus) in *.
  assert (Hjc : hu_job_cpu st1 = kept (hu_job_cpu st) st c) by done. assert (Hpl' : hu_plan_num_nodes st1 = hu_plan_num_nodes st) by done.
  assert (Hcount : forall s, hu_job_cpu s = kept (hu_job_cpu st) st c -> s <| hu_job_cpu := i32 (hu_job_cpu s + 1) |> = count_cpu s).
  { intros s Hs. unfold count_cpu. rewrite i32_id by (rewrite Hs; in_range). done. }
  unfold take_cpu. rewrite E. cbn [obind]. rewrite Hpl', Hjc, (sr_ppn _ _ (hi_job _ _ _ Hi')).
  rewrite (i32_id (kept _ _ _ + 1)), (i32_id (hu_plan_num_nodes st + 1)), (i32_id ((hu_plan_num_nodes st + 1) * _)) by (in_range || (unfold in_s; nia)).
  destruct (Z.eqb_spec (kept (hu_job_cpu st) st c + 1) ((hu_plan_num_nodes st + 1) * ppn)) as [Heq|Hne].
  - destruct Hmiss as [Hpl|[Hpl Hmore]].
    2: { left. assert (overrun) by (unfold overrun; nia). split; [|done]. by rewrite (complete_part_overruns _ _ _ Hi'). }
    right. destruct (complete_part_eq _ _ _ Hi') as (p & last & l & names & avail & free & E' & Hcn & Hp' & Hl & Hlast & Hcl & Hnl);
      [rewrite Hpl'; lia|lia|by rewrite Hpl'|].
    rewrite E'. cbn [obind]. rewrite Hcount by done. eexists _, cs'. split; [reflexivity|].
    assert (Hi'' := part_inv _ _ _ p last l names avail free Hi' ltac:(rewrite Hpl'; lia) ltac:(by rewrite Hpl') Hp' Hl Hlast Hcl Hnl).
    rewrite Hpl' in *. set (st2 := part_state st1 _ p last l names avail free) in *. split_and!.
    + apply taken_part; [lia|done|done|]. by eapply list_elem_of_lookup_2.
    + split; [by apply (count_cpu_inv _ _ st2)|].
      change (kept (hu_job_cpu st) st c + 1 < (hu_plan_num_nodes st + 1) * ppn + ppn). lia.
    + destruct (closed_weight _ _ (hu_attempt_count st1) (proj1 (hi_attempt _ _ _ Hi')) Hcl) as [Hw1 Hw2].
      change (weight (count_cpu st2)) with (weight st2).
      assert (weight st2 <= weight st1)%nat; [|lia]. unfold weight.
      change (hu_avail st2) with avail. change (hu_attempt_count st2) with (hu_attempt_count st1). nia.
  - right. cbn [obind]. rewrite Hcount by done. eexists _, cs'. split; [reflexivity|]. split_and!; [|split|].
    + apply taken_more; [lia|done].
    + by apply (count_cpu_inv _ _ st1).
    + change (kept (hu_job_cpu st) st c + 1 < hu_plan_num_nodes st * ppn + ppn). lia.
    + exact Hw.
Qed.

(** ** The loop *)

(** The search failed: no slot can be taken. *)
Definition exhausted (st : hunt) : Prop :=
  hu_job_cpu st < usage /\ (forall d, hu_avail st !! d <> Some 0) /\
  (forall d a, hu_avail st !! d = Some a -> stale_slot (hu_attempt_count st) a -> node_at d = hu_considered_node st -> False).

Section Loop.
(** A further invariant of the rounds. *)
Variable inv : list nat -> hunt -> Prop.
Hypothesis Hinv : forall cs st c cs' st',
  hunt_ready cs st -> hu_job_cpu st < usage -> pick st c -> inv cs st -> taken st cs c cs' st' -> hunt_ready cs' st' -> inv cs' st'.

(** Fuel above the weight is enough: the loop ends with all processors, or
    because no slot is left, or by a write past the parts of the job. *)
Lemma hunt_cpus_ok fuel cs st :
  hunt_ready cs st -> inv cs st -> (weight st < fuel)%nat ->
  (hunt_cpus nodes ss wipe fuel st = UB /\ overrun) \/
  exists st' found cs', hunt_cpus nodes ss wipe fuel st = Ret (st', found) /\ hunt_ready cs' st' /\ inv cs' st' /\
    (if found : bool then usage <= hu_job_cpu st' else exhausted st').
Proof.
  revert cs st. induction fuel as [|fuel IH]; intros cs st Hr Hv Hw; [lia|]. cbn [hunt_cpus].
  destruct Hr as [Hi Hroom]. rewrite (sr_usage _ _ (hi_job _ _ _ Hi)).
  destruct (Z.ltb_spec (hu_job_cpu st) usage) as [Hlt|Hge]; [|by right; exists st, true, cs].
  rewrite !slot_opt_latest; [|apply (hi_total _ _ _ Hi)|].
  2: { intros l Hl. destruct (node_latest_slot _ _ _ _ Hi Hl) as (s & ? & _). by exists s. }
  cbn [obind]. pose proof (pick_ok _ _ _ Hi) as Hp. destruct (ith_smallest _ _ _ _ _ _) as [[c|] avail].
  - destruct Hp as [-> Hp]. destruct (take_cpu_ok cs st c (conj Hi Hroom) Hlt Hp) as [[E Hov]|(st' & cs' & E & Ht & Hr' & Hw')];
      rewrite E; [by left|]. cbn [obind]. apply (IH cs'); [done| |lia]. exact (Hinv cs st c cs' st' (conj Hi Hroom) Hlt Hp Hv Ht Hr').
  - destruct Hp as (-> & H1 & H2). right. exists st, false, cs.
    split; [by destruct st|]. split; [by split|]. split; [done|]. by split.
Qed.
End Loop.
End Hunt.
