(* ===== verification/PlanHuntBest.v ===== *)
(** * The search for processors finds the earliest start

    For a job with one part: its processors are different ones of one node, no
    node could give as many earlier, and the search fails only when no node has
    enough. *)

From Stdlib Require Import ZArith Lia Bool Ascii String.
From stdpp Require Import sorting.
From S2P Require Import Prelude CString MiscHelpers Resource DataTypes Config NodeData JobInfo NodeLogic PlanData PlanList PlanValues PlanGaps PlanLimits PlanTime PlanClusters PlanSlots PlanFind PlanUpdate PlanUpdateJob PlanHunt PlanHuntSpec.

Local Open Scope string_scope.
Open Scope Z_scope.
Local Open Scope sched_scope.

Section Best.
Variable nodes : gmap positive node_info.
Variable ss : slots.
Variable wipe : bool.
Variable avail0 : list Z.
Variable job0 : plan_job.

Abbreviation ppn := (pj_req_ppn job0).
Abbreviation node_at := (node_at ss).
Abbreviation hunt_inv := (hunt_inv nodes ss avail0 job0).
Abbreviation hunt_ready := (hunt_ready nodes ss avail0 job0).
Abbreviation pick := (pick nodes ss avail0).
Abbreviation taken := (taken ss job0).
Abbreviation kept := (kept ss job0).
Abbreviation attempt_of := (attempt_of ss).
Abbreviation latest_of := (latest_of ss).

Hypothesis Hset : hunt_setting nodes ss avail0 job0.
Hypothesis Hone : pj_req_num_nodes job0 = 1.
Hypothesis Heven : pj_usage job0 = ppn.

(** As many processors of a node as the job needs, each of them [ok]. *)
Definition enough (ok : nat -> Prop) (p : positive) (ds : list nat) : Prop :=
  NoDup ds /\ Z.of_nat (length ds) = ppn /\ Forall (fun d => node_at d = Some p /\ ok d) ds.

Definition available (c : nat) : Prop := avail0 !! c = Some 0.
Definition was_taken (st : hunt) (c : nat) : Prop := exists a, hu_avail st !! c = Some a /\ 0 < a.

(** Before the part is complete. *)
Record searching (cs : list nat) (st : hunt) : Prop := {
  se_plan : hu_plan_num_nodes st = 0;
  se_nodup : NoDup cs;
  se_now : forall c, hu_avail st !! c = Some (hu_attempt_count st) <-> c ∈ cs;
  se_node : forall c, c ∈ cs -> node_at c = hu_considered_node st;
  se_open : forall c, available c -> exists a, hu_avail st !! c = Some a /\ 0 <= a;
  se_order : forall c d, was_taken st c -> hu_avail st !! d = Some 0 -> before ss c d;
  se_few : forall p ds, NoDup ds -> Forall (fun d => node_at d = Some p /\ was_taken st d) ds ->
    hu_considered_node st <> Some p -> Z.of_nat (length ds) < ppn;
  se_best : forall l p ds, hu_node_latest st = Some l -> enough available p ds ->
    Exists (fun d => time_of ss l <= time_of ss d) ds;
  se_latest : forall c, was_taken st c -> exists l, hu_node_latest st = Some l /\ time_of ss c <= time_of ss l;
  se_total : hu_total_latest st = hu_node_latest st
}.

(** The processors are those of a node, and none could start the job earlier. *)
Record placed_best (cs : list nat) (job : plan_job) : Prop := {
  pb_nodup : NoDup cs;
  pb_node : exists p, pj_ninfo_arr job !! O = Some (Some p) /\ Forall (fun c => node_at c = Some p) cs;
  pb_best : forall p ds, enough available p ds -> Exists (fun d => pj_start_time job <= time_of ss d) ds
}.

Definition one_part (cs : list nat) (st : hunt) : Prop :=
  searching cs st \/ (hu_plan_num_nodes st = 1 /\ placed_best cs (hu_job st)).

Lemma before_antisym c d : before ss c d -> before ss d c -> c = d.
Proof. unfold before. lia. Qed.

(** The processors taken now are fewer than the job needs. *)
Lemma now_few cs st : hunt_ready cs st -> searching cs st -> Z.of_nat (length cs) < ppn.
Proof.
  intros [Hi Hroom] Hs. destruct (hi_cs _ _ _ _ _ _ _ Hi) as (_ & E & _). rewrite (se_plan _ _ Hs) in Hroom. lia.
Qed.

Lemma Forall_sub (ds cs : list nat) : NoDup ds -> Forall (fun d => d ∈ cs) ds -> (length ds <= length cs)%nat.
Proof. intros Hn Hf. apply submseteq_length, NoDup_submseteq; [done|]. rewrite Forall_forall in Hf. auto. Qed.

(** When no processor is left to be taken again on the node, each node gave fewer
    than the job needs. *)
Lemma taken_few cs st p ds :
  hunt_ready cs st -> searching cs st ->
  (forall d a, hu_avail st !! d = Some a -> stale_slot (hu_attempt_count st) a -> node_at d = hu_considered_node st -> False) ->
  NoDup ds -> Forall (fun d => node_at d = Some p /\ was_taken st d) ds -> Z.of_nat (length ds) < ppn.
Proof.
  intros Hr Hs Hstale Hn Hf. destruct (decide (hu_considered_node st = Some p)) as [Hc|Hc]; [|by eapply (se_few _ _ Hs)].
  pose proof (now_few _ _ Hr Hs) as Hlt. assert (length ds <= length cs)%nat; [|lia].
  apply Forall_sub; [done|]. eapply Forall_impl; [exact Hf|]. intros d (Hd & a & Ha & Hpos).
  apply (se_now _ _ Hs). destruct Hr as [Hi _].
  destruct (hi_avail _ _ _ _ _ _ _ Hi d a Ha) as (_ & Hle & _).
  destruct (decide (a = hu_attempt_count st)) as [->|Hne]; [done|].
  exfalso. apply (Hstale d a Ha); [split; lia|congruence].
Qed.

(** The same before a slot is taken that was free all along. *)
Lemma taken_few_zero cs st c p ds :
  hunt_ready cs st -> searching cs st -> pick st c -> hu_avail st !! c = Some 0 ->
  NoDup ds -> Forall (fun d => node_at d = Some p /\ was_taken st d) ds -> Z.of_nat (length ds) < ppn.
Proof.
  intros Hr Hs Hp Hz. apply (taken_few cs); try done. intros d a Ha Hst Hd.
  pose proof (pk_stale _ _ _ _ _ Hp d a Ha Hst Hd) as H1.
  assert (H2 : before ss d c). { apply (se_order _ _ Hs); [|done]. exists a. split; [done|]. by destruct Hst. }
  pose proof (before_antisym _ _ H1 H2) as <-. rewrite Hz in Ha. injection Ha as <-. destruct Hst; lia.
Qed.

(** Slots that are all available and all before a free pick were all taken. *)
Lemma pick_not_later cs st c p ds :
  hunt_ready cs st -> searching cs st -> pick st c -> hu_avail st !! c = Some 0 -> enough available p ds ->
  Exists (fun d => time_of ss c <= time_of ss d) ds.
Proof.
  intros Hr Hs Hp Hz (Hn & Hlen & Hf).
  destruct (decide (Exists (fun d => time_of ss c <= time_of ss d) ds)) as [H|H]; [done|].
  apply not_Exists_Forall in H; [|intros ?; exact _].
  assert (Z.of_nat (length ds) < ppn); [|lia]. eapply (taken_few_zero cs st c p); try done.
  rewrite Forall_forall in *. intros d Hd. destruct (Hf d Hd) as [Hnd Hav]. split; [done|].
  destruct (se_open _ _ Hs d Hav) as (a & Ha & Hpos). exists a. split; [done|].
  destruct (decide (a = 0)) as [->|]; [|lia]. destruct (H d Hd). destruct (pk_fresh _ _ _ _ _ Hp d Ha); lia.
Qed.

(** ** A round keeps the invariant *)

Section Round.
Variables (cs : list nat) (st : hunt) (c : nat).
Hypothesis Hr : hunt_ready cs st.
Hypothesis Hs : searching cs st.
Hypothesis Hp : pick st c.

Abbreviation avail' := (<[c := attempt_of st c]> (hu_avail st)).

Lemma kept_slots : take (Z.to_nat (kept (hu_job_cpu st) st c)) cs = if decide (moves ss st c) then [] else cs.
Proof.
  unfold PlanHuntSpec.kept. rewrite (se_plan _ _ Hs). destruct Hr as [Hi _].
  destruct (hi_cs _ _ _ _ _ _ _ Hi) as (_ & E & _). case_decide; [done|]. apply take_ge. lia.
Qed.

Lemma attempt_pos : 0 < attempt_of st c.
Proof.
  destruct Hr as [Hi _]. destruct (attempt_small _ _ _ _ _ _ _ c Hi Hp) as [H _].
  destruct (hi_attempt _ _ _ _ _ _ _ Hi) as [H1 _]. lia.
Qed.

Lemma avail_at d : avail' !! d = if decide (c = d) then Some (attempt_of st c) else hu_avail st !! d.
Proof. apply insert_other. destruct (pk_old _ _ _ _ _ Hp) as (a & -> & _). done. Qed.

(** What is taken after the round: the slot, and what was taken before. *)
Lemma taken_after d : (exists a, avail' !! d = Some a /\ 0 < a) <-> c = d \/ was_taken st d.
Proof.
  rewrite avail_at. pose proof attempt_pos. case_decide as E; split.
  - by left.
  - intros _. by exists (attempt_of st c).
  - by right.
  - intros [?|?]; done.
Qed.

Lemma zero_after d : avail' !! d = Some 0 -> c <> d /\ hu_avail st !! d = Some 0.
Proof. rewrite avail_at. pose proof attempt_pos. case_decide; [intros [=]; lia|done]. Qed.

Lemma not_now : c ∉ cs.
Proof.
  rewrite <- (se_now _ _ Hs). destruct Hr as [Hi _]. destruct (hi_attempt _ _ _ _ _ _ _ Hi) as [H1 _].
  destruct (pk_old _ _ _ _ _ Hp) as (a & Ha & Hold). rewrite Ha. intros [= ->].
  destruct Hold as [H|[[H _]|[[_ H] _]]]; lia.
Qed.

Lemma now_after d : avail' !! d = Some (attempt_of st c) <-> d ∈ c :: (if decide (moves ss st c) then [] else cs).
Proof.
  rewrite avail_at, elem_of_cons. case_decide as E.
  - subst. split; [by left|done].
  - destruct Hr as [Hi _]. unfold PlanHuntSpec.attempt_of. case_decide as Hm.
    + split; [|intros [?|H]; [done|by apply not_elem_of_nil in H]]. intros Hd.
      destruct (hi_avail _ _ _ _ _ _ _ Hi d _ Hd) as (_ & H & _). lia.
    + rewrite (se_now _ _ Hs). split; [by right|]. intros [?|?]; done.
Qed.

Lemma few_after p ds :
  NoDup ds -> Forall (fun d => node_at d = Some p /\ (c = d \/ was_taken st d)) ds -> node_at c <> Some p -> Z.of_nat (length ds) < ppn.
Proof.
  intros Hn Hf Hne.
  assert (Hf' : Forall (fun d => node_at d = Some p /\ was_taken st d) ds).
  { eapply Forall_impl; [exact Hf|]. intros d [Hd [<-|Ht]]; done. }
  destruct (decide (moves ss st c)) as [Hm|Hm].
  - destruct Hr as [Hi _]. eapply (taken_few_zero cs st c p); try done. by eapply moves_zero.
  - eapply (se_few _ _ Hs); [done|done|]. intros Hc. apply Hm. split; [congruence|]. congruence.
Qed.

Lemma latest_after d : c = d \/ was_taken st d -> time_of ss d <= time_of ss (latest_of (hu_node_latest st) c).
Proof.
  unfold PlanHuntSpec.latest_of. intros Hd.
  destruct Hd as [<-|Hd]; [destruct (hu_node_latest st) as [l|]; [case_decide; lia|lia]|].
  destruct (se_latest _ _ Hs d Hd) as (l & -> & Hl). case_decide; lia.
Qed.

Lemma best_after p ds : enough available p ds ->
  Exists (fun d => time_of ss (latest_of (hu_node_latest st) c) <= time_of ss d) ds.
Proof.
  intros He. destruct (pk_old _ _ _ _ _ Hp) as (a & Ha & Hold).
  assert (Hbest : forall l, hu_node_latest st = Some l -> Exists (fun d => time_of ss l <= time_of ss d) ds)
    by (intros l Hl; by eapply (se_best _ _ Hs)).
  unfold PlanHuntSpec.latest_of. destruct Hold as [->|[(_ & _ & Hl & Htot)|[Hst _]]].
  - destruct (hu_node_latest st) as [l|]; [case_decide; [|by apply Hbest]|]; by eapply pick_not_later.
  - destruct (hu_node_latest st) as [l|] eqn:El.
    + pose proof (Hl l eq_refl). case_decide; [lia|]. by apply Hbest.
    + by destruct (Htot eq_refl); rewrite (se_total _ _ Hs).
  - destruct (se_latest _ _ Hs c) as (l & El & Hle). { exists a. by destruct Hst. }
    rewrite El. case_decide; [|by apply Hbest]. eapply Exists_impl; [by apply Hbest|]. simpl. lia.
Qed.

Lemma put_searching cpus cs' :
  cs' ≡ₚ c :: take (Z.to_nat (kept (hu_job_cpu st) st c)) cs ->
  searching cs' (put_state ss job0 (hu_job_cpu st) st c cpus).
Proof.
  rewrite kept_slots. intros Hperm. constructor; cbn -[insert PlanHuntSpec.latest_of].
  - apply (se_plan _ _ Hs).
  - rewrite Hperm. apply NoDup_cons. pose proof not_now. case_decide; (split; [set_solver|]); [constructor|apply (se_nodup _ _ Hs)].
  - intros d. rewrite Hperm. apply now_after.
  - intros d. rewrite Hperm, elem_of_cons. intros [->|Hd]; [done|]. case_decide as Hm; [by apply not_elem_of_nil in Hd|].
    rewrite (se_node _ _ Hs d Hd). destruct (decide (node_at c = hu_considered_node st)) as [E|E]; [done|]. destruct Hm. split; [|done].
    intros Hc. destruct Hr as [Hi _]. pose proof (hi_considered _ _ _ _ _ _ _ Hi) as H. rewrite Hc in H.
    destruct H as [_ H]. destruct (hi_cs _ _ _ _ _ _ _ Hi) as (_ & El & _). rewrite (se_plan _ _ Hs) in H.
    destruct cs; [by apply not_elem_of_nil in Hd|simpl in El; lia].
  - intros d Hd. rewrite avail_at. destruct (decide (c = d)); [|by apply (se_open _ _ Hs)]. exists (attempt_of st c).
    pose proof attempt_pos. split; [done|lia].
  - intros d e Hd He. apply taken_after in Hd. apply zero_after in He as [_ He].
    destruct Hd as [<-|Hd]; [by apply (pk_fresh _ _ _ _ _ Hp)|by apply (se_order _ _ Hs)].
  - intros p ds Hn Hf. apply few_after; [done|]. eapply Forall_impl; [exact Hf|]. intros d [Hd Ht]. split; [done|]. by apply taken_after.
  - intros l p ds [= <-] He. by eapply best_after.
  - intros d Hd. eexists. split; [reflexivity|]. apply latest_after. by apply taken_after.
  - by rewrite (se_total _ _ Hs).
Qed.
End Round.

Lemma round_one_part cs st c cs' st' :
  hunt_ready cs st -> hu_job_cpu st < pj_usage job0 -> pick st c -> one_part cs st -> taken st cs c cs' st' ->
  hunt_ready cs' st' -> one_part cs' st'.
Proof.
  intros Hr Hm Hp [Hs|[Hpl _]] Ht Hr'.
  - destruct Ht as [cpus Hk Hperm|cpus p last l names avail free Hk Hperm Hnp Hlast].
    + left. destruct (put_searching cs st c Hr Hs Hp cpus cs' Hperm). by constructor.
    + right. pose proof (put_searching cs st c Hr Hs Hp cpus cs' Hperm) as Hs'. split.
      { cbn. by rewrite (se_plan _ _ Hs). }
      destruct Hr' as [Hi' _]. cbn -[insert]. constructor.
      * apply (se_nodup _ _ Hs').
      * exists p. cbn -[insert]. destruct Hr as [Hi _]. pose proof (hi_ninfo_room _ _ _ _ _ _ _ Hi) as Hroom.
        rewrite Hone in Hroom. rewrite (se_plan _ _ Hs), list_lookup_insert_eq by (simpl; lia). split; [done|].
        apply Forall_forall. intros d Hd. rewrite (se_node _ _ Hs' d Hd). done.
      * intros q ds He. cbn -[insert].
        assert (Htk : was_taken (put_state ss job0 (hu_job_cpu st) st c cpus) last).
        { apply (se_now _ _ Hs') in Hlast. eexists. split; [exact Hlast|]. by eapply (attempt_pos cs). }
        destruct (se_latest _ _ Hs' last Htk) as (l' & El & Hle).
        eapply Exists_impl; [exact (se_best _ _ Hs' l' q ds El He)|]. simpl. lia.
  - exfalso. destruct Hr as [Hi _]. destruct (part_missing _ _ _ _ Hset _ _ _ Hi Hm) as [H _]. nia.
Qed.

(** A failed search: no node has enough. *)
Lemma exhausted_none cs st p ds :
  hunt_ready cs st -> one_part cs st -> exhausted ss job0 st -> ~ enough available p ds.
Proof.
  intros Hr [Hs|[Hpl _]] (Hm & Hzero & Hstale) (Hn & Hlen & Hf).
  - assert (Z.of_nat (length ds) < ppn); [|lia]. apply (taken_few cs st p); try done.
    eapply Forall_impl; [exact Hf|]. intros d [Hd Hav]. split; [done|].
    destruct (se_open _ _ Hs d Hav) as (a & Ha & Hpos). exists a. split; [done|].
    destruct (decide (a = 0)) as [->|]; [by destruct (Hzero d)|lia].
  - destruct Hr as [Hi _]. destruct (part_missing _ _ _ _ Hset _ _ _ Hi Hm) as [H _]. nia.
Qed.
End Best.
