(* ===== verification/PlanHuntTotal.v ===== *)
(** * update_job finds processors: the search from its preparation on

    The availabilities that [prepare] computes make the search ready; the
    theorems on the processors of a job that is not exclusive. *)

From Stdlib Require Import ZArith Lia Bool Ascii String.
From stdpp Require Import sorting.
From S2P Require Import Prelude CString MiscHelpers Resource DataTypes Config NodeData JobInfo NodeLogic PlanData PlanList PlanValues PlanGaps PlanLimits PlanTime PlanClusters PlanSlots PlanFind PlanUpdate PlanUpdateJob PlanHunt PlanHuntSpec PlanHuntBest.

Local Open Scope string_scope.
Open Scope Z_scope.
Local Open Scope sched_scope.

Section Search.
Variable nodes : gmap positive node_info.

(** A slot that is free at some time is of a node; the times fit an [int], in
    which [ith_smallest] compares them. *)
Record slot_ok (s : first_free_slot) : Prop := {
  so_node : ff_time s <> -1 -> exists p n, ff_ninfo s = Some p /\ nodes !! p = Some n;
  so_time : in_s 32 (ff_time s)
}.

(** The processors are the same for every part, and the arrays have room. *)
Record job_ok (job : plan_job) : Prop := {
  jo_ppn : 0 < pj_req_ppn job;
  jo_nodes : 0 < pj_req_num_nodes job;
  jo_usage : pj_usage job = pj_req_ppn job * pj_req_num_nodes job;
  jo_small : pj_usage job < 2 ^ 31;
  jo_cpus : pj_usage job <= Z.of_nat (length (pj_cpu_indexes job));
  jo_ninfo : pj_req_num_nodes job <= Z.of_nat (length (pj_ninfo_arr job));
  jo_latest : pj_req_num_nodes job <= Z.of_nat (length (pj_latest_ncpu_index job));
  jo_names : exists names, pj_fixed_nname_arr job = Some names /\ pj_req_num_nodes job <= Z.of_nat (length names)
}.

(** The arrays have room for the request, whether or not its processors can be
    divided evenly among the parts; when they are as many more than the parts have
    as a part has, the nodes have no more room than for the parts. *)
Record job_room (job : plan_job) : Prop := {
  jr_ppn : 0 < pj_req_ppn job;
  jr_nodes : 0 < pj_req_num_nodes job;
  jr_usage : 0 <= pj_usage job < 2 ^ 31;
  jr_small : pj_req_ppn job * pj_req_num_nodes job < 2 ^ 31;
  jr_more : pj_req_ppn job * pj_req_num_nodes job < pj_usage job -> pj_req_ppn job * pj_req_num_nodes job + pj_req_ppn job < 2 ^ 31;
  jr_cpus : pj_usage job <= Z.of_nat (length (pj_cpu_indexes job));
  jr_ninfo : pj_req_num_nodes job <= Z.of_nat (length (pj_ninfo_arr job));
  jr_exact : pj_req_ppn job * pj_req_num_nodes job + pj_req_ppn job <= pj_usage job ->
    Z.of_nat (length (pj_ninfo_arr job)) = pj_req_num_nodes job;
  jr_latest : pj_req_num_nodes job <= Z.of_nat (length (pj_latest_ncpu_index job));
  jr_names : exists names, pj_fixed_nname_arr job = Some names /\ pj_req_num_nodes job <= Z.of_nat (length names)
}.

Lemma job_ok_room job : job_ok job -> job_room job.
Proof. intros [H1 H2 H3 H4 H5 H6 H7 H8]. constructor; try done; nia. Qed.

Lemma availability_ok job wipe exclusive names s :
  slot_ok s -> exists a, slot_availability nodes job wipe exclusive names s = Ret a /\ a <= 0 /\ a <> MEM_EXCEPTION /\
    (fresh_slot a -> exists p n, ff_ninfo s = Some p /\ nodes !! p = Some n).
Proof.
  intros [Hn _]. unfold slot_availability. destruct (Z.eqb_spec (ff_time s) (-1)) as [E|E].
  - exists DOWN. split_and!; try done. intros [?|?]; done.
  - destruct (Hn E) as (p & n & Hp & Hnp). unfold node_of_slot, slot_node. rewrite Hp. cbn [of_option obind]. rewrite Hnp.
    cbn [of_option obind].
    repeat match goal with |- context [if ?b then _ else _] => destruct b end;
      (eexists; split; [reflexivity|]; split; [lia|]; split; [lia|]; intros _; by exists p, n).
Qed.

Lemma omap_all_Forall2 {A B} (f : A -> outcome B) (P : A -> B -> Prop) l :
  (forall x, x ∈ l -> exists y, f x = Ret y /\ P x y) -> exists k, omap_all f l = Ret k /\ Forall2 (fun x y => f x = Ret y /\ P x y) l k.
Proof.
  induction l as [|x l IH]; intros H; [by exists []|].
  destruct (H x ltac:(by left)) as (y & Hy & HP). destruct IH as (k & Hk & HF). { intros z Hz. apply H. by right. }
  exists (y :: k). cbn [omap_all]. rewrite Hy. cbn [obind]. rewrite Hk. split; [done|]. by constructor.
Qed.

Lemma fill_ok {A} n (v : A) l : n <= Z.of_nat (length l) ->
  exists l', fill n v l = Ret l' /\ length l' = length l.
Proof.
  intros H. unfold fill, first_of. rewrite (proj2 (Z.leb_le _ _)) by lia. cbn [obind]. eexists. split; [reflexivity|].
  rewrite length_app, length_replicate, length_drop. lia.
Qed.

(** What is free for the job from a slot on. *)
Definition free_for (job : plan_job) (ss : slots) (c : nat) : Prop :=
  exists s names, ss !! c = Some s /\ fixed_names job = Ret names /\
    slot_availability nodes job (existsb is_null names) false names s = Ret 0.

Lemma fixed_names_ok job : job_room job -> exists names, fixed_names job = Ret names.
Proof.
  intros Hj. destruct (jr_names _ Hj) as (names & E & Hl). unfold fixed_names.
  rewrite (proj2 (Z.leb_gt _ _)) by (apply jr_nodes; done). rewrite E. cbn [of_option obind]. unfold first_of.
  rewrite (proj2 (Z.leb_le _ _)) by lia. by eexists.
Qed.

Lemma clear_names_ok job : job_room job -> exists names,
  clear_names job = Ret (job <| pj_fixed_nname_arr := Some names |>) /\ pj_req_num_nodes job <= Z.of_nat (length names).
Proof.
  intros Hj. destruct (jr_names _ Hj) as (names & E & Hl). unfold clear_names.
  rewrite (proj2 (Z.leb_gt _ _)) by (apply jr_nodes; done). rewrite E. cbn [of_option obind]. unfold first_of.
  rewrite (proj2 (Z.leb_le _ _)) by lia. cbn [obind]. eexists. split; [reflexivity|].
  rewrite length_app, length_replicate, length_drop. lia.
Qed.

(** The job without names, when one is missing. *)
Lemma named_job job (wipe : bool) : job_room job -> exists names,
  (if wipe then clear_names job else Ret job) = Ret (job <| pj_fixed_nname_arr := Some names |>) /\
  pj_req_num_nodes job <= Z.of_nat (length names).
Proof.
  intros Hj. destruct wipe; [by apply clear_names_ok|]. destruct (jr_names _ Hj) as (names & E & Hl). exists names.
  split; [|done]. destruct job. cbn in E. by subst.
Qed.

Section Ready.
Variable ss : slots.
Hypothesis Hslots : Forall slot_ok ss.
Hypothesis Hsmall : Z.of_nat (length ss) < 2 ^ 31 - 1.

(** The first state of the search satisfies its invariants. *)
Lemma start_ready job avail :
  hunt_setting nodes ss avail job -> job_room job -> hunt_ready nodes ss avail job [] (start_hunt job avail).
Proof.
  intros Hset Hj. pose proof (jr_ppn _ Hj). pose proof (jr_nodes _ Hj). split; [|cbn; lia].
  constructor; cbn -[count]; try apply Hj; try done.
  - apply (hs_length _ _ _ _ Hset).
  - intros c a Hc. pose proof (proj1 (Forall_lookup _ _) (hs_avail _ _ _ _ Hset) c a Hc) as [H1 H2]. cbn in H1.
    split_and!; [done|lia|]. intros [Hf|?]; [|lia]. split; [by eapply (hs_usable _ _ _ _ Hset)|by exists a].
  - pose proof (count_le fresh_slot avail). rewrite (hs_length _ _ _ _ Hset) in *. lia.
  - lia.
  - pose proof (jr_usage _ Hj). nia.
  - split_and!; [split; [by rewrite take_0|simpl; lia]|done|constructor|constructor].
  - lia.
Qed.


(** The availabilities that are computed. *)
Lemma availabilities_ok job wipe names :
  exists avail, omap_all (slot_availability nodes job wipe false names) ss = Ret avail /\
    length avail = length ss /\ Forall (fun a => a <= 0 /\ a <> MEM_EXCEPTION) avail /\
    (forall c a, avail !! c = Some a -> fresh_slot a -> exists p n, node_at ss c = Some p /\ nodes !! p = Some n) /\
    (forall c s, ss !! c = Some s -> exists a, avail !! c = Some a /\ slot_availability nodes job wipe false names s = Ret a).
Proof.
  destruct (omap_all_Forall2 (slot_availability nodes job wipe false names)
    (fun s a => a <= 0 /\ a <> MEM_EXCEPTION /\ (fresh_slot a -> exists p n, ff_ninfo s = Some p /\ nodes !! p = Some n)) ss)
    as (avail & Eavail & Havail).
  { intros s Hs. rewrite Forall_forall in Hslots. destruct (availability_ok job wipe false names s (Hslots s Hs)) as (a & ? & ?). by exists a. }
  exists avail. split; [done|]. split; [symmetry; by eapply Forall2_length|]. split_and!.
  - apply Forall_lookup. intros c a Hc. by destruct (Forall2_lookup_r _ _ _ c a Havail Hc) as (s & _ & _ & ? & ? & _).
  - intros c a Hc Hf. destruct (Forall2_lookup_r _ _ _ c a Havail Hc) as (s & Hs & _ & _ & _ & H).
    destruct (H Hf) as (p & n & Hp & Hn). exists p, n. unfold node_at. by rewrite Hs.
  - intros c s Hs. destruct (Forall2_lookup_l _ _ _ c s Havail Hs) as (a & Hc & E & _). by exists a.
Qed.

Lemma prepare_ok job :
  job_room job ->
  exists job1 avail wipe, prepare nodes job false ss = Ret (job1, avail, wipe) /\
    hunt_setting nodes ss avail job1 /\ job_room job1 /\ same_request job job1 /\ (forall c, avail !! c = Some 0 <-> free_for job ss c).
Proof.
  intros Hj. destruct (fixed_names_ok job Hj) as [names Hnames]. set (wipe := existsb is_null names).
  destruct (named_job job wipe Hj) as (names' & Ejob & Hlen').
  destruct (availabilities_ok (job <| pj_fixed_nname_arr := Some names' |>) wipe names) as (avail & Eavail & Hlen & Hle & Husable & Hat).
  destruct (fill_ok (pj_usage job) (-1) (pj_cpu_indexes job) (jr_cpus _ Hj)) as (cpus & Ecpus & Hcpus).
  destruct (fill_ok (pj_req_num_nodes job) (-1) (pj_latest_ncpu_index job) (jr_latest _ Hj)) as (latest & Elatest & Hlatest).
  eexists _, avail, wipe. split.
  { unfold prepare. rewrite Hnames. cbn [obind]. fold wipe. rewrite Ejob. cbn [obind]. rewrite Eavail. cbn [obind].
    change (pj_usage (job <| pj_fixed_nname_arr := Some names' |>)) with (pj_usage job).
    change (pj_cpu_indexes (job <| pj_fixed_nname_arr := Some names' |>)) with (pj_cpu_indexes job). rewrite Ecpus. cbn [obind].
    change (pj_req_num_nodes (job <| pj_fixed_nname_arr := Some names' |>)) with (pj_req_num_nodes job).
    change (pj_latest_ncpu_index (job <| pj_fixed_nname_arr := Some names' |>)) with (pj_latest_ncpu_index job).
    rewrite Elatest. reflexivity. }
  split_and!.
  - destruct Hj. constructor; try done. eapply Forall_impl; [exact Hslots|]. by intros s [].
  - destruct Hj. constructor; cbn; try done; [lia|lia|by exists names'].
  - by constructor.
  - intros c. split.
    + intros Hc. pose proof (lookup_lt_Some _ _ _ Hc) as Hlt. rewrite Hlen in Hlt. apply lookup_lt_is_Some in Hlt as [s Hs].
      destruct (Hat c s Hs) as (a & Hc' & E). assert (a = 0) as -> by congruence. exists s, names. split_and!; [done|done|exact E].
    + intros (s & names2 & Hs & E & Ha). assert (names2 = names) as -> by congruence. destruct (Hat c s Hs) as (a & Hc & E').
      rewrite Hc. f_equal. assert (@Ret Z a = Ret 0) as E2; [|by injection E2]. rewrite <- E'. exact Ha.
Qed.

(** The processors that are found: usable ones in the order of their times; as many
    parts as they fill have a node, and the job starts when the first processors,
    as many as these parts have, are free. *)
Record plan_found (avail : list Z) (job job' : plan_job) (cs : list nat) : Prop := {
  pf_request : same_request job job';
  pf_cpus : holds (pj_cpu_indexes job') cs;
  pf_count : Z.of_nat (length cs) = pj_usage job;
  pf_usable : Forall (usable nodes ss avail) cs;
  pf_sorted : StronglySorted (earlier ss) cs;
  pf_full : pj_usage job / pj_req_ppn job <= pj_req_num_nodes job;
  pf_start : Forall (fun c => time_of ss c <= pj_start_time job')
    (take (Z.to_nat (pj_usage job / pj_req_ppn job * pj_req_ppn job)) cs);
  pf_completion : pj_req_ppn job <= pj_usage job ->
    pj_completion_time job' = i64 (pj_start_time job' + pj_estimated_processing job);
  pf_parts : forall k, Z.of_nat k < pj_usage job / pj_req_ppn job -> part_done nodes ss job' k
}.

Lemma all_parts avail job cs st :
  hunt_setting nodes ss avail job -> hunt_ready nodes ss avail job cs st -> pj_usage job <= hu_job_cpu st ->
  plan_found avail job (hu_job st) cs /\ ~ overrun job.
Proof.
  intros Hset [Hi Hroom] Hge. destruct (hi_m _ _ _ _ _ _ _ Hi) as (Hm1 & Hm & _). pose proof (hi_plan _ _ _ _ _ _ _ Hi) as Hpl.
  pose proof (hs_ppn _ _ _ _ Hset) as Hp. pose proof (hs_usage _ _ _ _ Hset) as Hu.
  assert (pj_usage job / pj_req_ppn job = hu_plan_num_nodes st) as E.
  { symmetry. apply Z.div_unique_pos with (pj_usage job - hu_plan_num_nodes st * pj_req_ppn job); lia. }
  destruct (hi_cs _ _ _ _ _ _ _ Hi) as (H1 & H2 & H3 & H4). pose proof (hi_start _ _ _ _ _ _ _ Hi) as H5.
  split; [|unfold overrun; nia].
  constructor; rewrite ?E; try done; [apply (hi_job _ _ _ _ _ _ _ Hi)|lia|lia| | |].
  - destruct (decide (0 < hu_plan_num_nodes st)) as [Hpos|Hz]; [by apply H5|].
    replace (hu_plan_num_nodes st) with 0 by lia. simpl. constructor.
  - intros Hle. apply H5. nia.
  - intros k Hk. by apply (hi_parts _ _ _ _ _ _ _ Hi).
Qed.

Lemma start_weight job avail : length avail = length ss -> (weight ss (start_hunt job avail) < hunt_fuel ss)%nat.
Proof.
  intros Hlen. unfold weight, hunt_fuel. cbn [hu_avail hu_attempt_count start_hunt].
  pose proof (count_le fresh_slot avail) as H.
  assert (count (stale_slot 1) avail = O) as ->.
  { unfold count. clear. induction avail as [|a l IH]; [done|]. rewrite filter_cons. case_decide as E; [destruct E; lia|done]. }
  rewrite Hlen in H. nia.
Qed.

(** The search, with a further invariant of its rounds. *)
Lemma search_cpus_ok job avail wipe (inv : list nat -> hunt -> Prop) :
  hunt_setting nodes ss avail job -> job_room job -> inv [] (start_hunt job avail) ->
  (forall cs st c cs' st', hunt_ready nodes ss avail job cs st -> hu_job_cpu st < pj_usage job -> pick nodes ss avail st c ->
    inv cs st -> taken ss job st cs c cs' st' -> hunt_ready nodes ss avail job cs' st' -> inv cs' st') ->
  (search_cpus nodes job avail wipe ss = UB /\ overrun job) \/
  exists job' found cs st, search_cpus nodes job avail wipe ss = Ret (job', found) /\
    hunt_ready nodes ss avail job cs st /\ inv cs st /\
    (if found : bool then job' = hu_job st /\ plan_found avail job job' cs /\ ~ overrun job else exhausted ss job st).
Proof.
  intros Hset Hj Hstart Hinv.
  destruct (hunt_cpus_ok nodes ss wipe avail job Hset inv Hinv (hunt_fuel ss) [] (start_hunt job avail))
    as [[E Hov]|(st & found & cs & E & Hr & Hv & Hend)]; [by apply start_ready|done|by apply start_weight, hs_length with nodes job|..].
  { left. unfold search_cpus. by rewrite E. }
  right. unfold search_cpus. rewrite E. cbn [obind]. destruct found.
  - eexists _, true, cs, st. split; [done|]. split; [done|]. split; [done|]. split; [done|]. by apply all_parts.
  - destruct Hr as [Hi Hroom]. destruct (hi_names _ _ _ _ _ _ _ Hi) as (names & -> & Hlen). cbn [of_option obind].
    pose proof (jr_nodes _ Hj). rewrite store_ok by lia. cbn [obind]. by eexists _, false, cs, st.
Qed.
End Ready.
End Search.

(** C23: the search of update_job ends for every job that is not exclusive and has
    room in its arrays, also when its processors cannot be divided evenly among its
    parts.  While the job has fewer processors more than its parts than one part
    has, the search makes no access out of bounds; when it succeeds the job has its
    processors, each of them usable, in the order of their times, as many parts as
    they fill are each on a node of the cluster that the part's latest processor is
    of, and the job starts when the first processors, as many as these parts have
    together, are free: all of them when they can be divided evenly, not the ones
    left over otherwise.  With as many processors more, the search fails or
    writes behind the nodes of the job. *)
Theorem search_ends_with_usable_processors (nodes : gmap positive node_info) (job : plan_job) (ss : slots)
    (Hslots : Forall (slot_ok nodes) ss) (Hsmall : Z.of_nat (length ss) < 2 ^ 31 - 1) (Hjob : job_room job) :
  exists job1 avail wipe, prepare nodes job false ss = Ret (job1, avail, wipe) /\ same_request job job1 /\
    if pj_usage job <? pj_req_ppn job * (pj_req_num_nodes job + 1) then
      exists job' found, search_cpus nodes job1 avail wipe ss = Ret (job', found) /\
        (found = true -> exists cs, plan_found nodes ss avail job1 job' cs)
    else
      search_cpus nodes job1 avail wipe ss = UB \/ exists job', search_cpus nodes job1 avail wipe ss = Ret (job', false).
Proof.
  destruct (prepare_ok nodes ss Hslots Hsmall job Hjob) as (job1 & avail & wipe & E & Hset & Hj1 & Hsame & _).
  exists job1, avail, wipe. split; [done|]. split; [done|].
  assert (Hov : overrun job1 <-> pj_req_ppn job * (pj_req_num_nodes job + 1) <= pj_usage job).
  { unfold overrun. rewrite (sr_ppn _ _ Hsame), (sr_nodes _ _ Hsame), (sr_usage _ _ Hsame). lia. }
  destruct (search_cpus_ok nodes ss job1 avail wipe (fun _ _ => True) Hset Hj1 I) as [[E' H]|(job' & found & cs & st & E' & _ & _ & H)];
    [done|..]; destruct (Z.ltb_spec (pj_usage job) (pj_req_ppn job * (pj_req_num_nodes job + 1))) as [Hlt|Hge].
  - apply Hov in H. lia.
  - by left.
  - exists job', found. split; [done|]. intros ->. exists cs. by destruct H as (_ & H & _).
  - right. destruct found; [|by eexists]. destruct H as (_ & _ & []). by apply Hov.
Qed.


(** ** Examples *)

Definition slots_at (p : positive) (times : list Z) : slots :=
  (fun t => mkSlot t (Some p) 1 [] 1000 1000 1000 1000 0 0 0) <$> times.

Definition request (ppn parts : Z) : plan_job :=
  mkPlanJob 7 (Some 1%positive) (-1) (-1) 100 0 0 0 (ppn * parts) ppn 0 parts 10 0 0
    (replicate (Z.to_nat parts) None) (Some (replicate (Z.to_nat parts) None)) None
    (replicate (Z.to_nat (ppn * parts)) 0) (replicate (Z.to_nat parts) 0) None false 0.

(** The first node is free at 1 and 40, the second one at 20 and 30. *)
Definition two_nodes : slots := (slots_at 1 [1; 40] ++ slots_at 2 [20; 30])%list.

Lemma slot_ok_at nodes p t n : nodes !! p = Some n -> in_s 32 t -> slot_ok nodes (mkSlot t (Some p) 1 [] 1000 1000 1000 1000 0 0 0).
Proof. intros Hn Ht. split; [intros _; by exists p, n|done]. Qed.

Lemma two_nodes_ok : Forall (slot_ok example_nodes) two_nodes.
Proof. repeat constructor; try (by eexists _, _); unfold in_s; simpl; lia. Qed.

Lemma request_ok ppn parts : 0 < ppn -> 0 < parts -> ppn * parts < 2 ^ 31 -> job_ok (request ppn parts).
Proof.
  intros H1 H2 H3. constructor; cbn; rewrite ?length_replicate; try lia. eexists. split; [reflexivity|]. rewrite length_replicate. lia.
Qed.

(** Three processors on two nodes: the same arrays with one processor more. *)
Definition uneven_request : plan_job :=
  request 1 2 <| pj_usage := 3 |> <| pj_cpu_indexes := [0; 0; 0] |>.

Lemma search_ends_with_usable_processors_witness :
  (exists job1 avail wipe job' found,
    prepare example_nodes (request 2 2) false two_nodes = Ret (job1, avail, wipe) /\
    search_cpus example_nodes job1 avail wipe two_nodes = Ret (job', found) /\
    same_request (request 2 2) job1 /\ (found = true -> exists cs, plan_found example_nodes two_nodes avail job1 job' cs)) /\
  exists job1 avail wipe,
    prepare example_nodes uneven_request false two_nodes = Ret (job1, avail, wipe) /\
    (search_cpus example_nodes job1 avail wipe two_nodes = UB \/
     exists job', search_cpus example_nodes job1 avail wipe two_nodes = Ret (job', false)).
Proof.
  split.
  - destruct (search_ends_with_usable_processors example_nodes (request 2 2) two_nodes)
      as (job1 & avail & wipe & E & Hsame & H);
      [exact two_nodes_ok|simpl; lia|apply job_ok_room, request_ok; lia|].
    simpl in H. destruct H as (job' & found & E' & H). exists job1, avail, wipe, job', found.
    split; [exact E|]. split; [exact E'|]. split; [exact Hsame|exact H].
  - destruct (search_ends_with_usable_processors example_nodes uneven_request two_nodes)
      as (job1 & avail & wipe & E & Hsame & H); [exact two_nodes_ok|simpl; lia| |].
    + constructor; cbn; rewrite ?length_replicate; try lia. eexists. split; [reflexivity|]. simpl. lia.
    + simpl in H. exists job1, avail, wipe. split; [exact E|exact H].
Defined.


Definition planned (nodes : gmap positive node_info) (job : plan_job) (ss : slots) : outcome (Z * list Z * list (option positive)) :=
  let! (job, avail, wipe) := prepare nodes job false ss in
  let! (job, _) := search_cpus nodes job avail wipe ss in
  Ret (pj_start_time job, pj_cpu_indexes job, pj_ninfo_arr job).

Example second_node_is_earlier : planned example_nodes (request 2 1) two_nodes = Ret (30, [2; 3], [Some 2%positive]).
Proof. vm_compute. reflexivity. Qed.

(** Three processors on two nodes are written as parts on three. *)
Lemma uneven_request_overruns : planned example_nodes uneven_request two_nodes = UB.
Proof. vm_compute. reflexivity. Qed.

(** Five processors on two nodes: the job starts at 30, when four of them are free;
    the fifth is free at 90. *)
Lemma left_over_processor_not_waited_for :
  planned example_nodes (request 2 2 <| pj_usage := 5 |> <| pj_cpu_indexes := [0; 0; 0; 0; 0] |>)
    (slots_at 1 [1; 10] ++ slots_at 2 [20; 30; 90])%list
  = Ret (30, [0; 1; 2; 3; 4], [Some 1%positive; Some 2%positive]).
Proof. vm_compute. reflexivity. Qed.

(** A processor of a node that was given up stays among those of a job with
    several parts: slot 3 is of node 2, and the parts are on nodes 1 and 3; the
    third processor of node 1, slot 2, is lost. *)
Lemma processor_of_abandoned_node_stays :
  let n name := example_node name 4 ∅ None in
  planned (list_to_map [(1%positive, n "n1"); (2%positive, n "n2"); (3%positive, n "n3")]) (request 3 2)
    (slots_at 1 [1; 2; 6] ++ slots_at 2 [5; 8; 12] ++ slots_at 3 [9; 9; 9])%list
  = Ret (9, [0; 1; 3; 6; 7; 8], [Some 1%positive; Some 3%positive]).
Proof. vm_compute. reflexivity. Qed.

(** The time of a node is taken without that of its first processor, so that the
    two nodes with one processor each seem to be free at once: the job starts in
    the year 1970. *)
Lemma exclusive_job_starts_at_zero :
  let n name := example_node name 1 ∅ None in
  (let! job := choose_nodes (list_to_map [(1%positive, n "n1"); (2%positive, n "n2"); (3%positive, n "n3")])
     (slots_at 1 [100] ++ slots_at 2 [100] ++ slots_at 3 [100])%list [0; 0; 0] (request 1 1) in
   Ret (pj_start_time job)) = Ret 0.
Proof. vm_compute. reflexivity. Qed.
