(* ===== verification/PlanSched.v ===== *)
(** * Planning a cluster anew: update_sched of plan_operations.cpp

    The slots of the cluster are set up from the running jobs, the jobs are
    planned in the order of their list, and the gaps and limits are built up on
    the way.  A job that cannot be planned is removed, and the update is then
    started again. *)

From Stdlib Require Import ZArith Lia Bool Ascii String.
From S2P Require Import Prelude CString MiscHelpers Resource DataTypes Config NodeData JobInfo NodeLogic PlanData PlanList PlanValues PlanGaps PlanLimits PlanTime PlanClusters PlanSlots PlanFind PlanUpdate PlanUpdateJob.

Local Open Scope string_scope.
Open Scope Z_scope.
Local Open Scope sched_scope.

(** The schedule and the stores of the items of its lists.  The items of lists
    that are freed as a whole stay in their store; nothing points to them. *)
Record planner := mkPlanner {
  pn_nodes : gmap positive node_info;
  pn_jinfos : gmap positive JobInfo;
  pn_sched : sched;
  pn_jobs : heap plan_job;
  pn_gaps : heap plan_gap;
  pn_limits : heap plan_limit;
  pn_values : list Z;
  pn_values_global : list Z
}.

#[export] Instance planner_fields : Fields planner :=
  fields_app (fields_app (fields_app (fields_app (fields_app (fields_app (fields_app (fields_app (fields_const mkPlanner)
  pn_nodes) pn_jinfos) pn_sched) pn_jobs) pn_gaps) pn_limits) pn_values) pn_values_global.

(** What the walk over the jobs of a cluster changes, the jobs apart. *)
Record replan := mkReplan {
  rp_jinfos : gmap positive JobInfo;
  rp_slots : slots;
  rp_limits : heap plan_limit;
  rp_limit_list : plan_list;
  rp_gaps : heap plan_gap;
  rp_gap_list : plan_list;
  rp_num_queued : Z;
  rp_max_completion_time : Z;
  rp_failed : bool
}.

Section Sched.
(** The Torque library: the error code of [decode_time], and the parser of
    nodespecs. *)
Variable badval : Z.
Variable parse_nodespec : string -> option pars_spec.
Variable limits_map : gmap string (gmap Z cluster_limits_arrays).
(** What allocated gaps hold before they are filled in, and what the lists put in
    the place of null items. *)
Variable junk : plan_gap.
Variable create_job : option plan_job.
Variable create_gap : option plan_gap.
Variable create_limit : option plan_limit.

(** ** The last gap *)

(** The nodes of the cluster that are not off, with all their processors. *)
Definition online_nodes (nodes : gmap positive node_info) (cl : plan_cluster) : outcome (list plan_gap_mem) :=
  ofold (fun ms p =>
    let! n := of_option (nodes !! p) in
    Ret (if is_off n then ms
         else ms ++ [new_mem (Some p) (cores_total n) (get_node_mem n) (get_node_scratch_local n)])%list) (pc_nodes cl) [].

Definition gap_create_last (nodes : gmap positive node_info) (start_time : Z) (cluster : option plan_cluster)
  : outcome plan_gap :=
  let gap := junk <| pg_start_time := start_time |> <| pg_end_time := PlanGaps.LONG_MAX |>
    <| pg_duration := PlanGaps.LONG_MAX |> <| pg_following_job := None |> in
  match cluster with
  | None => Ret (gap <| pg_usage := 0 |> <| pg_num_nodes := 0 |> <| pg_nodes_memory := None |>)
  | Some cl =>
      let! ms := online_nodes nodes cl in
      Ret (gap <| pg_usage := pc_num_running_cpus cl |> <| pg_num_nodes := i32 (Z.of_nat (length ms)) |>
               <| pg_nodes_memory := match ms with [] => None | _ => Some ms end |>)
  end.

(** ** The walks of update_sched *)

Section Walks.
Variable nodes : gmap positive node_info.
Variable time : Z.

(** A queued job that has priority or needs GPUs is moved to the front; the
    priority 56 marks it as moved. *)
Definition raise_job (x : positive) (h : heap plan_job) (l : plan_list) (jinfos : gmap positive JobInfo)
  : outcome (heap plan_job * plan_list * gmap positive JobInfo * bool) :=
  let! job := item_at h x in
  if pj_available_after job >? time then Ret (h, l, jinfos, true)
  else
    let! p := of_option (pj_jinfo job) in
    let! j := of_option (jinfos !! p) in
    if negb (bool_decide (state j = JobQueued)) || (priority j =? 56) then Ret (h, l, jinfos, true)
    else
      let j := if strcmp (account j) "galaxyelixir" =? 0 then j <| priority := 42 |> else j in
      if (priority j =? 42) || (pj_req_gpu job >? 0) then
        let! (h, l, _) := list_move_item create_job h l (Some x) None in
        Ret (h, l, <[p := j <| priority := 56 |>]> jinfos, true)
      else Ret (h, l, <[p := j]> jinfos, true).

(** The walk starts again when a job is moved. *)
Definition raise_fuel (h : heap plan_job) : nat := (size h + 1) * (size h + 1).

Definition raise_jobs (h : heap plan_job) (l : plan_list) (jinfos : gmap positive JobInfo)
  : outcome (heap plan_job * plan_list * gmap positive JobInfo) :=
  each raise_job (raise_fuel h) h (l <| current := None |>) jinfos.

(** The gaps of the list [from] are inserted one by one. *)
Definition insert_gaps (jobs : heap plan_job) (h : heap plan_gap) (from to : plan_list)
  : outcome (heap plan_gap * plan_list) :=
  let! (h, _, to) :=
    for_each (fun x h l to =>
      let! (h, to, _) := insert_new_gap nodes jobs create_gap (S (size h)) h to None x in
      Ret (h, l, to, true)) h from to in
  Ret (h, to).

Variables limits_values limits_values_global : list Z.
Variable cluster : plan_cluster.

Definition replan_queued (x : positive) (h : heap plan_job) (l : plan_list) (job : plan_job) (st : replan)
  : outcome (heap plan_job * plan_list * replan * bool) :=
  let! (job, ss, ll, gaps, found) :=
    update_job parse_nodespec (rp_jinfos st) nodes limits_map limits_values limits_values_global cluster create_gap junk
      x job (rp_slots st) (rp_limits st) (rp_limit_list st) (rp_gaps st) in
  let queued := i32 (rp_num_queued st + 1) in
  let h := set_item h x job in
  match found with
  | None =>
      let! (h, l, _) := list_remove_item h l (Some x) true in
      Ret (h, l, mkReplan (rp_jinfos st) ss (rp_limits st) ll gaps (rp_gap_list st) queued (rp_max_completion_time st) true,
           false)
  | Some gl =>
      let! (limits, ll) := add_job_to_limits limits_map create_limit (rp_limits st) ll job cluster in
      let! (gaps, gap_list) := insert_gaps h gaps gl (rp_gap_list st) in
      let job := job <| pj_run_me := 1 |> in
      Ret (set_item h x job, l, mkReplan (rp_jinfos st) ss limits ll gaps gap_list queued
             (Z.max (rp_max_completion_time st) (pj_completion_time job)) false, true)
  end.

Definition replan_other (x : positive) (h : heap plan_job) (l : plan_list) (job : plan_job) (st : replan) (running : bool)
  : outcome (heap plan_job * plan_list * replan * bool) :=
  let! (limits, ll) :=
    if running then add_job_to_limits limits_map create_limit (rp_limits st) (rp_limit_list st) job cluster
    else Ret (rp_limits st, rp_limit_list st) in
  Ret (set_item h x (job <| pj_run_me := 0 |>), l,
       mkReplan (rp_jinfos st) (rp_slots st) limits ll (rp_gaps st) (rp_gap_list st) (rp_num_queued st)
         (Z.max (rp_max_completion_time st) (pj_completion_time job)) false, true).

(** A job is planned, or counted while it runs. *)
Definition replan_job (x : positive) (h : heap plan_job) (l : plan_list) (st : replan)
  : outcome (heap plan_job * plan_list * replan * bool) :=
  let! job := item_at h x in
  let! p := of_option (pj_jinfo job) in
  let! j := of_option (rp_jinfos st !! p) in
  let jinfos := if priority j =? 56 then <[p := j <| priority := 42 |>]> (rp_jinfos st) else rp_jinfos st in
  let st := mkReplan jinfos (rp_slots st) (rp_limits st) (rp_limit_list st) (rp_gaps st) (rp_gap_list st)
              (rp_num_queued st) (rp_max_completion_time st) false in
  if bool_decide (state j = JobQueued) then replan_queued x h l job st
  else replan_other x h l job st (bool_decide (state j = JobRunning)).

(** The gaps behind the jobs: until the last of them ends, and from then on. *)
Definition close_gaps (jobs : heap plan_job) (num_jobs : Z) (st : replan) : outcome (heap plan_gap * plan_list) :=
  let! (h, l) :=
    if num_jobs >? 0 then
      let! (h, from) := gap_create_not_the_last nodes create_gap junk (rp_slots st) (rp_max_completion_time st) (rp_gaps st) in
      insert_gaps jobs h from (rp_gap_list st)
    else Ret (rp_gaps st, rp_gap_list st) in
  let! gap := gap_create_last nodes (rp_max_completion_time st) (Some cluster) in
  let (h, c) := alloc h gap in
  let! (h, l, _) := list_add_end create_gap h l (Some c) in
  Ret (h, l).
End Walks.

(** ** update_sched *)

(** The lists and the cluster [k] of a schedule after an update. *)
Definition with_plan (s : sched) (k : nat) (cl : plan_cluster) (jobs gaps limits : plan_list) (updated : Z) : sched :=
  s <| s_clusters := <[k := cl]> (s_clusters s) |> <| s_jobs := <[k := jobs]> (s_jobs s) |>
    <| s_gaps := <[k := gaps]> (s_gaps s) |> <| s_limits := <[k := limits]> (s_limits s) |>
    <| s_updated := <[k := updated]> (s_updated s) |>.

Definition update_sched (k : nat) (time : Z) (st : planner) : outcome (planner * Z) :=
  let s := pn_sched st in
  let! cl := of_option (s_clusters s !! k) in
  let! jl := of_option (s_jobs s !! k) in
  let! updated := of_option (s_updated s !! k) in
  let! ss := first_free_slots_create (pn_nodes st) cl in
  let! (nodes, cl, ss) := first_free_slots_initialize badval parse_nodespec (pn_jinfos st) (pn_nodes st) cl ss time in
  let! (v, g) := update_limits_values limits_map (pn_values st) (pn_values_global st) cl in
  let! (jobs, jl, jinfos) := raise_jobs time (pn_jobs st) jl (pn_jinfos st) in
  let start := mkReplan jinfos ss (pn_limits st) list_create (pn_gaps st) list_create 0 time false in
  let! (jobs, jl, r) := for_each (replan_job nodes v g cl) jobs jl start in
  let cl := cl <| pc_num_queued_jobs := rp_num_queued r |> in
  if rp_failed r then
    Ret (mkPlanner nodes (rp_jinfos r) (with_plan s k cl jl (rp_gap_list r) (rp_limit_list r) updated) jobs (rp_gaps r)
           (rp_limits r) v g, 2)
  else
    let! (gaps, gl) := close_gaps nodes cl jobs (num_items jl) r in
    Ret (mkPlanner nodes (rp_jinfos r) (with_plan s k cl jl gl (rp_limit_list r) 1) jobs gaps (rp_limits r) v g, 0).

(** [while (update_sched(...) == 2);] *)
Fixpoint update_until (fuel : nat) (k : nat) (time : Z) (st : planner) : outcome planner :=
  match fuel with
  | O => UB
  | S fuel =>
      let! (st, rc) := update_sched k time st in
      if rc =? 2 then update_until fuel k time st else Ret st
  end.
End Sched.
