(* ===== verification/PlanSchedSpec.v ===== *)
(** * Planning a cluster anew ends

    An update that cannot plan a job removes it; the loop that repeats the update
    until it succeeds is therefore left after as many rounds as the cluster has
    jobs, and one. *)

From Stdlib Require Import ZArith Lia Bool Ascii String.
From S2P Require Import Prelude CString MiscHelpers Resource DataTypes Config NodeData JobInfo NodeLogic PlanData PlanList PlanValues PlanGaps PlanLimits PlanTime PlanClusters PlanSlots PlanFind PlanFindTotal PlanUpdate PlanUpdateJob PlanHuntTotal PlanSched.

Local Open Scope string_scope.
Open Scope Z_scope.
Local Open Scope sched_scope.

(** ** Walks that change the list *)

Section Walk.
Context {A S : Type}.
Variable body : positive -> heap A -> plan_list -> S -> outcome (heap A * plan_list * S * bool).
(** What holds while the walk goes on, and when its body has ended it. *)
Variables (inv fin : heap A -> plan_list -> S -> Prop).

Lemma each_inv fuel h l s h' l' s' :
  (forall h l s l', inv h l s -> list_get_next h l = Ret l' -> inv h l' s) ->
  (forall x h l s h' l' s' go, inv h l s -> current l = Some x -> body x h l s = Ret (h', l', s', go) ->
    if go : bool then inv h' l' s' else fin h' l' s') ->
  each body fuel h l s = Ret (h', l', s') -> inv h l s -> inv h' l' s' \/ fin h' l' s'.
Proof.
  intros Hnext Hbody. revert h l s. induction fuel as [|fuel IH]; intros h l s; cbn [each]; [done|].
  intros E Hi. destruct (list_get_next h l) as [l1| |] eqn:El; try done. cbn [obind] in E.
  pose proof (Hnext _ _ _ _ Hi El) as Hi1. destruct (current l1) as [x|] eqn:Ec; [|injection E as <- <- <-; by left].
  destruct (body x h l1 s) as [[[[h2 l2] s2] go]| |] eqn:Eb; try done. cbn [obind] in E.
  pose proof (Hbody _ _ _ _ _ _ _ _ Hi1 Ec Eb) as H2. destruct go; [by eapply IH|]. injection E as <- <- <-. by right.
Qed.
End Walk.

(** A list whose current item is one of its items. *)
Record at_item {A} (h : heap A) (l : plan_list) (xs : list positive) : Prop := {
  ai_lists : lists h l xs;
  ai_current : forall c, current l = Some c -> c ∈ xs
}.

Lemma at_item_start {A} (h : heap A) l xs : lists h l xs -> at_item h (l <| current := None |>) xs.
Proof. intros H. split; [by apply lists_current|done]. Qed.

Lemma at_item_next {A} (h : heap A) l xs l' : at_item h l xs -> list_get_next h l = Ret l' -> at_item h l' xs.
Proof.
  intros [Hl Hc] E. unfold list_get_next in E. destruct (current l) as [c|] eqn:Ec.
  - destruct (proj1 (list_elem_of_lookup _ _) (Hc c eq_refl)) as [i Hi].
    destruct (lists_neighbours _ _ _ _ _ Hl Hi) as (a & Ha). simpl in E. rewrite Ha in E. cbn in E. injection E as <-.
    split; [by apply lists_current|]. cbn. intros d Hd. by eapply list_elem_of_lookup_2.
  - injection E as <-. split; [by apply lists_current|]. cbn. rewrite (ls_first _ _ _ Hl). intros c Hd.
    destruct xs; simplify_eq/=. by left.
Qed.

Section Rounds.
Variable badval : Z.
Variable parse_nodespec : string -> option pars_spec.
Variable limits_map : gmap string (gmap Z cluster_limits_arrays).
Variable junk : plan_gap.
Variable create_job : option plan_job.
Variable create_gap : option plan_gap.
Variable create_limit : option plan_limit.

Abbreviation update_sched := (update_sched badval parse_nodespec limits_map junk create_job create_gap create_limit).
Abbreviation update_until := (update_until badval parse_nodespec limits_map junk create_job create_gap create_limit).

(** ** The walk that raises jobs *)

Lemma move_front_current {A} (create : option A) h l x h' l' rc :
  list_move_item create h l (Some x) None = Ret (h', l', rc) -> current l' = Some x.
Proof.
  unfold list_move_item. destruct (list_remove_item h l (Some x) false) as [[[h1 l1] r1]| |]; cbn [obind]; try done.
  cbn [list_get_first]. set (l2 := list_get_first l1). generalize (current l2) as next. intros next.
  assert (Hadd : forall next h l h' l' r, add_infrontof create h l next (Some x) = Ret (h', l', r) -> current l' = Some x).
  { clear. intros next h l h' l' r. unfold add_infrontof. cbn [new_item].
    destruct (get_predeccessor h next) as [before| |]; cbn [obind]; try done.
    match goal with |- context [obind ?e _] => destruct e as [[h1 l1]| |] end; cbn [obind]; try done.
    destruct (set_successor h1 (Some x) next) as [h2| |]; cbn [obind]; try done.
    destruct (set_predeccessor h2 (Some x) before) as [h3| |]; cbn [obind]; try done.
    destruct (set_predeccessor h3 next (Some x)) as [h4| |]; cbn [obind]; try done. by intros [= <- <- <-]. }
  destruct (list_add_infrontof create h1 l2 next (Some x)) as [[[h3 l3] r3]| |] eqn:E; cbn [obind]; try done.
  intros [= <- <- <-]. unfold list_add_infrontof in E. destruct next; [by eapply Hadd|].
  unfold list_add_begin in E. cbn [new_item] in E. destruct (num_items l2 =? 0).
  - injection E as <- <- <-. done.
  - destruct (first l2); [by eapply Hadd|done].
Qed.

Definition same_jobs (xs : list positive) (h : heap plan_job) (l : plan_list) : Prop :=
  exists ys, at_item h l ys /\ ys ≡ₚ xs.

Lemma raise_job_keeps xs time x h l jinfos h' l' jinfos' go :
  Z.of_nat (length xs) < 2 ^ 31 -> same_jobs xs h l -> current l = Some x ->
  raise_job create_job time x h l jinfos = Ret (h', l', jinfos', go) -> go = true /\ same_jobs xs h' l'.
Proof.
  intros Hsmall (ys & Hys & Hp) Hx E. unfold raise_job in E.
  destruct (item_at h x) as [job| |]; cbn [obind] in E; try done.
  destruct (_ >? _); [injection E as <- <- <- <-; split; [done|by exists ys]|].
  destruct (of_option (pj_jinfo job)) as [p| |]; cbn [obind] in E; try done.
  destruct (of_option (jinfos !! p)) as [j| |]; cbn [obind] in E; try done.
  destruct (_ || _); [injection E as <- <- <- <-; split; [done|by exists ys]|]. cbv zeta in E.
  destruct (_ || _); [|injection E as <- <- <- <-; split; [done|by exists ys]].
  destruct (list_move_item create_job h l (Some x) None) as [[[h1 l1] rc]| |] eqn:Em; cbn [obind] in E; try done.
  injection E as <- <- <- <-. split; [done|].
  pose proof (ai_current _ _ _ Hys x Hx) as Hin. apply list_elem_of_split in Hin as (xs1 & xs2 & ->).
  destruct (list_move_front_spec create_job h l xs1 x xs2 (ai_lists _ _ _ Hys)) as (h2 & l2 & E2 & Hl2 & _).
  { by rewrite (Permutation_length Hp). }
  assert (h2 = h1 /\ l2 = l1) as [-> ->] by (split; congruence).
  exists (x :: xs1 ++ xs2). split; [|by rewrite Permutation_middle]. split; [done|].
  rewrite (move_front_current _ _ _ _ _ _ _ Em). intros c [= <-]. by left.
Qed.

Lemma raise_jobs_keeps xs time h l jinfos h' l' jinfos' :
  Z.of_nat (length xs) < 2 ^ 31 -> lists h l xs -> raise_jobs create_job time h l jinfos = Ret (h', l', jinfos') ->
  exists ys, lists h' l' ys /\ ys ≡ₚ xs.
Proof.
  intros Hsmall Hl E. unfold raise_jobs in E.
  edestruct (each_inv (raise_job create_job time) (fun h l _ => same_jobs xs h l) (fun _ _ _ => False))
    as [(ys & Hys & Hp)|H]; [| |exact E| | |]; cbv beta.
  - intros h1 l1 _ l2 (ys & Hys & Hp) E1. exists ys. split; [by eapply at_item_next|done].
  - intros x h1 l1 s h2 l2 s2 go Hi Hx Eb. destruct (raise_job_keeps xs _ _ _ _ _ _ _ _ _ Hsmall Hi Hx Eb) as [-> ?]. done.
  - exists xs. split; [by apply at_item_start|done].
  - exists ys. split; [by apply ai_lists|done].
  - done.
Qed.

(** The walk starts again behind a job that it moves to the front, and moves each
    job once. *)
Definition not_raised (jobs : gmap positive plan_job) (jinfos : gmap positive JobInfo) (x : positive) : bool :=
  match jobs !! x with
  | Some job => match pj_jinfo job with
                | Some p => match jinfos !! p with Some j => negb (priority j =? 56) | None => false end
                | None => false
                end
  | None => false
  end.

Definition num_not_raised (jobs : gmap positive plan_job) (jinfos : gmap positive JobInfo) (xs : list positive) : nat :=
  length (filter (fun x => not_raised jobs jinfos x = true) xs).

(** Every job of the list is one the server reported. *)
Definition reported (jobs : gmap positive plan_job) (jinfos : gmap positive JobInfo) (xs : list positive) : Prop :=
  Forall (fun x => exists job p, jobs !! x = Some job /\ pj_jinfo job = Some p /\ is_Some (jinfos !! p)) xs.

Lemma filter_length_mono {A} (P Q : A -> Prop) `{!forall x, Decision (P x), !forall x, Decision (Q x)} xs :
  (forall x, Q x -> P x) -> (length (filter Q xs) <= length (filter P xs))%nat.
Proof.
  intros Himp. induction xs as [|x xs IH]; [done|]. rewrite !filter_cons.
  destruct (decide (Q x)), (decide (P x)); simpl; try lia. exfalso. eauto.
Qed.

Lemma not_raised_set jobs jinfos p j j' y :
  jinfos !! p = Some j -> priority j <> 56 -> not_raised jobs (<[p := j']> jinfos) y = true -> not_raised jobs jinfos y = true.
Proof.
  intros Hp Hj. unfold not_raised. destruct (jobs !! y) as [job|]; [|done]. destruct (pj_jinfo job) as [q|]; [|done].
  destruct (decide (p = q)) as [<-|]; [|by rewrite lookup_insert_ne].
  intros _. rewrite Hp. by apply negb_true_iff, Z.eqb_neq.
Qed.

Lemma reported_set jobs jinfos p j xs : reported jobs jinfos xs -> reported jobs (<[p := j]> jinfos) xs.
Proof.
  intros H. eapply Forall_impl; [exact H|]. intros x (job & q & ? & ? & ?). exists job, q. split_and!; try done.
  rewrite lookup_insert_is_Some. destruct (decide (p = q)); auto.
Qed.

Lemma num_not_raised_move jobs jinfos x job p j xs1 xs2 :
  jobs !! x = Some job -> pj_jinfo job = Some p -> jinfos !! p = Some j -> priority j <> 56 ->
  forall j', priority j' = 56 ->
  (num_not_raised jobs (<[p := j']> jinfos) (x :: xs1 ++ xs2) < num_not_raised jobs jinfos (xs1 ++ x :: xs2))%nat.
Proof.
  intros Hx Hjp Hp Hj j' Hj'. unfold num_not_raised. rewrite !filter_app, !filter_cons, !filter_app, !length_app.
  rewrite decide_False; [|unfold not_raised; rewrite Hx, Hjp, lookup_insert_eq, Hj'; done].
  rewrite decide_True; [|unfold not_raised; rewrite Hx, Hjp, Hp; by apply negb_true_iff, Z.eqb_neq].
  rewrite length_app. cbn [length].
  pose proof (fun l => filter_length_mono (fun x => not_raised jobs jinfos x = true) _ l
    (fun y => not_raised_set jobs jinfos p j j' y Hp Hj)) as Hmono.
  pose proof (Hmono xs1). pose proof (Hmono xs2). lia.
Qed.

(** One step: the job at [x] stays, or it is moved. *)
Lemma raise_job_step time xs1 x xs2 h l jinfos :
  lists h l (xs1 ++ x :: xs2) -> current l = Some x -> Z.of_nat (length (xs1 ++ x :: xs2)) < 2 ^ 31 ->
  reported (items h) jinfos (xs1 ++ x :: xs2) ->
  exists h' l' jinfos', raise_job create_job time x h l jinfos = Ret (h', l', jinfos', true) /\
    items h' = items h /\ current l' = Some x /\
    ((h' = h /\ l' = l /\ (num_not_raised (items h) jinfos' (xs1 ++ x :: xs2) <= num_not_raised (items h) jinfos (xs1 ++ x :: xs2))%nat /\
        reported (items h) jinfos' (xs1 ++ x :: xs2))
     \/ (lists h' l' (x :: xs1 ++ xs2) /\ reported (items h) jinfos' (x :: xs1 ++ xs2) /\
        (num_not_raised (items h) jinfos' (x :: xs1 ++ xs2) < num_not_raised (items h) jinfos (xs1 ++ x :: xs2))%nat)).
Proof.
  intros Hl Hc Hsmall Hr. destruct (proj1 (Forall_forall _ _) Hr x) as (job & p & Hx & Hjp & j & Hp); [set_solver|].
  unfold raise_job. rewrite (item_at_items _ _ _ Hx). cbn [obind].
  destruct (_ >? _); [exists h, l, jinfos; by split_and!; [..|left]|]. rewrite Hjp. cbn [of_option obind]. rewrite Hp. cbn [of_option obind].
  destruct (_ || _) eqn:Eq; [exists h, l, jinfos; by split_and!; [..|left]|]. cbv zeta.
  apply orb_false_elim in Eq as [_ Hj%Z.eqb_neq].
  set (j1 := if strcmp (account j) "galaxyelixir" =? 0 then j <| priority := 42 |> else j).
  destruct (_ || _).
  - destruct (list_move_front_spec create_job h l xs1 x xs2 Hl Hsmall) as (h1 & l1 & E & Hl1 & Hi & _). rewrite E. cbn [obind].
    exists h1, l1, (<[p := j1 <| priority := 56 |>]> jinfos). split_and!; try done; [by eapply move_front_current|]. right.
    split_and!; [done| |by eapply num_not_raised_move]. apply reported_set. revert Hr. unfold reported. by rewrite <- Permutation_middle.
  - exists h, l, (<[p := j1]> jinfos). split_and!; try done. left. split_and!; try done; [|by apply reported_set].
    apply filter_length_mono. intros y. by eapply not_raised_set.
Qed.

Lemma raise_walk_ends time fuel : forall ys zs h l jinfos,
  lists h l (ys ++ zs) -> current l = last ys -> Z.of_nat (length (ys ++ zs)) < 2 ^ 31 ->
  reported (items h) jinfos (ys ++ zs) ->
  (num_not_raised (items h) jinfos (ys ++ zs) * S (length (ys ++ zs)) + length zs < fuel)%nat ->
  exists r, each (raise_job create_job time) fuel h l jinfos = Ret r.
Proof.
  induction fuel as [|fuel IH]; intros ys zs h l jinfos Hl Hc Hsmall Hr Hf; [lia|]. cbn [each].
  rewrite (next_of_walk h l ys zs Hl Hc). cbn [obind]. destruct zs as [|x zs]; [by eexists|].
  change (current (l <| current := head (x :: zs) |>)) with (Some x).
  destruct (raise_job_step time ys x zs h (l <| current := Some x |>) jinfos (lists_current _ _ _ _ Hl) eq_refl Hsmall Hr)
    as (h' & l' & jinfos' & E & Hi & Hc' & [(-> & -> & Hm & Hr')|(Hl' & Hr' & Hm)]); cbn [head]; rewrite E; cbn [obind].
  - apply (IH (ys ++ [x])%list zs); rewrite <- ?(assoc_L (++)); try done; [by apply lists_current|by rewrite last_snoc|].
    cbn [app length] in *. nia.
  - apply (IH [x] (ys ++ zs)%list); rewrite ?Hi; try done; cbn [app];
      assert (Hlen : length (x :: ys ++ zs) = length (ys ++ x :: zs)) by (simpl; rewrite !length_app; simpl; lia); rewrite Hlen; [done|].
    rewrite !length_app in *. simpl in *. nia.
Qed.

(** The fuel of the walk is enough. *)
Lemma raise_jobs_ends time h l jinfos xs :
  lists h l xs -> Z.of_nat (length xs) < 2 ^ 31 -> reported (items h) jinfos xs ->
  exists r, raise_jobs create_job time h l jinfos = Ret r.
Proof.
  intros Hl Hsmall Hr. apply (raise_walk_ends time _ [] xs); try done; [by apply lists_current|]. unfold raise_fuel.
  pose proof (lists_size _ _ _ Hl). cbn [app].
  assert (num_not_raised (items h) jinfos xs <= length xs)%nat by apply length_filter. nia.
Qed.

(** ** The walk that plans jobs *)

(** The walk is left when a job is removed. *)
Definition one_removed (xs : list positive) (h : heap plan_job) (l : plan_list) (st : replan) : Prop :=
  rp_failed st = true /\ exists ys, lists h l ys /\ S (length ys) = length xs.

Definition none_removed (xs : list positive) (h : heap plan_job) (l : plan_list) (st : replan) : Prop :=
  rp_failed st = false /\ at_item h l xs.

Lemma at_item_set {A} (h : heap A) l xs x a : at_item h l xs -> at_item (set_item h x a) l xs.
Proof. intros [Hl Hc]. split; [by apply lists_set_item|done]. Qed.

Section Replan.
Variable nodes : gmap positive node_info.
Variables v g : list Z.
Variable cl : plan_cluster.

Lemma replan_queued_keeps xs x h l job st h' l' st' go :
  Z.of_nat (length xs) < 2 ^ 31 -> at_item h l xs -> current l = Some x ->
  replan_queued parse_nodespec limits_map junk create_gap create_limit nodes v g cl x h l job st = Ret (h', l', st', go) ->
  if go : bool then none_removed xs h' l' st' else one_removed xs h' l' st'.
Proof.
  intros Hsmall Hi Hx E. unfold replan_queued in E.
  destruct (update_job _ _ _ _ _ _ _ _ _ _ _ _ _ _ _) as [[[[[job1 ss] ll] gaps] [gl|]]| |]; cbn [obind] in E; try done.
  - destruct (add_job_to_limits _ _ _ _ _ _) as [[limits ll2]| |]; cbn [obind] in E; try done.
    destruct (insert_gaps _ _ _ _ _ _) as [[gaps2 gl2]| |]; cbn [obind] in E; try done.
    injection E as <- <- <- <-. split; [done|]. by do 2 apply at_item_set.
  - destruct (list_remove_item _ _ _ _) as [[[h1 l1] rc]| |] eqn:Er; cbn [obind] in E; try done.
    injection E as <- <- <- <-. split; [done|].
    pose proof (ai_current _ _ _ Hi x Hx) as Hin. apply list_elem_of_split in Hin as (xs1 & xs2 & ->).
    destruct (list_remove_item_spec (set_item h x job1) l xs1 x xs2 true) as (h2 & l2 & E2 & Hl2 & _);
      [by apply lists_set_item, ai_lists|done|].
    assert (h2 = h1 /\ l2 = l1) as [-> ->] by (split; congruence).
    exists (xs1 ++ xs2)%list. split; [done|]. rewrite !length_app. simpl. lia.
Qed.

Lemma replan_job_keeps xs x h l st h' l' st' go :
  Z.of_nat (length xs) < 2 ^ 31 -> none_removed xs h l st -> current l = Some x ->
  replan_job parse_nodespec limits_map junk create_gap create_limit nodes v g cl x h l st = Ret (h', l', st', go) ->
  if go : bool then none_removed xs h' l' st' else one_removed xs h' l' st'.
Proof.
  intros Hsmall [_ Hi] Hx E. unfold replan_job in E.
  destruct (item_at h x) as [job| |]; cbn [obind] in E; try done.
  destruct (of_option (pj_jinfo job)) as [p| |]; cbn [obind] in E; try done.
  destruct (of_option (rp_jinfos st !! p)) as [j| |]; cbn [obind] in E; try done.
  destruct (bool_decide (state j = JobQueued)); [by eapply replan_queued_keeps|].
  unfold replan_other in E. match type of E with obind ?e _ = _ => destruct e as [[limits ll]| |] end; cbn [obind] in E; try done.
  injection E as <- <- <- <-. split; [done|]. by apply at_item_set.
Qed.
End Replan.

(** ** update_sched *)

(** The jobs of cluster [k]. *)
Definition plans (st : planner) (k : nat) (xs : list positive) : Prop :=
  exists jl, s_jobs (pn_sched st) !! k = Some jl /\ lists (pn_jobs st) jl xs.

Lemma update_sched_result k time st st' rc xs :
  plans st k xs -> Z.of_nat (length xs) < 2 ^ 31 -> update_sched k time st = Ret (st', rc) ->
  (rc = 0 /\ exists ys, plans st' k ys /\ ys ≡ₚ xs) \/ (rc = 2 /\ exists ys, plans st' k ys /\ S (length ys) = length xs).
Proof.
  intros (jl & Hjl & Hl) Hsmall E. unfold PlanSched.update_sched in E.
  destruct (of_option (s_clusters _ !! k)) as [cl| |]; cbn [obind] in E; try done.
  rewrite Hjl in E. cbn [of_option obind] in E.
  destruct (of_option (s_updated _ !! k)) as [updated| |]; cbn [obind] in E; try done.
  destruct (first_free_slots_create _ _) as [ss| |]; cbn [obind] in E; try done.
  destruct (first_free_slots_initialize _ _ _ _ _ _ _) as [[[nodes cl'] ss']| |]; cbn [obind] in E; try done.
  destruct (update_limits_values _ _ _ _) as [[v g]| |]; cbn [obind] in E; try done.
  destruct (raise_jobs _ _ _ _ _) as [[[jobs jl1] jinfos]| |] eqn:Er; cbn [obind] in E; try done.
  destruct (raise_jobs_keeps xs _ _ _ _ _ _ _ Hsmall Hl Er) as (ys & Hys & Hp).
  destruct (for_each _ _ _ _) as [[[jobs2 jl2] r]| |] eqn:Ef; cbn [obind] in E; try done.
  assert (Hk : (k < length (s_jobs (pn_sched st)))%nat) by (by eapply lookup_lt_Some).
  edestruct (each_inv (replan_job parse_nodespec limits_map junk create_gap create_limit nodes v g cl') (none_removed ys) (one_removed ys))
    as [[Hf Hj]|(Hf & zs & Hzs & Hlen)]; [| |exact Ef| | |].
  - intros h1 l1 s l2 [H1 H2] E1. split; [done|]. by eapply at_item_next.
  - intros x h1 l1 s h2 l2 s2 go Hi Hx Eb. eapply replan_job_keeps; [|done..]. by rewrite (Permutation_length Hp).
  - split; [done|]. by apply at_item_start.
  - left. rewrite Hf in E. destruct (close_gaps _ _ _ _ _ _ _) as [[gaps gl]| |]; cbn [obind] in E; try done.
    injection E as <- <-. split; [done|]. exists ys. split; [|done]. exists jl2. cbn -[insert]. rewrite list_lookup_insert_eq by done.
    split; [done|by apply ai_lists].
  - right. rewrite Hf in E. injection E as <- <-. split; [done|]. exists zs. split; [|by rewrite <- (Permutation_length Hp)].
    exists jl2. cbn -[insert]. by rewrite list_lookup_insert_eq by done.
Qed.

(** ** The loop *)

(** The states between the updates, each of which removed a job. *)
Inductive rounds (k : nat) (time : Z) (st : planner) : planner -> Prop :=
| rounds_none : rounds k time st st
| rounds_more st1 st2 : rounds k time st st1 -> update_sched k time st1 = Ret (st2, 2) -> rounds k time st st2.

Lemma rounds_first k time st st1 st2 :
  update_sched k time st = Ret (st1, 2) -> rounds k time st1 st2 -> rounds k time st st2.
Proof.
  intros E H. induction H as [|st3 st4 H IH E']; [|by eapply rounds_more].
  eapply rounds_more; [apply rounds_none|done].
Qed.

(** What the loop comes to: an update that succeeds, or one that does not end
    well; there are at most as many rounds as jobs, and one. *)
Lemma update_until_rounds k time n st xs fuel :
  plans st k xs -> Z.of_nat (length xs) < 2 ^ 31 -> length xs = n -> (n < fuel)%nat ->
  exists st1, rounds k time st st1 /\
    ((exists st2 ys, update_sched k time st1 = Ret (st2, 0) /\ update_until fuel k time st = Ret st2 /\
        plans st2 k ys /\ (length ys <= length xs)%nat)
     \/ (forall r, update_sched k time st1 <> Ret r)).
Proof.
  revert st xs fuel. induction n as [n IH] using lt_wf_ind. intros st xs fuel Hp Hsmall Hn Hf.
  destruct fuel as [|fuel]; [lia|]. cbn [PlanSched.update_until].
  destruct (update_sched k time st) as [[st' rc]| |] eqn:E.
  - destruct (update_sched_result _ _ _ _ _ _ Hp Hsmall E) as [[-> (ys & Hys & Hperm)]|[-> (ys & Hys & Hlen)]]; cbn [obind].
    + exists st. split; [apply rounds_none|]. left. exists st', ys. split_and!; try done. by rewrite (Permutation_length Hperm).
    + destruct (IH (length ys) ltac:(lia) st' ys fuel Hys ltac:(lia) eq_refl ltac:(lia)) as (st1 & Hr & H).
      exists st1. split; [by eapply rounds_first|]. destruct H as [(st2 & zs & ? & ? & ? & ?)|H]; [left|by right].
      exists st2, zs. split_and!; try done. lia.
  - exists st. split; [apply rounds_none|]. right. intros r. congruence.
  - exists st. split; [apply rounds_none|]. right. intros r. congruence.
Qed.
End Rounds.

(** C18: The loop of [World::plan_run] that repeats [update_sched] while it answers 2
    is left, unless an update comes upon undefined behaviour: each update that
    fails has removed exactly one job of the cluster, so that with a turn for each
    job and one more some update succeeds, and the loop returns its schedule, in
    which the cluster has at most the jobs it had.  The states between the updates
    are the ones that the failed updates leave behind. *)
Theorem repeated_updates_end badval parse_nodespec limits_map junk create_job create_gap create_limit k time st xs :
  plans st k xs -> Z.of_nat (length xs) < 2 ^ 31 ->
  exists st1, rounds badval parse_nodespec limits_map junk create_job create_gap create_limit k time st st1 /\
    ((exists st2 ys,
        update_sched badval parse_nodespec limits_map junk create_job create_gap create_limit k time st1 = Ret (st2, 0) /\
        update_until badval parse_nodespec limits_map junk create_job create_gap create_limit (S (length xs)) k time st
          = Ret st2 /\
        plans st2 k ys /\ (length ys <= length xs)%nat)
     \/ (forall r, update_sched badval parse_nodespec limits_map junk create_job create_gap create_limit k time st1 <> Ret r)).
Proof. intros Hp Hsmall. apply (update_until_rounds _ _ _ _ _ _ _ k time (length xs) st xs); [done|done|done|lia]. Qed.

(** ** Example *)

(** Two nodes with memory; the first of two jobs asks for more nodes than there
    are. *)
Definition stock (name : string) : Resource := set_capacity (new_Resource name) "1gb".
Definition equipped (n : node_info) : node_info :=
  n <| data := (data n) <| p_resc := {[ "mem" := stock "mem"; "scratch_local" := stock "scratch_local" ]} |> |>.
Definition queued_job (name : string) : JobInfo := new_JobInfo name <| state := JobQueued |> <| account := "alice" |>.
Definition demand (jinfo : positive) (ppn parts : Z) : plan_job := request ppn parts <| pj_jinfo := Some jinfo |>.
Definition two_jobs : heap plan_job := list_to_map
  [(1%positive, mkCell (demand 1 3 5) (Some 2%positive) None); (2%positive, mkCell (demand 2 2 2) None (Some 1%positive))].
Definition example_planner : planner :=
  mkPlanner (equipped <$> example_nodes) (list_to_map [(1%positive, queued_job "7.srv"); (2%positive, queued_job "8.srv")])
    (mkSched 1 [mkCluster None 0 ∅ None 2 [1%positive; 2%positive] ["n1"; "n2"] 12 12 0 0]
       [mkList 2 (Some 1%positive) (Some 2%positive) None] [list_create] [list_create] [0]) two_jobs ∅ ∅ [] [].
Definition example_junk : plan_gap := mkPlanGap 0 0 0 0 0 None None.

Lemma repeated_updates_end_witness :
  (let! st := update_until 0 example_parser example_full_table example_junk None None None 3 0 100 example_planner in
   Ret (s_jobs (pn_sched st))) = Ret [mkList 1 (Some 2%positive) (Some 2%positive) None] /\
  exists st1, rounds 0 example_parser example_full_table example_junk None None None 0 100 example_planner st1 /\
    ((exists st2 ys,
        update_sched 0 example_parser example_full_table example_junk None None None 0 100 st1 = Ret (st2, 0) /\
        update_until 0 example_parser example_full_table example_junk None None None 3 0 100 example_planner = Ret st2 /\
        plans st2 0 ys /\ (length ys <= 2)%nat)
     \/ (forall r, update_sched 0 example_parser example_full_table example_junk None None None 0 100 st1 <> Ret r)).
Proof.
  split; [vm_compute; reflexivity|].
  apply (repeated_updates_end 0 example_parser example_full_table example_junk None None None 0 100 example_planner
    [1%positive; 2%positive]); [|reflexivity].
  exists (mkList 2 (Some 1%positive) (Some 2%positive) None). split; [reflexivity|].
  split; [apply (bool_decide_unpack _); vm_compute; exact I| |reflexivity|reflexivity|reflexivity].
  repeat split; eexists; reflexivity.
Defined.
