(* ===== verification/JobUpdate.v ===== *)
(** * What the server is told about jobs: job_info.cpp and queue_info.cpp

    Comments, planned starts and nodes are attributes of the jobs on the server,
    which [pbs_alterjob] of the Torque library changes.  The requests are the
    output of the functions; the copies that the jobs keep of the attributes
    decide whether one is made.  The reasons why a job was not started are put
    into words for the comment and for the log. *)

From Stdlib Require Import ZArith Lia Bool Ascii String SpecFloat.
From S2P Require Import Prelude CString CFloat MiscHelpers DataTypes Config JobInfo PlanData.

Local Open Scope string_scope.
Open Scope Z_scope.
Local Open Scope sched_scope.

(** ** Requests to the server *)

(** A call of [pbs_alterjob] with one attribute, which is set or unset. *)
Record alter_request := mkAlter { al_job : string; al_attr : string; al_value : string; al_set : bool }.

Definition ATTR_comment : string := "comment".
Definition ATTR_planned_start : string := "planned_start".
Definition ATTR_planned_nodes : string := "planned_nodes".
Definition ATTR_waiting_for : string := "waiting_for_jobs".
Definition ATTR_fairshare_cost : string := "fairshare_cost".

Definition set_request (j : JobInfo) (attr value : string) : alter_request := mkAlter (job_id j) attr value true.

(** No caller passes a null job.  The results are what the functions return. *)
Definition update_job_comment (j : JobInfo) (msg : string) : JobInfo * list alter_request * Z :=
  if String.eqb (comment j) msg then (j, [], 1)
  else (j <| comment := msg |>, [set_request j ATTR_comment msg], 0).

Section Alter.
(** The answer of [pbs_alterjob]. *)
Variable pbs_alterjob : alter_request -> Z.

Definition update_job_planned_nodes (j : JobInfo) (nodes : string) : list alter_request * Z :=
  if String.eqb (planned_nodes j) nodes then ([], 0)
  else let r := set_request j ATTR_planned_nodes nodes in ([r], pbs_alterjob r).

Definition update_job_waiting_for (j : JobInfo) (waiting : string) : list alter_request * Z :=
  if String.eqb (waiting_for j) waiting then ([], 0)
  else let r := set_request j ATTR_waiting_for waiting in ([r], pbs_alterjob r).

Definition update_job_earliest_start (j : JobInfo) (earliest_start : Z) : list alter_request * Z :=
  if planned_start j =? earliest_start then ([], 0)
  else let r := set_request j ATTR_planned_start (dec earliest_start) in ([r], pbs_alterjob r).
End Alter.

(** A start before the year 2000 means that none is planned. *)
Definition update_job_planned_start (j : JobInfo) (job : plan_job) : JobInfo * list alter_request * Z :=
  let start := pj_start_time job in
  if planned_start j =? start then (j, [], 1)
  else
    (j <| planned_start := start |>,
     [if start >? 946681200 then set_request j ATTR_planned_start (dec start)
      else mkAlter (job_id j) ATTR_planned_start (dec 0) false], 0).

(** [%.3f]: the exact value, rounded to three digits; ties go to the even one. *)
Definition thousandths (m : positive) (e : Z) : Z :=
  if e >=? 0 then Zpos m * 2 ^ e * 1000
  else
    let d := 2 ^ (- e) in
    let q := Zpos m * 1000 / d in
    let r := Zpos m * 1000 mod d in
    if 2 * r <? d then q else if 2 * r >? d then q + 1 else if Z.even q then q else q + 1.

Definition three_digits (z : Z) : string := dec (z / 100) ++ dec (z / 10 mod 10) ++ dec (z mod 10).

Definition print_3f (x : spec_float) : string :=
  let sign (s : bool) := if s then "-" else "" in
  match x with
  | S754_zero s => sign s ++ "0.000"
  | S754_infinity s => sign s ++ "inf"
  | S754_nan => "nan"
  | S754_finite s m e =>
      let t := thousandths m e in sign s ++ dec (t / 1000) ++ "." ++ three_digits (t mod 1000)
  end.

(** The number is printed to an array of 80 characters. *)
Definition update_job_fairshare (j : JobInfo) (fairshare : spec_float) : outcome (list alter_request * Z) :=
  let value := print_3f fairshare in
  if strlen value <? 80 then Ret ([set_request j ATTR_fairshare_cost value], 0) else UB.

(** ** Jobs that cannot run *)

Inductive start_where := START_BEFORE_JOB | START_WITH_JOB | START_AFTER_JOB.

Fixpoint job_position (jinfo_arr : list positive) (start : positive) : nat :=
  match jinfo_arr with
  | [] => O
  | p :: jinfo_arr => if bool_decide (p = start) then O else S (job_position jinfo_arr start)
  end.

(** Where the jobs to update begin: before the first one is past the end, as the
    index is unsigned. *)
Definition first_updated (jinfo_arr : list positive) (start : option positive) (place : start_where) : nat :=
  let i := match start with Some p => job_position jinfo_arr p | None => O end in
  let size := length jinfo_arr in
  if (i <? size)%nat then
    match place with
    | START_BEFORE_JOB => match i with O => size | S i => i end
    | START_WITH_JOB => i
    | START_AFTER_JOB => S i
    end
  else size.

Definition job_cant_run (msg : string) (st : gmap positive JobInfo * list alter_request) (p : positive)
  : outcome (gmap positive JobInfo * list alter_request) :=
  let (jinfos, requests) := st in
  let! j := of_option (jinfos !! p) in
  let '(j, rs, _) := update_job_comment (j <| can_not_run := true |>) msg in
  Ret (<[p := j]> jinfos, (requests ++ rs)%list).

Definition update_jobs_cant_run (jinfos : gmap positive JobInfo) (jinfo_arr : list positive) (start : option positive)
    (msg : string) (place : start_where) : outcome (gmap positive JobInfo * list alter_request) :=
  ofold (job_cant_run msg) (drop (first_updated jinfo_arr start place) jinfo_arr) (jinfos, []).

(** ** Reasons *)

(** The comment and the log message of a code; [JOB_STARVING] names the starving
    job in the log. *)
Definition job_fail_messages : list (Z * (string * string)) := [
  (QUEUE_JOB_LIMIT_REACHED, ("Not Running: Queue job limit has been reached.",
     "Queue job limit reached"));
  (SERVER_JOB_LIMIT_REACHED, ("Not Running: Server job limit has been reached.",
     "Server job limit reached"));
  (SERVER_USER_LIMIT_REACHED, ("Not Running: User has reached server running job limit.",
     "Server user limit reached"));
  (QUEUE_USER_LIMIT_REACHED, ("Not Running: User has reached queue running job limit.",
     "Queue user limit reached"));
  (QUEUE_GROUP_LIMIT_REACHED, ("Not Running: Group has reached queue running limit.",
     "Queue group limit reached"));
  (SERVER_GROUP_LIMIT_REACHED, ("Not Running: Group has reached server running limit.",
     "Server group limit reached"));
  (CROSS_DED_TIME_BOUNDRY, ("Not Running: Job would cross dedicated time boundry",
     "Job would not finish before dedicated time"));
  (NO_AVAILABLE_NODE, ("Not Running: All timesharing nodes are too loaded to run job",
     "No available node to run job"));
  (NOT_ENOUGH_NODES_AVAIL, ("Not Running: Not enough of the right type of nodes are available",
     "Not enough of the right type of nodes available"));
  (SCHD_ERROR, ("Not Running: An internal scheduling error has occured",
     "Internal Scheduling Error"));
  (SERVER_TOKEN_UTILIZATION, ("Not Running: Max token usage reached",
     "Max token usage reached"));
  (JOB_FAILED_MOVE, ("Not Moving: Job couldn't be assigned to any server",
     "Job couldn't be assigned to any server"));
  (NODESPEC_NOT_ENOUGH_NODES_TOTAL, ("Not Running: Not enough nodes fitting the nodespec found",
     "Not enough nodes fitting the nodespec found"));
  (NODESPEC_NOT_ENOUGH_NODES_INTERSECT, ("Not Running: Not enough nodes fitting the nodespec available",
     "Not enough nodes fitting the nodespec available"));
  (CLUSTER_RUNNING, ("Not Running: Cluster with the same name already running",
     "Cluster with the same name already running"));
  (CLUSTER_PERMISSIONS, ("Not Running: Job owner does not have permission to run jobs inside the cluster",
     "Job owner does not have permission to run jobs inside the cluster"));
  (INSUFICIENT_SERVER_RESOURCE, ("Not Running: Resource request couldn't be satisfied using server resources.",
     "Resource request couldn't be satisfied using server resources."));
  (INSUFICIENT_QUEUE_RESOURCE, ("Not Running: Resource request couldn't be satisfied using queue resources.",
     "Resource request couldn't be satisfied using queue resources."));
  (INSUFICIENT_DYNAMIC_RESOURCE, ("Not Running: Dynamic resource request couldn't be satisfied.",
     "Dynamic resource request couldn't be satisfied."));
  (NODE_STILL_BOOTING, ("Not Running: One of desired nodes is still booting.",
     "One of desired nodes is still booting."));
  (QUEUE_PROC_LIMIT_REACHED, ("Not Running: Queue has reached occupied processors limit.",
     "Queue has reached occupied processors limit."));
  (QUEUE_USER_PROC_LIMIT_REACHED, ("Not Running: User has reached queue occupied processors limit.",
     "User has reached queue occupied processors limit."));
  (QUEUE_GROUP_PROC_LIMIT_REACHED, ("Not Running: Group has reached queue occupied processor limit.",
     "Group has reached queue occupied processor limit."));
  (REQUEST_NOT_MATCHED, ("Never Running: This jobs requirements will never be satisfied under the current grid configuration.",
     "This jobs requirements will never be satisfied under the current grid configuration."));
  (SCHEDULER_LOOP_RUN_LIMIT_REACHED, ("Not Running: Internal scheduler limit for job executions of a single user reached.",
     "Internal scheduler limit for job executions of a single user reached."));
  (UNKNOWN_LOCATION_PROPERTY_REQUEST, ("Not Running: Unknown location property request.",
     "Unknown location property request."));
  (JOB_SCHEDULED, ("Not Running: Job has received an allocation of nodes, waiting for running jobs to end.",
     "Job has received an allocation of nodes, waiting for running jobs to end."))].

Fixpoint message_of (messages : list (Z * (string * string))) (fail_code : Z) : option (string * string) :=
  match messages with
  | [] => None
  | (code, m) :: messages => if fail_code =? code then Some m else message_of messages fail_code
  end.

(** [starving_job] is the identifier of [cstat.starving_job]. *)
Definition translate_job_fail_code (starving_job : option string) (fail_code : Z) : outcome (string * string * Z) :=
  if fail_code <? 1000 then Throw "Unexpected code path."
  else if fail_code =? JOB_STARVING then
    let! id := of_option starving_job in
    Ret ("Not Running: Draining system to allow starving job to run", "Draining system to allow " ++ id ++ " to run", 1)
  else
    match message_of job_fail_messages fail_code with
    | Some (msg, log) => Ret (msg, log, 1)
    | None => Ret ("", "", 0)
    end.

Definition queue_fail_messages : list (Z * (string * string)) := [
  (QUEUE_NOT_STARTED, ("Not Running: Queue not started.", "Queue not started"));
  (QUEUE_NOT_EXEC, ("Not Running: Queue not an execution queue.", "Queue not an execution queue"));
  (DED_TIME, ("Not Running: Dedicated time conflict", "Dedicated Time"));
  (QUEUE_REMOTE_LOCAL, ("Not Runnning: Queue is local and remote", "Queue is local and remote"));
  (QUEUE_IGNORED, ("Not Running: Queue is configured to be ignored", "Queue is configured to be ignored"))].

(** The log message stays as it was, uninitialised, for another code. *)
Definition translate_queue_fail_code (fail_code : Z) : string * option string :=
  match message_of queue_fail_messages fail_code with
  | Some (msg, log) => (msg, Some log)
  | None => ("", None)
  end.
