(* ===== verification/PlanNodespec.v ===== *)
(** * The nodespec of a planned job: plan_jobs.cpp

    A job is run with a nodespec that names the nodes of its plan, with the
    processors and the memory of all its parts there.  It is made from the
    nodespec that the user gave, of which the properties with a caret are left
    out.  The pointers into the nodespec are the strings that start there. *)

From Stdlib Require Import ZArith Lia Bool Ascii String.
From S2P Require Import Prelude CString MiscHelpers Resource DataTypes NodeData JobInfo NodeLogic Check PlanData PlanClusters PlanFind.

Local Open Scope string_scope.
Open Scope Z_scope.
Local Open Scope sched_scope.

(** ** Strings *)

(** What is before the first occurrence of [sub], and what is from it on. *)
Fixpoint split_sub (sub s : string) : option (string * string) :=
  if String.prefix sub s then Some ("", s)
  else match s with
       | EmptyString => None
       | String c t => match split_sub sub t with Some (a, b) => Some (String c a, b) | None => None end
       end.

(** The search goes on behind the place of the removal. *)
Fixpoint remove_from (fuel : nat) (s toremove : string) : string :=
  match fuel with
  | O => s
  | S fuel =>
      match split_sub toremove s with
      | None => s
      | Some (a, b) => a ++ remove_from fuel (drop_chars (String.length toremove) b) toremove
      end
  end.

Definition remove_substring (s toremove : string) : string := remove_from (S (String.length s)) s toremove.

Definition is_separator (c : ascii) : bool := (c =c ",") || (c =c ":") || (c =c " ").

(** Up to the first separator, which is included. *)
Fixpoint upto_separator (s : string) : option string :=
  match s with
  | EmptyString => None
  | String c t => if is_separator c then Some (String c "") else String c <$> upto_separator t
  end.

(** What is removed for the caret in front of [b]; [before] is the character in
    front of the caret. *)
Definition caret_text (before : ascii) (b : string) : string :=
  match upto_separator b with Some text => text | None => String before b end.

Fixpoint last_char (d : ascii) (s : string) : ascii :=
  match s with EmptyString => d | String c t => last_char c t end.

(** The properties with a caret are removed; in front of the string is a colon. *)
Fixpoint remove_carets (fuel : nat) (s : string) : outcome string :=
  match fuel with
  | O => endless
  | S fuel =>
      match split_at s "^" with
      | (_, None) => Ret s
      | (a, Some t) => remove_carets fuel (remove_substring s (caret_text (last_char ":" a) (String "^" t)))
      end
  end.

(** Removing shortens the string; this fuel is used up only by a loop that goes on
    for ever. *)
Definition caret_fuel (s : string) : nat := S (String.length s).

Fixpoint skip_digits (s : string) : string :=
  match s with String c t => if isdigit c then skip_digits t else s | EmptyString => EmptyString end.

(** The number behind the first [mem=] is multiplied; the string is allocated with
    two characters more.  The array that [sprintf] prints to is also its argument,
    which is read before it is overwritten. *)
Definition multip_numbers (a : Z) (b : string) : outcome string :=
  match split_sub "mem=" b with
  | None => UB
  | Some (before, s) =>
      let number := drop_chars 4 s in
      let new_num := i64 (fst (strtol10 number) * a) in
      let res := before ++ "mem=" ++ dec new_num ++ skip_digits number in
      if strlen res <=? strlen b + 2 then Ret res else UB
  end.

(** ** The request without the numbers of nodes and processors *)

Definition behind_colon (s : string) : outcome string :=
  match split_at s ":" with (_, Some t) => Ret t | (_, None) => UB end.

(** The second colon is searched from the second character on. *)
Definition skip_ppn (s : string) : outcome string :=
  if strstr s "ppn=" then behind_colon (drop_chars 1 s) else Ret s.

(** The last five characters are looked at, wherever they begin. *)
Definition split_excl (whole s : string) : outcome (string * bool) :=
  if strlen whole <? 5 then UB
  else
    let n := (String.length s - 5)%nat in
    if (5 <=? strlen s) && (strcmp (drop_chars n s) "#excl" =? 0) then Ret (substring 0 n s, true) else Ret (s, false).

(** What stays of the nodespec, and whether it asked for whole nodes. *)
Definition cleaned_request (nodespec : string) : outcome (string * bool) :=
  let! s := behind_colon nodespec in
  let! s := skip_ppn s in
  let! (s, is_excl) := split_excl nodespec s in
  let! s := remove_carets (caret_fuel s) s in
  Ret (s, is_excl).

(** ** job_create_nodespec *)

(** The text for one node; [room] is the length of the array it is printed to, of
    which [used] characters are in use. *)
Definition node_text (name : string) (cpus : Z) (request : string) : string :=
  "host=" ++ name ++ ":ppn=" ++ dec cpus ++ ":" ++ request.

Definition print_into (used : string) (room : Z) (text : string) : outcome string :=
  let res := used ++ text in
  if strlen res <? room then Ret res else UB.

(** The variables of the loop over the parts. *)
Record nodespec_state := mkNs { ns_planned_node : option positive; ns_num_ppn : Z; ns_spec : option string }.

Section Nodespec.
Variable parse_nodespec : string -> option pars_spec.
Variable nodes : gmap positive node_info.
Variable req_ppn : Z.
(** The request of one part. *)
Variable request : string.

(** The parts on the node [p] are added to the nodespec. *)
Definition add_node_spec (p : positive) (num_ppn : Z) (spec : option string) : outcome string :=
  let! n := of_option (nodes !! p) in
  let! multi := multip_numbers num_ppn request in
  let text := node_text (node_name n) (i32 (num_ppn * req_ppn)) multi in
  match spec with
  | None => print_into "" (strlen request + 50) text
  | Some spec => print_into spec (strlen spec + strlen request + 50) ("+" ++ text)
  end.

Definition nodespec_step (st : nodespec_state) (p : option positive) : outcome nodespec_state :=
  let num_ppn := if bool_decide (ns_planned_node st = p) then i32 (ns_num_ppn st + 1) else ns_num_ppn st in
  let! st :=
    match ns_planned_node st with
    | Some q =>
        if bool_decide (ns_planned_node st = p) then Ret (mkNs (Some q) num_ppn (ns_spec st))
        else let! spec := add_node_spec q num_ppn (ns_spec st) in Ret (mkNs p 1 (Some spec))
    | None => Ret (mkNs None num_ppn (ns_spec st))
    end in
  Ret (match ns_planned_node st with None => mkNs p (ns_num_ppn st) (ns_spec st) | Some _ => st end).

Definition nodespec_loop (parts : list (option positive)) : outcome nodespec_state :=
  ofold nodespec_step parts (mkNs None 1 None).

(** Each node stays once, the others become null; the first components are those
    found so far. *)
Fixpoint distinct_nodes (found parts : list (option positive)) : list (option positive) * nat :=
  match parts with
  | [] => (found, length found)
  | p :: parts => distinct_nodes (if bool_decide (p ∈ found) then found else found ++ [p])%list parts
  end.
End Nodespec.

(** The array of the nodes after the loop. *)
Definition packed_nodes (n : nat) (arr : list (option positive)) : list (option positive) * nat :=
  let (found, count) := distinct_nodes [] (take n arr) in
  ((found ++ replicate (n - count) None ++ drop n arr)%list, count).

Section Create.
Variable parse_nodespec : string -> option pars_spec.
Variable nodes : gmap positive node_info.

(** [jinfo->is_exclusive()] keeps the parsed nodespec. *)
Definition exclusive_job (j : JobInfo) : outcome (JobInfo * bool) :=
  match p_parsed_nodespec j with
  | Some spec => Ret (j, spec_exclusive spec)
  | None => let! spec := of_option (parse_nodespec (nodespec j)) in Ret (j <| p_parsed_nodespec := Some spec |>, spec_exclusive spec)
  end.

(** The text in front of the request, which the removals leave alone. *)
Definition nodespec_front (nodespec : string) : outcome string :=
  let! s := behind_colon nodespec in
  let! s := skip_ppn s in
  Ret (substring 0 (String.length nodespec - String.length s) nodespec).

(** The nodespec of the job is overwritten in place, and replaced when nodes are
    planned.  The answer is the number of nodes. *)
Definition job_create_nodespec (job : plan_job) (j : JobInfo) : outcome (plan_job * JobInfo * Z) :=
  let! front := nodespec_front (nodespec j) in
  let! (request, is_excl) := cleaned_request (nodespec j) in
  let j := j <| nodespec := front ++ request |> in
  let n := Z.to_nat (pj_req_num_nodes job) in
  let! parts := if pj_req_num_nodes job <=? 0 then Ret [] else
                  if decide (n <= length (pj_ninfo_arr job))%nat then Ret (take n (pj_ninfo_arr job)) else UB in
  let! st := nodespec_loop nodes (pj_req_ppn job) request parts in
  match ns_planned_node st with
  | None => Ret (job <| pj_sch_nodespec := ns_spec st |>, j, 0)
  | Some p =>
      let! spec := add_node_spec nodes (pj_req_ppn job) request p (ns_num_ppn st) (ns_spec st) in
      let (arr, count) := packed_nodes n (pj_ninfo_arr job) in
      let! (j, excl) := if is_excl : bool then Ret (j, true) else exclusive_job j in
      let spec := if excl : bool then spec ++ "#excl" else spec in
      Ret (job <| pj_ninfo_arr := arr |> <| pj_sch_nodespec := None |>, j <| nodespec := spec |>, Z.of_nat count)
  end.
End Create.
