(* ===== verification/PlanNodespecSpec.v ===== *)
(** * Which nodespec a job is run with

    The properties with a caret are dropped, the others stay; the nodespec then
    names the nodes of the plan in their order, each with the processors and the
    memory of all the parts that follow each other there. *)

From Stdlib Require Import ZArith Lia Bool Ascii String Sorted.
From S2P Require Import Prelude CString MiscHelpers Resource DataTypes NodeData JobInfo NodeLogic Check PlanData PlanTime PlanClusters PlanFind PlanNodespec.

Local Open Scope string_scope.
Open Scope Z_scope.
Local Open Scope sched_scope.

(** ** Numbers *)

Lemma dec_digits_app fuel z acc : dec_digits fuel z acc = dec_digits fuel z "" ++ acc.
Proof.
  revert z acc. induction fuel as [|fuel IH]; intros z acc; simpl; [done|]. destruct (z <? 10); [done|].
  rewrite IH, (IH _ (String _ "")). by rewrite string_app_assoc.
Qed.

Lemma dec_digits_length fuel n z : 0 <= z < 10 ^ Z.of_nat (S n) -> (String.length (dec_digits fuel z "") <= S n)%nat.
Proof.
  revert fuel z. induction n as [|n IH]; intros [|fuel] z Hz; simpl; try lia.
  - rewrite (proj2 (Z.ltb_lt z 10)) by (simpl in Hz; lia). done.
  - destruct (z <? 10); simpl; [lia|]. rewrite dec_digits_app, strlength_app. simpl.
    assert (String.length (dec_digits fuel (z / 10) "") <= S n)%nat; [|lia]. apply IH.
    rewrite Nat2Z.inj_succ, Z.pow_succ_r in Hz by lia. split; [apply Z.div_pos; lia|]. apply Z.div_lt_upper_bound; lia.
Qed.

Lemma dec_digits_ge fuel n z : 10 ^ Z.of_nat n <= z < 2 ^ Z.of_nat fuel -> (S n <= String.length (dec_digits fuel z ""))%nat.
Proof.
  revert fuel z. induction n as [|n IH]; intros [|fuel] z Hz; simpl; try (simpl in Hz; lia).
  - destruct (z <? 10); simpl; [lia|]. rewrite dec_digits_app, strlength_app. simpl. lia.
  - rewrite Nat2Z.inj_succ, Z.pow_succ_r in Hz by lia. pose proof (Z.pow_pos_nonneg 10 (Z.of_nat n) ltac:(lia) ltac:(lia)).
    rewrite (proj2 (Z.ltb_ge z 10)) by lia. rewrite dec_digits_app, strlength_app. simpl.
    rewrite Nat2Z.inj_succ, Z.pow_succ_r in Hz by lia.
    assert (S n <= String.length (dec_digits fuel (z / 10) ""))%nat; [|lia]. apply IH.
    split; [apply Z.div_le_lower_bound; lia|apply Z.div_lt_upper_bound; lia].
Qed.

Lemma dec_nat_fuel z : 0 <= z -> z < 2 ^ Z.of_nat (S (Z.to_nat (Z.log2_up (z + 1)))).
Proof.
  intros Hz. rewrite Nat2Z.inj_succ, Z2Nat.id by apply Z.log2_up_nonneg.
  apply Z.lt_le_trans with (2 ^ Z.log2_up (z + 1)); [|apply Z.pow_le_mono_r; lia].
  destruct (decide (z = 0)) as [->|]; [done|]. pose proof (Z.log2_up_spec (z + 1)). lia.
Qed.

Lemma dec_length_le n z : 0 <= z < 10 ^ Z.of_nat (S n) -> (String.length (dec z) <= S n)%nat.
Proof. intros H. rewrite dec_nonneg by lia. by apply dec_digits_length. Qed.

(** The digits of a number below [10^k * 10^n] and of one that is at least [10^n]. *)
Lemma dec_length_mul a m : 0 < a < 100 -> 0 <= m -> (String.length (dec (a * m)) <= String.length (dec m) + 2)%nat.
Proof.
  intros Ha Hm. destruct (decide (m = 0)) as [->|Hne]; [rewrite Z.mul_0_r; lia|].
  assert (Hn : exists n, (String.length (dec m) = S n)%nat).
  { destruct (dec_nonempty m Hm) as (c & s & ->). by eexists. }
  destruct Hn as [n Hn]. rewrite Hn. apply (dec_length_le (n + 2)).
  assert (Hlt : m < 10 ^ Z.of_nat (S n)).
  { destruct (Z.lt_ge_cases m (10 ^ Z.of_nat (S n))) as [|Hge]; [done|]. exfalso.
    pose proof (dec_digits_ge (S (Z.to_nat (Z.log2_up (m + 1)))) (S n) m (conj Hge (dec_nat_fuel m Hm))) as H.
    rewrite dec_nonneg in Hn by done. unfold dec_nat in Hn. lia. }
  replace (Z.of_nat (S (n + 2))) with (2 + Z.of_nat (S n)) by lia. rewrite Z.pow_add_r by lia. change (10 ^ 2) with 100. nia.
Qed.

Lemma strtol10_dec_app z rest : 0 <= z < 2 ^ 63 -> isdigit (hd0 rest) = false -> strtol10 (dec z ++ rest) = (z, rest).
Proof.
  intros Hz Hr. unfold strtol10. pose proof (hd0_dec_nat z ltac:(lia)) as Hd.
  rewrite dec_nonneg by lia. pose proof (all_digits_dec z ltac:(lia)) as Hall. rewrite dec_nonneg in Hall by lia.
  destruct (isdigit_not_space _ Hd) as (H1 & H2 & H3).
  assert (Hs : skip_spaces (dec_nat z ++ rest) = dec_nat z ++ rest).
  { destruct (dec_nat z); simpl in *; [done|]. by rewrite H1. }
  assert (Hh : hd0 (dec_nat z ++ rest) = hd0 (dec_nat z)) by (destruct (dec_nat z); done).
  rewrite Hs, Hh, H2, H3, Hh, Hd, scan_digits_app, scan_digits_dec_nat by (done || lia). simpl.
  by rewrite saturate_id by (unfold in_s; lia).
Qed.

Lemma skip_digits_app d rest : all_digits d = true -> isdigit (hd0 rest) = false -> skip_digits (d ++ rest) = rest.
Proof.
  intros Hd Hr. induction d as [|c d IH]; simpl in *.
  - destruct rest as [|r rest]; [done|]. simpl in *. by rewrite Hr.
  - apply andb_true_iff in Hd as [Hc Hd]. rewrite Hc. by apply IH.
Qed.

(** ** The text of one node *)

Section Request.
Variables (request before unit : string) (m : Z).
Hypothesis Hrequest : split_sub "mem=" request = Some (before, "mem=" ++ dec m ++ unit).
Hypothesis Hm : 0 <= m /\ m * 99 < 2 ^ 63.
Hypothesis Hunit : isdigit (hd0 unit) = false.

Lemma split_sub_app sub s a b : split_sub sub s = Some (a, b) -> s = a ++ b.
Proof.
  revert a b. induction s as [|c s IH]; intros a b; cbn [split_sub]; destruct (String.prefix sub _) eqn:E; intros H; simplify_eq; try done.
  destruct (split_sub sub s) as [[a' b']|]; simplify_eq. simpl. by rewrite (IH a' b).
Qed.

Definition request_for (k : Z) : string := before ++ "mem=" ++ dec (k * m) ++ unit.

Lemma request_for_fits k : 0 < k < 100 -> strlen (request_for k) <= strlen request + 2.
Proof.
  intros Hk. rewrite (split_sub_app _ _ _ _ Hrequest). unfold request_for. rewrite !strlen_length, !strlength_app.
  pose proof (dec_length_mul k m Hk (proj1 Hm)). lia.
Qed.

Lemma multip_numbers_ok k : 0 < k < 100 -> multip_numbers k request = Ret (request_for k).
Proof.
  intros Hk. unfold multip_numbers. rewrite Hrequest.
  change (drop_chars 4 ("mem=" ++ dec m ++ unit)) with (dec m ++ unit).
  rewrite strtol10_dec_app by (done || lia). cbn [fst]. rewrite skip_digits_app by (done || (apply all_digits_dec; lia)).
  rewrite i64_id by (unfold in_s; nia). replace (m * k) with (k * m) by lia.
  pose proof (request_for_fits k Hk) as Hfit. unfold request_for in Hfit. by rewrite (proj2 (Z.leb_le _ _) Hfit).
Qed.

Variable nodes : gmap positive node_info.
Variable req_ppn : Z.
Hypothesis Hppn : 0 < req_ppn /\ req_ppn * 99 < 2 ^ 31.

(** The nodes have names that leave room for the rest. *)
Definition short_name (p : positive) : Prop := exists n, nodes !! p = Some n /\ strlen (node_name n) <= 25.

Definition name_at (p : positive) : string := match nodes !! p with Some n => node_name n | None => "" end.
Definition text_of (g : positive * Z) : string := node_text (name_at g.1) (g.2 * req_ppn) (request_for g.2).

Fixpoint join_plus (l : list string) : string :=
  match l with [] => "" | [s] => s | s :: l => s ++ "+" ++ join_plus l end.

Definition extend_spec (spec : option string) (text : string) : string :=
  match spec with None => text | Some s => s ++ "+" ++ text end.

Lemma text_of_short g : 0 < g.2 < 100 -> short_name g.1 -> strlen (text_of g) < strlen request + 49.
Proof.
  intros Hg (n & E & Hn). unfold text_of, name_at, node_text. rewrite E. pose proof (request_for_fits g.2 Hg) as H.
  rewrite !strlen_length in *. rewrite !strlength_app.
  pose proof (dec_length_le 9 (g.2 * req_ppn)) as Hd. specialize (Hd ltac:(simpl; nia)). simpl. lia.
Qed.

Lemma node_added g spec : 0 < g.2 < 100 -> short_name g.1 ->
  add_node_spec nodes req_ppn request g.1 g.2 spec = Ret (extend_spec spec (text_of g)).
Proof.
  intros Hg Hs. pose proof (text_of_short g Hg Hs) as Ht. destruct Hs as (n & E & Hn). unfold add_node_spec. rewrite E. cbn [of_option obind].
  rewrite multip_numbers_ok by done. cbn [obind]. rewrite i32_id by (unfold in_s; nia).
  assert (Et : node_text (node_name n) (g.2 * req_ppn) (request_for g.2) = text_of g) by (unfold text_of, name_at; by rewrite E).
  rewrite Et. unfold extend_spec, print_into. destruct spec as [s|].
  - rewrite !strlen_length in *. rewrite !strlength_app. rewrite (proj2 (Z.ltb_lt _ _)); [done|]. change (String.length "+") with 1%nat. lia.
  - change ("" ++ text_of g) with (text_of g). by rewrite (proj2 (Z.ltb_lt _ _)) by lia.
Qed.

(** ** The parts on one node after the other *)

Fixpoint groups (q : positive) (k : Z) (ps : list positive) : list (positive * Z) :=
  match ps with
  | [] => [(q, k)]
  | p :: ps => if decide (p = q) then groups q (k + 1) ps else (q, k) :: groups p 1 ps
  end.

(** The nodes of the parts, from the groups. *)
Fixpoint spread (gs : list (positive * Z)) : list positive :=
  match gs with [] => [] | g :: gs => replicate (Z.to_nat g.2) g.1 ++ spread gs end%list.

Definition all_text (spec : option string) (gs : list (positive * Z)) : option string :=
  fold_left (fun s g => Some (extend_spec s (text_of g))) gs spec.

Lemma all_text_some s g gs : all_text (Some s) (g :: gs) = Some (s ++ "+" ++ join_plus (text_of <$> g :: gs)).
Proof.
  revert s g. induction gs as [|g' gs IH]; intros s g; [done|].
  change (all_text (Some s) (g :: g' :: gs)) with (all_text (Some (s ++ "+" ++ text_of g)) (g' :: gs)). rewrite IH.
  cbn [fmap list_fmap join_plus]. by rewrite !string_app_assoc.
Qed.

Lemma all_text_none g gs : all_text None (g :: gs) = Some (join_plus (text_of <$> g :: gs)).
Proof.
  change (all_text None (g :: gs)) with (all_text (Some (text_of g)) gs). destruct gs as [|g' gs]; [done|].
  rewrite all_text_some. done.
Qed.

Lemma nodespec_loop_ok ps : forall q k spec,
  0 < k -> k + Z.of_nat (length ps) < 100 -> Forall short_name (q :: ps) ->
  exists st p s, ofold (nodespec_step nodes req_ppn request) (Some <$> ps) (mkNs (Some q) k spec) = Ret st /\
    ns_planned_node st = Some p /\ add_node_spec nodes req_ppn request p (ns_num_ppn st) (ns_spec st) = Ret s /\
    all_text spec (groups q k ps) = Some s.
Proof.
  induction ps as [|p ps IH]; intros q k spec Hk Hlen Hs; apply Forall_cons in Hs as [Hq Hs].
  - simpl in Hlen. eexists _, q, _. split; [done|]. split; [done|]. split; [|done]. apply (node_added (q, k)); [simpl; lia|done].
  - apply Forall_cons in Hs as [Hp Hs]. cbn [length] in Hlen. cbn [fmap list_fmap ofold groups]. unfold nodespec_step at 1.
    cbn [ns_planned_node ns_num_ppn ns_spec]. destruct (decide (p = q)) as [->|Hne].
    + rewrite !bool_decide_true by done. cbn [obind ns_planned_node]. rewrite i32_id by (unfold in_s; lia).
      apply IH; [lia|lia|by constructor].
    + rewrite !bool_decide_false by congruence.
      pose proof (node_added (q, k) spec ltac:(simpl; lia) Hq) as Ha. cbn [fst snd] in Ha. rewrite Ha. cbn [obind ns_planned_node].
      destruct (IH p 1 (Some (extend_spec spec (text_of (q, k))))) as (st & p' & s & E & H); [lia|lia|by constructor|].
      exists st, p', s. by rewrite E.
Qed.

Lemma groups_parts ps : forall q k, 0 < k ->
  spread (groups q k ps) = (replicate (Z.to_nat k) q ++ ps)%list /\
  Sorted (fun g1 g2 : positive * Z => g1.1 <> g2.1) (groups q k ps) /\ Forall (fun g : positive * Z => 0 < g.2) (groups q k ps) /\
  exists k' gs, groups q k ps = (q, k') :: gs.
Proof.
  induction ps as [|p ps IH]; intros q k Hk; cbn [groups].
  - split_and!; [cbn; by rewrite !app_nil_r|by repeat constructor|by repeat constructor|by eexists _, _].
  - destruct (decide (p = q)) as [->|Hne].
    + destruct (IH q (k + 1) ltac:(lia)) as (E & Hs & Hf & Hx). split_and!; try done.
      rewrite E, Z2Nat.inj_add by lia. change (Z.to_nat 1) with 1%nat. rewrite replicate_add.
      by rewrite <- (assoc_L (++)%list).
    + destruct (IH p 1 ltac:(lia)) as (E & Hs & Hf & k' & gs & Ex). split_and!.
      * cbn [spread fst snd]. by rewrite E.
      * constructor; [done|]. rewrite Ex. by constructor.
      * by constructor.
      * by eexists _, _.
Qed.
End Request.

(** ** The nodes *)

Lemma distinct_nodes_ok ps : forall ds, NoDup ds ->
  exists es, distinct_nodes (Some <$> ds) (Some <$> ps) = (Some <$> es, length es) /\ NoDup es /\
    forall p, p ∈ es <-> p ∈ ds \/ p ∈ ps.
Proof.
  induction ps as [|p ps IH]; intros ds Hd; cbn [distinct_nodes fmap list_fmap].
  - exists ds. rewrite length_fmap. split_and!; try done. intros p. rewrite elem_of_nil. naive_solver.
  - destruct (decide (p ∈ ds)) as [Hin|Hin].
    + rewrite bool_decide_true by by apply list_elem_of_fmap_2. destruct (IH ds Hd) as (es & E & Hn & Hes).
      exists es. split_and!; try done. intros q. rewrite Hes, elem_of_cons. naive_solver.
    + rewrite bool_decide_false by (intros (q & [= ->] & ?)%list_elem_of_fmap; done).
      destruct (IH (ds ++ [p])%list) as (es & E & Hn & Hes).
      { apply NoDup_app. split_and!; [done| |apply NoDup_singleton]. intros q Hq ->%list_elem_of_singleton. done. }
      exists es. rewrite fmap_app in E. split_and!; try done. intros q. rewrite Hes. set_solver.
Qed.

(** Whether the request is for whole nodes. *)
Definition wants_whole (parse_nodespec : string -> option pars_spec) (j : JobInfo) (text : string) : option bool :=
  match p_parsed_nodespec j with
  | Some spec => Some (spec_exclusive spec)
  | None => spec_exclusive <$> parse_nodespec text
  end.

Lemma cleaned_front nodespec request is_excl :
  cleaned_request nodespec = Ret (request, is_excl) -> exists front, nodespec_front nodespec = Ret front.
Proof.
  unfold cleaned_request, nodespec_front. destruct (behind_colon nodespec) as [s| |]; cbn [obind]; try done.
  destruct (skip_ppn s) as [s'| |]; cbn [obind]; try done. intros _. by eexists.
Qed.

(** C21: The nodespec of a planned job is that of its plan.  The parts are grouped
    while they follow each other on one node ([gs], whose parts are those of the
    job, neighbouring groups being on different nodes); the nodespec has for each
    group the name of the node, the processors of all the parts of the group, and
    the request of the user with the memory of all of them; it ends with [#excl]
    exactly when the user asked for whole nodes.  The nodes are left in the job
    once each, in the order of their first parts, and their number is returned.
    Names of up to 25 characters and jobs of fewer than 100 parts fit in the
    arrays. *)
Theorem nodespec_names_planned_nodes parse_nodespec nodes job j ps request is_excl excl before unit m :
  cleaned_request (nodespec j) = Ret (request, is_excl) ->
  split_sub "mem=" request = Some (before, "mem=" ++ dec m ++ unit) -> 0 <= m -> m * 99 < 2 ^ 63 -> isdigit (hd0 unit) = false ->
  0 < pj_req_ppn job -> pj_req_ppn job * 99 < 2 ^ 31 ->
  ps <> [] -> Z.of_nat (length ps) < 100 -> pj_req_num_nodes job = Z.of_nat (length ps) ->
  take (length ps) (pj_ninfo_arr job) = Some <$> ps -> Forall (short_name nodes) ps ->
  (forall front, nodespec_front (nodespec j) = Ret front ->
     if is_excl : bool then excl = true else wants_whole parse_nodespec j (front ++ request) = Some excl) ->
  exists job' j' gs ds, job_create_nodespec parse_nodespec nodes job j = Ret (job', j', Z.of_nat (length ds)) /\
    spread gs = ps /\ Forall (fun g : positive * Z => 0 < g.2) gs /\ Sorted (fun g1 g2 : positive * Z => g1.1 <> g2.1) gs /\
    nodespec j' = join_plus (text_of before unit m nodes (pj_req_ppn job) <$> gs) ++ (if excl : bool then "#excl" else "") /\
    NoDup ds /\ (forall p, p ∈ ds <-> p ∈ ps) /\
    take (length ps) (pj_ninfo_arr job') = ((Some <$> ds) ++ replicate (length ps - length ds) None)%list.
Proof.
  intros Hc Hreq Hm Hm2 Hunit Hppn Hppn2 Hne Hlen Hn Harr Hs Hx. destruct (cleaned_front _ _ _ Hc) as (front & Hfront).
  specialize (Hx front Hfront). unfold job_create_nodespec. rewrite Hfront, Hc. cbn [obind].
  destruct ps as [|p ps]; [done|]. rewrite Hn, Nat2Z.id. rewrite (proj2 (Z.leb_gt _ _)) by (simpl; lia).
  assert (Hal : (length (p :: ps) <= length (pj_ninfo_arr job))%nat).
  { pose proof (f_equal length Harr) as Hl. rewrite length_take, length_fmap in Hl. lia. }
  rewrite decide_True by done. cbn [obind]. rewrite Harr. unfold nodespec_loop. cbn [fmap list_fmap ofold].
  destruct (nodespec_loop_ok request before unit m Hreq (conj Hm Hm2) Hunit nodes (pj_req_ppn job) (conj Hppn Hppn2) ps p 1 None)
    as (st & q & s & E & Eq & Ea & Et); [lia|simpl in Hlen; lia|done|].
  change (nodespec_step nodes (pj_req_ppn job) request (mkNs None 1 None) (Some p)) with (Ret (mkNs (Some p) 1 None)).
  cbv iota. rewrite E. cbn [obind]. rewrite Eq, Ea. cbn [obind]. unfold packed_nodes. rewrite Harr.
  destruct (distinct_nodes_ok (p :: ps) [] ltac:(constructor)) as (ds & Ed & Hnd & Hds).
  change (Some <$> []) with (@nil (option positive)) in Ed. rewrite Ed.
  destruct (groups_parts ps p 1 ltac:(lia)) as (Eg & Hsort & Hpos & k' & gs & Egs).
  assert (Hspec : s = join_plus (text_of before unit m nodes (pj_req_ppn job) <$> groups p 1 ps)).
  { rewrite Egs in Et |- *. rewrite all_text_none in Et. by injection Et. }
  assert (Hmemb : forall p0, p0 ∈ ds <-> p0 ∈ p :: ps) by (intros p0; rewrite Hds; set_solver).
  assert (Hdl : (length ds <= length (p :: ps))%nat).
  { apply submseteq_length, NoDup_submseteq; [done|]. intros y. apply Hmemb. }
  assert (Hex : exists j1, (if is_excl then Ret (j <| nodespec := front ++ request |>, true)
      else exclusive_job parse_nodespec (j <| nodespec := front ++ request |>)) = Ret (j1, excl)).
  { destruct is_excl; [subst excl; by eexists|]. unfold wants_whole in Hx. unfold exclusive_job.
    change (p_parsed_nodespec (j <| nodespec := front ++ request |>)) with (p_parsed_nodespec j).
    change (nodespec (j <| nodespec := front ++ request |>)) with (front ++ request).
    destruct (p_parsed_nodespec j) as [sp|]; [injection Hx as <-; by eexists|].
    destruct (parse_nodespec (front ++ request)) as [sp|]; [|done]. injection Hx as <-. by eexists. }
  destruct Hex as (j1 & ->). cbn [obind].
  eexists _, _, (groups p 1 ps), ds. split; [done|]. split; [by rewrite Eg|]. split; [done|]. split; [done|]. split.
  { change (nodespec (j1 <| nodespec := ?x |>)) with x. rewrite Hspec. by destruct excl; [|rewrite string_app_nil]. }
  split; [done|]. split; [done|].
  change (pj_ninfo_arr (job <| pj_ninfo_arr := ?x |> <| pj_sch_nodespec := None |>)) with x.
  rewrite (assoc_L (++)%list). apply take_app_length'. rewrite length_app, length_fmap, length_replicate. lia.
Qed.

(** ** Example *)

Definition example_spec_job : plan_job :=
  mkPlanJob 7 (Some 1%positive) 100 200 100 0 0 0 6 2 0 3 10 0 0 [Some 1%positive; Some 1%positive; Some 2%positive] None None
    [] [] None false 0.
Definition example_spec_info : JobInfo := new_JobInfo "7.srv" <| nodespec := "3:ppn=2:mem=400mb:^cl_a:x86" |>.
Definition example_spec_parser (_ : string) : option pars_spec := Some (mkSpec false [] 3 6).

Lemma nodespec_names_planned_nodes_witness :
  exists job' j' gs ds, job_create_nodespec example_spec_parser example_nodes example_spec_job example_spec_info
      = Ret (job', j', Z.of_nat (length ds)) /\
    nodespec j' = "host=n1:ppn=4:mem=800mb:x86+host=n2:ppn=2:mem=400mb:x86" /\
    spread gs = [1%positive; 1%positive; 2%positive] /\ (forall p, p ∈ ds <-> p ∈ [1%positive; 1%positive; 2%positive]) /\
    take 3 (pj_ninfo_arr job') = ((Some <$> ds) ++ replicate (3 - length ds) None)%list.
Proof.
  destruct (nodespec_names_planned_nodes example_spec_parser example_nodes example_spec_job example_spec_info
    [1%positive; 1%positive; 2%positive] "mem=400mb:x86" false false "" "mb:x86" 400)
    as (job' & j' & gs & ds & E & Hg & _ & _ & _ & _ & Hds & Ha);
    [vm_compute; reflexivity|vm_compute; reflexivity|lia|lia|reflexivity|reflexivity|reflexivity|discriminate|reflexivity|reflexivity|reflexivity| | |].
  - repeat constructor; eexists; (split; [reflexivity|vm_compute; discriminate]).
  - intros front _. reflexivity.
  - exists job', j', gs, ds. split; [done|]. split; [|done].
    assert (Ej : job_create_nodespec example_spec_parser example_nodes example_spec_job example_spec_info = Ret (job', j', Z.of_nat (length ds)))
      by exact E. vm_compute in Ej. injection Ej as _ <- _. reflexivity.
Defined.

(** ** The properties with a caret *)

Lemma prefix_cons c t d s : String.prefix (String c t) (String d s) = Ascii.eqb c d && String.prefix t s.
Proof. simpl. destruct (ascii_dec c d) as [->|Hne]; [by rewrite Ascii.eqb_refl|]. by rewrite (proj2 (Ascii.eqb_neq c d)). Qed.

Lemma prefix_app t v : String.prefix t (t ++ v) = true.
Proof. induction t as [|c t IH]; [by destruct v|]. simpl. destruct (ascii_dec c c) as [|n]; [exact IH|by destruct n]. Qed.

Lemma prefix_split t s : String.prefix t s = true -> exists v, s = t ++ v.
Proof.
  revert s. induction t as [|c t IH]; intros s H; [by exists s|]. destruct s as [|d s]; [done|]. cbn in H.
  destruct (ascii_dec c d) as [->|]; [|done]. destruct (IH s H) as (v & ->). by exists v.
Qed.

Lemma drop_chars_app a b : drop_chars (String.length a) (a ++ b) = b.
Proof. induction a as [|c a IH]; [by destruct b|]. exact IH. Qed.

(** A text that occurs is found, and what is from it on starts with it. *)
Lemma split_sub_occurs t u v : exists a b, split_sub t (u ++ t ++ v) = Some (a, t ++ b).
Proof.
  assert (Hstart : forall s, String.prefix t s = true -> exists b, split_sub t s = Some ("", t ++ b)).
  { intros s Hs. destruct (prefix_split t s Hs) as (w & ->). exists w. destruct (t ++ w) eqn:E; cbn [split_sub]; by rewrite Hs. }
  induction u as [|c u IH].
  - change ("" ++ t ++ v) with (t ++ v). destruct (Hstart (t ++ v) (prefix_app t v)) as (b & E). by exists "", b.
  - destruct (String.prefix t (String c u ++ t ++ v)) eqn:E; [destruct (Hstart _ E) as (b & E'); by exists "", b|].
    destruct IH as (a & b & IH). exists (String c a), b. change (String c u ++ t ++ v) with (String c (u ++ t ++ v)) in *.
    cbn [split_sub]. by rewrite E, IH.
Qed.

Lemma remove_from_shorter fuel t s : (String.length (remove_from fuel s t) <= String.length s)%nat.
Proof.
  revert s. induction fuel as [|fuel IH]; intros s; cbn [remove_from]; [done|].
  destruct (split_sub t s) as [[a b]|] eqn:E; [|done]. rewrite (split_sub_app _ _ _ _ E), !strlength_app.
  assert (H : forall n b, (String.length (drop_chars n b) <= String.length b)%nat).
  { clear. intros n b. revert n. induction b as [|c b IH]; intros [|n]; simpl; try lia. specialize (IH n). lia. }
  specialize (IH (drop_chars (String.length t) b)). specialize (H (String.length t) b). lia.
Qed.

Lemma remove_occurring u t v : t <> "" ->
  (String.length (remove_substring (u ++ t ++ v) t) < String.length (u ++ t ++ v))%nat.
Proof.
  intros Ht. unfold remove_substring. cbn [remove_from]. destruct (split_sub_occurs t u v) as (a & b & E). rewrite E.
  pose proof (split_sub_app _ _ _ _ E) as Es. rewrite drop_chars_app. rewrite Es, !strlength_app.
  pose proof (remove_from_shorter (String.length a + (String.length t + String.length b)) t b) as H. destruct t; [done|]. simpl in *. lia.
Qed.

Lemma split_at_caret s a t : split_at s "^" = (a, Some t) -> s = a ++ String "^" t.
Proof.
  revert a. induction s as [|c s IH]; intros a; cbn [split_at]; [done|]. destruct (Ascii.eqb_spec c "^") as [->|].
  - intros [= <- <-]. done.
  - destruct (split_at s "^") as [a' r]. intros [= <- ->]. simpl. by rewrite (IH a').
Qed.

Lemma upto_separator_prefix s text : upto_separator s = Some text -> exists v, s = text ++ v.
Proof.
  revert text. induction s as [|c s IH]; intros text; cbn [upto_separator]; [done|]. destruct (is_separator c).
  - intros [= <-]. by exists s.
  - destruct (upto_separator s) as [t|]; [|done]. intros [= <-]. destruct (IH t eq_refl) as (v & ->). by exists v.
Qed.

Lemma last_char_split d c a : exists u, String c a = u ++ String (last_char d (String c a)) "".
Proof.
  revert d c. induction a as [|c' a IH]; intros d c; [by exists ""|]. destruct (IH c c') as (u & E). exists (String c u).
  change (String c u ++ ?x) with (String c (u ++ x)). f_equal. exact E.
Qed.

(** The text of a caret occurs, unless it is at the front and nothing ends it. *)
Lemma caret_text_occurs a t : a <> "" \/ upto_separator (String "^" t) <> None ->
  exists u v, a ++ String "^" t = u ++ caret_text (last_char ":" a) (String "^" t) ++ v.
Proof.
  intros H. unfold caret_text. destruct (upto_separator (String "^" t)) as [text|] eqn:E.
  - destruct (upto_separator_prefix _ _ E) as (v & ->). by exists a, v.
  - destruct a as [|c a]; [by destruct H|]. destruct (last_char_split ":" c a) as (u & Eu). exists u, "".
    rewrite string_app_nil. rewrite Eu at 1. by rewrite string_app_assoc.
Qed.

(** A request with a first property that has no caret at its start keeps it. *)
Definition starts_plain (s : string) : Prop := exists c t, s = String c t /\ c <> "^"%char.

Lemma caret_text_shape before t : let text := caret_text before (String "^" t) in
  (exists r, text = String "^" r) \/ (upto_separator (String "^" t) = None /\ text = String before (String "^" t)).
Proof.
  cbv zeta. unfold caret_text. cbn [upto_separator is_separator].
  change (is_separator "^") with false. cbv iota. destruct (upto_separator t) as [x|]; [left; by eexists|by right].
Qed.

Lemma remove_keeps_start text r s : text = String "^" r -> starts_plain s -> starts_plain (remove_substring s text).
Proof.
  intros -> (c & t & -> & Hc). unfold remove_substring. cbn [remove_from split_sub].
  assert (Hp : String.prefix (String "^" r) (String c t) = false).
  { rewrite prefix_cons, (proj2 (Ascii.eqb_neq _ _)) by congruence. done. }
  rewrite Hp. destruct (split_sub (String "^" r) t) as [[a b]|]; [|by exists c, t].
  eexists c, _. split; [reflexivity|done].
Qed.

(** Removing the text that reaches to the end leaves what is before it. *)
Lemma remove_last a before t : split_at a "^" = (a, None) -> last_char ":" a = before -> a <> "" ->
  upto_separator (String "^" t) = None ->
  exists a', remove_substring (a ++ String "^" t) (String before (String "^" t)) = a' /\ split_at a' "^" = (a', None).
Proof.
  intros Ha Hb Hne _. subst before. destruct a as [|c a]; [done|]. destruct (last_char_split ":" c a) as (u & Eu).
  set (d := last_char ":" (String c a)) in *. exists u. rewrite Eu in Ha |- *. clear Hne Eu. rewrite string_app_assoc.
  change (String d "" ++ String "^" t) with (String d (String "^" t)).
  assert (Hu : split_at u "^" = (u, None)).
  { clear -Ha. induction u as [|x u IH]; [done|]. change (String x u ++ ?y) with (String x (u ++ y)) in Ha. cbn [split_at] in *.
    destruct (Ascii.eqb x "^"); [done|]. destruct (split_at (u ++ String d "") "^") as [y z] eqn:E. injection Ha as -> ->. by rewrite IH. }
  split; [|done]. unfold remove_substring. cbn [remove_from].
  assert (Hs : split_sub (String d (String "^" t)) (u ++ String d (String "^" t)) = Some (u, String d (String "^" t))).
  { clear -Ha. induction u as [|x u IH].
    - change ("" ++ ?y) with y. pose proof (prefix_app (String d (String "^" t)) "") as Hp. rewrite string_app_nil in Hp.
      cbn [split_sub]. by rewrite Hp.
    - change (String x u ++ ?y) with (String x (u ++ y)) in *. cbn [split_at] in Ha.
      destruct (Ascii.eqb_spec x "^"); [done|]. destruct (split_at (u ++ String d "") "^") as [y z] eqn:E. injection Ha as -> ->.
      cbn [split_sub]. rewrite IH by done.
      assert (Hf : String.prefix (String d (String "^" t)) (String x (u ++ String d (String "^" t))) = false); [|by rewrite Hf].
      rewrite prefix_cons. apply andb_false_iff. right. destruct u as [|x' u].
      + change ("" ++ ?y) with y in *. rewrite prefix_cons. cbn [split_at] in E. rewrite Ascii.eqb_sym. by destruct (Ascii.eqb d "^").
      + change (String x' u ++ ?y) with (String x' (u ++ y)) in *. rewrite prefix_cons. cbn [split_at] in E.
        rewrite Ascii.eqb_sym. by destruct (Ascii.eqb x' "^"). }
  rewrite Hs. change (String d (String "^" t)) with (String d (String "^" t)).
  replace (drop_chars (String.length (String d (String "^" t))) (String d (String "^" t))) with "".
  - rewrite strlength_app. destruct (String.length u + _)%nat; cbn; by rewrite string_app_nil.
  - pose proof (drop_chars_app (String d (String "^" t)) "") as Hd. by rewrite string_app_nil in Hd.
Qed.

Lemma split_at_front s a r : split_at s "^" = (a, r) -> split_at a "^" = (a, None) /\ (r = None -> a = s).
Proof.
  revert a r. induction s as [|c s IH]; intros a r; cbn [split_at]; [by intros [= <- <-]|].
  destruct (Ascii.eqb c "^") eqn:E; [by intros [= <- <-]|]. destruct (split_at s "^") as [x y]. intros [= <- <-].
  destruct (IH x y eq_refl) as [IH1 IH2]. cbn [split_at]. rewrite E, IH1. split; [done|]. intros Hy. by rewrite IH2.
Qed.

(** The fuel is enough: no caret is left, if the first property has none at its
    start. *)
Lemma carets_are_removed s : starts_plain s ->
  exists s', remove_carets (caret_fuel s) s = Ret s' /\ split_at s' "^" = (s', None).
Proof.
  unfold caret_fuel. generalize (le_n (S (String.length s))). generalize (S (String.length s)) at 2 3. intros fuel.
  revert s. induction fuel as [|fuel IH]; intros s Hf Hs; [lia|]. cbn [remove_carets].
  destruct (split_at s "^") as [a [t|]] eqn:E; [|destruct (split_at_front _ _ _ E) as [H1 H2]; exists s; rewrite H2 in H1 by done; done].
  pose proof (split_at_caret _ _ _ E) as Es. destruct (split_at_front _ _ _ E) as [Ha _].
  assert (Hne : a <> "") by (intros ->; destruct Hs as (c & u & -> & Hc); by injection Es as -> _).
  destruct (caret_text_occurs a t (or_introl Hne)) as (u & v & Eo).
  destruct (caret_text_shape (last_char ":" a) t) as [(r & Er)|[Hn Er]].
  - apply IH; [|by eapply remove_keeps_start].
    pose proof (remove_occurring u _ v (eq_ind_r (fun x => x <> "") (fun H : String "^" r = "" => ltac:(discriminate H)) Er)) as Hlt.
    rewrite <- Eo, <- Es in Hlt. lia.
  - rewrite Er. destruct (remove_last a (last_char ":" a) t Ha eq_refl Hne Hn) as (a' & E' & Ha'). rewrite Es, E'.
    destruct fuel as [|fuel]; [destruct Hs as (c & w & -> & _); simpl in Hf; lia|]. exists a'. cbn [remove_carets]. by rewrite Ha'.
Qed.

(** ** Findings *)

(** When the first part of the request comes before its processors, the search for
    the colon begins in the middle of it; the memory is lost, and a null pointer is
    read. *)
Lemma memory_before_processors_is_lost :
  cleaned_request "2:mem=1gb:ppn=2" = Ret ("ppn=2", false) /\
  forall parse, job_create_nodespec parse example_nodes example_spec_job
    (example_spec_info <| nodespec := "2:mem=1gb:ppn=2" |>) = UB.
Proof. split; [vm_compute; reflexivity|]. intros parse. vm_compute. reflexivity. Qed.

(** A request that consists of properties with a caret alone is never cleaned. *)
Lemma caret_alone_loops fuel : remove_carets fuel "^cl_a" = endless.
Proof. induction fuel as [|fuel IH]; [done|]. cbn -[remove_carets]. exact IH. Qed.
