(* ===== verification/PlanFairshare.v ===== *)
(** * Fairness of the plan: plan_fairshare.cpp

    For each account the waiting time and the weighted use of the clusters are
    added up, of the completed jobs once and of the planned ones anew for each
    plan.  The fairness of a plan is how far the accounts are apart. *)

From Stdlib Require Import ZArith Lia Bool Ascii String SpecFloat.
From S2P Require Import Prelude CString CFloat MiscHelpers Resource DataTypes JobInfo PlanData PlanList PlanValues PlanClusters.

Local Open Scope string_scope.
Open Scope Z_scope.
Local Open Scope sched_scope.

(** [struct user_info]; [completed_Fu] and [planned_Fu] are [long double]s, the
    normalized values [double]s. *)
Record user_info := mkUserInfo {
  ui_account : string;
  completed_cputime : Z;
  completed_waittime : Z;
  num_completed_jobs : Z;
  planned_cputime : Z;
  planned_waittime : Z;
  num_planned_jobs : Z;
  completed_Fu : spec_float;
  planned_Fu : spec_float;
  normalized_user_waittime : spec_float;
  normalized_max_value : spec_float
}.

#[export] Instance user_info_fields : Fields user_info :=
  fields_app (fields_app (fields_app (fields_app (fields_app (fields_app (fields_app (fields_app (fields_app (fields_app
  (fields_app (fields_const mkUserInfo) ui_account) completed_cputime) completed_waittime) num_completed_jobs)
  planned_cputime) planned_waittime) num_planned_jobs) completed_Fu) planned_Fu) normalized_user_waittime)
  normalized_max_value.

(** [fslist]: the accounts in the order in which they were added. *)
Abbreviation fairshare_list := (list user_info).

(** The arithmetic of [double] and of [long double]; a factor of [1.0] changes
    nothing. *)
Definition double_of (z : Z) : spec_float := fof_Z (F := binary64) z.
Definition dmul (x y : spec_float) : spec_float := fmul (F := binary64) x y.
Definition ddiv (x y : spec_float) : spec_float := fdiv (F := binary64) x y.
Definition dadd (x y : spec_float) : spec_float := fadd (F := binary64) x y.
Definition dsub (x y : spec_float) : spec_float := fsub (F := binary64) x y.
Definition ldadd (x y : spec_float) : spec_float := fadd (F := binary80) x y.
Definition ldsub (x y : spec_float) : spec_float := fsub (F := binary80) x y.
Definition ldmul (x y : spec_float) : spec_float := fmul (F := binary80) x y.
Definition lddiv (x y : spec_float) : spec_float := fdiv (F := binary80) x y.
Definition to_double (x : spec_float) : spec_float := fcast (F := binary64) x.

(** [normalized_user_waittime] is left uninitialised; it is set before it is
    read. *)
Definition fairshare_add_user (account : string) (fslist : fairshare_list) : fairshare_list :=
  (fslist ++ [mkUserInfo account 0 0 0 0 0 0 fzero fzero fzero fzero])%list.

Fixpoint user_position (account : string) (fslist : fairshare_list) : option nat :=
  match fslist with
  | [] => None
  | u :: l => if strcmp (ui_account u) account =? 0 then Some O else S <$> user_position account l
  end.

(** The account of a job, added when it is new. *)
Definition find_user (account : string) (fslist : fairshare_list) : nat * fairshare_list :=
  match user_position account fslist with
  | Some i => (i, fslist)
  | None => (length fslist, fairshare_add_user account fslist)
  end.

(** The share of a cluster that a job takes, in processors. *)
Definition job_share (job : plan_job) (num_running_cpus available_ram : Z) : spec_float :=
  let res1 := ddiv (double_of (i32 (pj_req_ppn job * pj_req_num_nodes job))) (double_of num_running_cpus) in
  let res2 := ddiv (double_of (i64 (pj_req_mem job * pj_req_num_nodes job))) (double_of available_ram) in
  dmul (if fgt res1 res2 then res1 else res2) (double_of num_running_cpus).

Definition fairshare_add_completed_values (j : JobInfo) (job : plan_job) (cputime waittime : Z) (num_running_cpus available_ram : Z)
    (fslist : fairshare_list) : fairshare_list :=
  let (i, fslist) := find_user (account j) fslist in
  if (num_running_cpus >? 0) && (available_ram >? 0) then
    alter (fun u =>
      u <| completed_Fu := ldadd (completed_Fu u)
             (dmul (job_share job num_running_cpus available_ram) (double_of (i64 (compl_time j - pj_start_time job)))) |>
        <| completed_cputime := i64 (completed_cputime u + cputime) |>
        <| completed_waittime := i64 (completed_waittime u + waittime) |>
        <| num_completed_jobs := i32 (num_completed_jobs u + 1) |>) i fslist
  else fslist.

Definition fairshare_add_planned_values (j : JobInfo) (job : plan_job) (waittime cputime : Z) (num_running_cpus available_ram : Z)
    (fslist : fairshare_list) : fairshare_list :=
  let (i, fslist) := find_user (account j) fslist in
  if (num_running_cpus >? 0) && (available_ram >? 0) then
    alter (fun u =>
      u <| planned_Fu := ldadd (planned_Fu u)
             (dmul (job_share job num_running_cpus available_ram) (double_of (pj_estimated_processing job))) |>
        <| planned_cputime := i64 (planned_cputime u + cputime) |>
        <| planned_waittime := i64 (planned_waittime u + waittime) |>
        <| num_planned_jobs := i32 (num_planned_jobs u + 1) |>) i fslist
  else fslist.

Definition fairshare_add_job (j : JobInfo) (job : plan_job) (num_running_cpus available_ram : Z) (fslist : fairshare_list)
  : fairshare_list :=
  let waittime := i64 (pj_start_time job - qtime j) in
  let used time := i64 (i64 (time * pj_req_ppn job) * pj_req_num_nodes job) in
  if bool_decide (state j = JobCompleted) then
    let cputime := match find_resource_req (resused j) "walltime" with Some r => used (req_amount r) | None => 0 end in
    fairshare_add_completed_values j job cputime waittime num_running_cpus available_ram fslist
  else
    fairshare_add_planned_values j job waittime (used (pj_estimated_processing job)) num_running_cpus available_ram fslist.

Definition reset_user (u : user_info) : user_info :=
  u <| planned_cputime := 0 |> <| planned_waittime := 0 |> <| planned_Fu := fzero |> <| num_planned_jobs := 0 |>.

Definition fairshare_reset_planned_values (fslist : fairshare_list) : fairshare_list := reset_user <$> fslist.

(** The jobs of a schedule.  The walks leave the lists behind their last items. *)
Section Schedule.
Variable jinfos : gmap positive JobInfo.

Definition job_info (job : plan_job) : outcome JobInfo :=
  let! p := of_option (pj_jinfo job) in of_option (jinfos !! p).

(** A walk over the jobs of one cluster. *)
Definition walk_jobs {S} (f : plan_cluster -> plan_job -> S -> outcome S) (h : heap plan_job) (k : nat) (st : sched * S)
  : outcome (sched * S) :=
  let (s, acc) := st in
  let! jl := of_option (s_jobs s !! k) in
  let! cl := of_option (s_clusters s !! k) in
  let! (_, jl, acc) :=
    for_each (fun x h l acc =>
      let! job := item_at h x in
      let! acc := f cl job acc in
      Ret (h, l, acc, true)) h jl acc in
  Ret (s <| s_jobs := <[k := jl]> (s_jobs s) |>, acc).

Definition clusters_of (s : sched) : list nat := seq 0 (Z.to_nat (s_num_clusters s)).

Definition fairshare_get_planned_from_schedule (s : sched) (h : heap plan_job) (fslist : fairshare_list)
  : outcome (sched * fairshare_list) :=
  ofold (fun st k =>
    walk_jobs (fun cl job fslist =>
      let! j := job_info job in
      Ret (fairshare_add_job j job (pc_num_running_cpus cl) (pc_available_ram cl) fslist)) h k st)
    (clusters_of s) (s, fairshare_reset_planned_values fslist).
End Schedule.

(** ** The result *)

Definition total_waittime (u : user_info) : spec_float := double_of (i64 (completed_waittime u + planned_waittime u)).

Definition square_sum (mul add : spec_float -> spec_float -> spec_float) (f : user_info -> spec_float) (fslist : fairshare_list)
  : spec_float := fold_left (fun res u => add res (mul (f u) (f u))) fslist fzero.

Definition fairshare_result_common (fslist : fairshare_list) : fairshare_list * spec_float :=
  let fslist := (fun u => u <| normalized_user_waittime :=
      ddiv (total_waittime u) (double_of (i64 (completed_cputime u + planned_cputime u))) |>) <$> fslist in
  let sum := fold_left (fun uwt u => dadd uwt (normalized_user_waittime u)) fslist fzero in
  let uwt := ddiv sum (double_of (Z.of_nat (length fslist))) in
  (fslist, square_sum dmul dadd (fun u => dsub (dadd (double_of 1) uwt) (normalized_user_waittime u)) fslist).

Definition fairshare_result_max (fslist : fairshare_list) : fairshare_list * spec_float :=
  let fslist := (fun u => u <| normalized_max_value :=
      to_double (lddiv (total_waittime u) (ldadd (completed_Fu u) (planned_Fu u))) |>) <$> fslist in
  let sum := fold_left (fun uwt u => ldadd uwt (normalized_max_value u)) fslist fzero in
  let uwt := lddiv sum (double_of (Z.of_nat (length fslist))) in
  (fslist, to_double (square_sum ldmul ldadd (fun u => ldsub (ldadd (double_of 1) uwt) (normalized_max_value u)) fslist)).
