(* ===== verification/PlanEval.v ===== *)
(** * The evaluation of a plan: plan_evaluation.cpp *)

From Stdlib Require Import ZArith Lia Bool Ascii String SpecFloat.
From S2P Require Import Prelude CString CFloat MiscHelpers Resource DataTypes JobInfo PlanData PlanList PlanValues PlanClusters PlanFairshare.

Open Scope Z_scope.
Local Open Scope sched_scope.

(** [struct plan_eval]. *)
Record plan_eval := mkEval {
  pe_start_time : Z;
  pe_end_time : Z;
  pe_num_jobs : Z;
  pe_response_time : spec_float;
  pe_wait_time : spec_float;
  pe_slowdown : spec_float;
  pe_sum_response_time : spec_float;
  pe_sum_wait_time : spec_float;
  pe_sum_slowdown : spec_float;
  pe_fairness : spec_float
}.

#[export] Instance plan_eval_fields : Fields plan_eval :=
  fields_app (fields_app (fields_app (fields_app (fields_app (fields_app (fields_app (fields_app (fields_app (fields_app
  (fields_const mkEval) pe_start_time) pe_end_time) pe_num_jobs) pe_response_time) pe_wait_time) pe_slowdown)
  pe_sum_response_time) pe_sum_wait_time) pe_sum_slowdown) pe_fairness.

(** The time is put in an [int]. *)
Definition end_of (j : JobInfo) (job : plan_job) (real : bool) : Z :=
  i32 (if real then compl_time j else pj_completion_time job).

Definition dsqrt (x : spec_float) : spec_float := SFsqrt (prec (Format := binary64)) (emax (Format := binary64)) x.

(** The root of the number of processors. *)
Definition size_weight (job : plan_job) : spec_float := dsqrt (double_of (i32 (pj_req_ppn job * pj_req_num_nodes job))).

Definition job_response_time (j : JobInfo) (job : plan_job) (real : bool) : spec_float :=
  double_of (i64 (end_of j job real - qtime j)).

Definition job_wait_time (j : JobInfo) (job : plan_job) : spec_float :=
  dmul (double_of (i64 (pj_start_time job - qtime j))) (size_weight job).

Definition job_slowdown_time (j : JobInfo) (job : plan_job) (real : bool) : spec_float :=
  let completion_time := end_of j job real in
  if i64 (completion_time - pj_start_time job) <? 1 then double_of (i64 (completion_time - qtime j))
  else dmul (ddiv (double_of (i64 (completion_time - qtime j))) (double_of (i64 (completion_time - pj_start_time job))))
         (size_weight job).

Definition evaluation_reset : plan_eval := mkEval 0 0 0 fzero fzero fzero fzero fzero fzero fzero.

Definition evaluation_calc_criterion (e : plan_eval) : plan_eval :=
  if pe_num_jobs e >? 0 then
    let n := double_of (pe_num_jobs e) in
    e <| pe_response_time := ddiv (pe_sum_response_time e) n |> <| pe_slowdown := ddiv (pe_sum_slowdown e) n |>
      <| pe_wait_time := ddiv (pe_sum_wait_time e) n |>
  else e <| pe_start_time := 0 |> <| pe_end_time := 0 |>.

Definition evaluation_add_job (e : plan_eval) (j : JobInfo) (job : plan_job) (jobfinished : bool) : plan_eval :=
  let completion_time := end_of j job jobfinished in
  let e := if (pe_start_time e =? 0) || (pe_start_time e >? pj_start_time job)
           then e <| pe_start_time := pj_start_time job |> else e in
  let e := if pe_end_time e <? completion_time then e <| pe_end_time := completion_time |> else e in
  e <| pe_sum_response_time := dadd (pe_sum_response_time e) (job_response_time j job jobfinished) |>
    <| pe_sum_slowdown := dadd (pe_sum_slowdown e) (job_slowdown_time j job jobfinished) |>
    <| pe_sum_wait_time := dadd (pe_sum_wait_time e) (job_wait_time j job) |>
    <| pe_num_jobs := i32 (pe_num_jobs e + 1) |>.

Section Evaluate.
Variable jinfos : gmap positive JobInfo.

(** The queued jobs of a cluster are counted; the end of the plan is the start of
    the last gap of the last cluster, or the end of a later job there. *)
Definition evaluate_cluster (h : heap plan_job) (gaps : heap plan_gap) (st : sched * plan_eval) (k : nat)
  : outcome (sched * plan_eval) :=
  let (s, e) := st in
  let! gl := of_option (s_gaps s !! k) in
  let! x := of_option (last_item gl) in
  let! gap := item_at gaps x in
  walk_jobs (fun _ job e =>
    let! j := job_info jinfos job in
    Ret (if bool_decide (state j = JobQueued) then evaluation_add_job e j job false else e)) h k
    (s, e <| pe_end_time := pg_start_time gap |>).

Definition evaluate_schedule (s : sched) (h : heap plan_job) (gaps : heap plan_gap) (fslist : fairshare_list)
  : outcome (sched * fairshare_list * plan_eval) :=
  let! (s, e) := ofold (evaluate_cluster h gaps) (clusters_of s) (s, evaluation_reset) in
  let! (s, fslist) := fairshare_get_planned_from_schedule jinfos s h fslist in
  let (fslist, fairness) := fairshare_result_max fslist in
  Ret (s, fslist, evaluation_calc_criterion (e <| pe_fairness := fairness |>)).
End Evaluate.
