(* ===== verification/PlanEvalSpec.v ===== *)
(** * Judging a plan

    [evaluate_schedule] only looks at a plan: evaluating it again gives the same
    evaluation, though the accounts it has met the first time are known then.
    An account without any job or use makes the fairness of every plan a NaN. *)

From Stdlib Require Import ZArith Lia Bool Ascii String SpecFloat.
From S2P Require Import Prelude CString CFloat MiscHelpers Resource DataTypes JobInfo PlanData PlanList PlanValues PlanClusters PlanFairshare PlanEval.

Open Scope Z_scope.
Local Open Scope sched_scope.

(** ** Accounts *)

(** The entry of an account is changed, after it is added when it is new. *)
Definition touch (f : user_info -> user_info) (account : string) (us : fairshare_list) : fairshare_list :=
  let (i, us) := find_user account us in alter f i us.

Definition ensure (account : string) (us : fairshare_list) : fairshare_list := (find_user account us).2.

(** Changes that are of the planned values only. *)
Record planned_only (f : user_info -> user_info) : Prop := {
  po_account u : ui_account (f u) = ui_account u;
  po_reset u : reset_user (f u) = reset_user u;
  po_max u v : f (u <| normalized_max_value := v |>) = f u <| normalized_max_value := v |>
}.

Definition strip (us : fairshare_list) : fairshare_list := (fun u => u <| normalized_max_value := fzero |>) <$> us.

Lemma position_same a us us' : ui_account <$> us = ui_account <$> us' -> user_position a us = user_position a us'.
Proof.
  revert us'. induction us as [|u us IH]; intros [|u' us'] H; simplify_eq/=; try done.
  match goal with H : ui_account u = _ |- _ => rewrite H end. by rewrite (IH us').
Qed.

Lemma position_app a us us' i : user_position a us = Some i -> user_position a (us ++ us') = Some i.
Proof.
  revert i. induction us as [|u us IH]; intros i H; simplify_eq/=. destruct (_ =? 0); [done|].
  destruct (user_position a us) as [j|]; [|done]. by rewrite (IH j).
Qed.

Lemma position_lt a us i : user_position a us = Some i -> (i < length us)%nat.
Proof.
  revert i. induction us as [|u us IH]; intros i H; simplify_eq/=. destruct (_ =? 0); [simplify_eq; lia|].
  destruct (user_position a us) as [j|]; simplify_eq/=. specialize (IH j eq_refl). lia.
Qed.

Lemma position_new a us : user_position a us = None -> user_position a (fairshare_add_user a us) = Some (length us).
Proof.
  unfold fairshare_add_user. induction us as [|u us IH]; simpl; [by rewrite strcmp_refl|].
  destruct (_ =? 0); [done|]. destruct (user_position a us); [done|]. intros _. by rewrite IH.
Qed.

Lemma ensure_found a us : exists i, user_position a (ensure a us) = Some i.
Proof.
  unfold ensure, find_user. destruct (user_position a us) as [i|] eqn:E; simpl; [by exists i|]. eexists. by apply position_new.
Qed.

Lemma touch_found f a us i : user_position a us = Some i -> touch f a us = alter f i us.
Proof. intros H. unfold touch, find_user. by rewrite H. Qed.

Lemma touch_ensure f a us : touch f a (ensure a us) = touch f a us.
Proof.
  unfold touch, ensure, find_user. destruct (user_position a us) as [i|] eqn:E; simpl; [by rewrite E|].
  by rewrite (position_new a us E).
Qed.

Section Planned.
Variable f : user_info -> user_info.
Hypothesis Hf : planned_only f.

Lemma accounts_alter (i : nat) (us : fairshare_list) : ui_account <$> alter f i us = ui_account <$> us.
Proof. revert i. induction us as [|u us IH]; intros [|i]; cbn; f_equal; auto using po_account. Qed.

Lemma ensure_alter a i us : (i < length us)%nat -> ensure a (alter f i us) = alter f i (ensure a us).
Proof.
  intros Hi. unfold ensure, find_user. rewrite (position_same a (alter f i us) us) by apply accounts_alter.
  destruct (user_position a us); simpl; [done|]. unfold fairshare_add_user. by rewrite alter_app_l.
Qed.

Lemma touch_after_ensure a b us i : user_position a us = Some i -> touch f a (ensure b us) = ensure b (touch f a us).
Proof.
  intros H. rewrite (touch_found _ _ _ _ H), ensure_alter by (by eapply position_lt). apply touch_found.
  unfold ensure, find_user. destruct (user_position b us); simpl; [done|]. by apply position_app.
Qed.

Lemma reset_touch a us : fairshare_reset_planned_values (touch f a us) = ensure a (fairshare_reset_planned_values us).
Proof.
  unfold touch, ensure, find_user. rewrite (position_same a (fairshare_reset_planned_values us) us)
    by (unfold fairshare_reset_planned_values; by rewrite <- list_fmap_compose).
  assert (Halt : forall i us, fairshare_reset_planned_values (alter f i us) = fairshare_reset_planned_values us).
  { clear us. intros i us. revert i. induction us as [|u us IH]; intros [|i]; [done|done| |]; unfold fairshare_reset_planned_values in *;
      rewrite !fmap_cons; cbn; f_equal; [apply (po_reset _ Hf)|apply IH]. }
  destruct (user_position a us) as [i|]; rewrite Halt; [done|]. unfold fairshare_add_user, fairshare_reset_planned_values.
  by rewrite fmap_app.
Qed.

Lemma strip_touch a us : strip (touch f a us) = touch f a (strip us).
Proof.
  unfold touch, find_user. rewrite (position_same a (strip us) us) by (unfold strip; by rewrite <- list_fmap_compose).
  assert (Halt : forall i us, strip (alter f i us) = alter f i (strip us)).
  { clear us. intros i us. revert i. induction us as [|u us IH]; intros [|i]; [done|done| |]; unfold strip in *; cbn; f_equal; [|apply IH].
    symmetry. apply (po_max _ Hf). }
  destruct (user_position a us) as [i|]; rewrite Halt; [done|]. unfold strip, fairshare_add_user.
  by rewrite fmap_app, length_fmap.
Qed.
End Planned.

Lemma strip_ensure a us : strip (ensure a us) = ensure a (strip us).
Proof.
  unfold ensure, find_user. rewrite (position_same a (strip us) us) by (unfold strip; by rewrite <- list_fmap_compose).
  destruct (user_position a us); simpl; [done|]. unfold strip, fairshare_add_user. by rewrite fmap_app.
Qed.

(** A sequence of changes of planned values. *)
Definition touches (ops : list (string * (user_info -> user_info))) (us : fairshare_list) : fairshare_list :=
  fold_left (fun us op => touch op.2 op.1 us) ops us.
Definition ensures (ops : list (string * (user_info -> user_info))) (us : fairshare_list) : fairshare_list :=
  fold_left (fun us op => ensure op.1 us) ops us.
Definition planned_ops (ops : list (string * (user_info -> user_info))) : Prop := Forall (fun op => planned_only op.2) ops.

Lemma ensures_keep a ops us i : user_position a us = Some i -> user_position a (ensures ops us) = Some i.
Proof.
  revert us. induction ops as [|[b f] ops IH]; intros us H; simpl; [done|]. apply IH.
  unfold ensure, find_user. destruct (user_position b us); simpl; [done|]. by apply position_app.
Qed.

Lemma touch_after_ensures f a ops us i :
  planned_only f -> user_position a us = Some i -> touch f a (ensures ops us) = ensures ops (touch f a us).
Proof.
  intros Hf. revert us. induction ops as [|[b g] ops IH]; intros us H; simpl; [done|].
  rewrite <- (touch_after_ensure f Hf a b us i H). apply IH.
  unfold ensure, find_user. destruct (user_position b us); simpl; [done|]. by apply position_app.
Qed.

(** Knowing the accounts beforehand changes nothing. *)
Lemma touches_ensures ops us : planned_ops ops -> touches ops (ensures ops us) = touches ops us.
Proof.
  intros H. revert us. induction H as [|[a f] ops Hf H IH]; intros us; [done|]. simpl in *.
  destruct (ensure_found a us) as (i & Hi). rewrite (touch_after_ensures f a ops (ensure a us) i Hf Hi).
  by rewrite IH, touch_ensure.
Qed.

Lemma reset_touches ops us : planned_ops ops ->
  fairshare_reset_planned_values (touches ops us) = ensures ops (fairshare_reset_planned_values us).
Proof.
  intros H. revert us. induction H as [|[a f] ops Hf H IH]; intros us; [done|]. simpl. by rewrite IH, reset_touch.
Qed.

Lemma strip_touches ops us : planned_ops ops -> strip (touches ops us) = touches ops (strip us).
Proof.
  intros H. revert us. induction H as [|[a f] ops Hf H IH]; intros us; [done|]. simpl. by rewrite IH, strip_touch.
Qed.

Lemma strip_ensures ops us : strip (ensures ops us) = ensures ops (strip us).
Proof. revert us. induction ops as [|[a f] ops IH]; intros us; [done|]. simpl. by rewrite IH, strip_ensure. Qed.

Lemma reset_twice us :
  fairshare_reset_planned_values (fairshare_reset_planned_values us) = fairshare_reset_planned_values us.
Proof. unfold fairshare_reset_planned_values. rewrite <- list_fmap_compose. by apply list_fmap_ext. Qed.

Lemma reset_strip us : strip (fairshare_reset_planned_values us) = fairshare_reset_planned_values (strip us).
Proof. unfold strip, fairshare_reset_planned_values. rewrite <- !list_fmap_compose. by apply list_fmap_ext. Qed.

Lemma result_max_strip us : fairshare_result_max us = fairshare_result_max (strip us).
Proof.
  unfold fairshare_result_max.
  assert (E : (fun u => u <| normalized_max_value := to_double (lddiv (total_waittime u) (ldadd (completed_Fu u) (planned_Fu u))) |>) <$> us
    = (fun u => u <| normalized_max_value := to_double (lddiv (total_waittime u) (ldadd (completed_Fu u) (planned_Fu u))) |>) <$> strip us).
  { unfold strip. rewrite <- list_fmap_compose. by apply list_fmap_ext. }
  by rewrite E.
Qed.

Lemma strip_result_max us : strip (fairshare_result_max us).1 = strip us.
Proof. unfold fairshare_result_max, strip. simpl. rewrite <- list_fmap_compose. by apply list_fmap_ext. Qed.

(** The planned values are the same when they are taken again. *)
Lemma result_max_again ops us : planned_ops ops ->
  let us1 := (fairshare_result_max (touches ops (fairshare_reset_planned_values us))).1 in
  fairshare_result_max (touches ops (fairshare_reset_planned_values us1))
  = fairshare_result_max (touches ops (fairshare_reset_planned_values us)).
Proof.
  intros H us1. rewrite (result_max_strip (touches _ (_ us1))), (result_max_strip (touches _ (_ us))). f_equal.
  rewrite !strip_touches by done. rewrite !reset_strip. unfold us1. rewrite strip_result_max, strip_touches by done.
  rewrite reset_touches by done. rewrite reset_strip, reset_twice. by rewrite touches_ensures.
Qed.

(** ** The walks over the schedule *)

(** A cluster of a schedule: its jobs, and the start of its last gap. *)
Record shown := mkShown { sh_cluster : plan_cluster; sh_jobs : list plan_job; sh_end : Z }.

Section Shown.
Variable jinfos : gmap positive JobInfo.
Variable h : heap plan_job.
Variable gaps : heap plan_gap.

Record shows_cluster (s : sched) (k : nat) (p : shown) : Prop := {
  sc_cluster : s_clusters s !! k = Some (sh_cluster p);
  sc_jobs : exists jl xs, s_jobs s !! k = Some jl /\ values_are h jl xs (sh_jobs p);
  sc_gap : exists gl x gap, s_gaps s !! k = Some gl /\ last_item gl = Some x /\ item_at gaps x = Ret gap /\ pg_start_time gap = sh_end p
}.

Record shows (s : sched) (ps : list shown) : Prop := {
  ss_num : s_num_clusters s = Z.of_nat (length ps);
  ss_clusters k p : ps !! k = Some p -> shows_cluster s k p
}.

Lemma shows_jobs s ps k jl xs p :
  shows s ps -> ps !! k = Some p -> values_are h jl xs (sh_jobs p) -> shows (s <| s_jobs := <[k := jl]> (s_jobs s) |>) ps.
Proof.
  intros Hs Hp Hv. split; [apply (ss_num _ _ Hs)|]. intros k' p' Hk'. destruct (ss_clusters _ _ Hs _ _ Hk') as [H1 H2 H3].
  split; [done| |done]. destruct (decide (k = k')) as [<-|Hne].
  - destruct H2 as (jl0 & xs0 & E0 & _). exists jl, xs. change (<[k := jl]> (s_jobs s) !! k = Some jl /\ values_are h jl xs (sh_jobs p')).
    rewrite list_lookup_insert_eq by (by eapply lookup_lt_Some). split; [done|]. by assert (p' = p) as -> by congruence.
  - destruct H2 as (jl0 & xs0 & E0 & Hv0). exists jl0, xs0.
    change (<[k := jl]> (s_jobs s) !! k' = Some jl0 /\ values_are h jl0 xs0 (sh_jobs p')). by rewrite list_lookup_insert_ne.
Qed.

Lemma walk_jobs_ok {S} (f : plan_cluster -> plan_job -> S -> outcome S) (g : plan_cluster -> plan_job -> S -> S) s ps k p acc :
  shows s ps -> ps !! k = Some p -> (forall job a, job ∈ sh_jobs p -> f (sh_cluster p) job a = Ret (g (sh_cluster p) job a)) ->
  exists s', walk_jobs f h k (s, acc) = Ret (s', fold_left (fun a job => g (sh_cluster p) job a) (sh_jobs p) acc) /\ shows s' ps.
Proof.
  intros Hs Hp Hf. destruct (ss_clusters _ _ Hs _ _ Hp) as [H1 (jl & xs & E & Hv) _].
  unfold walk_jobs. rewrite E, H1. cbn [of_option obind].
  assert (Hfold : forall vs, (forall job, job ∈ vs -> job ∈ sh_jobs p) -> forall a,
    fold_until (fun job _ a => let! a := f (sh_cluster p) job a in Ret (a, true)) vs a
      = Ret (fold_left (fun a job => g (sh_cluster p) job a) vs a)).
  { induction vs as [|v vs IH]; intros Hin a; [done|]. cbn [fold_until fold_left]. rewrite Hf by (apply Hin; by left).
    cbn [obind]. apply IH. intros job Hj. apply Hin. by right. }
  pose proof (for_each_fold (fun x h l acc => let! job := item_at h x in let! acc := f (sh_cluster p) job acc in Ret (h, l, acc, true))
    (fun job _ a => let! a := f (sh_cluster p) job a in Ret (a, true)) xs (sh_jobs p) h jl acc) as H.
  rewrite (Hfold (sh_jobs p)) in H by done. destruct H as (l' & El & Hv'); [|done|].
  - intros x v w l a _ (sc & pd & Hx & _). unfold item_at. rewrite Hx. cbn [of_option obind item].
    by destruct (f (sh_cluster p) v a).
  - rewrite El. cbn [obind]. eexists. split; [done|]. by eapply shows_jobs.
Qed.

Lemma over_clusters {S} (F : sched * S -> nat -> outcome (sched * S)) (G : shown -> S -> S) ps :
  (forall s acc k p, shows s ps -> ps !! k = Some p -> exists s', F (s, acc) k = Ret (s', G p acc) /\ shows s' ps) ->
  forall s acc, shows s ps ->
  exists s', ofold F (clusters_of s) (s, acc) = Ret (s', fold_left (fun a p => G p a) ps acc) /\ shows s' ps.
Proof.
  intros HF s acc Hs. unfold clusters_of. rewrite (ss_num _ _ Hs), Nat2Z.id.
  assert (Hgen : forall qs n s acc, shows s ps -> (forall k p, qs !! k = Some p -> ps !! (n + k)%nat = Some p) ->
    exists s', ofold F (seq n (length qs)) (s, acc) = Ret (s', fold_left (fun a p => G p a) qs acc) /\ shows s' ps).
  { clear s acc Hs. induction qs as [|q qs IH]; intros n s acc Hs Hq; [by exists s|]. cbn [length seq ofold fold_left].
    destruct (HF s acc n q Hs) as (s1 & E1 & Hs1); [rewrite <- (Nat.add_0_r n); by apply Hq|]. rewrite E1. cbn [obind].
    apply IH; [done|]. intros k p Hk. replace (Datatypes.S n + k)%nat with (n + Datatypes.S k)%nat by lia. by apply Hq. }
  by apply (Hgen ps 0%nat).
Qed.

(** ** The evaluation *)

(** What the server reported of a job. *)
Definition info_of (job : plan_job) : JobInfo := match job_info jinfos job with Ret j => j | _ => new_JobInfo "" end.

(** Every job is known, and none is completed. *)
Definition known_jobs (ps : list shown) : Prop :=
  Forall (fun p => Forall (fun job => exists j, job_info jinfos job = Ret j /\ state j <> JobCompleted) (sh_jobs p)) ps.

Definition job_change (p : shown) (job : plan_job) (u : user_info) : user_info :=
  let cpus := pc_num_running_cpus (sh_cluster p) in
  let ram := pc_available_ram (sh_cluster p) in
  if (cpus >? 0) && (ram >? 0) then
    u <| planned_Fu := ldadd (planned_Fu u) (dmul (job_share job cpus ram) (double_of (pj_estimated_processing job))) |>
      <| planned_cputime := i64 (planned_cputime u
           + i64 (i64 (pj_estimated_processing job * pj_req_ppn job) * pj_req_num_nodes job)) |>
      <| planned_waittime := i64 (planned_waittime u + i64 (pj_start_time job - qtime (info_of job))) |>
      <| num_planned_jobs := i32 (num_planned_jobs u + 1) |>
  else u.

Definition job_op (p : shown) (job : plan_job) : string * (user_info -> user_info) :=
  (account (info_of job), job_change p job).

Definition all_ops (ps : list shown) : list (string * (user_info -> user_info)) :=
  flat_map (fun p => job_op p <$> sh_jobs p) ps.

Lemma job_change_planned p job : planned_only (job_change p job).
Proof. split; intros; unfold job_change; by destruct (_ && _). Qed.

Lemma all_ops_planned ps : planned_ops (all_ops ps).
Proof.
  apply Forall_forall. intros op Hop. unfold all_ops in Hop. apply list_elem_of_In, in_flat_map in Hop as (p & _ & Hop).
  apply list_elem_of_In, list_elem_of_fmap in Hop as (job & -> & _). apply job_change_planned.
Qed.

Lemma add_job_touch p job us : state (info_of job) <> JobCompleted ->
  fairshare_add_job (info_of job) job (pc_num_running_cpus (sh_cluster p)) (pc_available_ram (sh_cluster p)) us
  = touch (job_change p job) (account (info_of job)) us.
Proof.
  intros Hj. unfold fairshare_add_job. rewrite bool_decide_false by done. unfold fairshare_add_planned_values, touch.
  destruct (find_user _ _) as [i us']. unfold job_change. destruct (_ && _); [done|]. by rewrite list_alter_id.
Qed.

Lemma planned_users_ok s ps us : shows s ps -> known_jobs ps ->
  exists s', fairshare_get_planned_from_schedule jinfos s h us
    = Ret (s', touches (all_ops ps) (fairshare_reset_planned_values us)) /\ shows s' ps.
Proof.
  intros Hs Hk. unfold fairshare_get_planned_from_schedule.
  destruct (over_clusters (fun st k => walk_jobs (fun cl job us => let! j := job_info jinfos job in
      Ret (fairshare_add_job j job (pc_num_running_cpus cl) (pc_available_ram cl) us)) h k st)
    (fun p us => touches (job_op p <$> sh_jobs p) us) ps) with (s := s) (acc := fairshare_reset_planned_values us)
    as (s' & E & Hs'); [|done|].
  - intros s1 acc k p Hs1 Hp. pose proof (Forall_lookup_1 _ _ _ _ Hk Hp) as Hjobs. rewrite Forall_forall in Hjobs.
    destruct (walk_jobs_ok (fun cl job us => let! j := job_info jinfos job in
        Ret (fairshare_add_job j job (pc_num_running_cpus cl) (pc_available_ram cl) us))
      (fun _ job us => touch (job_change p job) (account (info_of job)) us) s1 ps k p acc Hs1 Hp) as (s2 & E2 & Hs2).
    + intros job a Hjob. destruct (Hjobs job Hjob) as (j & Ej & Hc).
      assert (Hi : info_of job = j) by (unfold info_of; by rewrite Ej). rewrite Ej. cbn [obind]. rewrite <- Hi.
      rewrite add_job_touch by (by rewrite Hi). done.
    + exists s2. rewrite E2. split; [|done]. do 2 f_equal. unfold touches.
      clear. generalize acc. induction (sh_jobs p) as [|job jobs IH]; intros a; [done|]. simpl. apply IH.
  - exists s'. rewrite E. split; [|done]. do 2 f_equal. generalize (fairshare_reset_planned_values us). clear.
    induction ps as [|p ps IH]; intros us; [done|]. simpl. rewrite IH. unfold touches. by rewrite fold_left_app.
Qed.

Definition eval_cluster (p : shown) (e : plan_eval) : plan_eval :=
  fold_left (fun e job => if bool_decide (state (info_of job) = JobQueued) then evaluation_add_job e (info_of job) job false else e)
    (sh_jobs p) (e <| pe_end_time := sh_end p |>).

Lemma evaluate_cluster_ok s ps k p e : shows s ps -> known_jobs ps -> ps !! k = Some p ->
  exists s', evaluate_cluster jinfos h gaps (s, e) k = Ret (s', eval_cluster p e) /\ shows s' ps.
Proof.
  intros Hs Hk Hp. destruct (ss_clusters _ _ Hs _ _ Hp) as [_ _ (gl & x & gap & E1 & E2 & E3 & E4)].
  pose proof (Forall_lookup_1 _ _ _ _ Hk Hp) as Hjobs. rewrite Forall_forall in Hjobs.
  unfold evaluate_cluster. rewrite E1. cbn [of_option obind]. rewrite E2. cbn [of_option obind]. rewrite E3. cbn [obind]. rewrite E4.
  apply (walk_jobs_ok _ (fun _ job e => if bool_decide (state (info_of job) = JobQueued)
    then evaluation_add_job e (info_of job) job false else e) s ps k p); [done|done|].
  intros job a Hjob. destruct (Hjobs job Hjob) as (j & Ej & _). unfold info_of. rewrite Ej. done.
Qed.

Definition judged (ps : list shown) (us : fairshare_list) : fairshare_list * plan_eval :=
  let e := fold_left (fun e p => eval_cluster p e) ps evaluation_reset in
  let (us, fairness) := fairshare_result_max (touches (all_ops ps) (fairshare_reset_planned_values us)) in
  (us, evaluation_calc_criterion (e <| pe_fairness := fairness |>)).

Lemma evaluate_schedule_ok s ps us : shows s ps -> known_jobs ps ->
  exists s', evaluate_schedule jinfos s h gaps us = Ret (s', (judged ps us).1, (judged ps us).2) /\ shows s' ps.
Proof.
  intros Hs Hk. unfold evaluate_schedule.
  destruct (over_clusters (evaluate_cluster jinfos h gaps) eval_cluster ps) with (s := s) (acc := evaluation_reset) as (s1 & E1 & Hs1);
    [intros; by apply evaluate_cluster_ok|done|]. rewrite E1. cbn [obind].
  destruct (planned_users_ok s1 ps us Hs1 Hk) as (s2 & E2 & Hs2). rewrite E2. cbn [obind]. unfold judged.
  destruct (fairshare_result_max _) as [us' fairness]. by exists s2.
Qed.
End Shown.

(** C20: [evaluate_schedule] gives a plan its evaluation without changing it, and
    evaluating the plan again, with the accounts that were added and the values
    that were left the first time, gives the same evaluation and the same
    accounts: what [plan_optimization] compares depends on the plans alone.  The
    plan may have any clusters and jobs, of which none is completed. *)
Theorem evaluation_is_repeatable jinfos h gaps s ps us :
  shows h gaps s ps -> known_jobs jinfos ps ->
  exists s1 us1 e, evaluate_schedule jinfos s h gaps us = Ret (s1, us1, e) /\ shows h gaps s1 ps /\
    exists s2, evaluate_schedule jinfos s1 h gaps us1 = Ret (s2, us1, e) /\ shows h gaps s2 ps.
Proof.
  intros Hs Hk. destruct (evaluate_schedule_ok jinfos h gaps s ps us Hs Hk) as (s1 & E1 & Hs1).
  exists s1, (judged jinfos ps us).1, (judged jinfos ps us).2. split; [done|]. split; [done|].
  destruct (evaluate_schedule_ok jinfos h gaps s1 ps (judged jinfos ps us).1 Hs1 Hk) as (s2 & E2 & Hs2).
  exists s2. split; [|done]. rewrite E2. unfold judged.
  destruct (fairshare_result_max (touches _ (fairshare_reset_planned_values us))) as [us1 f1] eqn:E. cbn [fst snd].
  pose proof (result_max_again (all_ops jinfos ps) us (all_ops_planned jinfos ps)) as H. cbv zeta in H.
  rewrite E in H. cbn [fst] in H. by rewrite H.
Qed.

(** ** Idle accounts *)

Lemma nan_add {F : Format} x : fadd x S754_nan = S754_nan.
Proof. by destruct x. Qed.
Lemma nan_sum (f : user_info -> spec_float) (add : spec_float -> spec_float -> spec_float) us a :
  (forall x, add S754_nan x = S754_nan) -> (forall x, add x S754_nan = S754_nan) ->
  a = S754_nan \/ (exists u, u ∈ us /\ f u = S754_nan) -> fold_left (fun a u => add a (f u)) us a = S754_nan.
Proof.
  intros Hl Hr. revert a. induction us as [|u us IH]; intros a H; simpl.
  - destruct H as [->|(u & Hu & _)]; [done|by apply not_elem_of_nil in Hu].
  - apply IH. destruct H as [->|(v & Hv & E)]; [left; apply Hl|]. apply elem_of_cons in Hv as [->|Hv]; [left; by rewrite E|].
    right. by exists v.
Qed.

(** An account that neither has used nor plans to use anything, such as one whose
    jobs were all deleted while queued, has the value 0/0; it makes the fairness of
    every plan a NaN. *)
Lemma idle_account_spoils_fairness us u :
  u ∈ us -> i64 (completed_waittime u + planned_waittime u) = 0 -> completed_Fu u = fzero -> planned_Fu u = fzero ->
  (fairshare_result_max us).2 = S754_nan.
Proof.
  intros Hu Hw Hc Hp. unfold fairshare_result_max.
  set (g := fun u => u <| normalized_max_value := to_double (lddiv (total_waittime u) (ldadd (completed_Fu u) (planned_Fu u))) |>).
  assert (Hg : g u ∈ g <$> us) by by apply list_elem_of_fmap_2.
  assert (Hn : normalized_max_value (g u) = S754_nan).
  { unfold g. cbn. unfold total_waittime. rewrite Hw, Hc, Hp. vm_compute. reflexivity. }
  cbv zeta. assert (Hsum : fold_left (fun uwt u => ldadd uwt (normalized_max_value u)) (g <$> us) fzero = S754_nan).
  { apply (nan_sum normalized_max_value); [done|apply nan_add|]. right. by exists (g u). }
  rewrite Hsum. cbn [snd]. unfold square_sum.
  rewrite (nan_sum (fun v => ldmul (ldsub (ldadd (double_of 1) (lddiv S754_nan (double_of (Z.of_nat (length (g <$> us))))))
    (normalized_max_value v)) (ldsub (ldadd (double_of 1) (lddiv S754_nan (double_of (Z.of_nat (length (g <$> us))))))
    (normalized_max_value v)))); [done|done|apply nan_add|]. right. exists (g u). split; [done|]. rewrite Hn.
  change (lddiv S754_nan (double_of (Z.of_nat (length (g <$> us))))) with S754_nan. vm_compute. reflexivity.
Qed.

(** ** Example *)

Definition example_eval_job (jinfo : positive) (start : Z) : plan_job :=
  mkPlanJob 7 (Some jinfo) start (start + 100) 100 0 0 0 2 2 0 1 10 0 0 [None] None None [] [] None false 0.
Definition example_eval_infos : gmap positive JobInfo := list_to_map
  [(1%positive, new_JobInfo "7.srv" <| state := JobQueued |> <| account := "alice"%string |> <| qtime := 50 |>);
   (2%positive, new_JobInfo "8.srv" <| state := JobRunning |> <| account := "bob"%string |> <| qtime := 20 |>)].
Definition example_eval_heap : heap plan_job := list_to_map
  [(1%positive, mkCell (example_eval_job 1 300) (Some 2%positive) None); (2%positive, mkCell (example_eval_job 2 100) None (Some 1%positive))].
Definition example_eval_gaps : heap plan_gap := {[ 1%positive := mkCell (mkPlanGap 400 PlanGaps.LONG_MAX PlanGaps.LONG_MAX 4 0 None None) None None ]}.
Definition example_eval_cluster : plan_cluster := mkCluster None 0 ∅ None 0 [] [] 4 4 1 1000.
Definition example_eval_sched : sched :=
  mkSched 1 [example_eval_cluster] [mkList 2 (Some 1%positive) (Some 2%positive) None] [mkList 1 (Some 1%positive) (Some 1%positive) None]
    [PlanList.list_create] [1].
Definition example_shown : list shown := [mkShown example_eval_cluster [example_eval_job 1 300; example_eval_job 2 100] 400].

Lemma evaluation_is_repeatable_witness :
  (let! (_, us, e) := evaluate_schedule example_eval_infos example_eval_sched example_eval_heap example_eval_gaps [] in
   Ret (ui_account <$> us, pe_num_jobs e, pe_end_time e, pe_response_time e)) = Ret (["alice"; "bob"]%string, 1, 400, double_of 350) /\
  exists s1 us1 e, evaluate_schedule example_eval_infos example_eval_sched example_eval_heap example_eval_gaps [] = Ret (s1, us1, e) /\
    shows example_eval_heap example_eval_gaps s1 example_shown /\
    exists s2, evaluate_schedule example_eval_infos s1 example_eval_heap example_eval_gaps us1 = Ret (s2, us1, e) /\
      shows example_eval_heap example_eval_gaps s2 example_shown.
Proof.
  split; [vm_compute; reflexivity|].
  apply (evaluation_is_repeatable example_eval_infos example_eval_heap example_eval_gaps example_eval_sched example_shown []).
  - split; [reflexivity|]. intros [|k] p Hp; [|destruct k; discriminate Hp]. injection Hp as <-. split; [reflexivity| |].
    + exists (mkList 2 (Some 1%positive) (Some 2%positive) None), [1%positive; 2%positive]. split; [reflexivity|]. split.
      * split; [apply (bool_decide_unpack _); vm_compute; exact I| |reflexivity|reflexivity|reflexivity].
        repeat split; eexists; reflexivity.
      * repeat constructor.
    + do 3 eexists. repeat split.
  - repeat constructor; eexists; (split; [reflexivity|discriminate]).
Defined.
