(* ===== verification/PlanOptim.v ===== *)
(** * The optimisation of a plan: plan_optimization.cpp

    A job is taken from its place and put to another one, the cluster is planned
    anew, and the old order is restored when the plan has not become better.  The
    names of nodes fixed for the moved job are kept apart in the meantime. *)

From Stdlib Require Import ZArith Lia Bool Ascii String SpecFloat.
From S2P Require Import Prelude CString CFloat MiscHelpers Resource DataTypes Config NodeData JobInfo NodeLogic PlanData PlanList PlanValues PlanGaps PlanLimits PlanTime PlanClusters PlanSlots PlanFind PlanUpdate PlanUpdateJob PlanSched PlanFairshare PlanEval.

Local Open Scope string_scope.
Open Scope Z_scope.
Local Open Scope sched_scope.

(** ** The fixed nodes of a job *)

(** The first [n] entries of an array. *)
Definition entries {A} (n : Z) (l : list A) : outcome (list A) := if n <=? 0 then Ret [] else first_of n l.

(** The names are moved to the backup; an old backup is freed. *)
Definition job_backup_fixnodes (job : plan_job) : outcome (plan_job * bool) :=
  let n := pj_req_num_nodes job in
  match pj_fixed_nname_arr job with
  | None => Ret (job, false)
  | Some names =>
      let! _ := match pj_fixed_nname_arr_backup job with Some b => entries n b | None => Ret [] end in
      if n <? 0 then Ret (job <| pj_fixed_nname_arr_backup := None |>, false)
      else
        let! saved := entries n names in
        Ret (job <| pj_fixed_nname_arr_backup := Some saved |>
                 <| pj_fixed_nname_arr := Some (replicate (length saved) None ++ drop (length saved) names)%list |>, true)
  end.

Definition job_restore_fixnodes (job : plan_job) : outcome (plan_job * bool) :=
  match pj_fixed_nname_arr_backup job with
  | None => Ret (job, false)
  | Some saved =>
      let! _ :=
        if pj_req_num_nodes job <=? 0 then Ret []
        else let! names := of_option (pj_fixed_nname_arr job) in entries (pj_req_num_nodes job) names in
      Ret (job <| pj_fixed_nname_arr := Some saved |> <| pj_fixed_nname_arr_backup := None |>, true)
  end.

Definition free_backup (job : plan_job) : outcome plan_job :=
  match pj_fixed_nname_arr_backup job with
  | None => Ret job
  | Some saved =>
      let! _ := entries (pj_req_num_nodes job) saved in
      Ret (job <| pj_fixed_nname_arr_backup := None |>)
  end.

(** The walk makes as many steps as the list has items. *)
Fixpoint free_backups (n : nat) (h : heap plan_job) (l : plan_list) : outcome (heap plan_job * plan_list) :=
  match n with
  | O => Ret (h, l)
  | S n =>
      let! l := list_get_next h l in
      match current l with
      | None => Ret (h, l)
      | Some x =>
          let! job := item_at h x in
          let! job := free_backup job in
          free_backups n (set_item h x job) l
      end
  end.

Definition job_free_fixnodes_backup (h : heap plan_job) (l : plan_list) : outcome (heap plan_job * plan_list) :=
  free_backups (Z.to_nat (num_items l)) h (l <| current := None |>).

(** ** The order of the jobs *)

Fixpoint collect (n : nat) (h : heap plan_job) (l : plan_list) : outcome (plan_list * list (option positive)) :=
  match n with
  | O => Ret (l, [])
  | S n =>
      let! l := list_get_next h l in
      let! (l', xs) := collect n h l in
      Ret (l', current l :: xs)
  end.

(** The array ends with a null pointer, which is not part of the list. *)
Definition backup_job_order (h : heap plan_job) (l : plan_list) : outcome (plan_list * option (list (option positive))) :=
  if num_items l =? 0 then Ret (l, None)
  else
    let! (l, xs) := collect (Z.to_nat (num_items l)) h (l <| current := None |>) in
    Ret (l, Some xs).

(** The item [x] is linked behind the last one. *)
Definition link_last (h : heap plan_job) (l : plan_list) (x : positive) : outcome (heap plan_job * plan_list) :=
  let! h := match last_item l with Some y => set_successor h (Some y) (Some x) | None => Ret h end in
  let! h := set_predeccessor h (Some x) (last_item l) in
  let! h := set_successor h (Some x) None in
  let l := l <| first := match last_item l with Some _ => first l | None => Some x end |> <| last_item := Some x |> in
  Ret (h, l).

Fixpoint relink (backup : list (option positive)) (h : heap plan_job) (l : plan_list) : outcome (heap plan_job * plan_list) :=
  match backup with
  | Some x :: backup =>
      let! (h, l) := link_last h l x in
      let! job := item_at h x in
      let! (job, _) := job_restore_fixnodes job in
      relink backup (set_item h x job) (l <| num_items := i32 (num_items l + 1) |>)
  | _ => Ret (h, l)
  end.

Definition restore_job_order (h : heap plan_job) (l : plan_list) (backup : option (list (option positive)))
  : outcome (heap plan_job * plan_list) :=
  match backup with
  | None => Ret (h, l)
  | Some xs => if num_items l =? 0 then Ret (h, l) else relink xs h list_create
  end.

(** ** The moves *)

(** [rand()] and [time(0)]: the numbers of the calls made so far. *)
Record calls := mkCalls { draws : nat; readings : nat }.

Section Moves.
Variable badval : Z.
Variable parse_nodespec : string -> option pars_spec.
Variable limits_map : gmap string (gmap Z cluster_limits_arrays).
Variable junk : plan_gap.
Variable create_job : option plan_job.
Variable create_gap : option plan_gap.
Variable create_limit : option plan_limit.
Variable rand : nat -> Z.
Variable clock : nat -> Z.
Variable patience : nat.
Variable conf : config.

Definition with_jobs (st : planner) (k : nat) (h : heap plan_job) (l : plan_list) : planner :=
  mkPlanner (pn_nodes st) (pn_jinfos st) (pn_sched st <| s_jobs := <[k := l]> (s_jobs (pn_sched st)) |>) h (pn_gaps st)
    (pn_limits st) (pn_values st) (pn_values_global st).

Definition jobs_at (st : planner) (k : nat) : outcome plan_list := of_option (s_jobs (pn_sched st) !! k).
Definition cluster_at (st : planner) (k : nat) : outcome plan_cluster := of_option (s_clusters (pn_sched st) !! k).

(** An update that has failed is made once more. *)
Definition update_twice (k : nat) (time : Z) (st : planner) : outcome planner :=
  let! (st, rc) := update_sched badval parse_nodespec limits_map junk create_job create_gap create_limit k time st in
  if rc =? 2 then
    let! (st, _) := update_sched badval parse_nodespec limits_map junk create_job create_gap create_limit k time st in Ret st
  else Ret st.

(** One call of [list_get_random_item]; no number is drawn for a short list. *)
Definition draw_item (h : heap plan_job) (l : plan_list) (limit : Z) (c : calls) : outcome (plan_list * option positive * calls) :=
  let! (l, p) := list_get_random_item h l limit (rand (draws c)) in
  Ret (l, p, if num_items l <? limit then c else mkCalls (S (draws c)) (readings c)).

(** Items are drawn until one passes the test. *)
Fixpoint draw_until (turns : nat) (test : option positive -> outcome bool) (h : heap plan_job) (l : plan_list) (limit : Z)
    (c : calls) : outcome (plan_list * option positive * calls) :=
  match turns with
  | O => endless
  | S turns =>
      let! (l, p, c) := draw_item h l limit c in
      let! ok := test p in
      if ok : bool then Ret (l, p, c) else draw_until turns test h l limit c
  end.

Definition is_queued (jinfos : gmap positive JobInfo) (h : heap plan_job) (p : option positive) : outcome bool :=
  match p with
  | None => Ret false
  | Some x =>
      let! job := item_at h x in
      let! j := job_info jinfos job in
      Ret (bool_decide (state j = JobQueued))
  end.

(** A queued job is drawn, its fixed nodes are set aside, it is taken off the
    list, and the cluster is planned without it. *)
Definition take_random_job (k : nat) (time : Z) (st : planner) (c : calls)
  : outcome (planner * positive * option positive * calls) :=
  let! jl := jobs_at st k in
  let! (jl, p, c) :=
    draw_until patience (is_queued (pn_jinfos st) (pn_jobs st)) (pn_jobs st) jl (optim_minimal_queued conf) c in
  let! x := of_option p in
  let! predeccessor := get_predeccessor (pn_jobs st) (Some x) in
  let! job := item_at (pn_jobs st) x in
  let! (job, _) := job_backup_fixnodes job in
  let! (h, jl, _) := list_remove_item (set_item (pn_jobs st) x job) jl (Some x) false in
  let! st := update_twice k time (with_jobs st k h jl) in
  Ret (st, x, predeccessor, c).

Definition random_job_to_random_position (k : nat) (time : Z) (st : planner) (c : calls) : outcome (planner * calls * Z) :=
  let! cl := cluster_at st k in
  if pc_num_queued_jobs cl <? optim_minimal_queued conf then Ret (st, c, 1)
  else
    let! (st, x, predeccessor, c) := take_random_job k time st c in
    let! jl := jobs_at st k in
    let! (jl, p, c) :=
      draw_until patience (fun p => Ret (negb (bool_decide (p = predeccessor)))) (pn_jobs st) jl
        (i32 (optim_minimal_queued conf - 1)) c in
    let! (h, jl, _) :=
      match p with
      | Some _ => list_add_inbackof create_job (pn_jobs st) jl p (Some x)
      | None => list_add_begin create_job (pn_jobs st) jl (Some x)
      end in
    let! st := update_twice k time (with_jobs st k h jl) in
    Ret (st, c, 0).

(** [find_first_gap] on the state of the planner, for the job [x]. *)
Definition find_gap (k : nat) (fix_job : bool) (x : positive) (st : planner) : outcome (planner * option positive) :=
  let s := pn_sched st in
  let! cl := cluster_at st k in
  let! gl := of_option (s_gaps s !! k) in
  let! ll := of_option (s_limits s !! k) in
  let! job := item_at (pn_jobs st) x in
  let! (se, found) :=
    find_first_gap badval parse_nodespec (pn_jinfos st) (pn_nodes st) limits_map (pn_limits st) cl (pn_gaps st) fix_job
      (mkSearch gl ll job (pn_values st) (pn_values_global st)) in
  let s := s <| s_gaps := <[k := se_gaps se]> (s_gaps s) |> <| s_limits := <[k := se_limits se]> (s_limits s) |> in
  Ret (mkPlanner (pn_nodes st) (pn_jinfos st) s (set_item (pn_jobs st) x (se_job se)) (pn_gaps st) (pn_limits st)
         (se_values se) (se_values_global se), found).

Definition put_in_gap (k : nat) (x gap : positive) (st : planner) : outcome planner :=
  let! jl := jobs_at st k in
  let! g := item_at (pn_gaps st) gap in
  let! (h, jl, _) := job_put_in_gap create_job (pn_jobs st) jl x g in
  Ret (with_jobs st k h jl).

(** The job is lost to the list when no gap is found. *)
Definition random_job_to_first_gap (k : nat) (time : Z) (st : planner) (c : calls) : outcome (planner * calls * Z) :=
  let! cl := cluster_at st k in
  if pc_num_queued_jobs cl <? optim_minimal_queued conf then Ret (st, c, 1)
  else
    let! (st, x, _, c) := take_random_job k time st c in
    let! (st, found) := find_gap k true x st in
    match found with
    | None => Ret (st, c, 1)
    | Some gap =>
        let! g := item_at (pn_gaps st) gap in
        if bool_decide (pg_following_job g = Some x) then Ret (st, c, 1)
        else
          let! st := put_in_gap k x gap st in
          let! st := update_twice k time st in
          Ret (st, c, 0)
    end.

(** ** The loop *)

Definition evaluate (st : planner) (fslist : fairshare_list) : outcome (planner * fairshare_list * plan_eval) :=
  let! (s, fslist, e) := evaluate_schedule (pn_jinfos st) (pn_sched st) (pn_jobs st) (pn_gaps st) fslist in
  Ret (mkPlanner (pn_nodes st) (pn_jinfos st) s (pn_jobs st) (pn_gaps st) (pn_limits st) (pn_values st) (pn_values_global st),
       fslist, e).

(** By how much the plan has become better. *)
Definition weight (factor before after : spec_float) : spec_float := ddiv (dmul factor (dsub before after)) before.

Definition gain (before after : plan_eval) : spec_float :=
  dadd (dadd (dadd (weight (double_of 1) (pe_slowdown before) (pe_slowdown after))
                   (weight (double_of 1) (pe_wait_time before) (pe_wait_time after)))
             (weight fzero (pe_response_time before) (pe_response_time after)))
       (weight (double_of 10) (pe_fairness before) (pe_fairness after)).

Record optimisation := mkOptimisation {
  op_planner : planner;
  op_fslist : fairshare_list;
  op_calls : calls;
  op_before : plan_eval;
  op_num_attempts : Z;
  op_num_success : Z
}.

(** The old order comes back, and the cluster is planned as before. *)
Definition undo_move (k : nat) (time : Z) (backup : option (list (option positive))) (st : planner) : outcome planner :=
  let! jl := jobs_at st k in
  let! (h, jl) := restore_job_order (pn_jobs st) jl backup in
  let! (h, jl) := job_free_fixnodes_backup h jl in
  let! (st, rc) :=
    update_sched badval parse_nodespec limits_map junk create_job create_gap create_limit k time (with_jobs st k h jl) in
  if negb (rc =? 0) then
    let! (st, _) := update_sched badval parse_nodespec limits_map junk create_job create_gap create_limit k time st in Ret st
  else Ret st.

Definition keep_move (k : nat) (st : planner) : outcome planner :=
  let! jl := jobs_at st k in
  let! (h, jl) := job_free_fixnodes_backup (pn_jobs st) jl in
  Ret (with_jobs st k h jl).

Definition judge (k : nat) (time : Z) (backup : option (list (option positive))) (o : optimisation) (st : planner) (c : calls)
  : outcome optimisation :=
  let attempts := i32 (op_num_attempts o + 1) in
  let! (st, fslist, after) := evaluate st (op_fslist o) in
  if fgt (gain (op_before o) after) fzero then
    let! st := keep_move k st in
    Ret (mkOptimisation st fslist c after attempts (i32 (op_num_success o + 1)))
  else
    let! st := undo_move k time backup st in
    let! (st, fslist, _) := evaluate st fslist in
    Ret (mkOptimisation st fslist c (op_before o) attempts (op_num_success o)).

(** One cluster; the second component tells that the time is up. *)
Definition optimise_cluster (deadline time : Z) (st : optimisation * bool) (k : nat) : outcome (optimisation * bool) :=
  let (o, up) := st in
  let! cl := cluster_at (op_planner o) k in
  if pc_num_queued_jobs cl <? optim_minimal_queued conf then Ret (o, up)
  else
    let c := mkCalls (draws (op_calls o)) (S (readings (op_calls o))) in
    if deadline <? clock (readings (op_calls o))
    then Ret (mkOptimisation (op_planner o) (op_fslist o) c (op_before o) (op_num_attempts o) (op_num_success o), true)
    else
      let! jl := jobs_at (op_planner o) k in
      let! (jl, backup) := backup_job_order (pn_jobs (op_planner o)) jl in
      let! (st, c, res) := random_job_to_random_position k time (with_jobs (op_planner o) k (pn_jobs (op_planner o)) jl) c in
      if res =? 0 then let! o := judge k time backup o st c in Ret (o, up)
      else
        let! jl := jobs_at st k in
        let! (h, jl) := restore_job_order (pn_jobs st) jl backup in
        Ret (mkOptimisation (with_jobs st k h jl) (op_fslist o) c (op_before o) (op_num_attempts o) (op_num_success o), up).

(** The cycles end early when the time is up. *)
Fixpoint optimise (cycles : nat) (deadline time : Z) (o : optimisation) : outcome optimisation :=
  match cycles with
  | O => Ret o
  | S cycles =>
      let! (o, up) := ofold (optimise_cluster deadline time) (clusters_of (pn_sched (op_planner o))) (o, false) in
      if up : bool then Ret o else optimise cycles deadline time o
  end.

Definition optim_cycles : nat := 30.
Definition optim_duration : Z := 20.

Definition plan_optimization (time_now : Z) (st : planner) (fslist : fairshare_list) (c : calls) : outcome optimisation :=
  let! (st, fslist, before) := evaluate st fslist in
  let deadline := i64 (optim_duration + clock (readings c)) in
  optimise optim_cycles deadline time_now (mkOptimisation st fslist (mkCalls (draws c) (S (readings c))) before 0 0).
End Moves.
