(* ===== verification/PlanOptimSpec.v ===== *)
(** * What the optimisation undoes

    The order that [backup_job_order] has kept is the one that
    [restore_job_order] makes, whatever was done to the list in between, as long
    as no job was freed; a job that was freed is written to. *)

From Stdlib Require Import ZArith Lia Bool Ascii String SpecFloat.
From S2P Require Import Prelude CString CFloat DataTypes JobInfo PlanData PlanList PlanValues PlanTime PlanClusters PlanSlots PlanGaps PlanFind PlanUpdate PlanFairshare PlanEval PlanEvalSpec PlanOptim.

Open Scope Z_scope.
Local Open Scope sched_scope.

(** ** The backup *)

Lemma collect_walk h zs : forall l ys,
  lists h l (ys ++ zs) -> current l = last ys ->
  exists l', collect (length zs) h l = Ret (l', Some <$> zs) /\ lists h l' (ys ++ zs).
Proof.
  induction zs as [|z zs IH]; intros l ys Hl Hc; [by exists l|]. cbn [collect length].
  rewrite (next_of_walk h l ys _ Hl Hc). cbn [obind head].
  destruct (IH (l <| current := Some z |>) (ys ++ [z])%list) as (l' & E & Hl').
  - rewrite <- (assoc_L (++)). by apply lists_current.
  - by rewrite last_snoc.
  - exists l'. rewrite E. cbn [obind]. split; [done|]. by rewrite <- (assoc_L (++)) in Hl'.
Qed.

Lemma backup_job_order_ok h l xs :
  lists h l xs -> xs <> [] -> exists l', backup_job_order h l = Ret (l', Some (Some <$> xs)) /\ lists h l' xs.
Proof.
  intros Hl Hne. unfold backup_job_order. rewrite (ls_num _ _ _ Hl).
  rewrite (proj2 (Z.eqb_neq _ _)) by (destruct xs; [done|simpl; lia]). rewrite Nat2Z.id.
  destruct (collect_walk h xs (l <| current := None |>) []) as (l' & E & Hl'); [by apply lists_current|done|].
  exists l'. by rewrite E.
Qed.

(** ** The links *)

Section Link.
Variables (h : heap plan_job) (l : plan_list) (ys : list positive) (x : positive) (c : cell plan_job).
Hypothesis Hl : lists h l ys.
Hypothesis Hx : h !! x = Some c.
Hypothesis Hnx : x ∉ ys.
Hypothesis Hsmall : Z.of_nat (length ys) + 1 < 2 ^ 31.

Lemma link_last_num : i32 (num_items l + 1) = Z.of_nat (length (ys ++ [x])).
Proof. rewrite (ls_num _ _ _ Hl), length_app. simpl. rewrite i32_id; [lia|in_range]. Qed.

Lemma link_last_ok : exists h' l', link_last h l x = Ret (h', l') /\
  lists h' (l' <| num_items := i32 (num_items l' + 1) |>) (ys ++ [x]) /\ items h' = items h /\ dom h' = dom h.
Proof.
  destruct c as [a s p]. unfold link_last. rewrite (ls_last _ _ _ Hl).
  assert (Hnd : NoDup (ys ++ [x])).
  { apply NoDup_app. split_and!; [apply (ls_nodup _ _ _ Hl)| |apply NoDup_singleton].
    intros y Hy ->%list_elem_of_singleton. done. }
  pose proof link_last_num as Hnum. pose proof (ls_links _ _ _ Hl) as Hseg. pose proof (ls_first _ _ _ Hl) as Hf.
  destruct ys as [|y ys' _] using rev_ind.
  - cbn [last obind]. rewrite set_predeccessor_hp by eauto. cbn [obind].
    rewrite set_successor_hs by (rewrite hp_is_Some; eauto). cbn [obind].
    eexists _, _. split; [done|]. split; [|split; [by rewrite items_hs, items_hp|unfold hs, hp; by rewrite !dom_alter_L]].
    split; cbn; try done. split; [|done]. exists a. eapply hs_eq, hp_eq, Hx.
  - apply not_elem_of_app in Hnx as [Hnx1 Hnx2]. apply not_elem_of_cons in Hnx2 as [Hxy _].
    rewrite last_snoc. apply NoDup_app in Hnd as (Hnd1 & Hnd2 & Hnd3). pose proof Hnd1 as (_ & Hy & _)%NoDup_app.
    assert (Hyn : y ∉ ys') by (intros Hin; apply (Hy y Hin); by left).
    assert (Hyh : is_Some (h !! y)) by (eapply dseg_lookup; [exact Hseg|apply elem_of_app; right; by left]).
    rewrite set_successor_hs by done. cbn [obind]. rewrite set_predeccessor_hp by (rewrite hs_is_Some; eauto). cbn [obind].
    rewrite set_successor_hs by (rewrite hp_is_Some, hs_is_Some; eauto). cbn [obind].
    eexists _, _. split; [done|]. split; [|split; [by rewrite items_hs, items_hp, items_hs|unfold hs, hp; by rewrite !dom_alter_L]].
    split; cbn; try done.
    + by apply NoDup_app.
    + rewrite dseg_app. cbn [from_head dseg]. unfold to_last. rewrite last_snoc. split; [|split; [|done]].
      * assert (Hx' : x ∉ ys' ++ [y]) by (rewrite not_elem_of_app, not_elem_of_cons; auto using not_elem_of_nil).
        apply dseg_hs, dseg_hp; [done..|]. by apply dseg_hs_last with (after := None).
      * exists a. eapply hs_eq, hp_eq. rewrite hs_ne by congruence. exact Hx.
    + rewrite Hf. by destruct ys'.
    + by rewrite last_snoc.
Qed.
End Link.

(** ** The fixed nodes *)

(** A job whose names can be restored. *)
Definition restorable (job : plan_job) : Prop :=
  pj_fixed_nname_arr_backup job = None \/ pj_req_num_nodes job <= 0 \/
  exists names, pj_fixed_nname_arr job = Some names /\ pj_req_num_nodes job <= Z.of_nat (length names).

Definition restored (job : plan_job) : plan_job :=
  match pj_fixed_nname_arr_backup job with
  | Some saved => job <| pj_fixed_nname_arr := Some saved |> <| pj_fixed_nname_arr_backup := None |>
  | None => job
  end.

Lemma entries_ok {A} n (l : list A) : n <= Z.of_nat (length l) -> entries n l = Ret (take (Z.to_nat n) l).
Proof.
  intros H. unfold entries, first_of. destruct (Z.leb_spec n 0) as [Hn|].
  - by replace (Z.to_nat n) with 0%nat by lia.
  - by rewrite (proj2 (Z.leb_le _ _)).
Qed.

Lemma restore_fixnodes_ok job : restorable job -> exists b, job_restore_fixnodes job = Ret (restored job, b).
Proof.
  unfold job_restore_fixnodes, restored. destruct (pj_fixed_nname_arr_backup job) as [saved|] eqn:E; [|intros _; by eexists].
  intros [|[Hn|(names & En & Hn)]]; [congruence| |].
  - rewrite (proj2 (Z.leb_le _ _)) by done. by eexists.
  - destruct (_ <=? 0); [by eexists|]. rewrite En. cbn [of_option obind]. rewrite entries_ok by done. by eexists.
Qed.

(** The names come back. *)
Lemma backup_restore_fixnodes job names :
  pj_fixed_nname_arr job = Some names -> pj_fixed_nname_arr_backup job = None ->
  0 <= pj_req_num_nodes job <= Z.of_nat (length names) ->
  exists job', job_backup_fixnodes job = Ret (job', true) /\ restorable job' /\
    pj_fixed_nname_arr (restored job') = Some (take (Z.to_nat (pj_req_num_nodes job)) names).
Proof.
  intros E Eb [Hn Hlen]. unfold job_backup_fixnodes. rewrite E, Eb. cbn [obind].
  rewrite (proj2 (Z.ltb_ge _ _)) by done. rewrite entries_ok by done. cbn [obind]. eexists. split; [done|]. split; [|done].
  right. right. eexists. split; [done|]. cbn. rewrite !length_app, length_replicate, length_drop. lia.
Qed.

(** ** The restored order *)

Definition restored_in (xs : list positive) (h h' : heap plan_job) : Prop :=
  forall x, items h' !! x = if bool_decide (x ∈ xs) then restored <$> items h !! x else items h !! x.

Lemma relink_ok zs : forall h l ys,
  lists h l ys -> NoDup (ys ++ zs) -> Z.of_nat (length (ys ++ zs)) < 2 ^ 31 ->
  (forall x, x ∈ zs -> is_Some (h !! x)) -> (forall x job, x ∈ zs -> items h !! x = Some job -> restorable job) ->
  exists h' l', relink (Some <$> zs) h l = Ret (h', l') /\ lists h' l' (ys ++ zs) /\ restored_in zs h h'.
Proof.
  induction zs as [|z zs IH]; intros h l ys Hl Hnd Hsmall Hin Hr; cbn [relink fmap list_fmap].
  { exists h, l. rewrite app_nil_r in *. by split_and!. }
  destruct (Hin z) as [c Hc]; [by left|]. pose proof Hnd as (_ & Hdis & [Hz Hzs]%NoDup_cons)%NoDup_app.
  assert (Hzy : z ∉ ys) by (intros Hz'; apply (Hdis z Hz'); by left).
  destruct (link_last_ok h l ys z c Hl Hc Hzy) as (h1 & l1 & E & Hl1 & Hi1 & Hd1); [rewrite length_app in Hsmall; simpl in Hsmall; lia|].
  rewrite E. cbn [obind]. pose proof (lookup_items _ _ _ Hc) as Hi. rewrite <- Hi1 in Hi. rewrite (item_at_items _ _ _ Hi). cbn [obind].
  destruct (restore_fixnodes_ok (item c)) as (b & Eb); [apply (Hr z); [by left|by rewrite <- Hi1]|]. rewrite Eb. cbn [obind].
  destruct (IH (set_item h1 z (restored (item c))) (l1 <| num_items := i32 (num_items l1 + 1) |>) (ys ++ [z])%list)
    as (h2 & l2 & E2 & Hl2 & Hi2).
  - by apply lists_set_item.
  - by rewrite <- (assoc_L (++)).
  - by rewrite <- (assoc_L (++)).
  - intros x Hx. apply elem_of_dom. unfold set_item. rewrite dom_alter_L, Hd1. apply elem_of_dom, Hin. by right.
  - intros x job Hx. rewrite items_set_item, lookup_alter_ne, Hi1 by (intros ->; done). apply Hr. by right.
  - exists h2, l2. rewrite E2. split; [done|]. rewrite <- (assoc_L (++)) in Hl2. split; [done|].
    intros x. rewrite Hi2, items_set_item. destruct (decide (x = z)) as [->|Hne].
    + rewrite (bool_decide_false (z ∈ zs)) by done. rewrite bool_decide_true by by left.
      rewrite lookup_alter_eq, Hi. by rewrite <- Hi1, Hi.
    + rewrite lookup_alter_ne, Hi1 by done. destruct (decide (x ∈ zs)).
      * by rewrite !bool_decide_true by (done || by right).
      * by rewrite !bool_decide_false by (rewrite ?not_elem_of_cons; done).
Qed.

(** A job that is gone is written to all the same. *)
Lemma relink_freed zs : forall h l ys z,
  lists h l ys -> NoDup (ys ++ zs) -> Z.of_nat (length (ys ++ zs)) < 2 ^ 31 ->
  (forall x job, x ∈ zs -> items h !! x = Some job -> restorable job) -> z ∈ zs -> h !! z = None ->
  relink (Some <$> zs) h l = UB.
Proof.
  induction zs as [|x zs IH]; intros h l ys z Hl Hnd Hsmall Hr Hz Hn; [by apply not_elem_of_nil in Hz|].
  cbn [relink fmap list_fmap]. pose proof Hnd as (_ & Hdis & [Hx Hzs]%NoDup_cons)%NoDup_app.
  assert (Hxy : x ∉ ys) by (intros Hx'; apply (Hdis x Hx'); by left).
  destruct (h !! x) as [c|] eqn:Hc.
  - destruct (link_last_ok h l ys x c Hl Hc Hxy) as (h1 & l1 & E & Hl1 & Hi1 & Hd1); [rewrite length_app in Hsmall; simpl in Hsmall; lia|].
    rewrite E. cbn [obind]. pose proof (lookup_items _ _ _ Hc) as Hi. rewrite <- Hi1 in Hi. rewrite (item_at_items _ _ _ Hi). cbn [obind].
    destruct (restore_fixnodes_ok (item c)) as (b & Eb); [apply (Hr x); [by left|by rewrite <- Hi1]|]. rewrite Eb. cbn [obind].
    apply elem_of_cons in Hz as [->|Hz]; [congruence|].
    apply (IH _ _ (ys ++ [x])%list z); rewrite <- ?(assoc_L (++)); try done.
    + by apply lists_set_item.
    + intros y job Hy. rewrite items_set_item, lookup_alter_ne, Hi1 by (intros ->; done). apply Hr. by right.
    + apply eq_None_not_Some. rewrite <- elem_of_dom. unfold set_item. rewrite dom_alter_L, Hd1, elem_of_dom, Hn. by intros [].
  - unfold link_last. rewrite (ls_last _ _ _ Hl). destruct (last ys) as [y|] eqn:Ey.
    + assert (Hyh : is_Some (h !! y)).
      { eapply dseg_lookup; [apply (ls_links _ _ _ Hl)|]. apply last_Some in Ey as (? & ->). apply elem_of_app. right. by left. }
      rewrite set_successor_hs by done. cbn [obind]. unfold set_predeccessor.
      assert (Hne : y <> x) by (intros ->; rewrite Hc in Hyh; by destruct Hyh). by rewrite hs_ne, Hc.
    + cbn [obind]. unfold set_predeccessor. by rewrite Hc.
Qed.

(** No move is kept once the fairness of the plans is a NaN. *)
Lemma spoiled_plan_is_never_better before after : pe_fairness after = S754_nan -> fgt (gain before after) fzero = false.
Proof.
  intros H. unfold gain, weight. rewrite H.
  assert (E : dsub (pe_fairness before) S754_nan = S754_nan) by (by destruct (pe_fairness before)). rewrite E.
  change (dmul (double_of 10) S754_nan) with S754_nan.
  change (ddiv S754_nan (pe_fairness before)) with S754_nan. unfold dadd at 1. by rewrite nan_add.
Qed.

(** C19: Whatever a move has done to the heap and the list, [restore_job_order] makes
    the order that [backup_job_order] has kept: the list holds the old jobs in the
    old order, jobs with a backup of their fixed nodes have it back, and the other
    items are as the move has left them - provided that every job of the old order
    is still there.  If one of them was freed in between, as [update_sched] does
    with a job that cannot be planned, the restoring uses freed memory.  The names
    that [job_backup_fixnodes] sets aside are those that come back. *)
Theorem undone_move_restores_order h l xs h' l' :
  lists h l xs -> xs <> [] -> Z.of_nat (length xs) < 2 ^ 31 -> num_items l' <> 0 ->
  (forall x job, x ∈ xs -> items h' !! x = Some job -> restorable job) ->
  exists l1 backup, backup_job_order h l = Ret (l1, backup) /\ lists h l1 xs /\
    (if decide (Forall (fun x => x ∈ dom h') xs) then
       exists h2 l2, restore_job_order h' l' backup = Ret (h2, l2) /\ lists h2 l2 xs /\ restored_in xs h' h2
     else restore_job_order h' l' backup = UB).
Proof.
  intros Hl Hne Hsmall Hnum Hr. destruct (backup_job_order_ok h l xs Hl Hne) as (l1 & E & Hl1).
  exists l1, (Some (Some <$> xs)). split; [done|]. split; [done|].
  unfold restore_job_order. rewrite (proj2 (Z.eqb_neq _ _)) by done.
  assert (Hstart : lists h' list_create []) by (split; try done; constructor).
  pose proof (ls_nodup _ _ _ Hl) as Hnd. case_decide as Hall.
  - apply (relink_ok xs h' list_create []); try done. intros x Hx. by apply elem_of_dom, (proj1 (Forall_forall _ _) Hall).
  - apply not_Forall_Exists in Hall; [|apply _]. apply Exists_exists in Hall as (z & Hz & Hn).
    apply (relink_freed xs h' list_create [] z); try done. by apply not_elem_of_dom.
Qed.

(** ** Example *)

(** The second of three jobs, with a fixed node, is moved to the front; in the
    second case the last one is freed. *)
Definition named_job (id : Z) : plan_job :=
  mkPlanJob id None 100 200 100 0 0 0 1 1 0 1 0 0 0 [None] (Some [Some "n1"%string]) None [] [] None false 0.
Definition three_jobs : heap plan_job := list_to_map
  [(1%positive, mkCell (named_job 1) (Some 2%positive) None); (2%positive, mkCell (named_job 2) (Some 3%positive) (Some 1%positive));
   (3%positive, mkCell (named_job 3) None (Some 2%positive))].
Definition three_list : plan_list := mkList 3 (Some 1%positive) (Some 3%positive) None.

Definition moved (freed : bool) : outcome (heap plan_job * plan_list) :=
  let! job := item_at three_jobs 2 in
  let! (job, _) := job_backup_fixnodes job in
  let! (h, l, _) := list_move_item None (set_item three_jobs 2 job) three_list (Some 2%positive) None in
  if freed then let! (h, l, _) := list_remove_item h l (Some 3%positive) true in Ret (h, l) else Ret (h, l).

Lemma undone_move_restores_order_witness :
  exists h' l' h3 l3 l1 backup h2 l2, moved false = Ret (h', l') /\ moved true = Ret (h3, l3) /\
    backup_job_order three_jobs three_list = Ret (l1, backup) /\
    restore_job_order h' l' backup = Ret (h2, l2) /\ lists h2 l2 [1%positive; 2%positive; 3%positive] /\
    restored_in [1%positive; 2%positive; 3%positive] h' h2 /\ restore_job_order h3 l3 backup = UB.
Proof.
  destruct (moved false) as [[h' l']| |] eqn:E; [|discriminate..].
  destruct (moved true) as [[h3 l3]| |] eqn:E3; [|discriminate..].
  assert (Hl : lists three_jobs three_list [1%positive; 2%positive; 3%positive]).
  { split; [apply (bool_decide_unpack _); vm_compute; exact I| |reflexivity|reflexivity|reflexivity].
    repeat split; eexists; reflexivity. }
  assert (Hr : forall freed h' l', moved freed = Ret (h', l') -> num_items l' <> 0 /\
    forall x job, x ∈ [1%positive; 2%positive; 3%positive] -> items h' !! x = Some job -> restorable job).
  { intros freed h4 l4 E4. vm_compute in E4. destruct freed; injection E4 as <- <-; (split; [discriminate|]);
      intros x job Hx Hj; set_unfold in Hx; destruct_or? Hx; subst x; vm_compute in Hj; try discriminate;
      injection Hj as <-; right; right; eexists; split; reflexivity || (vm_compute; discriminate). }
  destruct (undone_move_restores_order three_jobs three_list _ h' l' Hl) as (l1 & bk & Eb & _ & H);
    [discriminate|reflexivity|by apply (Hr false h' l')|by apply (Hr false h' l')|].
  destruct (undone_move_restores_order three_jobs three_list _ h3 l3 Hl) as (l1' & bk' & Eb' & _ & H3);
    [discriminate|reflexivity|by apply (Hr true h3 l3)|by apply (Hr true h3 l3)|].
  assert (l1' = l1 /\ bk' = bk) as [-> ->] by (split; congruence).
  rewrite decide_True in H by (vm_compute in E; injection E as <- <-; apply (bool_decide_unpack _); vm_compute; exact I).
  rewrite decide_False in H3 by (vm_compute in E3; injection E3 as <- <-; apply (bool_decide_unpack _); vm_compute; exact I).
  destruct H as (h2 & l2 & ? & ? & ?). exists h', l', h3, l3, l1, bk, h2, l2. auto 10.
Defined.
