(* ===== verification/FairshareTree.v ===== *)
(** * Fairshare trees: logic/FairshareTree.cpp

    The groups of all trees are in one store, since the jobs point into the
    trees; a group is linked to its parent, its next sibling and its first child.
    A tree is the key of its root.  The recursions over a tree take fuel: each
    call descends to a group it has not visited, so that the number of groups is
    enough.  Freeing the trees is not modelled. *)

From Stdlib Require Import ZArith Lia Bool Ascii String SpecFloat.
From S2P Require Import Prelude CString CFloat MiscHelpers Config.

Local Open Scope string_scope.
Open Scope Z_scope.
Local Open Scope sched_scope.

Record group_info := mkGroup {
  gi_name : string;
  gi_resgroup : Z;
  gi_cresgroup : Z;
  gi_shares : Z;
  gi_percentage : spec_float;
  gi_usage : Z;
  gi_temp_usage : Z;
  gi_parent : option positive;
  gi_sibling : option positive;
  gi_child : option positive
}.

#[export] Instance group_info_fields : Fields group_info :=
  fields_app (fields_app (fields_app (fields_app (fields_app (fields_app (fields_app
  (fields_app (fields_app (fields_app (fields_const mkGroup)
  gi_name) gi_resgroup) gi_cresgroup) gi_shares) gi_percentage) gi_usage) gi_temp_usage)
  gi_parent) gi_sibling) gi_child.

Abbreviation groups := (gmap positive group_info).

Definition group_at (gs : groups) (x : positive) : outcome group_info := of_option (gs !! x).

(** A new group with its name set. *)
Definition new_group_info (name : string) : group_info :=
  mkGroup name RESC_UNSPECIFIED RESC_UNSPECIFIED RESC_UNSPECIFIED fzero 1 1 None None None.

Definition alloc_group (gs : groups) (g : group_info) : groups * positive :=
  let x := fresh (dom gs) in (<[x := g]> gs, x).

Definition add_child (gs : groups) (ginfo : positive) (parent : option positive) : outcome groups :=
  match parent with
  | None => Ret gs
  | Some p =>
      let! gp := group_at gs p in
      let! g := group_at gs ginfo in
      let gs := <[ginfo := g <| gi_sibling := gi_child gp |>]> gs in
      let! gp := group_at gs p in
      let gs := <[p := gp <| gi_child := Some ginfo |>]> gs in
      let! g := group_at gs ginfo in
      Ret (<[ginfo := g <| gi_parent := Some p |> <| gi_resgroup := gi_cresgroup gp |>]> gs)
  end.

(** The percentage of the root is 1. *)
Definition fone : spec_float := fof_Z (F := binary32) 1.

Definition init_fairshare_root (unknown_shares : Z) (gs : groups) : groups * positive :=
  let (gs, root) := alloc_group gs (new_group_info "root") in
  let (gs, unknown) := alloc_group gs (new_group_info "unknown"
    <| gi_shares := unknown_shares |> <| gi_resgroup := 0 |> <| gi_cresgroup := 1 |> <| gi_parent := Some root |>) in
  (<[root := new_group_info "root" <| gi_resgroup := -1 |> <| gi_cresgroup := 0 |> <| gi_percentage := fone |>
               <| gi_child := Some unknown |>]> gs, root).

Fixpoint count_shares (fuel : nat) (gs : groups) (grp : option positive) (shares : Z) : outcome Z :=
  match fuel with
  | O => UB
  | S fuel =>
      match grp with
      | None => Ret shares
      | Some x => let! g := group_at gs x in count_shares fuel gs (gi_sibling g) (i32 (shares + gi_shares g))
      end
  end.

(** The share of a group among [cur_shares], of the percentage of its parent. *)
Definition share_of (shares cur_shares : Z) (parent : spec_float) : spec_float :=
  fmul (F := binary32) (fdiv (F := binary32) (fof_Z (F := binary32) shares) (fof_Z (F := binary32) cur_shares)) parent.

Fixpoint calc_fair_share_perc (fuel : nat) (gs : groups) (root : option positive) (shares : Z) : outcome groups :=
  match fuel with
  | O => UB
  | S fuel =>
      match root with
      | None => Ret gs
      | Some x =>
          let! cur_shares :=
            if shares =? RESC_UNSPECIFIED then count_shares (size gs + 1) gs root 0 else Ret shares in
          let! g := group_at gs x in
          let! p := of_option (gi_parent g) in
          let! gp := group_at gs p in
          let gs := <[x := g <| gi_percentage := share_of (gi_shares g) cur_shares (gi_percentage gp) |>]> gs in
          let! gs := calc_fair_share_perc fuel gs (gi_sibling g) cur_shares in
          calc_fair_share_perc fuel gs (gi_child g) RESC_UNSPECIFIED
      end
  end.

(** First the siblings, then the children. *)
Fixpoint find_group (fuel : nat) (gs : groups) (name : string) (root : option positive) : outcome (option positive) :=
  match fuel with
  | O => UB
  | S fuel =>
      match root with
      | None => Ret None
      | Some x =>
          let! g := group_at gs x in
          if String.eqb name (gi_name g) then Ret root
          else
            let! ginfo := find_group fuel gs name (gi_sibling g) in
            match ginfo with
            | Some _ => Ret ginfo
            | None => find_group fuel gs name (gi_child g)
            end
      end
  end.

Section Tree.
(** [p_tree]: the root of the tree. *)
Variable p_tree : positive.

Definition find_ginfo (gs : groups) (name : string) : outcome (option positive) :=
  find_group (size gs + 1) gs name (Some p_tree).

Definition add_unknown (gs : groups) (ginfo : positive) : outcome groups :=
  let! unknown := find_ginfo gs "unknown" in
  let! gs := add_child gs ginfo unknown in
  let! u := of_option unknown in
  let! g := group_at gs u in
  calc_fair_share_perc (size gs + 1) gs (gi_child g) RESC_UNSPECIFIED.

Definition find_alloc_ginfo (gs : groups) (name : string) : outcome (groups * positive) :=
  let! ginfo := find_ginfo gs name in
  match ginfo with
  | Some x => Ret (gs, x)
  | None =>
      let (gs, x) := alloc_group gs (new_group_info name <| gi_shares := 1 |>) in
      let! gs := add_unknown gs x in
      Ret (gs, x)
  end.

(** ** The configuration: resource_group.name *)

Definition add_group (gs : groups) (name : string) (parent : positive) (shares cgroup : Z) : outcome groups :=
  let! gp := group_at gs parent in
  let (gs, x) := alloc_group gs (new_group_info name
    <| gi_resgroup := gi_cresgroup gp |> <| gi_cresgroup := cgroup |> <| gi_shares := shares |>) in
  add_child gs x (Some parent).

(** A line is read into [buf]; when it begins with a NUL, [buf[strlen(buf)-1]] is in
    front of the buffer. *)
Definition read_group_line (gs : groups) (buf : string) : outcome groups :=
  let buf := c_text buf in
  if String.eqb buf "" then UB
  else
  let buf := chomp buf in
  if skip_line (Some buf) then Ret gs
  else
    let blanks := String " " (String "009" EmptyString) in
    let '(nametok, saved) := strtok blanks buf in
    let '(cgrouptok, saved) := strtok blanks saved in
    let '(grouptok, saved) := strtok blanks saved in
    let '(sharestok, _) := strtok blanks saved in
    let! (group, _) := of_option grouptok in
    let! (gs, ginfo) := find_alloc_ginfo gs group in
    let! (s, _) := of_option sharestok in
    let '(shares, endp) := strtol10 s in
    if negb (String.eqb endp "") then Throw "Error while parsing resource_group file."
    else
      let! (c, _) := of_option cgrouptok in
      let '(cgroup, endp) := strtol10 c in
      if negb (String.eqb endp "") then Throw "Error while parsing resource_group file."
      else
        let! (name, _) := of_option nametok in
        add_group gs name ginfo (i32 shares) (i32 cgroup).

Lemma line_of_nul_is_undefined gs rest : read_group_line gs (String NUL rest) = UB.
Proof. reflexivity. Qed.

(** The text of the file, [None] when it cannot be opened. *)
Definition read_configuration (file : option string) (gs : groups) : outcome groups :=
  match file with
  | None => Throw "Couldn't open resource_group file."
  | Some text => ofold read_group_line (lines_of 255 text) gs
  end.

(** ** The usage files *)

Definition set_usage (gs : groups) (x : positive) (value : Z) : outcome groups :=
  let! g := group_at gs x in
  Ret (<[x := g <| gi_usage := value |> <| gi_temp_usage := value |>]> gs).

(** The bytes of [struct group_node_usage]: the name in nine bytes, seven bytes
    of padding, the usage in eight bytes from the lowest on. *)
Definition NAME_SIZE : nat := 9.
Definition USAGE_SIZE : nat := 24.

Fixpoint le_bytes (n : nat) (z : Z) : string :=
  match n with
  | O => EmptyString
  | S n => String (ascii_of_N (Z.to_N (z mod 256))) (le_bytes n (z / 256))
  end.

Fixpoint le_value (s : string) : Z :=
  match s with EmptyString => 0 | String c s => code c + 256 * le_value s end.

Fixpoint zeros (n : nat) : string := match n with O => EmptyString | S n => String NUL (zeros n) end.

(** [strcpy] into the nine bytes of the name. *)
Definition group_node_usage (name : string) (usage : Z) : outcome string :=
  if strlen name <? Z.of_nat NAME_SIZE then
    Ret (name ++ zeros (16 - String.length name) ++ le_bytes 8 usage)
  else UB.

(** The text before the first NUL, which must be within the nine bytes. *)
Definition usage_name (record : string) : outcome string :=
  let '(name, rest) := split_at (String.substring 0 NAME_SIZE record) NUL in
  match rest with Some _ => Ret name | None => UB end.

Definition usage_value (record : string) : Z := i64 (le_value (String.substring 16 8 record)).

(** The records [fread] reads. *)
Fixpoint usage_records (fuel : nat) (bytes : string) : list string :=
  match fuel with
  | O => []
  | S fuel =>
      if (String.length bytes <? USAGE_SIZE)%nat then []
      else String.substring 0 USAGE_SIZE bytes
           :: usage_records fuel (String.substring USAGE_SIZE (String.length bytes - USAGE_SIZE) bytes)
  end.

Definition read_usage_record (gs : groups) (record : string) : outcome groups :=
  let! name := usage_name record in
  let! (gs, x) := find_alloc_ginfo gs name in
  set_usage gs x (usage_value record).

Definition read_usage_file (file : option string) (gs : groups) : outcome groups :=
  match file with
  | None => Ret gs
  | Some bytes => ofold read_usage_record (usage_records (String.length bytes) bytes) gs
  end.

(** The parser of the ini files and the conversion of a value to a number are
    Boost's: [None] is an exception. *)
Section Ini.
Variable read_ini : string -> option (list (string * list (string * string))).
Variable get_value : string -> option Z.

(** What is read before an exception stays; the answer is whether there was one. *)
Fixpoint read_keys (keys : list (string * string)) (gs : groups) : outcome (groups * bool) :=
  match keys with
  | [] => Ret (gs, true)
  | (name, text) :: keys =>
      let! (gs, x) := find_alloc_ginfo gs name in
      match get_value text with
      | Some value => let! gs := set_usage gs x value in read_keys keys gs
      | None => Ret (gs, false)
      end
  end.

Definition read_usage (ini file : option string) (gs : groups) : outcome groups :=
  match ini ≫= read_ini with
  | None => read_usage_file file gs
  | Some sections =>
      let! (gs, complete) := read_keys (sections ≫= snd) gs in
      if complete : bool then Ret gs else read_usage_file file gs
  end.
End Ini.
End Tree.

(** [FairshareTree::FairshareTree]: the files of the tree and the new root. *)
Definition FairshareTree (read_ini : string -> option (list (string * list (string * string))))
    (get_value : string -> option Z) (unknown_shares : Z) (config ini usage : option string) (gs : groups)
  : outcome (groups * positive) :=
  let (gs, p_tree) := init_fairshare_root unknown_shares gs in
  let! gs := read_configuration p_tree config gs in
  let! root := group_at gs p_tree in
  let! gs := calc_fair_share_perc (size gs + 1) gs (gi_child root) RESC_UNSPECIFIED in
  let! gs := read_usage p_tree read_ini get_value ini usage gs in
  Ret (gs, p_tree).

(** The records of the groups that have been used, siblings before children. *)
Fixpoint dump_records (fuel : nat) (gs : groups) (root : option positive) : outcome string :=
  match fuel with
  | O => UB
  | S fuel =>
      match root with
      | None => Ret ""
      | Some x =>
          let! g := group_at gs x in
          let! r := if gi_usage g =? 1 then Ret "" else group_node_usage (gi_name g) (gi_usage g) in
          let! rs := dump_records fuel gs (gi_sibling g) in
          let! rc := dump_records fuel gs (gi_child g) in
          Ret (r ++ rs ++ rc)
      end
  end.

Fixpoint dump_keys (fuel : nat) (gs : groups) (root : option positive) : outcome string :=
  match fuel with
  | O => UB
  | S fuel =>
      match root with
      | None => Ret ""
      | Some x =>
          let! g := group_at gs x in
          let r := if gi_usage g =? 1 then "" else gi_name g ++ "=" ++ dec (gi_usage g) ++ lf in
          let! rs := dump_keys fuel gs (gi_sibling g) in
          let! rc := dump_keys fuel gs (gi_child g) in
          Ret (r ++ rs ++ rc)
      end
  end.

Definition dump_to_file (gs : groups) (p_tree : positive) : outcome string :=
  dump_records (size gs + 1) gs (Some p_tree).

Definition dump_to_ini (gs : groups) (p_tree : positive) : outcome string :=
  let! keys := dump_keys (size gs + 1) gs (Some p_tree) in Ret ("[default]" ++ lf ++ keys).

(** The priorities of the leaves, in the order they are stored in the cache; the
    usage is converted to [float], the quotient to [double]. *)
Fixpoint dump_to_cache (fuel : nat) (gs : groups) (root : option positive) : outcome (list (string * spec_float)) :=
  match fuel with
  | O => UB
  | S fuel =>
      match root with
      | None => Ret []
      | Some x =>
          let! g := group_at gs x in
          let r := match gi_child g with
                   | None => [(gi_name g, fdiv (F := binary32) (gi_percentage g) (fof_Z (F := binary32) (gi_usage g)))]
                   | Some _ => []
                   end in
          let! rs := dump_to_cache fuel gs (gi_sibling g) in
          let! rc := dump_to_cache fuel gs (gi_child g) in
          Ret (r ++ rs ++ rc)%list
      end
  end.

(** The usage of a group after a half-life. *)
Definition decayed (usage : Z) : Z := let u := Z.quot usage 2 in if u =? 0 then 1 else u.

Fixpoint decay_tree (fuel : nat) (gs : groups) (root : option positive) : outcome groups :=
  match fuel with
  | O => UB
  | S fuel =>
      match root with
      | None => Ret gs
      | Some x =>
          let! g := group_at gs x in
          let! gs := decay_tree fuel gs (gi_sibling g) in
          let! g := group_at gs x in
          let! gs := decay_tree fuel gs (gi_child g) in
          let! g := group_at gs x in
          Ret (<[x := g <| gi_usage := decayed (gi_usage g) |>]> gs)
      end
  end.

Definition decay (gs : groups) (p_tree : positive) : outcome groups := decay_tree (size gs + 1) gs (Some p_tree).
