(* ===== verification/FairshareShape.v ===== *)
(** * The shape of a fairshare tree

    The tree behind the links of the groups, as an inductive forest: a group, its
    children and its siblings.  The operations on the links are operations on the
    forest, and the recursions over it end within the number of groups. *)

From Stdlib Require Import ZArith Lia Bool Ascii String SpecFloat.
From S2P Require Import Prelude CString CFloat MiscHelpers Config FairshareTree.

Open Scope Z_scope.
Local Open Scope sched_scope.

Inductive forest := Leaf | Group (x : positive) (children siblings : forest).

Implicit Types (gs : groups) (f c s : forest) (x y p : positive).

(** The groups in the order in which [find_ginfo] visits them. *)
Fixpoint keys (f : forest) : list positive :=
  match f with Leaf => [] | Group x c s => x :: keys s ++ keys c end.

Definition first (f : forest) : option positive := match f with Leaf => None | Group x _ _ => Some x end.

(** The links of the groups are those of the forest. *)
Fixpoint tree_at gs (parent : option positive) f : Prop :=
  match f with
  | Leaf => True
  | Group x c s => exists g, gs !! x = Some g /\ gi_parent g = parent /\ gi_child g = first c /\ gi_sibling g = first s /\
      tree_at gs (Some x) c /\ tree_at gs parent s
  end.

(** [x] becomes the first child of [y]. *)
Fixpoint graft (y x : positive) f : forest :=
  match f with
  | Leaf => Leaf
  | Group z c s => Group z (if decide (z = y) then Group x Leaf c else graft y x c) (graft y x s)
  end.

Fixpoint children_of (y : positive) f : forest :=
  match f with
  | Leaf => Leaf
  | Group z c s => if decide (z = y) then c else if decide (y ∈ keys s) then children_of y s else children_of y c
  end.

Lemma group_at_ok gs x g : gs !! x = Some g -> group_at gs x = Ret g.
Proof. unfold group_at. by intros ->. Qed.

Lemma tree_lookup gs parent f x : tree_at gs parent f -> x ∈ keys f -> is_Some (gs !! x).
Proof.
  revert parent. induction f as [|z c IHc s IHs]; intros parent; simpl; [by intros _ ?%elem_of_nil|].
  intros (g & Hg & _ & _ & _ & Hc & Hs) [->|[H|H]%elem_of_app]%elem_of_cons; [by exists g|by eapply IHs|by eapply IHc].
Qed.

Lemma tree_size gs parent f : tree_at gs parent f -> NoDup (keys f) -> (length (keys f) <= size gs)%nat.
Proof.
  intros H Hnd. rewrite <- size_dom, <- (size_list_to_set (C := gset positive) (keys f)) by done.
  apply subseteq_size. intros x Hx%elem_of_list_to_set. apply elem_of_dom. by eapply tree_lookup.
Qed.

(** Only the links of the groups of the forest matter. *)
Lemma tree_at_ext gs gs' parent f :
  (forall x g, x ∈ keys f -> gs !! x = Some g -> exists g', gs' !! x = Some g' /\
    gi_parent g' = gi_parent g /\ gi_child g' = gi_child g /\ gi_sibling g' = gi_sibling g) ->
  tree_at gs parent f -> tree_at gs' parent f.
Proof.
  revert parent. induction f as [|z c IHc s IHs]; intros parent Hext; simpl; [done|].
  intros (g & Hg & Hp & Hch & Hsi & Hc & Hs). destruct (Hext z g) as (g' & Hg' & E1 & E2 & E3); [by left|done|].
  exists g'. rewrite E1, E2, E3. split_and!; try done.
  - apply IHc; [|done]. intros x h Hx. apply Hext. right. apply elem_of_app. by right.
  - apply IHs; [|done]. intros x h Hx. apply Hext. right. apply elem_of_app. by left.
Qed.

Lemma keys_graft y x f : y ∈ keys f -> NoDup (keys f) -> keys (graft y x f) ≡ₚ x :: keys f.
Proof.
  induction f as [|z c IHc s IHs]; [by intros ?%elem_of_nil|]. cbn [keys graft]. intros Hy [Hz Hnd]%NoDup_cons.
  apply NoDup_app in Hnd as (Hs & Hdis & Hc).
  assert (Hno : forall f, y ∉ keys f -> keys (graft y x f) = keys f).
  { clear. induction f as [|z c IHc s IHs]; [done|]. cbn [keys graft]. intros Hy.
    rewrite not_elem_of_cons, not_elem_of_app in Hy. destruct Hy as (H1 & H2 & H3).
    rewrite decide_False by congruence. by rewrite IHc, IHs. }
  destruct (decide (z = y)) as [->|Hne].
  - rewrite Hno by set_solver. simpl. rewrite app_nil_r, <- Permutation_middle. constructor.
  - apply elem_of_cons in Hy as [->|[Hy|Hy]%elem_of_app]; [done|..].
    + rewrite (Hno c) by set_solver. rewrite IHs by done. simpl. constructor.
    + rewrite (Hno s) by set_solver. rewrite IHc by done. rewrite <- Permutation_middle. constructor.
Qed.

Lemma graft_none y x f : y ∉ keys f -> graft y x f = f.
Proof.
  induction f as [|z c IHc s IHs]; [done|]. cbn [keys graft]. intros Hy.
  rewrite not_elem_of_cons, not_elem_of_app in Hy. destruct Hy as (H1 & H2 & H3).
  rewrite decide_False by congruence. by rewrite IHc, IHs.
Qed.

Lemma first_graft y x f : first (graft y x f) = first f.
Proof. by destruct f. Qed.

(** ** Adding a child *)

Lemma add_child_ok gs x y gx gy :
  gs !! x = Some gx -> gs !! y = Some gy -> x <> y ->
  add_child gs x (Some y) =
    Ret (<[x := gx <| gi_sibling := gi_child gy |> <| gi_parent := Some y |> <| gi_resgroup := gi_cresgroup gy |>]>
          (<[y := gy <| gi_child := Some x |>]> gs)).
Proof.
  intros Hx Hy Hne. unfold add_child. rewrite (group_at_ok gs y gy Hy). cbn [obind].
  rewrite (group_at_ok gs x gx Hx). cbn [obind]. unfold group_at.
  rewrite lookup_insert_ne by done. rewrite Hy. cbn [of_option obind].
  rewrite lookup_insert_ne by done. rewrite lookup_insert_eq. cbn [of_option obind]. f_equal.
  apply map_eq. intros z. destruct (decide (z = x)) as [->|]; [by rewrite !lookup_insert_eq|].
  rewrite !(lookup_insert_ne _ x) by done. destruct (decide (z = y)) as [->|]; [by rewrite !lookup_insert_eq|].
  rewrite !(lookup_insert_ne _ y) by done. by rewrite lookup_insert_ne.
Qed.

Lemma tree_graft gs parent f x y gx gy :
  tree_at gs parent f -> NoDup (keys f) -> x ∉ keys f -> y ∈ keys f ->
  gs !! x = Some gx -> gs !! y = Some gy -> gi_child gx = None -> forall r,
  tree_at (<[x := gx <| gi_sibling := gi_child gy |> <| gi_parent := Some y |> <| gi_resgroup := r |>]>
            (<[y := gy <| gi_child := Some x |>]> gs)) parent (graft y x f).
Proof.
  intros Htree Hnd Hx Hy Hgx Hgy Hchild r.
  set (gs' := <[x := _]> _).
  assert (Hout : forall parent f, x ∉ keys f -> y ∉ keys f -> tree_at gs parent f -> tree_at gs' parent f).
  { intros par f' H1 H2. apply tree_at_ext. intros z g Hz Hg. exists g. split_and!; try done.
    unfold gs'. rewrite !lookup_insert_ne by set_solver. done. }
  revert parent Htree. induction f as [|z c IHc s IHs]; intros parent; [by apply elem_of_nil in Hy|].
  cbn [keys tree_at graft] in *. intros (g & Hg & Hp & Hch & Hsi & Hc & Hs).
  apply NoDup_cons in Hnd as [Hz Hnd]. apply NoDup_app in Hnd as (Hnds & Hdis & Hndc).
  apply not_elem_of_cons in Hx as [Hxz [Hxs Hxc]%not_elem_of_app].
  apply not_elem_of_app in Hz as [Hzs Hzc].
  destruct (decide (z = y)) as [->|Hne].
  - assert (g = gy) as -> by congruence. exists (gy <| gi_child := Some x |>).
    rewrite (graft_none y x s) by done. split_and!; try done.
    + unfold gs'. rewrite lookup_insert_ne by done. by rewrite lookup_insert_eq.
    + simpl. eexists. split; [by apply lookup_insert_eq|]. split_and!; try done; by apply Hout.
    + by apply Hout.
  - exists g. apply elem_of_cons in Hy as [->|Hy]; [done|]. rewrite !first_graft.
    assert (Hgz : gs' !! z = Some g) by (unfold gs'; rewrite !lookup_insert_ne by done; done).
    apply elem_of_app in Hy as [Hy|Hy].
    + rewrite (graft_none y x c) by set_solver. split_and!; try done; [apply Hout; set_solver|by apply IHs].
    + rewrite (graft_none y x s) by set_solver. split_and!; try done; [by apply IHc|apply Hout; set_solver].
Qed.

(** ** The search *)

(** The first group with the name, in the order of the search. *)
Definition named gs (name : string) (x : positive) : bool :=
  match gs !! x with Some g => String.eqb name (gi_name g) | None => false end.

Fixpoint search gs (name : string) (ks : list positive) : option positive :=
  match ks with
  | [] => None
  | k :: ks => if named gs name k then Some k else search gs name ks
  end.

Lemma search_app gs name ks1 ks2 :
  search gs name (ks1 ++ ks2) = match search gs name ks1 with Some x => Some x | None => search gs name ks2 end.
Proof. induction ks1 as [|k ks1 IH]; simpl; [done|]. by destruct (named gs name k). Qed.

Lemma search_some gs name ks x : search gs name ks = Some x -> x ∈ ks /\ named gs name x = true.
Proof.
  induction ks as [|k ks IH]; simpl; [done|]. destruct (named gs name k) eqn:E.
  - intros [= <-]. split; [by left|done].
  - intros [H1 H2]%IH. split; [by right|done].
Qed.

Lemma search_none gs name ks x : search gs name ks = None -> x ∈ ks -> named gs name x = false.
Proof.
  induction ks as [|k ks IH]; simpl; [by intros _ ?%elem_of_nil|]. destruct (named gs name k) eqn:E; [done|].
  intros H [->|Hx]%elem_of_cons; [done|by apply IH].
Qed.

Lemma find_group_spec gs parent f fuel name :
  tree_at gs parent f -> (length (keys f) < fuel)%nat -> find_group fuel gs name (first f) = Ret (search gs name (keys f)).
Proof.
  revert parent fuel. induction f as [|z c IHc s IHs]; intros parent fuel; (destruct fuel as [|fuel]; [lia|]); [done|].
  cbn [tree_at keys first find_group search]. intros (g & Hg & _ & Hch & Hsi & Hc & Hs) Hf.
  rewrite length_cons, length_app in Hf. rewrite (group_at_ok gs z g Hg). cbn [obind]. unfold named at 1. rewrite Hg.
  destruct (String.eqb name (gi_name g)); [done|]. rewrite Hch, Hsi, search_app.
  rewrite (IHs parent fuel) by (done || lia). cbn [obind]. destruct (search gs name (keys s)); [done|].
  apply (IHc (Some z)); [done|lia].
Qed.
