(* ===== verification/FairshareSpec.v ===== *)
(** * The percentages of a fairshare tree

    The percentage of a group is its part of the shares of its siblings, of the
    percentage of its parent.  Building a tree from any configuration and looking
    up users, known or not, keeps this. *)

From Stdlib Require Import ZArith Lia Bool Ascii String SpecFloat.
From S2P Require Import Prelude CString CFloat MiscHelpers Config FairshareTree FairshareShape.

Open Scope Z_scope.
Local Open Scope sched_scope.

Implicit Types (gs : groups) (f c s : forest) (x y p u : positive).

Definition shares_of gs x : Z := from_option gi_shares 0 (gs !! x).
Definition pct_of gs x : spec_float := from_option gi_percentage fzero (gs !! x).

(** The shares of a chain of siblings, on top of [acc]. *)
Fixpoint total gs f (acc : Z) : Z :=
  match f with Leaf => acc | Group x _ s => total gs s (i32 (acc + shares_of gs x)) end.

(** The percentages of a forest below a group with the percentage [pp]; the
    siblings share [tot]. *)
Fixpoint consistent gs (pp : spec_float) (tot : Z) f : Prop :=
  match f with
  | Leaf => True
  | Group x c s => pct_of gs x = share_of (shares_of gs x) tot pp /\
      consistent gs (pct_of gs x) (total gs c 0) c /\ consistent gs pp tot s
  end.

(** No shares are negative, and their sum fits an [int]. *)
Record weighted gs (ks : list positive) : Prop := {
  wt_pos : forall x, x ∈ ks -> 0 <= shares_of gs x;
  wt_sum : sumZ (shares_of gs) ks < 2 ^ 31
}.

(** ** Everything but the percentages *)

Definition plain (g : group_info) : group_info := g <| gi_percentage := fzero |>.
Definition alike gs gs' : Prop := forall x, plain <$> gs !! x = plain <$> gs' !! x.

Lemma alike_refl gs : alike gs gs.
Proof. done. Qed.
Lemma alike_trans gs1 gs2 gs3 : alike gs1 gs2 -> alike gs2 gs3 -> alike gs1 gs3.
Proof. intros H1 H2 x. by rewrite H1. Qed.

Lemma alike_lookup gs gs' x g : alike gs gs' -> gs !! x = Some g -> exists g', gs' !! x = Some g' /\ plain g' = plain g.
Proof. intros H Hg. specialize (H x). rewrite Hg in H. destruct (gs' !! x) as [g'|]; [|done]. exists g'. split; [done|]. by apply (inj Some). Qed.

Lemma plain_fields g g' : plain g' = plain g ->
  gi_name g' = gi_name g /\ gi_shares g' = gi_shares g /\ gi_parent g' = gi_parent g /\ gi_child g' = gi_child g /\
  gi_sibling g' = gi_sibling g /\ gi_usage g' = gi_usage g /\ gi_temp_usage g' = gi_temp_usage g /\ gi_cresgroup g' = gi_cresgroup g.
Proof. destruct g, g'. unfold plain. simpl. intros H. inversion H. subst. by split_and!. Qed.

Lemma alike_shares gs gs' x : alike gs gs' -> shares_of gs' x = shares_of gs x.
Proof.
  intros H. specialize (H x). unfold shares_of. destruct (gs !! x), (gs' !! x); try done.
  apply (inj Some) in H. by destruct (plain_fields _ _ (eq_sym H)) as (_ & ? & _).
Qed.

Lemma alike_total gs gs' f acc : alike gs gs' -> total gs' f acc = total gs f acc.
Proof. intros H. revert acc. induction f as [|x c _ s IH]; intros acc; [done|]. simpl. by rewrite (alike_shares gs gs'), IH. Qed.

Lemma alike_weighted gs gs' ks : alike gs gs' -> weighted gs ks -> weighted gs' ks.
Proof.
  intros H [H1 H2]. split; [intros x; rewrite (alike_shares gs gs') by done; apply H1|].
  replace (sumZ (shares_of gs') ks) with (sumZ (shares_of gs) ks); [done|]. apply sumZ_ext. intros x _.
  symmetry. by apply alike_shares.
Qed.

Lemma alike_tree gs gs' parent f : alike gs gs' -> tree_at gs parent f -> tree_at gs' parent f.
Proof.
  intros H. apply tree_at_ext. intros x g _ Hg. destruct (alike_lookup gs gs' x g H Hg) as (g' & Hg' & E).
  exists g'. split; [done|]. by destruct (plain_fields _ _ E) as (_ & _ & ? & ? & ? & _).
Qed.

(** ** The shares *)

Lemma sum_pos {A} (h : A -> Z) (l : list A) : (forall a, a ∈ l -> 0 <= h a) -> 0 <= sumZ h l.
Proof. intros H. by apply sumZ_nonneg, Forall_forall. Qed.

Lemma weighted_app gs ks1 ks2 : weighted gs (ks1 ++ ks2) -> weighted gs ks1 /\ weighted gs ks2.
Proof.
  intros [H1 H2]. rewrite sumZ_app in H2.
  assert (Hp : forall ks, (forall x, x ∈ ks -> 0 <= shares_of gs x) -> 0 <= sumZ (shares_of gs) ks) by (intros; by apply sum_pos).
  pose proof (Hp ks1 ltac:(intros; apply H1; set_solver)). pose proof (Hp ks2 ltac:(intros; apply H1; set_solver)).
  split; split; try lia; intros x Hx; apply H1; set_solver.
Qed.

Lemma weighted_perm gs ks ks' : ks ≡ₚ ks' -> weighted gs ks -> weighted gs ks'.
Proof. intros Hp [H1 H2]. split; [intros x; rewrite <- Hp; apply H1|by rewrite <- (sumZ_perm _ _ _ Hp)]. Qed.

Lemma total_nonneg gs f acc : 0 <= acc -> (forall x, x ∈ keys f -> 0 <= shares_of gs x) ->
  acc + sumZ (shares_of gs) (keys f) < 2 ^ 31 -> 0 <= total gs f acc.
Proof.
  revert acc. induction f as [|x c _ s IH]; intros acc Hacc Hpos Hsum; [done|]. cbn [keys total] in *.
  rewrite sumZ_cons, sumZ_app in Hsum.
  pose proof (Hpos x ltac:(by left)). pose proof (sum_pos (shares_of gs) (keys c) ltac:(intros; apply Hpos; set_solver)).
  pose proof (sum_pos (shares_of gs) (keys s) ltac:(intros; apply Hpos; set_solver)).
  rewrite i32_id by in_range. apply IH; [lia|intros; apply Hpos; set_solver|lia].
Qed.

Lemma count_shares_spec gs parent f fuel acc :
  tree_at gs parent f -> (length (keys f) < fuel)%nat -> count_shares fuel gs (first f) acc = Ret (total gs f acc).
Proof.
  revert parent fuel acc. induction f as [|z c _ s IHs]; intros parent fuel acc; (destruct fuel as [|fuel]; [lia|]); [done|].
  cbn [tree_at keys first count_shares total]. intros (g & Hg & _ & _ & Hsi & _ & Hs) Hf.
  rewrite length_cons, length_app in Hf. rewrite (group_at_ok gs z g Hg). cbn [obind].
  unfold shares_of. rewrite Hg, Hsi. simpl. apply (IHs parent); [done|lia].
Qed.

(** ** The percentages *)

Lemma consistent_ext gs gs' pp tot f :
  (forall x, x ∈ keys f -> gs' !! x = gs !! x) -> consistent gs pp tot f -> consistent gs' pp tot f.
Proof.
  assert (Htot : forall f acc, (forall x, x ∈ keys f -> gs' !! x = gs !! x) -> total gs' f acc = total gs f acc).
  { clear. induction f as [|x c _ s IH]; intros acc H; [done|]. cbn [total keys] in *. unfold shares_of at 1 2.
    rewrite (H x) by (by left). apply IH. intros y Hy. apply H. set_solver. }
  revert pp tot. induction f as [|x c IHc s IHs]; intros pp tot H; [done|]. cbn [consistent keys] in *.
  unfold pct_of, shares_of. rewrite (H x) by (by left). intros (H1 & H2 & H3). split_and!; [done| |].
  - rewrite Htot by (intros; apply H; set_solver). apply IHc; [intros; apply H; set_solver|done].
  - apply IHs; [intros; apply H; set_solver|done].
Qed.

Lemma alike_insert gs x g q : gs !! x = Some g -> alike gs (<[x := g <| gi_percentage := q |>]> gs).
Proof.
  intros Hg y. destruct (decide (y = x)) as [->|]; [|by rewrite lookup_insert_ne]. rewrite lookup_insert_eq, Hg. done.
Qed.

(** The calculation sets the percentages of the forest and nothing else. *)
Lemma calc_spec f : forall gs p gp fuel sh,
  tree_at gs (Some p) f -> NoDup (keys f) -> p ∉ keys f -> gs !! p = Some gp -> (length (keys f) < fuel)%nat ->
  exists gs', calc_fair_share_perc fuel gs (first f) sh = Ret gs' /\ alike gs gs' /\
    (forall y, y ∉ keys f -> gs' !! y = gs !! y) /\
    (weighted gs (keys f) -> consistent gs' (gi_percentage gp) (if sh =? -1 then total gs f 0 else sh) f).
Proof.
  induction f as [|z c IHc s IHs]; intros gs p gp fuel sh Htree Hnd Hp Hgp Hf;
    (destruct fuel as [|fuel]; [lia|]); [by exists gs|].
  pose proof (tree_size _ _ _ Htree Hnd) as Hsize. cbn [keys] in *.
  set (tot := if sh =? -1 then total gs (Group z c s) 0 else sh).
  assert (Ecur : (if sh =? RESC_UNSPECIFIED then count_shares (size gs + 1) gs (Some z) 0 else Ret sh) = Ret tot).
  { unfold RESC_UNSPECIFIED, tot. destruct (sh =? -1); [|done].
    apply (count_shares_spec gs (Some p) (Group z c s)); [done|]. cbn [keys]. lia. }
  assert (Hne : weighted gs (z :: keys s ++ keys c) -> (tot =? -1) = false).
  { intros Hw. pose proof (total_nonneg gs (Group z c s) 0 ltac:(done) (wt_pos _ _ Hw) (wt_sum _ _ Hw)) as Hpos.
    unfold tot. destruct (sh =? -1) eqn:E; [apply Z.eqb_neq; lia|done]. }
  cbn [calc_fair_share_perc first]. rewrite Ecur. cbn [obind].
  cbn [tree_at] in Htree. destruct Htree as (g & Hg & Hpar & Hch & Hsi & Hc & Hs).
  rewrite (group_at_ok gs z g Hg). cbn [obind]. rewrite Hpar, Hch, Hsi. cbn [of_option obind].
  rewrite (group_at_ok gs p gp Hgp). cbn [obind].
  set (q := share_of (gi_shares g) tot (gi_percentage gp)).
  rewrite length_cons, length_app in Hf. apply NoDup_cons in Hnd as [Hz Hnd]. apply NoDup_app in Hnd as (Hnds & Hdis & Hndc).
  apply not_elem_of_cons in Hp as [Hpz [Hps Hpc]%not_elem_of_app]. apply not_elem_of_app in Hz as [Hzs Hzc].
  pose proof (alike_insert gs z g q Hg) as A1. set (gs1 := <[z := _]> gs) in *.
  assert (Hz1 : gs1 !! z = Some (g <| gi_percentage := q |>)) by apply lookup_insert_eq.
  destruct (IHs gs1 p gp fuel tot) as (gs2 & E2 & A2 & F2 & C2);
    [by eapply alike_tree|done|done|by unfold gs1; rewrite lookup_insert_ne|lia|].
  rewrite E2. cbn [obind]. pose proof (alike_trans _ _ _ A1 A2) as A12.
  destruct (IHc gs2 z (g <| gi_percentage := q |>) fuel RESC_UNSPECIFIED) as (gs3 & E3 & A3 & F3 & C3);
    [by eapply alike_tree|done|done|by rewrite F2|lia|].
  rewrite E3. exists gs3. split; [done|]. split; [by eapply alike_trans|]. split.
  - intros y [Hyz [Hys Hyc]%not_elem_of_app]%not_elem_of_cons. rewrite F3, F2 by done. unfold gs1. by rewrite lookup_insert_ne.
  - intros Hw. specialize (Hne Hw). apply (weighted_app gs [z]) in Hw as [_ [Hws Hwc]%weighted_app].
    assert (Hz3 : gs3 !! z = Some (g <| gi_percentage := q |>)) by by rewrite F3, F2.
    fold tot. cbn [consistent]. unfold pct_of, shares_of. rewrite Hz3. simpl. split_and!; [done| |].
    + rewrite (alike_total gs2) by done. apply C3. by eapply alike_weighted.
    + apply (consistent_ext gs2); [intros y Hy; apply F3; intros Hyc; by apply (Hdis y)|].
      rewrite Hne in C2. apply C2. by eapply alike_weighted.
Qed.

(** ** A new group *)

Lemma children_of_spec gs parent f u :
  tree_at gs parent f -> NoDup (keys f) -> u ∈ keys f ->
  tree_at gs (Some u) (children_of u f) /\ (exists g, gs !! u = Some g /\ gi_child g = first (children_of u f)) /\
  NoDup (keys (children_of u f)) /\ u ∉ keys (children_of u f) /\ keys (children_of u f) ⊆ keys f.
Proof.
  revert parent. induction f as [|z c IHc s IHs]; intros parent; [by intros _ _ ?%elem_of_nil|].
  cbn [tree_at keys children_of]. intros (g & Hg & Hpar & Hch & Hsi & Hc & Hs).
  intros [[Hzs Hzc]%not_elem_of_app (Hnds & Hdis & Hndc)%NoDup_app]%NoDup_cons Hu.
  destruct (decide (z = u)) as [->|Hne]; [split_and!; [done|by exists g|done|done|set_solver]|].
  destruct (decide (u ∈ keys s)) as [Hus|Hus].
  - destruct (IHs parent Hs Hnds Hus) as (H1 & H2 & H3 & H4 & H5). split_and!; try done. set_solver.
  - destruct (IHc (Some z) Hc Hndc) as (H1 & H2 & H3 & H4 & H5); [set_solver|]. split_and!; try done. set_solver.
Qed.

Lemma children_of_graft u x f : u ∈ keys f -> NoDup (keys f) -> x ∉ keys f -> children_of u (graft u x f) = Group x Leaf (children_of u f).
Proof.
  induction f as [|z c IHc s IHs]; [by intros ?%elem_of_nil|]. cbn [keys children_of graft].
  intros Hu [[Hzs Hzc]%not_elem_of_app (Hnds & Hdis & Hndc)%NoDup_app]%NoDup_cons [Hxz [Hxs Hxc]%not_elem_of_app]%not_elem_of_cons.
  destruct (decide (z = u)) as [->|Hne]; [done|].
  destruct (decide (u ∈ keys s)) as [Hus|Hus].
  - rewrite decide_True; [by apply IHs|]. rewrite keys_graft by done. by right.
  - rewrite (graft_none u x s Hus), decide_False by done. apply IHc; set_solver.
Qed.

Lemma total_graft gs u x f acc : total gs (graft u x f) acc = total gs f acc.
Proof. revert acc. induction f as [|z c _ s IH]; intros acc; [done|]. simpl. apply IH. Qed.

Lemma total_ext gs gs' f acc : (forall x, x ∈ keys f -> shares_of gs' x = shares_of gs x) -> total gs' f acc = total gs f acc.
Proof.
  revert acc. induction f as [|z c _ s IH]; intros acc H; [done|]. cbn [total keys] in *.
  rewrite (H z) by (by left). apply IH. intros y Hy. apply H. set_solver.
Qed.

Lemma children_of_sub u f : u ∈ keys f -> forall y, y ∈ keys (children_of u f) -> y ∈ keys f.
Proof.
  intros Hu. induction f as [|z c IHc s IHs]; [done|]. cbn [keys children_of] in *. intros y.
  destruct (decide (z = u)); [set_solver|]. destruct (decide (u ∈ keys s)); set_solver.
Qed.

(** The children of [u] are calculated anew. *)
Lemma consistent_graft gs gs' pp tot u x f :
  consistent gs pp tot f -> NoDup (keys f) -> u ∈ keys f -> x ∉ keys f ->
  (forall y, y ∈ keys f -> shares_of gs' y = shares_of gs y) ->
  (forall y, y ∈ keys f -> y ∉ keys (children_of u f) -> pct_of gs' y = pct_of gs y) ->
  consistent gs' (pct_of gs' u) (total gs' (Group x Leaf (children_of u f)) 0) (Group x Leaf (children_of u f)) ->
  consistent gs' pp tot (graft u x f).
Proof.
  intros Hc Hnd Hu Hx Hsh Hpct Hnew.
  assert (Hout : forall pp tot f, (forall y, y ∈ keys f -> shares_of gs' y = shares_of gs y) ->
    (forall y, y ∈ keys f -> pct_of gs' y = pct_of gs y) -> consistent gs pp tot f -> consistent gs' pp tot f).
  { clear. intros pp tot f. revert pp tot. induction f as [|z c IHc s IHs]; intros pp tot Hsh Hpct; [done|].
    cbn [consistent keys] in *. rewrite (Hsh z), (Hpct z) by (by left). intros (H1 & H2 & H3). split_and!; [done| |].
    - rewrite (total_ext gs) by (intros; apply Hsh; set_solver). apply IHc; [intros; apply Hsh; set_solver|intros; apply Hpct; set_solver|done].
    - apply IHs; [intros; apply Hsh; set_solver|intros; apply Hpct; set_solver|done]. }
  revert pp tot Hc. induction f as [|z c IHc s IHs]; intros pp tot; [done|].
  cbn [keys children_of consistent graft] in *.
  apply NoDup_cons in Hnd as [[Hzs Hzc]%not_elem_of_app (Hnds & Hdis & Hndc)%NoDup_app].
  apply not_elem_of_cons in Hx as [Hxz [Hxs Hxc]%not_elem_of_app]. intros (H1 & H2 & H3).
  destruct (decide (z = u)) as [->|Hne].
  - rewrite (graft_none u x s) by done. rewrite (Hsh u), (Hpct u) by (done || by left). split_and!; [done| |].
    + rewrite <- (Hpct u) by (done || by left). done.
    + apply Hout; [intros; apply Hsh; set_solver|intros; apply Hpct; set_solver|done].
  - apply elem_of_cons in Hu as [->|Hu]; [done|].
    destruct (decide (u ∈ keys s)) as [Hus|Hus].
    + pose proof (children_of_sub u s Hus) as Hsub.
      rewrite (graft_none u x c) by set_solver. rewrite (Hsh z), (Hpct z) by (set_solver). split_and!; [done| |].
      * rewrite (total_ext gs) by (intros; apply Hsh; set_solver). apply Hout; [intros; apply Hsh; set_solver| |done].
        intros y Hy. apply Hpct; [set_solver|]. intros Hys%Hsub. by apply (Hdis y).
      * apply IHs; try done; [intros; apply Hsh; set_solver|intros; apply Hpct; set_solver].
    + assert (Huc : u ∈ keys c) by set_solver.
      pose proof (children_of_sub u c Huc) as Hsub.
      rewrite (graft_none u x s) by done. rewrite (Hsh z), (Hpct z) by (set_solver). split_and!; [done| |].
      * rewrite total_graft, (total_ext gs) by (intros; apply Hsh; set_solver).
        apply IHc; try done; [intros; apply Hsh; set_solver|intros; apply Hpct; set_solver].
      * apply Hout; [intros; apply Hsh; set_solver| |done]. intros y Hy. apply Hpct; [set_solver|].
        intros Hyc%Hsub. by apply (Hdis y).
Qed.

(** ** The tree *)

(** A tree with the forest [f] below its root, with a group for the unknown. *)
Record fair_tree gs (root : positive) f : Prop := {
  ft_tree : tree_at gs None (Group root f Leaf);
  ft_nodup : NoDup (root :: keys f);
  ft_root : exists g, gs !! root = Some g /\ gi_name g = "root"%string /\ gi_percentage g = fone;
  ft_unknown : exists u, u ∈ keys f /\ named gs "unknown" u = true
}.

Definition balanced gs f : Prop := consistent gs fone (total gs f 0) f.

Lemma find_ginfo_spec gs root f name :
  fair_tree gs root f -> find_ginfo root gs name = Ret (search gs name (root :: keys f)).
Proof.
  intros H. unfold find_ginfo. pose proof (tree_size _ _ _ (ft_tree _ _ _ H)) as Hsz. cbn [keys app] in Hsz.
  rewrite (find_group_spec gs None (Group root f Leaf)); [done|apply H|]. cbn [keys app]. specialize (Hsz (ft_nodup _ _ _ H)). lia.
Qed.

Lemma search_unknown gs root f :
  fair_tree gs root f -> exists u, search gs "unknown" (root :: keys f) = Some u /\ u ∈ keys f.
Proof.
  intros H. destruct (ft_root _ _ _ H) as (g & Hg & Hn & _). destruct (ft_unknown _ _ _ H) as (u & Hu & Hun).
  cbn [search]. unfold named at 1. rewrite Hg, Hn. simpl.
  destruct (search gs "unknown" (keys f)) as [x|] eqn:E; [exists x; split; [done|]; by apply search_some in E as [? _]|].
  apply (search_none _ _ _ _ E) in Hu. congruence.
Qed.

(** What a step does to the store: the groups keep everything but their links
    and percentages, the groups of other trees are left alone. *)
Record keeps gs gs' (ks : list positive) : Prop := {
  kp_same : forall x g, gs !! x = Some g -> exists g', gs' !! x = Some g' /\ gi_name g' = gi_name g /\
    gi_shares g' = gi_shares g /\ gi_usage g' = gi_usage g /\ gi_temp_usage g' = gi_temp_usage g /\ gi_cresgroup g' = gi_cresgroup g;
  kp_other : forall x g, gs !! x = Some g -> x ∉ ks -> gs' !! x = Some g
}.

Lemma keeps_refl gs ks : keeps gs gs ks.
Proof. split; [|done]. intros x g Hg. by exists g. Qed.

Lemma keeps_trans gs1 gs2 gs3 ks : keeps gs1 gs2 ks -> keeps gs2 gs3 ks -> keeps gs1 gs3 ks.
Proof.
  intros [S1 O1] [S2 O2]. split; [|intros x g Hg Hx; apply O2; [by apply O1|done]].
  intros x g (g1 & Hg1 & ? & ? & ? & ? & ?)%S1. destruct (S2 x g1 Hg1) as (g2 & Hg2 & ? & ? & ? & ? & ?).
  exists g2. split_and!; congruence.
Qed.

Lemma keeps_weaken gs gs' ks ks' : ks ⊆ ks' -> keeps gs gs' ks -> keeps gs gs' ks'.
Proof. intros Hsub [S O]. split; [done|]. intros x g Hg Hx. apply O; [done|set_solver]. Qed.

Lemma keeps_named gs gs' ks name x : keeps gs gs' ks -> is_Some (gs !! x) -> named gs' name x = named gs name x.
Proof. intros [S _] [g Hg]. unfold named. destruct (S x g Hg) as (g' & -> & -> & _). by rewrite Hg. Qed.

Lemma keeps_shares gs gs' ks x : keeps gs gs' ks -> is_Some (gs !! x) -> shares_of gs' x = shares_of gs x.
Proof. intros [S _] [g Hg]. unfold shares_of. destruct (S x g Hg) as (g' & -> & _ & H & _). by rewrite Hg. Qed.

Lemma alike_keeps gs gs' ks : alike gs gs' -> (forall x, x ∉ ks -> gs' !! x = gs !! x) -> keeps gs gs' ks.
Proof.
  intros A F. split; [|intros x g Hg Hx; by rewrite F].
  intros x g Hg. destruct (alike_lookup gs gs' x g A Hg) as (g' & Hg' & E). exists g'.
  destruct (plain_fields _ _ E) as (? & ? & _ & _ & _ & ? & ? & ?). done.
Qed.

(** ** Adding a group *)

Lemma root_untouched u x root f : u ∈ keys f -> root ∉ keys f -> graft u x (Group root f Leaf) = Group root (graft u x f) Leaf.
Proof. intros Hu Hr. cbn [graft]. rewrite decide_False; [done|]. by intros ->. Qed.

(** A group that is not in the tree becomes the first child of [u]. *)
Lemma add_child_tree gs root f u x g :
  fair_tree gs root f -> u ∈ keys f -> gs !! x = Some g -> x ∉ root :: keys f -> gi_child g = None ->
  exists gs', add_child gs x (Some u) = Ret gs' /\ fair_tree gs' root (graft u x f) /\
    keeps gs gs' (u :: [x]) /\ (forall y, pct_of gs' y = pct_of gs y) /\
    exists gu, gs' !! u = Some gu /\ gi_child gu = Some x.
Proof.
  intros [Ht Hnd Hr Hun] Hu Hx Hxn Hch.
  apply NoDup_cons in Hnd as [Hrf Hnd]. apply not_elem_of_cons in Hxn as [Hxr Hxf].
  pose proof Ht as (gr & Hgr & _ & _ & _ & Hf & _). destruct (tree_lookup _ _ _ u Hf Hu) as [gu Hgu].
  assert (Hne : x <> u) by congruence. assert (Hru : root <> u) by congruence.
  rewrite (add_child_ok gs x u g gu Hx Hgu Hne).
  set (gx := g <| gi_sibling := gi_child gu |> <| gi_parent := Some u |> <| gi_resgroup := gi_cresgroup gu |>).
  set (gs' := <[x := gx]> _).
  assert (Hgx : gs' !! x = Some gx) by apply lookup_insert_eq.
  assert (Hgu' : gs' !! u = Some (gu <| gi_child := Some x |>)) by (unfold gs'; by rewrite lookup_insert_ne, lookup_insert_eq).
  assert (Hout : forall y, y <> x -> y <> u -> gs' !! y = gs !! y) by (intros; unfold gs'; by rewrite !lookup_insert_ne).
  assert (Hk : keeps gs gs' (u :: [x])).
  { split; [|intros y h Hy Hyn; rewrite Hout; set_solver]. intros y h Hy.
    destruct (decide (y = x)) as [->|]; [exists gx; simplify_eq; by split_and!|].
    destruct (decide (y = u)) as [->|]; [eexists; simplify_eq; by split_and!|]. exists h. by rewrite Hout. }
  exists gs'. split; [done|]. split; [split|split_and!].
  - rewrite <- (root_untouched u x root f Hu Hrf).
    apply (tree_graft gs None (Group root f Leaf) x u g gu Ht); try done; cbn [keys app]; [by constructor|set_solver|set_solver].
  - pose proof (keys_graft u x f Hu Hnd) as Hperm. constructor; [rewrite Hperm; set_solver|]. rewrite Hperm. by constructor.
  - destruct Hr as (g0 & Hg0 & Hn & Hp). exists g0. rewrite Hout by congruence. done.
  - destruct Hun as (v & Hv & Hvn). exists v. split; [rewrite (keys_graft u x f Hu Hnd); set_solver|].
    by rewrite (keeps_named gs gs' _ _ v Hk (tree_lookup _ _ _ v Hf Hv)).
  - done.
  - intros y. unfold pct_of. destruct (decide (y = x)) as [->|]; [by rewrite Hgx, Hx|].
    destruct (decide (y = u)) as [->|]; [by rewrite Hgu', Hgu|]. by rewrite Hout.
  - by exists (gu <| gi_child := Some x |>).
Qed.

Lemma fair_tree_ext gs gs' root f :
  fair_tree gs root f -> alike gs gs' -> pct_of gs' root = pct_of gs root -> fair_tree gs' root f.
Proof.
  intros [Ht Hnd (gr & Hgr & Hn & Hp) (u & Hu & Hun)] A E. split; [by eapply alike_tree|done| |].
  - destruct (alike_lookup gs gs' root gr A Hgr) as (gr' & Hgr' & Ep). exists gr'.
    destruct (plain_fields _ _ Ep) as (-> & _). split_and!; [done|done|].
    unfold pct_of in E. rewrite Hgr, Hgr' in E. simpl in E. congruence.
  - exists u. split; [done|]. destruct Ht as (? & _ & _ & _ & _ & Hf & _).
    pose proof (alike_keeps gs gs' (root :: keys f) A) as _. unfold named in *.
    destruct (gs !! u) as [g|] eqn:Eu; [|done]. destruct (alike_lookup gs gs' u g A Eu) as (g' & -> & Ep).
    by destruct (plain_fields _ _ Ep) as (-> & _).
Qed.

(** Under the unknown: the percentages of the group's siblings are calculated
    anew. *)
Lemma add_unknown_spec gs root f x g :
  fair_tree gs root f -> gs !! x = Some g -> x ∉ root :: keys f -> gi_child g = None ->
  exists gs' u, add_unknown root gs x = Ret gs' /\ search gs "unknown" (root :: keys f) = Some u /\ u ∈ keys f /\
    fair_tree gs' root (graft u x f) /\ keeps gs gs' (x :: keys f) /\
    (forall y, y <> x -> y ∉ keys (children_of u f) -> pct_of gs' y = pct_of gs y) /\
    (weighted gs (x :: keys f) -> balanced gs f -> balanced gs' (graft u x f)).
Proof.
  intros H Hx Hxn Hch. destruct (search_unknown gs root f H) as (u & Eu & Hu).
  unfold add_unknown. rewrite (find_ginfo_spec gs root f "unknown" H), Eu. cbn [obind].
  destruct (add_child_tree gs root f u x g H Hu Hx Hxn Hch) as (gs1 & -> & H1 & K1 & P1 & gu & Hgu & Hguc).
  cbn [obind of_option]. rewrite (group_at_ok gs1 u gu Hgu). cbn [obind]. rewrite Hguc.
  pose proof H1 as [(gr & Hgr & _ & _ & _ & Hf1 & _) Hnd1 _ _]. apply NoDup_cons in Hnd1 as [Hr1 Hnd1].
  pose proof (ft_nodup _ _ _ H) as [Hr Hnd]%NoDup_cons. apply not_elem_of_cons in Hxn as [Hxr Hxf].
  pose proof (keys_graft u x f Hu Hnd) as Hperm.
  assert (Hu1 : u ∈ keys (graft u x f)) by (rewrite Hperm; by right).
  destruct (children_of_spec gs1 _ (graft u x f) u Hf1 Hnd1 Hu1) as (Ct & _ & Cnd & Cu & Csub).
  rewrite (children_of_graft u x f Hu Hnd Hxf) in *.
  assert (Hin : forall y, y ∈ x :: keys f -> is_Some (gs !! y)).
  { intros y [->|Hy]%elem_of_cons; [by exists g|]. destruct (ft_tree _ _ _ H) as (? & _ & _ & _ & _ & Hf & _). by eapply tree_lookup. }
  assert (Hw1 : weighted gs (x :: keys f) -> weighted gs1 (keys (Group x Leaf (children_of u f)))).
  { intros [Hp Hs]. cbn [keys]. rewrite app_nil_r.
    assert (Hsub : forall y, y ∈ x :: keys (children_of u f) -> y ∈ x :: keys f)
      by (intros y [->|Hy]%elem_of_cons; [by left|right; by apply (children_of_sub u f Hu)]).
    split.
    - intros y Hy. rewrite (keeps_shares gs gs1 _ y K1) by auto. apply Hp. auto.
    - rewrite (sumZ_ext _ (shares_of gs)) by (intros y Hy; apply (keeps_shares gs gs1 _ y K1); auto).
      eapply Z.le_lt_trans; [|exact Hs]. rewrite !sumZ_cons.
      apply Zplus_le_compat_l. cbn [keys] in Cnd. rewrite app_nil_r in Cnd. apply NoDup_cons in Cnd as [_ Cnd].
      destruct (submseteq_Permutation (keys (children_of u f)) (keys f)) as [rest Hrest];
        [apply NoDup_submseteq; [done|]; intros y; by apply children_of_sub|].
      rewrite (sumZ_perm _ _ _ Hrest), sumZ_app.
      assert (0 <= sumZ (shares_of gs) rest); [|lia]. apply sum_pos. intros y Hy. apply Hp. rewrite Hrest. set_solver. }
  pose proof (tree_size _ _ _ Ct Cnd) as Hsz.
  destruct (calc_spec (Group x Leaf (children_of u f)) gs1 u gu (size gs1 + 1)%nat RESC_UNSPECIFIED) as (gs2 & E2 & A2 & F2 & C2); try done; [lia|].
  cbn [first] in E2. rewrite E2. exists gs2, u. split; [done|]. split; [done|]. split; [done|].
  cbn [keys] in F2. rewrite app_nil_r in F2.
  assert (Hpo : forall y, y <> x -> y ∉ keys (children_of u f) -> pct_of gs2 y = pct_of gs y).
  { intros y Hyx Hy. rewrite <- P1. unfold pct_of. rewrite F2; [done|]. by apply not_elem_of_cons. }
  assert (Cs : forall y, y ∈ keys (children_of u f) -> y ∈ keys f) by by apply children_of_sub.
  assert (K2 : keeps gs gs2 (x :: keys f)).
  { eapply keeps_trans; [eapply keeps_weaken; [|exact K1]; set_solver|]. apply alike_keeps; [done|].
    intros y Hy. apply F2. set_solver. }
  split; [|split; [done|split; [done|]]].
  - apply (fair_tree_ext gs1); [done|done|]. rewrite (P1 root), Hpo; [done|congruence|]. intros Hy%Cs. done.
  - intros Hw Hb. unfold balanced in *. rewrite total_graft.
    assert (Hs2 : forall y, y ∈ keys f -> shares_of gs2 y = shares_of gs y)
      by (intros y Hy; apply (keeps_shares gs gs2 _ y K2), Hin; by right).
    rewrite (total_ext gs gs2) by done. apply (consistent_graft gs); try done.
    + intros y Hy. apply Hpo. congruence.
    + rewrite (alike_total gs1) by done.
      assert (Epct : pct_of gs2 u = gi_percentage gu).
      { unfold pct_of. cbn [keys] in Cu. rewrite app_nil_r in Cu. rewrite F2 by done. by rewrite Hgu. }
      rewrite Epct. by apply C2, Hw1.
Qed.
