(* ===== verification/FairshareUse.v ===== *)
(** * The properties of fairshare trees

    Building a tree from its files, looking up users, writing the usage and
    reading it back, and the decay of the usage. *)

From Stdlib Require Import ZArith Lia Bool Ascii String SpecFloat.
From S2P Require Import Prelude CString CFloat MiscHelpers Config FairshareTree FairshareShape FairshareSpec.

Open Scope Z_scope.
Local Open Scope sched_scope.

Implicit Types (gs : groups) (f c s : forest) (x y p u : positive).

(** ** Looking up a group *)

Lemma alloc_group_ok gs g :
  exists x, alloc_group gs g = (<[x := g]> gs, x) /\ gs !! x = None.
Proof. eexists. split; [done|]. apply not_elem_of_dom, is_fresh. Qed.

Lemma fair_tree_insert gs root f x g :
  fair_tree gs root f -> gs !! x = None -> fair_tree (<[x := g]> gs) root f /\ x ∉ root :: keys f.
Proof.
  intros [Ht Hnd Hr Hun] Hx.
  assert (Hin : forall y, y ∈ root :: keys f -> is_Some (gs !! y)).
  { intros y Hy. eapply tree_lookup; [exact Ht|]. cbn [keys app]. done. }
  assert (Hxn : x ∉ root :: keys f) by (intros Hy; destruct (Hin x Hy); congruence).
  assert (Hsame : forall y, y ∈ root :: keys f -> <[x := g]> gs !! y = gs !! y) by (intros; rewrite lookup_insert_ne; set_solver).
  split; [split|done].
  - eapply tree_at_ext; [|exact Ht]. intros y h Hy Hh. exists h. by rewrite Hsame.
  - done.
  - destruct Hr as (h & Hh & ?). exists h. rewrite Hsame by (by left). done.
  - destruct Hun as (u & Hu & Hn). exists u. split; [done|]. unfold named in *. rewrite Hsame by (by right). done.
Qed.

Lemma keeps_insert gs x g ks : gs !! x = None -> keeps gs (<[x := g]> gs) ks.
Proof.
  intros Hx. assert (H : forall y h, gs !! y = Some h -> <[x := g]> gs !! y = Some h)
    by (intros; rewrite lookup_insert_ne; congruence).
  split; [|by intros; apply H]. intros y h Hh. exists h. split; [by apply H|done].
Qed.

Lemma balanced_insert gs x g root f : fair_tree gs root f -> gs !! x = None -> balanced gs f -> balanced (<[x := g]> gs) f.
Proof.
  intros H Hx. destruct (fair_tree_insert gs root f x g H Hx) as [_ Hxn]. unfold balanced.
  assert (Hsame : forall y, y ∈ keys f -> <[x := g]> gs !! y = gs !! y) by (intros; rewrite lookup_insert_ne; set_solver).
  rewrite (total_ext gs (<[x := g]> gs)) by (intros y Hy; unfold shares_of; by rewrite Hsame). by apply consistent_ext.
Qed.

(** What looking a name up in a tree does. *)
Record looked_up gs gs' (root : positive) f f' (name : string) x : Prop := {
  lu_tree : fair_tree gs' root f';
  lu_keeps : exists ks, keeps gs gs' ks /\ ks ⊆ keys f' /\ keys f ⊆ keys f';
  lu_found : search gs' name (root :: keys f') = Some x;
  lu_known : forall y, search gs name (root :: keys f) = Some y -> gs' = gs /\ f' = f /\ x = y;
  lu_new : search gs name (root :: keys f) = None ->
    gs !! x = None /\ (exists g, gs' !! x = Some g /\ gi_name g = name /\ gi_shares g = 1 /\ gi_usage g = 1) /\ keys f' ≡ₚ x :: keys f;
  lu_others : forall n, n <> name -> search gs' n (root :: keys f') = search gs n (root :: keys f);
  lu_balanced : weighted gs' (keys f') -> balanced gs f -> balanced gs' f'
}.

Lemma search_ext gs gs' name ks : (forall y, y ∈ ks -> named gs' name y = named gs name y) -> search gs' name ks = search gs name ks.
Proof.
  induction ks as [|k ks IH]; intros H; [done|]. cbn [search]. rewrite (H k) by (by left).
  destruct (named gs name k); [done|]. apply IH. intros y Hy. apply H. by right.
Qed.

(** The only group with the name. *)
Lemma search_only gs name ks x :
  x ∈ ks -> named gs name x = true -> (forall y, y ∈ ks -> named gs name y = true -> y = x) -> search gs name ks = Some x.
Proof.
  intros Hx Hn Hu. destruct (search gs name ks) as [y|] eqn:E.
  - apply search_some in E as [Hy Hyn]. by rewrite (Hu y Hy Hyn).
  - apply (search_none _ _ _ x E) in Hx. congruence.
Qed.

(** A new group with another name does not change what the search finds. *)
Lemma search_graft gs name u x f :
  named gs name x = false -> u ∈ keys f -> NoDup (keys f) -> search gs name (keys (graft u x f)) = search gs name (keys f).
Proof.
  intros Hx. induction f as [|z c IHc s IHs]; [done|]. cbn [keys graft].
  intros Hu [[Hzs Hzc]%not_elem_of_app (Hnds & Hdis & Hndc)%NoDup_app]%NoDup_cons. cbn [search].
  destruct (named gs name z); [done|]. rewrite !search_app. destruct (decide (z = u)) as [->|Hne].
  - rewrite graft_none by done. cbn [keys search]. by rewrite app_nil_r, Hx.
  - destruct (decide (u ∈ keys s)) as [Hus|Hus].
    + rewrite (graft_none u x c) by set_solver. by rewrite IHs.
    + rewrite (graft_none u x s) by done. rewrite IHc by set_solver. done.
Qed.

Lemma find_alloc_spec gs root f name :
  fair_tree gs root f ->
  exists gs' f' x, find_alloc_ginfo root gs name = Ret (gs', x) /\ looked_up gs gs' root f f' name x.
Proof.
  intros H. unfold find_alloc_ginfo. rewrite (find_ginfo_spec gs root f name H). cbn [obind].
  destruct (search gs name (root :: keys f)) as [x|] eqn:E.
  { exists gs, f, x. split; [done|]. split; try done.
    - exists []. split_and!; [apply keeps_refl|set_solver|done].
    - intros y Hy. rewrite E in Hy. injection Hy as <-. done.
    - intros Hy. congruence. }
  destruct (alloc_group_ok gs (new_group_info name <| gi_shares := 1 |>)) as (x & -> & Hx).
  set (g := new_group_info name <| gi_shares := 1 |>). set (gs1 := <[x := g]> gs).
  destruct (fair_tree_insert gs root f x g H Hx) as [H1 Hxn].
  assert (Hx1 : gs1 !! x = Some g) by apply lookup_insert_eq.
  destruct (add_unknown_spec gs1 root f x g H1 Hx1 Hxn eq_refl) as (gs2 & u & E2 & _ & Hu & H2 & K2 & _ & B2).
  fold gs1. rewrite E2. cbn [obind]. exists gs2, (graft u x f), x. split; [done|].
  pose proof (ft_nodup _ _ _ H) as [Hr Hnd]%NoDup_cons. pose proof (keys_graft u x f Hu Hnd) as Hperm.
  assert (K : keeps gs gs2 (x :: keys f)) by (eapply keeps_trans; [by apply keeps_insert|exact K2]).
  destruct (kp_same _ _ _ K2 x g Hx1) as (g2 & Hg2 & Hn2 & Hs2 & Hu2 & _).
  assert (Hin : forall y, y ∈ root :: keys f -> is_Some (gs !! y)).
  { intros y Hy. eapply tree_lookup; [exact (ft_tree _ _ _ H)|]. cbn [keys app]. done. }
  split.
  - done.
  - exists (x :: keys f). split_and!; [done|..]; rewrite Hperm; set_solver.
  - apply search_only; [rewrite Hperm; set_solver|unfold named; rewrite Hg2, Hn2; apply String.eqb_refl|].
    intros y Hy Hyn. rewrite Hperm in Hy. apply elem_of_cons in Hy as [->|[->|Hy]%elem_of_cons]; [|done|].
    + rewrite (keeps_named gs gs2 _ name root K) in Hyn by (apply Hin; by left).
      rewrite (search_none _ _ _ root E) in Hyn by (by left). done.
    + rewrite (keeps_named gs gs2 _ name y K) in Hyn by (apply Hin; by right).
      rewrite (search_none _ _ _ y E) in Hyn by (by right). done.
  - intros y Hy. congruence.
  - intros _. split; [done|]. split; [by exists g2|done].
  - intros n Hn. assert (Hxn2 : named gs2 n x = false) by (unfold named; rewrite Hg2, Hn2; by apply String.eqb_neq).
    transitivity (search gs2 n (root :: keys f)).
    + cbn [search]. by rewrite search_graft.
    + apply search_ext. intros y Hy. apply (keeps_named gs gs2 _ n y K), Hin, Hy.
  - intros Hw Hb. apply B2; [|by eapply balanced_insert].
    apply (weighted_perm gs2 _ _ Hperm) in Hw. destruct Hw as [Hp Hs].
    assert (Hsame : forall y, y ∈ x :: keys f -> shares_of gs2 y = shares_of gs1 y).
    { intros y Hy. apply (keeps_shares gs1 gs2 _ y K2). apply elem_of_cons in Hy as [->|Hy]; [by exists g|].
      unfold gs1. rewrite lookup_insert_ne by set_solver. apply Hin. by right. }
    split; [intros y Hy; rewrite <- Hsame by done; by apply Hp|].
    by rewrite <- (sumZ_ext _ _ _ Hsame).
Qed.

(** ** Building a tree *)

(** A group in the tree or its root gets a new first child. *)
Lemma add_child_root gs root f x g :
  fair_tree gs root f -> gs !! x = Some g -> x ∉ root :: keys f -> gi_child g = None ->
  exists gs', add_child gs x (Some root) = Ret gs' /\ fair_tree gs' root (Group x Leaf f) /\ keeps gs gs' [root; x].
Proof.
  intros [Ht Hnd (gr & Hgr & Hn & Hp) Hun] Hx Hxn Hch.
  pose proof Hxn as [Hxr Hxf]%not_elem_of_cons. pose proof Hnd as [Hrf Hnd']%NoDup_cons.
  rewrite (add_child_ok gs x root g gr Hx Hgr Hxr).
  set (gx := g <| gi_sibling := gi_child gr |> <| gi_parent := Some root |> <| gi_resgroup := gi_cresgroup gr |>).
  set (gs' := <[x := gx]> _).
  assert (Hgx : gs' !! x = Some gx) by apply lookup_insert_eq.
  assert (Hgr' : gs' !! root = Some (gr <| gi_child := Some x |>)) by (unfold gs'; by rewrite lookup_insert_ne, lookup_insert_eq).
  assert (Hout : forall y, y <> x -> y <> root -> gs' !! y = gs !! y) by (intros; unfold gs'; by rewrite !lookup_insert_ne).
  exists gs'. split; [done|]. split; [split|split].
  - pose proof (tree_graft gs None (Group root f Leaf) x root g gr Ht) as Hg. cbn [graft] in Hg.
    rewrite decide_True in Hg by done. apply Hg; cbn [keys app]; (done || by left).
  - cbn [keys]. rewrite app_nil_r. constructor; [set_solver|by constructor].
  - by exists (gr <| gi_child := Some x |>).
  - destruct Hun as (u & Hu & Hun). exists u. cbn [keys]. rewrite app_nil_r. split; [by right|].
    unfold named in *. rewrite Hout; [done|set_solver|set_solver].
  - intros y h Hy. destruct (decide (y = x)) as [->|]; [exists gx; simplify_eq; by split_and!|].
    destruct (decide (y = root)) as [->|]; [eexists; simplify_eq; by split_and!|]. exists h. by rewrite Hout.
  - intros y h Hy Hyn. rewrite Hout; set_solver.
Qed.

Lemma add_child_any gs root f p x g :
  fair_tree gs root f -> p ∈ root :: keys f -> gs !! x = Some g -> x ∉ root :: keys f -> gi_child g = None ->
  exists gs' f', add_child gs x (Some p) = Ret gs' /\ fair_tree gs' root f' /\ keys f' ≡ₚ x :: keys f /\ keeps gs gs' [p; x].
Proof.
  intros H Hp Hx Hxn Hch. pose proof (ft_nodup _ _ _ H) as [Hr Hnd]%NoDup_cons. apply elem_of_cons in Hp as [->|Hp].
  - destruct (add_child_root gs root f x g H Hx Hxn Hch) as (gs' & E & H' & K). exists gs', (Group x Leaf f).
    split_and!; try done. cbn [keys]. by rewrite app_nil_r.
  - destruct (add_child_tree gs root f p x g H Hp Hx Hxn Hch) as (gs' & E & H' & K & _). exists gs', (graft p x f).
    split_and!; try done. by apply keys_graft.
Qed.

(** The groups of the store [gs0] are not in the tree and are as they were. *)
Definition apart gs0 gs root f : Prop := forall x g, gs0 !! x = Some g -> gs !! x = Some g /\ x ∉ root :: keys f.

Lemma apart_grow gs0 gs gs' root f f' ks x :
  apart gs0 gs root f -> keeps gs gs' ks -> ks ⊆ root :: x :: keys f -> gs !! x = None -> keys f' ≡ₚ x :: keys f ->
  apart gs0 gs' root f'.
Proof.
  intros Ha [_ Ho] Hks Hx Hperm y h Hy. destruct (Ha y h Hy) as [Hyg Hyn].
  assert (y <> x) by congruence. split; [|rewrite Hperm; set_solver]. apply Ho; [done|set_solver].
Qed.

Lemma apart_looked_up gs0 gs gs' root f f' name x :
  apart gs0 gs root f -> looked_up gs gs' root f f' name x -> apart gs0 gs' root f'.
Proof.
  intros Ha [_ (ks & K & Hks & _) _ Hknown Hnew _].
  destruct (search gs name (root :: keys f)) as [y|]; [by destruct (Hknown y eq_refl) as (-> & -> & _)|].
  destruct (Hnew eq_refl) as (Hx & _ & Hperm). eapply apart_grow; [exact Ha|exact K| |exact Hx|exact Hperm].
  rewrite Hks, Hperm. set_solver.
Qed.

Lemma add_group_spec gs0 gs root f name p sh cg :
  fair_tree gs root f -> apart gs0 gs root f -> p ∈ root :: keys f ->
  exists gs' f', add_group gs name p sh cg = Ret gs' /\ fair_tree gs' root f' /\ apart gs0 gs' root f'.
Proof.
  intros H Ha Hp. unfold add_group.
  destruct (tree_lookup gs None (Group root f Leaf) p (ft_tree _ _ _ H)) as [gp Hgp]; [done|].
  rewrite (group_at_ok gs p gp Hgp). cbn [obind].
  destruct (alloc_group_ok gs (new_group_info name <| gi_resgroup := gi_cresgroup gp |> <| gi_cresgroup := cg |>
    <| gi_shares := sh |>)) as (x & -> & Hx).
  set (g := _ <| gi_shares := sh |>). destruct (fair_tree_insert gs root f x g H Hx) as [H1 Hxn].
  destruct (add_child_any (<[x := g]> gs) root f p x g H1 Hp) as (gs' & f' & E & H' & Hperm & K);
    [apply lookup_insert_eq|done|done|].
  exists gs', f'. split_and!; [done|done|]. apply (apart_grow gs0 gs gs' root f f' [p; x] x); try done; [|set_solver].
  eapply keeps_trans; [by apply keeps_insert|done].
Qed.

(** ** Lines and records

    What reading a line or a record does depends on its text alone. *)
Inductive input_kind := Good | Malformed | Undefined.

Definition numeric (w : string) : bool := String.eqb (snd (strtol10 w)) "".

(** The kind of a line of the resource group file: empty up to a NUL, it is read in
    front of its buffer; a line that is not skipped needs four words, the last
    and the second of them numbers. *)
Definition kind_of_line (buf : string) : input_kind :=
  let buf := c_text buf in
  if String.eqb buf "" then Undefined
  else
  let buf := chomp buf in
  if skip_line (Some buf) then Good
  else
    let blanks := String " " (String "009" EmptyString) in
    let '(name, saved) := strtok blanks buf in
    let '(cgroup, saved) := strtok blanks saved in
    let '(group, saved) := strtok blanks saved in
    let '(shares, _) := strtok blanks saved in
    match name, cgroup, group, shares with
    | Some _, Some (c, _), Some _, Some (s, _) => if numeric s && numeric c then Good else Malformed
    | _, _, _, _ => Undefined
    end.

(** The kind of a usage record: its name ends within the nine bytes, or not. *)
Definition kind_of_record (record : string) : input_kind :=
  match usage_name record with Ret _ => Good | _ => Undefined end.

(** No word follows when there is none. *)
Lemma strtok_before ds (line : string) t saved : strtok ds line = (t, saved) -> fst (strtok ds saved) <> None -> exists w, t = Some w.
Proof.
  unfold strtok at 1. destruct (skip_set ds line); [by intros [= <- <-]|].
  destruct (take_token _ _). intros [= <- <-] _. by eexists.
Qed.

Lemma usage_name_no_throw r w : usage_name r <> Throw w.
Proof. unfold usage_name. by destruct (split_at _ _) as [? [?|]]. Qed.

(** The first element that is not good is of the given kind. *)
Definition first_of {A} (kind : A -> input_kind) (k : input_kind) (l : list A) : Prop :=
  exists l1 a l2, l = l1 ++ a :: l2 /\ Forall (fun b => kind b = Good) l1 /\ kind a = k.

Lemma first_of_cons {A} (kind : A -> input_kind) k a l : kind a = Good -> first_of kind k l -> first_of kind k (a :: l).
Proof. intros Ha (l1 & b & l2 & -> & Hl & Hb). exists (a :: l1), b, l2. split; [done|]. split; [by constructor|done]. Qed.

Lemma first_of_not_good {A} (kind : A -> input_kind) k l : k <> Good -> first_of kind k l -> ~ Forall (fun a => kind a = Good) l.
Proof. intros Hk (l1 & a & l2 & -> & _ & Ha) H. apply Forall_app in H as [_ [H _]%Forall_cons]. congruence. Qed.

Lemma first_of_unique {A} (kind : A -> input_kind) k k' l :
  k <> Good -> k' <> Good -> first_of kind k l -> first_of kind k' l -> k = k'.
Proof.
  intros Hk Hk' (l1 & a & l2 & -> & Hl & Ha). revert Hl. induction l1 as [|b l1 IH]; intros Hl (m1 & c & m2 & E & Hm & Hc).
  - destruct m1 as [|d m1]; injection E as -> ->; [congruence|]. apply Forall_cons in Hm as [? _]. congruence.
  - apply Forall_cons in Hl as [Hb Hl]. destruct m1 as [|d m1]; injection E as -> E; [congruence|].
    apply IH; [done|]. exists m1, c, m2. apply Forall_cons in Hm as [_ Hm]. done.
Qed.

(** A loop whose steps keep an invariant, and end as the kind of the element says. *)
Lemma ofold_kinds {A B} (step : B -> A -> outcome B) (I : B -> Prop) (kind : A -> input_kind) l b :
  (forall b a, I b -> match kind a with
     | Good => exists b', step b a = Ret b' /\ I b' | Malformed => exists w, step b a = Throw w | Undefined => step b a = UB end) ->
  I b ->
  match ofold step l b with
  | Ret b' => I b' /\ Forall (fun a => kind a = Good) l
  | Throw _ => first_of kind Malformed l
  | UB => first_of kind Undefined l
  end.
Proof.
  intros Hstep. revert b. induction l as [|a l IH]; intros b Hb; [by split|]. cbn [ofold].
  specialize (Hstep b a Hb). destruct (kind a) eqn:Ea.
  - destruct Hstep as (b' & -> & Hb'). specialize (IH b' Hb'). destruct (ofold step l b').
    + destruct IH. split; [done|]. by constructor.
    + by apply first_of_cons.
    + by apply first_of_cons.
  - destruct Hstep as [w ->]. by exists [], a, l.
  - rewrite Hstep. by exists [], a, l.
Qed.

Definition grown gs0 root gs : Prop := exists f, fair_tree gs root f /\ apart gs0 gs root f.

Lemma read_group_line_spec gs0 gs root buf :
  grown gs0 root gs ->
  match kind_of_line buf with
  | Good => exists gs', read_group_line root gs buf = Ret gs' /\ grown gs0 root gs'
  | Malformed => exists w, read_group_line root gs buf = Throw w
  | Undefined => read_group_line root gs buf = UB
  end.
Proof.
  intros (f & H & Ha). unfold read_group_line, kind_of_line, numeric. cbv zeta. set (blanks := String " " (String "009" EmptyString)).
  destruct (String.eqb (c_text buf) ""); [done|].
  destruct (skip_line (Some (chomp (c_text buf)))); [exists gs; split; [done|by exists f]|].
  destruct (strtok blanks (chomp (c_text buf))) as [t1 s1] eqn:E1. destruct (strtok blanks s1) as [t2 s2] eqn:E2.
  destruct (strtok blanks s2) as [t3 s3] eqn:E3. destruct (strtok blanks s3) as [t4 s4] eqn:E4.
  destruct t3 as [[group r3]|]; cbn [of_option obind]; [|by destruct t1, t2 as [[??]|]].
  destruct (strtok_before _ _ _ _ E2 ltac:(by rewrite E3)) as [[w2 r2] ->].
  destruct (strtok_before _ _ _ _ E1 ltac:(by rewrite E2)) as [[w1 r1] ->].
  destruct (find_alloc_spec gs root f group H) as (gs1 & f1 & p & -> & L). cbn [obind].
  destruct t4 as [[w4 r4]|]; cbn [of_option obind]; [|done].
  destruct (strtol10 w4) as [sh e4]. destruct (strtol10 w2) as [cg e2]. cbn [snd].
  destruct (String.eqb e4 ""); cbn [negb andb]; [|by eexists].
  destruct (String.eqb e2 ""); cbn [negb]; [|by eexists].
  destruct (add_group_spec gs0 gs1 root f1 w1 p (i32 sh) (i32 cg) (lu_tree _ _ _ _ _ _ _ L)) as (gs2 & f2 & -> & H2 & A2);
    [by eapply apart_looked_up| |exists gs2; split; [done|by exists f2]].
  by destruct (search_some _ _ _ _ (lu_found _ _ _ _ _ _ _ L)).
Qed.

Definition lines_of_file (file : option string) : list string := from_option (lines_of 255) [] file.
Definition records_of_file (file : option string) : list string :=
  from_option (fun bytes => usage_records (String.length bytes) bytes) [] file.

Lemma read_configuration_spec gs0 gs root file :
  grown gs0 root gs ->
  match read_configuration root file gs with
  | Ret gs' => grown gs0 root gs' /\ is_Some file /\ Forall (fun l => kind_of_line l = Good) (lines_of_file file)
  | Throw _ => file = None \/ first_of kind_of_line Malformed (lines_of_file file)
  | UB => first_of kind_of_line Undefined (lines_of_file file)
  end.
Proof.
  intros H. destruct file as [text|]; [|by left]. cbn [read_configuration lines_of_file from_option].
  pose proof (ofold_kinds (read_group_line root) (grown gs0 root) kind_of_line (lines_of 255 text) gs
    (fun gs1 l => read_group_line_spec gs0 gs1 root l) H) as Hspec.
  destruct (ofold _ _ _) as [gs'|w|]; [|by right|done]. destruct Hspec. split; [done|]. by split; [eexists|].
Qed.

(** A change of a group that leaves its links, name, shares and percentage. *)
Definition same_place (g g' : group_info) : Prop :=
  gi_name g' = gi_name g /\ gi_shares g' = gi_shares g /\ gi_percentage g' = gi_percentage g /\
  gi_parent g' = gi_parent g /\ gi_child g' = gi_child g /\ gi_sibling g' = gi_sibling g.

Definition same_places gs gs' : Prop :=
  forall x, match gs !! x, gs' !! x with Some g, Some g' => same_place g g' | None, None => True | _, _ => False end.

Lemma same_places_tree gs gs' root f :
  same_places gs gs' -> fair_tree gs root f -> fair_tree gs' root f /\ (balanced gs f -> balanced gs' f) /\
  (weighted gs' (keys f) -> weighted gs (keys f)).
Proof.
  intros Hs [Ht Hnd (gr & Hgr & Hn & Hp) (u & Hu & Hun)].
  assert (Hn' : forall n x, named gs' n x = named gs n x).
  { intros n x. unfold named. specialize (Hs x). destruct (gs !! x), (gs' !! x); try done. by destruct Hs as (-> & _). }
  assert (Hsh : forall x, shares_of gs' x = shares_of gs x).
  { intros x. unfold shares_of. specialize (Hs x). destruct (gs !! x), (gs' !! x); try done. by destruct Hs as (_ & ? & _). }
  assert (Hpc : forall x, pct_of gs' x = pct_of gs x).
  { intros x. unfold pct_of. specialize (Hs x). destruct (gs !! x), (gs' !! x); try done. by destruct Hs as (_ & _ & ? & _). }
  split; [split|split].
  - eapply tree_at_ext; [|exact Ht]. intros x g _ Hg. specialize (Hs x). rewrite Hg in Hs.
    destruct (gs' !! x) as [g'|]; [|done]. exists g'. by destruct Hs as (_ & _ & _ & ? & ? & ?).
  - done.
  - specialize (Hs root). rewrite Hgr in Hs. destruct (gs' !! root) as [g'|]; [|done]. exists g'.
    destruct Hs as (-> & _ & -> & _). done.
  - exists u. by rewrite Hn'.
  - unfold balanced. rewrite (total_ext gs gs') by done. generalize (total gs f 0). generalize fone. clear - Hsh Hpc.
    induction f as [|x c IHc s IHs]; intros pp tot; [done|]. cbn [consistent]. rewrite Hsh, Hpc.
    rewrite (total_ext gs gs') by done. intros (H1 & H2 & H3). split_and!; auto.
  - intros [H1 H2]. split; [intros x Hx; rewrite <- Hsh; by apply H1|]. by rewrite <- (sumZ_ext _ _ _ (fun x _ => Hsh x)).
Qed.

Lemma set_usage_spec gs x v g :
  gs !! x = Some g -> exists gs', set_usage gs x v = Ret gs' /\ same_places gs gs' /\
    (forall y, y <> x -> gs' !! y = gs !! y) /\ gs' !! x = Some (g <| gi_usage := v |> <| gi_temp_usage := v |>).
Proof.
  intros Hx. unfold set_usage. rewrite (group_at_ok gs x g Hx). cbn [obind]. eexists. split; [done|]. split_and!.
  - intros y. destruct (decide (y = x)) as [->|]; [by rewrite Hx, lookup_insert_eq|].
    rewrite lookup_insert_ne by done. by destruct (gs !! y).
  - intros y Hy. by rewrite lookup_insert_ne.
  - by rewrite lookup_insert_eq.
Qed.

(** A tree whose percentages are those of its shares, when these are sound. *)
Definition sound_tree gs0 root gs : Prop :=
  exists f, fair_tree gs root f /\ apart gs0 gs root f /\ (weighted gs (keys f) -> balanced gs f).

Lemma looked_up_weighted gs gs' root f f' name x :
  fair_tree gs root f -> looked_up gs gs' root f f' name x -> weighted gs' (keys f') -> weighted gs (keys f).
Proof.
  intros H [_ (ks & K & _ & Hsub) _ Hknown Hnew _].
  destruct (search gs name (root :: keys f)) as [y|]; [by destruct (Hknown y eq_refl) as (-> & -> & _)|].
  destruct (Hnew eq_refl) as (_ & _ & Hperm). intros Hw. apply (weighted_perm gs' _ _ Hperm) in Hw.
  apply (weighted_app gs' [x]) in Hw as [_ [H1 H2]].
  assert (Hs : forall y, y ∈ keys f -> shares_of gs' y = shares_of gs y).
  { intros y Hy. apply (keeps_shares gs gs' ks y K). eapply tree_lookup; [exact (ft_tree _ _ _ H)|]. cbn [keys app]. by right. }
  split; [intros y Hy; rewrite <- Hs by done; by apply H1|]. by rewrite <- (sumZ_ext _ _ _ Hs).
Qed.

(** Reading the usage of a name. *)
Lemma use_of_name_spec gs0 gs root name v :
  sound_tree gs0 root gs ->
  exists gs1 x gs2, find_alloc_ginfo root gs name = Ret (gs1, x) /\ set_usage gs1 x v = Ret gs2 /\
    sound_tree gs0 root gs1 /\ sound_tree gs0 root gs2.
Proof.
  intros (f & H & Ha & Hb). destruct (find_alloc_spec gs root f name H) as (gs1 & f1 & x & E & L).
  pose proof (search_some _ _ _ _ (lu_found _ _ _ _ _ _ _ L)) as [Hx _].
  destruct (tree_lookup gs1 None (Group root f1 Leaf) x (ft_tree _ _ _ (lu_tree _ _ _ _ _ _ _ L))) as [g Hg]; [done|].
  destruct (set_usage_spec gs1 x v g Hg) as (gs2 & E2 & Hs & Ho & _). exists gs1, x, gs2. split; [done|]. split; [done|].
  assert (Ha1 : apart gs0 gs1 root f1) by by eapply apart_looked_up.
  assert (Hb1 : weighted gs1 (keys f1) -> balanced gs1 f1).
  { intros Hw. apply (lu_balanced _ _ _ _ _ _ _ L); [done|]. apply Hb. by eapply looked_up_weighted. }
  split; [exists f1; split_and!; [apply L|done|done]|].
  destruct (same_places_tree gs1 gs2 root f1 Hs (lu_tree _ _ _ _ _ _ _ L)) as (H2 & Hb2 & Hw2).
  exists f1. split_and!; [done| |by auto].
  intros y h Hy. destruct (Ha1 y h Hy) as [Hyg Hyn]. split; [|done]. rewrite Ho; [done|]. by intros ->.
Qed.

(** The two usage files. *)
Lemma read_usage_file_spec gs0 gs root file :
  sound_tree gs0 root gs ->
  match read_usage_file root file gs with
  | Ret gs' => sound_tree gs0 root gs' /\ Forall (fun r => kind_of_record r = Good) (records_of_file file)
  | Throw _ => False
  | UB => first_of kind_of_record Undefined (records_of_file file)
  end.
Proof.
  intros H. destruct file as [bytes|]; [|by split]. cbn [read_usage_file records_of_file from_option].
  pose proof (ofold_kinds (read_usage_record root) (sound_tree gs0 root) kind_of_record
    (usage_records (String.length bytes) bytes) gs) as Hspec.
  destruct (ofold _ _ _) as [gs'|w|]; [apply Hspec|exfalso|apply Hspec]; try done.
  2: destruct Hspec as (_ & r & _ & _ & _ & Hr); [|done|unfold kind_of_record in Hr; by destruct (usage_name r)].
  all: intros gs1 r H1; unfold read_usage_record, kind_of_record; destruct (usage_name r) as [name|w'|] eqn:En; cbn [obind]; try done.
  all: try (by destruct (usage_name_no_throw r w')).
  all: destruct (use_of_name_spec gs0 gs1 root name (usage_value r) H1) as (gs2 & x & gs3 & -> & E & _ & H3); cbn [obind]; by exists gs3.
Qed.

(** The ini file is read to its end. *)
Definition ini_complete (read_ini : string -> option (list (string * list (string * string))))
    (get_value : string -> option Z) (ini : option string) : bool :=
  match ini ≫= read_ini with
  | Some sections => forallb (fun key => bool_decide (is_Some (get_value (snd key)))) (sections ≫= snd)
  | None => false
  end.

Lemma read_keys_spec gs0 gs root get_value ks :
  sound_tree gs0 root gs ->
  exists gs', read_keys root get_value ks gs = Ret (gs', forallb (fun key => bool_decide (is_Some (get_value (snd key)))) ks) /\
    sound_tree gs0 root gs'.
Proof.
  revert gs. induction ks as [|[name text] ks IH]; intros gs H; [by exists gs|]. cbn [read_keys forallb snd].
  destruct (use_of_name_spec gs0 gs root name (default 0 (get_value text)) H) as (gs1 & x & gs2 & -> & E & H1 & H2).
  cbn [obind]. destruct (get_value text) as [v|]; [|by exists gs1]. simpl in E. rewrite E. by apply IH.
Qed.

(** ** The constructor *)

Lemma init_tree unknown_shares gs0 :
  exists gs root u, init_fairshare_root unknown_shares gs0 = (gs, root) /\
    fair_tree gs root (Group u Leaf Leaf) /\ apart gs0 gs root (Group u Leaf Leaf).
Proof.
  unfold init_fairshare_root. destruct (alloc_group_ok gs0 (new_group_info "root")) as (root & -> & Hr).
  set (gu := new_group_info "unknown" <| gi_shares := unknown_shares |> <| gi_resgroup := 0 |> <| gi_cresgroup := 1 |>
    <| gi_parent := Some root |>).
  destruct (alloc_group_ok (<[root := new_group_info "root"]> gs0) gu) as (u & -> & Hu).
  assert (Hne : u <> root) by (intros ->; by rewrite lookup_insert_eq in Hu).
  rewrite lookup_insert_ne in Hu by done.
  eexists _, root, u. split; [done|].
  set (gr := _ <| gi_child := Some u |>). set (gs := <[root := gr]> _).
  assert (Hgr : gs !! root = Some gr) by apply lookup_insert_eq.
  assert (Hgu : gs !! u = Some gu) by (unfold gs; by rewrite lookup_insert_ne, lookup_insert_eq).
  split; [split|].
  - exists gr. split_and!; try done. exists gu. split_and!; done.
  - cbn [keys app]. constructor; [set_solver|]. constructor; [set_solver|constructor].
  - by exists gr.
  - exists u. split; [by left|]. unfold named. by rewrite Hgu.
  - intros x g Hx. assert (x <> root) by congruence. assert (x <> u) by congruence. split; [|set_solver].
    unfold gs. by rewrite !lookup_insert_ne.
Qed.

Definition good_config (config : option string) : Prop :=
  is_Some config /\ Forall (fun l => kind_of_line l = Good) (lines_of_file config).

Lemma FairshareTree_spec read_ini get_value unknown_shares config ini usage gs0 :
  match FairshareTree read_ini get_value unknown_shares config ini usage gs0 with
  | Ret (gs, root) => sound_tree gs0 root gs /\ good_config config /\
      (ini_complete read_ini get_value ini = true \/ Forall (fun r => kind_of_record r = Good) (records_of_file usage))
  | Throw _ => config = None \/ first_of kind_of_line Malformed (lines_of_file config)
  | UB => first_of kind_of_line Undefined (lines_of_file config) \/
      good_config config /\ ini_complete read_ini get_value ini = false /\ first_of kind_of_record Undefined (records_of_file usage)
  end.
Proof.
  unfold FairshareTree. destruct (init_tree unknown_shares gs0) as (gs & root & u & -> & H & Ha).
  pose proof (read_configuration_spec gs0 gs root config) as Hc. cbv beta iota.
  destruct (read_configuration root config gs) as [gs1|w|]; cbn [obind]; [|apply Hc; by eexists|left; apply Hc; by eexists].
  destruct Hc as ((f & H1 & Ha1) & Hgood); [by eexists|]. pose proof H1 as [(gr & Hgr & _ & Hch & _ & Hf & _) Hnd (gr' & Hgr' & Hnr & Hp) _].
  rewrite (group_at_ok gs1 root gr Hgr). cbn [obind]. rewrite Hch. apply NoDup_cons in Hnd as [Hrf Hnd].
  pose proof (tree_size _ _ _ Hf Hnd) as Hsz.
  destruct (calc_spec f gs1 root gr (size gs1 + 1)%nat RESC_UNSPECIFIED Hf Hnd Hrf Hgr) as (gs2 & -> & A & F & C); [lia|]. cbn [obind].
  assert (S : sound_tree gs0 root gs2).
  { exists f. split_and!.
    - apply (fair_tree_ext gs1); [done|done|]. unfold pct_of. by rewrite F.
    - intros y g Hy. destruct (Ha1 y g Hy) as [Hyg Hyn]. split; [|done]. rewrite F; [done|]. set_solver.
    - intros Hw. unfold balanced. rewrite (alike_total gs1) by done. assert (gr' = gr) as -> by congruence.
      rewrite Hp in C. apply C. eapply alike_weighted; [|done]. intros y. by rewrite A. }
  assert (Hfile : forall gs', sound_tree gs0 root gs' -> match (let! gs := read_usage_file root usage gs' in Ret (gs, root)) with
    | Ret (gs, root) => sound_tree gs0 root gs /\ Forall (fun r => kind_of_record r = Good) (records_of_file usage)
    | Throw _ => False
    | UB => first_of kind_of_record Undefined (records_of_file usage) end).
  { intros gs' S'. pose proof (read_usage_file_spec gs0 gs' root usage S') as Hu. by destruct (read_usage_file root usage gs'). }
  unfold read_usage, ini_complete. destruct (ini ≫= read_ini) as [sections|].
  - destruct (read_keys_spec gs0 gs2 root get_value (sections ≫= snd) S) as (gs3 & -> & S3). cbn [obind].
    destruct (forallb _ _); [cbn [obind]; by split_and!; [| |left]|]. specialize (Hfile gs3 S3).
    destruct (let! gs := read_usage_file root usage gs3 in Ret (gs, root)) as [[gs' r]|w|];
      [destruct Hfile; split_and!; try done; by right|done|by right].
  - specialize (Hfile gs2 S).
    destruct (let! gs := read_usage_file root usage gs2 in Ret (gs, root)) as [[gs' r]|w|];
      [destruct Hfile; split_and!; try done; by right|done|by right].
Qed.

(** C31: building a fairshare tree from any configuration and usage files ends.  It
    is undefined exactly when the first line of the configuration that is not
    good begins with a NUL or has fewer than four words, or when all lines are
    good, the ini file is not read to its end and a record of the usage file has
    a name without its end; it throws exactly when there is no configuration or
    its first line that is not good has a word in place of a number.  In all
    other cases the groups form a tree, with a group for the unknown, apart from
    the groups of the other trees, which are left as they were; and when no
    shares are negative and they fit an [int], the percentage of every group is
    its part of the shares of its siblings, of the percentage of its parent. *)
Theorem building_a_tree_is_sound read_ini get_value unknown_shares config ini usage gs0 :
  let built := FairshareTree read_ini get_value unknown_shares config ini usage gs0 in
  (built = UB <-> first_of kind_of_line Undefined (lines_of_file config) \/
     good_config config /\ ini_complete read_ini get_value ini = false /\ first_of kind_of_record Undefined (records_of_file usage)) /\
  ((exists w, built = Throw w) <-> config = None \/ first_of kind_of_line Malformed (lines_of_file config)) /\
  forall gs root, built = Ret (gs, root) -> exists f, fair_tree gs root f /\
    (forall x g, gs0 !! x = Some g -> gs !! x = Some g /\ x ∉ root :: keys f) /\
    (weighted gs (keys f) -> balanced gs f).
Proof.
  intros built. pose proof (FairshareTree_spec read_ini get_value unknown_shares config ini usage gs0) as H. fold built in H.
  assert (Hno : forall k, k <> Good -> first_of kind_of_line k (lines_of_file config) -> ~ good_config config).
  { intros k Hk Hf [_ Hg]. by apply (first_of_not_good _ _ _ Hk Hf). }
  assert (Hex : ~ (first_of kind_of_line Undefined (lines_of_file config) /\ first_of kind_of_line Malformed (lines_of_file config))).
  { intros [H1 H2]. by pose proof (first_of_unique _ _ _ _ (ltac:(done) : Undefined <> Good) (ltac:(done) : Malformed <> Good) H1 H2). }
  assert (Hnone : config = None -> ~ first_of kind_of_line Undefined (lines_of_file config) /\ ~ good_config config).
  { intros ->. split; [intros (l1 & a & l2 & E & _); by destruct l1|intros [[? ?] _]; done]. }
  assert (Hrec : first_of kind_of_record Undefined (records_of_file usage) -> ~ Forall (fun r => kind_of_record r = Good) (records_of_file usage))
    by (by apply first_of_not_good).
  clearbody built. destruct built as [[gs root]|w|].
  - destruct H as (Hs & Hg & Hu). split_and!.
    + split; [done|]. intros [H1|(_ & Hi & Hr)]; [by destruct (Hno _ (ltac:(done) : Undefined <> Good) H1)|].
      destruct Hu as [Hu|Hu]; [congruence|by destruct (Hrec Hr)].
    + split; [by intros [? ?]|]. intros [H1|H1]; [by destruct (Hnone H1)|by destruct (Hno _ (ltac:(done) : Malformed <> Good) H1)].
    + by intros ? ? [= <- <-].
  - split_and!; [|by split; [|by exists w]|done]. split; [done|].
    intros [H1|(Hg & _)]; destruct H as [H|H]; [by destruct (Hnone H)|by destruct Hex|by destruct (Hnone H)|].
    by destruct (Hno _ (ltac:(done) : Malformed <> Good) H).
  - split_and!; [done| |done]. split; [by intros [? ?]|].
    intros [H1|H1]; destruct H as [H|(Hg & _)]; [by destruct (Hnone H1)|by destruct (Hnone H1)|by destruct Hex|].
    by destruct (Hno _ (ltac:(done) : Malformed <> Good) H1).
Qed.

(** ** Known and unknown users *)

(** Looking a user up in a tree always succeeds, and gives the same group when
    it is repeated; the groups of the tree keep their names, shares and usage.
    An unknown user becomes a new group with one share and the usage 1, and the
    percentages stay those of the shares. *)
Theorem looking_up_a_user gs root f name (H : fair_tree gs root f) :
  exists gs' f' x, find_alloc_ginfo root gs name = Ret (gs', x) /\ find_alloc_ginfo root gs' name = Ret (gs', x) /\
    fair_tree gs' root f' /\ named gs' name x = true /\
    (forall y g, gs !! y = Some g -> exists g', gs' !! y = Some g' /\ gi_name g' = gi_name g /\
      gi_shares g' = gi_shares g /\ gi_usage g' = gi_usage g /\ gi_temp_usage g' = gi_temp_usage g) /\
    (x ∉ root :: keys f -> exists g, gs' !! x = Some g /\ gi_shares g = 1 /\ gi_usage g = 1) /\
    (weighted gs' (keys f') -> balanced gs f -> balanced gs' f').
Proof.
  destruct (find_alloc_spec gs root f name H) as (gs' & f' & x & E & L). exists gs', f', x.
  pose proof (lu_found _ _ _ _ _ _ _ L) as Hf. destruct (search_some _ _ _ _ Hf) as [_ Hn].
  split; [done|]. split.
  { unfold find_alloc_ginfo. rewrite (find_ginfo_spec gs' root f' name), Hf by apply L. done. }
  destruct (lu_keeps _ _ _ _ _ _ _ L) as (ks & [Hk _] & _). split; [apply L|]. split; [done|]. split; [|split; [|apply L]].
  - intros y g Hy. destruct (Hk y g Hy) as (g' & ? & ? & ? & ? & ? & _). by exists g'.
  - intros Hx. destruct (search gs name (root :: keys f)) as [y|] eqn:Es.
    + destruct (lu_known _ _ _ _ _ _ _ L y Es) as (_ & _ & ->). by apply search_some in Es as [? _].
    + destruct (lu_new _ _ _ _ _ _ _ L Es) as (_ & (g & ? & _ & ? & ?) & _). by exists g.
Qed.

(** ** The decay *)

Definition halve (g : group_info) : group_info := g <| gi_usage := decayed (gi_usage g) |>.

Lemma decay_tree_spec f : forall gs parent fuel,
  tree_at gs parent f -> NoDup (keys f) -> (length (keys f) < fuel)%nat ->
  exists gs', decay_tree fuel gs (first f) = Ret gs' /\
    forall y, gs' !! y = if decide (y ∈ keys f) then halve <$> gs !! y else gs !! y.
Proof.
  induction f as [|z c IHc s IHs]; intros gs parent fuel Ht Hnd Hf; (destruct fuel as [|fuel]; [lia|]).
  { exists gs. split; [done|]. intros y. by rewrite decide_False by apply not_elem_of_nil. }
  cbn [tree_at keys first decay_tree] in *. destruct Ht as (g & Hg & _ & Hch & Hsi & Hc & Hs).
  apply NoDup_cons in Hnd as [[Hzs Hzc]%not_elem_of_app (Hnds & Hdis & Hndc)%NoDup_app].
  rewrite length_cons, length_app in Hf. rewrite (group_at_ok gs z g Hg). cbn [obind]. rewrite Hsi.
  destruct (IHs gs parent fuel Hs Hnds) as (gs1 & -> & H1); [lia|]. cbn [obind].
  assert (Hg1 : gs1 !! z = Some g) by (by rewrite H1, decide_False).
  rewrite (group_at_ok gs1 z g Hg1). cbn [obind]. rewrite Hch.
  assert (Hc1 : tree_at gs1 (Some z) c).
  { eapply tree_at_ext; [|exact Hc]. intros x h Hx Hh. exists h. rewrite H1, decide_False; [done|]. intros Hxs. by apply (Hdis x). }
  destruct (IHc gs1 (Some z) fuel Hc1 Hndc) as (gs2 & -> & H2); [lia|]. cbn [obind].
  assert (Hg2 : gs2 !! z = Some g) by (by rewrite H2, decide_False).
  rewrite (group_at_ok gs2 z g Hg2). cbn [obind]. eexists. split; [done|]. intros y.
  destruct (decide (y = z)) as [->|Hne]; [rewrite lookup_insert_eq, decide_True by (by left); by rewrite Hg|].
  rewrite lookup_insert_ne, H2, H1 by done.
  destruct (decide (y ∈ keys c)) as [Hyc|Hyc]; [rewrite (decide_False (P := y ∈ keys s)), (decide_True (P := y ∈ _ :: _)); set_solver|].
  destruct (decide (y ∈ keys s)); [rewrite decide_True; set_solver|]. rewrite decide_False; set_solver.
Qed.

(** The decay ends and halves the usage of every group of the tree, down to
    one; what is at least one stays at least one.  Nothing else changes, not even
    the temporary usage, and no other tree. *)
Theorem decay_halves_the_usage gs root f (H : fair_tree gs root f) :
  exists gs', decay gs root = Ret gs' /\
    (forall y, y ∈ root :: keys f -> gs' !! y = (fun g => g <| gi_usage := decayed (gi_usage g) |>) <$> gs !! y) /\
    (forall y, y ∉ root :: keys f -> gs' !! y = gs !! y) /\
    forall usage, 1 <= usage -> decayed usage = Z.max 1 (usage / 2).
Proof.
  pose proof (tree_size _ _ _ (ft_tree _ _ _ H)) as Hsz. cbn [keys app] in Hsz. specialize (Hsz (ft_nodup _ _ _ H)).
  destruct (decay_tree_spec (Group root f Leaf) gs None (size gs + 1)%nat (ft_tree _ _ _ H)) as (gs' & E & Hgs');
    [apply H|cbn [keys app]; lia|]. cbn [keys app] in Hgs'.
  exists gs'. split; [exact E|]. split_and!.
  - intros y Hy. by rewrite Hgs', decide_True.
  - intros y Hy. by rewrite Hgs', decide_False.
  - intros v Hv. unfold decayed. rewrite Z.quot_div_nonneg by lia.
    pose proof (Z.div_pos v 2 ltac:(lia) ltac:(lia)). destruct (Z.eqb_spec (v / 2) 0); lia.
Qed.

(** ** An example

    Two users share a group, a third one is unknown. *)

Definition example_shares : string :=
  ("users 10 root 60" ++ lf ++ "alice 11 users 10" ++ lf ++ "bob 12 users 30" ++ lf)%string.

Definition example_tree (usage : option string) : outcome (groups * positive) :=
  FairshareTree (fun _ => None) (fun _ => None) 20 (Some example_shares) None usage ∅.

Definition example_usage : string :=
  ("alice" ++ zeros 11 ++ le_bytes 8 500 ++ "carol" ++ zeros 11 ++ le_bytes 8 7)%string.

Definition example_forest : forest :=
  Group 3 (Group 5 Leaf (Group 4 Leaf Leaf)) (Group 2 (Group 6 Leaf Leaf) Leaf).

Definition example_groups : groups := match example_tree (Some example_usage) with Ret (gs, _) => gs | _ => ∅ end.

(** The shape is checked by evaluation. *)
Fixpoint tree_atb gs (parent : option positive) f : bool :=
  match f with
  | Leaf => true
  | Group x c s =>
      match gs !! x with
      | Some g => bool_decide (gi_parent g = parent /\ gi_child g = first c /\ gi_sibling g = first s) &&
                  (tree_atb gs (Some x) c && tree_atb gs parent s)
      | None => false
      end
  end.

Lemma tree_atb_spec gs parent f : tree_atb gs parent f = true -> tree_at gs parent f.
Proof.
  revert parent. induction f as [|x c IHc s IHs]; intros parent; [done|]. cbn [tree_atb tree_at].
  destruct (gs !! x) as [g|]; [|done]. intros [H%bool_decide_eq_true [Hc Hs]%andb_true_iff]%andb_true_iff.
  exists g. destruct H as (? & ? & ?). split_and!; auto.
Qed.

Definition fair_treeb gs (root : positive) f : bool :=
  tree_atb gs None (Group root f Leaf) && bool_decide (NoDup (root :: keys f)) &&
  match gs !! root with Some g => String.eqb (gi_name g) "root" && bool_decide (gi_percentage g = fone) | None => false end &&
  existsb (named gs "unknown") (keys f).

Lemma fair_treeb_spec gs root f : fair_treeb gs root f = true -> fair_tree gs root f.
Proof.
  unfold fair_treeb. intros [[[Ht%tree_atb_spec Hnd%bool_decide_eq_true]%andb_true_iff Hr]%andb_true_iff Hu]%andb_true_iff.
  split; [done|done| |].
  - destruct (gs !! root) as [g|]; [|done]. apply andb_true_iff in Hr as [Hn%String.eqb_eq Hp%bool_decide_eq_true]. by exists g.
  - apply existsb_exists in Hu as (u & Hu%list_elem_of_In & Hn). by exists u.
Qed.

Lemma example_fair : fair_tree example_groups 1 example_forest.
Proof. apply fair_treeb_spec. vm_compute. reflexivity. Qed.

(** Alice has a quarter of three quarters. *)
Lemma building_a_tree_is_sound_witness :
  exists gs root f, example_tree (Some example_usage) = Ret (gs, root) /\ fair_tree gs root f /\
    (weighted gs (keys f) -> balanced gs f) /\
    pct_of gs 4 = fmul (F := binary32) (fdiv (F := binary32) (fof_Z (F := binary32) 3) (fof_Z (F := binary32) 16)) fone.
Proof.
  pose proof (building_a_tree_is_sound (fun _ => None) (fun _ => None) 20 (Some example_shares) None (Some example_usage) ∅) as H.
  fold (example_tree (Some example_usage)) in H.
  assert (E : example_tree (Some example_usage) = Ret (example_groups, 1%positive)) by (vm_compute; reflexivity).
  destruct H as (_ & _ & H). destruct (H _ _ E) as (f & Hf & _ & Hb). exists example_groups, 1%positive, f.
  split; [exact E|]. split; [exact Hf|]. split; [exact Hb|]. vm_compute. reflexivity.
Defined.

(** Dave is unknown: he joins Carol. *)
Lemma looking_up_a_user_witness :
  exists gs f x, find_alloc_ginfo 1 example_groups "dave" = Ret (gs, x) /\ find_alloc_ginfo 1 gs "dave" = Ret (gs, x) /\
    fair_tree gs 1 f /\ gi_parent <$> gs !! x = Some (Some 2%positive).
Proof.
  destruct (looking_up_a_user example_groups 1 example_forest "dave" example_fair) as (gs & f & x & E & E2 & Hf & _).
  exists gs, f, x. split; [exact E|]. split; [exact E2|]. split; [exact Hf|].
  revert E. vm_compute. intros E. injection E as <- <-. reflexivity.
Defined.

Lemma decay_halves_the_usage_witness :
  exists gs, decay example_groups 1 = Ret gs /\ gi_usage <$> gs !! 4%positive = Some 250 /\ gi_usage <$> gs !! 5%positive = Some 1.
Proof.
  destruct (decay_halves_the_usage example_groups 1 example_forest example_fair) as (gs & E & H & _).
  exists gs. split; [exact E|].
  split; (rewrite H; [vm_compute; reflexivity|apply (bool_decide_unpack _); vm_compute; exact I]).
Defined.
