(* ===== verification/FairshareFiles.v ===== *)
(** * The usage files of fairshare trees

    What is written is read back: the usage of every user survives a restart,
    through the text file, and through the binary file as long as the names fit
    the nine bytes it has for them. *)

From Stdlib Require Import ZArith Lia Bool Ascii String SpecFloat.
From S2P Require Import Prelude CString CFloat MiscHelpers Config FairshareTree FairshareShape FairshareSpec FairshareUse.

Local Open Scope string_scope.
Open Scope Z_scope.
Local Open Scope sched_scope.

Implicit Types (gs : groups) (f c : forest) (x y : positive) (a b s : string).

(** ** Assigning usage by name *)

(** The usage of the group that the search finds for a name. *)
Definition usage_of gs (root : positive) f (name : string) : option Z :=
  match search gs name (root :: keys f) with Some x => gi_usage <$> gs !! x | None => None end.

Definition use_name (root : positive) gs (nv : string * Z) : outcome groups :=
  let! (gs, x) := find_alloc_ginfo root gs (fst nv) in set_usage gs x (snd nv).

Lemma use_name_spec gs root f n v :
  fair_tree gs root f ->
  exists gs' f', use_name root gs (n, v) = Ret gs' /\ fair_tree gs' root f' /\ usage_of gs' root f' n = Some v /\
    forall m, m <> n -> usage_of gs' root f' m = usage_of gs root f m.
Proof.
  intros H. unfold use_name. cbn [fst snd]. destruct (find_alloc_spec gs root f n H) as (gs1 & f1 & x & -> & L). cbn [obind].
  pose proof (lu_found _ _ _ _ _ _ _ L) as Hf. destruct (search_some _ _ _ _ Hf) as [Hx Hn].
  destruct (tree_lookup gs1 None (Group root f1 Leaf) x (ft_tree _ _ _ (lu_tree _ _ _ _ _ _ _ L))) as [g Hg]; [done|].
  destruct (set_usage_spec gs1 x v g Hg) as (gs2 & -> & Hs & Ho & Hx2).
  destruct (same_places_tree gs1 gs2 root f1 Hs (lu_tree _ _ _ _ _ _ _ L)) as (H2 & _).
  assert (Hnm : forall m y, named gs2 m y = named gs1 m y).
  { intros m y. unfold named. specialize (Hs y). destruct (gs1 !! y), (gs2 !! y); try done. by destruct Hs as (-> & _). }
  exists gs2, f1. split; [done|]. split; [done|]. unfold usage_of. split.
  - rewrite (search_ext gs1 gs2), Hf by auto. by rewrite Hx2.
  - intros m Hm. rewrite (search_ext gs1 gs2) by auto. rewrite (lu_others _ _ _ _ _ _ _ L m Hm).
    destruct (search gs m (root :: keys f)) as [y|] eqn:Ey; [|done]. destruct (search_some _ _ _ _ Ey) as [Hy Hym].
    destruct (tree_lookup gs None (Group root f Leaf) y (ft_tree _ _ _ H)) as [h Hh]; [done|].
    destruct (lu_keeps _ _ _ _ _ _ _ L) as (ks & [Hk _] & _). destruct (Hk y h Hh) as (h' & Hh' & Hn' & _ & Hu & _).
    assert (y <> x).
    { intros ->. unfold named in Hym, Hn. rewrite Hh in Hym. rewrite Hh', Hn' in Hn.
      apply String.eqb_eq in Hym, Hn. congruence. }
    rewrite Ho by done. rewrite Hh, Hh'. simpl. by rewrite Hu.
Qed.

Lemma use_all_spec root pairs : forall gs f,
  fair_tree gs root f -> NoDup pairs.*1 ->
  exists gs' f', ofold (use_name root) pairs gs = Ret gs' /\ fair_tree gs' root f' /\
    (forall n v, (n, v) ∈ pairs -> usage_of gs' root f' n = Some v) /\
    (forall n, n ∉ pairs.*1 -> usage_of gs' root f' n = usage_of gs root f n).
Proof.
  induction pairs as [|[n v] pairs IH]; intros gs f H Hnd.
  { exists gs, f. split_and!; try done. by intros ?? ?%elem_of_nil. }
  rewrite fmap_cons in *. apply NoDup_cons in Hnd as [Hn Hnd].
  destruct (use_name_spec gs root f n v H) as (gs1 & f1 & E1 & H1 & Hu1 & Ho1).
  destruct (IH gs1 f1 H1 Hnd) as (gs2 & f2 & E2 & H2 & Hu2 & Ho2). exists gs2, f2. cbn [ofold]. rewrite E1.
  split_and!; [done|done| |].
  - intros m w [[= -> ->]|Hm]%elem_of_cons; [|by apply Hu2]. by rewrite Ho2.
  - intros m [Hmn Hm]%not_elem_of_cons. rewrite Ho2 by done. by apply Ho1.
Qed.

(** ** What is written *)

(** The groups that have been used. *)
Definition used gs (ks : list positive) : list (string * Z) :=
  ks ≫= fun x => match gs !! x with
                 | Some g => if gi_usage g =? 1 then [] else [(gi_name g, gi_usage g)]
                 | None => []
                 end.

Definition join (l : list string) : string := fold_right String.append "" l.

Lemma append_nil s : s ++ "" = s.
Proof. induction s as [|c s IH]; [done|]. exact (f_equal (String c) IH). Qed.

Lemma append_assoc a b s : (a ++ b) ++ s = a ++ (b ++ s).
Proof. induction a as [|c a IH]; [done|]. exact (f_equal (String c) IH). Qed.

Lemma join_app (l1 l2 : list string) : join (l1 ++ l2)%list = join l1 ++ join l2.
Proof. induction l1 as [|a l1 IH]; [done|]. simpl. by rewrite IH, append_assoc. Qed.

Lemma used_app gs ks1 ks2 : used gs (ks1 ++ ks2)%list = (used gs ks1 ++ used gs ks2)%list.
Proof. apply bind_app. Qed.

Definition record_of (nv : string * Z) : string :=
  fst nv ++ zeros (16 - String.length (fst nv)) ++ le_bytes 8 (snd nv).

Definition short_name (name : string) : bool := strlen name <? Z.of_nat NAME_SIZE.

Lemma dump_records_spec f : forall gs parent fuel,
  tree_at gs parent f -> (length (keys f) < fuel)%nat -> Forall (fun nv => short_name (fst nv) = true) (used gs (keys f)) ->
  dump_records fuel gs (first f) = Ret (join (record_of <$> used gs (keys f))).
Proof.
  induction f as [|z c IHc s IHs]; intros gs parent fuel Ht Hf Hshort; (destruct fuel as [|fuel]; [lia|]); [done|].
  cbn [tree_at keys first dump_records] in *. destruct Ht as (g & Hg & _ & Hch & Hsi & Hc & Hs).
  rewrite length_cons, length_app in Hf.
  change (z :: keys s ++ keys c)%list with ([z] ++ (keys s ++ keys c))%list in *. rewrite !used_app in *.
  apply Forall_app in Hshort as [Hz [Hss Hsc]%Forall_app].
  rewrite (group_at_ok gs z g Hg). cbn [obind]. rewrite Hch, Hsi.
  assert (Ez : (if gi_usage g =? 1 then Ret "" else group_node_usage (gi_name g) (gi_usage g)) = Ret (join (record_of <$> used gs [z]))).
  { unfold used in *. cbn in *. rewrite Hg in *. destruct (gi_usage g =? 1); [done|]. cbn in *.
    apply Forall_cons in Hz as [Hz _]. cbn in Hz. unfold short_name in Hz. unfold group_node_usage. rewrite Hz.
    unfold record_of. cbn [fst snd]. by rewrite append_nil. }
  rewrite Ez. cbn [obind]. rewrite (IHs gs parent fuel) by (done || lia). cbn [obind].
  rewrite (IHc gs (Some z) fuel) by (done || lia). cbn [obind]. by rewrite !fmap_app, !join_app.
Qed.

Definition key_line (nv : string * Z) : string := fst nv ++ "=" ++ dec (snd nv) ++ lf.

Lemma dump_keys_spec f : forall gs parent fuel,
  tree_at gs parent f -> (length (keys f) < fuel)%nat ->
  dump_keys fuel gs (first f) = Ret (join (key_line <$> used gs (keys f))).
Proof.
  induction f as [|z c IHc s IHs]; intros gs parent fuel Ht Hf; (destruct fuel as [|fuel]; [lia|]); [done|].
  cbn [tree_at keys first dump_keys] in *. destruct Ht as (g & Hg & _ & Hch & Hsi & Hc & Hs).
  rewrite length_cons, length_app in Hf.
  change (z :: keys s ++ keys c)%list with ([z] ++ (keys s ++ keys c))%list. rewrite !used_app.
  rewrite (group_at_ok gs z g Hg). cbn [obind]. rewrite Hch, Hsi.
  rewrite (IHs gs parent fuel) by (done || lia). cbn [obind]. rewrite (IHc gs (Some z) fuel) by (done || lia). cbn [obind].
  rewrite !fmap_app, !join_app. do 2 f_equal. unfold used. cbn. rewrite Hg. destruct (gi_usage g =? 1); [done|].
  cbn. unfold key_line. cbn [fst snd]. by rewrite append_nil.
Qed.

(** ** The binary file *)

Lemma substring_all s : String.substring 0 (String.length s) s = s.
Proof. induction s as [|c s IH]; [done|]. simpl. by rewrite IH. Qed.

Lemma substring_prefix a b : String.substring 0 (String.length a) (a ++ b) = a.
Proof. induction a as [|c a IH]; simpl; [by destruct b|]. by rewrite IH. Qed.

Lemma substring_suffix a b n : String.substring (String.length a) n (a ++ b) = String.substring 0 n b.
Proof. induction a as [|c a IH]; simpl; done. Qed.

Lemma length_zeros n : String.length (zeros n) = n.
Proof. induction n as [|n IH]; [done|]. simpl. by rewrite IH. Qed.

Lemma length_le_bytes n z : String.length (le_bytes n z) = n.
Proof. revert z. induction n as [|n IH]; intros z; [done|]. simpl. by rewrite IH. Qed.

Lemma le_value_bytes n z : le_value (le_bytes n z) = z mod 256 ^ Z.of_nat n.
Proof.
  revert z. induction n as [|n IH]; intros z; [by rewrite Z.mod_1_r|].
  cbn [le_bytes le_value]. rewrite IH. unfold code.
  pose proof (Z.mod_pos_bound z 256 ltac:(lia)). rewrite N_ascii_embedding by lia.
  rewrite Z2N.id by lia. rewrite Nat2Z.inj_succ, Z.pow_succ_r by lia.
  rewrite Z.rem_mul_r by (try apply Z.pow_nonzero; lia). lia.
Qed.

Fixpoint has_nul s : bool := match s with EmptyString => false | String c s => Ascii.eqb c NUL || has_nul s end.

Lemma split_at_nul a b : has_nul a = false -> split_at (a ++ String NUL b) NUL = (a, Some b).
Proof.
  induction a as [|c a IH]; [done|]. simpl. intros [Hc Ha]%orb_false_iff. unfold NUL in *. rewrite Hc. by rewrite IH.
Qed.

Section Record.
Context (name : string) (v : Z).
Hypothesis Hshort : short_name name = true.
Hypothesis Hnul : has_nul name = false.
Hypothesis Hv : in_s 64 v.

Lemma short_length : (String.length name < 9)%nat.
Proof. unfold short_name, NAME_SIZE in Hshort. rewrite strlen_length in Hshort. apply Z.ltb_lt in Hshort. lia. Qed.

Lemma record_length : String.length (record_of (name, v)) = USAGE_SIZE.
Proof.
  pose proof short_length. unfold record_of, USAGE_SIZE. cbn [fst snd].
  rewrite !strlength_app, length_zeros, length_le_bytes. lia.
Qed.

Lemma zeros_split n m : zeros (n + m) = zeros n ++ zeros m.
Proof. induction n as [|n IH]; [done|]. simpl. by rewrite IH. Qed.

Lemma record_name : usage_name (record_of (name, v)) = Ret name.
Proof.
  pose proof short_length as Hl. unfold usage_name, record_of. cbn [fst snd].
  replace (16 - String.length name)%nat with ((9 - String.length name) + 7)%nat by lia.
  rewrite zeros_split, append_assoc, <- append_assoc.
  replace NAME_SIZE with (String.length (name ++ zeros (9 - String.length name)))
    by (rewrite strlength_app, length_zeros; unfold NAME_SIZE; lia).
  rewrite substring_prefix. destruct (9 - String.length name)%nat as [|k] eqn:E; [lia|]. cbn [zeros].
  by rewrite split_at_nul.
Qed.

Lemma record_value : usage_value (record_of (name, v)) = v.
Proof.
  pose proof short_length as Hl. unfold usage_value, record_of. cbn [fst snd]. rewrite <- append_assoc.
  replace 16%nat with (String.length (name ++ zeros (16 - String.length name))) at 1
    by (rewrite strlength_app, length_zeros; lia).
  rewrite substring_suffix. rewrite <- (length_le_bytes 8 v) at 1. rewrite substring_all, le_value_bytes.
  change (256 ^ Z.of_nat 8) with (2 ^ 64). rewrite (wrap_s_eq_mod 64 _ v) by (lia || by rewrite Z.mod_mod by lia).
  by apply i64_id.
Qed.
End Record.

Lemma usage_records_join (l : list string) fuel :
  Forall (fun r => String.length r = USAGE_SIZE) l -> (length l < fuel)%nat -> usage_records fuel (join l) = l.
Proof.
  revert fuel. induction l as [|r l IH]; intros fuel Hl Hf; (destruct fuel as [|fuel]; [simpl in Hf; lia|]); [done|].
  apply Forall_cons in Hl as [Hr Hl]. cbn [usage_records join fold_right]. fold (join l).
  rewrite strlength_app. destruct (Nat.ltb_spec (String.length r + String.length (join l)) USAGE_SIZE); [lia|].
  rewrite <- Hr at 1. rewrite substring_prefix. f_equal. rewrite <- Hr at 1. rewrite substring_suffix.
  replace (String.length r + String.length (join l) - USAGE_SIZE)%nat with (String.length (join l)) by lia.
  rewrite substring_all. apply IH; [done|]. simpl in Hf. lia.
Qed.

Lemma join_length (l : list string) : Forall (fun r => String.length r = USAGE_SIZE) l -> (length l <= String.length (join l))%nat.
Proof.
  induction 1 as [|r l Hr Hl IH]; [done|]. cbn [join fold_right]. fold (join l). rewrite strlength_app, Hr.
  unfold USAGE_SIZE. simpl. lia.
Qed.

(** ** Reading back *)

(** A name and a usage that the binary file holds. *)
Definition storable (nv : string * Z) : Prop := short_name (fst nv) = true /\ has_nul (fst nv) = false /\ in_s 64 (snd nv).

Lemma read_records root pairs gs :
  Forall storable pairs ->
  read_usage_file root (Some (join (record_of <$> pairs))) gs = ofold (use_name root) pairs gs.
Proof.
  intros Hp. assert (Hlen : Forall (fun r => String.length r = USAGE_SIZE) (record_of <$> pairs)).
  { apply Forall_fmap. eapply Forall_impl; [exact Hp|]. intros [n v] (H1 & _). by apply record_length. }
  assert (E : usage_records (String.length (join (record_of <$> pairs))) (join (record_of <$> pairs)) = record_of <$> pairs).
  { destruct pairs as [|p pairs]; [done|]. apply usage_records_join; [done|]. pose proof (join_length _ Hlen).
    rewrite fmap_cons in *. apply Forall_cons in Hlen as [Hr Hlen]. cbn [join fold_right]. fold (join (record_of <$> pairs)).
    rewrite strlength_app, Hr. pose proof (join_length _ Hlen). unfold USAGE_SIZE. simpl. lia. }
  cbn [read_usage_file]. rewrite E. clear E Hlen. revert gs. induction Hp as [|[n v] pairs (H1 & H2 & H3) Hp IH]; intros gs; [done|].
  rewrite fmap_cons. cbn [ofold]. cbn [fst snd] in *.
  assert (Es : read_usage_record root gs (record_of (n, v)) = use_name root gs (n, v)).
  { unfold read_usage_record, use_name. cbn [fst snd]. rewrite record_name by done. cbn [obind]. by rewrite record_value. }
  rewrite Es. destruct (use_name root gs (n, v)); [apply IH|done|done].
Qed.

Lemma read_keys_all root get_value pairs gs gs' :
  (forall n v, (n, v) ∈ pairs -> get_value (dec v) = Some v) ->
  ofold (use_name root) pairs gs = Ret gs' ->
  read_keys root get_value ((fun nv => (fst nv, dec (snd nv))) <$> pairs) gs = Ret (gs', true).
Proof.
  revert gs. induction pairs as [|[n v] pairs IH]; intros gs Hv E; [by injection E as <-|].
  rewrite fmap_cons. cbn [read_keys fst snd ofold] in *. rewrite (Hv n v) by (by left).
  unfold use_name in E at 1. cbn [fst snd] in E. destruct (find_alloc_ginfo root gs n) as [[gs1 x]| |]; cbn [obind] in *; try done.
  destruct (set_usage gs1 x v) as [gs2| |]; cbn [obind]; try done.
  apply IH; [|done]. intros m w Hm. apply (Hv m w). by right.
Qed.

(** C32: the usage of the users survives a restart: both usage files are written
    without an error, and reading either of them into any other tree, of the
    same configuration or another one, gives every user whose usage was written
    that usage again, and leaves the usage of the others as it was.  The names in
    a tree are distinct, and for the binary file they are shorter than its nine
    bytes; a longer one overflows the buffer. *)
Theorem usage_survives_restart gs root f gs0 root0 f0 (read_ini : string -> option (list (string * list (string * string))))
    (get_value : string -> option Z)
    (H : fair_tree gs root f) (H0 : fair_tree gs0 root0 f0)
    (Hnames : NoDup (used gs (root :: keys f)).*1) (Hstore : Forall storable (used gs (root :: keys f)))
    (Hini : read_ini ("[default]" ++ lf ++ join (key_line <$> used gs (root :: keys f)))
      = Some [("default", (fun nv => (fst nv, dec (snd nv))) <$> used gs (root :: keys f))])
    (Hvalue : forall z, in_s 64 z -> get_value (dec z) = Some z) :
  exists ini bytes, dump_to_ini gs root = Ret ini /\ dump_to_file gs root = Ret bytes /\
    forall text, text = Some ini \/ text = None ->
    exists gs' f', read_usage root0 read_ini get_value text (Some bytes) gs0 = Ret gs' /\ fair_tree gs' root0 f' /\
      (forall x g, x ∈ root :: keys f -> gs !! x = Some g -> gi_usage g <> 1 ->
        usage_of gs' root0 f' (gi_name g) = Some (gi_usage g)) /\
      (forall n, n ∉ (used gs (root :: keys f)).*1 -> usage_of gs' root0 f' n = usage_of gs0 root0 f0 n).
Proof.
  pose proof (tree_size _ _ _ (ft_tree _ _ _ H)) as Hsz. cbn [keys app] in Hsz. specialize (Hsz (ft_nodup _ _ _ H)).
  set (pairs := used gs (root :: keys f)) in *.
  exists ("[default]" ++ lf ++ join (key_line <$> pairs)), (join (record_of <$> pairs)).
  split; [|split].
  - unfold dump_to_ini. pose proof (dump_keys_spec (Group root f Leaf) gs None (size gs + 1)%nat (ft_tree _ _ _ H)) as E.
    cbn [keys app first] in E. rewrite E by lia. done.
  - unfold dump_to_file. pose proof (dump_records_spec (Group root f Leaf) gs None (size gs + 1)%nat (ft_tree _ _ _ H)) as E.
    cbn [keys app first] in E. apply E; [lia|]. eapply Forall_impl; [exact Hstore|]. by intros ? (? & _).
  - destruct (use_all_spec root0 pairs gs0 f0 H0 Hnames) as (gs' & f' & E & H' & Hin & Hout).
    intros text Htext. exists gs', f'. split; [|split; [done|split; [|done]]].
    + unfold read_usage. destruct Htext as [-> | ->]; cbn [mbind option_bind].
      * rewrite Hini. cbn [mbind list_bind snd]. rewrite app_nil_r, (read_keys_all root0 get_value pairs gs0 gs'); [done| |done].
        intros n v Hnv. apply Hvalue. rewrite Forall_forall in Hstore. by destruct (Hstore _ Hnv) as (_ & _ & ?).
      * by rewrite read_records.
    + intros x g Hx Hg Hu. apply Hin. unfold pairs, used. apply list_elem_of_bind. exists x. split; [|done]. rewrite Hg.
      destruct (Z.eqb_spec (gi_usage g) 1); [done|]. by left.
Qed.

(** A parser that knows the one text, for two users of which one is unknown in
    the configuration. *)
Definition example_ini : string := "[default]" ++ lf ++ "carol=7" ++ lf ++ "alice=500" ++ lf.

Definition toy_read_ini (text : string) : option (list (string * list (string * string))) :=
  if String.eqb text example_ini then Some [("default", [("carol", "7"); ("alice", "500")])] else None.

(** The tree is built anew without the usage: Carol is not in it. *)
Definition fresh_groups : groups := match example_tree None with Ret (gs, _) => gs | _ => ∅ end.
Definition fresh_forest : forest := Group 3 (Group 5 Leaf (Group 4 Leaf Leaf)) (Group 2 Leaf Leaf).

Lemma usage_survives_restart_witness :
  exists ini bytes gs f, dump_to_ini example_groups 1 = Ret ini /\ dump_to_file example_groups 1 = Ret bytes /\
    read_usage 1 toy_read_ini (fun s => Some (fst (strtol10 s))) (Some ini) (Some bytes) fresh_groups = Ret gs /\
    fair_tree gs 1 f /\ usage_of fresh_groups 1 fresh_forest "carol" = None /\ usage_of gs 1 f "carol" = Some 7.
Proof.
  assert (H0 : fair_tree fresh_groups 1 fresh_forest) by (apply fair_treeb_spec; vm_compute; reflexivity).
  assert (Hused : used example_groups (1%positive :: keys example_forest) = [("carol", 7); ("alice", 500)])
    by (vm_compute; reflexivity).
  destruct (usage_survives_restart example_groups 1 example_forest fresh_groups 1 fresh_forest toy_read_ini
    (fun s => Some (fst (strtol10 s)))) as (ini & bytes & E1 & E2 & H).
  - apply example_fair.
  - exact H0.
  - apply (bool_decide_unpack _). vm_compute. exact I.
  - rewrite Hused. repeat constructor; simpl; in_range.
  - vm_compute. reflexivity.
  - intros z Hz. by rewrite strtol10_dec.
  - destruct (H (Some ini)) as (gs & f & E & Hf & Hu & _); [by left|].
    exists ini, bytes, gs, f. split; [exact E1|]. split; [exact E2|]. split; [exact E|]. split; [exact Hf|].
    split; [vm_compute; reflexivity|]. destruct (example_groups !! 6%positive) as [g|] eqn:Eg; [|vm_compute in Eg; discriminate].
    specialize (Hu 6%positive g). vm_compute in Eg. injection Eg as <-. apply Hu; [|vm_compute; reflexivity|discriminate].
    apply (bool_decide_unpack _). vm_compute. exact I.
Defined.
