(* ===== verification/Fairshare.v ===== *)
(** * Fairshare: fairshare.cpp, and the cycle's part of it in SchedulerRealm.cpp

    The trees of the scheduler by name, all in one store of groups; the usage of
    the running jobs, charged from cycle to cycle; the decay of the usage; the
    choice of the next job by its share and usage.  The file system is a function
    from the name of a tree to the texts of its files. *)

From Stdlib Require Import ZArith Lia Bool Ascii String SpecFloat.
From S2P Require Import Prelude CString CFloat MiscHelpers Config DataTypes JobInfo FairshareTree.

Local Open Scope string_scope.
Open Scope Z_scope.
Local Open Scope sched_scope.

Record fairshare := mkFairshare {
  fs_groups : groups;
  fs_trees : gmap string positive
}.

#[export] Instance fairshare_fields : Fields fairshare :=
  fields_app (fields_app (fields_const mkFairshare) fs_groups) fs_trees.

(** The configuration and the two usage files of a tree. *)
Record tree_files := mkTreeFiles {
  tf_config : option string;
  tf_ini : option string;
  tf_usage : option string
}.

(** The trees in the order of the [map], by name. *)
Definition sorted_trees (fs : fairshare) : list (string * positive) :=
  isort (fun a b => String.ltb (fst a) (fst b)) (map_to_list (fs_trees fs)).

Section Trees.
Variable read_ini : string -> option (list (string * list (string * string))).
Variable get_value : string -> option Z.
Variable unknown_shares : Z.
Variable files : string -> tree_files.

Definition new_tree (name : string) (gs : groups) : outcome (groups * positive) :=
  FairshareTree read_ini get_value unknown_shares (tf_config (files name)) (tf_ini (files name)) (tf_usage (files name)) gs.

Definition get_tree (fs : fairshare) (tree : string) : outcome (fairshare * positive) :=
  match fs_trees fs !! tree with
  | Some root => Ret (fs, root)
  | None =>
      let! (gs, root) := new_tree tree (fs_groups fs) in
      Ret (mkFairshare gs (<[tree := root]> (fs_trees fs)), root)
  end.

(** The tree is built before the insertion finds whether there is one; it is freed
    again when there is. *)
Definition init_fairshare (fs : fairshare) : outcome fairshare :=
  let! (gs, root) := new_tree "default" (fs_groups fs) in
  match fs_trees fs !! "default" with
  | Some _ => Ret fs
  | None => Ret (mkFairshare gs (<["default" := root]> (fs_trees fs)))
  end.
End Trees.

(** Every group belongs to a tree; pointers to them dangle. *)
Definition free_fairshare_trees : fairshare := mkFairshare ∅ ∅.

(** The metric and the priorities each tree stores in the cache. *)
Definition dump_all_fairshare (fs : fairshare) : outcome (list (string * list (string * spec_float))) :=
  ofold (fun out '(name, root) =>
    let! d := dump_to_cache (size (fs_groups fs) + 1) (fs_groups fs) (Some root) in
    Ret (out ++ [(("fairshare." ++ name)%string, d)])%list) (sorted_trees fs) [].

(** The files, in the order they are written. *)
Definition write_usages (fs : fairshare) : outcome (list (string * string)) :=
  ofold (fun out '(name, root) =>
    let! bytes := dump_to_file (fs_groups fs) root in
    let! ini := dump_to_ini (fs_groups fs) root in
    Ret (out ++ [(("usage." ++ name)%string, bytes); (("usage." ++ name ++ ".ini")%string, ini)])%list) (sorted_trees fs) [].

Definition decay_fairshare_trees (fs : fairshare) : outcome fairshare :=
  ofold (fun fs '(_, root) => let! gs := decay (fs_groups fs) root in Ret (fs <| fs_groups := gs |>)) (sorted_trees fs) fs.

(** ** The usage of jobs *)

Definition calculate_usage_value (resreq : list resource_req) : Z :=
  match find_resource_req resreq "walltime" with
  | Some tmp => req_amount tmp
  | None => 0
  end.

Definition update_usage_on_run (gs : groups) (jinfo : JobInfo) : outcome groups :=
  let! tmp := of_option (find_resource_req (resreq jinfo) "procs") in
  let! x := of_option (ginfo jinfo) in
  let! g := group_at gs x in
  Ret (<[x := g <| gi_temp_usage := i64 (gi_temp_usage g + i64 (calculate_usage_value (resreq jinfo) * req_amount tmp)) |>]> gs).

(** prev_job_info: a job that was running at the end of the last cycle. *)
Record prev_job_info := mkPrevJob {
  pv_name : string;
  pv_account : string;
  pv_resused : list resource_req;
  pv_ginfo : option positive
}.

(** [World::update_last_running]; the contract on the number of running jobs ends
    the program. *)
Definition update_last_running (running : Z) (running_jobs : list JobInfo) : outcome (list prev_job_info) :=
  if running =? Z.of_nat (length running_jobs) then
    Ret ((fun j => mkPrevJob (job_id j) (account j) (resused j) (ginfo j)) <$> running_jobs)
  else Throw "Expects".

(** ** World::update_fairshare *)

(** A [double] added to a [long long]. *)
Definition add_double (usage : Z) (x : spec_float) : Z :=
  ftrunc (fadd (F := binary64) (fof_Z (F := binary64) usage) x).

Definition used_since (job : JobInfo) (last : prev_job_info) : Z :=
  i64 (i64 (calculate_usage_value (resused job) - calculate_usage_value (pv_resused last)) + 5 * 60).

(** The first job that was running, and still is or has ended, with the name. *)
Definition find_running (jobs : list JobInfo) (name : string) : option JobInfo :=
  head (filter (fun j => (state j = JobCompleted \/ state j = JobExiting \/ state j = JobRunning) /\ job_id j = name) jobs).

Definition charge_job (jobs : list JobInfo) (gs : groups) (last : prev_job_info) : outcome groups :=
  match find_running jobs (pv_name last) with
  | None => Ret gs
  | Some job =>
      let! x := of_option (pv_ginfo last) in
      let! g := group_at gs x in
      if negb (feq (calculated_fairshare job) fzero) then
        let cost := fmul (F := binary64) (fof_Z (F := binary64) (used_since job last)) (calculated_fairshare job) in
        Ret (<[x := g <| gi_usage := add_double (gi_usage g) cost |>]> gs)
      else
        let! tmp := of_option (find_resource_req (resreq job) "procs") in
        Ret (<[x := g <| gi_usage := i64 (gi_usage g + i64 (used_since job last * req_amount tmp)) |>]> gs)
  end.

Definition settle_usage (gs : groups) (last : prev_job_info) : outcome groups :=
  let! x := of_option (pv_ginfo last) in
  let! g := group_at gs x in
  Ret (<[x := g <| gi_temp_usage := gi_usage g |>]> gs).

(** The half-lives since the last decay; the loop does not end when [half_life] is
    not positive. *)
Fixpoint decay_loop (fuel : nat) (half_life last_decay t : Z) (fs : fairshare) (decayed : bool)
  : outcome (fairshare * bool) :=
  match fuel with
  | O => UB
  | S fuel =>
      if i64 (t - last_decay) >? half_life then
        let! fs := decay_fairshare_trees fs in
        decay_loop fuel half_life last_decay (i64 (t - half_life)) fs true
      else Ret (fs, decayed)
  end.

(** The text of [LAST_DECAY_FILE] before and after, as a number; [None] when it
    cannot be opened. *)
Record decay_state := mkDecay {
  ds_last_decay : option Z;
  ds_last_sync : Z
}.

(** The files written are the last part of the answer. *)
Definition update_fairshare (fuel : nat) (c : config) (s : status) (jobs : list JobInfo) (last_running : list prev_job_info)
    (fs : fairshare) (ds : decay_state) : outcome (fairshare * decay_state * list (string * string)) :=
  if negb (fair_share s) then Ret (fs, ds, [])
  else
    let! gs := ofold (charge_job jobs) last_running (fs_groups fs) in
    let! gs := ofold settle_usage last_running gs in
    let last_decay := default 0 (ds_last_decay ds) in
    let! (fs, decayed) := decay_loop fuel (half_life c) last_decay (current_time s) (fs <| fs_groups := gs |>) false in
    let ds :=
      if decayed : bool
      then mkDecay (Some (i64 (current_time s - Z.rem (i64 (current_time s - last_decay)) (half_life c)))) (ds_last_sync ds)
      else ds in
    if i64 (current_time s - ds_last_sync ds) >? sync_time c then
      let! out := write_usages fs in
      Ret (fs, mkDecay (ds_last_decay ds) (current_time s), out)
    else Ret (fs, ds, []).

(** ** The choice of the next job *)

(** The percentage for each unit of usage, as a [float]. *)
Definition fair_value (gs : groups) (j : JobInfo) : outcome spec_float :=
  let! x := of_option (ginfo j) in
  let! g := group_at gs x in
  Ret (fdiv (F := binary32) (gi_percentage g) (fof_Z (F := binary32) (gi_temp_usage g))).

Definition suitable_for_run (j : JobInfo) : bool := negb (can_not_run j).

Section Extract.
Context {A : Type} (job_of : A -> JobInfo).

(** Jobs come with the priority of their queue. *)
Definition runnable (j : Z * A) : bool :=
  suitable_for_run (job_of (snd j)) && bool_decide (state (job_of (snd j)) <> JobRunning).

Fixpoint pop_front (d : list (Z * A)) : list (Z * A) :=
  match d with
  | [] => []
  | j :: d' => if runnable j then d else pop_front d'
  end.

(** The best job so far, its value and its priority. *)
Record best := mkBest { bs_max : option A; bs_value : spec_float; bs_priority : Z }.

Definition no_best : best := mkBest None (fof_Z (F := binary32) (-1)) (-1).

(** The jobs by owner, in the order of the hash table; the deque of a user is a
    copy.  [float] values convert to [double] exactly. *)
Definition extract_user (gs : groups) (b : best) (user : list (Z * A)) : outcome best :=
  match pop_front user with
  | [] => Ret b
  | (prio, j) :: _ =>
      if prio <? bs_priority b then Ret b
      else
        let b := if prio >? bs_priority b then mkBest (bs_max b) (fof_Z (F := binary32) (-1)) prio else b in
        let! v := fair_value gs (job_of j) in
        if flt (bs_value b) v then Ret (mkBest (Some j) v (bs_priority b)) else Ret b
  end.

Definition extract_fairshare (gs : groups) (jobs_by_owner : list (list (Z * A))) : outcome (option A) :=
  let! b := ofold (extract_user gs) jobs_by_owner no_best in Ret (bs_max b).

(** The overload for a list of jobs. *)
Definition extract_job (priority_fairshare : bool) (gs : groups) (b : best) (job : Z * A) : outcome best :=
  let (prio, j) := job in
  if negb (runnable job) then Ret b
  else if priority_fairshare && (prio <? bs_priority b) then Ret b
  else
    let b :=
      if priority_fairshare then
        mkBest (bs_max b) (if prio >? bs_priority b then fof_Z (F := binary32) (-1) else bs_value b) prio
      else b in
    let! v := fair_value gs (job_of j) in
    if flt (bs_value b) v then Ret (mkBest (Some j) v (bs_priority b)) else Ret b.

Definition extract_fairshare_jobs (priority_fairshare : bool) (gs : groups) (jobs : list (Z * A)) : outcome (option A) :=
  let! b := ofold (extract_job priority_fairshare gs) jobs no_best in Ret (bs_max b).
End Extract.

Arguments mkBest {A}.
Arguments bs_max {A}.
Arguments bs_value {A}.
Arguments bs_priority {A}.
Arguments no_best {A}.
Arguments best : clear implicits.

(** ** The order of jobs in the plan *)

Definition job_number (j : JobInfo) : Z := atoi (job_id j).

Definition compare_fairshare (gs : groups) (i j : JobInfo) : outcome bool :=
  let running := fun k => bool_decide (state k = JobRunning) in
  let queued := fun k => bool_decide (state k = JobQueued) in
  if running i && negb (running j) then Ret true
  else if negb (running i) && running j then Ret false
  else if running i && running j then Ret (job_number i <? job_number j)
  else if queued i && negb (queued j) then Ret true
  else if negb (queued i) && queued j then Ret false
  else if negb (queued i) && negb (queued j) then Ret (job_number i <? job_number j)
  else
    let! vi := fair_value gs i in
    let! vj := fair_value gs j in
    if fgt vi vj then Ret true
    else if feq vi vj && (job_number i <? job_number j) then Ret true
    else Ret false.
