(* ===== verification/ExternalCache.v ===== *)
(** * The state of a cycle and the external cache: SchedulerRealm.h, misc.cpp

    What the scheduler knows of the server during a cycle; the metrics of the cache,
    which other daemons fill, are put into it. *)

From Stdlib Require Import ZArith Lia Bool Ascii String.
From S2P Require Import Prelude CString MiscHelpers Resource PropRegistry DataTypes NodeData JobInfo QueueInfo ServerInfo NodeLogic NodeInfo FairshareTree Fairshare.

Local Open Scope string_scope.
Open Scope Z_scope.
Local Open Scope sched_scope.

(** [p_info] with its nodes and jobs, which are keys of stores, and the globals that
    reading the server adds to: the fairshare trees, the resources and the
    properties that are known. *)
Record world := mkW {
  w_server : server_info;
  w_nodes : node_store;
  w_jobs : gmap positive JobInfo;
  w_fairshare : fairshare;
  w_db : RescInfoDb;
  w_registry : PropRegistry
}.

#[export] Instance world_fields : Fields world :=
  fields_app (fields_app (fields_app (fields_app (fields_app (fields_app (fields_const mkW)
    w_server) w_nodes) w_jobs) w_fairshare) w_db) w_registry.

Section Cache.
(** [xcache_hash_fill_remote] and [xcache_hash_find]: the values of a metric on a
    server, by the name of the node; [None] when it cannot be fetched. *)
Variable cache : string -> string -> option (string -> option string).

Definition fetch_metric (w : world) (metric : string) : option (string -> option string) :=
  cache (srv_name (w_server w)) metric.

(** The walk over the nodes that have a value of the metric. *)
Definition use_value (f : world -> node_info -> string -> outcome (world * node_info)) (values : string -> option string)
    (w : world) (p : positive) : outcome world :=
  let! n := of_option (w_nodes w !! p) in
  match values (node_name n) with
  | None => Ret w
  | Some value => let! (w, n) := f w n value in Ret (w <| w_nodes := <[p := n]> (w_nodes w) |>)
  end.

Definition each_value (f : world -> node_info -> string -> outcome (world * node_info)) (metric : string) (w : world)
  : outcome world :=
  match fetch_metric w metric with
  | None => Ret w
  | Some values => ofold (use_value f values) (srv_nodes (w_server w)) w
  end.

(** The resources in the order of the [map]. *)
Definition sorted_resources (db : RescInfoDb) : list RescInfo :=
  snd <$> isort (fun a b => String.ltb (fst a) (fst b)) (map_to_list db).

Definition refresh_resource (name : string) (w : world) (n : node_info) (value : string) : outcome (world * node_info) :=
  let! (d, reg) := set_resource_dynamic (w_registry w) (data n) name value in
  Ret (w <| w_registry := reg |>, n <| data := d |>).

Definition refresh_resources (w : world) : outcome world :=
  ofold (fun w i =>
    if bool_decide (ri_source i = ResCheckBoth) || bool_decide (ri_source i = ResCheckCache)
    then each_value (refresh_resource (ri_name i)) (ri_name i) w else Ret w)
    (sorted_resources (w_db w)) w.

Definition read_cluster (w : world) (n : node_info) (value : string) : outcome (world * node_info) :=
  Ret (w, n <| p_phys_cluster := value |> <| nd_cluster_name := Some value |>).

(** The pool of a node becomes a dynamic resource. *)
Definition read_scratch_pool (w : world) (n : node_info) (value : string) : outcome (world * node_info) :=
  Ret (w <| w_db := fst (resc_insert (w_db w) value " " ResCheckDynamic) |>,
       n <| data := data n <| p_scratch_pool := value |> |>).

(** A dynamic resource that is there is kept. *)
Definition add_dynamic (values : string -> option string) (dyn : gmap string Dyn.DynamicResource) (i : RescInfo)
  : gmap string Dyn.DynamicResource :=
  if bool_decide (ri_source i = ResCheckDynamic) then
    match values (ri_name i), dyn !! ri_name i with
    | Some value, None => <[ri_name i := Dyn.new_Dyn (ri_name i) value]> dyn
    | _, _ => dyn
    end
  else dyn.

Definition read_dynamic_resources (w : world) : world :=
  match fetch_metric w "dynamic_resources" with
  | None => w
  | Some values =>
      w <| w_server := w_server w <| dynamic_resources :=
        fold_left (add_dynamic values) (sorted_resources (w_db w)) (dynamic_resources (w_server w)) |> |>
  end.

(** The part of a scratch that is in use by data nobody needs. *)
Definition read_dead_data (name : string) (w : world) (n : node_info) (value : string) : outcome (world * node_info) :=
  match split_at value ";", get_resource (data n) name with
  | (_, Some usage), Some r =>
      Ret (w, n <| data := data n <| p_resc := <[name := consume_resource_str r usage]> (p_resc (data n)) |> |>)
  | _, _ => Ret (w, n)
  end.

Definition scratch_of (s : string) : option ScratchType :=
  if String.eqb s "ssd" || String.eqb s "SSD" then Some ScratchSSD
  else if String.eqb s "shared" || String.eqb s "SHARED" || String.eqb s "Shared" then Some ScratchShared
  else if String.eqb s "local" || String.eqb s "LOCAL" || String.eqb s "Local" then Some ScratchLocal
  else None.

(** The three parts [X;Y;Z]; a missing one is a null pointer. *)
Fixpoint scratch_priorities (count order : nat) (head : option string) (n : node_info) : outcome node_info :=
  match count with
  | O => Ret n
  | S count =>
      let! head := of_option head in
      let (part, rest) := split_at head ";" in
      let! n := match scratch_of part with
                | Some s => of_option (set_scratch_priority n order s)
                | None => Ret n
                end in
      scratch_priorities count (S order) rest n
  end.

Definition read_scratch_priority (w : world) (n : node_info) (value : string) : outcome (world * node_info) :=
  let! n := scratch_priorities 3 0 (Some value) n in Ret (w, n).

(** The host of a node is looked at as it is at this moment. *)
Definition decode_status (w : world) (p : positive) : outcome world :=
  let! n := of_option (w_nodes w !! p) in
  let! host := match p_host n with None => Ret None | Some q => let! h := of_option (w_nodes w !! q) in Ret (Some h) end in
  Ret (w <| w_nodes := <[p := process_machine_cluster (process_magrathea_status n host)]> (w_nodes w) |>).

(** What is read only once in a cycle. *)
Definition read_static (w : world) : outcome world :=
  let! w := each_value read_cluster "phys_cluster" w in
  let! w := each_value read_scratch_pool "scratch_pool" w in
  let w := read_dynamic_resources w in
  let! w := each_value (read_dead_data "scratch_local") "scratch_local" w in
  let! w := each_value (read_dead_data "scratch_ssd") "scratch_ssd" w in
  each_value read_scratch_priority "scratch_priority" w.

Definition query_external_cache (dynamic : bool) (w : world) : outcome world :=
  let! w := refresh_resources w in
  let! w := if dynamic then Ret w else read_static w in
  let! w := ofold decode_status (srv_nodes (w_server w)) w in
  let! s := recount_installing_nodes (w_nodes w) (w_server w) in
  Ret (w <| w_server := s |>).
End Cache.
