(* ===== verification/Query.v ===== *)
(** * Reading the server: job_info.cpp, queue_info.cpp, node_info.cpp, server_info.cpp

    The replies of the server become jobs, queues and nodes; the servers that share
    queues with it add their jobs (World::fetch_servers). *)

From Stdlib Require Import ZArith Lia Bool Ascii String SpecFloat.
From S2P Require Import Prelude Connections CString CFloat MiscHelpers Config Prime Resource PropRegistry DataTypes NodeData JobInfo StateCount QueueInfo ServerInfo NodeLogic NodeInfo Check JobUpdate FairshareTree Fairshare ExternalCache.

Local Open Scope string_scope.
Open Scope Z_scope.
Local Open Scope sched_scope.

(** [batch_status]: an object of the server and its attributes. *)
Record batch_status := mkBatch { st_name : string; st_attribs : list attrl }.

(** A reply: [None] with an error number, which is positive when there was an error. *)
Record reply := mkStatReply { rp_list : option (list batch_status); rp_errno : Z }.

Section Query.
(** The files of the fairshare trees. *)
Variable read_ini : string -> option (list (string * list (string * string))).
Variable get_value : string -> option Z.
Variable unknown_shares : Z.
Variable files : string -> tree_files.
Variable conf : config.
Variable cstat : status.

(** ** Jobs *)

(** A job that is not queued is never considered. *)
Definition add_job (k : nat) (tree : string) (st : world * list positive) (s : batch_status) : outcome (world * list positive) :=
  let (w, result) := st in
  let j := JobInfo_ctor (st_name s) (st_attribs s) in
  let! (fs, root) := get_tree read_ini get_value unknown_shares files (w_fairshare w) tree in
  let! (gs, x) := find_alloc_ginfo root (fs_groups fs) (account j) in
  let j := j <| queue := Some k |> <| ginfo := Some x |> in
  let j := if bool_decide (state j = JobQueued) then j else j <| can_not_run := true |> in
  let p := fresh (dom (w_jobs w)) in
  Ret (w <| w_jobs := <[p := j]> (w_jobs w) |> <| w_fairshare := mkFairshare gs (fs_trees fs) |>, (result ++ [p])%list).

(** The jobs of the queue with number [k]; the answer [false] is an error. *)
Definition query_jobs (r : reply) (k : nat) (q : queue_info) (w : world) : outcome (world * list positive * bool) :=
  match rp_list r with
  | None => Ret (w, [], negb (rp_errno r >? 0))
  | Some jobs => let! (w, result) := ofold (add_job k (fairshare_tree q)) jobs (w, []) in Ret (w, result, true)
  end.

(** ** Queues *)

Definition q_limit (value : string) : Z :=
  let (count, endp) := strtol10 value in if negb (hd0 endp =c NUL) then -1 else i32 count.

(** [parse_prop] and the check of a node for a property. *)
Variable parse_prop : string -> pars_prop.

Definition node_has_prop (db : RescInfoDb) (n : node_info) (property : string) : bool :=
  is_result (has_prop db n (parse_prop property) true) CheckAvailable.

(** The nodes that are chosen are exclusive to the queue. *)
Definition push_nodes (choose : node_info -> bool) (w : world) (q : queue_info) : outcome queue_info :=
  ofold (fun q p =>
    let! n := of_option (w_nodes w !! p) in
    if choose n then of_option (push_excl_node q p) else Ret q) (srv_nodes (w_server w)) q.

Definition no_queue (n : node_info) : bool := String.eqb (p_ded_queue_name (data n)) "".

Definition queue_attr (w : world) (q : queue_info) (a : attrl) : outcome queue_info :=
  let name := attr_name a in
  let value := attr_value a in
  let truth := String.eqb value "True" in
  if String.eqb name "started" then Ret (if truth then q <| is_started := true |> else q)
  else if String.eqb name "max_running" then Ret (q <| q_max_run := q_limit value |>)
  else if String.eqb name "max_user_run" then Ret (q <| q_max_user_run := q_limit value |>)
  else if String.eqb name "max_group_run" then Ret (q <| q_max_group_run := q_limit value |>)
  else if String.eqb name "max_proc" then Ret (q <| q_max_proc := q_limit value |>)
  else if String.eqb name "max_user_proc" then Ret (q <| q_max_user_proc := q_limit value |>)
  else if String.eqb name "max_group_proc" then Ret (q <| q_max_group_proc := q_limit value |>)
  else if String.eqb name "fairshare_tree" then Ret (q <| fairshare_tree := value |>)
  else if String.eqb name "Priority" then Ret (q <| q_priority := q_limit value |>)
  else if String.eqb name "queue_type" then
    Ret (if String.eqb value "Execution" then q <| is_exec := true |> <| is_route := false |>
         else if String.eqb value "Route" then q <| is_route := true |> <| is_exec := false |>
         else q)
  else if String.eqb name "is_transit" then Ret (if truth then q <| is_global := true |> else q)
  else if String.eqb name "jobs_starving_after" then Ret (q <| starving_support := q_limit value |>)
  else if String.eqb name "fairshare_coef" then Ret (q <| queue_cost := atof value |>)
  else if String.eqb name "admin_queue" then Ret (if truth then q <| is_admin_queue := true |> else q)
  else if String.eqb name "required_property" then
    push_nodes (fun n => node_has_prop (w_db w) n value && no_queue n) w
      (q <| excl_nodes_only := true |> <| required_property := Some value |>)
  else Ret q.

(** The nodes that name the queue follow those with its property. *)
Definition query_queue_info (s : batch_status) (w : world) : outcome queue_info :=
  let! q := ofold (queue_attr w) (st_attribs s) (new_queue_info (st_name s)) in
  push_nodes (fun n => negb (no_queue n) && String.eqb (p_ded_queue_name (data n)) (q_name q)) w q.

Definition mark_ded_queue (q : queue_info) : queue_info :=
  if negb (String.eqb (ded_prefix conf) "") && String.prefix (ded_prefix conf) (q_name q)
  then q <| dedtime_queue := true |> else q.

(** The counters of a queue, and its jobs that run. *)
Definition count_queue (w : world) (q : queue_info) : queue_info :=
  let jobs := jobs_of (w_jobs w) (q_jobs q) in
  q <| q_sc := count_states (q_sc q) jobs |> <| q_running_jobs := filter (fun j => state j = JobRunning) jobs |>.

(** [pbs_selstat] for the jobs of a queue of a server. *)
Variable selstat : string -> string -> reply.

(** One queue with its jobs; jobs of a queue that is not scheduled cannot run, and
    are told so. *)
Definition query_queue (st : world * list alter_request) (s : batch_status) : outcome (world * list alter_request) :=
  let (w, requests) := st in
  let k := length (srv_queues (w_server w)) in
  let! q := query_queue_info s w in
  let! (w, jobs, _) := query_jobs (selstat (srv_name (w_server w)) (q_name q)) k q w in
  let q := mark_ded_queue (q <| q_jobs := jobs |>) in
  let ret := is_ok_to_run_queue conf cstat (srv_name (w_server w)) q in
  let ok := ret =? SUCCESS in
  let! (jinfos, rs) :=
    if ok then Ret (w_jobs w, [])
    else update_jobs_cant_run (w_jobs w) (q_jobs q) None (fst (translate_queue_fail_code ret)) START_WITH_JOB in
  let w := w <| w_jobs := jinfos |> in
  let q := count_queue w (q <| is_ok_to_run := ok |>) in
  Ret (w <| w_server := w_server w <| srv_queues := (srv_queues (w_server w) ++ [q])%list |> |>, (requests ++ rs)%list).

Definition query_queues (r : reply) (w : world) : outcome (option (world * list alter_request)) :=
  match rp_list r with
  | None => Ret None
  | Some queues => let! st := ofold query_queue queues (w, []) in Ret (Some st)
  end.

(** ** Nodes *)

(** What the fields hold that the constructor of a node does not set. *)
Variables junk_total junk_free : Z.
Variable junk_nostarving : bool.
Variable junk_magrathea : MagratheaState.

Definition add_node_status (w : world) (s : batch_status) : outcome world :=
  let! (d, reg) := NodeData_ctor junk_total junk_free junk_nostarving (w_registry w) (st_name s) (st_attribs s) in
  let p := fresh (dom (w_nodes w)) in
  Ret (w <| w_nodes := <[p := new_node_info d junk_magrathea]> (w_nodes w) |> <| w_registry := reg |>
         <| w_server := w_server w <| srv_nodes := (srv_nodes (w_server w) ++ [p])%list |> |>).

(** The first node of a name. *)
Fixpoint find_node_info (nodes : node_store) (nodename : string) (arr : list positive) : outcome (option positive) :=
  match arr with
  | [] => Ret None
  | p :: arr =>
      let! n := of_option (nodes !! p) in
      if strcmp (node_name n) nodename =? 0 then Ret (Some p) else find_node_info nodes nodename arr
  end.

(** The name of the host of a virtual node, from the local cache. *)
Variable cached_host : string -> option string.

(** A virtual node is linked with its host; without one it is not usable. *)
Definition link_host (w : world) (p : positive) : outcome world :=
  let! n := of_option (w_nodes w !! p) in
  if negb (bool_decide (p_type (data n) = NodeVirtual)) then Ret w
  else
    match cached_host (node_name n) with
    | None => Ret (w <| w_nodes := <[p := n <| p_is_notusable := true |>]> (w_nodes w) |>)
    | Some host =>
        let! physical := find_node_info (w_nodes w) host (srv_nodes (w_server w)) in
        match physical with
        | None => Ret w
        | Some q =>
            let nodes := <[p := n <| p_host := Some q |>]> (w_nodes w) in
            let! h := of_option (nodes !! q) in
            Ret (w <| w_nodes := <[q := h <| p_hosted := (p_hosted h ++ [p])%list |>]> nodes |>)
        end
    end.

Definition query_nodes (r : reply) (w : world) : outcome (option world) :=
  match rp_list r with
  | None => Ret None
  | Some nodes =>
      let! w := ofold add_node_status nodes w in
      let! w := ofold link_host (srv_nodes (w_server w)) w in
      Ret (Some w)
  end.

(** The nodes that no queue has for itself; [None] when there are none. *)
Definition is_node_non_dedicated (n : node_info) : bool := no_queue n.

Definition node_filter (nodes : node_store) (arr : list positive) (filter_func : node_info -> bool) : outcome (option (list positive)) :=
  let! chosen := ofold (fun l p => let! n := of_option (nodes !! p) in Ret (if filter_func n then l ++ [p] else l)%list) arr [] in
  Ret (match chosen with [] => None | _ => Some chosen end).

(** ** The server *)

Section Server.
Variable cache : string -> string -> option (string -> option string).
(** [get_bootable_alternatives] of the local repository. *)
Variable bootable : string -> option (list repository_alternatives).

Definition fetch_bootable_alternatives (n : node_info) : node_info :=
  if negb (bool_decide (p_type (data n) = NodeVirtual)) then n
  else match get_resource (data n) "magrathea" with
       | Some _ => n <| alternatives := bootable (node_name n) |>
       | None => n
       end.

Definition on_node (f : node_info -> outcome node_info) (w : world) (p : positive) : outcome world :=
  let! n := of_option (w_nodes w !! p) in
  let! n := f n in
  Ret (w <| w_nodes := <[p := n]> (w_nodes w) |>).

(** The null array is read when no node is left and there are nodes. *)
Definition select_nodes (w : world) : outcome world :=
  let! chosen := node_filter (w_nodes w) (srv_nodes (w_server w)) is_node_non_dedicated in
  match chosen, srv_nodes (w_server w) with
  | Some l, _ => Ret (w <| w_server := w_server w <| non_dedicated_nodes := l |> |>)
  | None, [] => Ret (w <| w_server := w_server w <| non_dedicated_nodes := [] |> |>)
  | None, _ => UB
  end.

(** The jobs of a node, in the order of the [set], on its processors.  A negative
    number of them cannot be allocated: the query then ends without a server. *)
Definition node_jobs (w : world) (n : node_info) : outcome (option node_info) :=
  if negb (has_jobs (data n)) then Ret (Some (n <| jobs_on_cpu := None |>))
  else if p_core_total (data n) <? 0 then Ret None
  else
    let possible := omap (fun p => j ← w_jobs w !! p; Some (p, j)) (scheduled_jobs (w_server w)) in
    let! cpus := ofold (fun cpus job => let! (cpus, _) := assign_jobs_on_cpu cpus job possible in Ret cpus)
      (isort String.ltb (elements (p_jobs (data n)))) (replicate (Z.to_nat (p_core_total (data n))) None) in
    Ret (Some (n <| jobs_on_cpu := Some cpus |>)).

Definition fill_node_jobs (acc : option world) (p : positive) : outcome (option world) :=
  match acc with
  | None => Ret None
  | Some w =>
      let! n := of_option (w_nodes w !! p) in
      let! n := node_jobs w n in
      Ret (match n with None => None | Some n => Some (w <| w_nodes := <[p := n]> (w_nodes w) |>) end)
  end.

(** A running job has its dynamic resources scheduled. *)
Definition schedule_request (j : JobInfo) (dyn : gmap string Dyn.DynamicResource) (i : RescInfo)
  : gmap string Dyn.DynamicResource :=
  if bool_decide (ri_source i = ResCheckDynamic) then
    match find_resource_req (resreq j) (ri_name i), dyn !! ri_name i with
    | Some req, Some d => <[ri_name i := Dyn.add_scheduled d (req_amount req)]> dyn
    | _, _ => dyn
    end
  else dyn.

Definition schedule_running (w : world) : outcome world :=
  let s := w_server w in
  let n := Z.to_nat (sc_running (srv_sc s)) in
  if decide (n <= length (running_jobs s))%nat then
    Ret (w <| w_server := s <| dynamic_resources :=
      fold_left (fun dyn j => fold_left (schedule_request j) (sorted_resources (w_db w)) dyn)
        (take n (running_jobs s)) (dynamic_resources s) |> |>)
  else UB.

(** The replies to [pbs_statserver], [pbs_statque] and [pbs_statnode]. *)
Record server_replies := mkReplies { sr_server : option batch_status; sr_queues : reply; sr_nodes : reply }.

(** The queues have been read: the server totals, jobs and nodes. *)
Definition complete_server (w : world) : outcome (option world) :=
  let s := server_set_jobs (sum_queue_states (w_server w)) in
  let s := select_running (w_jobs w) s in
  let! w := select_nodes (w <| w_server := s |>) in
  let w := w <| w_server := select_scheduled (w_jobs w) (w_server w) |> in
  let! w := ofold fill_node_jobs (srv_nodes (w_server w)) (Some w) in
  match w with None => Ret None | Some w => let! w := schedule_running w in Ret (Some w) end.

(** The stores of the last cycle are gone; the trees, resources and properties stay. *)
Definition query_server (rs : server_replies) (w : world) : outcome (option (world * list alter_request)) :=
  match sr_server rs with
  | None => Ret None
  | Some server =>
      let! s := query_server_info (st_name server) (st_attribs server) in
      let! w := query_nodes (sr_nodes rs) (mkW s ∅ ∅ (w_fairshare w) (w_db w) (w_registry w)) in
      match w with
      | None => Ret None
      | Some w =>
          let! w := query_external_cache cache false w in
          let! w := ofold (on_node (fun n => Ret (fetch_bootable_alternatives n))) (srv_nodes (w_server w)) w in
          let! r := query_queues (sr_queues rs) w in
          match r with
          | None => Ret None
          | Some (w, requests) =>
              let! w := complete_server w in
              Ret (match w with None => None | Some w => Some (w, requests) end)
          end
      end
  end.
End Server.

(** ** World::fetch_servers *)

(** The jobs of another server join the queue and the server. *)
Definition merge_jobs (k : nat) (jobs : list positive) (w : world) : outcome world :=
  let s := w_server w in
  let! q := of_option (srv_queues s !! k) in
  match jobs with
  | [] => Ret w
  | _ =>
      let q := q <| q_jobs := (q_jobs q ++ jobs)%list |> <| q_sc := reset_counts (q_sc q) |> in
      let s := s <| srv_queues := <[k := count_queue w q]> (srv_queues s) |> <| srv_jobs := (srv_jobs s ++ jobs)%list |> in
      let s := s <| srv_sc := count_states (reset_counts (srv_sc s)) (jobs_of (w_jobs w) (srv_jobs s)) |> in
      Ret (w <| w_server := select_running (w_jobs w) s |>)
  end.

Section Fetch.
Variable connect : ConnectionMgr -> string -> outcome (ConnectionMgr * Z).
Variable reset : ConnectionMgr -> string -> ConnectionMgr.

(** The queues of one slave server; an exception ends them, and the connection.  What
    a query that throws has added to the trees is left out: it is added again. *)
Fixpoint fetch_slave (slave : string) (ks : list nat) (m : ConnectionMgr) (w : world) : outcome (ConnectionMgr * world) :=
  match ks with
  | [] => Ret (m, w)
  | k :: ks =>
      let! q := of_option (srv_queues (w_server w) !! k) in
      if negb (is_global q) then fetch_slave slave ks m w
      else
        match connect m slave with
        | UB => UB
        | Throw _ => Ret (reset m slave, w)
        | Ret (m, _) =>
            match query_jobs (selstat slave (q_name q)) k q w with
            | UB => UB
            | Throw _ => Ret (reset m slave, w)
            | Ret (w, jobs, ok) =>
                if negb ok then fetch_slave slave ks m w
                else let! w := merge_jobs k jobs w in fetch_slave slave ks m w
            end
        end
  end.

(** The names end with an empty one. *)
Fixpoint fetch_slaves (slaves : list string) (m : ConnectionMgr) (w : world) : outcome (ConnectionMgr * world) :=
  match slaves with
  | [] => UB
  | slave :: slaves =>
      if String.eqb slave "" then Ret (m, w)
      else
        let! (m, w) := fetch_slave slave (seq 0 (length (srv_queues (w_server w)))) m w in
        fetch_slaves slaves m w
  end.

(** The server that was fetched, with the requests made on the way; [None] when it
    was not.  [query] is [query_server]; [master] and [connect] open the connections.
    A master that could not be connected is connected again in the next cycle. *)
Definition fetch_servers (master : ConnectionMgr -> string -> outcome (ConnectionMgr * Z))
    (query : world -> outcome (option (world * list alter_request))) (m : ConnectionMgr) (w : world)
  : outcome (ConnectionMgr * option (world * list alter_request)) :=
  match master m (local_server conf) with
  | UB => UB
  | Throw _ => Ret (m, None)
  | Ret (m, _) =>
      match query w with
      | UB => UB
      | Throw _ => Ret (m, None)
      | Ret None => Ret (reset m (local_server conf), None)
      | Ret (Some (w, requests)) =>
          let! (m, w) := fetch_slaves (slave_servers conf) m w in Ret (m, Some (w, requests))
      end
  end.

(** The jobs of each owner, with the priorities of their queues; for
    [regenerate_jobs_by_owner]. *)
Definition queue_priority (w : world) (j : JobInfo) : Z :=
  match queue j with Some k => match srv_queues (w_server w) !! k with Some q => q_priority q | None => 0 end | None => 0 end.

Definition with_priority (w : world) (l : list positive) : list (Z * positive) :=
  (fun p => (match w_jobs w !! p with Some j => queue_priority w j | None => 0 end, p)) <$> l.

Definition job_at (w : world) (p : positive) : JobInfo := default (new_JobInfo "") (w_jobs w !! p).

Definition owners (w : world) : gmap string (list (Z * positive)) :=
  jobs_by_owner (job_at w) (with_priority w (srv_jobs (w_server w))).
End Fetch.
End Query.
