(* ===== verification/Cycle.v ===== *)
(** * The scheduling cycle: fifo.cpp and SchedulerRealm.cpp

    [World::run] takes the jobs one by one in the order that [next_job] gives, checks
    each and asks the server to run it; the jobs that cannot run are told why. *)

From Stdlib Require Import ZArith Lia Bool Ascii String SpecFloat.
From S2P Require Import Prelude Connections CString CFloat MiscHelpers Config Prime Resource PropRegistry DataTypes NodeData JobInfo Sort StateCount QueueInfo ServerInfo NodeLogic NodeInfo JobPlan Assign Check RunLimits JobUpdate FairshareTree Fairshare ExternalCache Query.

Local Open Scope string_scope.
Open Scope Z_scope.
Local Open Scope sched_scope.

Definition COMMENT_STRICT_FIFO : string := "Not Running: Strict fifo order".
Definition COMMENT_NODE_STILL_BOOTING : string := "Not Running: One of desired nodes is still booting.".

(** The static variables of [next_job]. *)
Record job_cursor := mkCursor { last_queue : nat; last_job : Z }.

(** What is asked of the server about a job: to run it, or to move it here and run
    it; on the nodes of a text, which may be null. *)
Inductive run_request :=
| RunJob (job : string) (nodes : option string)
| MoveJob (job destination : string) (nodes : option string).

(** The state of a cycle: the jobs by owner, the cursor, the connections, and what
    the server was asked for, with the answers. *)
Record cycle := mkCycle {
  cy_world : world;
  cy_owners : gmap string (list (Z * positive));
  cy_cursor : job_cursor;
  cy_conns : ConnectionMgr;
  cy_requests : list alter_request;
  cy_runs : list (run_request * Z)
}.

#[export] Instance cycle_fields : Fields cycle :=
  fields_app (fields_app (fields_app (fields_app (fields_app (fields_app (fields_const mkCycle)
    cy_world) cy_owners) cy_cursor) cy_conns) cy_requests) cy_runs.

(** ** The next job *)

Definition job_is_movable (w : world) (j : JobInfo) : outcome bool :=
  if negb (suitable_for_run j) then Ret false
  else
    let! k := of_option (queue j) in
    let! q := of_option (srv_queues (w_server w) !! k) in
    Ret (is_global q && bool_decide (state j = JobQueued)).

Section Next.
Variable conf : config.
Variable cstat : status.
(** The order of the hash table of the owners. *)
Variable hash_order : gmap string (list (Z * positive)) -> list (list (Z * positive)).

Definition next_job_init : outcome job_cursor :=
  if round_robin cstat then Throw "Round robin job scheduling no longer supported."
  else Ret (mkCursor 0 (-1)).

(** The queues from the last one on, until one has a job that can run; with the
    number of queues that have none. *)
Fixpoint next_fair_queue (w : world) (qs : list queue_info) : outcome (option positive * nat) :=
  match qs with
  | [] => UB
  | q :: qs =>
      let! r := extract_fairshare_jobs (job_at w) (priority_fairshare conf) (fs_groups (w_fairshare w)) (with_priority w (q_jobs q)) in
      match r, qs with
      | Some p, _ => Ret (Some p, O)
      | None, [] => Ret (None, 1%nat)
      | None, _ => let! (r, n) := next_fair_queue w qs in Ret (r, S n)
      end
  end.

(** The number of jobs at the front that cannot run. *)
Fixpoint unable (w : world) (jobs : list positive) : outcome nat :=
  match jobs with
  | [] => Ret O
  | p :: jobs =>
      let! j := of_option (w_jobs w !! p) in
      if can_not_run j then let! n := unable w jobs in Ret (S n) else Ret O
  end.

(** The queues in order; [last] is the number of the job that is looked at in the
    first of them. *)
Fixpoint next_in_queues (w : world) (qs : list queue_info) (last : Z) : outcome (nat * Z) :=
  match qs with
  | [] => Ret (O, last)
  | q :: qs =>
      if last >? Z.of_nat (length (q_jobs q)) then UB
      else
        let! n := unable w (drop (Z.to_nat last) (q_jobs q)) in
        let last := last + Z.of_nat n in
        if last =? Z.of_nat (length (q_jobs q)) then
          let! (k, last) := next_in_queues w qs 0 in Ret (S k, last)
        else Ret (O, last)
  end.

(** One large queue. *)
Definition next_in_server (w : world) (last : Z) : outcome (option positive * Z) :=
  let jobs := srv_jobs (w_server w) in
  let! n := unable w (drop (Z.to_nat last) jobs) in
  let last := last + Z.of_nat n in
  if last =? Z.of_nat (length jobs) then Ret (None, last)
  else let! p := of_option (jobs !! Z.to_nat last) in Ret (Some p, last).

Definition next_by_queue (w : world) (c : job_cursor) : outcome (option positive * job_cursor) :=
  let qs := srv_queues (w_server w) in
  let! (k, last) := next_in_queues w (drop (last_queue c) qs) (last_job c + 1) in
  let c := mkCursor (last_queue c + k) last in
  match qs !! last_queue c with
  | None => Ret (None, c)
  | Some q =>
      if last <? sc_total (q_sc q) then let! p := of_option (q_jobs q !! Z.to_nat last) in Ret (Some p, c) else Ret (None, c)
  end.

Definition next_job (w : world) (by_owner : gmap string (list (Z * positive))) (c : job_cursor)
  : outcome (option positive * job_cursor) :=
  if round_robin cstat then Throw "Round robin job scheduling no longer supported."
  else if by_queue cstat then
    if fair_share cstat then
      let! (r, n) := next_fair_queue w (drop (last_queue c) (srv_queues (w_server w))) in
      Ret (r, mkCursor (last_queue c + n) (last_job c))
    else next_by_queue w c
  else if fair_share cstat then
    let! r := extract_fairshare (job_at w) (fs_groups (w_fairshare w)) (hash_order by_owner) in Ret (r, c)
  else
    let! (r, last) := next_in_server w (last_job c + 1) in Ret (r, mkCursor (last_queue c) last).
End Next.

(** ** The start of a cycle *)

(** [std::sort] of jobs by their keys; the comparisons must be defined. *)
Definition sort_job_keys (w : world) (sort_by : list sort_type) (jobs : list positive) : outcome (list positive) :=
  let percentage x := gi_percentage <$> fs_groups (w_fairshare w) !! x in
  let cmp p q := cmp_sort percentage sort_by (job_at w p) (job_at w q) in
  if forallb (fun p => forallb (fun q => defined (cmp p q)) jobs) jobs
  then Ret (isort (fun p q => answer (cmp p q)) jobs)
  else UB.

(** The queues are sorted by priority; the jobs go with their queues. *)
Definition sort_queues_by_priority (w : world) : world :=
  let s := w_server w in
  let order := isort (fun a b : nat * queue_info => q_priority (snd a) >? q_priority (snd b)) (imap pair (srv_queues s)) in
  let place k := list_find (fun a : nat * queue_info => fst a = k) order in
  w <| w_server := s <| srv_queues := snd <$> order |> |>
    <| w_jobs := (fun j => j <| queue := k ← queue j; fst <$> place k |>) <$> w_jobs w |>.

Definition sort_queue_jobs (sort_by : list sort_type) (w : world) (k : nat) : outcome world :=
  let s := w_server w in
  let! q := of_option (srv_queues s !! k) in
  let! jobs := sort_job_keys w sort_by (q_jobs q) in
  Ret (w <| w_server := s <| srv_queues := <[k := q <| q_jobs := jobs |>]> (srv_queues s) |> |>).

Definition sort_all_jobs (conf : config) (cstat : status) (w : world) : outcome world :=
  let! keys := sort_keys conf cstat in
  match keys with
  | [] => UB
  | NO_SORT :: _ => Ret w
  | _ =>
      let s := w_server w in
      if by_queue cstat || round_robin cstat then ofold (sort_queue_jobs keys) (seq 0 (length (srv_queues s))) w
      else let! jobs := sort_job_keys w keys (srv_jobs s) in Ret (w <| w_server := s <| srv_jobs := jobs |> |>)
  end.

(** What the scheduler keeps from cycle to cycle, apart from the world. *)
Record kept_state := mkKept { ks_last_running : list prev_job_info; ks_decay : decay_state }.

(** The files that are written are the last part. *)
Definition init_scheduling_cycle (fuel : nat) (conf : config) (cstat : status) (ks : kept_state) (w : world)
  : outcome (world * kept_state * job_cursor * list (string * string)) :=
  let! (fs, ds, out) :=
    update_fairshare fuel conf cstat (jobs_of (w_jobs w) (srv_jobs (w_server w))) (ks_last_running ks) (w_fairshare w) (ks_decay ks) in
  let w := w <| w_fairshare := fs |> in
  let w := if sort_queues cstat then sort_queues_by_priority w else w in
  let! w := sort_all_jobs conf cstat w in
  let! c := next_job_init cstat in
  Ret (w, mkKept (ks_last_running ks) ds, c, out).

(** ** Running a job *)

Section Run.
Variable conf : config.
Variable cstat : status.
(** [time(NULL)] during the cycle. *)
Variable now : Z.
Variable parse_nodespec : string -> pars_spec.
Variable user_denied : string -> string -> string -> bool.
Variable cache_get : string -> string -> option string.
Variable getgrnam : string -> option (list string).
Variable group_lines : option (list (string * string)).
(** The metrics of the cache after so many requests to run a job. *)
Variable cache : nat -> string -> string -> option (string -> option string).
(** The answer of the server to a request; the number of those before it is given. *)
Variable answer_run : nat -> run_request -> Z.
Variables PBSE_PROTOCOL PBSE_TIMEOUT : Z.
Variable hash_order : gmap string (list (Z * positive)) -> list (list (Z * positive)).

(** [find(local_server) == npos] *)
Definition is_remote (j : JobInfo) : bool := negb (strstr (job_id j) (local_server conf)).

(** The name behind the first dot; all of it when there is none. *)
Definition server_of (id : string) : string := match split_at id "." with (_, Some s) => s | (s, None) => s end.

(** The job and its queue as the checks take them, and put back. *)
Definition chk_of (w : world) (p : positive) : outcome (chk * nat) :=
  let! j := of_option (w_jobs w !! p) in
  let! k := of_option (queue j) in
  let! q := of_option (srv_queues (w_server w) !! k) in
  Ret (mkChk (w_server w) q j (w_nodes w), k).

Definition put_chk (w : world) (p : positive) (k : nat) (x : chk) : world :=
  w <| w_server := c_srv x <| srv_queues := <[k := c_queue x]> (srv_queues (c_srv x)) |> |>
    <| w_nodes := c_nodes x |> <| w_jobs := <[p := c_job x]> (w_jobs w) |>.

Definition with_job (w : world) (p : positive) (j : JobInfo) : world := w <| w_jobs := <[p := j]> (w_jobs w) |>.

(** The assignments of the nodes and the schedule of the job are dropped. *)
Definition clean (w : world) (p : positive) (j : JobInfo) : world :=
  with_job (w <| w_nodes := nodes_preassign_clean (w_nodes w) (srv_nodes (w_server w)) |>) p (j <| schedule := [] |>).

Definition run_socket (c : cycle) (j : JobInfo) : outcome Z :=
  if is_remote j then get_connection (cy_conns c) (server_of (job_id j)) else get_master_connection (cy_conns c).

(** The request to the server, and its answer; none when a node has still to boot. *)
Definition ask_to_run (c : cycle) (q : queue_info) (j : JobInfo) (nodes : option string) : cycle * Z :=
  let r := if is_remote j then MoveJob (job_id j) (q_name q ++ "@" ++ local_server conf) nodes else RunJob (job_id j) nodes in
  let ret := answer_run (length (cy_runs c)) r in
  (c <| cy_runs := (cy_runs c ++ [(r, ret)])%list |>, ret).

(** What a job that runs changes. *)
Definition job_started (w : world) (p : positive) (booting : bool) : outcome world :=
  let! (x, k) := chk_of w p in
  let! x := start_job (w_db w) parse_nodespec x in
  let w := put_chk w p k x in
  if negb booting && fair_share cstat then
    let! gs := update_usage_on_run (fs_groups (w_fairshare w)) (c_job x) in
    Ret (w <| w_fairshare := w_fairshare w <| fs_groups := gs |> |>)
  else Ret w.

(** Whether the nodes are cleaned in front of the return or at its end makes no
    difference. *)
Definition try_run_job (c : cycle) (p : positive) : outcome (cycle * Z) :=
  let w := cy_world c in
  let! (x, _) := chk_of w p in
  let j := c_job x in
  let q := c_queue x in
  let! (best, booting, minspec) :=
    nodes_preassign_string (w_db w) parse_nodespec (w_nodes w) j (srv_nodes (w_server w)) in
  let booting := negb (booting =? 0) in
  let! _ := run_socket c j in
  let! (rs, _) := update_job_fairshare j (fmul (F := binary64) (fmul (F := binary64) minspec (queue_cost q)) (calculated_fairshare j)) in
  let c := c <| cy_requests := (cy_requests c ++ rs)%list |> in
  let! (c, ret) :=
    if booting then
      if is_remote j then Ret (c, 0)
      else
        let '(j, rs, _) := update_job_comment j COMMENT_NODE_STILL_BOOTING in
        Ret (c <| cy_requests := (cy_requests c ++ rs)%list |> <| cy_world := with_job w p j |>, 0)
    else Ret (ask_to_run c q j best) in
  let! w := if ret =? 0 then job_started (cy_world c) p booting else Ret (cy_world c) in
  let! j := of_option (w_jobs w !! p) in
  Ret (c <| cy_world := clean w p j |>, ret).

(** ** A job that cannot run *)

(** The nodes it waits for, as text, and when it can start. *)
Fixpoint planned_for (nodes : node_store) (sched : list positive) (start : Z) (names waiting : string)
  : outcome (Z * string * string) :=
  match sched with
  | [] => Ret (start, names, waiting)
  | p :: sched =>
      let! n := of_option (nodes !! p) in
      let jobs := p_waiting_on_jobs n in
      planned_for nodes sched (Z.max (p_avail_after (data n)) start)
        (if String.eqb names "" then node_name n else names ++ ", " ++ node_name n)
        (if String.eqb waiting "" then jobs else if String.eqb jobs "" then waiting else waiting ++ ", " ++ jobs)
  end.

Definition tell_planned (c : cycle) (j : JobInfo) : outcome cycle :=
  let! (start, names, waiting) := planned_for (w_nodes (cy_world c)) (schedule j) (-1) "" "" in
  let (r1, _) := update_job_planned_nodes (fun _ => 0) j names in
  let (r2, _) := update_job_waiting_for (fun _ => 0) j waiting in
  let (r3, _) := update_job_earliest_start (fun _ => 0) j start in
  Ret (c <| cy_requests := (cy_requests c ++ r1 ++ r2 ++ r3)%list |>).

(** In strict order no later job of the queue runs. *)
Definition tell_refused (c : cycle) (p : positive) (q : queue_info) (ret : Z) : outcome cycle :=
  let w := cy_world c in
  let! j := of_option (w_jobs w !! p) in
  let! (msg, _, rc) := translate_job_fail_code None ret in
  if rc =? 0 then Ret c
  else
    let! _ := get_master_connection (cy_conns c) in
    let '(j, rs, _) := update_job_comment j msg in
    let w := with_job w p j in
    let! (jobs, rs') :=
      if negb (ret =? NOT_QUEUED) && strict_fifo cstat && negb (is_global q)
      then update_jobs_cant_run (w_jobs w) (q_jobs q) (Some p) COMMENT_STRICT_FIFO START_AFTER_JOB
      else Ret (w_jobs w, []) in
    Ret (c <| cy_world := w <| w_jobs := jobs |> |> <| cy_requests := (cy_requests c ++ rs ++ rs')%list |>).

Definition refuse_job (c : cycle) (p : positive) (q : queue_info) (ret : Z) : outcome cycle :=
  let w := cy_world c in
  let! j := of_option (w_jobs w !! p) in
  let! c := tell_refused (c <| cy_world := with_job w p (j <| can_not_run := true |>) |>) p q ret in
  let! j := of_option (w_jobs (cy_world c) !! p) in
  let! c := if ret =? JOB_SCHEDULED then tell_planned c j else Ret c in
  Ret (c <| cy_world := clean (cy_world c) p j |>).

(** ** The loop of [World::run] *)

(** What became of a job: it runs, the server did not take it, or it was refused. *)
Inductive step_result := Started | NotTaken | Refused.

#[export] Instance step_result_eq_dec : EqDecision step_result.
Proof. solve_decision. Defined.

Definition run_step (c : cycle) (p : positive) : outcome (cycle * step_result) :=
  let w := cy_world c in
  let! j := of_option (w_jobs w !! p) in
  let w := with_job w p (j <| schedule := [] |>) in
  let! (x, k) := chk_of w p in
  let! (ret, x) :=
    is_ok_to_run_job (w_db w) (w_registry w) conf cstat now parse_nodespec user_denied cache_get getgrnam group_lines x in
  let c := c <| cy_world := put_chk w p k x |> in
  if ret =? SUCCESS then
    let w := cy_world c in
    let s := w_server w in
    let count := default 0 (exec_count s !! account (c_job x)) in
    let w := if is_admin_queue (c_queue x) then w
             else w <| w_server := s <| exec_count := <[account (c_job x) := i32 (count + 1)]> (exec_count s) |> |> in
    let! (c, ret) := try_run_job (c <| cy_world := w |>) p in
    if ret =? 0 then
      let! w := query_external_cache (cache (length (cy_runs c))) true (cy_world c) in
      Ret (c <| cy_world := w |>, Started)
    else
      let! j := of_option (w_jobs (cy_world c) !! p) in
      Ret (c <| cy_world := with_job (cy_world c) p (j <| can_not_run := true |>) |>, NotTaken)
  else let! c := refuse_job c p (c_queue x) ret in Ret (c, Refused).

(** How the loop is left: no job is left, too many errors, or the time is over. *)
Inductive leaving := NoMoreJobs | TooManyErrors | OutOfTime | OutOfFuel.

(** [late turn]: [conf.max_cycle] seconds have passed since the cycle began; it
    matters once a job has passed its checks. *)
Fixpoint run_loop (fuel : nat) (late : nat -> bool) (turn run_errors : nat) (active_cycle : bool) (c : cycle)
  : outcome (cycle * leaving) :=
  match fuel with
  | O => Ret (c, OutOfFuel)
  | S fuel =>
      if (3 <? run_errors)%nat then Ret (c, TooManyErrors)
      else
        let! (next, cur) := next_job conf cstat hash_order (cy_world c) (cy_owners c) (cy_cursor c) in
        let c := c <| cy_cursor := cur |> in
        match next with
        | None => Ret (c, NoMoreJobs)
        | Some p =>
            if active_cycle && late turn then Ret (c, OutOfTime)
            else
              let! (c, r) := run_step c p in
              run_loop fuel late (S turn) (if bool_decide (r = NotTaken) then S run_errors else run_errors)
                (active_cycle || negb (bool_decide (r = Refused))) c
        end
  end.
End Run.
