(* ===== verification/CycleSpec.v ===== *)
(** * The scheduling cycle keeps every limit and comes to an end

    The checks fill caches and leave everything else that matters later as it was;
    a step of the loop retires the job it looks at. *)

From Stdlib Require Import ZArith Lia Bool Ascii String SpecFloat.
From S2P Require Import Prelude Connections CString CFloat MiscHelpers Config Prime Resource PropRegistry DataTypes NodeData JobInfo Sort StateCount QueueInfo ServerInfo NodeLogic NodeInfo JobPlan Assign Check RunLimits JobUpdate FairshareTree Fairshare ExternalCache Query Cycle.

Open Scope Z_scope.
Local Open Scope sched_scope.

(** ** What the checks leave as it was *)

(** Without the parts that the checks fill in. *)
Definition server_core (s : server_info) : server_info :=
  s <| dynamic_resources := ∅ |> <| exec_count := ∅ |> <| running_jobs_by_group := ∅ |> <| running_jobs_by_user := ∅ |>
    <| installing_node_count := 0 |>.

Definition queue_core (q : queue_info) : queue_info :=
  q <| q_jobs_by_group := ∅ |> <| q_jobs_by_user := ∅ |> <| q_cores_by_group := ∅ |> <| q_cores_by_user := ∅ |>
    <| q_running_cores := None |>.

Definition job_core (j : JobInfo) : JobInfo :=
  j <| schedule := [] |> <| calculated_fairshare := fzero |> <| can_never_run := false |>.

Lemma check_run_limits_core x :
  let x' := snd (check_run_limits x) in
  server_core (c_srv x') = server_core (c_srv x) /\ queue_core (c_queue x') = queue_core (c_queue x).
Proof.
  destruct x as [s q j st]. unfold check_run_limits, check_server_max_user_run, check_server_max_group_run,
    check_queue_max_user_run, check_queue_max_group_run, server_jobs_for_user, server_jobs_for_group,
    number_of_running_jobs_for_user, number_of_running_jobs_for_group.
  repeat case_match; simplify_eq; done.
Qed.

Section Checks.
Variable db : RescInfoDb.
Variable reg : PropRegistry.
Variable conf : config.
Variable cstat : status.
Variable now : Z.
Variable parse : string -> pars_spec.
Variable denied : string -> string -> string -> bool.
Variable cache : string -> string -> option string.
Variable getgr : string -> option (list string).
Variable lines : option (list (string * string)).
Notation is_ok := (is_ok_to_run_job db reg conf cstat now parse denied cache getgr lines).

Lemma check_nodespec_core q t st s j nodes rc st' s' j' :
  check_nodespec db reg now parse denied q t st s j nodes = Ret (rc, st', s', j') ->
  (exists d, s' = s <| dynamic_resources := d |>) /\ job_core j' = job_core j.
Proof.
  assert (Hs : s = s <| dynamic_resources := dynamic_resources s |>) by (by destruct s).
  unfold check_nodespec. cbv zeta. destruct (filter_nodes _ _ _) as [suitable| |]; cbn [obind]; [|done..].
  destruct (find_nodes _ _ _ _ _ _ _ _ _ _ _) as [[result [st1 sched]]| |]; cbn [obind]; [|done..].
  destruct result.
  - destruct (calculate_fairshare_cost _ _ _ _ _) as [[st2 cost]| |]; cbn [obind]; [|done..]. intros [= <- <- <- <-]. eauto.
  - destruct (is_admin_queue q); [intros [= <- <- <- <-]; eauto|]. destruct (is_starving _ _ _); [|intros [= <- <- <- <-]; eauto].
    destruct (find_nodes _ _ _ _ _ _ _ _ _ _ _) as [[r2 [st2 sched2]]| |]; cbn [obind]; [|done..].
    destruct (is_result r2 CheckOccupied); [intros [= <- <- <- <-]; eauto|].
    unfold plan_starving. match goal with |- context [ofold ?f ?l ?b] => destruct (ofold f l b) as [[]| |] end; cbn [obind]; [|done..].
    intros [= <- <- <- <-]. eauto.
  - intros [= <- <- <- <-]. eauto.
Qed.

Lemma check_resources_core nodes x rc x' :
  check_resources db reg conf cstat now parse denied cache getgr lines nodes x = Ret (rc, x') ->
  (exists d, c_srv x' = c_srv x <| dynamic_resources := d |>) /\ c_queue x' = c_queue x /\
  job_core (c_job x') = job_core (c_job x).
Proof.
  destruct x as [s q j st]. assert (Hs : s = s <| dynamic_resources := dynamic_resources s |>) by (by destruct s).
  unfold check_resources. cbn [c_srv c_queue c_job c_nodes].
  destruct (check_ded_time_boundry _ _ _) as [r| |]; cbn [obind]; [|done..].
  destruct (negb (r =? 0)); [intros [= _ <-]; eauto|].
  destruct (cloud_check_job parse cache getgr lines j) as (b & Ej & _).
  destruct (cloud_check cache getgr lines j) as [r' j1]. cbn [snd] in Ej. subst j1.
  destruct (negb (r' =? 0)); [intros [= _ <-]; eauto|].
  destruct (negb _); [intros [= _ <-]; eauto|].
  destruct (check_nodespec _ _ _ _ _ _ _ _ _ _ _) as [[[[rc1 st1] s1] j1]| |] eqn:E; cbn [obind]; [|done..].
  intros [= _ <-]. apply check_nodespec_core in E as [(d & ->) Ej]. cbn [c_srv c_queue c_job]. rewrite Ej. eauto.
Qed.

(** The checks in all, whatever they answer; a job that passes has room. *)
Lemma is_ok_to_run_job_core x rc x' :
  server_wf (c_srv x) -> queue_wf parse (c_queue x) -> is_ok x = Ret (rc, x') ->
  server_core (c_srv x') = server_core (c_srv x) /\ queue_core (c_queue x') = queue_core (c_queue x) /\
  job_core (c_job x') = job_core (c_job x) /\ server_wf (c_srv x') /\ queue_wf parse (c_queue x') /\
  (rc = SUCCESS -> spec_total_procs (parse (nodespec (c_job x))) = total_procs parse (c_job x) ->
   0 <= total_procs parse (c_job x) ->
   cores parse (fun _ => true) (q_running_jobs (c_queue x)) + total_procs parse (c_job x) < 2 ^ 31 ->
   room_for (c_srv x) (c_queue x) (c_job x) /\ procs_room parse (c_queue x) (c_job x)).
Proof.
  destruct x as [s q j st]. cbn [c_srv c_queue c_job]. intros Hs Hq. unfold is_ok_to_run_job.
  set (s0 := s <| exec_count := _ |>). assert (Hs0 : server_wf s0) by (by destruct Hs; constructor).
  destruct (_ >=? _); [intros [= <- <-]; by split_and!|].
  destruct (negb (String.eqb (placement j) "") && _); [intros [= <- <-]; by split_and!|].
  change (srv_nodes s0) with (srv_nodes s). destruct (srv_nodes s); [done|].
  pose proof (check_run_limits_spec parse (mkChk s0 q j st) Hs0 Hq) as Hlim.
  pose proof (check_run_limits_code (mkChk s0 q j st)) as Hcode.
  pose proof (check_run_limits_core (mkChk s0 q j st)) as [Ec1 Ec2].
  destruct (check_run_limits (mkChk s0 q j st)) as [rc1 x1]. cbn [fst snd c_srv c_queue c_job c_nodes] in *.
  destruct Hlim as (Hs1 & Hq1 & Hss & Hsq & Hj1 & Hn1 & Hroom).
  destruct (Z.eqb_spec rc1 0) as [->|Hrc]; cbn [negb].
  2: { intros [= <- <-]. rewrite Hj1. split_and!; done. }
  destruct (check_queue_proc_limits parse (c_queue x1) j) as [rc1| |] eqn:Ep; cbn [obind]; [|done..].
  destruct (Z.eqb_spec rc1 0) as [->|Hrc]; cbn [negb].
  2: { intros [= <- <-]. rewrite Hj1. split_and!; try done. intros ->. by apply check_queue_proc_limits_code in Ep. }
  intros Hres. apply check_resources_core in Hres as ((d & Es) & Eq & Ej). rewrite Es, Eq, Ej, Hj1.
  split_and!; try done; [by destruct Hs1; constructor|]. intros -> Hspec Hp Hb.
  split; [by destruct (Hroom eq_refl); constructor|].
  destruct Hsq as (Erun & L1 & L2 & L3 & L4 & L5 & L6).
  destruct (check_queue_proc_limits_spec parse (c_queue x1) j) as [P1 P2 P3]; [done|done|by rewrite Erun|done..|].
  rewrite L4, Erun in P1. rewrite L5, Erun in P2. rewrite L6, Erun in P3. by constructor.
Qed.
End Checks.

(** ** Limits and counters depend on these parts only *)

Definition bare (s : server_info) : server_info := server_core s <| srv_queues := [] |>.

Lemma limits_hold_core parse s q s' q' :
  bare s' = bare s -> queue_core q' = queue_core q -> limits_hold parse s q -> limits_hold parse s' q'.
Proof.
  intros Es Eq [].
  pose proof (f_equal running_jobs Es) as E1. pose proof (f_equal max_run Es) as E2. pose proof (f_equal max_user_run Es) as E3.
  pose proof (f_equal max_group_run Es) as E4. pose proof (f_equal q_running_jobs Eq) as F1. pose proof (f_equal q_max_run Eq) as F2.
  pose proof (f_equal q_max_user_run Eq) as F3. pose proof (f_equal q_max_group_run Eq) as F4. pose proof (f_equal q_max_proc Eq) as F5.
  pose proof (f_equal q_max_user_proc Eq) as F6. pose proof (f_equal q_max_group_proc Eq) as F7. cbn in *.
  constructor; by rewrite ?E1, ?E2, ?E3, ?E4, ?F1, ?F2, ?F3, ?F4, ?F5, ?F6, ?F7.
Qed.

Lemma room_core parse s q j s' q' j' :
  bare s' = bare s -> queue_core q' = queue_core q ->
  account j' = account j -> group j' = group j -> total_procs parse j' = total_procs parse j ->
  room_for s q j -> procs_room parse q j -> room_for s' q' j' /\ procs_room parse q' j'.
Proof.
  intros Es Eq Ea Eg Ep [] [].
  pose proof (f_equal running_jobs Es) as E1. pose proof (f_equal max_run Es) as E2. pose proof (f_equal max_user_run Es) as E3.
  pose proof (f_equal max_group_run Es) as E4. pose proof (f_equal q_running_jobs Eq) as F1. pose proof (f_equal q_max_run Eq) as F2.
  pose proof (f_equal q_max_user_run Eq) as F3. pose proof (f_equal q_max_group_run Eq) as F4. pose proof (f_equal q_max_proc Eq) as F5.
  pose proof (f_equal q_max_user_proc Eq) as F6. pose proof (f_equal q_max_group_proc Eq) as F7. cbn in *.
  split; constructor; by rewrite ?Ea, ?Eg, ?Ep, ?E1, ?E2, ?E3, ?E4, ?F1, ?F2, ?F3, ?F4, ?F5, ?F6, ?F7.
Qed.

(** ** The state of a cycle *)

(** A job that the loop does not look at again. *)
Definition retired (j : JobInfo) : Prop := can_not_run j = true \/ state j = JobRunning.

(** What a step may do to a job. *)
Record keeps (parse : string -> pars_spec) (j j' : JobInfo) : Prop := {
  ke_account : account j' = account j;
  ke_group : group j' = group j;
  ke_queue : queue j' = queue j;
  ke_nodespec : nodespec j' = nodespec j;
  ke_procs : total_procs parse j' = total_procs parse j;
  ke_retired : retired j -> retired j'
}.

Definition jobs_keep parse (m m' : gmap positive JobInfo) : Prop :=
  (forall p, m !! p = None -> m' !! p = None) /\
  forall p j, m !! p = Some j -> exists j', m' !! p = Some j' /\ keeps parse j j'.

(** The lists of jobs are those of before. *)
Definition same_lists (w w' : world) : Prop :=
  srv_jobs (w_server w') = srv_jobs (w_server w) /\
  (q_jobs <$> srv_queues (w_server w')) = (q_jobs <$> srv_queues (w_server w)).

Definition moves_on parse (w w' : world) : Prop := same_lists w w' /\ jobs_keep parse (w_jobs w) (w_jobs w').

Section Keeps.
Context (parse : string -> pars_spec).

Lemma job_keeps_refl j : keeps parse j j.
Proof. by constructor. Qed.

Lemma job_keeps_trans j1 j2 j3 : keeps parse j1 j2 -> keeps parse j2 j3 -> keeps parse j1 j3.
Proof. intros [] []. constructor; try congruence; auto. Qed.

Lemma jobs_keep_refl m : jobs_keep parse m m.
Proof. split; [done|]. intros p j Hj. exists j. split; [done|apply job_keeps_refl]. Qed.

Lemma jobs_keep_trans m1 m2 m3 : jobs_keep parse m1 m2 -> jobs_keep parse m2 m3 -> jobs_keep parse m1 m3.
Proof.
  intros [N1 H1] [N2 H2]. split; [auto|]. intros p j Hj. destruct (H1 p j Hj) as (j2 & E2 & K2).
  destruct (H2 p j2 E2) as (j3 & E3 & K3). exists j3. split; [done|]. by eapply job_keeps_trans.
Qed.

Lemma jobs_keep_insert m p j j' : m !! p = Some j -> keeps parse j j' -> jobs_keep parse m (<[p := j']> m).
Proof.
  intros E K. split.
  - intros q Hq. rewrite lookup_insert_ne; [done|]. intros ->. congruence.
  - intros q i Hi. destruct (decide (q = p)) as [->|Hne].
    + exists j'. rewrite lookup_insert_eq. split; [done|]. congruence.
    + exists i. rewrite lookup_insert_ne by done. split; [done|apply job_keeps_refl].
Qed.

Lemma keeps_core j j' : job_core j' = job_core j -> keeps parse j j'.
Proof.
  intros E. pose proof (f_equal account E) as E1. pose proof (f_equal group E) as E2. pose proof (f_equal queue E) as E3.
  pose proof (f_equal nodespec E) as E4. pose proof (f_equal p_parsed_nodespec E) as E5. pose proof (f_equal can_not_run E) as E6.
  pose proof (f_equal state E) as E7. cbn in *. constructor; try done.
  - unfold total_procs, parsed_nodespec. by rewrite E4, E5.
  - unfold retired. by rewrite E6, E7.
Qed.

Lemma keeps_schedule j l : keeps parse j (j <| schedule := l |>).
Proof. by apply keeps_core. Qed.

Lemma keeps_cannot j : keeps parse j (j <| can_not_run := true |>).
Proof. constructor; try done. by left. Qed.

Lemma keeps_comment j msg : keeps parse j (fst (fst (update_job_comment j msg))).
Proof. unfold update_job_comment. repeat case_match; simplify_eq; by constructor. Qed.

Lemma keeps_run j : keeps parse j (update_job_on_run j).
Proof. constructor; try done. by right. Qed.

Lemma same_lists_refl w : same_lists w w.
Proof. done. Qed.

Lemma same_lists_trans w1 w2 w3 : same_lists w1 w2 -> same_lists w2 w3 -> same_lists w1 w3.
Proof. intros [] []. split; congruence. Qed.

#[global] Instance moves_on_preorder : PreOrder (moves_on parse).
Proof.
  split; [intros w; split; [done|apply jobs_keep_refl]|]. intros w1 w2 w3 [S1 J1] [S2 J2].
  split; [by eapply same_lists_trans|by eapply jobs_keep_trans].
Qed.

Lemma moves_on_job w p j j' : w_jobs w !! p = Some j -> keeps parse j j' -> moves_on parse w (with_job w p j').
Proof. intros E K. split; [done|]. by eapply jobs_keep_insert. Qed.

Lemma moves_on_clean w p j : w_jobs w !! p = Some j -> moves_on parse w (clean w p j).
Proof.
  intros E. split; [done|]. eapply jobs_keep_insert; [exact E|]. apply keeps_schedule.
Qed.

Lemma cant_run_keeps msg l : forall m rs m' rs',
  ofold (job_cant_run msg) l (m, rs) = Ret (m', rs') -> jobs_keep parse m m'.
Proof.
  induction l as [|p l IH]; intros m rs m' rs'; cbn [ofold]; [intros [= <- _]; apply jobs_keep_refl|].
  unfold job_cant_run at 1. destruct (m !! p) as [j|] eqn:E; cbn [of_option obind]; [|done].
  pose proof (keeps_comment (j <| can_not_run := true |>) msg) as Hk.
  destruct (update_job_comment (j <| can_not_run := true |>) msg) as [[j1 r1] z]. cbn [fst] in Hk. intros H.
  eapply jobs_keep_trans; [|by eapply IH]. eapply jobs_keep_insert; [exact E|]. eapply job_keeps_trans; [apply keeps_cannot|done].
Qed.
End Keeps.

(** ** Steps that start no job *)

Section Follows.
Context (parse : string -> pars_spec).

Record follows (w w' : world) : Prop := {
  fo_server : bare (w_server w') = bare (w_server w);
  fo_queues : queue_core <$> srv_queues (w_server w') = queue_core <$> srv_queues (w_server w);
  fo_jobs : jobs_keep parse (w_jobs w) (w_jobs w');
  fo_server_wf : server_wf (w_server w) -> server_wf (w_server w');
  fo_queues_wf : Forall (queue_wf parse) (srv_queues (w_server w)) -> Forall (queue_wf parse) (srv_queues (w_server w'))
}.

#[global] Instance follows_preorder : PreOrder follows.
Proof.
  split.
  - intros w. constructor; try done. apply jobs_keep_refl.
  - intros w1 w2 w3 [] []. constructor; try congruence; auto. by eapply jobs_keep_trans.
Qed.

Lemma queue_at_core (qs qs' : list queue_info) (k : nat) q :
  queue_core <$> qs' = queue_core <$> qs -> qs' !! k = Some q -> exists q0, qs !! k = Some q0 /\ queue_core q = queue_core q0.
Proof.
  intros E H. assert (Hk : (queue_core <$> qs') !! k = Some (queue_core q)) by (by rewrite list_lookup_fmap, H).
  rewrite E, list_lookup_fmap in Hk. destruct (qs !! k) as [q0|]; [|done]. exists q0. split; [done|]. symmetry. by apply (inj Some).
Qed.

Lemma follows_moves w w' : follows w w' -> moves_on parse w w'.
Proof.
  intros [Es Eq Ej _ _]. split; [|done]. split; [exact (f_equal srv_jobs Es)|].
  assert (H : forall l, q_jobs <$> (queue_core <$> l) = q_jobs <$> l) by (intros l; rewrite <- list_fmap_compose; done).
  by rewrite <- (H (srv_queues (w_server w'))), Eq, H.
Qed.

Lemma follows_job w p j j' : w_jobs w !! p = Some j -> keeps parse j j' -> follows w (with_job w p j').
Proof. intros E K. constructor; try done. by eapply jobs_keep_insert. Qed.

Lemma follows_clean w p j : w_jobs w !! p = Some j -> follows w (clean w p j).
Proof. intros E. constructor; try done. eapply jobs_keep_insert; [exact E|apply keeps_schedule]. Qed.

Lemma follows_jobs w m : jobs_keep parse (w_jobs w) m -> follows w (w <| w_jobs := m |>).
Proof. by constructor. Qed.

Lemma follows_server w s :
  server_core s = server_core (w_server w) -> (server_wf (w_server w) -> server_wf s) -> follows w (w <| w_server := s |>).
Proof.
  intros E Hw. pose proof (f_equal srv_queues E) as Eq. cbn in Eq. constructor; cbn; try done.
  - unfold bare. by rewrite E.
  - by rewrite Eq.
  - apply jobs_keep_refl.
  - by rewrite Eq.
Qed.

Lemma chk_of_ret w p x k :
  chk_of w p = Ret (x, k) ->
  w_jobs w !! p = Some (c_job x) /\ queue (c_job x) = Some k /\ srv_queues (w_server w) !! k = Some (c_queue x) /\
  c_srv x = w_server w /\ c_nodes x = w_nodes w.
Proof.
  unfold chk_of. destruct (w_jobs w !! p) as [j|]; cbn [of_option obind]; [|done].
  destruct (queue j) as [k'|] eqn:Ek; cbn [of_option obind]; [|done].
  destruct (srv_queues (w_server w) !! k') as [q|] eqn:Eq; cbn [of_option obind]; [|done]. by intros [= <- <-].
Qed.

Lemma follows_put_chk w p k x x' :
  chk_of w p = Ret (x, k) -> server_core (c_srv x') = server_core (c_srv x) -> queue_core (c_queue x') = queue_core (c_queue x) ->
  keeps parse (c_job x) (c_job x') -> server_wf (c_srv x') -> queue_wf parse (c_queue x') -> follows w (put_chk w p k x').
Proof.
  intros (Ej & Ek & Eq & Es & _)%chk_of_ret Hs Hq Hj Hws Hwq. rewrite Es in Hs.
  pose proof (f_equal srv_queues Hs) as Hqs. cbn in Hqs. constructor; cbn.
  - transitivity (bare (c_srv x')); [done|]. unfold bare. by rewrite Hs.
  - rewrite Hqs, list_fmap_insert, Hq. apply list_insert_id. by rewrite list_lookup_fmap, Eq.
  - by eapply jobs_keep_insert.
  - intros _. by destruct Hws; constructor.
  - rewrite Hqs. intros H. by apply Forall_insert.
Qed.

(** ** The state in which the loop runs *)

Context (P : Z).

(** There is room in the counters for [n] more jobs of at most [P] processors. *)
Record cycle_ok (n : Z) (w : world) : Prop := {
  co_server : server_wf (w_server w);
  co_room : Z.of_nat (length (running_jobs (w_server w))) + n < 2 ^ 31;
  co_queues : Forall (queue_wf parse) (srv_queues (w_server w));
  co_queue_room : forall k q, srv_queues (w_server w) !! k = Some q ->
    Z.of_nat (length (q_running_jobs q)) + n < 2 ^ 31 /\ cores parse (fun _ => true) (q_running_jobs q) + n * P < 2 ^ 31;
  co_jobs : forall p j, w_jobs w !! p = Some j ->
    spec_total_procs (parse (nodespec j)) = total_procs parse j /\ 0 <= total_procs parse j <= P
}.

(** Every limit of the server and of every queue, for every user and group. *)
Definition limits_kept (w : world) : Prop :=
  forall k q, srv_queues (w_server w) !! k = Some q -> limits_hold parse (w_server w) q.

Lemma jobs_ok_keep m m' :
  jobs_keep parse m m' ->
  (forall p j, m !! p = Some j -> spec_total_procs (parse (nodespec j)) = total_procs parse j /\ 0 <= total_procs parse j <= P) ->
  forall p j, m' !! p = Some j -> spec_total_procs (parse (nodespec j)) = total_procs parse j /\ 0 <= total_procs parse j <= P.
Proof.
  intros [N H] Hm p j' E'. destruct (m !! p) as [j|] eqn:E; [|by rewrite (N p E) in E'].
  destruct (H p j E) as (j2 & E2 & []). simplify_eq. destruct (Hm p j E). split; congruence.
Qed.

Lemma cycle_ok_follows n w w' : follows w w' -> cycle_ok n w -> cycle_ok n w'.
Proof.
  intros [Es Eq Ej Hs Hq] [Cs Cr Cq Cqr Cj]. constructor; auto.
  - pose proof (f_equal running_jobs Es) as E. cbn in E. by rewrite E.
  - intros k q H. destruct (queue_at_core _ _ k q Eq H) as (q0 & H0 & E0). pose proof (f_equal q_running_jobs E0) as E. cbn in E.
    rewrite E. by apply (Cqr k).
  - by eapply jobs_ok_keep.
Qed.

Lemma limits_kept_follows w w' : follows w w' -> limits_kept w -> limits_kept w'.
Proof.
  intros [Es Eq _ _ _] H k q Hk. destruct (queue_at_core _ _ k q Eq Hk) as (q0 & H0 & E0).
  eapply limits_hold_core; [exact Es|exact E0|]. by eapply H.
Qed.
End Follows.

(** ** The external cache *)

Definition same_state (w w' : world) : Prop :=
  w_server w' = w_server w /\ w_jobs w' = w_jobs w /\ w_fairshare w' = w_fairshare w.

Lemma same_state_follows parse w w' : same_state w w' -> follows parse w w'.
Proof.
  intros (Es & Ej & _). constructor; rewrite ?Es, ?Ej; try done. apply jobs_keep_refl.
Qed.

Section Cache.
Context (cache : string -> string -> option (string -> option string)).

Lemma each_value_state f metric w0 w w' :
  (forall w n v w' n', same_state w0 w -> f w n v = Ret (w', n') -> same_state w0 w') ->
  same_state w0 w -> each_value cache f metric w = Ret w' -> same_state w0 w'.
Proof.
  intros Hf Hw. unfold each_value. destruct (fetch_metric cache w metric) as [values|]; [|by intros [= <-]].
  intros H. refine (ofold_invariant _ (same_state w0) _ _ _ _ Hw H). clear H. intros w1 p w2 Hw1 _. unfold use_value.
  destruct (w_nodes w1 !! p) as [n|]; cbn [of_option obind]; [|done]. destruct (values (node_name n)) as [v|]; [|by intros [= <-]].
  destruct (f w1 n v) as [[w3 n3]| |] eqn:E; cbn [obind]; [|done..]. intros [= <-]. exact (Hf _ _ _ _ _ Hw1 E).
Qed.

Lemma refresh_resources_state w w' : refresh_resources cache w = Ret w' -> same_state w w'.
Proof.
  unfold refresh_resources. apply (ofold_invariant _ (same_state w)); [|by split_and!]. intros w1 i w2 Hw1 _.
  destruct (_ || _); [|by intros [= <-]]. apply each_value_state; [|done]. intros w3 n v w4 n4 Hw3. unfold refresh_resource.
  destruct (set_resource_dynamic _ _ _ _) as [[d reg]| |]; cbn [obind]; [|done..]. by intros [= <- <-].
Qed.

Lemma decode_status_state w p w' : decode_status w p = Ret w' -> same_state w w'.
Proof.
  unfold decode_status. destruct (w_nodes w !! p) as [n|]; cbn [of_option obind]; [|done].
  destruct (p_host n) as [q|]; cbn [obind]; [|by intros [= <-]].
  destruct (w_nodes w !! q) as [h|]; cbn [of_option obind]; [by intros [= <-]|done].
Qed.

Lemma recount_core st s s' : recount_installing_nodes st s = Ret s' -> server_core s' = server_core s /\ (server_wf s -> server_wf s').
Proof.
  unfold recount_installing_nodes.
  apply (ofold_invariant _ (fun s' => server_core s' = server_core s /\ (server_wf s -> server_wf s'))).
  - intros s1 p s2 [E Hw] _. destruct (st !! p) as [n|]; cbn [of_option obind]; [|done]. intros [= <-].
    destruct (p_is_building_cluster n); [|done]. split; [done|]. intros Hs. by destruct (Hw Hs); constructor.
  - split; [done|]. intros Hs. by destruct Hs; constructor.
Qed.

(** Refreshing the dynamic metrics changes nothing that the limits depend on. *)
Lemma external_cache_follows parse w w' : query_external_cache cache true w = Ret w' -> follows parse w w'.
Proof.
  unfold query_external_cache. destruct (refresh_resources cache w) as [w1| |] eqn:E1; cbn [obind]; [|done..].
  apply refresh_resources_state in E1.
  destruct (ofold decode_status (srv_nodes (w_server w1)) w1) as [w2| |] eqn:E2; cbn [obind]; [|done..].
  assert (H2 : same_state w1 w2).
  { refine (ofold_invariant _ (same_state w1) _ _ _ _ _ E2); [|by split_and!]. intros w3 p w4 (A1 & A2 & A3) _ (B1 & B2 & B3)%decode_status_state.
    split_and!; congruence. }
  destruct (recount_installing_nodes _ _) as [s| |] eqn:E3; cbn [obind]; [|done..]. intros [= <-].
  apply recount_core in E3 as [Es Hs]. transitivity w1; [by apply same_state_follows|]. transitivity w2; [by apply same_state_follows|].
  by apply follows_server.
Qed.
End Cache.

(** ** A job that starts *)

Section Start.
Context (parse : string -> pars_spec).

Lemma server_update_lists db st s j st' s' :
  server_update_on_job_run db parse st s j = Ret (st', s') ->
  srv_jobs s' = srv_jobs s /\ srv_queues s' = srv_queues s.
Proof.
  unfold server_update_on_job_run. cbv zeta. destruct (plan_on_nodes _ _ _ _ _) as [[st1 dyn]| |]; cbn [obind]; [|done..].
  destruct (bump _ _ _ _) as [m| |]; cbn [obind]; [|done..]. destruct (bump _ _ _ _) as [m2| |]; cbn [obind]; [|done..].
  by intros [= <- <-].
Qed.

Lemma queue_update_jobs q j q' : update_on_job_run parse q j = Ret q' -> q_jobs q' = q_jobs q.
Proof.
  unfold update_on_job_run. cbv zeta. destruct (bump _ _ _ _) as [m| |]; cbn [obind]; [|done..].
  destruct (bump _ _ _ _) as [m2| |]; cbn [obind]; [|done..].
  match goal with |- context [obind ?e _] => destruct e as [c| |] end; cbn [obind]; [|done..].
  destruct (bump _ _ _ _) as [m3| |]; cbn [obind]; [|done..]. destruct (bump _ _ _ _) as [m4| |]; cbn [obind]; [|done..].
  by intros [= <-].
Qed.

(** The counters after a start, and the limits when there was room. *)
Lemma start_job_ok db x x' :
  server_wf (c_srv x) -> queue_wf parse (c_queue x) -> 0 <= total_procs parse (c_job x) ->
  Z.of_nat (length (running_jobs (c_srv x))) + 1 < 2 ^ 31 -> Z.of_nat (length (q_running_jobs (c_queue x))) + 1 < 2 ^ 31 ->
  cores parse (fun _ => true) (q_running_jobs (c_queue x)) + total_procs parse (c_job x) < 2 ^ 31 ->
  start_job db parse x = Ret x' ->
  server_wf (c_srv x') /\ queue_wf parse (c_queue x') /\ c_job x' = update_job_on_run (c_job x) /\
  running_jobs (c_srv x') = running_jobs (c_srv x) ++ [c_job x] /\
  q_running_jobs (c_queue x') = q_running_jobs (c_queue x) ++ [c_job x] /\
  srv_jobs (c_srv x') = srv_jobs (c_srv x) /\ srv_queues (c_srv x') = srv_queues (c_srv x) /\
  q_jobs (c_queue x') = q_jobs (c_queue x) /\
  (limits_hold parse (c_srv x) (c_queue x) -> room_for (c_srv x) (c_queue x) (c_job x) ->
   procs_room parse (c_queue x) (c_job x) -> limits_hold parse (c_srv x') (c_queue x')).
Proof.
  intros Hs Hq Hp Hl Hlq Hc. unfold start_job.
  destruct (server_update_on_job_run _ _ _ _ _) as [[st s]| |] eqn:Es; cbn [obind]; [|done..].
  pose proof (server_update_lists _ _ _ _ _ _ Es) as [L1 L2].
  apply server_update_spec in Es as (Hs2 & S1 & S2 & S3 & S4); [|done|done].
  destruct (update_on_job_run_spec parse (c_queue x) (c_job x) Hq Hp Hc Hlq) as (q2 & E & Hq2 & E1 & _ & E2).
  pose proof (queue_update_jobs _ _ _ E) as L3. rewrite E. cbn [obind]. intros [= <-]. cbn [c_srv c_queue c_job]. split_and!; try done.
  intros H1 H2 H3. by eapply limits_hold_snoc.
Qed.

Section World.
Context (db : RescInfoDb) (cstat : status) (P : Z).

Lemma app_room {A} (l : list A) a n : Z.of_nat (length l) + (n + 1) < 2 ^ 31 -> Z.of_nat (length (l ++ [a])) + n < 2 ^ 31.
Proof. rewrite length_app. simpl. lia. Qed.

(** The server part of the limits does not depend on the queue. *)
Lemma limits_hold_other s s' q' q0 :
  limits_hold parse s' q' -> limits_hold parse s q0 -> limits_hold parse s' q0.
Proof. intros [] []. by constructor. Qed.

(** The world with a job that was started. *)
Lemma put_started n w p k x x' :
  0 <= n -> cycle_ok parse P (n + 1) w -> chk_of w p = Ret (x, k) -> start_job db parse x = Ret x' ->
  cycle_ok parse P n (put_chk w p k x') /\ moves_on parse w (put_chk w p k x') /\
  (limits_kept parse w -> room_for (c_srv x) (c_queue x) (c_job x) -> procs_room parse (c_queue x) (c_job x) ->
   limits_kept parse (put_chk w p k x')).
Proof.
  intros Hn [Cs Cr Cq Cqr Cj] (Ej & Ek & Eq & Es & _)%chk_of_ret Hst.
  destruct (Cj _ _ Ej) as [_ Hp]. destruct (Cqr _ _ Eq) as [Hl Hc].
  pose proof (proj1 (Forall_lookup _ _) Cq _ _ Eq) as Hwq.
  assert (HP : n * P + P < 2 ^ 31 - cores parse (fun _ => true) (q_running_jobs (c_queue x))) by lia.
  assert (Hn2 : 0 <= n * P) by (apply Z.mul_nonneg_nonneg; lia).
  apply start_job_ok in Hst as (Hs' & Hq' & Ej' & R1 & R2 & L1 & L2 & L3 & Hlim); rewrite ?Es; [|done|done|lia..].
  rewrite Es in *. split; [|split].
  - constructor; cbn.
    + by destruct Hs'; constructor.
    + rewrite R1. apply app_room. lia.
    + rewrite L2. by apply Forall_insert.
    + rewrite L2. intros k' q' [(<- & <- & _)|(Hne & Hk')]%list_lookup_insert_Some.
      * rewrite R2, cores_app, cores_one. split; [apply app_room|]; lia.
      * destruct (Cqr _ _ Hk'). split; lia.
    + eapply (jobs_ok_keep parse P); [|exact Cj]. eapply jobs_keep_insert; [exact Ej|]. rewrite Ej'. apply keeps_run.
  - split; [split|].
    + exact L1.
    + cbn. rewrite L2, list_fmap_insert, L3. apply list_insert_id. by rewrite list_lookup_fmap, Eq.
    + cbn. eapply jobs_keep_insert; [exact Ej|]. rewrite Ej'. apply keeps_run.
  - intros Hk Hr Hpr. pose proof (Hlim (Hk _ _ Eq) Hr Hpr) as Hnew.
    intros k' q'. cbn. rewrite L2. intros [(<- & <- & _)|(Hne & Hk')]%list_lookup_insert_Some.
    + eapply limits_hold_core; [| |exact Hnew]; done.
    + eapply limits_hold_core; [| |eapply limits_hold_other; [exact Hnew|by eapply Hk]]; done.
Qed.

Lemma job_started_ok n w p x k booting w' :
  w_db w = db -> 0 <= n -> cycle_ok parse P (n + 1) w -> chk_of w p = Ret (x, k) -> job_started cstat parse w p booting = Ret w' ->
  cycle_ok parse P n w' /\ moves_on parse w w' /\ (exists j, w_jobs w' !! p = Some j /\ retired j) /\
  (limits_kept parse w -> room_for (c_srv x) (c_queue x) (c_job x) -> procs_room parse (c_queue x) (c_job x) -> limits_kept parse w').
Proof.
  intros Hdb Hn Hok Hx. unfold job_started. rewrite Hx, Hdb. cbn [obind].
  destruct (start_job db parse x) as [x'| |] eqn:Hst; cbn [obind]; [|done..].
  destruct (put_started n w p k x x' Hn Hok Hx Hst) as (H1 & H2 & H3).
  assert (Hr : exists j, w_jobs (put_chk w p k x') !! p = Some j /\ retired j).
  { exists (c_job x'). split; [apply lookup_insert_eq|]. right. revert Hst. unfold start_job.
    destruct (server_update_on_job_run _ _ _ _ _) as [[st s]| |]; cbn [obind]; [|done..].
    destruct (update_on_job_run _ _ _) as [q| |]; cbn [obind]; [|done..]. by intros [= <-]. }
  destruct (_ && _); [|intros [= <-]; by split_and!].
  destruct (update_usage_on_run _ _) as [gs| |]; cbn [obind]; [|done..]. intros [= <-]. split_and!; try done. by destruct H1; constructor.
Qed.
End World.
End Start.

(** ** A step of the loop *)

Section Loop.
Context (conf : config) (cstat : status) (now : Z) (parse : string -> pars_spec) (denied : string -> string -> string -> bool).
Context (cache_get : string -> string -> option string) (getgr : string -> option (list string)).
Context (lines : option (list (string * string))) (cache : nat -> string -> string -> option (string -> option string)).
Context (answer_run : nat -> run_request -> Z) (hash_order : gmap string (list (Z * positive)) -> list (list (Z * positive))).
Context (P : Z).
Notation step := (run_step conf cstat now parse denied cache_get getgr lines cache answer_run).

(** Before the server is asked, only comments are made. *)
Lemma before_run c p q j booting best c' ret :
  w_jobs (cy_world c) !! p = Some j ->
  (if booting : bool then
     if is_remote conf j then Ret (c, 0)
     else
       let '(j, rs, _) := update_job_comment j COMMENT_NODE_STILL_BOOTING in
       Ret (c <| cy_requests := (cy_requests c ++ rs)%list |> <| cy_world := with_job (cy_world c) p j |>, 0)
   else Ret (ask_to_run conf answer_run c q j best)) = Ret (c', ret) ->
  (exists j', keeps parse j j' /\ (cy_world c' = cy_world c \/ cy_world c' = with_job (cy_world c) p j')) /\
  cy_owners c' = cy_owners c /\ cy_cursor c' = cy_cursor c.
Proof.
  intros Ej. destruct booting.
  - destruct (is_remote conf j).
    + intros [= <- _]. split; [|done]. exists j. split; [apply job_keeps_refl|by left].
    + pose proof (keeps_comment parse j COMMENT_NODE_STILL_BOOTING) as Hk.
      destruct (update_job_comment j COMMENT_NODE_STILL_BOOTING) as [[j1 rs] z]. cbn [fst] in Hk. intros [= <- _].
      split; [|done]. exists j1. split; [done|by right].
  - intros [= <- _]. split; [|done]. exists j. split; [apply job_keeps_refl|by left].
Qed.

(** What holds once the server was asked to run a job, with the answer [ret]; [x]
    is what the job was checked with. *)
Record ran (n : Z) (c : cycle) (x : chk) (p : positive) (ret : Z) (c' : cycle) : Prop := {
  rn_ok : cycle_ok parse P n (cy_world c');
  rn_moves : moves_on parse (cy_world c) (cy_world c');
  rn_retired : ret = 0 -> exists j, w_jobs (cy_world c') !! p = Some j /\ retired j;
  rn_limits : limits_kept parse (cy_world c) -> room_for (c_srv x) (c_queue x) (c_job x) -> procs_room parse (c_queue x) (c_job x) ->
    limits_kept parse (cy_world c');
  rn_owners : cy_owners c' = cy_owners c;
  rn_cursor : cy_cursor c' = cy_cursor c
}.

Lemma finish_run n c x p ret c1 c2 w2 :
  ran n c x p ret (c1 <| cy_world := w2 |>) ->
  (let! j := of_option (w_jobs w2 !! p) in Ret (c1 <| cy_world := clean w2 p j |>, ret)) = Ret (c2, ret) -> ran n c x p ret c2.
Proof.
  intros [H1 H2 H3 H4 H5 H6]. destruct (w_jobs w2 !! p) as [j2|] eqn:E2; cbn [of_option obind]; [|done]. intros [= <-].
  pose proof (follows_clean parse w2 p j2 E2) as F2. constructor; try done.
  - by eapply cycle_ok_follows.
  - etransitivity; [exact H2|]. by apply follows_moves.
  - intros Hr. destruct (H3 Hr) as (j3 & E3 & R3). cbn in E3. rewrite E2 in E3. injection E3 as <-. exists (j2 <| schedule := [] |>).
    split; [cbn; apply lookup_insert_eq|done].
Qed.

(** The job that is asked for is still the one that was checked. *)
Lemma checked_job c c1 p x k j1 :
  chk_of (cy_world c) p = Ret (x, k) -> keeps parse (c_job x) j1 ->
  cy_world c1 = cy_world c \/ cy_world c1 = with_job (cy_world c) p j1 ->
  follows parse (cy_world c) (cy_world c1) /\ w_db (cy_world c1) = w_db (cy_world c) /\
  exists x1, chk_of (cy_world c1) p = Ret (x1, k) /\
    (room_for (c_srv x) (c_queue x) (c_job x) -> procs_room parse (c_queue x) (c_job x) ->
     room_for (c_srv x1) (c_queue x1) (c_job x1) /\ procs_room parse (c_queue x1) (c_job x1)).
Proof.
  intros Hx Hk. pose proof Hx as (Ej & Ek & Eq & Es & En)%chk_of_ret. intros [->| ->].
  - split; [done|]. split; [done|]. by exists x.
  - split; [by eapply follows_job|]. split; [done|]. exists (mkChk (c_srv x) (c_queue x) j1 (c_nodes x)). split.
    + unfold chk_of. cbn. rewrite lookup_insert_eq. cbn [of_option obind]. rewrite (ke_queue _ _ _ Hk), Ek. cbn [of_option obind].
      rewrite Eq. cbn [of_option obind]. by rewrite Es, En.
    + destruct Hk as [A1 A2 _ _ A3 _]. by eapply room_core.
Qed.

Lemma fewer n m w : n <= m -> 0 <= P -> cycle_ok parse P m w -> cycle_ok parse P n w.
Proof.
  intros Hn HP [B1 B2 B3 B4 B5]. constructor; try done; [lia|]. intros k q Hq. destruct (B4 _ _ Hq). split; [lia|].
  assert (n * P <= m * P) by (by apply Z.mul_le_mono_nonneg_r). lia.
Qed.

Lemma try_run_job_ok n c p x k c' ret :
  0 <= n -> cycle_ok parse P (n + 1) (cy_world c) -> chk_of (cy_world c) p = Ret (x, k) ->
  try_run_job conf cstat parse answer_run c p = Ret (c', ret) -> ran n c x p ret c'.
Proof.
  intros Hn Hok Hx. pose proof Hx as (Ej & _)%chk_of_ret. unfold try_run_job. rewrite Hx. cbn [obind].
  destruct (nodes_preassign_string _ _ _ _ _) as [[[best b] minspec]| |]; cbn [obind]; [|done..].
  destruct (run_socket _ _ _) as [sock| |]; cbn [obind]; [|done..].
  destruct (update_job_fairshare _ _) as [[rs z]| |]; cbn [obind]; [|done..].
  set (c0 := c <| cy_requests := _ |>).
  match goal with |- context [obind ?e _] => destruct e as [[c1 r1]| |] eqn:E1 end; cbn [obind]; [|done..].
  apply (before_run c0 p) in E1 as ((j1 & Hk1 & Hw1) & Eo & Ec); [|exact Ej].
  destruct (checked_job c c1 p x k j1 Hx Hk1 Hw1) as (F1 & Edb & x1 & Hx1 & Hroom).
  pose proof (cycle_ok_follows parse P _ _ _ F1 Hok) as Hok1. pose proof (follows_moves parse _ _ F1) as Hm1.
  destruct (Z.eqb_spec r1 0) as [->|Hr]; cbn [obind].
  - destruct (job_started _ _ _ _ _) as [w2| |] eqn:E2; cbn [obind]; [|done..].
    destruct (job_started_ok parse (w_db (cy_world c)) cstat P n (cy_world c1) p x1 k _ w2 Edb Hn Hok1 Hx1 E2) as (H1 & H2 & H3 & H4).
    intros E. assert (ret = 0) as -> by (revert E; by destruct (w_jobs w2 !! p); cbn [of_option obind]; [intros [= _ <-]|]).
    eapply finish_run; [|exact E]. constructor; try done; [by etransitivity|].
    intros A1 A2 A3. destruct (Hroom A2 A3). apply H4; [|done|done]. by eapply limits_kept_follows.
  - intros E. assert (ret = r1) as -> by (revert E; by destruct (w_jobs (cy_world c1) !! p); cbn [of_option obind]; [intros [= _ <-]|]).
    destruct (co_jobs _ _ _ _ Hok _ _ Ej) as [_ HP].
    eapply finish_run; [|exact E]. constructor; try done; [by apply (fewer n (n + 1)); [lia..|]|].
    intros A1 _ _. by eapply limits_kept_follows.
Qed.

(** What a refused job and those behind it are told changes no counter. *)
Lemma tell_refused_ok c p q ret c' j :
  w_jobs (cy_world c) !! p = Some j -> tell_refused cstat c p q ret = Ret c' ->
  follows parse (cy_world c) (cy_world c') /\ cy_owners c' = cy_owners c /\ cy_cursor c' = cy_cursor c.
Proof.
  intros Ej. unfold tell_refused. rewrite Ej. cbn [of_option obind].
  destruct (translate_job_fail_code None ret) as [[[msg lg] rc]| |]; cbn [obind]; [|done..].
  destruct (rc =? 0); [by intros [= <-]|]. destruct (get_master_connection _) as [mc| |]; cbn [obind]; [|done..].
  pose proof (keeps_comment parse j msg) as Hk. destruct (update_job_comment j msg) as [[j2 rs] z]. cbn [fst] in Hk.
  destruct (_ && _ && _); cbn [obind].
  - unfold update_jobs_cant_run. destruct (ofold _ _ _) as [[m rs']| |] eqn:E3; cbn [obind]; [|done..]. intros [= <-].
    apply (cant_run_keeps parse) in E3. split; [|done]. etransitivity; [by apply (follows_job parse (cy_world c) p j j2)|].
    by apply follows_jobs.
  - intros [= <-]. split; [|done]. by apply (follows_job parse (cy_world c) p j j2).
Qed.

Lemma tell_planned_world c j c' :
  tell_planned c j = Ret c' -> cy_world c' = cy_world c /\ cy_owners c' = cy_owners c /\ cy_cursor c' = cy_cursor c.
Proof.
  unfold tell_planned. destruct (planned_for _ _ _ _ _) as [[[start names] waiting]| |]; cbn [obind]; [|done..].
  destruct (update_job_planned_nodes _ _ _), (update_job_waiting_for _ _ _), (update_job_earliest_start _ _ _). by intros [= <-].
Qed.

(** A job that is refused is done with. *)
Lemma refuse_job_ok c p q ret c' :
  refuse_job cstat c p q ret = Ret c' ->
  follows parse (cy_world c) (cy_world c') /\ (exists j, w_jobs (cy_world c') !! p = Some j /\ retired j) /\
  cy_owners c' = cy_owners c /\ cy_cursor c' = cy_cursor c.
Proof.
  unfold refuse_job. destruct (w_jobs (cy_world c) !! p) as [j|] eqn:Ej; cbn [of_option obind]; [|done].
  set (w1 := with_job (cy_world c) p _). assert (F1 : follows parse (cy_world c) w1) by (by eapply follows_job; [|apply keeps_cannot]).
  assert (E1 : w_jobs w1 !! p = Some (j <| can_not_run := true |>)) by apply lookup_insert_eq.
  destruct (tell_refused cstat (c <| cy_world := w1 |>) p q ret) as [c2| |] eqn:E2; cbn [obind]; [|done..].
  set (c1 := c <| cy_world := w1 |>) in E2. assert (Ec1 : cy_world c1 = w1) by done.
  destruct (tell_refused_ok c1 p q ret c2 (j <| can_not_run := true |>)) as (F2 & Eo & Ec); [by rewrite Ec1|done|].
  rewrite Ec1 in F2.
  destruct (w_jobs (cy_world c2) !! p) as [j2|] eqn:Ej2; cbn [of_option obind]; [|done].
  assert (R2 : retired j2).
  { destruct (fo_jobs _ _ _ F2) as [_ K]. destruct (K _ _ E1) as (j3 & Ej3 & K3).
    rewrite Ej2 in Ej3. injection Ej3 as <-. apply (ke_retired _ _ _ K3). by left. }
  match goal with |- context [obind ?e _] => assert (H3 : forall c3, e = Ret c3 -> cy_world c3 = cy_world c2 /\
    cy_owners c3 = cy_owners c2 /\ cy_cursor c3 = cy_cursor c2) end.
  { intros c3. destruct (ret =? JOB_SCHEDULED); [apply tell_planned_world|by intros [= <-]]. }
  match goal with |- context [obind ?e _] => destruct e as [c3| |] end; cbn [obind]; [|done..].
  destruct (H3 c3 eq_refl) as (Ew & Eo3 & Ec3). intros [= <-]. cbn. rewrite Ew, Eo3, Ec3, Eo, Ec. split; [|split; [|done]].
  - etransitivity; [exact F1|]. etransitivity; [exact F2|]. by apply follows_clean.
  - exists (j2 <| schedule := [] |>). split; [apply lookup_insert_eq|done].
Qed.

(** *** One step

    The job is done with; nothing is lost of what the loop goes by, and limits that
    held hold afterwards. *)

Record stepped (n : Z) (c : cycle) (p : positive) (c' : cycle) : Prop := {
  sp_ok : cycle_ok parse P n (cy_world c');
  sp_moves : moves_on parse (cy_world c) (cy_world c');
  sp_retired : exists j, w_jobs (cy_world c') !! p = Some j /\ retired j;
  sp_limits : limits_kept parse (cy_world c) -> limits_kept parse (cy_world c');
  sp_owners : cy_owners c' = cy_owners c;
  sp_cursor : cy_cursor c' = cy_cursor c
}.

(** After the checks. *)
Lemma checked_ok n w p x k rc x' :
  0 <= n -> cycle_ok parse P (n + 1) w -> chk_of w p = Ret (x, k) ->
  is_ok_to_run_job (w_db w) (w_registry w) conf cstat now parse denied cache_get getgr lines x = Ret (rc, x') ->
  follows parse w (put_chk w p k x') /\ srv_queues (c_srv x') = srv_queues (c_srv x) /\ queue (c_job x') = Some k /\
  (rc = SUCCESS -> room_for (c_srv x') (c_queue x') (c_job x') /\ procs_room parse (c_queue x') (c_job x')).
Proof.
  intros Hn [Cs Cr Cq Cqr Cj] Hx. pose proof Hx as (Ej & Ek & Eq & Es & _)%chk_of_ret. intros H.
  assert (Hwq : queue_wf parse (c_queue x)) by (by eapply (proj1 (Forall_lookup _ _) Cq)).
  apply is_ok_to_run_job_core in H as (E1 & E2 & E3 & Hs & Hq & Hroom); [|by rewrite Es|done].
  pose proof (keeps_core parse _ _ E3) as K. split; [by eapply follows_put_chk|]. split; [exact (f_equal srv_queues E1)|].
  split; [by rewrite (ke_queue _ _ _ K)|]. intros ->.
  destruct (Cj _ _ Ej) as [Hspec Hp]. destruct (Cqr _ _ Eq) as [_ Hc].
  assert (HP : 0 <= n * P) by (apply Z.mul_nonneg_nonneg; lia).
  destruct Hroom as [R1 R2]; [done|done|lia|lia|]. destruct K as [A1 A2 _ _ A3 _].
  eapply room_core; [..|exact R1|exact R2]; try done. unfold bare. by rewrite E1.
Qed.

(** The start is counted for its owner. *)
Definition count_run (w : world) (x : chk) : world :=
  let s := w_server w in
  let count := default 0 (exec_count s !! account (c_job x)) in
  if is_admin_queue (c_queue x) then w
  else w <| w_server := s <| exec_count := <[account (c_job x) := i32 (count + 1)]> (exec_count s) |> |>.

Lemma count_run_ok w p x k x' :
  chk_of w p = Ret (x, k) -> srv_queues (c_srv x') = srv_queues (c_srv x) -> queue (c_job x') = Some k ->
  let w' := count_run (put_chk w p k x') x' in
  follows parse (put_chk w p k x') w' /\
  exists x3, chk_of w' p = Ret (x3, k) /\
    (room_for (c_srv x') (c_queue x') (c_job x') /\ procs_room parse (c_queue x') (c_job x') ->
     room_for (c_srv x3) (c_queue x3) (c_job x3) /\ procs_room parse (c_queue x3) (c_job x3)).
Proof.
  intros (Ej & Ek & Eq & Es & _)%chk_of_ret Hqs Hk. set (w2 := put_chk w p k x'). cbv zeta. split.
  - unfold count_run. destruct (is_admin_queue (c_queue x')); [done|]. apply follows_server; [done|]. intros []; by constructor.
  - exists (mkChk (w_server (count_run w2 x')) (c_queue x') (c_job x') (w_nodes (count_run w2 x'))). split.
    + unfold chk_of. assert (H : w_jobs (count_run w2 x') !! p = Some (c_job x') /\ srv_queues (w_server (count_run w2 x')) !! k = Some (c_queue x')).
      { unfold count_run. assert (Hl : (k < length (srv_queues (c_srv x')))%nat) by (rewrite Hqs, Es; by eapply lookup_lt_Some).
        destruct (is_admin_queue (c_queue x')); cbn; (split; [apply lookup_insert_eq|by apply list_lookup_insert_eq]). }
      destruct H as [-> H2]. cbn [of_option obind]. rewrite Hk. cbn [of_option obind]. by rewrite H2.
    + intros [R1 R2]. eapply room_core; [..|exact R1|exact R2]; try done. unfold count_run. by destruct (is_admin_queue (c_queue x')).
Qed.

(** After the server was asked. *)
Lemma asked_ok n c x p ret c2 c' r :
  ran n c x p ret c2 ->
  (limits_kept parse (cy_world c) -> room_for (c_srv x) (c_queue x) (c_job x) /\ procs_room parse (c_queue x) (c_job x)) ->
  (if ret =? 0 then
     let! w := query_external_cache (cache (length (cy_runs c2))) true (cy_world c2) in Ret (c2 <| cy_world := w |>, Started)
   else
     let! j := of_option (w_jobs (cy_world c2) !! p) in
     Ret (c2 <| cy_world := with_job (cy_world c2) p (j <| can_not_run := true |>) |>, NotTaken)) = Ret (c', r) ->
  stepped n c p c'.
Proof.
  intros [H1 H2 H3 H4 H5 H6] Hroom. destruct (Z.eqb_spec ret 0) as [E|E].
  - destruct (query_external_cache _ _ _) as [w| |] eqn:Ew; cbn [obind]; [|done..]. intros [= <- _].
    apply (external_cache_follows _ parse) in Ew. constructor; try done.
    + by eapply cycle_ok_follows.
    + etransitivity; [exact H2|]. by apply follows_moves.
    + destruct (H3 E) as (j & Ej & R). destruct (fo_jobs _ _ _ Ew) as [_ K]. destruct (K _ _ Ej) as (j' & Ej' & K').
      exists j'. split; [done|]. by apply (ke_retired _ _ _ K').
    + intros Hl. destruct (Hroom Hl). eapply limits_kept_follows; [exact Ew|]. by apply H4.
  - destruct (w_jobs (cy_world c2) !! p) as [j|] eqn:Ej; cbn [of_option obind]; [|done]. intros [= <- _].
    assert (F : follows parse (cy_world c2) (with_job (cy_world c2) p (j <| can_not_run := true |>)))
      by (eapply follows_job; [done|apply keeps_cannot]).
    constructor; try done.
    + by eapply cycle_ok_follows.
    + etransitivity; [exact H2|]. by apply follows_moves.
    + eexists. split; [apply lookup_insert_eq|by left].
    + intros Hl. destruct (Hroom Hl). eapply limits_kept_follows; [exact F|]. by apply H4.
Qed.

Lemma follows_stepped n c p c' :
  0 <= P -> cycle_ok parse P (n + 1) (cy_world c) -> follows parse (cy_world c) (cy_world c') ->
  (exists j, w_jobs (cy_world c') !! p = Some j /\ retired j) -> cy_owners c' = cy_owners c -> cy_cursor c' = cy_cursor c ->
  stepped n c p c'.
Proof.
  intros HP Hok F R Eo Ec. constructor; try done.
  - apply (fewer n (n + 1)); [lia|done|]. by eapply cycle_ok_follows.
  - by apply follows_moves.
  - by apply limits_kept_follows.
Qed.

Lemma stepped_after n c w p c' :
  follows parse (cy_world c) w -> stepped n (c <| cy_world := w |>) p c' -> stepped n c p c'.
Proof.
  intros F [H1 H2 H3 H4 H5 H6]. constructor; try done.
  - etransitivity; [by apply follows_moves|exact H2].
  - intros Hl. apply H4. by eapply limits_kept_follows.
Qed.

Lemma run_step_ok n c p c' r :
  0 <= n -> cycle_ok parse P (n + 1) (cy_world c) -> step c p = Ret (c', r) -> stepped n c p c'.
Proof.
  intros Hn Hok. unfold run_step. destruct (w_jobs (cy_world c) !! p) as [j|] eqn:Ej; cbn [of_option obind]; [|done].
  destruct (co_jobs _ _ _ _ Hok _ _ Ej) as [_ HP].
  set (w1 := with_job (cy_world c) p _). assert (F1 : follows parse (cy_world c) w1) by (eapply follows_job; [done|apply keeps_schedule]).
  pose proof (cycle_ok_follows parse P _ _ _ F1 Hok) as Hok1.
  destruct (chk_of w1 p) as [[x k]| |] eqn:Hx; cbn [obind]; [|done..].
  destruct (is_ok_to_run_job _ _ _ _ _ _ _ _ _ _ x) as [[rc x']| |] eqn:Hc; cbn [obind]; [|done..].
  destruct (checked_ok n w1 p x k rc x' Hn Hok1 Hx Hc) as (F2 & Eqs & Ek & Hroom).
  assert (F12 : follows parse (cy_world c) (put_chk w1 p k x')) by (by etransitivity).
  change (cy_world (c <| cy_world := put_chk w1 p k x' |>)) with (put_chk w1 p k x').
  destruct (Z.eqb_spec rc SUCCESS) as [Erc|Erc].
  - fold (count_run (put_chk w1 p k x') x'). destruct (count_run_ok w1 p x k x' Hx Eqs Ek) as (F3 & x3 & Hx3 & Hroom3).
    match goal with |- context [try_run_job _ _ _ _ ?c0 p] => set (c3 := c0) end.
    assert (F : follows parse (cy_world c) (cy_world c3)) by (by etransitivity).
    destruct (try_run_job conf cstat parse answer_run c3 p) as [[c4 ret]| |] eqn:E4; cbn [obind]; [|done..].
    apply (try_run_job_ok n _ _ x3 k) in E4; [|done|by eapply cycle_ok_follows|exact Hx3]. intros H.
    apply (stepped_after n c (cy_world c3)); [done|]. apply (asked_ok n c3 x3 p ret c4 c' r E4); [by auto|exact H].
  - destruct (refuse_job _ _ _ _ _) as [c2| |] eqn:E2; cbn [obind]; [|done..]. intros [= <- _].
    apply refuse_job_ok in E2 as (F3 & R & Eo & Ec). apply follows_stepped; try done; [lia|]. by etransitivity.
Qed.

(** *** The jobs that are left *)

Definition pending (j : JobInfo) : bool := negb (can_not_run j) && bool_decide (state j <> JobRunning).

Lemma pending_retired j : pending j = false <-> retired j.
Proof.
  unfold pending, retired. rewrite andb_false_iff, negb_false_iff, bool_decide_eq_false. split; intros [H|H]; auto; right. by apply dec_stable.
Qed.

Definition pending_jobs (m : gmap positive JobInfo) : gset positive := dom (filter (fun pj => pending (snd pj) = true) m).

Lemma pending_decreases m m' p j j' :
  jobs_keep parse m m' -> m !! p = Some j -> pending j = true -> m' !! p = Some j' -> retired j' ->
  (size (pending_jobs m') < size (pending_jobs m))%nat.
Proof.
  intros [N K] Ej Hp Ej' Hr. apply subset_size. split.
  - intros q. unfold pending_jobs. rewrite !elem_of_dom. intros [i [Hi Pi]%map_lookup_filter_Some]. cbn in Pi.
    destruct (m !! q) as [i0|] eqn:E0; [|by rewrite (N q E0) in Hi]. exists i0. apply map_lookup_filter_Some. split; [done|]. cbn.
    destruct (K q i0 E0) as (i1 & E1 & K1). rewrite Hi in E1. injection E1 as <-. apply not_false_is_true. intros H%pending_retired.
    apply (ke_retired _ _ _ K1), pending_retired in H. congruence.
  - intros H. assert (Hin : p ∈ pending_jobs m') by (apply H; unfold pending_jobs; apply elem_of_dom; exists j; by apply map_lookup_filter_Some).
    unfold pending_jobs in Hin. apply elem_of_dom in Hin as [i [Hi Pi]%map_lookup_filter_Some]. rewrite Ej' in Hi. injection Hi as <-.
    apply pending_retired in Hr. cbn in Pi. congruence.
Qed.

(** How many jobs the loop can still come to. *)
Definition jobs_in (qs : list queue_info) : nat := sum_list (length <$> (q_jobs <$> qs)).

Definition todo (c : cycle) : nat :=
  let s := w_server (cy_world c) in
  if fair_share cstat then size (pending_jobs (w_jobs (cy_world c)))
  else if by_queue cstat then
    Z.to_nat (Z.of_nat (jobs_in (drop (last_queue (cy_cursor c)) (srv_queues s))) - (last_job (cy_cursor c) + 1))
  else Z.to_nat (Z.of_nat (length (srv_jobs s)) - (last_job (cy_cursor c) + 1)).

(** The jobs that are chosen by fairshare are pending. *)
Lemma extract_user_pending w gs b user b' :
  (forall p, bs_max b = Some p -> pending (job_at w p) = true) -> extract_user (job_at w) gs b user = Ret b' ->
  forall p, bs_max b' = Some p -> pending (job_at w p) = true.
Proof.
  intros Hb. unfold extract_user. assert (Hpop : forall prio p d, pop_front (job_at w) user = (prio, p) :: d -> pending (job_at w p) = true).
  { intros prio p d. induction user as [|u us IH]; cbn [pop_front]; [done|]. destruct (runnable (job_at w) u) eqn:E; [|done]. by intros [= -> _]. }
  destruct (pop_front (job_at w) user) as [|[prio p] d] eqn:Ed; [by intros [= <-]|]. destruct (prio <? bs_priority b); [by intros [= <-]|].
  set (b1 := if prio >? bs_priority b then _ else b). assert (Hb1 : forall p, bs_max b1 = Some p -> pending (job_at w p) = true).
  { intros q. unfold b1. destruct (prio >? bs_priority b); apply Hb. }
  destruct (fair_value gs (job_at w p)) as [v| |]; cbn [obind]; [|done..]. destruct (flt (bs_value b1) v); intros [= <-]; [|done].
  intros q [= <-]. by eapply Hpop.
Qed.

Lemma extract_job_pending w prio gs b u b' :
  (forall p, bs_max b = Some p -> pending (job_at w p) = true) -> extract_job (job_at w) prio gs b u = Ret b' ->
  forall p, bs_max b' = Some p -> pending (job_at w p) = true.
Proof.
  intros Hb. unfold extract_job. destruct u as [pr q]. destruct (runnable (job_at w) (pr, q)) eqn:Er; cbn [negb]; [|by intros [= <-]].
  destruct (prio && (pr <? bs_priority b)); [by intros [= <-]|]. set (b1 := if prio then _ else b).
  assert (Hb1 : forall p, bs_max b1 = Some p -> pending (job_at w p) = true) by (intros p; unfold b1; destruct prio; apply Hb).
  destruct (fair_value gs (job_at w q)) as [v| |]; cbn [obind]; [|done..]. destruct (flt (bs_value b1) v); intros [= <-]; [|done].
  by intros p [= <-].
Qed.

Lemma next_fair_queue_pending w qs : forall p n, next_fair_queue conf w qs = Ret (Some p, n) -> pending (job_at w p) = true.
Proof.
  induction qs as [|q qs IH]; intros p n; cbn [next_fair_queue]; [done|]. unfold extract_fairshare_jobs.
  destruct (ofold _ _ _) as [b| |] eqn:E; cbn [obind]; [|done..].
  assert (Hb : forall p, bs_max b = Some p -> pending (job_at w p) = true).
  { refine (ofold_invariant _ (fun b => forall p, bs_max b = Some p -> pending (job_at w p) = true) _ _ _ _ _ E); [|done].
    intros b1 u b2 H1 _ H2. by eapply extract_job_pending. }
  destruct (bs_max b) as [r|]; [intros [= -> _]; by apply Hb|]. destruct qs; [done|].
  destruct (next_fair_queue conf w _) as [[r m]| |] eqn:E2; cbn [obind]; [|done..]. intros [= -> _]. by eapply IH.
Qed.

(** *** The cursor moves on *)

Lemma unable_spec w jobs n :
  unable w jobs = Ret n ->
  (n <= length jobs)%nat /\ (forall i p, (i < n)%nat -> jobs !! i = Some p -> exists j, w_jobs w !! p = Some j /\ can_not_run j = true).
Proof.
  revert n. induction jobs as [|p jobs IH]; intros n; cbn [unable]; [intros [= <-]; split; [simpl; lia|intros; lia]|].
  destruct (w_jobs w !! p) as [j|] eqn:Ej; cbn [of_option obind]; [|done]. destruct (can_not_run j) eqn:Ec; [|intros [= <-]; split; [simpl; lia|intros; lia]].
  destruct (unable w jobs) as [m| |]; cbn [obind]; [|done..]. intros [= <-]. destruct (IH m eq_refl) as [H1 H2]. split; [simpl; lia|].
  intros [|i] q Hi Hq; [injection Hq as <-; by exists j|]. apply (H2 i q); [lia|done].
Qed.

Lemma jobs_in_cons q qs : jobs_in (q :: qs) = (length (q_jobs q) + jobs_in qs)%nat.
Proof. done. Qed.

Lemma next_in_queues_spec w qs : forall last k last',
  0 <= last -> next_in_queues w qs last = Ret (k, last') ->
  0 <= last' /\ (k <= length qs)%nat /\ Z.of_nat (jobs_in (drop k qs)) - last' <= Z.of_nat (jobs_in qs) - last /\
  (forall q, qs !! k = Some q -> last' < Z.of_nat (length (q_jobs q))).
Proof.
  induction qs as [|q qs IH]; intros last k last' Hl; cbn [next_in_queues]; [intros [= <- <-]; by split_and!|].
  destruct (Z.gtb_spec last (Z.of_nat (length (q_jobs q)))); [done|].
  destruct (unable w _) as [n| |] eqn:En; cbn [obind]; [|done..]. apply unable_spec in En as [Hn _]. rewrite length_drop in Hn.
  destruct (Z.eqb_spec (last + Z.of_nat n) (Z.of_nat (length (q_jobs q)))) as [E|E].
  - destruct (next_in_queues w qs 0) as [[k1 l1]| |] eqn:E1; cbn [obind]; [|done..]. intros [= <- <-].
    destruct (IH 0 k1 l1) as (A1 & A2 & A3 & A4); [lia|done|]. split_and!; [done|simpl; lia| |done]. cbn [drop]. rewrite jobs_in_cons. lia.
  - intros [= <- <-]. split_and!; [lia|simpl; lia|cbn [drop]; lia|]. intros q' [= <-]. lia.
Qed.

Definition cursor_ok (c : job_cursor) : Prop := -1 <= last_job c.

(** What the next job is known to be. *)
Lemma next_by_queue_spec w c p c' :
  cursor_ok c -> next_by_queue w c = Ret (Some p, c') ->
  cursor_ok c' /\
  (Z.to_nat (Z.of_nat (jobs_in (drop (last_queue c') (srv_queues (w_server w)))) - (last_job c' + 1)) <
   Z.to_nat (Z.of_nat (jobs_in (drop (last_queue c) (srv_queues (w_server w)))) - (last_job c + 1)))%nat.
Proof.
  unfold cursor_ok, next_by_queue. intros Hc. destruct (next_in_queues _ _ _) as [[k last]| |] eqn:E; cbn [obind]; [|done..].
  apply next_in_queues_spec in E as (A1 & A2 & A3 & A4); [|lia]. rewrite drop_drop in A3. rewrite lookup_drop in A4. cbn [last_queue].
  destruct (srv_queues (w_server w) !! (last_queue c + k)%nat) as [q|] eqn:Eq; [|done].
  destruct (last <? sc_total (q_sc q)); [|done]. destruct (q_jobs q !! _) as [p'|]; cbn [of_option obind]; [|done]. intros [= _ <-].
  cbn [last_job last_queue]. specialize (A4 q eq_refl). split; [lia|].
  assert (Hq : (length (q_jobs q) <= jobs_in (drop (last_queue c + k) (srv_queues (w_server w))))%nat).
  { rewrite (drop_S _ q) by done. rewrite jobs_in_cons. lia. }
  lia.
Qed.

Lemma next_in_server_spec w last r last' :
  0 <= last -> next_in_server w last = Ret (r, last') ->
  last <= last' /\
  (forall i p, last <= Z.of_nat i < last' -> srv_jobs (w_server w) !! i = Some p -> exists j, w_jobs w !! p = Some j /\ can_not_run j = true) /\
  match r with
  | Some p => srv_jobs (w_server w) !! Z.to_nat last' = Some p
  | None => last' = Z.of_nat (length (srv_jobs (w_server w)))
  end.
Proof.
  intros Hl. unfold next_in_server. destruct (unable w _) as [n| |] eqn:En; cbn [obind]; [|done..]. apply unable_spec in En as [_ Hn].
  assert (Hskip : forall i p, last <= Z.of_nat i < last + Z.of_nat n -> srv_jobs (w_server w) !! i = Some p ->
    exists j, w_jobs w !! p = Some j /\ can_not_run j = true).
  { intros i p Hi Hp. apply (Hn (i - Z.to_nat last)%nat); [lia|]. rewrite lookup_drop. by replace (Z.to_nat last + (i - Z.to_nat last))%nat with i by lia. }
  destruct (Z.eqb_spec (last + Z.of_nat n) (Z.of_nat (length (srv_jobs (w_server w))))) as [E|E].
  - intros [= <- <-]. split_and!; [lia|done|done].
  - destruct (srv_jobs (w_server w) !! _) as [p|] eqn:Ep; cbn [of_option obind]; [|done]. intros [= <- <-]. split_and!; [lia|done|done].
Qed.

(** *** The loop *)

Notation next := (next_job conf cstat hash_order).
Notation loop := (run_loop conf cstat now parse denied cache_get getgr lines cache answer_run hash_order).

Lemma with_cursor c cur : cy_world (c <| cy_cursor := cur |>) = cy_world c /\ cy_cursor (c <| cy_cursor := cur |>) = cur.
Proof. by destruct c. Qed.

(** Each turn leaves fewer jobs. *)
Lemma turn_decreases n c p cur c' r :
  0 <= n -> cycle_ok parse P (n + 1) (cy_world c) -> cursor_ok (cy_cursor c) ->
  next (cy_world c) (cy_owners c) (cy_cursor c) = Ret (Some p, cur) -> step (c <| cy_cursor := cur |>) p = Ret (c', r) ->
  stepped n (c <| cy_cursor := cur |>) p c' /\ cursor_ok (cy_cursor c') /\ (todo c' < todo c)%nat.
Proof.
  intros Hn Hok Hcur Hnext Hstep. apply (run_step_ok n) in Hstep; [|done|by rewrite (proj1 (with_cursor c cur))].
  split; [done|]. destruct (with_cursor c cur) as [Ew Ec]. destruct Hstep as [_ [[L1 L2] K] (j' & Ej' & R) _ _ Hc]. rewrite Ew in L1, L2, K.
  rewrite Ec in Hc. rewrite Hc. unfold todo. rewrite L1, Hc. unfold next_job in Hnext. destruct (round_robin cstat); [done|].
  assert (Hfair : pending (job_at (cy_world c) p) = true ->
    (size (pending_jobs (w_jobs (cy_world c'))) < size (pending_jobs (w_jobs (cy_world c))))%nat).
  { intros Hp. destruct (w_jobs (cy_world c) !! p) as [j|] eqn:Ej; [|by rewrite (proj1 K p Ej) in Ej'].
    eapply pending_decreases; [exact K|exact Ej| |exact Ej'|exact R]. unfold job_at in Hp. by rewrite Ej in Hp. }
  assert (Hlen : jobs_in (drop (last_queue cur) (srv_queues (w_server (cy_world c')))) = jobs_in (drop (last_queue cur) (srv_queues (w_server (cy_world c))))).
  { unfold jobs_in. by rewrite !fmap_drop, L2. }
  destruct (by_queue cstat), (fair_share cstat).
  - destruct (next_fair_queue _ _ _) as [[r1 k]| |] eqn:E; cbn [obind] in Hnext; [|done..]. injection Hnext as -> <-.
    split; [done|]. by apply Hfair, (next_fair_queue_pending _ _ _ _ E).
  - apply next_by_queue_spec in Hnext as [H1 H2]; [|done]. split; [done|]. by rewrite Hlen.
  - destruct (extract_fairshare _ _ _) as [r1| |] eqn:E; cbn [obind] in Hnext; [|done..]. injection Hnext as -> <-. split; [done|].
    apply Hfair. revert E. unfold extract_fairshare. destruct (ofold _ _ _) as [b| |] eqn:E; cbn [obind]; [|done..]. intros [= Hb].
    refine (ofold_invariant _ (fun b => forall p, bs_max b = Some p -> pending (job_at (cy_world c) p) = true) _ _ _ _ _ E p Hb); [|done].
    intros b1 u b2 H1 _ H2. by eapply extract_user_pending.
  - destruct (next_in_server _ _) as [[r1 last]| |] eqn:E; cbn [obind] in Hnext; [|done..]. injection Hnext as -> <-.
    unfold cursor_ok in *. apply next_in_server_spec in E as (H1 & _ & H3); [|lia]. cbn [last_job]. apply lookup_lt_Some in H3. lia.
Qed.

(** With enough turns the loop is left in another way than by running out of them. *)
Lemma loop_leaves fuel : forall late turn errors act c,
  (todo c < fuel)%nat -> cycle_ok parse P (Z.of_nat fuel) (cy_world c) -> cursor_ok (cy_cursor c) ->
  (forall c' how, loop fuel late turn errors act c = Ret (c', how) -> how <> OutOfFuel) /\
  forall more, (fuel <= more)%nat -> loop more late turn errors act c = loop fuel late turn errors act c.
Proof.
  induction fuel as [|fuel IH]; intros late turn errors act c Hf Hok Hcur; [lia|].
  assert (Hmore : forall more, (S fuel <= more)%nat -> exists m, more = S m /\ (fuel <= m)%nat)
    by (intros [|m] ?; [lia|]; exists m; split; [done|lia]).
  cbn [run_loop]. destruct (3 <? errors)%nat eqn:E1.
  { split; [by intros ?? [= <- <-]|]. intros more (m & -> & _)%Hmore. cbn [run_loop]. by rewrite E1. }
  destruct (next _ _ _) as [[r cur]| |] eqn:E2; cbn [obind].
  2,3: split; [done|]; intros more (m & -> & _)%Hmore; cbn [run_loop]; by rewrite E1, E2.
  destruct r as [p|]; [|split; [by intros ?? [= <- <-]|]; intros more (m & -> & _)%Hmore; cbn [run_loop]; by rewrite E1, E2].
  destruct (act && late turn) eqn:E3.
  { split; [by intros ?? [= <- <-]|]. intros more (m & -> & _)%Hmore. cbn [run_loop]. rewrite E1, E2. cbn [obind]. by rewrite E3. }
  destruct (step (c <| cy_cursor := cur |>) p) as [[c' r]| |] eqn:E4; cbn [obind].
  2,3: split; [done|]; intros more (m & -> & _)%Hmore; cbn [run_loop]; rewrite E1, E2; cbn [obind]; by rewrite E3, E4.
  destruct (turn_decreases (Z.of_nat fuel) c p cur c' r) as (Hs & Hcur' & Hlt); [lia| |done..|];
    [by replace (Z.of_nat fuel + 1) with (Z.of_nat (S fuel)) by lia|].
  destruct (IH late (S turn) (if bool_decide (r = NotTaken) then S errors else errors) (act || negb (bool_decide (r = Refused))) c') as [H1 H2];
    [lia|apply Hs|done|].
  split; [done|]. intros more (m & -> & Hm)%Hmore. cbn [run_loop]. rewrite E1, E2. cbn [obind]. rewrite E3, E4. cbn [obind]. by apply H2.
Qed.

Lemma loop_keeps_limits fuel : forall late turn errors act c c' how,
  0 <= P -> cycle_ok parse P (Z.of_nat fuel) (cy_world c) -> limits_kept parse (cy_world c) ->
  loop fuel late turn errors act c = Ret (c', how) -> limits_kept parse (cy_world c') /\ cycle_ok parse P 0 (cy_world c').
Proof.
  induction fuel as [|fuel IH]; intros late turn errors act c c' how HP Hok Hl; cbn [run_loop]; [by intros [= <- _]|].
  assert (H0 : cycle_ok parse P 0 (cy_world c)) by (apply (fewer 0 (Z.of_nat (S fuel))); [lia|done|done]).
  destruct (3 <? errors)%nat; [by intros [= <- _]|].
  destruct (next _ _ _) as [[r cur]| |]; cbn [obind]; [|done..]. destruct r as [p|]; [|by intros [= <- _]].
  destruct (act && late turn); [by intros [= <- _]|].
  destruct (step (c <| cy_cursor := cur |>) p) as [[c1 r]| |] eqn:E; cbn [obind]; [|done..].
  apply (run_step_ok (Z.of_nat fuel)) in E; [|lia|rewrite (proj1 (with_cursor c cur)); by replace (Z.of_nat fuel + 1) with (Z.of_nat (S fuel)) by lia].
  apply IH; [done|apply E|]. apply E. by rewrite (proj1 (with_cursor c cur)).
Qed.

(** In the order of the jobs: those in front of the cursor are done with. *)
Definition done_before (c : cycle) : Prop :=
  forall i p, Z.of_nat i <= last_job (cy_cursor c) -> srv_jobs (w_server (cy_world c)) !! i = Some p ->
  exists j, w_jobs (cy_world c) !! p = Some j /\ retired j.

Lemma loop_passes_all fuel : forall late turn errors act c c',
  by_queue cstat = false -> fair_share cstat = false ->
  cycle_ok parse P (Z.of_nat fuel) (cy_world c) -> cursor_ok (cy_cursor c) -> done_before c ->
  loop fuel late turn errors act c = Ret (c', NoMoreJobs) ->
  forall p, p ∈ srv_jobs (w_server (cy_world c')) -> exists j, w_jobs (cy_world c') !! p = Some j /\ retired j.
Proof.
  intros late turn errors act c c' Hbq Hfs. revert turn errors act c.
  induction fuel as [|fuel IH]; intros turn errors act c Hok Hcur Hdone; cbn [run_loop]; [done|].
  destruct (3 <? errors)%nat; [done|]. destruct (next _ _ _) as [[r cur]| |] eqn:En; cbn [obind]; [|done..].
  destruct (with_cursor c cur) as [Ew Ec].
  pose proof En as Hnext. unfold next_job in Hnext. destruct (round_robin cstat); [done|]. rewrite Hbq, Hfs in Hnext.
  destruct (next_in_server _ _) as [[r1 last]| |] eqn:E; cbn [obind] in Hnext; [|done..]. injection Hnext as -> <-.
  unfold cursor_ok in Hcur. apply next_in_server_spec in E as (H1 & H2 & H3); [|lia].
  assert (Hd : forall i p, Z.of_nat i < last -> srv_jobs (w_server (cy_world c)) !! i = Some p ->
    exists j, w_jobs (cy_world c) !! p = Some j /\ retired j).
  { intros i p Hi Hp. destruct (Z.le_gt_cases (Z.of_nat i) (last_job (cy_cursor c))); [by eapply Hdone|].
    destruct (H2 i p) as (j & Ej & Hj); [lia|done|]. exists j. split; [done|by left]. }
  destruct r as [p|]; cbn iota.
  - destruct (act && late turn); [done|]. destruct (step _ p) as [[c1 r]| |] eqn:Es; cbn [obind]; [|done..].
    destruct (turn_decreases (Z.of_nat fuel) c p _ c1 r ltac:(lia) ltac:(by replace (Z.of_nat fuel + 1) with (Z.of_nat (S fuel)) by lia) Hcur En Es) as (Hs & Hcur1 & _).
    apply IH; [apply Hs|done|]. intros i q. rewrite (sp_cursor _ _ _ _ Hs), Ec. cbn [last_job].
    destruct (sp_moves _ _ _ _ Hs) as [[L1 _] [_ K]]. rewrite Ew in L1, K. rewrite L1. intros Hi Hq.
    destruct (Z.eq_dec (Z.of_nat i) last) as [E|E].
    + replace (Z.to_nat last) with i in H3 by lia. rewrite H3 in Hq. injection Hq as <-. apply Hs.
    + destruct (Hd i q) as (j & Ej & Rj); [lia|done|]. destruct (K q j Ej) as (j1 & Ej1 & K1). exists j1. split; [done|]. by apply (ke_retired _ _ _ K1).
  - intros [= <-] p Hp. rewrite Ew in *. apply list_elem_of_lookup_1 in Hp as (i & Hi). apply (Hd i p); [|done].
    apply lookup_lt_Some in Hi. lia.
Qed.

(** C3: Over a whole scheduling cycle no limit is broken: whatever the order of the
    jobs, the configuration and the answers of the server, when the limits of the
    server and of all queues - running jobs and processors, in all, for every user
    and for every group - hold at the start of the loop of [World::run], they hold
    when it is left, every job that was started counted, and the counters and caches
    are exact.  [P] bounds the processors of a job; the counters have room for as
    many starts as there are turns. *)
Theorem cycle_keeps_limits fuel late c c' how :
  0 <= P -> cycle_ok parse P (Z.of_nat fuel) (cy_world c) -> limits_kept parse (cy_world c) ->
  loop fuel late 0 0 false c = Ret (c', how) ->
  limits_kept parse (cy_world c') /\ server_wf (w_server (cy_world c')) /\
  (forall k q, srv_queues (w_server (cy_world c')) !! k = Some q -> queue_wf parse q).
Proof.
  intros HP Hok Hl H. destruct (loop_keeps_limits fuel late 0 0 false c c' how HP Hok Hl H) as [Hl' [Hs _ Hq _ _]].
  split_and!; [done|done|]. intros k q Hk. by eapply (proj1 (Forall_lookup _ _) Hq).
Qed.

(** C4: The scheduling loop comes to an end: each turn finishes a job or moves the
    cursor, so that one turn more than there are jobs to do is always enough and
    more turns change nothing.  It is left because there are no more jobs, because
    the server has refused too many, or because the time is over; and when jobs are
    taken in their own order and none is left, every job of the server either runs
    or is marked as unable to. *)
Theorem scheduling_loop_ends late c :
  cy_cursor c = mkCursor 0 (-1) -> cycle_ok parse P (Z.of_nat (S (todo c))) (cy_world c) ->
  (forall fuel, (todo c < fuel)%nat -> loop fuel late 0 0 false c = loop (S (todo c)) late 0 0 false c) /\
  forall c' how, loop (S (todo c)) late 0 0 false c = Ret (c', how) ->
    how <> OutOfFuel /\
    (how = NoMoreJobs -> by_queue cstat = false -> fair_share cstat = false ->
     forall p, p ∈ srv_jobs (w_server (cy_world c')) -> exists j, w_jobs (cy_world c') !! p = Some j /\ retired j).
Proof.
  intros Hcur Hok. assert (Hc : cursor_ok (cy_cursor c)) by (rewrite Hcur; unfold cursor_ok; cbn; lia).
  destruct (loop_leaves (S (todo c)) late 0 0 false c) as [H1 H2]; [lia|done|done|]. split; [intros fuel Hf; by apply H2|].
  intros c' how H. split; [by eapply H1|]. intros -> Hbq Hfs.
  refine (loop_passes_all _ _ _ _ _ _ _ Hbq Hfs Hok Hc _ H). intros i p Hi. rewrite Hcur in Hi. cbn in Hi. lia.
Qed.
End Loop.

(** ** An example

    Two jobs of one user, who may run one job at a time: the first is started and the
    second refused. *)

Definition example_jobs : gmap positive JobInfo :=
  {[ 1%positive := example_job <| queue := Some 0%nat |> <| state := JobQueued |>;
     2%positive := example_job <| job_id := "2.srv"%string |> <| queue := Some 0%nat |> <| state := JobQueued |> ]}.

Definition example_world : world :=
  mkW (c_srv example_chk <| srv_queues := [c_queue example_chk <| q_jobs := [1; 2]%positive |>] |> <| srv_jobs := [1; 2]%positive |>)
    assign_example_store example_jobs (mkFairshare ∅ ∅) ∅ (mkPropRegistry ∅ [] [] []).

Definition example_cycle : cycle :=
  mkCycle example_world ∅ (mkCursor 0 (-1)) (mkConns {[ "srv"%string := 0 ]} "srv" [Some 5]) [] [].

Definition example_loop (fuel : nat) : outcome (cycle * leaving) :=
  run_loop example_conf zero_status 0 toy_parse_nodespec (fun _ _ _ => false) (fun _ _ => None) (fun _ => None) None
    (fun _ _ _ => None) (fun _ _ => 0) (fun _ => []) fuel (fun _ => false) 0 0 false example_cycle.


Lemma example_cycle_ok (n : Z) : 0 <= n <= 1000 -> cycle_ok toy_parse_nodespec 4 n example_world.
Proof.
  intros Hn. destruct (cp_server _ _ example_check_pre) as [S1 S2 S3 S4], (cp_queue _ _ example_check_pre) as [Q1 Q2 Q3 Q4 Q5 Q6 Q7 Q8].
  constructor.
  - by constructor.
  - cbn. lia.
  - constructor; [by constructor|done].
  - intros [|k] q Hk; [|done]. injection Hk as <-. cbn. lia.
  - intros p j Hj. assert (Hp : p = 1%positive \/ p = 2%positive).
    { destruct (decide (p = 1%positive)), (decide (p = 2%positive)); auto.
      unfold example_world, example_jobs in Hj. cbn [w_jobs] in Hj. rewrite lookup_insert_ne, lookup_singleton_ne in Hj; done. }
    destruct Hp as [-> | ->]; injection Hj as <-; vm_compute; repeat split; discriminate.
Qed.

Lemma example_limits_kept : limits_kept toy_parse_nodespec example_world.
Proof.
  intros [|k] q Hk; [|done]. injection Hk as <-. destruct example_limits_hold as [L1 L2 L3 L4 L5 L6 L7 L8 L9]. by constructor.
Qed.

Lemma cycle_keeps_limits_witness :
  match example_loop 3 with
  | Ret (c, how) => how = NoMoreJobs /\ length (cy_runs c) = 1%nat /\ limits_kept toy_parse_nodespec (cy_world c)
  | _ => False
  end.
Proof.
  assert (H : forall c how, example_loop 3 = Ret (c, how) -> limits_kept toy_parse_nodespec (cy_world c)).
  { intros c how H. refine (proj1 (cycle_keeps_limits _ _ _ _ _ _ _ _ _ _ _ 4 3 _ _ c how _ _ _ H)).
    - lia.
    - apply example_cycle_ok. lia.
    - exact example_limits_kept. }
  destruct (example_loop 3) as [[c how]| |] eqn:E.
  - split; [|split; [|by eapply H]]; revert E; vm_compute; by intros [= <- <-].
  - revert E. by vm_compute.
  - revert E. by vm_compute.
Defined.

Lemma scheduling_loop_ends_witness :
  todo zero_status example_cycle = 2%nat /\
  match example_loop 3 with
  | Ret (c, how) => how = NoMoreJobs /\
      forall p, p ∈ srv_jobs (w_server (cy_world c)) -> exists j, w_jobs (cy_world c) !! p = Some j /\ retired j
  | _ => False
  end.
Proof.
  split; [vm_compute; reflexivity|].
  assert (H : forall c how, example_loop 3 = Ret (c, how) -> how <> OutOfFuel /\ (how = NoMoreJobs ->
    forall p, p ∈ srv_jobs (w_server (cy_world c)) -> exists j, w_jobs (cy_world c) !! p = Some j /\ retired j)).
  { intros c how H.
    assert (Ht : todo zero_status example_cycle = 2%nat) by (vm_compute; reflexivity).
    destruct (proj2 (scheduling_loop_ends example_conf zero_status 0 toy_parse_nodespec (fun _ _ _ => false) (fun _ _ => None)
      (fun _ => None) None (fun _ _ _ => None) (fun _ _ => 0) (fun _ => []) 4 (fun _ => false) example_cycle eq_refl
      (example_cycle_ok (Z.of_nat (S (todo zero_status example_cycle))) ltac:(rewrite Ht; lia))) c how) as [H1 H2]; [rewrite Ht; exact H|].
    split; [exact H1|]. intros E. by apply H2. }
  destruct (example_loop 3) as [[c how]| |] eqn:E.
  - assert (Hh : how = NoMoreJobs) by (revert E; vm_compute; by intros [= <- <-]). split; [done|]. by eapply H.
  - revert E. by vm_compute.
  - revert E. by vm_compute.
Defined.
