(* ===== verification/QuerySpec.v ===== *)
(** * The server that was read is consistent: query_server and World::fetch_servers

    Every job is listed once, in its queue and on the server; the counters are those
    of the jobs, the running jobs are those that run, and a job that is not queued
    is never considered. *)

From Stdlib Require Import ZArith Lia Bool Ascii String SpecFloat.
From S2P Require Import Prelude Connections CString CFloat MiscHelpers Config Prime Resource PropRegistry DataTypes NodeData JobInfo Sort StateCount QueueInfo ServerInfo NodeLogic NodeInfo JobPlan Assign Check RunLimits JobUpdate FairshareTree FairshareUse Fairshare ExternalCache Query Cycle CycleSpec.

Open Scope Z_scope.
Local Open Scope sched_scope.

(** ** What is consistent *)

(** The counters are those of the jobs, as [int]s. *)
Definition counts_match (sc : StateCount) (jobs : list JobInfo) : Prop :=
  forall s, s <> JobNoState -> counter s sc = i32 (count_in s jobs).

Definition running_of (jobs : list JobInfo) : list JobInfo := filter (fun j => state j = JobRunning) jobs.

Record queue_ok (jobs : gmap positive JobInfo) (k : nat) (q : queue_info) : Prop := {
  qo_jobs : forall p, p ∈ q_jobs q -> exists j, jobs !! p = Some j /\ queue j = Some k;
  qo_once : NoDup (q_jobs q);
  qo_running : q_running_jobs q = running_of (jobs_of jobs (q_jobs q));
  qo_counts : counts_match (q_sc q) (jobs_of jobs (q_jobs q));
  qo_fresh : q_jobs_by_group q = ∅ /\ q_jobs_by_user q = ∅ /\ q_cores_by_group q = ∅ /\ q_cores_by_user q = ∅ /\
    q_running_cores q = None
}.

Record listed (jobs : gmap positive JobInfo) (queues : list queue_info) : Prop := {
  li_queues : forall k q, queues !! k = Some q -> queue_ok jobs k q;
  li_jobs : forall p j, jobs !! p = Some j -> exists k q, queue j = Some k /\ queues !! k = Some q /\ p ∈ q_jobs q;
  li_unable : forall p j, jobs !! p = Some j -> state j <> JobQueued -> can_not_run j = true
}.

Record server_ok (jobs : gmap positive JobInfo) (s : server_info) : Prop := {
  so_jobs : srv_jobs s ≡ₚ mjoin (q_jobs <$> srv_queues s);
  so_running : running_jobs s = running_of (jobs_of jobs (srv_jobs s));
  so_counts : counts_match (srv_sc s) (jobs_of jobs (srv_jobs s));
  so_fresh : running_jobs_by_group s = ∅ /\ running_jobs_by_user s = ∅
}.

(** ** Counting *)

Lemma i32_add_l a b : i32 (i32 a + b) = i32 (a + b).
Proof. by apply wrap_s_add_l. Qed.

Lemma count_in_app s l1 l2 : count_in s (l1 ++ l2) = count_in s l1 + count_in s l2.
Proof. unfold count_in. rewrite filter_app, length_app. lia. Qed.

Lemma fold_count_state_wraps s jobs sc :
  s <> JobNoState -> i32 (counter s sc) = counter s sc ->
  counter s (fold_left count_state jobs sc) = i32 (counter s sc + count_in s jobs).
Proof.
  intros Hs. revert sc. induction jobs as [|j jobs IH]; intros sc Hi; cbn [fold_left].
  - change (count_in s []) with 0. by rewrite Z.add_0_r.
  - assert (Hc : counter s (count_state sc j) = i32 (counter s sc + if decide (state j = s) then 1 else 0)).
    { rewrite counter_count_state by done. case_decide; [done|by rewrite Z.add_0_r]. }
    rewrite IH, Hc, count_in_cons, i32_add_l; [f_equal; lia|]. rewrite Hc. by apply wrap_s_idemp.
Qed.

Lemma count_states_match jobs sc : (forall s, s <> JobNoState -> counter s sc = 0) -> counts_match (count_states sc jobs) jobs.
Proof.
  intros H0 s Hs. unfold count_states. cbv zeta.
  transitivity (counter s (fold_left count_state jobs sc)); [by destruct s|].
  rewrite fold_count_state_wraps, H0; try done. by rewrite H0.
Qed.

Lemma counter_add s a b : s <> JobNoState -> counter s (sc_add_assign a b) = i32 (counter s a + counter s b).
Proof. by destruct s. Qed.

Lemma jobs_of_app jobs l1 l2 : jobs_of jobs (l1 ++ l2) = jobs_of jobs l1 ++ jobs_of jobs l2.
Proof. apply omap_app. Qed.

Lemma jobs_of_ext jobs jobs' l :
  (forall p, p ∈ l -> jobs' !! p = jobs !! p) -> jobs_of jobs' l = jobs_of jobs l.
Proof.
  induction l as [|p l IH]; intros H; [done|]. unfold jobs_of in *. cbn [omap list_omap]. rewrite (H p) by by left.
  rewrite IH by (intros q Hq; apply H; by right). done.
Qed.

Lemma sum_counts jobs queues k :
  (forall i q, queues !! i = Some q -> queue_ok jobs (k + i) q) -> forall sc l, counts_match sc l ->
  counts_match (fold_left (fun sc q => sc_add_assign sc (q_sc q)) queues sc)
    (l ++ jobs_of jobs (mjoin (q_jobs <$> queues))).
Proof.
  revert k. induction queues as [|q queues IH]; intros k Hq sc l Hsc; cbn [fold_left fmap list_fmap mjoin list_join].
  - by rewrite app_nil_r.
  - rewrite jobs_of_app, app_assoc. apply (IH (S k)).
    + intros i q' Hi. replace (S k + i)%nat with (k + S i)%nat by lia. by apply Hq.
    + intros s Hs. rewrite counter_add, Hsc by done. rewrite (qo_counts _ _ _ (Hq O q eq_refl)) by done.
      rewrite count_in_app, i32_add_l, Z.add_comm, i32_add_l. f_equal. lia.
Qed.

(** ** The jobs of a queue are read *)

Section Jobs.
Context (read_ini : string -> option (list (string * list (string * string)))) (get_value : string -> option Z)
  (unknown_shares : Z) (files : string -> tree_files).
Notation query := (query_jobs read_ini get_value unknown_shares files).

(** Everything but the jobs and the trees. *)
Definition same_frame (w w' : world) : Prop :=
  w_server w' = w_server w /\ w_nodes w' = w_nodes w /\ w_db w' = w_db w /\ w_registry w' = w_registry w.

(** New jobs of queue [k] have been added. *)
Record queried (k : nat) (w w' : world) (new : list positive) : Prop := {
  qd_frame : same_frame w w';
  qd_once : NoDup new;
  qd_old : forall p, p ∉ new -> w_jobs w' !! p = w_jobs w !! p;
  qd_new : forall p, p ∈ new -> w_jobs w !! p = None /\
    exists j, w_jobs w' !! p = Some j /\ queue j = Some k /\ (state j <> JobQueued -> can_not_run j = true)
}.

Lemma add_job_queried k tree w0 w new s w' new' :
  queried k w0 w new -> add_job read_ini get_value unknown_shares files k tree (w, new) s = Ret (w', new') ->
  queried k w0 w' new'.
Proof.
  intros [[F1 [F2 [F3 F4]]] Hn Ho Hnew]. unfold add_job.
  destruct (get_tree _ _ _ _ _ _) as [[fs root]| |]; cbn [obind]; [|done..].
  destruct (find_alloc_ginfo _ _ _) as [[gs x]| |]; cbn [obind]; [|done..].
  set (j := if bool_decide _ then _ else _). set (p := fresh _). intros [= <- <-].
  assert (Hp : w_jobs w !! p = None) by (apply not_elem_of_dom, is_fresh).
  assert (Hj : queue j = Some k /\ (state j <> JobQueued -> can_not_run j = true)).
  { unfold j. case_bool_decide; split; done. }
  assert (Hpn : p ∉ new). { intros H. apply Hnew in H as (_ & j1 & E & _). congruence. }
  constructor; cbn.
  - done.
  - apply NoDup_app. split_and!; [done| |apply NoDup_singleton]. intros q Hq ->%list_elem_of_singleton. done.
  - intros q Hq. rewrite not_elem_of_app, list_elem_of_singleton in Hq. rewrite lookup_insert_ne by (intros ->; tauto). apply Ho. tauto.
  - intros q [Hq| ->%list_elem_of_singleton]%elem_of_app.
    + rewrite lookup_insert_ne by (intros ->; done). by apply Hnew.
    + rewrite lookup_insert_eq. split; [by rewrite <- Ho|]. by exists j.
Qed.

Lemma query_jobs_queried r k q w w' new ok : query r k q w = Ret (w', new, ok) -> queried k w w' new.
Proof.
  assert (H0 : queried k w w []). { constructor; [done|constructor|done|]. by intros p H%elem_of_nil. }
  unfold query_jobs. destruct (rp_list r) as [jobs|]; [|by intros [= <- <- _]].
  destruct (ofold _ _ _) as [[w1 l]| |] eqn:E; cbn [obind]; [|done..]. intros [= <- <- _].
  refine (ofold_invariant _ (fun st => queried k w (fst st) (snd st)) jobs (w, []) (w1, l) _ H0 E).
  intros [w2 l2] s [w3 l3] H _ Hs. by eapply add_job_queried.
Qed.
End Jobs.

(** ** Jobs that are told that they cannot run *)

Definition told (m m' : gmap positive JobInfo) : Prop :=
  (forall p, m !! p = None -> m' !! p = None) /\
  forall p j, m !! p = Some j -> exists j', m' !! p = Some j' /\ state j' = state j /\ queue j' = queue j /\
    (can_not_run j = true -> can_not_run j' = true).

Lemma told_refl m : told m m.
Proof. split; [done|]. intros p j Hj. by exists j. Qed.

Lemma told_insert m0 m p j j' :
  told m0 m -> m !! p = Some j -> state j' = state j -> queue j' = queue j -> can_not_run j' = true -> told m0 (<[p := j']> m).
Proof.
  intros [N H] E Es Eq Ec. split.
  - intros q Hq. rewrite lookup_insert_ne; [by apply N|]. intros ->. by rewrite (N q Hq) in E.
  - intros q i Hi. destruct (H q i Hi) as (i' & Ei & E1 & E2 & E3). destruct (decide (q = p)) as [->|Hne].
    + exists j'. rewrite lookup_insert_eq. rewrite E in Ei. injection Ei as <-. split; [done|]. split_and!; congruence.
    + exists i'. by rewrite lookup_insert_ne.
Qed.

Lemma update_jobs_cant_run_told m arr start msg place m' rs :
  update_jobs_cant_run m arr start msg place = Ret (m', rs) -> told m m' /\ forall p, p ∉ arr -> m' !! p = m !! p.
Proof.
  unfold update_jobs_cant_run. intros H.
  refine (ofold_invariant _ (fun st => told m (fst st) /\ forall p, p ∉ arr -> fst st !! p = m !! p) _ _ _ _ _ H); [|split; [apply told_refl|done]].
  clear H. intros [m1 r1] p [m2 r2] [Ht Hp] Hin. cbn [fst] in *. unfold job_cant_run.
  destruct (m1 !! p) as [j|] eqn:E; cbn [of_option obind]; [|done].
  assert (Hu : let j' := fst (fst (update_job_comment (j <| can_not_run := true |>) msg)) in
    state j' = state j /\ queue j' = queue j /\ can_not_run j' = true).
  { unfold update_job_comment. repeat case_match; simplify_eq; done. }
  destruct (update_job_comment (j <| can_not_run := true |>) msg) as [[j' r] z]. cbn [fst] in Hu. cbv zeta in Hu. intros [= <- _].
  split; [by eapply told_insert; [..|apply Hu|apply Hu|apply Hu]|]. intros q Hq. rewrite lookup_insert_ne; [by apply Hp|].
  intros ->. apply Hq. rewrite <- (take_drop (first_updated arr start place) arr). apply elem_of_app. by right.
Qed.

(** ** Queues *)

(** The jobs that have come to queue [k]. *)
Record come (k : nat) (jobs jobs' : gmap positive JobInfo) (new : list positive) : Prop := {
  cm_once : NoDup new;
  cm_old : forall p, p ∉ new -> jobs' !! p = jobs !! p;
  cm_new : forall p, p ∈ new -> jobs !! p = None /\
    exists j, jobs' !! p = Some j /\ queue j = Some k /\ (state j <> JobQueued -> can_not_run j = true)
}.

Lemma queried_come k w w' new : queried k w w' new -> come k (w_jobs w) (w_jobs w') new.
Proof. by intros [_ ? ? ?]. Qed.

Lemma come_told k jobs jobs' new jobs2 :
  come k jobs jobs' new -> told jobs' jobs2 -> (forall p, p ∉ new -> jobs2 !! p = jobs' !! p) -> come k jobs jobs2 new.
Proof.
  intros [Hn Ho Hnew] [_ Ht] Hp. constructor; [done| |].
  - intros p H. by rewrite Hp, Ho.
  - intros p H. destruct (Hnew p H) as (E & j & Ej & Eq & Ec). split; [done|].
    destruct (Ht p j Ej) as (j2 & Ej2 & Es2 & Eq2 & Ec2). exists j2. rewrite Es2, Eq2. auto.
Qed.

Lemma queue_ok_ext jobs jobs' k q :
  (forall p, p ∈ q_jobs q -> jobs' !! p = jobs !! p) -> queue_ok jobs k q -> queue_ok jobs' k q.
Proof.
  intros E [Hj Hn Hr Hc Hf]. pose proof (jobs_of_ext _ _ _ E) as Ej. constructor; rewrite ?Ej; try done.
  intros p Hp. rewrite (E p Hp). by apply Hj.
Qed.

Definition jobs_at_queue (queues : list queue_info) (k : nat) : list positive :=
  match queues !! k with Some q => q_jobs q | None => [] end.

(** A queue that has been counted after jobs have come to it. *)
Lemma listed_come jobs jobs' queues queues' k q' new :
  listed jobs queues -> come k jobs jobs' new -> queues' !! k = Some q' ->
  (forall i, i <> k -> queues' !! i = queues !! i) -> q_jobs q' = jobs_at_queue queues k ++ new ->
  q_running_jobs q' = running_of (jobs_of jobs' (q_jobs q')) -> counts_match (q_sc q') (jobs_of jobs' (q_jobs q')) ->
  (q_jobs_by_group q' = ∅ /\ q_jobs_by_user q' = ∅ /\ q_cores_by_group q' = ∅ /\ q_cores_by_user q' = ∅ /\ q_running_cores q' = None) ->
  listed jobs' queues'.
Proof.
  intros [Lq Lj Lu] [Hn Ho Hnew] Hk Hi Eq Er Ec Ef.
  assert (Hold : forall p j, jobs !! p = Some j -> p ∉ new /\ jobs' !! p = Some j).
  { intros p j Hj. assert (p ∉ new) by (intros H; destruct (Hnew p H); congruence). split; [done|]. by rewrite Ho. }
  assert (Hat : forall p, p ∈ jobs_at_queue queues k -> exists j, jobs !! p = Some j /\ queue j = Some k).
  { unfold jobs_at_queue. destruct (queues !! k) as [q|] eqn:E; [|by intros p H%elem_of_nil]. apply (Lq k q E). }
  constructor.
  - intros i q H. destruct (decide (i = k)) as [->|Hne].
    + rewrite Hk in H. injection H as <-. constructor; try done; rewrite Eq.
      * intros p [Hp|Hp]%elem_of_app.
        -- destruct (Hat p Hp) as (j & Ej & Eqj). exists j. split; [by apply Hold|done].
        -- destruct (Hnew p Hp) as (_ & j & Ej & Eqj & _). by exists j.
      * apply NoDup_app. split_and!; [|intros p Hp Hp2; destruct (Hat p Hp) as (j & Ej & _); destruct (Hold p j Ej); done|done].
        unfold jobs_at_queue. destruct (queues !! k) as [q|] eqn:E; [apply (Lq k q E)|constructor].
    + rewrite (Hi i Hne) in H. apply (queue_ok_ext jobs); [|by apply Lq]. intros p Hp.
      destruct (qo_jobs _ _ _ (Lq i q H) p Hp) as (j & Ej & _). rewrite Ej. by apply Hold.
  - intros p j Hj. destruct (decide (p ∈ new)) as [Hp|Hp].
    + destruct (Hnew p Hp) as (_ & j' & Ej & Eqj & _). assert (j' = j) as -> by congruence. exists k, q'. split_and!; [done..|].
      rewrite Eq. apply elem_of_app. by right.
    + rewrite Ho in Hj by done. destruct (Lj p j Hj) as (i & q & E1 & E2 & E3). exists i.
      destruct (decide (i = k)) as [->|Hne]; [exists q'|exists q; by rewrite Hi].
      split_and!; [done..|]. rewrite Eq. apply elem_of_app. left. unfold jobs_at_queue. by rewrite E2.
  - intros p j Hj. destruct (decide (p ∈ new)) as [Hp|Hp].
    + destruct (Hnew p Hp) as (_ & j' & Ej & _ & Ec'). by assert (j' = j) as -> by congruence.
    + rewrite Ho in Hj by done. by apply (Lu p).
Qed.

(** A queue as its attributes leave it. *)
Definition unread (q : queue_info) : Prop :=
  q_sc q = new_StateCount /\ q_jobs_by_group q = ∅ /\ q_jobs_by_user q = ∅ /\ q_cores_by_group q = ∅ /\ q_cores_by_user q = ∅ /\
  q_running_cores q = None.

Lemma push_nodes_unread choose w q q' : unread q -> push_nodes choose w q = Ret q' -> unread q'.
Proof.
  intros Hq. unfold push_nodes. apply (ofold_invariant _ unread); [|done]. intros q1 p q2 H1 _.
  destruct (w_nodes w !! p) as [n|]; cbn [of_option obind]; [|done]. destruct (choose n); [|by intros [= <-]].
  unfold push_excl_node. cbv zeta. destruct (_ <? _); cbn [of_option]; [|done]. by intros [= <-].
Qed.

Section Server.
Context (read_ini : string -> option (list (string * list (string * string)))) (get_value : string -> option Z)
  (unknown_shares : Z) (files : string -> tree_files) (conf : config) (cstat : status) (parse_prop : string -> pars_prop)
  (selstat : string -> string -> reply).

Lemma query_queue_info_unread s w q : query_queue_info parse_prop s w = Ret q -> unread q.
Proof.
  unfold query_queue_info. destruct (ofold _ _ _) as [q1| |] eqn:E; cbn [obind]; [|done..]. apply push_nodes_unread.
  revert E. apply (ofold_invariant _ unread); [|done]. intros q2 a q3 H2 _. unfold queue_attr. cbv zeta.
  repeat (match goal with |- context [if String.eqb (attr_name a) ?n then _ else _] => destruct (String.eqb (attr_name a) n) end;
    [by first [intros [= <-]; repeat case_match; exact H2 | apply push_nodes_unread]|]).
  by intros [= <-].
Qed.

Lemma query_queue_listed w rs s w' rs' :
  listed (w_jobs w) (srv_queues (w_server w)) ->
  query_queue read_ini get_value unknown_shares files conf cstat parse_prop selstat (w, rs) s = Ret (w', rs') ->
  listed (w_jobs w') (srv_queues (w_server w')) /\
  exists q, w_server w' = w_server w <| srv_queues := srv_queues (w_server w) ++ [q] |>.
Proof.
  intros Hl. unfold query_queue. destruct (query_queue_info _ _ _) as [q| |] eqn:Eq; cbn [obind]; [|done..].
  apply query_queue_info_unread in Eq as (U1 & U2 & U3 & U4 & U5 & U6).
  destruct (query_jobs _ _ _ _ _ _ _ _) as [[[w1 new] ok]| |] eqn:Ej; cbn [obind]; [|done..].
  apply query_jobs_queried in Ej. set (q1 := mark_ded_queue conf (q <| q_jobs := new |>)).
  assert (E1 : q_jobs q1 = new /\ q_sc q1 = new_StateCount /\ (q_jobs_by_group q1 = ∅ /\ q_jobs_by_user q1 = ∅ /\ q_cores_by_group q1 = ∅ /\
    q_cores_by_user q1 = ∅ /\ q_running_cores q1 = None)).
  { unfold q1, mark_ded_queue. destruct (_ && _); by split_and!. }
  destruct E1 as (E1 & E2 & E3). rewrite E1. set (ret := is_ok_to_run_queue conf cstat _ q1).
  destruct (if ret =? SUCCESS then _ else _) as [[jinfos rs1]| |] eqn:Et; cbn [obind]; [|done..].
  intros [= <- <-]. cbn [w_jobs w_server]. destruct (qd_frame _ _ _ _ Ej) as (F1 & _). rewrite F1.
  split; [|by eexists]. cbn.
  assert (Hc : come (length (srv_queues (w_server w))) (w_jobs w) jinfos new).
  { apply queried_come in Ej. destruct (ret =? SUCCESS); [by injection Et as <- _|].
    apply update_jobs_cant_run_told in Et as [Ht Hp]. by eapply come_told. }
  eapply listed_come; [exact Hl|exact Hc|by rewrite lookup_app_r, Nat.sub_diag| | | | |]; cbn.
  - intros i Hi. destruct (decide (i < length (srv_queues (w_server w)))%nat); [by apply lookup_app_l|].
    rewrite !lookup_ge_None_2; [done| |]; rewrite ?length_app; cbn; lia.
  - unfold jobs_at_queue. by rewrite lookup_ge_None_2 by done.
  - done.
  - apply count_states_match. intros s' Hs. rewrite E2. by destruct s'.
  - done.
Qed.

Lemma query_queues_listed r w w' rs :
  listed (w_jobs w) (srv_queues (w_server w)) ->
  query_queues read_ini get_value unknown_shares files conf cstat parse_prop selstat r w = Ret (Some (w', rs)) ->
  listed (w_jobs w') (srv_queues (w_server w')) /\
  exists qs, w_server w' = w_server w <| srv_queues := srv_queues (w_server w) ++ qs |>.
Proof.
  intros Hl. unfold query_queues. destruct (rp_list r) as [queues|]; [|done].
  destruct (ofold _ _ _) as [[w1 rs1]| |] eqn:E; cbn [obind]; [|done..]. intros [= <- <-].
  refine (ofold_invariant _ (fun st => listed (w_jobs (fst st)) (srv_queues (w_server (fst st))) /\
    exists qs, w_server (fst st) = w_server w <| srv_queues := srv_queues (w_server w) ++ qs |>) queues (w, []) (w1, rs1) _ _ E).
  - clear E. intros [w2 rs2] s [w3 rs3] [H2 (qs & Es)] _ Hq. cbn [fst] in *. apply query_queue_listed in Hq as [H3 (q & Eq)]; [|done].
    split; [done|]. exists (qs ++ [q]). rewrite Eq, Es. cbn. by rewrite app_assoc.
  - split; [done|]. exists []. cbn. rewrite app_nil_r. by destruct (w_server w).
Qed.
End Server.

(** ** The server *)

(** Nothing has been counted yet. *)
Definition uncounted (s : server_info) : Prop :=
  srv_jobs s = [] /\ srv_sc s = new_StateCount /\ running_jobs_by_group s = ∅ /\ running_jobs_by_user s = ∅.

Definition blank (w : world) : Prop := w_jobs w = ∅ /\ srv_queues (w_server w) = [] /\ uncounted (w_server w).

Lemma same_state_blank w w' : same_state w w' -> blank w -> blank w'.
Proof. intros (Es & Ej & _). unfold blank. by rewrite Es, Ej. Qed.

Lemma same_state_refl w : same_state w w.
Proof. done. Qed.

Section Whole.
Context (read_ini : string -> option (list (string * list (string * string)))) (get_value : string -> option Z)
  (unknown_shares : Z) (files : string -> tree_files) (conf : config) (cstat : status) (parse_prop : string -> pars_prop)
  (selstat : string -> string -> reply) (junk_total junk_free : Z) (junk_nostarving : bool) (junk_magrathea : MagratheaState)
  (cached_host : string -> option string) (cache : string -> string -> option (string -> option string))
  (bootable : string -> option (list repository_alternatives)).
Notation query := (query_server read_ini get_value unknown_shares files conf cstat parse_prop selstat junk_total junk_free
  junk_nostarving junk_magrathea cached_host cache bootable).

Lemma query_server_info_blank name attribs s nodes fs db reg :
  query_server_info name attribs = Ret s -> blank (mkW s nodes ∅ fs db reg).
Proof.
  unfold query_server_info. intros H. split; [done|]. cbn.
  refine (ofold_invariant _ (fun s => srv_queues s = [] /\ uncounted s) _ _ _ _ _ H); [|by split].
  clear H. intros s1 a s2 H1 _. unfold server_attr. cbv zeta.
  repeat (match goal with |- context [if String.eqb (attr_name a) ?n then _ else _] => destruct (String.eqb (attr_name a) n) end;
    [try destruct (get_token_array (attr_value a)); cbn [obind]; try done; by intros [= <-]|]).
  by intros [= <-].
Qed.

Lemma query_nodes_blank r w w' :
  blank w -> query_nodes junk_total junk_free junk_nostarving junk_magrathea cached_host r w = Ret (Some w') -> blank w'.
Proof.
  intros Hb. unfold query_nodes. destruct (rp_list r) as [nodes|]; [|done].
  destruct (ofold (add_node_status _ _ _ _) _ _) as [w1| |] eqn:E1; cbn [obind]; [|done..].
  destruct (ofold (link_host _) _ _) as [w2| |] eqn:E2; cbn [obind]; [|done..]. intros [= <-].
  assert (H1 : blank w1).
  { revert E1. apply (ofold_invariant _ blank); [|done]. intros w3 s w4 H3 _. unfold add_node_status.
    destruct (NodeData_ctor _ _ _ _ _ _) as [[d reg]| |]; cbn [obind]; [|done..]. by intros [= <-]. }
  refine (same_state_blank w1 w2 _ H1).
  refine (ofold_invariant _ (same_state w1) _ _ _ _ (same_state_refl w1) E2). clear. intros w3 p w4 H3 _. unfold link_host.
  destruct (w_nodes w3 !! p) as [n|]; cbn [of_option obind]; [|done]. destruct (negb _); [by intros [= <-]|].
  destruct (cached_host _) as [host|]; [|by intros [= <-]]. destruct (find_node_info _ _ _) as [[q|]| |]; cbn [obind]; [|by intros [= <-]|done..].
  cbv zeta. destruct (<[_ := _]> (w_nodes w3) !! q) as [h|]; cbn [of_option obind]; [by intros [= <-]|done].
Qed.

Lemma static_value_state f metric w w' :
  (forall w n v w' n', f w n v = Ret (w', n') -> same_state w w') -> each_value cache f metric w = Ret w' -> same_state w w'.
Proof.
  intros Hf. apply each_value_state; [|done]. intros w1 n v w2 n' (A1 & A2 & A3) H. destruct (Hf _ _ _ _ _ H) as (B1 & B2 & B3).
  split_and!; congruence.
Qed.

(** What is read only once changes the dynamic resources of the server, and nodes. *)
Lemma read_static_state w w' :
  read_static cache w = Ret w' ->
  w_jobs w' = w_jobs w /\ w_fairshare w' = w_fairshare w /\
  w_server w' = w_server w <| dynamic_resources := dynamic_resources (w_server w') |>.
Proof.
  unfold read_static. destruct (each_value cache read_cluster _ w) as [w1| |] eqn:E1; cbn [obind]; [|done..].
  destruct (each_value cache read_scratch_pool _ w1) as [w2| |] eqn:E2; cbn [obind]; [|done..].
  destruct (each_value cache (read_dead_data "scratch_local") _ _) as [w3| |] eqn:E3; cbn [obind]; [|done..].
  destruct (each_value cache (read_dead_data "scratch_ssd") _ w3) as [w4| |] eqn:E4; cbn [obind]; [|done..].
  intros E5.
  assert (Hd : forall name w n v w' n', read_dead_data name w n v = Ret (w', n') -> same_state w w').
  { intros name wa n v wb n'. unfold read_dead_data. repeat case_match; by intros [= <- <-]. }
  apply static_value_state in E1 as (A1 & A2 & A3); [|by intros ????? [= <- _]].
  apply static_value_state in E2 as (B1 & B2 & B3); [|by intros ????? [= <- _]].
  apply static_value_state in E3 as (C1 & C2 & C3); [|apply Hd]. apply static_value_state in E4 as (D1 & D2 & D3); [|apply Hd].
  apply static_value_state in E5 as (F1 & F2 & F3).
  2: { intros wa n v wb n'. unfold read_scratch_priority. destruct (scratch_priorities _ _ _ _); cbn [obind]; [|done..]. by intros [= <- _]. }
  assert (H : w_jobs (read_dynamic_resources cache w2) = w_jobs w2 /\ w_fairshare (read_dynamic_resources cache w2) = w_fairshare w2 /\
    w_server (read_dynamic_resources cache w2) =
      w_server w2 <| dynamic_resources := dynamic_resources (w_server (read_dynamic_resources cache w2)) |>).
  { unfold read_dynamic_resources. destruct (fetch_metric _ _ _); [done|]. split_and!; [done..|]. by destruct (w_server w2). }
  destruct H as (H1 & H2 & H3). rewrite F1, F2, F3, D1, D2, D3, C1, C2, C3. rewrite H1, H2. split_and!; [congruence..|].
  by rewrite H3, B1, A1 at 1.
Qed.

Lemma read_static_blank w w' : blank w -> read_static cache w = Ret w' -> blank w'.
Proof. intros Hb (Ej & _ & Es)%read_static_state. unfold blank. rewrite Ej, Es. exact Hb. Qed.

Lemma external_cache_blank w w' : blank w -> query_external_cache cache false w = Ret w' -> blank w'.
Proof.
  intros Hb. unfold query_external_cache. destruct (refresh_resources cache w) as [w1| |] eqn:E1; cbn [obind]; [|done..].
  apply refresh_resources_state in E1. destruct (read_static cache w1) as [w2| |] eqn:E2; cbn [obind]; [|done..].
  apply read_static_blank in E2; [|by eapply same_state_blank].
  destruct (ofold decode_status _ w2) as [w3| |] eqn:E3; cbn [obind]; [|done..].
  assert (H3 : blank w3).
  { refine (same_state_blank w2 w3 _ E2). refine (ofold_invariant _ (same_state w2) _ _ _ _ (same_state_refl w2) E3).
    intros wa p wb (A1 & A2 & A3) _ H. destruct (decode_status_state _ _ _ H) as (B1 & B2 & B3). split_and!; congruence. }
  destruct (recount_installing_nodes _ _) as [s| |] eqn:E4; cbn [obind]; [|done..]. intros [= <-].
  split; [apply H3|]. cbn. revert E4. unfold recount_installing_nodes.
  apply (ofold_invariant _ (fun s => srv_queues s = [] /\ uncounted s)); [|by destruct H3]. intros s1 p s2 H1 _.
  destruct (_ !! p) as [n|]; cbn [of_option obind]; [|done]. intros [= <-]. by destruct (p_is_building_cluster n).
Qed.

Lemma blank_listed w : blank w -> listed (w_jobs w) (srv_queues (w_server w)).
Proof. intros (Ej & Eq & _). rewrite Ej, Eq. by constructor. Qed.

(** The lists and counters of the server are complete. *)
Lemma complete_server_ok w w' :
  listed (w_jobs w) (srv_queues (w_server w)) -> uncounted (w_server w) -> complete_server w = Ret (Some w') ->
  listed (w_jobs w') (srv_queues (w_server w')) /\ server_ok (w_jobs w') (w_server w').
Proof.
  intros Hl (U1 & U2 & U3 & U4). unfold complete_server. set (s := select_running _ _).
  assert (Hs : server_ok (w_jobs w) s /\ srv_queues s = srv_queues (w_server w)).
  { split; [|done]. assert (Ej : srv_jobs s = mjoin (q_jobs <$> srv_queues (w_server w))).
    { change (srv_jobs s) with (fold_left (fun l q => l ++ q_jobs q) (srv_queues (w_server w)) (srv_jobs (w_server w))). rewrite U1.
      assert (H : forall qs l, fold_left (fun l q => l ++ q_jobs q) qs l = l ++ mjoin (q_jobs <$> qs)); [|by rewrite H].
      induction qs as [|q qs IH]; intros l; cbn; [by rewrite app_nil_r|]. by rewrite IH, <- app_assoc. }
    constructor; [by rewrite Ej|done| |done]. rewrite Ej. change (srv_sc s) with
      (fold_left (fun sc q => sc_add_assign sc (q_sc q)) (srv_queues (w_server w)) (srv_sc (w_server w))).
    rewrite U2. apply (sum_counts _ _ O (li_queues _ _ Hl) new_StateCount []). by intros []. }
  destruct Hs as [Hs Eq]. clearbody s.
  unfold select_nodes. destruct (node_filter _ _ _) as [chosen| |]; cbn [obind]; [|done..].
  match goal with |- context [obind ?e _] => destruct e as [w1| |] eqn:E1 end; cbn [obind]; [|done..].
  assert (H1 : w_jobs w1 = w_jobs w /\ server_ok (w_jobs w) (w_server w1) /\ srv_queues (w_server w1) = srv_queues (w_server w)).
  { revert E1. repeat case_match; intros [= <-]; cbn; split_and!; try done; by destruct Hs; constructor. }
  clear E1 Hs Eq s chosen. destruct H1 as (Ej & Hs & Eq).
  set (w2 := w1 <| w_server := _ |>). assert (H2 : w_jobs w2 = w_jobs w /\ server_ok (w_jobs w) (w_server w2) /\ srv_queues (w_server w2) = srv_queues (w_server w)).
  { split_and!; try done. by destruct Hs; constructor. }
  clearbody w2. destruct (ofold fill_node_jobs _ _) as [[w3|]| |] eqn:E3; cbn [obind]; [|done..].
  assert (H3 : w_jobs w3 = w_jobs w2 /\ w_server w3 = w_server w2).
  { refine (ofold_invariant _ (fun o => forall w3, o = Some w3 -> w_jobs w3 = w_jobs w2 /\ w_server w3 = w_server w2) _ _ _ _ _ E3 w3 eq_refl).
    - clear. intros [wa|] p o Ha _; [|by intros [= <-]]. cbn [fill_node_jobs]. destruct (w_nodes wa !! p) as [n|]; cbn [of_option obind]; [|done].
      destruct (node_jobs wa n) as [[n'|]| |]; cbn [obind]; [|by intros [= <-]|done..]. intros [= <-] wb [= <-]. by apply (Ha wa).
    - by intros ? [= <-]. }
  destruct (schedule_running w3) as [w4| |] eqn:E4; cbn [obind]; [|done..]. intros [= <-].
  unfold schedule_running in E4. destruct (decide _); [|done]. injection E4 as <-. destruct H2 as (Ej2 & Hs2 & Eq2), H3 as [Ej3 Es3].
  cbn. rewrite Ej3, Es3, Ej2, Eq2. split; [done|]. by destruct Hs2; constructor.
Qed.

Lemma query_server_listed rs w w' requests :
  query rs w = Ret (Some (w', requests)) -> listed (w_jobs w') (srv_queues (w_server w')) /\ server_ok (w_jobs w') (w_server w').
Proof.
  unfold query_server. destruct (sr_server rs) as [server|]; [|done].
  destruct (query_server_info _ _) as [s| |] eqn:E1; cbn [obind]; [|done..]. apply (query_server_info_blank _ _ _ ∅ (w_fairshare w) (w_db w) (w_registry w)) in E1.
  destruct (query_nodes _ _ _ _ _ _ _) as [[w1|]| |] eqn:E2; cbn [obind]; [|done..]. apply query_nodes_blank in E2; [|done].
  destruct (query_external_cache cache false w1) as [w2| |] eqn:E3; cbn [obind]; [|done..]. apply external_cache_blank in E3; [|done].
  destruct (ofold _ _ w2) as [w3| |] eqn:E4; cbn [obind]; [|done..].
  assert (H4 : blank w3).
  { refine (same_state_blank w2 w3 _ E3). refine (ofold_invariant _ (same_state w2) _ _ _ _ (same_state_refl w2) E4).
    intros wa p wb Ha _. unfold on_node. destruct (w_nodes wa !! p) as [n|]; cbn [of_option obind]; [|done]. by intros [= <-]. }
  destruct (query_queues _ _ _ _ _ _ _ _ _ _) as [[[w4 rq]|]| |] eqn:E5; cbn [obind]; [|done..].
  apply query_queues_listed in E5 as [H5 (qs & Es)]; [|by apply blank_listed].
  destruct (complete_server w4) as [[w5|]| |] eqn:E6; cbn [obind]; [|done..]. intros [= <- _].
  apply complete_server_ok in E6; [done|done|]. rewrite Es. apply H4.
Qed.
End Whole.

(** ** The jobs of other servers *)

Definition consistent (w : world) : Prop :=
  listed (w_jobs w) (srv_queues (w_server w)) /\ server_ok (w_jobs w) (w_server w).

Lemma join_insert {A} (ls : list (list A)) k a b :
  ls !! k = Some a -> mjoin (<[k := a ++ b]> ls) ≡ₚ mjoin ls ++ b.
Proof.
  revert k. induction ls as [|l ls IH]; intros [|k]; cbn; [done|done|intros [= ->]|intros H].
  - by rewrite <- !app_assoc, (Permutation_app_comm b).
  - by rewrite IH, app_assoc.
Qed.

Lemma merge_jobs_consistent k new w w1 w2 :
  consistent w -> queried k w w1 new -> merge_jobs k new w1 = Ret w2 -> consistent w2.
Proof.
  intros [Hl Hs] Hq. pose proof (queried_come _ _ _ _ Hq) as Hc. destruct (qd_frame _ _ _ _ Hq) as (Es & _).
  unfold merge_jobs. rewrite Es. destruct (srv_queues (w_server w) !! k) as [q|] eqn:Ek; cbn [of_option obind]; [|done].
  destruct new as [|p new].
  { intros [= <-]. assert (Ej : w_jobs w1 = w_jobs w).
    { apply map_eq. intros p. apply (cm_old _ _ _ _ Hc). by intros H%elem_of_nil. }
    unfold consistent. by rewrite Ej, Es. }
  set (l := p :: new) in *. intros [= <-]. cbn.
  pose proof (li_queues _ _ Hl k q Ek) as Hok. pose proof (lookup_lt_Some _ _ _ Ek) as Hlt. split; cbn.
  - eapply listed_come; [exact Hl|exact Hc|by apply list_lookup_insert_eq| | | | |]; cbn.
    + intros i Hi. by apply list_lookup_insert_ne.
    + unfold jobs_at_queue. by rewrite Ek.
    + done.
    + apply count_states_match. by intros [].
    + apply Hok.
  - destruct Hs as [Sj Sr Sc Sf]. constructor; cbn; [|done| |done].
    + rewrite list_fmap_insert. cbn. rewrite join_insert; [by rewrite Sj|]. by rewrite list_lookup_fmap, Ek.
    + apply count_states_match. by intros [].
Qed.

Section Fetch.
Context (read_ini : string -> option (list (string * list (string * string)))) (get_value : string -> option Z)
  (unknown_shares : Z) (files : string -> tree_files) (conf : config) (selstat : string -> string -> reply)
  (connect : ConnectionMgr -> string -> outcome (ConnectionMgr * Z)) (reset : ConnectionMgr -> string -> ConnectionMgr).

Lemma query_jobs_failed r k q w w' new :
  query_jobs read_ini get_value unknown_shares files r k q w = Ret (w', new, false) -> w' = w.
Proof.
  unfold query_jobs. destruct (rp_list r); [|by intros [= <-]]. by destruct (ofold _ _ _) as [[]| |].
Qed.

Lemma fetch_slave_consistent slave ks : forall m w m' w',
  consistent w -> fetch_slave read_ini get_value unknown_shares files selstat connect reset slave ks m w = Ret (m', w') -> consistent w'.
Proof.
  induction ks as [|k ks IH]; intros m w m' w' Hw; cbn [fetch_slave]; [by intros [= _ <-]|].
  destruct (srv_queues (w_server w) !! k) as [q|]; cbn [of_option obind]; [|done]. destruct (negb (is_global q)); [by apply IH|].
  destruct (connect m slave) as [[m1 c]| |]; [|by intros [= _ <-]|done].
  destruct (query_jobs _ _ _ _ _ _ _ _) as [[[w1 new] ok]| |] eqn:E; [|by intros [= _ <-]|done].
  destruct ok; cbn [negb].
  - destruct (merge_jobs k new w1) as [w2| |] eqn:E2; cbn [obind]; [|done..]. apply IH.
    eapply merge_jobs_consistent; [exact Hw|by eapply query_jobs_queried|exact E2].
  - apply query_jobs_failed in E as ->. by apply IH.
Qed.

Lemma fetch_slaves_consistent slaves : forall m w m' w',
  consistent w -> fetch_slaves read_ini get_value unknown_shares files selstat connect reset slaves m w = Ret (m', w') -> consistent w'.
Proof.
  induction slaves as [|slave slaves IH]; intros m w m' w' Hw; cbn [fetch_slaves]; [done|].
  destruct (String.eqb slave ""); [by intros [= _ <-]|].
  destruct (fetch_slave _ _ _ _ _ _ _ _ _ _ _) as [[m1 w1]| |] eqn:E; cbn [obind]; [|done..].
  apply IH. by eapply fetch_slave_consistent.
Qed.
End Fetch.

Lemma counts_running jobs : count_in JobRunning jobs = Z.of_nat (length (running_of jobs)).
Proof. done. Qed.

Lemma running_of_length jobs : (length (running_of jobs) <= length jobs)%nat.
Proof. apply length_filter. Qed.

Lemma jobs_of_length jobs l : (length (jobs_of jobs l) <= length l)%nat.
Proof. unfold jobs_of. induction l as [|p l IH]; [done|]. cbn [omap list_omap]. destruct (jobs !! p); cbn [length]; lia. Qed.

(** Every job is listed once. *)
Lemma listed_once jobs qs : listed jobs qs -> NoDup (mjoin (q_jobs <$> qs)).
Proof.
  intros [Hq _ _]. assert (H : forall qs k, (forall i q, qs !! i = Some q -> queue_ok jobs (k + i) q) ->
    NoDup (mjoin (q_jobs <$> qs)) /\ forall p, p ∈ mjoin (q_jobs <$> qs) -> exists j i, jobs !! p = Some j /\ queue j = Some i /\ (k <= i)%nat);
    [|by apply (H qs O)].
  clear. induction qs as [|q qs IH]; intros k Hq; cbn; [split; [constructor|by intros p H%elem_of_nil]|].
  destruct (IH (S k)) as [H1 H2]. { intros i q' Hi. replace (S k + i)%nat with (k + S i)%nat by lia. by apply Hq. }
  destruct (Hq O q eq_refl) as [Q1 Q2 _ _ _]. rewrite Nat.add_0_r in Q1. split.
  - apply NoDup_app. split_and!; [done| |done]. intros p Hp Hp2. destruct (Q1 p Hp) as (j & Ej & Eq).
    destruct (H2 p Hp2) as (j' & i & Ej' & Eq' & Hi). simplify_eq. lia.
  - intros p [Hp|Hp]%elem_of_app.
    + destruct (Q1 p Hp) as (j & Ej & Eq). exists j, k. auto.
    + destruct (H2 p Hp) as (j & i & Ej & Eq & Hi). exists j, i. split_and!; [done..|lia].
Qed.

Lemma running_fewer jobs l : (length (running_of (jobs_of jobs l)) <= length l)%nat.
Proof. pose proof (running_of_length (jobs_of jobs l)). pose proof (jobs_of_length jobs l). lia. Qed.

Lemma server_ok_wf jobs s : server_ok jobs s -> Z.of_nat (length (srv_jobs s)) < 2 ^ 31 -> server_wf s.
Proof.
  intros [Sj Sr Sc [Sg Su]] Hn. pose proof (running_fewer jobs (srv_jobs s)) as Hb. rewrite <- Sr in Hb.
  constructor; [|lia|by rewrite Sg; intros ?? H%lookup_empty_Some|by rewrite Su; intros ?? H%lookup_empty_Some].
  change (sc_running (srv_sc s)) with (counter JobRunning (srv_sc s)). rewrite Sc by done.
  rewrite counts_running, <- Sr. apply i32_id. split; lia.
Qed.

(** Whatever the replies, what is fetched is consistent. *)
Lemma fetch_servers_consistent read_ini get_value unknown_shares files conf cstat parse_prop selstat junk_total junk_free
    junk_nostarving junk_magrathea cached_host cache bootable connect reset master rs m w m' w' requests :
  fetch_servers read_ini get_value unknown_shares files conf selstat connect reset master
    (query_server read_ini get_value unknown_shares files conf cstat parse_prop selstat junk_total junk_free junk_nostarving
       junk_magrathea cached_host cache bootable rs) m w = Ret (m', Some (w', requests)) -> consistent w'.
Proof.
  unfold fetch_servers. destruct (master m (local_server conf)) as [[m1 c]| |]; [|done..].
  destruct (query_server _ _ _ _ _ _ _ _ _ _ _ _ _ _ _ _ _) as [[[w1 rq]|]| |] eqn:E; [|done..].
  apply query_server_listed in E as [Hl Hs].
  destruct (fetch_slaves _ _ _ _ _ _ _ _ _ _) as [[m2 w2]| |] eqn:E2; cbn [obind]; [|done..]. intros [= <- <- <-].
  by apply fetch_slaves_consistent in E2.
Qed.

(** C5: The server that [World::fetch_servers] has read, with the jobs of the other
    servers merged in, is consistent whatever the replies were: every job is listed
    exactly once, in the queue it belongs to and on the server; the running jobs of
    the server and of each queue are those of its jobs that run, and the counters of
    every state are those of its jobs, as [int]s; the caches are empty; and a job that
    is not queued is marked as unable to run.  Below 2^31 jobs the counters are exact,
    which the limits are checked with. *)
Theorem fetched_server_is_consistent read_ini get_value unknown_shares files conf cstat parse_prop selstat junk_total junk_free
    junk_nostarving junk_magrathea cached_host cache bootable connect reset master rs m w m' w' requests :
  fetch_servers read_ini get_value unknown_shares files conf selstat connect reset master
    (query_server read_ini get_value unknown_shares files conf cstat parse_prop selstat junk_total junk_free junk_nostarving
       junk_magrathea cached_host cache bootable rs) m w = Ret (m', Some (w', requests)) ->
  listed (w_jobs w') (srv_queues (w_server w')) /\ server_ok (w_jobs w') (w_server w') /\ NoDup (srv_jobs (w_server w')) /\
  (Z.of_nat (length (srv_jobs (w_server w'))) < 2 ^ 31 -> server_wf (w_server w')).
Proof.
  intros [Hl Hs]%fetch_servers_consistent. split_and!; [done|done| |by apply (server_ok_wf (w_jobs w'))].
  rewrite (so_jobs _ _ Hs). by eapply listed_once.
Qed.

(** ** The loop finds what it needs *)

Section Ready.
Context (parse : string -> pars_spec) (P : Z).

(** The requests of the jobs are those of their node specifications. *)
Definition jobs_bounded (jobs : gmap positive JobInfo) : Prop :=
  forall p j, jobs !! p = Some j ->
  spec_total_procs (parse (nodespec j)) = total_procs parse j /\ 0 <= total_procs parse j <= P.

Lemma cores_bounded jobs l p :
  0 <= P -> jobs_bounded jobs -> 0 <= cores parse p (running_of (jobs_of jobs l)) <= Z.of_nat (length l) * P /\
  Forall (fun j => 0 <= total_procs parse j) (running_of (jobs_of jobs l)).
Proof.
  intros HP Hj. unfold cores, jobs_of. induction l as [|k l [IH1 IH2]]; [by cbn; split; [lia|constructor]|]. cbn [omap list_omap length].
  destruct (jobs !! k) as [j|] eqn:E; [|split; [nia|done]]. destruct (Hj k j E) as [_ Hp]. unfold running_of in *.
  rewrite filter_cons. destruct (decide (state j = JobRunning)); [|split; [nia|done]].
  split; [|constructor; [lia|done]]. rewrite sumZ_cons. destruct (p j); nia.
Qed.

(** A world that was read, in which [n] jobs may start. *)
Lemma consistent_cycle_ok n w :
  0 <= n -> 0 <= P -> consistent w -> jobs_bounded (w_jobs w) ->
  Z.of_nat (length (srv_jobs (w_server w))) + n < 2 ^ 31 ->
  (Z.of_nat (length (srv_jobs (w_server w))) + n) * P < 2 ^ 31 -> cycle_ok parse P n w.
Proof.
  intros Hn HP [Hl Hs] Hj H1 H2. pose proof (so_running _ _ Hs) as Er.
  assert (Hlen : forall k q, srv_queues (w_server w) !! k = Some q -> (length (q_jobs q) <= length (srv_jobs (w_server w)))%nat).
  { intros k q Hk. rewrite (so_jobs _ _ Hs). revert k Hk. generalize (srv_queues (w_server w)) as qs.
    induction qs as [|q' qs IH]; intros [|k]; cbn; [done|done|intros [= <-]|intros Hk]; rewrite length_app; [lia|].
    specialize (IH k Hk). unfold mjoin, fmap in *. lia. }
  assert (Hq : forall k q, srv_queues (w_server w) !! k = Some q -> queue_wf parse q /\
    Z.of_nat (length (q_running_jobs q)) + n < 2 ^ 31 /\ cores parse (fun _ => true) (q_running_jobs q) + n * P < 2 ^ 31).
  { intros k q Hk. specialize (Hlen k q Hk). destruct (li_queues _ _ Hl k q Hk) as [_ _ Qr Qc (F1 & F2 & F3 & F4 & F5)].
    pose proof (running_fewer (w_jobs w) (q_jobs q)) as Hb. destruct (cores_bounded (w_jobs w) (q_jobs q) (fun _ => true) HP Hj) as [Hc Hf].
    rewrite <- Qr in Hb, Hc, Hf. assert (cores parse (fun _ => true) (q_running_jobs q) + n * P < 2 ^ 31) by nia.
    split; [|split; [lia|done]]. constructor; rewrite ?F1, ?F2, ?F3, ?F4, ?F5; try (by intros ?? H%lookup_empty_Some); try done.
    - change (sc_running (q_sc q)) with (counter JobRunning (q_sc q)). rewrite Qc by done. rewrite counts_running, <- Qr. apply i32_id. split; lia.
    - split; [nia|lia]. }
  constructor.
  - apply (server_ok_wf (w_jobs w)); [done|lia].
  - rewrite Er. pose proof (running_fewer (w_jobs w) (srv_jobs (w_server w))). lia.
  - apply Forall_lookup. intros k q Hk. by apply (Hq k).
  - intros k q Hk. by apply (Hq k).
  - exact Hj.
Qed.

Definition queue_room (n : Z) (q : queue_info) : Prop :=
  queue_wf parse q /\ Z.of_nat (length (q_running_jobs q)) + n < 2 ^ 31 /\ cores parse (fun _ => true) (q_running_jobs q) + n * P < 2 ^ 31.

Lemma cycle_ok_queues n w : cycle_ok parse P n w -> Forall (queue_room n) (srv_queues (w_server w)).
Proof.
  intros [_ _ Hq Hr _]. apply Forall_lookup. intros k q Hk. split; [|by eapply Hr].
  by apply (proj1 (Forall_lookup _ _) Hq k).
Qed.

(** What the order of jobs and queues leaves. *)
Lemma cycle_ok_reordered n w w' :
  cycle_ok parse P n w -> (server_wf (w_server w) -> server_wf (w_server w')) -> running_jobs (w_server w') = running_jobs (w_server w) ->
  Forall (queue_room n) (srv_queues (w_server w')) -> jobs_bounded (w_jobs w') -> cycle_ok parse P n w'.
Proof.
  intros [Hs Hr _ _ _] Hs' Er Hq Hj. rewrite Forall_lookup in Hq. constructor; [auto|by rewrite Er| | |exact Hj].
  - apply Forall_lookup. intros k q Hk. by destruct (Hq k q Hk).
  - intros k q Hk. by destruct (Hq k q Hk).
Qed.

Lemma sort_queues_ok n w : cycle_ok parse P n w -> cycle_ok parse P n (sort_queues_by_priority w).
Proof.
  intros Hc. pose proof (cycle_ok_queues n w Hc) as Hq. apply (cycle_ok_reordered n w); [done|by intros []; constructor|done| |]; cbn.
  - rewrite isort_perm. assert (E : (imap pair (srv_queues (w_server w))).*2 = srv_queues (w_server w)); [|by rewrite E].
    apply list_eq. intros i. rewrite list_lookup_fmap, list_lookup_imap. by destruct (srv_queues (w_server w) !! i).
  - intros p j. rewrite lookup_fmap_Some. intros (j0 & <- & E). exact (co_jobs _ _ _ _ Hc p j0 E).
Qed.

Lemma sort_queue_jobs_ok n keys w k w' : cycle_ok parse P n w -> sort_queue_jobs keys w k = Ret w' -> cycle_ok parse P n w'.
Proof.
  intros Hc. pose proof (cycle_ok_queues n w Hc) as Hq. unfold sort_queue_jobs.
  destruct (srv_queues (w_server w) !! k) as [q|] eqn:Ek; cbn [of_option obind]; [|done].
  destruct (sort_job_keys w keys (q_jobs q)) as [l| |]; cbn [obind]; [|done..]. intros [= <-].
  apply (cycle_ok_reordered n w); [done|by intros []; constructor|done| |exact (co_jobs _ _ _ _ Hc)]; cbn.
  apply Forall_insert; [done|]. rewrite Forall_lookup in Hq. destruct (Hq k q Ek) as [[] ?]. by split; [constructor|].
Qed.

Lemma sort_all_jobs_ok n conf cstat w w' : cycle_ok parse P n w -> sort_all_jobs conf cstat w = Ret w' -> cycle_ok parse P n w'.
Proof.
  intros Hc. unfold sort_all_jobs. destruct (sort_keys conf cstat) as [keys| |]; cbn [obind]; [|done..].
  destruct keys as [|key keys]; [done|]. set (all := key :: keys).
  assert (H : (if by_queue cstat || round_robin cstat then ofold (sort_queue_jobs all) (seq 0 (length (srv_queues (w_server w)))) w
    else let! jobs := sort_job_keys w all (srv_jobs (w_server w)) in Ret (w <| w_server := w_server w <| srv_jobs := jobs |> |>)) = Ret w' ->
    cycle_ok parse P n w').
  { destruct (_ || _).
    - apply (ofold_invariant _ (cycle_ok parse P n)); [|done]. intros w1 k w2 H1 _. by apply sort_queue_jobs_ok.
    - destruct (sort_job_keys _ _ _) as [l| |]; cbn [obind]; [|done..]. intros [= <-].
      apply (cycle_ok_reordered n w); [done|by intros []; constructor|done|exact (cycle_ok_queues n w Hc)|exact (co_jobs _ _ _ _ Hc)]. }
  destruct key; first [exact H | by intros [= <-]].
Qed.
(** Neither the charges nor the sorting take anything away. *)
Lemma init_cycle_ok n fuel conf cstat ks w w2 ks2 cur out :
  cycle_ok parse P n w -> init_scheduling_cycle fuel conf cstat ks w = Ret (w2, ks2, cur, out) ->
  cycle_ok parse P n w2 /\ cur = mkCursor 0 (-1).
Proof.
  intros Hc. unfold init_scheduling_cycle. destruct (update_fairshare _ _ _ _ _ _ _) as [[[fs ds] o]| |]; cbn [obind]; [|done..].
  set (w4 := w <| w_fairshare := fs |>). assert (H4 : cycle_ok parse P n w4) by (by destruct Hc; constructor). clearbody w4.
  set (w5 := if sort_queues cstat then _ else _). assert (H5 : cycle_ok parse P n w5) by (unfold w5; destruct (sort_queues cstat); [by apply sort_queues_ok|done]).
  clearbody w5. destruct (sort_all_jobs conf cstat w5) as [w6| |] eqn:E6; cbn [obind]; [|done..].
  apply sort_all_jobs_ok with (n := n) in E6; [|done]. unfold next_job_init. destruct (round_robin cstat); cbn [obind]; [done|].
  by intros [= <- _ <- _].
Qed.
End Ready.

(** A cycle starts ready: whatever was read from the servers, when the jobs and
    those that may start have room in the counters, the world that
    [init_scheduling_cycle] leaves - usage charged, queues and jobs sorted - is one in
    which the loop keeps the limits and ends, and the cursor is at its start. *)
Theorem cycle_starts_ready read_ini get_value unknown_shares files conf cstat parse_prop selstat junk_total junk_free
    junk_nostarving junk_magrathea cached_host cache bootable connect reset master rs m w m' w' requests parse P n fuel ks w2 ks2 cur out :
  fetch_servers read_ini get_value unknown_shares files conf selstat connect reset master
    (query_server read_ini get_value unknown_shares files conf cstat parse_prop selstat junk_total junk_free junk_nostarving
       junk_magrathea cached_host cache bootable rs) m w = Ret (m', Some (w', requests)) ->
  0 <= n -> 0 <= P -> jobs_bounded parse P (w_jobs w') ->
  Z.of_nat (length (srv_jobs (w_server w'))) + n < 2 ^ 31 -> (Z.of_nat (length (srv_jobs (w_server w'))) + n) * P < 2 ^ 31 ->
  init_scheduling_cycle fuel conf cstat ks w' = Ret (w2, ks2, cur, out) ->
  cycle_ok parse P n w2 /\ cur = mkCursor 0 (-1).
Proof.
  intros Hw%fetch_servers_consistent Hn HP Hj Hb1 Hb2. apply init_cycle_ok. by apply consistent_cycle_ok.
Qed.

(** ** An example

    A server with a running and a queued job; another server has a third one. *)

Definition read_conf : config :=
  RunLimits.example_conf <| local_server := "srv"%string |> <| slave_servers := ["srv2"; ""]%string |> <| non_prime_sort := [HIGH_PRIORITY_FIRST] |>.
Definition read_status : status := zero_status <| sort_by := SortNonPrime |>.
Definition an_attr (name value : string) : attrl := mkAttr name "" value.
Definition read_replies : server_replies :=
  mkReplies (Some (mkBatch "srv" [an_attr "max_running" "3"]))
    (mkStatReply (Some [mkBatch "q" [an_attr "queue_type" "Execution"; an_attr "started" "True"; an_attr "is_transit" "True"]]) 0)
    (mkStatReply (Some [mkBatch "n1" []]) 0).
Definition read_jobs (server q : string) : reply :=
  if String.eqb server "srv" then
    mkStatReply (Some [mkBatch "1.srv" [an_attr "job_state" "R"; mkAttr "Resource_List" "processed_nodes" "1:ppn=2"];
      mkBatch "2.srv" [an_attr "job_state" "Q"; mkAttr "Resource_List" "processed_nodes" "1:ppn=2"]]) 0
  else mkStatReply (Some [mkBatch "7.srv2" [an_attr "job_state" "Q"; mkAttr "Resource_List" "processed_nodes" "1:ppn=2"]]) 0.
Definition read_world : world := mkW (new_server_info "") ∅ ∅ (mkFairshare ∅ ∅) ∅ (mkPropRegistry ∅ [] [] []).
Definition share_files (_ : string) : tree_files := mkTreeFiles (Some example_shares) None None.
Definition always_connected (m : ConnectionMgr) (host : string) : outcome (ConnectionMgr * Z) := Ret (m, 0).

Definition read_server : outcome (ConnectionMgr * option (world * list alter_request)) :=
  fetch_servers (fun _ => None) (fun _ => None) 10 share_files read_conf read_jobs always_connected (fun m _ => m) always_connected
    (query_server (fun _ => None) (fun _ => None) 10 share_files read_conf read_status (fun s => mkProp s None) read_jobs 0 0 false MagratheaStateNone
       (fun _ => None) (fun _ _ => None) (fun _ => None) read_replies) (mkConns ∅ "" []) read_world.

(** What holds of the world that is read. *)
Definition reads (P : world -> Prop) : Prop := match read_server with Ret (_, Some (w, _)) => P w | _ => False end.

Lemma reads_intro (f : world -> bool) (P : world -> Prop) :
  match read_server with Ret (_, Some (w, _)) => f w | _ => false end = true ->
  (forall m w rs, read_server = Ret (m, Some (w, rs)) -> f w = true -> P w) -> reads P.
Proof. unfold reads. intros H HP. destruct read_server as [[m [[w rs]|]]| |]; [by eapply HP|done..]. Qed.

Lemma fetched_server_is_consistent_witness :
  reads (fun w => length (srv_jobs (w_server w)) = 3%nat /\ sc_running (srv_sc (w_server w)) = 1 /\ NoDup (srv_jobs (w_server w)) /\
    server_wf (w_server w)).
Proof.
  apply (reads_intro (fun w => (length (srv_jobs (w_server w)) =? 3)%nat && (sc_running (srv_sc (w_server w)) =? 1))).
  - vm_compute. reflexivity.
  - intros m w rs H [Hn%Nat.eqb_eq Hr%Z.eqb_eq]%andb_true_iff.
    destruct (fetched_server_is_consistent _ _ _ _ _ _ _ _ _ _ _ _ _ _ _ _ _ _ _ _ _ _ _ _ H) as (_ & _ & Ho & Hw).
    split; [exact Hn|]. split; [exact Hr|]. split; [exact Ho|]. apply Hw. rewrite Hn. reflexivity.
Defined.

Definition bounded_in (w : world) : bool :=
  forallb (fun e : positive * JobInfo => (spec_total_procs (toy_parse_nodespec (nodespec e.2)) =? total_procs toy_parse_nodespec e.2) &&
    (0 <=? total_procs toy_parse_nodespec e.2) && (total_procs toy_parse_nodespec e.2 <=? 2)) (map_to_list (w_jobs w)).

Lemma bounded_in_spec w : bounded_in w = true -> jobs_bounded toy_parse_nodespec 2 (w_jobs w).
Proof.
  intros H p j Hj. apply forallb_forall with (x := (p, j)) in H; [|by apply list_elem_of_In, elem_of_map_to_list].
  rewrite !andb_true_iff, Z.eqb_eq, !Z.leb_le in H. cbn [snd] in H. tauto.
Qed.

Definition ready_cycle (w : world) : outcome (world * kept_state * job_cursor * list (string * string)) :=
  init_scheduling_cycle 3 read_conf read_status (mkKept [] (mkDecay None 0)) w.

Lemma cycle_starts_ready_witness :
  reads (fun w => match ready_cycle w with
    | Ret (w', _, cur, _) => cycle_ok toy_parse_nodespec 2 100 w' /\ cur = mkCursor 0 (-1)
    | _ => False
    end).
Proof.
  apply (reads_intro (fun w => bounded_in w && (length (srv_jobs (w_server w)) =? 3)%nat &&
    match ready_cycle w with Ret _ => true | _ => false end)).
  - vm_compute. reflexivity.
  - intros m w rs H [[Hb Hn%Nat.eqb_eq]%andb_true_iff Hr]%andb_true_iff.
    destruct (ready_cycle w) as [[[[w' ks] cur] out]| |] eqn:E; [|discriminate Hr|discriminate Hr].
    assert (Hb1 : Z.of_nat (length (srv_jobs (w_server w))) + 100 < 2 ^ 31) by (rewrite Hn; reflexivity).
    assert (Hb2 : (Z.of_nat (length (srv_jobs (w_server w))) + 100) * 2 < 2 ^ 31) by (rewrite Hn; reflexivity).
    pose proof (cycle_starts_ready _ _ _ _ _ _ _ _ _ _ _ _ _ _ _ _ _ _ _ _ _ _ _ _ toy_parse_nodespec 2 100 3%nat
      (mkKept [] (mkDecay None 0)) w' ks cur out H) as Hready.
    apply Hready; [lia|lia|exact (bounded_in_spec w Hb)|exact Hb1|exact Hb2|exact E].
Defined.
