(* ===== verification/FairshareOrder.v ===== *)
(** * The order of fairshare

    The job chosen next is one with the highest priority of its queue and, among
    these, the highest percentage for its usage; the comparator of the jobs of
    the plan is a strict weak order, as the sort requires. *)

From Stdlib Require Import ZArith Lia Bool Ascii String SpecFloat.
From S2P Require Import Prelude CString CFloat MiscHelpers DataTypes JobInfo FairshareTree FairshareShape FairshareSpec FairshareUse Fairshare.

Open Scope Z_scope.
Local Open Scope sched_scope.

(** ** The order of the values *)

Definition value_lt (x y : spec_float) : bool := lex_then fkey (fun _ _ => false) x y.

Lemma value_lt_flt x y : not_nan x = true -> not_nan y = true -> flt x y = value_lt x y.
Proof. intros Hx Hy. rewrite flt_lex by done. unfold value_lt, lex_then. by destruct (lex (fkey x) (fkey y)). Qed.

Lemma value_lt_swo : StrictWeakOrder value_lt.
Proof. apply lex_then_swo, trivial_swo. Qed.

Lemma value_lt_irrefl x : value_lt x x = false.
Proof. apply (swo_irrefl _ value_lt_swo). Qed.

Section Order.
Context (gs : groups).

(** The value of a job, when its group is there. *)
Definition value_of (j : JobInfo) : spec_float := match fair_value gs j with Ret v => v | _ => S754_nan end.

(** The group is there, and the value is a number that is not below zero. *)
Record valued (j : JobInfo) : Prop := {
  vd_value : fair_value gs j = Ret (value_of j);
  vd_num : not_nan (value_of j) = true;
  vd_pos : flt (fof_Z (F := binary32) (-1)) (value_of j) = true
}.

(** ** The next job *)

Section Next.
Context {A : Type} (job_of : A -> JobInfo).

(** The candidates: the first job of each user that can run. *)
Definition candidates (users : list (list (Z * A))) : list (Z * A) :=
  users ≫= fun d => match pop_front job_of d with [] => [] | j :: _ => [j] end.

(** [b] is the best of the candidates seen. *)
Definition best_of (seen : list (Z * A)) (b : best A) : Prop :=
  match bs_max b with
  | None => seen = [] /\ b = no_best
  | Some j => (bs_priority b, j) ∈ seen /\ bs_value b = value_of (job_of j) /\
      forall p k, (p, k) ∈ seen -> p <= bs_priority b /\ (p = bs_priority b -> flt (value_of (job_of j)) (value_of (job_of k)) = false)
  end.

Lemma extract_user_spec seen b user :
  (forall p k, (p, k) ∈ seen ++ candidates [user] -> -1 <= p /\ valued (job_of k)) ->
  best_of seen b -> exists b', extract_user job_of gs b user = Ret b' /\ best_of (seen ++ candidates [user]) b'.
Proof.
  unfold candidates. cbn [mbind list_bind]. intros Hok Hb. unfold extract_user.
  destruct (pop_front job_of user) as [|[prio j] rest]; cbn [app] in *; [exists b; by rewrite app_nil_r|].
  destruct (Hok prio j) as [Hp [Hv Hn Hpos]]; [apply elem_of_app; right; by left|].
  assert (Hlast : forall p k, (p, k) ∈ seen ++ [(prio, j)] <-> (p, k) ∈ seen \/ (p = prio /\ k = j)).
  { intros p k. rewrite elem_of_app, list_elem_of_singleton. split; intros [?|H]; auto; [right; by injection H as -> ->|right; by destruct H as [-> ->]]. }
  unfold best_of in Hb. destruct (bs_max b) as [m|] eqn:Em.
  - destruct Hb as (Hin & Hbv & Hmax). destruct (Hok _ _ (proj2 (elem_of_app _ _ _) (or_introl Hin))) as [_ [_ Hmn _]].
    destruct (Z.ltb_spec prio (bs_priority b)) as [Hlt|Hge].
    + exists b. split; [done|]. unfold best_of. rewrite Em. split; [apply elem_of_app; by left|]. split; [done|].
      intros p k [Hk|[-> ->]]%Hlast; [by apply Hmax|]. split; lia.
    + destruct (Z.gtb_spec prio (bs_priority b)) as [Hgt|Hle]; rewrite Hv; cbn [obind].
      * cbn [bs_value]. rewrite Hpos.
        eexists. split; [done|]. unfold best_of. cbn [bs_max bs_priority bs_value].
        split; [apply Hlast; by right|]. split; [done|]. intros p k [Hk|[-> ->]]%Hlast; [|split; [lia|intros _; apply flt_irrefl]].
        destruct (Hmax p k Hk). split; lia.
      * assert (prio = bs_priority b) as -> by lia. rewrite Hbv. destruct (flt (value_of (job_of m)) (value_of (job_of j))) eqn:Ef.
        -- eexists. split; [done|]. unfold best_of. cbn [bs_max bs_priority bs_value]. split; [apply Hlast; by right|]. split; [done|].
           intros p k [Hk|[-> ->]]%Hlast; [|split; [lia|intros _; apply flt_irrefl]].
           destruct (Hmax p k Hk) as [H1 H2]. split; [done|]. intros ->.
           destruct (Hok _ _ (proj2 (elem_of_app _ _ _) (or_introl Hk))) as [_ [_ Hkn _]]. specialize (H2 eq_refl).
           rewrite value_lt_flt in * by done. destruct (value_lt (value_of (job_of j)) (value_of (job_of k))) eqn:Ejk; [|done].
           rewrite <- H2. symmetry. by apply (swo_trans _ value_lt_swo _ (value_of (job_of j))).
        -- exists b. split; [done|]. unfold best_of. rewrite Em. split; [apply elem_of_app; by left|]. split; [done|].
           intros p k [Hk|[-> ->]]%Hlast; [by apply Hmax|]. split; [lia|done].
  - destruct Hb as [-> ->]. unfold no_best. cbn [bs_priority bs_value]. destruct (Z.ltb_spec prio (-1)); [lia|].
    rewrite Hv. cbn [obind].
    assert (E : forall v : spec_float, bs_value (if prio >? -1 then mkBest (A := A) None v prio else mkBest None v (-1)) = v /\
      bs_priority (if prio >? -1 then mkBest (A := A) None v prio else mkBest None v (-1)) = prio).
    { intros v. destruct (Z.gtb_spec prio (-1)); [done|]. split; [done|]. cbn. lia. }
    destruct (E (fof_Z (F := binary32) (-1))) as [-> ->]. rewrite Hpos. eexists. split; [done|]. unfold best_of. cbn [bs_max bs_priority bs_value app].
    split; [by left|]. split; [done|]. intros p k [= -> ->]%list_elem_of_singleton. split; [lia|]. intros _. apply flt_irrefl.
Qed.

Lemma candidates_cons u us : candidates (u :: us) = candidates [u] ++ candidates us.
Proof. unfold candidates. cbn [mbind list_bind]. by rewrite app_nil_r. Qed.

Lemma extract_users_spec users : forall seen b,
  (forall p k, (p, k) ∈ seen ++ candidates users -> -1 <= p /\ valued (job_of k)) -> best_of seen b ->
  exists b', ofold (extract_user job_of gs) users b = Ret b' /\ best_of (seen ++ candidates users) b'.
Proof.
  induction users as [|u us IH]; intros seen b Hok Hb; [exists b; by rewrite app_nil_r|].
  rewrite candidates_cons, (assoc_L (++)) in *.
  destruct (extract_user_spec seen b u) as (b1 & E & Hb1); [|done|].
  - intros p k Hk. apply Hok. apply elem_of_app. by left.
  - cbn [ofold]. rewrite E. by apply IH.
Qed.

(** C35: the next job by fairshare is the first job that can run of some user, in a
    queue with the highest priority of all such jobs, and with the highest
    percentage for its usage among these; there is none only when no user has a
    job that can run.  Queue priorities below -1 are left out. *)
Theorem next_fair_job_is_best (users : list (list (Z * A)))
    (Hok : forall p k, (p, k) ∈ candidates users -> -1 <= p /\ valued (job_of k)) :
  exists r, extract_fairshare job_of gs users = Ret r /\
    match r with
    | Some j => exists prio, (prio, j) ∈ candidates users /\ runnable job_of (prio, j) = true /\
        forall p k, (p, k) ∈ candidates users -> p <= prio /\ (p = prio -> flt (value_of (job_of j)) (value_of (job_of k)) = false)
    | None => forall d, d ∈ users -> Forall (fun j => runnable job_of j = false) d
    end.
Proof.
  unfold extract_fairshare. destruct (extract_users_spec users [] no_best Hok) as (b & -> & Hb); [by split|]. cbn [obind app] in *.
  exists (bs_max b). split; [done|]. unfold best_of in Hb.
  assert (Hpop : forall d, match pop_front job_of d with [] => Forall (fun j => runnable job_of j = false) d | j :: _ => runnable job_of j = true end).
  { induction d as [|j d IH]; [constructor|]. cbn [pop_front]. destruct (runnable job_of j) eqn:E; [done|]. destruct (pop_front job_of d); [by constructor|done]. }
  destruct (bs_max b) as [j|].
  - destruct Hb as (Hin & _ & Hmax). exists (bs_priority b). split; [done|]. split; [|done].
    unfold candidates in Hin. apply list_elem_of_bind in Hin as (d & Hj & _). specialize (Hpop d).
    destruct (pop_front job_of d) as [|j' d']; [by apply elem_of_nil in Hj|]. by apply list_elem_of_singleton in Hj as ->.
  - destruct Hb as [Hc _]. intros d Hd. specialize (Hpop d). destruct (pop_front job_of d) as [|j d'] eqn:Ed; [done|].
    assert (Hj : j ∈ candidates users); [|rewrite Hc in Hj; by apply elem_of_nil in Hj].
    unfold candidates. apply list_elem_of_bind. exists d. split; [|done]. rewrite Ed. by left.
Qed.
End Next.

(** ** The comparator *)

(** Running jobs first, then queued ones, then the others. *)
Definition plan_class (j : JobInfo) : Z :=
  if bool_decide (state j = JobRunning) then 0 else if bool_decide (state j = JobQueued) then 1 else 2.

(** The queued jobs have values. *)
Definition comparable (j : JobInfo) : Prop := state j = JobQueued -> fair_value gs j = Ret (value_of j) /\ not_nan (value_of j) = true.

(** By class; queued jobs by value, the highest first; then by number. *)
Definition plan_lt (i j : JobInfo) : bool :=
  then_lt (lex_then (fun j => [plan_class j]) (fun _ _ => false))
    (then_lt (fun i j => value_lt (if plan_class j =? 1 then value_of j else fzero) (if plan_class i =? 1 then value_of i else fzero))
      (fun i j => job_number i <? job_number j)) i j.

Lemma plan_lt_swo : StrictWeakOrder plan_lt.
Proof.
  apply then_lt_swo; [apply lex_then_swo, trivial_swo|]. apply then_lt_swo.
  - apply (swo_flip (fun i j => value_lt (if plan_class i =? 1 then value_of i else fzero) (if plan_class j =? 1 then value_of j else fzero))).
    apply (swo_on (fun j => if plan_class j =? 1 then value_of j else fzero)), value_lt_swo.
  - apply (swo_ext (lex_then (fun j => [job_number j]) (fun _ _ => false))); [|apply lex_then_swo, trivial_swo].
    intros i j. unfold lex_then. simpl. unfold Z.ltb. by destruct (job_number i ?= job_number j).
Qed.

Lemma feq_lex x y :
  not_nan x = true -> not_nan y = true -> feq x y = match lex (fkey x) (fkey y) with Eq => true | _ => false end.
Proof.
  unfold feq, SFeqb. destruct x as [[]|[]| |[] m e], y as [[]|[]| |[] m' e']; intros Hx Hy; try done; simpl.
  all: rewrite ?Z.compare_opp, ?(Z.compare_antisym e e'); destruct (e ?= e'); simpl; try done;
    fold (Pos.compare m m'); by destruct (Pos.compare m m').
Qed.

Lemma feq_value x y : not_nan x = true -> not_nan y = true -> feq x y = negb (value_lt x y) && negb (value_lt y x).
Proof.
  intros Hx Hy. rewrite feq_lex by done. unfold value_lt, lex_then. rewrite (lex_antisym (fkey x) (fkey y)).
  by destruct (lex (fkey x) (fkey y)).
Qed.

(** C36: the comparator with which the jobs of the plan are sorted is defined
    whenever the queued jobs have values, and is then a strict weak order: running
    jobs first, then the queued ones by value, then the others, and by the number
    of the job where these do not decide. *)
Theorem compare_fairshare_orders :
  StrictWeakOrder plan_lt /\
  (forall i j, comparable i -> comparable j -> compare_fairshare gs i j = Ret (plan_lt i j)) /\
  (forall i j, plan_lt i j = true -> plan_class i <= plan_class j) /\
  (forall i j, plan_class i = plan_class j -> plan_class i <> 1 -> plan_lt i j = (job_number i <? job_number j)).
Proof.
  split; [apply plan_lt_swo|]. split; [|split].
  - intros i j Hi Hj. unfold compare_fairshare, plan_lt, then_lt, lex_then, plan_class.
    destruct (decide (state i = JobRunning)) as [Ei|Ei], (decide (state j = JobRunning)) as [Ej|Ej];
      rewrite ?(bool_decide_true _ Ei), ?(bool_decide_false _ Ei), ?(bool_decide_true _ Ej), ?(bool_decide_false _ Ej);
      simpl; try done.
    + by destruct (bool_decide (state j = JobQueued)).
    + by destruct (bool_decide (state i = JobQueued)).
    + destruct (decide (state i = JobQueued)) as [Qi|Qi], (decide (state j = JobQueued)) as [Qj|Qj];
        rewrite ?(bool_decide_true _ Qi), ?(bool_decide_false _ Qi), ?(bool_decide_true _ Qj), ?(bool_decide_false _ Qj);
        simpl; try done.
      * destruct (Hi Qi) as [-> Ni], (Hj Qj) as [-> Nj]. cbn [obind]. unfold fgt. fold (flt (value_of j) (value_of i)).
        rewrite value_lt_flt, feq_value by done. destruct (value_lt (value_of j) (value_of i)) eqn:E; [done|].
        rewrite andb_true_r. by destruct (value_lt (value_of i) (value_of j)); simpl; [|destruct (_ <? _)].
  - intros i j. unfold plan_lt, then_lt, lex_then. simpl.
    destruct (Z.compare_spec (plan_class i) (plan_class j)); try lia.
    destruct (Z.compare_spec (plan_class j) (plan_class i)); lia || done.
  - intros i j E Hne. unfold plan_lt, then_lt, lex_then. simpl. rewrite E, Z.compare_refl.
    rewrite (proj2 (Z.eqb_neq (plan_class j) 1)) by congruence. by rewrite ?value_lt_irrefl.
Qed.
End Order.

(** ** An example

    Alice has used more of a smaller share; the first job of Bob is running. *)

Definition queued_job (id : string) (x : positive) : JobInfo := new_JobInfo id <| state := JobQueued |> <| ginfo := Some x |>.
Definition alices : JobInfo := queued_job "1.srv" 4.
Definition bobs : JobInfo := queued_job "3.srv" 5.
Definition example_users : list (list (Z * JobInfo)) := [[(0, alices)]; [(0, bobs <| state := JobRunning |>); (0, bobs)]].

Lemma next_fair_job_is_best_witness :
  exists j, extract_fairshare id example_groups example_users = Ret (Some j) /\ job_id j = "3.srv"%string /\
    runnable id (0, j) = true /\ forall k, (0, k) ∈ candidates id example_users -> flt (value_of example_groups j) (value_of example_groups k) = false.
Proof.
  destruct (next_fair_job_is_best example_groups id example_users) as (r & E & H).
  { assert (Ec : candidates id example_users = [(0, alices); (0, bobs)]) by (vm_compute; reflexivity). rewrite Ec.
    intros p k Hk. set_unfold. destruct Hk as [[= -> ->]|[[= -> ->]|[]]]; (split; [lia|split; vm_compute; reflexivity]). }
  assert (Er : r = Some bobs) by (revert E; vm_compute; intros E; injection E as <-; reflexivity). subst r.
  exists bobs. split; [exact E|]. split; [reflexivity|]. destruct H as (prio & Hin & Hrun & Hmax). split; [vm_compute; reflexivity|].
  intros k Hk. destruct (Hmax 0 k Hk) as [H1 H2]. apply H2. destruct (Hmax prio bobs Hin) as [_ _].
  assert (Ec : candidates id example_users = [(0, alices); (0, bobs)]) by (vm_compute; reflexivity). rewrite Ec in Hin.
  set_unfold. destruct Hin as [[= -> _]|[[= -> ]|[]]]; reflexivity.
Defined.
