(* ===== verification/FairshareCycle.v ===== *)
(** * Fairshare from cycle to cycle

    The trees stay trees, apart from each other; the usage of all groups is
    halved once for each half-life; the job chosen next is one with the highest
    priority and value; the order of the jobs in the plan is a strict weak one. *)

From Stdlib Require Import ZArith Lia Bool Ascii String SpecFloat.
From S2P Require Import Prelude CString CFloat MiscHelpers Config DataTypes JobInfo FairshareTree FairshareShape FairshareSpec FairshareUse Fairshare.

Open Scope Z_scope.
Local Open Scope sched_scope.

Implicit Types (gs : groups) (f c : forest) (x y : positive).

(** ** The trees of the scheduler *)

(** The groups of the trees [ts]; [F] gives the forest below a root. *)
Definition all_keys (F : positive -> forest) (ts : list (string * positive)) : list positive :=
  ts ≫= fun t => snd t :: keys (F (snd t)).

Record trees_ok (fs : fairshare) (F : positive -> forest) : Prop := {
  to_fair : forall name root, fs_trees fs !! name = Some root -> fair_tree (fs_groups fs) root (F root);
  to_apart : NoDup (all_keys F (map_to_list (fs_trees fs)))
}.

Lemma all_keys_perm F ts ts' : ts ≡ₚ ts' -> all_keys F ts ≡ₚ all_keys F ts'.
Proof. intros H. unfold all_keys. by rewrite H. Qed.

Lemma sorted_trees_perm fs : sorted_trees fs ≡ₚ map_to_list (fs_trees fs).
Proof. apply isort_perm. Qed.

Lemma elem_of_sorted fs name root : (name, root) ∈ sorted_trees fs <-> fs_trees fs !! name = Some root.
Proof. rewrite sorted_trees_perm. apply elem_of_map_to_list. Qed.

Lemma all_keys_ext F F' ts : (forall t, t ∈ ts -> F' (snd t) = F (snd t)) -> all_keys F' ts = all_keys F ts.
Proof.
  unfold all_keys. induction ts as [|t ts IH]; intros H; [done|]. cbn. rewrite (H t) by (by left).
  f_equal. f_equal. apply IH. intros t' Ht. apply H. by right.
Qed.

Lemma all_keys_cons F t ts : all_keys F (t :: ts) = (snd t :: keys (F (snd t))) ++ all_keys F ts.
Proof. done. Qed.

Lemma elem_of_all_keys F ts x : x ∈ all_keys F ts <-> exists t, t ∈ ts /\ x ∈ snd t :: keys (F (snd t)).
Proof.
  unfold all_keys. rewrite list_elem_of_bind. split; intros (t & H1 & H2); by exists t.
Qed.

(** A change that leaves the groups of a tree in their places leaves the tree. *)
Lemma fair_tree_same gs gs' root f :
  (forall x, x ∈ root :: keys f -> match gs !! x, gs' !! x with Some g, Some g' => same_place g g' | None, None => True | _, _ => False end) ->
  fair_tree gs root f -> fair_tree gs' root f.
Proof.
  intros Hs [Ht Hnd (gr & Hgr & Hn & Hp) (u & Hu & Hun)]. split.
  - eapply tree_at_ext; [|exact Ht]. intros x g Hx Hg. cbn [keys app] in Hx. specialize (Hs x Hx). rewrite Hg in Hs.
    destruct (gs' !! x) as [g'|]; [|done]. exists g'. by destruct Hs as (_ & _ & _ & ? & ? & ?).
  - done.
  - specialize (Hs root ltac:(by left)). rewrite Hgr in Hs. destruct (gs' !! root) as [g'|]; [|done]. exists g'.
    destruct Hs as (-> & _ & -> & _). done.
  - exists u. split; [done|]. specialize (Hs u ltac:(by right)). unfold named in *.
    destruct (gs !! u), (gs' !! u); try done. by destruct Hs as (-> & _).
Qed.

Section GetTree.
Context (read_ini : string -> option (list (string * list (string * string)))) (get_value : string -> option Z).
Context (unknown_shares : Z) (files : string -> tree_files).

(** A tree is found or made; what was there stays. *)
Lemma get_tree_spec (fs fs' : fairshare) F name root
    (Hok : trees_ok fs F) (Hget : get_tree read_ini get_value unknown_shares files fs name = Ret (fs', root)) :
  exists F', trees_ok fs' F' /\ fs_trees fs' !! name = Some root /\
    (forall n r, fs_trees fs !! n = Some r -> fs_trees fs' !! n = Some r /\ F' r = F r) /\
    (forall x, is_Some (fs_groups fs !! x) -> fs_groups fs' !! x = fs_groups fs !! x).
Proof.
  unfold get_tree in Hget. destruct (fs_trees fs !! name) as [r|] eqn:En.
  { injection Hget as <- <-. exists F. by split_and!. }
  unfold new_tree in Hget.
  pose proof (FairshareTree_spec read_ini get_value unknown_shares (tf_config (files name)) (tf_ini (files name))
    (tf_usage (files name)) (fs_groups fs)) as Hspec.
  destruct (FairshareTree _ _ _ _ _ _ _) as [[gs r]|w|]; cbn [obind] in Hget; [|done..]. injection Hget as <- <-.
  destruct Hspec as ((f & Hf & Hkeep & _) & _). cbn [fs_trees fs_groups].
  assert (Hin : forall n r', fs_trees fs !! n = Some r' -> forall x, x ∈ r' :: keys (F r') -> is_Some (fs_groups fs !! x)).
  { intros n r' Hr' x Hx. eapply tree_lookup; [exact (ft_tree _ _ _ (to_fair _ _ Hok n r' Hr'))|]. cbn [keys app]. done. }
  assert (Hkeys : forall x, x ∈ all_keys F (map_to_list (fs_trees fs)) -> is_Some (fs_groups fs !! x)).
  { intros x ([n r'] & Ht%elem_of_map_to_list & Hx)%elem_of_all_keys. by eapply Hin. }
  assert (Hold : forall x, is_Some (fs_groups fs !! x) -> gs !! x = fs_groups fs !! x /\ x ∉ r :: keys f).
  { intros x [g Hg]. destruct (Hkeep x g Hg) as [H1 H2]. by rewrite H1, Hg. }
  assert (Hne : forall n r', fs_trees fs !! n = Some r' -> r' <> r).
  { intros n r' Hr' ->. destruct (Hold r) as [_ Hr]; [eapply Hin; [done|by left]|]. apply Hr. by left. }
  set (F' := fun r' => if decide (r' = r) then f else F r').
  assert (HF' : forall n r', fs_trees fs !! n = Some r' -> F' r' = F r').
  { intros n r' Hr'. unfold F'. rewrite decide_False; [done|]. by eapply Hne. }
  exists F'. split; [split|split_and!].
  - intros n r' Hr'. cbn [fs_groups fs_trees] in *. apply lookup_insert_Some in Hr' as [[<- <-]|[_ Hr']].
    + unfold F'. by rewrite decide_True.
    + rewrite (HF' n) by done. apply (fair_tree_same (fs_groups fs)); [|by eapply to_fair].
      intros x Hx. destruct (Hold x) as [-> _]; [by eapply Hin|]. by destruct (fs_groups fs !! x).
  - cbn [fs_trees]. rewrite (all_keys_perm _ _ _ (map_to_list_insert _ _ _ En)), all_keys_cons. cbn [snd].
    rewrite (all_keys_ext F F') by (intros [n r'] Ht%elem_of_map_to_list; by apply (HF' n)).
    assert (Er : F' r = f) by (unfold F'; by rewrite decide_True). rewrite Er.
    apply NoDup_app. split_and!; [apply Hf| |apply Hok].
    intros x Hx Hx'. by destruct (Hold x (Hkeys x Hx')).
  - by rewrite lookup_insert_eq.
  - intros n r' Hr'. split; [|by eapply HF']. rewrite lookup_insert_ne; [done|]. congruence.
  - intros x Hx. by destruct (Hold x Hx).
Qed.

(** C34: asking for a tree by name keeps all trees trees of their own, apart from
    each other; a tree that is there is given as it is, a new one is built from
    its files, and the groups of the others do not change. *)
Theorem trees_stay_apart (fs fs' : fairshare) F name root
    (Hok : trees_ok fs F) (Hget : get_tree read_ini get_value unknown_shares files fs name = Ret (fs', root)) :
  exists F', trees_ok fs' F' /\ fs_trees fs' !! name = Some root /\
    (forall n r, fs_trees fs !! n = Some r -> fs_trees fs' !! n = Some r /\ F' r = F r) /\
    (forall x, x ∈ all_keys F (map_to_list (fs_trees fs)) -> fs_groups fs' !! x = fs_groups fs !! x).
Proof.
  destruct (get_tree_spec fs fs' F name root Hok Hget) as (F' & H1 & H2 & H3 & H4). exists F'. split_and!; [done..|].
  intros x ([n r] & Ht%elem_of_map_to_list & Hx)%elem_of_all_keys. apply H4. eapply tree_lookup; [exact (ft_tree _ _ _ (to_fair _ _ Hok n r Ht))|done].
Qed.
End GetTree.

(** ** The decay of all trees *)

Definition halved (n : nat) (g : group_info) : group_info := Nat.iter n halve g.

Lemma halved_same n g : same_place g (halved n g).
Proof. induction n as [|n IH]; [done|]. destruct IH as (H1 & H2 & H3 & H4 & H5 & H6). by split_and!. Qed.

(** Once for each tree of the list. *)
Lemma decay_list F ts : forall fs,
  (forall t, t ∈ ts -> fair_tree (fs_groups fs) (snd t) (F (snd t))) -> NoDup (all_keys F ts) ->
  exists gs', ofold (fun fs '(_, root) => let! gs := decay (fs_groups fs) root in Ret (fs <| fs_groups := gs |>)) ts fs
      = Ret (mkFairshare gs' (fs_trees fs)) /\
    forall x, gs' !! x = if decide (x ∈ all_keys F ts) then halve <$> fs_groups fs !! x else fs_groups fs !! x.
Proof.
  induction ts as [|[name root] ts IH]; intros fs Hf Hnd.
  { exists (fs_groups fs). split; [by destruct fs|]. intros x. by rewrite decide_False by apply not_elem_of_nil. }
  rewrite all_keys_cons in *. cbn [snd] in *. apply NoDup_app in Hnd as (Hnd1 & Hdis & Hnd2).
  pose proof (Hf _ ltac:(by left)) as Hroot. cbn [snd] in Hroot.
  pose proof (tree_size _ _ _ (ft_tree _ _ _ Hroot) Hnd1) as Hsz. cbn [keys app] in Hsz.
  destruct (decay_tree_spec (Group root (F root) Leaf) (fs_groups fs) None (size (fs_groups fs) + 1)%nat
    (ft_tree _ _ _ Hroot) Hnd1) as (gs1 & E & H1); [cbn [keys app]; lia|]. cbn [keys app] in H1.
  cbn [ofold]. unfold decay at 1. cbn [first] in E. rewrite E. cbn [obind].
  destruct (IH (fs <| fs_groups := gs1 |>)) as (gs2 & E2 & H2); [|done|].
  { intros t Ht. cbn [fs_groups]. apply (fair_tree_same (fs_groups fs)); [|apply Hf; by right].
    intros x Hx. change (fs_groups (fs <| fs_groups := gs1 |>)) with gs1. rewrite H1, decide_False; [by destruct (fs_groups fs !! x)|].
    intros Hx'. apply (Hdis x Hx'). apply elem_of_all_keys. by exists t. }
  exists gs2. split; [exact E2|]. intros x. rewrite H2. change (fs_groups (fs <| fs_groups := gs1 |>)) with gs1. rewrite H1.
  destruct (decide (x ∈ all_keys F ts)) as [Hx|Hx].
  - rewrite decide_False by (intros Hx'; by apply (Hdis x)). rewrite decide_True; [done|]. apply elem_of_app. by right.
  - destruct (decide (x ∈ root :: keys (F root))); [rewrite decide_True; [done|apply elem_of_app; by left]|].
    rewrite decide_False; [done|]. by rewrite elem_of_app; intros [].
Qed.

(** The groups of the scheduler. *)
Definition tree_keys fs F : list positive := all_keys F (map_to_list (fs_trees fs)).

Lemma decay_all_spec fs F :
  trees_ok fs F -> exists gs', decay_fairshare_trees fs = Ret (mkFairshare gs' (fs_trees fs)) /\
    forall x, gs' !! x = if decide (x ∈ tree_keys fs F) then halve <$> fs_groups fs !! x else fs_groups fs !! x.
Proof.
  intros [Hf Hnd]. destruct (decay_list F (sorted_trees fs) fs) as (gs' & E & H).
  - intros [name root] Ht%elem_of_sorted. by eapply Hf.
  - by rewrite (all_keys_perm F _ _ (sorted_trees_perm fs)).
  - exists gs'. split; [exact E|]. intros x. rewrite H. unfold tree_keys.
    pose proof (all_keys_perm F _ _ (sorted_trees_perm fs)) as Hp.
    destruct (decide (x ∈ all_keys F (sorted_trees fs))) as [Hx|Hx]; rewrite Hp in Hx; [by rewrite decide_True|by rewrite decide_False].
Qed.

Lemma trees_ok_same fs gs' F : trees_ok fs F -> same_places (fs_groups fs) gs' -> trees_ok (mkFairshare gs' (fs_trees fs)) F.
Proof. intros [Hf Hnd] Hs. split; [|done]. intros n r Hr. apply (fair_tree_same (fs_groups fs)); [intros x _; apply Hs|by eapply Hf]. Qed.

(** The half-lives that pass in the time [d]: the last one only when more than it
    has passed. *)
Definition half_lives (half_life d : Z) : Z := Z.max 0 ((d - 1) / half_life).

Lemma half_lives_step half_life d : 0 < half_life -> half_life < d -> half_lives half_life d = 1 + half_lives half_life (d - half_life).
Proof.
  intros Hh Hd. unfold half_lives.
  replace (d - 1) with ((d - half_life - 1) + 1 * half_life) by lia. rewrite Z.div_add by lia.
  pose proof (Z.div_pos (d - half_life - 1) half_life ltac:(lia) Hh). lia.
Qed.

Lemma half_lives_none half_life d : 0 < half_life -> d <= half_life -> half_lives half_life d = 0.
Proof.
  intros Hh Hd. unfold half_lives. destruct (Z.le_gt_cases d 0).
  - pose proof (Z.div_lt_upper_bound (d - 1) half_life 0 Hh ltac:(lia)). lia.
  - rewrite Z.div_small by lia. done.
Qed.

Lemma decay_loop_spec half_life last fuel : 0 < half_life < 2 ^ 62 -> 0 <= last ->
  forall t fs F b, trees_ok fs F -> last <= t < 2 ^ 62 -> (Z.to_nat (half_lives half_life (t - last)) < fuel)%nat ->
  exists gs', decay_loop fuel half_life last t fs b
      = Ret (mkFairshare gs' (fs_trees fs), b || (0 <? half_lives half_life (t - last))) /\
    forall x, gs' !! x = if decide (x ∈ tree_keys fs F)
      then halved (Z.to_nat (half_lives half_life (t - last))) <$> fs_groups fs !! x else fs_groups fs !! x.
Proof.
  intros Hh Hlast. induction fuel as [|fuel IH]; intros t fs F b Hok Ht Hf; [lia|]. cbn [decay_loop].
  change (2 ^ 62) with 4611686018427387904 in *.
  rewrite i64_id by in_range. destruct (Z.gtb_spec (t - last) half_life) as [Hgt|Hle].
  - destruct (decay_all_spec fs F Hok) as (gs1 & -> & H1). cbn [obind]. rewrite i64_id by in_range.
    pose proof (half_lives_step half_life (t - last) ltac:(lia) Hgt) as Hstep.
    assert (Hok1 : trees_ok (mkFairshare gs1 (fs_trees fs)) F).
    { apply trees_ok_same; [done|]. intros x. rewrite H1. destruct (decide (x ∈ tree_keys fs F)); by destruct (fs_groups fs !! x). }
    pose proof (Z.le_max_l 0 ((t - half_life - last - 1) / half_life)) as Hpos. fold (half_lives half_life (t - half_life - last)) in Hpos.
    replace (t - last - half_life) with (t - half_life - last) in Hstep by lia.
    destruct (IH (t - half_life) (mkFairshare gs1 (fs_trees fs)) F true Hok1) as (gs2 & -> & H2); [lia|lia|].
    exists gs2. split; [|].
    + cbn [fs_trees orb]. destruct (Z.ltb_spec 0 (half_lives half_life (t - last))); [by rewrite orb_true_r|lia].
    + intros x. rewrite H2. cbn [fs_groups]. change (tree_keys (mkFairshare gs1 (fs_trees fs)) F) with (tree_keys fs F).
      rewrite H1. destruct (decide (x ∈ tree_keys fs F)); [|done].
      rewrite Hstep. replace (Z.to_nat (1 + half_lives half_life (t - half_life - last)))
        with (S (Z.to_nat (half_lives half_life (t - half_life - last)))) by lia.
      destruct (fs_groups fs !! x) as [g|]; [|done]. apply (f_equal Some). symmetry. apply Nat.iter_succ_r.
  - rewrite (half_lives_none half_life (t - last)) by lia. exists (fs_groups fs). split.
    + rewrite orb_false_r. by destruct fs.
    + intros x. destruct (decide _); [|done]. by destruct (fs_groups fs !! x).
Qed.

(** ** A cycle *)

(** The charges can be made: the groups are there, and a job that is charged by
    its processors requests some. *)
Definition chargeable gs (jobs : list JobInfo) (last : prev_job_info) : Prop :=
  (exists x, pv_ginfo last = Some x /\ is_Some (gs !! x)) /\
  forall job, find_running jobs (pv_name last) = Some job ->
    feq (calculated_fairshare job) fzero = false \/ is_Some (find_resource_req (resreq job) "procs").

Lemma same_places_trans gs1 gs2 gs3 : same_places gs1 gs2 -> same_places gs2 gs3 -> same_places gs1 gs3.
Proof.
  intros H1 H2 x. specialize (H1 x). specialize (H2 x). destruct (gs1 !! x), (gs2 !! x), (gs3 !! x); try done.
  destruct H1 as (E1 & E2 & E3 & E4 & E5 & E6), H2 as (H1 & H2 & H3 & H4 & H5 & H6). split_and!; congruence.
Qed.

Lemma same_places_refl gs : same_places gs gs.
Proof. intros x. by destruct (gs !! x). Qed.

Lemma same_places_insert gs x g g' : gs !! x = Some g -> same_place g g' -> same_places gs (<[x := g']> gs).
Proof.
  intros Hx H y. destruct (decide (y = x)) as [->|]; [by rewrite Hx, lookup_insert_eq|].
  rewrite lookup_insert_ne by done. by destruct (gs !! y).
Qed.

Lemma charge_job_spec jobs gs last : chargeable gs jobs last -> exists gs', charge_job jobs gs last = Ret gs' /\ same_places gs gs'.
Proof.
  intros [(x & Hx & g & Hg) Hjob]. unfold charge_job. destruct (find_running jobs (pv_name last)) as [job|]; [|exists gs; split; [done|apply same_places_refl]].
  rewrite Hx. cbn [of_option obind]. rewrite (group_at_ok gs x g Hg). cbn [obind].
  destruct (feq (calculated_fairshare job) fzero) eqn:E; cbn [negb].
  - destruct (Hjob job eq_refl) as [|[tmp ->]]; [congruence|]. cbn [of_option obind]. eexists. split; [done|]. by eapply same_places_insert.
  - eexists. split; [done|]. by eapply same_places_insert.
Qed.

Lemma settle_usage_spec gs last : (exists x, pv_ginfo last = Some x /\ is_Some (gs !! x)) ->
  exists gs', settle_usage gs last = Ret gs' /\ same_places gs gs' /\ (forall y, gi_usage <$> gs' !! y = gi_usage <$> gs !! y).
Proof.
  intros (x & Hx & g & Hg). unfold settle_usage. rewrite Hx. cbn [of_option obind]. rewrite (group_at_ok gs x g Hg). cbn [obind].
  eexists. split; [done|]. split; [by eapply same_places_insert|]. intros y.
  destruct (decide (y = x)) as [->|]; [by rewrite lookup_insert_eq, Hg|by rewrite lookup_insert_ne].
Qed.

Lemma same_places_some gs gs' x : same_places gs gs' -> is_Some (gs !! x) -> is_Some (gs' !! x).
Proof. intros H [g Hg]. specialize (H x). rewrite Hg in H. destruct (gs' !! x); [by eexists|done]. Qed.

Lemma chargeable_same jobs gs gs' last : same_places gs gs' -> chargeable gs jobs last -> chargeable gs' jobs last.
Proof. intros Hs [(x & Hx & Hg) Hj]. split; [|done]. exists x. split; [done|]. by eapply same_places_some. Qed.

Lemma charge_all jobs lasts : forall gs, Forall (chargeable gs jobs) lasts ->
  exists gs', ofold (charge_job jobs) lasts gs = Ret gs' /\ same_places gs gs'.
Proof.
  induction lasts as [|l lasts IH]; intros gs H; [exists gs; split; [done|apply same_places_refl]|].
  apply Forall_cons in H as [Hl H]. destruct (charge_job_spec jobs gs l Hl) as (gs1 & E & Hs1). cbn [ofold]. rewrite E.
  destruct (IH gs1) as (gs2 & E2 & Hs2); [eapply Forall_impl; [exact H|]; intros; by eapply chargeable_same|].
  exists gs2. split; [done|]. by eapply same_places_trans.
Qed.

Lemma settle_all jobs lasts : forall gs, Forall (chargeable gs jobs) lasts ->
  exists gs', ofold settle_usage lasts gs = Ret gs' /\ same_places gs gs' /\ (forall y, gi_usage <$> gs' !! y = gi_usage <$> gs !! y).
Proof.
  induction lasts as [|l lasts IH]; intros gs H; [exists gs; split_and!; [done|apply same_places_refl|done]|].
  apply Forall_cons in H as [Hl H]. destruct (settle_usage_spec gs l (proj1 Hl)) as (gs1 & E & Hs1 & Hu1). cbn [ofold]. rewrite E.
  destruct (IH gs1) as (gs2 & E2 & Hs2 & Hu2); [eapply Forall_impl; [exact H|]; intros; by eapply chargeable_same|].
  exists gs2. split; [done|]. split; [by eapply same_places_trans|]. intros y. by rewrite Hu2.
Qed.

Lemma halved_usage n g : gi_usage (halved n g) = Nat.iter n decayed (gi_usage g).
Proof. induction n as [|n IH]; [done|]. exact (f_equal decayed IH). Qed.

(** C33: a cycle's update of the fairshare ends, since the decay loop runs once for
    each half-life that has passed: it charges the jobs, halves the usage of
    every group of every tree that often and of no other group, and records a
    time of the last decay within a half-life of now.  A half-life that ends at
    this very moment is recorded as passed without having been decayed. *)
Theorem fairshare_decays_once_a_half_life (c : config) (s : status) (jobs : list JobInfo) (lasts : list prev_job_info)
    (fs : fairshare) (F : positive -> forest) (ds : decay_state) (fuel : nat) (last : Z)
    (Hon : fair_share s = true) (Hok : trees_ok fs F) (Hcharge : Forall (chargeable (fs_groups fs) jobs) lasts)
    (Hlast : last = default 0 (ds_last_decay ds)) (Hh : 0 < half_life c < 2 ^ 62)
    (Ht : 0 <= last <= current_time s) (Hbound : current_time s < 2 ^ 62)
    (Hsync : 0 <= ds_last_sync ds <= current_time s /\ current_time s - ds_last_sync ds <= sync_time c)
    (Hfuel : (Z.to_nat (half_lives (half_life c) (current_time s - last)) < fuel)%nat) :
  let n := half_lives (half_life c) (current_time s - last) in
  exists gs1 gs' ds', ofold (charge_job jobs) lasts (fs_groups fs) = Ret gs1 /\
    update_fairshare fuel c s jobs lasts fs ds = Ret (mkFairshare gs' (fs_trees fs), ds', []) /\
    trees_ok (mkFairshare gs' (fs_trees fs)) F /\
    (forall x, gi_usage <$> gs' !! x =
      (fun u => if decide (x ∈ tree_keys fs F) then Nat.iter (Z.to_nat n) decayed u else u) <$> (gi_usage <$> gs1 !! x)) /\
    (n = 0 -> ds' = ds) /\
    (0 < n -> exists last', ds_last_decay ds' = Some last' /\ 0 <= current_time s - last' < half_life c /\
      (half_life c | last' - last) /\ last' - last = half_life c * (if current_time s =? last' then n + 1 else n)).
Proof.
  intros n. destruct (charge_all jobs lasts (fs_groups fs) Hcharge) as (gs1 & E1 & S1).
  destruct (settle_all jobs lasts gs1) as (gs2 & E2 & S2 & U2); [eapply Forall_impl; [exact Hcharge|]; intros; by eapply chargeable_same|].
  pose proof (trees_ok_same fs gs2 F Hok (same_places_trans _ _ _ S1 S2)) as Hok2.
  destruct (decay_loop_spec (half_life c) last fuel Hh (proj1 Ht) (current_time s) (mkFairshare gs2 (fs_trees fs)) F false Hok2)
    as (gs3 & E3 & H3); [lia|done|]. cbn [fs_trees fs_groups orb] in E3, H3.
  change (tree_keys (mkFairshare gs2 (fs_trees fs)) F) with (tree_keys fs F) in H3.
  unfold update_fairshare. rewrite Hon. cbn [negb]. rewrite E1. cbn [obind]. rewrite E2. cbn [obind]. rewrite <- Hlast.
  change (fs <| fs_groups := gs2 |>) with (mkFairshare gs2 (fs_trees fs)). rewrite E3. cbn [obind]. fold n in H3 |- *.
  change (2 ^ 62) with 4611686018427387904 in *.
  set (last' := i64 (current_time s - Z.rem (i64 (current_time s - last)) (half_life c))).
  set (ds' := if 0 <? n then mkDecay (Some last') (ds_last_sync ds) else ds).
  assert (Hs' : ds_last_sync ds' = ds_last_sync ds) by (unfold ds'; by destruct (0 <? n)).
  exists gs1, gs3, ds'. split; [done|]. split; [|split; [|split; [|split]]].
  - rewrite Hs'. rewrite i64_id by in_range. destruct (Z.gtb_spec (current_time s - ds_last_sync ds) (sync_time c)); [lia|done].
  - apply (trees_ok_same (mkFairshare gs2 (fs_trees fs))); [done|]. intros x. cbn [fs_groups]. rewrite H3.
    destruct (decide (x ∈ tree_keys fs F)), (gs2 !! x); try done. apply halved_same.
  - intros x. rewrite H3, <- (U2 x). destruct (decide (x ∈ tree_keys fs F)); destruct (gs2 !! x) as [g|]; cbn; try done.
    by rewrite halved_usage.
  - intros ->. done.
  - intros Hn. unfold ds'. destruct (Z.ltb_spec 0 n); [|lia]. exists last'. split; [done|].
    pose proof (Z.rem_bound_pos (current_time s - last) (half_life c) ltac:(lia) ltac:(lia)) as Hr.
    pose proof (Z.quot_rem' (current_time s - last) (half_life c)) as Hq.
    assert (El : last' = current_time s - Z.rem (current_time s - last) (half_life c)).
    { unfold last'. rewrite (i64_id (current_time s - last)) by in_range. apply i64_id. in_range. }
    rewrite El. split; [lia|]. split; [exists (Z.quot (current_time s - last) (half_life c)); lia|].
    assert (Hn' : n = (current_time s - last - 1) / half_life c) by (unfold n, half_lives in *; lia).
    set (q := Z.quot (current_time s - last) (half_life c)) in *. set (r := Z.rem (current_time s - last) (half_life c)) in *.
    destruct (Z.eqb_spec (current_time s) (current_time s - r)) as [Er|Er].
    + assert (n = q - 1); [|nia]. rewrite Hn'. symmetry. apply (Z.div_unique_pos _ _ _ (half_life c - 1)); lia.
    + assert (n = q); [|nia]. rewrite Hn'. symmetry. apply (Z.div_unique_pos _ _ _ (r - 1)); lia.
Qed.

(** ** Examples *)

Definition example_fairshare : fairshare := mkFairshare example_groups {[ "default"%string := 1%positive ]}.
Definition example_forests (root : positive) : forest := example_forest.

Lemma example_trees_ok : trees_ok example_fairshare example_forests.
Proof.
  split; [|apply (bool_decide_unpack _); vm_compute; exact I].
  intros name root. cbn [fs_trees example_fairshare fs_groups]. rewrite lookup_singleton_Some. intros [_ <-]. apply example_fair.
Qed.

(** A second tree, of the same configuration. *)
Lemma trees_stay_apart_witness :
  exists fs root F, get_tree (fun _ => None) (fun _ => None) 20 (fun _ => mkTreeFiles (Some example_shares) None None)
      example_fairshare "meta" = Ret (fs, root) /\ trees_ok fs F /\ root = 7%positive /\
    fs_trees fs !! "default"%string = Some 1%positive.
Proof.
  assert (E : exists fs, get_tree (fun _ => None) (fun _ => None) 20 (fun _ => mkTreeFiles (Some example_shares) None None)
    example_fairshare "meta" = Ret (fs, 7%positive)) by (eexists; vm_compute; reflexivity).
  destruct E as [fs E].
  destruct (trees_stay_apart (fun _ => None) (fun _ => None) 20 (fun _ => mkTreeFiles (Some example_shares) None None)
    example_fairshare fs example_forests "meta" 7 example_trees_ok E) as (F & Hok & _ & Hold & _).
  exists fs, 7%positive, F. split; [exact E|]. split; [exact Hok|]. split; [reflexivity|].
  apply (Hold "default"%string 1%positive). reflexivity.
Defined.

(** Alice's job has run for 300 seconds on two processors since the last cycle,
    and is charged five minutes more; 250 seconds have passed since the last
    decay, which are two half-lives. *)
Definition example_running : JobInfo :=
  new_JobInfo "1.srv" <| state := JobRunning |> <| ginfo := Some 4%positive |>
    <| resreq := [mkReq "procs" 2 None] |> <| resused := [mkReq "walltime" 1000 None] |>.
Definition example_last : prev_job_info := mkPrevJob "1.srv" "alice" [mkReq "walltime" 700 None] (Some 4%positive).
Definition example_conf : config := zero_config <| half_life := 100 |> <| sync_time := 10000 |>.
Definition example_status : status := zero_status <| fair_share := true |> <| current_time := 350 |>.

Lemma fairshare_decays_once_a_half_life_witness :
  exists gs ds, update_fairshare 3 example_conf example_status [example_running] [example_last] example_fairshare
      (mkDecay (Some 100) 0) = Ret (mkFairshare gs (fs_trees example_fairshare), ds, []) /\
    trees_ok (mkFairshare gs (fs_trees example_fairshare)) example_forests /\
    gi_usage <$> gs !! 4%positive = Some 425 /\ ds_last_decay ds = Some 300.
Proof.
  destruct (fairshare_decays_once_a_half_life example_conf example_status [example_running] [example_last] example_fairshare
    example_forests (mkDecay (Some 100) 0) 3 100) as (gs1 & gs & ds & E1 & E & Hok & _ & _ & _).
  - reflexivity.
  - apply example_trees_ok.
  - constructor; [|constructor]. split.
    + exists 4%positive. split; [reflexivity|]. apply (bool_decide_unpack _). vm_compute. exact I.
    + intros job Hjob. right. vm_compute in Hjob. injection Hjob as <-. eexists. reflexivity.
  - reflexivity.
  - vm_compute. split; reflexivity.
  - vm_compute. split; congruence.
  - reflexivity.
  - vm_compute. repeat split; congruence.
  - vm_compute. lia.
  - exists gs, ds. split; [exact E|]. split; [exact Hok|]. revert E. vm_compute. intros E. injection E as <- <-. split; reflexivity.
Defined.
