(* ===== verification/PlanJobs.v ===== *)
(** * The jobs of the plan: plan_jobs.cpp, plan_schedule.cpp, plan_operations.cpp

    The jobs that the server reports are matched with those of the plan; jobs that
    are new are put in the list of the cluster they run on, or into the earliest
    gap of the clusters that suit them.  The server is told what is planned. *)

From Stdlib Require Import ZArith Lia Bool Ascii String.
From S2P Require Import Prelude CString MiscHelpers Resource DataTypes Config NodeData JobInfo QueueInfo ServerInfo NodeLogic Sort FairshareTree Fairshare PlanData PlanList PlanValues PlanGaps PlanLimits PlanTime PlanClusters PlanSlots PlanFind PlanUpdate PlanUpdateJob PlanSched PlanFairshare PlanEval PlanOptim JobUpdate.

Local Open Scope string_scope.
Open Scope Z_scope.
Local Open Scope sched_scope.

(** ** A new job *)

(** [junk] is what the allocated job holds, and [junk_index] what its arrays do. *)
Definition job_create (junk : plan_job) : plan_job :=
  junk <| pj_cpu_indexes := [] |> <| pj_latest_ncpu_index := [] |> <| pj_req_ppn := 0 |> <| pj_original_req_ppn := 0 |>
    <| pj_req_num_nodes := 0 |> <| pj_req_gpu := 0 |> <| pj_jinfo := None |> <| pj_ninfo_arr := [] |>
    <| pj_fixed_nname_arr := None |> <| pj_fixed_nname_arr_backup := None |> <| pj_sch_nodespec := None |>
    <| pj_available_after := 0 |> <| pj_run_me := 0 |> <| pj_account_id := -1 |>.

Definition amount_of (reqs : list resource_req) (name : string) : outcome Z :=
  let! r := of_option (find_resource_req reqs name) in Ret (req_amount r).

Section Fill.
Variable parse_nodespec : string -> option pars_spec.
Variable junk_index : Z.

(** The arrays of the job; a negative length cannot be allocated, and ends the
    filling in. *)
Definition job_arrays (job : plan_job) : plan_job :=
  let n := pj_req_num_nodes job in
  if n <? 0 then job <| pj_ninfo_arr := [] |>
  else
    let job := job <| pj_ninfo_arr := replicate (Z.to_nat n) None |>
                   <| pj_fixed_nname_arr := Some (replicate (Z.to_nat n) None) |> in
    if pj_usage job <? 0 then job <| pj_cpu_indexes := [] |>
    else job <| pj_cpu_indexes := replicate (Z.to_nat (pj_usage job)) junk_index |>
             <| pj_latest_ncpu_index := replicate (Z.to_nat n) junk_index |>.

Definition walltime_of (j : JobInfo) : Z :=
  match find_resource_req (resreq j) "walltime" with Some r => req_amount r | None => DEFAULT_WALLTIME end.

(** The job has [parts] parts; a start of [-1] is none. *)
Definition job_fillin (job : plan_job) (p : positive) (j : JobInfo) (start_time due_date : Z) : outcome plan_job :=
  let reqs := resreq j in
  let! procs := amount_of reqs "procs" in
  let! nodect := amount_of reqs "nodect" in
  let usage := i32 procs in
  let n := i32 nodect in
  let gpu := match find_resource_req reqs "gpu" with Some r => i32 (req_amount r) | None => pj_req_gpu job end in
  if n =? 0 then UB
  else
    let ppn := i32 (Z.quot usage n) in
    let! mem := amount_of reqs "mem" in
    let! scratch := job_get_scratch_local parse_nodespec j in
    let processing := walltime_of j in
    let job := job <| pj_jinfo := Some p |> <| pj_job_id := parse_head_number (job_id j) |> <| pj_usage := usage |>
      <| pj_req_num_nodes := n |> <| pj_req_gpu := gpu |> <| pj_req_ppn := if ppn <? 1 then 1 else ppn |>
      <| pj_original_req_ppn := 0 |> <| pj_req_mem := i64 (Z.quot mem n) |> <| pj_req_scratch_local := scratch |>
      <| pj_estimated_processing := processing |>
      <| pj_start_time := start_time |>
      <| pj_completion_time := if start_time =? -1 then -1 else i64 (start_time + processing) |>
      <| pj_due_date := due_date |> in
    Ret (job_arrays job).
End Fill.

(** ** Jobs that already run *)

(** The state of the planner, the accounts seen, and the requests to the server. *)
Record plan_world := mkWorld {
  pw_planner : planner;
  pw_accounts : list string;
  pw_requests : list alter_request
}.

Section World.
Variable badval : Z.
Variable parse_nodespec : string -> option pars_spec.
Variable limits_map : gmap string (gmap Z cluster_limits_arrays).
Variable junk : plan_gap.
Variable junk_job : plan_job.
Variable junk_index : Z.
Variable create_job : option plan_job.
Variable create_gap : option plan_gap.
Variable create_limit : option plan_limit.
Variable conf : config.

Definition with_jinfos (st : planner) (jinfos : gmap positive JobInfo) : planner :=
  mkPlanner (pn_nodes st) jinfos (pn_sched st) (pn_jobs st) (pn_gaps st) (pn_limits st) (pn_values st) (pn_values_global st).

Definition with_heap (st : planner) (h : heap plan_job) : planner :=
  mkPlanner (pn_nodes st) (pn_jinfos st) (pn_sched st) h (pn_gaps st) (pn_limits st) (pn_values st) (pn_values_global st).

(** Whether one of the processors of a node runs the job. *)
Fixpoint on_cpus (jobs : list (option positive)) (cores : nat) (p : positive) : outcome bool :=
  match cores with
  | O => Ret false
  | S cores =>
      match jobs with
      | [] => UB
      | x :: jobs => if bool_decide (x = Some p) then Ret true else on_cpus jobs cores p
      end
  end.

Fixpoint runs_on_nodes (nodes : gmap positive node_info) (ns : list positive) (p : positive) : outcome bool :=
  match ns with
  | [] => Ret false
  | q :: ns =>
      let! n := of_option (nodes !! q) in
      if negb (has_jobs (data n)) then runs_on_nodes nodes ns p
      else
        let! found :=
          match Z.to_nat (cores_total n) with
          | O => Ret false
          | cores => let! jobs := of_option (jobs_on_cpu n) in on_cpus jobs cores p
          end in
        if found : bool then Ret true else runs_on_nodes nodes ns p
  end.

(** The first cluster with a node that runs the job. *)
Fixpoint running_cluster (nodes : gmap positive node_info) (clusters : list plan_cluster) (p : positive) : outcome (option nat) :=
  match clusters with
  | [] => Ret None
  | cl :: clusters =>
      let! found := runs_on_nodes nodes (pc_nodes cl) p in
      if found : bool then Ret (Some O)
      else let! k := running_cluster nodes clusters p in Ret (S <$> k)
  end.

(** A job for what the server reported, with the identifier of its account. *)
Definition new_job (p : positive) (start_time : Z) (w : plan_world) : outcome (plan_world * positive) :=
  let st := pw_planner w in
  let! j := of_option (pn_jinfos st !! p) in
  let! job := job_fillin parse_nodespec junk_index (job_create junk_job) p j start_time 0 in
  let (accounts, id) := set_and_get_account_id (pw_accounts w) (account j) in
  let (h, x) := alloc (pn_jobs st) (job <| pj_account_id := id |>) in
  Ret (mkWorld (with_heap st h) accounts (pw_requests w), x).

(** A job that runs on none of the clusters is in no list. *)
Definition add_running_job (w : plan_world) (p : positive) : outcome plan_world :=
  let! j := of_option (pn_jinfos (pw_planner w) !! p) in
  if negb (bool_decide (state j = JobRunning)) then Ret w
  else
    let! (w, x) := new_job p (stime j) w in
    let st := pw_planner w in
    let! k := running_cluster (pn_nodes st) (take (Z.to_nat (s_num_clusters (pn_sched st))) (s_clusters (pn_sched st))) p in
    match k with
    | None => Ret w
    | Some k =>
        let! jl := jobs_at st k in
        let! (h, jl, _) := list_add_begin create_job (pn_jobs st) jl (Some x) in
        Ret (mkWorld (with_jobs st k h jl) (pw_accounts w) (pw_requests w))
    end.

Definition add_already_running_jobs (new_jobs : option (list positive)) (w : plan_world) : outcome (plan_world * Z) :=
  match new_jobs with
  | None => Ret (w, 1)
  | Some jobs => let! w := ofold add_running_job jobs w in Ret (w, 0)
  end.

(** ** New jobs *)

Section Schedule.
(** The queues of the server, and the one of a job. *)
Variable queues : list queue_info.
Variable queue_of : positive -> option queue_info.

(** The cluster with the earliest gap so far, and the start of that gap. *)
Definition try_cluster (p x : positive) (acc : planner * option (nat * Z)) (k : nat) : outcome (planner * option (nat * Z)) :=
  let (st, best) := acc in
  let! cl := cluster_at st k in
  let! j := of_option (pn_jinfos st !! p) in
  let! job := item_at (pn_jobs st) x in
  let! q := of_option (queue_of p) in
  let! suits := check_cluster_suitable parse_nodespec (conf_default_queue conf) (pn_nodes st) queues q cl job j in
  if negb (suits =? 0) then Ret (st, best)
  else
    let! (st, found) := find_gap badval parse_nodespec limits_map k false x st in
    match found with
    | None => Ret (st, best)
    | Some gap =>
        let! g := item_at (pn_gaps st) gap in
        Ret (st, match best with
                 | Some (_, t) => if pg_start_time g <? t then Some (k, pg_start_time g) else best
                 | None => Some (k, pg_start_time g)
                 end)
    end.

Definition never_running : string :=
  "Never Running: This jobs requirements will never be satisfied under the current grid configuration.".

(** The requests that tell that a job is not planned. *)
Definition tell_unplanned (p x : positive) (w : plan_world) : outcome plan_world :=
  let st := pw_planner w in
  let! job := item_at (pn_jobs st) x in
  let! j := of_option (pn_jinfos st !! p) in
  let '(j, r1, _) := update_job_planned_start j job in
  let (r2, _) := update_job_planned_nodes (fun _ => 0) j "" in
  let '(j, r3, _) := update_job_comment j never_running in
  Ret (mkWorld (with_jinfos st (<[p := j]> (pn_jinfos st))) (pw_accounts w) (pw_requests w ++ r1 ++ r2 ++ r3)%list).

Definition schedule_job (time_now : Z) (w : plan_world) (p : positive) : outcome plan_world :=
  let! j := of_option (pn_jinfos (pw_planner w) !! p) in
  if negb (bool_decide (state j = JobQueued)) then Ret w
  else
    let! (w, x) := new_job p (-1) w in
    let st := pw_planner w in
    let! (st, best) := ofold (try_cluster p x) (clusters_of (pn_sched st)) (st, None) in
    let w := mkWorld st (pw_accounts w) (pw_requests w) in
    match best with
    | None => tell_unplanned p x w
    | Some (k, _) =>
        let! (st, found) := find_gap badval parse_nodespec limits_map k true x st in
        let! gap := of_option found in
        let! st := put_in_gap create_job k x gap st in
        let! st := update_twice badval parse_nodespec limits_map junk create_job create_gap create_limit k time_now st in
        Ret (mkWorld st (pw_accounts w) (pw_requests w))
    end.

Definition try_to_schedule_new_jobs (new_jobs : option (list positive)) (time_now : Z) (w : plan_world) : outcome (plan_world * Z) :=
  match new_jobs with
  | None => Ret (w, 1)
  | Some jobs => let! w := ofold (schedule_job time_now) jobs w in Ret (w, 0)
  end.
End Schedule.

(** ** Jobs that the server reports *)

(** [string(id).find(local_server) != npos] *)
Definition is_local (j : JobInfo) : bool := strstr (job_id j) (local_server conf).

(** A dash before the first dot: a job of an array.  An identifier without a dot
    counts as one with a dot at the end of all. *)
Definition is_array_job (id : string) : bool :=
  match split_at id "-" with
  | (_, None) => false
  | (front, Some _) => match split_at front "." with (_, Some _) => false | (_, None) => true end
  end.

(** What is new about a job of the plan. *)
Definition known_job (p : positive) (j : JobInfo) (job : plan_job) : outcome plan_job :=
  let processing := walltime_of j in
  let! mem := amount_of (resreq j) "mem" in
  if pj_req_num_nodes job =? 0 then UB
  else Ret (job <| pj_jinfo := Some p |> <| pj_estimated_processing := processing |>
              <| pj_completion_time := i64 (pj_start_time job + processing) |>
              <| pj_req_mem := i64 (Z.quot mem (pj_req_num_nodes job)) |> <| pj_req_scratch_local := 0 |>).

(** A job that runs and should have ended is taken to end in a second. *)
Definition overdue (time_now : Z) (j : JobInfo) (job : plan_job) : plan_job :=
  if (bool_decide (state j = JobRunning) || bool_decide (state j = JobExiting)) && (pj_completion_time job <=? time_now)
  then job <| pj_completion_time := i64 (time_now + 1) |> else job.

(** The walk over the jobs of one cluster; the answer tells whether the job was
    found.  A completed job is counted and removed. *)
Definition match_cluster (time_now : Z) (p : positive) (j : JobInfo) (cl : plan_cluster) (h : heap plan_job) (l : plan_list)
    (fslist : fairshare_list) : outcome (heap plan_job * plan_list * (fairshare_list * bool)) :=
  for_each (fun x h l acc =>
    let! job := item_at h x in
    if negb (pj_job_id job =? parse_head_number (job_id j)) then Ret (h, l, acc, true)
    else
      let! job := known_job p j job in
      if bool_decide (state j = JobCompleted) then
        let fslist := fairshare_add_job j job (pc_num_running_cpus cl) (pc_available_ram cl) acc.1 in
        let! (h, l, _) := list_remove_item (set_item h x job) l (Some x) true in
        Ret (h, l, (fslist, true), false)
      else Ret (set_item h x (overdue time_now j job), l, (acc.1, true), false)) h l (fslist, false).

(** The clusters are walked over until the job is found. *)
Fixpoint match_job (time_now : Z) (p : positive) (j : JobInfo) (ks : list nat) (st : planner) (fslist : fairshare_list)
  : outcome (planner * fairshare_list * bool) :=
  match ks with
  | [] => Ret (st, fslist, false)
  | k :: ks =>
      let! jl := jobs_at st k in
      let! cl := cluster_at st k in
      let! (h, jl, (fslist, found)) := match_cluster time_now p j cl (pn_jobs st) jl fslist in
      let st := with_jobs st k h jl in
      if found : bool then Ret (st, fslist, true) else match_job time_now p j ks st fslist
  end.

(** What the walk over the jobs of the server keeps. *)
Record known := mkKnown {
  kn_planner : planner;
  kn_fslist : fairshare_list;
  kn_new_jobs : list positive;
  kn_remote : Z
}.

(** Whether a job counts as found, and the number of remote jobs that were met. *)
Definition not_new (j : JobInfo) (found : bool) (remote : Z) : bool * Z :=
  let queued := bool_decide (state j = JobQueued) in
  let running := bool_decide (state j = JobRunning) in
  let found := found || (negb running && negb queued) || (running && negb (is_local j)) in
  if queued && negb (is_local j) then
    if is_array_job (job_id j) then (true, remote)
    else let remote := i32 (remote + 1) in (found || (remote >? 10), remote)
  else (found, remote).

Definition known_step (time_now : Z) (s : known) (p : positive) : outcome known :=
  let st := kn_planner s in
  let! j := of_option (pn_jinfos st !! p) in
  let! (st, fslist, found) := match_job time_now p j (clusters_of (pn_sched st)) st (kn_fslist s) in
  let (found, remote) := not_new j found (kn_remote s) in
  let count := Z.of_nat (length (kn_new_jobs s)) in
  Ret (mkKnown st fslist
         (if negb found && (count <? new_jobs_limit_per_cycle conf) then kn_new_jobs s ++ [p] else kn_new_jobs s)%list remote).

(** The order of the jobs; [gs] are the fairshare groups. *)
Definition sort_known (gs : groups) (jinfos : gmap positive JobInfo) (jobs : list positive) : outcome (list positive) :=
  let info p := default (new_JobInfo "") (jinfos !! p) in
  if forallb (fun p => forallb (fun q => defined (compare_fairshare gs (info p) (info q))) jobs) jobs
  then Ret (isort (fun p q => answer (compare_fairshare gs (info p) (info q))) jobs)
  else UB.

(** The new jobs, null when there is none, and the jobs of the server in the order
    they are left in. *)
Definition plan_known_jobs_update (gs : groups) (time_now : Z) (server_jobs : list positive) (st : planner) (fslist : fairshare_list)
  : outcome (planner * fairshare_list * list positive * option (list positive)) :=
  match server_jobs with
  | [] => Ret (st, fslist, [], None)
  | _ =>
      let! jobs := sort_known gs (pn_jinfos st) server_jobs in
      let! s := ofold (known_step time_now) jobs (mkKnown st fslist [] 0) in
      Ret (kn_planner s, kn_fslist s, jobs, match kn_new_jobs s with [] => None | l => Some l end)
  end.

(** ** Telling the server *)

(** The walks over the jobs of cluster [k]. *)
Definition tell_start (x : positive) (h : heap plan_job) (l : plan_list) (acc : gmap positive JobInfo * list alter_request)
  : outcome (heap plan_job * plan_list * (gmap positive JobInfo * list alter_request) * bool) :=
  let (jinfos, requests) := acc in
  let! job := item_at h x in
  let! p := of_option (pj_jinfo job) in
  let! j := of_option (jinfos !! p) in
  if negb (bool_decide (state j = JobQueued)) || negb (is_local j) then Ret (h, l, acc, true)
  else
    let '(j, r1, _) := update_job_planned_start j job in
    let '(j, r2, _) := update_job_comment j "" in
    Ret (h, l, (<[p := j]> jinfos, (requests ++ r1 ++ r2)%list), true).

Definition update_planned_start (k : nat) (w : plan_world) : outcome plan_world :=
  let st := pw_planner w in
  let! jl := jobs_at st k in
  let! (h, jl, (jinfos, requests)) := for_each tell_start (pn_jobs st) jl (pn_jinfos st, pw_requests w) in
  Ret (mkWorld (with_jinfos (with_jobs st k h jl) jinfos) (pw_accounts w) requests).

(** The names of the nodes, into a text that may still hold those of an earlier
    job; it is [None] before anything is printed. *)
Fixpoint print_nodes (nodes : gmap positive node_info) (first : bool) (arr : list (option positive)) (text : option string)
  : outcome (option string) :=
  match arr with
  | [] => Ret text
  | None :: arr => print_nodes nodes false arr text
  | Some p :: arr =>
      let! n := of_option (nodes !! p) in
      let! text := if first : bool then Ret (node_name n) else let! t := of_option text in Ret (t ++ ", " ++ node_name n) in
      print_nodes nodes false arr (Some text)
  end.

(** The array has 50 characters for each node. *)
Definition planned_nodes_text (nodes : gmap positive node_info) (job : plan_job) (text : option string) : outcome string :=
  let n := pj_req_num_nodes job in
  if pj_start_time job >? 0 then
    if decide (Z.to_nat n <= length (pj_ninfo_arr job))%nat then
      let! text := print_nodes nodes true (take (Z.to_nat n) (pj_ninfo_arr job)) text in
      let! t := of_option text in
      if strlen t <? 50 * n then Ret t else UB
    else UB
  else Ret "".

(** A job has no array of nodes when its number of nodes is negative. *)
Definition tell_nodes (st : planner) (x : positive) (h : heap plan_job) (l : plan_list) (acc : option string * list alter_request)
  : outcome (heap plan_job * plan_list * (option string * list alter_request) * bool) :=
  let (text, requests) := acc in
  let! job := item_at h x in
  let! p := of_option (pj_jinfo job) in
  let! j := of_option (pn_jinfos st !! p) in
  if (pj_req_num_nodes job <? 0) || negb (bool_decide (state j = JobQueued)) || negb (is_local j) then Ret (h, l, acc, true)
  else
    let! t := planned_nodes_text (pn_nodes st) job text in
    let (r, _) := update_job_planned_nodes (fun _ => 0) j t in
    Ret (h, l, (Some t, (requests ++ r)%list), true).

Definition update_planned_nodes (k : nat) (w : plan_world) : outcome plan_world :=
  let st := pw_planner w in
  let! jl := jobs_at st k in
  let! (h, jl, (_, requests)) := for_each (tell_nodes st) (pn_jobs st) jl (None, pw_requests w) in
  Ret (mkWorld (with_jobs st k h jl) (pw_accounts w) requests).
End World.
