(* ===== verification/PlanJobsSpec.v ===== *)
(** * Jobs that can be planned

    A job is filled in from its request; what the search for the earliest start
    relies on holds exactly when the request has the same number of processors on
    each node. *)

From Stdlib Require Import ZArith Lia Bool Ascii String.
From S2P Require Import Prelude CString MiscHelpers Resource DataTypes Config NodeData JobInfo QueueInfo ServerInfo NodeLogic Sort FairshareTree Fairshare PlanData PlanList PlanValues PlanGaps PlanLimits PlanTime PlanClusters PlanSlots PlanFind PlanUpdate PlanUpdateJob PlanHuntSpec PlanHuntTotal PlanSched PlanFairshare PlanOptim JobUpdate PlanJobs.

Local Open Scope string_scope.
Open Scope Z_scope.
Local Open Scope sched_scope.

Lemma amount_of_some reqs name r : find_resource_req reqs name = Some r -> amount_of reqs name = Ret (req_amount r).
Proof. unfold amount_of. by intros ->. Qed.

(** What a job is given: the amounts of its request, its parts, its times, and
    arrays of their lengths.  A start of [-1] is none. *)
Record job_filled (job job' : plan_job) (p : positive) (j : JobInfo) (start due u n m scratch : Z) : Prop := {
  jf_jinfo : pj_jinfo job' = Some p;
  jf_id : pj_job_id job' = parse_head_number (job_id j);
  jf_usage : pj_usage job' = u;
  jf_parts : pj_req_num_nodes job' = n;
  jf_ppn : pj_req_ppn job' = Z.max 1 (u / n);
  jf_original : pj_original_req_ppn job' = 0;
  jf_gpu : pj_req_gpu job' = match find_resource_req (resreq j) "gpu" with Some r => i32 (req_amount r) | None => pj_req_gpu job end;
  jf_mem : pj_req_mem job' = m / n;
  jf_scratch : pj_req_scratch_local job' = scratch;
  jf_walltime : forall r, find_resource_req (resreq j) "walltime" = Some r -> pj_estimated_processing job' = req_amount r;
  jf_default : find_resource_req (resreq j) "walltime" = None -> pj_estimated_processing job' = DEFAULT_WALLTIME;
  jf_start : pj_start_time job' = start;
  jf_completion : start <> -1 -> pj_completion_time job' = i64 (start + pj_estimated_processing job');
  jf_unplanned : start = -1 -> pj_completion_time job' = -1;
  jf_due : pj_due_date job' = due;
  jf_ninfo : pj_ninfo_arr job' = replicate (Z.to_nat n) None;
  jf_fixed : pj_fixed_nname_arr job' = Some (replicate (Z.to_nat n) None);
  jf_cpus : length (pj_cpu_indexes job') = Z.to_nat u;
  jf_latest : length (pj_latest_ncpu_index job') = Z.to_nat n;
  jf_account : pj_account_id job' = pj_account_id job
}.

(** C22: [job_fillin] gives a job the parts, memory, arrays and times of its request:
    the processors divided by the nodes, rounded down, but at least one, for each
    part; a start and, unless it is [-1], a completion that is later by the
    walltime, or by the default one.  Its arrays have room for the search for
    processors when they are fewer than 2^30.  The job is well formed, in the sense
    that the search for the earliest start needs, exactly when the processors can
    be divided evenly among the nodes.  Otherwise the parts have together more
    processors than the job when there are more nodes than processors, and fewer
    when there are not. *)
Theorem filled_job_is_well_formed parse_nodespec junk_index job p j start due procs nodect mem scratch :
  find_resource_req (resreq j) "procs" = Some procs -> find_resource_req (resreq j) "nodect" = Some nodect ->
  find_resource_req (resreq j) "mem" = Some mem -> job_get_scratch_local parse_nodespec j = Ret scratch ->
  0 < req_amount nodect < 2 ^ 31 -> 0 < req_amount procs < 2 ^ 31 -> 0 <= req_amount mem < 2 ^ 63 ->
  exists job', job_fillin parse_nodespec junk_index job p j start due = Ret job' /\
    job_filled job job' p j start due (req_amount procs) (req_amount nodect) (req_amount mem) scratch /\
    (req_amount procs < 2 ^ 30 -> job_room job') /\
    (job_ok job' <-> (req_amount nodect | req_amount procs)) /\
    (~ (req_amount nodect | req_amount procs) ->
      (pj_usage job' < pj_req_ppn job' * pj_req_num_nodes job' <-> req_amount procs < req_amount nodect) /\
      (pj_req_ppn job' * pj_req_num_nodes job' < pj_usage job' <-> req_amount nodect < req_amount procs)).
Proof.
  intros Hp Hn Hm Hs Hnr Hpr Hmr. unfold job_fillin.
  rewrite (amount_of_some _ _ _ Hp). cbn [obind]. rewrite (amount_of_some _ _ _ Hn). cbn [obind].
  rewrite (amount_of_some _ _ _ Hm). cbn [obind]. rewrite Hs. cbn [obind].
  set (u := req_amount procs) in *. set (n := req_amount nodect) in *. set (m := req_amount mem) in *.
  rewrite (i32_id u), (i32_id n) by (unfold in_s; lia). rewrite (proj2 (Z.eqb_neq n 0)) by lia.
  rewrite !Z.quot_div_nonneg by lia.
  assert (Hq : 0 <= u / n <= u) by (split; [apply Z.div_pos; lia|apply Z.div_le_upper_bound; nia]).
  rewrite (i32_id (u / n)) by (unfold in_s; lia).
  assert (Hqm : 0 <= m / n <= m) by (split; [apply Z.div_pos; lia|apply Z.div_le_upper_bound; nia]).
  rewrite (i64_id (m / n)) by (unfold in_s; lia).
  assert (Hmax : (if u / n <? 1 then 1 else u / n) = Z.max 1 (u / n)) by (destruct (Z.ltb_spec (u / n) 1); lia).
  rewrite Hmax. unfold job_arrays. cbn -[replicate Z.max]. rewrite (proj2 (Z.ltb_ge n 0)), (proj2 (Z.ltb_ge u 0)) by lia.
  assert (Hdiv : u = Z.max 1 (u / n) * n <-> (n | u)).
  { split; [intros H; by exists (Z.max 1 (u / n))|]. intros [k Hk]. assert (0 < k) by nia.
    assert (E : u / n = k) by (rewrite Hk; apply Z.div_mul; lia). rewrite E. nia. }
  assert (Hle : Z.max 1 (u / n) * n <= Z.max u n).
  { pose proof (Z.mul_div_le u n ltac:(lia)). destruct (Z.max_spec 1 (u / n)) as [[? E]|[? E]]; rewrite E; lia. }
  eexists. split; [reflexivity|]. split; [|split; [|split]].
  - constructor; cbn -[replicate Z.max]; rewrite ?length_replicate; try done.
    + unfold walltime_of. by intros r ->.
    + unfold walltime_of. by intros ->.
    + intros Hne. by rewrite (proj2 (Z.eqb_neq start (-1)) Hne).
    + by intros ->.
  - intros Hu30. constructor; cbn -[replicate Z.max]; rewrite ?length_replicate, ?Z2Nat.id by lia; try lia.
    eexists. split; [reflexivity|]. rewrite length_replicate, Z2Nat.id by lia. lia.
  - rewrite <- Hdiv. split.
    + intros H. apply (jo_usage _ H).
    + intros H. constructor; cbn -[replicate Z.max]; rewrite ?length_replicate, ?Z2Nat.id by lia; try lia.
      eexists. split; [reflexivity|]. rewrite length_replicate, Z2Nat.id by lia. lia.
  - intros Hnd. cbn -[replicate Z.max]. rewrite <- Hdiv in Hnd.
    pose proof (Z.div_mod u n ltac:(lia)) as Hdm. pose proof (Z.mod_pos_bound u n ltac:(lia)).
    destruct (Z.max_spec 1 (u / n)) as [[? E]|[? E]]; rewrite E in *; split; split; intros; nia.
Qed.

(** ** Example *)

Definition example_request (procs nodect : Z) : JobInfo :=
  new_JobInfo "7.srv" <| nodespec := "2:ppn=2:mem=400mb" |>
    <| resreq := [mkReq "procs" procs None; mkReq "nodect" nodect None; mkReq "mem" 800 None; mkReq "walltime" 3600 None] |>.
Definition example_parse (_ : string) : option pars_spec :=
  Some (mkSpec false [mkSpecNode 2 None None 2 0 0 0 ScratchNone []] 2 4).

Lemma filled_job_is_well_formed_witness :
  (exists job, job_fillin example_parse 0 (job_create (request 1 1)) 1 (example_request 4 2) 100 0 = Ret job /\
     pj_completion_time job = 3700 /\ job_ok job) /\
  (exists job, job_fillin example_parse 0 (job_create (request 1 1)) 1 (example_request 5 2) (-1) 0 = Ret job /\
     pj_req_ppn job = 2 /\ ~ job_ok job /\ pj_req_ppn job * pj_req_num_nodes job < pj_usage job).
Proof.
  split.
  - destruct (filled_job_is_well_formed example_parse 0 (job_create (request 1 1)) 1 (example_request 4 2) 100 0
      (mkReq "procs" 4 None) (mkReq "nodect" 2 None) (mkReq "mem" 800 None) 0) as (job & E & F & _ & H & _);
      [reflexivity..|simpl; lia|simpl; lia|simpl; lia|]. exists job. split; [done|]. split.
    + rewrite (jf_completion _ _ _ _ _ _ _ _ _ _ F) by done.
      by rewrite (jf_walltime _ _ _ _ _ _ _ _ _ _ F (mkReq "walltime" 3600 None) ltac:(reflexivity)).
    + apply H. by exists 2.
  - destruct (filled_job_is_well_formed example_parse 0 (job_create (request 1 1)) 1 (example_request 5 2) (-1) 0
      (mkReq "procs" 5 None) (mkReq "nodect" 2 None) (mkReq "mem" 800 None) 0) as (job & E & F & _ & H & Hless);
      [reflexivity..|simpl; lia|simpl; lia|simpl; lia|]. exists job. split; [done|].
    assert (Hnd : ~ (2 | 5)) by (intros [k Hk]; lia).
    split; [by rewrite (jf_ppn _ _ _ _ _ _ _ _ _ _ F)|]. split; [by rewrite H|]. by apply Hless.
Defined.

(** ** Finding *)

(** Jobs are matched by their number alone: what another server reports of its own
    job 7 is taken for what is new about the planned job 7. *)
Definition planned_seven : heap plan_job := {[ 1%positive := mkCell (request 2 1) None None ]}.
Definition foreign_seven : JobInfo := example_request 4 2 <| job_id := "7.other.org" |> <| state := JobRunning |>.

Lemma job_of_another_server_is_matched :
  (let! (h, _, (_, found)) := match_cluster 100 5 foreign_seven
     (mkCluster None 0 ∅ None 0 [] [] 4 4 1 1000) planned_seven (mkList 1 (Some 1%positive) (Some 1%positive) None) [] in
   Ret (found, pj_jinfo <$> items h !! 1%positive, pj_jinfo <$> items planned_seven !! 1%positive))
  = Ret (true, Some (Some 5%positive), Some (Some 1%positive)).
Proof. vm_compute. reflexivity. Qed.
