(* ===== verification/PlanRun.v ===== *)
(** * Running the plan: World::try_run_plan and World::plan_run

    The jobs whose planned time has come are checked once more, on the nodes of the
    plan, and the server is asked to run them.  The server, its nodes and jobs are
    the [world] that was read in this cycle; the plan points to them. *)

From Stdlib Require Import ZArith Lia Bool Ascii String SpecFloat.
From S2P Require Import Prelude Connections CString CFloat MiscHelpers Config Prime Resource PropRegistry DataTypes NodeData JobInfo StateCount QueueInfo ServerInfo NodeLogic NodeInfo JobPlan Assign Check JobUpdate PlanData PlanList PlanValues PlanClusters PlanSched PlanNodespec PlanFairshare PlanEval PlanOptim PlanJobs FairshareTree Fairshare ExternalCache Query Cycle.

Local Open Scope string_scope.
Open Scope Z_scope.
Local Open Scope sched_scope.

(** January 2000: a start time that was planned lies behind it. *)
Definition oldest_start : Z := 946684800.

(** What running the plan changes, the plan apart; [ps_booting] is the variable of
    [try_run_plan], which is set to zero only once. *)
Record plan_state := mkPlanState {
  ps_world : world;
  ps_conns : ConnectionMgr;
  ps_requests : list alter_request;
  ps_runs : list (run_request * Z);
  ps_booting : bool
}.

#[export] Instance plan_state_fields : Fields plan_state :=
  fields_app (fields_app (fields_app (fields_app (fields_app (fields_const mkPlanState)
    ps_world) ps_conns) ps_requests) ps_runs) ps_booting.

(** The targets of the nodes that are assigned; [booting] stays when no node boots. *)
Fixpoint join_assigned (db : RescInfoDb) (st : node_store) (j : JobInfo) (first : bool) (nodes : list positive) : outcome string :=
  match nodes with
  | [] => Ret ""
  | p :: nodes =>
      let! n := of_option (st !! p) in
      if has_assignment (assign n) then
        let! t := get_target_full db j n false in
        let! rest := join_assigned db st j false nodes in
        Ret ((if first then "" else "+") ++ t ++ rest)
      else join_assigned db st j first nodes
  end.

Definition nodes_preassign_string_new (db : RescInfoDb) (parse_nodespec : string -> pars_spec) (st : node_store) (j : JobInfo)
    (nodes : list positive) (booting : bool) : outcome (option string * bool) :=
  if booting_assigned st nodes then Ret (None, true)
  else
    let! s := join_assigned db st j true nodes in
    Ret (Some (s ++ if is_exclusive parse_nodespec j then "#excl" else ""), booting).

(** The nodes in front of the array, none of which may be null. *)
Fixpoint all_nodes (arr : list (option positive)) : outcome (list positive) :=
  match arr with
  | [] => Ret []
  | p :: arr => let! p := of_option p in let! l := all_nodes arr in Ret (p :: l)
  end.

Section Run.
Variable conf : config.
Variable cstat : status.
(** [time(NULL)], and the time the cycle goes by. *)
Variables now time_now : Z.
Variable parse_nodespec : string -> pars_spec.
Variable user_denied : string -> string -> string -> bool.
Variable cache_get : string -> string -> option string.
Variable getgrnam : string -> option (list string).
Variable group_lines : option (list (string * string)).
Variable cache : nat -> string -> string -> option (string -> option string).
Variable answer_run : nat -> run_request -> Z.

(** ** One job *)

Definition is_due (job : plan_job) : bool := (pj_start_time job <=? time_now) && (pj_start_time job >? oldest_start).

(** [strcmp(jinfo->queue->server->name, conf.local_server)]: about the server that
    was read, not the one of the job. *)
Definition plan_remote (w : world) : bool := negb (strcmp (srv_name (w_server w)) (local_server conf) =? 0).

(** The check has passed: the request is made, and the dynamic resources taken when
    it was accepted.  [minspec] of the function stays zero. *)
Definition run_planned (x : chk) (k : nat) (p : positive) (nodes : list positive) (st : plan_state) : outcome plan_state :=
  let w := put_chk (ps_world st) p k x in
  let j := c_job x in
  let q := c_queue x in
  let! (best, booting) := nodes_preassign_string_new (w_db w) parse_nodespec (w_nodes w) j nodes (ps_booting st) in
  let r := if plan_remote w then MoveJob (job_id j) (q_name q ++ "@" ++ local_server conf) best else RunJob (job_id j) best in
  let ret := answer_run (length (ps_runs st)) r in
  let! (rs, _) := update_job_fairshare j (fmul (F := binary64) (fmul (F := binary64) fzero (queue_cost q)) (calculated_fairshare j)) in
  let s := w_server w in
  let dyn := if ret =? 0 then fold_left (schedule_request j) (sorted_resources (w_db w)) (dynamic_resources s)
             else dynamic_resources s in
  let runs := (ps_runs st ++ [(r, ret)])%list in
  let! w := query_external_cache (cache (length runs)) true (w <| w_server := s <| dynamic_resources := dyn |> |>) in
  Ret (mkPlanState w (ps_conns st) (ps_requests st ++ rs)%list runs booting).

(** The key of the server that was read, and the one the cluster points to: the
    server of a cluster that has none of its nodes any more was freed. *)
Variables sinfo : positive.
Variable cluster_sinfo : option positive.

(** A placement that starts with a caret is dropped.  A job without room in a
    dynamic resource is left alone for half an hour. *)
Definition start_planned (p : positive) (j : JobInfo) (job : plan_job) (st : plan_state) : outcome (plan_job * plan_state) :=
  let w := ps_world st in
  let j := if negb (String.eqb (placement j) "") && (hd0 (placement j) =c "^") then j <| placement := "" |> else j in
  let! (job, j, count) := job_create_nodespec (fun s => Some (parse_nodespec s)) (w_nodes w) job j in
  let! _ := if plan_remote w then get_connection (ps_conns st) (server_of (job_id j)) else get_master_connection (ps_conns st) in
  let w := with_job w p (clean_parsed_nodespec j) in
  let! (x, k) := chk_of w p in
  let! nodes := all_nodes (take (Z.to_nat count) (pj_ninfo_arr job)) in
  let! _ := if bool_decide (cluster_sinfo = Some sinfo) then Ret tt else UB in
  let! (ret, x) :=
    is_ok_to_run_job_new (w_db w) (w_registry w) conf cstat now parse_nodespec user_denied cache_get getgrnam group_lines nodes x in
  let st := st <| ps_world := put_chk w p k x |> in
  if ret =? INSUFICIENT_DYNAMIC_RESOURCE then Ret (job <| pj_available_after := i64 (time_now + 1800) |>, st)
  else if negb (ret =? SUCCESS) then Ret (job, st)
  else let! st := run_planned x k p nodes st in Ret (job, st).

(** ** The walk over the jobs of a cluster *)

(** The walk starts again when a job is removed. *)
Definition plan_step (x : positive) (h : heap plan_job) (l : plan_list) (st : plan_state)
  : outcome (heap plan_job * plan_list * plan_state * bool) :=
  let! job := item_at h x in
  if pj_available_after job >? time_now then Ret (h, l, st, true)
  else
    let! p := of_option (pj_jinfo job) in
    let! j := of_option (w_jobs (ps_world st) !! p) in
    if negb (bool_decide (state j = JobRunning)) && (pj_start_time job <? 0) then
      let! (h, l, _) := list_remove_item h l (Some x) true in Ret (h, l, st, true)
    else if bool_decide (state j = JobQueued) && is_due job then
      let! (job, st) := start_planned p j job st in Ret (set_item h x job, l, st, true)
    else Ret (h, l, st, true).

Definition run_jobs (h : heap plan_job) (l : plan_list) (st : plan_state) : outcome (heap plan_job * plan_list * plan_state) :=
  each plan_step (raise_fuel h) h (l <| current := None |>) st.

End Run.

Section Plan.
Variable conf : config.
Variable cstat : status.
Variables now time_now : Z.
Variable parse_nodespec : string -> pars_spec.
Variable user_denied : string -> string -> string -> bool.
Variable cache_get : string -> string -> option string.
Variable getgrnam : string -> option (list string).
Variable group_lines : option (list (string * string)).
Variable cache : nat -> string -> string -> option (string -> option string).
Variable answer_run : nat -> run_request -> Z.
Variable sinfo : positive.

Definition run_cluster (pst : planner * plan_state) (k : nat) : outcome (planner * plan_state) :=
  let (pn, st) := pst in
  let! cl := cluster_at pn k in
  let! jl := jobs_at pn k in
  let! (h, jl, st) :=
    run_jobs conf cstat now time_now parse_nodespec user_denied cache_get getgrnam group_lines cache answer_run
      sinfo (pc_sinfo cl) (pn_jobs pn) jl st in
  Ret (with_jobs pn k h jl, st).

Definition try_run_plan (pn : planner) (st : plan_state) : outcome (planner * plan_state) :=
  ofold run_cluster (clusters_of (pn_sched pn)) (pn, st).

(** ** A cycle of [World::plan_run] *)

Variable badval : Z.
Variable junk_gap : plan_gap.
Variable junk_job : plan_job.
Variable junk_cluster : plan_cluster.
Variables junk_index junk_int : Z.
Variable create_job : option plan_job.
Variable create_gap : option plan_gap.
Variable create_limit : option plan_limit.
(** [rand] and [time] during the optimisation, and the patience with its loops. *)
Variable rand : nat -> Z.
Variable clock : nat -> Z.
Variable patience : nat.

(** The plan works on the nodes and jobs that were read. *)
Definition share (w : world) (pn : planner) : planner := pn <| pn_nodes := w_nodes w |> <| pn_jinfos := w_jobs w |>.
Definition unshare (pn : planner) (w : world) : world := w <| w_nodes := pn_nodes pn |> <| w_jobs := pn_jinfos pn |>.

(** What the planner keeps from cycle to cycle. *)
Record plan_kept := mkPlanKept {
  pk_planner : planner;
  pk_fslist : fairshare_list;
  pk_accounts : list string;
  pk_optimization_time : Z;
  pk_update_qstat : Z;
  pk_calls : calls
}.

(** The plan takes in what the server reports: nodes, known jobs, jobs that run
    already, and new jobs; every cluster is planned anew. *)
Definition update_plan (w : world) (ks : plan_kept) : outcome (plan_world * fairshare_list * list positive) :=
  let parse s := Some (parse_nodespec s) in
  let limits := limits_for_clusters conf in
  let s := w_server w in
  let pn := share w (pk_planner ks) in
  let! (nodes, sch) := plan_update_clusters junk_cluster junk_int (pn_nodes pn) (pn_sched pn) (Some sinfo) (srv_nodes s) in
  let pn := pn <| pn_nodes := nodes |> <| pn_sched := sch |> in
  let! (pn, fslist, jobs, new) :=
    plan_known_jobs_update conf (fs_groups (w_fairshare w)) time_now (srv_jobs s) pn (pk_fslist ks) in
  let! (pw, _) := add_already_running_jobs parse junk_job junk_index create_job new (mkWorld pn (pk_accounts ks) []) in
  let! pn := ofold (fun pn k =>
      update_until badval parse limits junk_gap create_job create_gap create_limit (S (size (pn_jobs pn))) k time_now pn)
    (clusters_of (pn_sched (pw_planner pw))) (pw_planner pw) in
  let queue_of p := j ← pn_jinfos pn !! p; k ← queue j; srv_queues s !! k in
  let! (pw, _) :=
    try_to_schedule_new_jobs badval parse limits junk_gap junk_job junk_index create_job create_gap create_limit conf
      (srv_queues s) queue_of new time_now (mkWorld pn (pw_accounts pw) (pw_requests pw)) in
  Ret (pw, fslist, jobs).

(** Not in every cycle. *)
Definition improve_plan (ks : plan_kept) : outcome plan_kept :=
  if i64 (pk_optimization_time ks + optim_timeout conf) <=? time_now then
    let! o :=
      plan_optimization badval (fun s => Some (parse_nodespec s)) (limits_for_clusters conf) junk_gap create_job create_gap
        create_limit rand clock patience conf time_now (pk_planner ks) (pk_fslist ks) (pk_calls ks) in
    let c := op_calls o in
    Ret (mkPlanKept (op_planner o) (op_fslist o) (pk_accounts ks) (clock (readings c)) (i32 (pk_update_qstat ks + 1))
           (mkCalls (draws c) (S (readings c))))
  else Ret ks.

(** The users are told when and where their jobs will run, cluster by cluster; the
    first one resets the counter. *)
Definition tell_plan (pw : plan_world) (update_qstat : Z) : outcome (plan_world * Z) :=
  let! (pw, n) :=
    if update_qstat >? 1 then
      ofold (fun '(pw, _) k =>
        let! pw := update_planned_start conf k pw in
        let! pw := update_planned_nodes conf k pw in
        Ret (pw, 0)) (clusters_of (pn_sched (pw_planner pw))) (pw, update_qstat)
    else Ret (pw, update_qstat) in
  Ret (pw, if n >? 0 then i32 (n + 1) else n).

(** The part of a cycle between the reading of the server and the end: the plan is
    updated, run, improved and told.  The last part are the requests to the server. *)
Definition plan_cycle (w : world) (conns : ConnectionMgr) (ks : plan_kept)
  : outcome (world * plan_kept * list alter_request * list (run_request * Z)) :=
  let! (pw, fslist, jobs) := update_plan w ks in
  let pn := pw_planner pw in
  let w := unshare pn (w <| w_server := w_server w <| srv_jobs := jobs |> |>) in
  let! (pn, st) := try_run_plan pn (mkPlanState w conns [] [] false) in
  let w := ps_world st in
  let! ks := improve_plan (mkPlanKept (share w pn) fslist (pw_accounts pw) (pk_optimization_time ks) (pk_update_qstat ks) (pk_calls ks)) in
  let requests := (pw_requests pw ++ ps_requests st)%list in
  let! (pw, n) := tell_plan (mkWorld (pk_planner ks) (pk_accounts ks) requests) (pk_update_qstat ks) in
  Ret (unshare (pw_planner pw) w,
       mkPlanKept (pw_planner pw) (pk_fslist ks) (pw_accounts pw) (pk_optimization_time ks) n (pk_calls ks),
       pw_requests pw, ps_runs st).
End Plan.
