(* ===== verification/PlanRunSpec.v ===== *)
(** * The walk that runs the plan ends, and starts only jobs that are due *)

From Stdlib Require Import ZArith Lia Bool Ascii String SpecFloat.
From S2P Require Import Prelude Connections CString CFloat MiscHelpers Config Prime Resource PropRegistry DataTypes NodeData JobInfo StateCount QueueInfo ServerInfo NodeLogic NodeInfo JobPlan Assign Check RunLimits JobUpdate PlanData PlanList PlanListSpec PlanValues PlanClusters PlanSched PlanSchedSpec PlanNodespec PlanFairshare PlanEval PlanOptim PlanJobs FairshareTree Fairshare ExternalCache Query Cycle CycleSpec PlanRun.

Open Scope Z_scope.
Local Open Scope sched_scope.

(** ** What stays of a job *)

Definition same_job (j j' : JobInfo) : Prop := job_id j' = job_id j /\ state j' = state j.

(** The jobs are those of before, under the same keys. *)
Definition jobs_stay (m m' : gmap positive JobInfo) : Prop :=
  forall p j', m' !! p = Some j' -> exists j, m !! p = Some j /\ same_job j j'.

Lemma jobs_stay_refl m : jobs_stay m m.
Proof. intros p j Hj. by exists j. Qed.

Lemma jobs_stay_trans m1 m2 m3 : jobs_stay m1 m2 -> jobs_stay m2 m3 -> jobs_stay m1 m3.
Proof.
  intros H1 H2 p j Hj. destruct (H2 p j Hj) as (j2 & E2 & A1 & A2). destruct (H1 p j2 E2) as (j1 & E1 & B1 & B2).
  exists j1. split; [done|]. split; congruence.
Qed.

Lemma jobs_stay_insert m p j j' : m !! p = Some j -> same_job j j' -> jobs_stay m (<[p := j']> m).
Proof.
  intros E H q i [[<- <-]|[Hne Hi]]%lookup_insert_Some; [by exists j|]. by exists i.
Qed.

(** What stays of a planned job. *)
Definition same_plan (a b : plan_job) : Prop := pj_start_time b = pj_start_time a /\ pj_jinfo b = pj_jinfo a.

Lemma job_create_same parse nodes job j job' j' n :
  job_create_nodespec parse nodes job j = Ret (job', j', n) -> same_plan job job' /\ same_job j j'.
Proof.
  unfold job_create_nodespec. destruct (nodespec_front _) as [front| |]; cbn [obind]; [|done..].
  destruct (cleaned_request _) as [[request is_excl]| |]; cbn [obind]; [|done..]. cbv zeta.
  match goal with |- context [obind ?e _] => destruct e as [parts| |] end; cbn [obind]; [|done..].
  destruct (nodespec_loop _ _ _ _) as [st| |]; cbn [obind]; [|done..].
  destruct (ns_planned_node st) as [p|]; [|by intros [= <- <- _]].
  destruct (add_node_spec _ _ _ _ _ _) as [spec| |]; cbn [obind]; [|done..]. destruct (packed_nodes _ _) as [arr count].
  destruct is_excl; cbn [obind]; [by intros [= <- <- _]|]. unfold exclusive_job.
  destruct (p_parsed_nodespec _); cbn [obind]; [by intros [= <- <- _]|].
  destruct (of_option _) as [spec'| |]; cbn [obind]; [by intros [= <- <- _]|done..].
Qed.

Section Walk.
Context (conf : config) (cstat : status) (now time_now : Z) (parse : string -> pars_spec) (denied : string -> string -> string -> bool).
Context (cache_get : string -> string -> option string) (getgr : string -> option (list string)).
Context (lines : option (list (string * string))) (cache : nat -> string -> string -> option (string -> option string)).
Context (answer_run : nat -> run_request -> Z) (sinfo : positive) (cluster_sinfo : option positive).
Notation step := (plan_step conf cstat now time_now parse denied cache_get getgr lines cache answer_run sinfo cluster_sinfo).
Notation run := (run_jobs conf cstat now time_now parse denied cache_get getgr lines cache answer_run sinfo cluster_sinfo).
Notation start := (start_planned conf cstat now time_now parse denied cache_get getgr lines cache answer_run sinfo cluster_sinfo).

(** ** The walk ends *)

(** A step stays at its job, or removes it and starts the walk again. *)
Lemma plan_step_moves ys x zs h l st h' l' st' go :
  lists h l (ys ++ x :: zs) -> current l = Some x -> Z.of_nat (length (ys ++ x :: zs)) < 2 ^ 31 -> step x h l st = Ret (h', l', st', go) ->
  go = true /\ ((l' = l /\ lists h' l (ys ++ x :: zs)) \/ (lists h' l' (ys ++ zs) /\ current l' = None)).
Proof.
  intros Hl Hx Hsmall. unfold plan_step. destruct (item_at h x) as [job| |]; cbn [obind]; [|done..].
  destruct (_ >? _); [intros [= <- <- <- <-]; split; [done|by left]|].
  destruct (pj_jinfo job) as [p|]; cbn [of_option obind]; [|done].
  destruct (w_jobs (ps_world st) !! p) as [j|]; cbn [of_option obind]; [|done].
  destruct (_ && (_ <? 0)).
  - destruct (list_remove_item_spec h l ys x zs true Hl Hsmall) as (h1 & l1 & E & Hl1 & Hc1 & _). rewrite E. cbn [obind].
    intros [= <- <- <- <-]. split; [done|by right].
  - destruct (_ && _); [|intros [= <- <- <- <-]; split; [done|by left]].
    destruct (start p j job st) as [[job1 st1]| |]; cbn [obind]; [|done..]. intros [= <- <- <- <-]. split; [done|]. left.
    split; [done|]. by apply lists_set_item.
Qed.

Lemma run_walk_ends fuel : forall ys zs h l st more,
  lists h l (ys ++ zs) -> current l = last ys -> Z.of_nat (length (ys ++ zs)) < 2 ^ 31 ->
  (length (ys ++ zs) * S (length (ys ++ zs)) + length zs < fuel)%nat -> (fuel <= more)%nat ->
  each step more h l st = each step fuel h l st.
Proof.
  induction fuel as [|fuel IH]; intros ys zs h l st more Hl Hc Hsmall Hf Hm; [lia|]. destruct more as [|more]; [lia|]. cbn [each].
  rewrite (next_of_walk h l ys zs Hl Hc). cbn [obind]. destruct zs as [|x zs]; [done|].
  change (current (l <| current := head (x :: zs) |>)) with (Some x).
  set (l1 := l <| current := head (x :: zs) |>). assert (Hl1 : lists h l1 (ys ++ x :: zs)) by (by apply lists_current).
  cbn iota. destruct (step x h l1 st) as [[[[h2 l2] st2] go]| |] eqn:E; cbn [obind]; [|done..].
  destruct (plan_step_moves ys x zs h l1 st h2 l2 st2 go Hl1 eq_refl Hsmall E) as [-> [[-> Hl2]|[Hl2 Hc2]]].
  - apply (IH (ys ++ [x])%list zs); rewrite <- ?(assoc_L (++)); try done; [by rewrite last_snoc| |lia].
    cbn [app length] in *. nia.
  - rewrite !length_app in *. cbn [length] in *. apply (IH [] (ys ++ zs)%list); cbn [app]; rewrite ?length_app; try done; [lia| |lia]. nia.
Qed.

(** The fuel is enough: more turns do not change what the walk gives. *)
Lemma run_jobs_ends h l st xs fuel :
  lists h l xs -> Z.of_nat (length xs) < 2 ^ 31 -> (raise_fuel h <= fuel)%nat ->
  each step fuel h (l <| current := None |>) st = run h l st.
Proof.
  intros Hl Hsmall Hf. unfold run_jobs. apply (run_walk_ends _ [] xs); [by apply lists_current|done|done| |done].
  pose proof (lists_size _ _ _ Hl). unfold raise_fuel. cbn [app]. nia.
Qed.

(** ** What is started *)

Definition requested (r : run_request) : string := match r with RunJob id _ => id | MoveJob id _ _ => id end.

Lemma check_new_job db reg nodes x rc x' :
  is_ok_to_run_job_new db reg conf cstat now parse denied cache_get getgr lines nodes x = Ret (rc, x') ->
  job_core (c_job x') = job_core (c_job x).
Proof.
  unfold is_ok_to_run_job_new. destruct (check_run_limits x) as [rc1 x1] eqn:E.
  assert (Ej : c_job x1 = c_job x).
  { destruct x as [s q j st]. revert E. unfold check_run_limits. repeat case_match; by intros [= _ <-]. }
  destruct (negb (rc1 =? 0)); [intros [= _ <-]; by rewrite Ej|]. intros (_ & _ & E2)%check_resources_core. by rewrite E2, Ej.
Qed.

Lemma external_cache_jobs c w w' : query_external_cache c true w = Ret w' -> w_jobs w' = w_jobs w.
Proof.
  unfold query_external_cache. destruct (refresh_resources c w) as [w1| |] eqn:E1; cbn [obind]; [|done..].
  apply refresh_resources_state in E1 as (_ & E1 & _).
  destruct (ofold decode_status _ w1) as [w2| |] eqn:E2; cbn [obind]; [|done..].
  assert (H2 : w_jobs w2 = w_jobs w1).
  { refine (ofold_invariant _ (fun w2 => w_jobs w2 = w_jobs w1) _ _ _ _ eq_refl E2). intros w3 p w4 A _ (_ & B & _)%decode_status_state. congruence. }
  destruct (recount_installing_nodes _ _) as [s| |]; cbn [obind]; [|done..]. intros [= <-]. cbn. congruence.
Qed.

Lemma run_planned_spec x k p nodes st st' :
  run_planned conf parse cache answer_run x k p nodes st = Ret st' ->
  w_jobs (ps_world st') = <[p := c_job x]> (w_jobs (ps_world st)) /\
  exists r ret, ps_runs st' = (ps_runs st ++ [(r, ret)])%list /\ requested r = job_id (c_job x).
Proof.
  unfold run_planned. destruct (nodes_preassign_string_new _ _ _ _ _ _) as [[best booting]| |]; cbn [obind]; [|done..].
  destruct (update_job_fairshare _ _) as [[rs rc]| |]; cbn [obind]; [|done..].
  destruct (query_external_cache _ _ _) as [w| |] eqn:E; cbn [obind]; [|done..]. intros [= <-].
  apply external_cache_jobs in E. split; [done|]. cbn [ps_runs]. eexists _, _. split; [done|]. by destruct (plan_remote _ _).
Qed.

Lemma start_planned_spec p j job st job' st' :
  w_jobs (ps_world st) !! p = Some j -> start p j job st = Ret (job', st') ->
  same_plan job job' /\ jobs_stay (w_jobs (ps_world st)) (w_jobs (ps_world st')) /\
  (ps_runs st' = ps_runs st \/ exists r ret, ps_runs st' = (ps_runs st ++ [(r, ret)])%list /\ requested r = job_id j).
Proof.
  intros Ej. unfold start_planned. set (j1 := if _ && _ then _ else j).
  assert (H1 : same_job j j1) by (unfold j1; destruct (_ && _); done). clearbody j1.
  destruct (job_create_nodespec _ _ _ _) as [[[job2 j2] count]| |] eqn:E2; cbn [obind]; [|done..].
  apply job_create_same in E2 as [Hp [I2 S2]].
  match goal with |- context [obind ?e _] => destruct e end; cbn [obind]; [|done..].
  set (j3 := clean_parsed_nodespec j2). assert (H3 : same_job j j3) by (destruct H1; split; cbn; congruence).
  set (w := with_job (ps_world st) p j3).
  destruct (chk_of w p) as [[x k]| |] eqn:Ex; cbn [obind]; [|done..]. apply chk_of_ret in Ex as (Ex & _).
  cbn in Ex. rewrite lookup_insert_eq in Ex. injection Ex as Ex.
  destruct (all_nodes _) as [nodes| |]; cbn [obind]; [|done..].
  match goal with |- context [obind ?e _] => destruct e end; cbn [obind]; [|done..].
  destruct (is_ok_to_run_job_new _ _ _ _ _ _ _ _ _ _ _ _) as [[ret x']| |] eqn:Ec; cbn [obind]; [|done..].
  apply check_new_job in Ec. pose proof (f_equal job_id Ec) as C1. pose proof (f_equal state Ec) as C2. cbn in C1, C2.
  assert (H4 : same_job j (c_job x')) by (destruct H3; split; congruence).
  assert (Hs : jobs_stay (w_jobs (ps_world st)) (<[p := c_job x']> (<[p := j3]> (w_jobs (ps_world st))))).
  { rewrite insert_insert_eq. by eapply jobs_stay_insert. }
  destruct (ret =? INSUFICIENT_DYNAMIC_RESOURCE); [intros [= <- <-]; split_and!; [done|exact Hs|by left]|].
  destruct (negb (ret =? SUCCESS)); [intros [= <- <-]; split_and!; [done|exact Hs|by left]|].
  destruct (run_planned _ _ _ _ _ _ _ _ _) as [st2| |] eqn:Er; cbn [obind]; [|done..]. intros [= <- <-].
  apply run_planned_spec in Er as (Ew & r & rc & Er & Eid). cbn in Ew. split_and!; [done| |].
  - rewrite Ew. rewrite insert_insert_eq in Hs |- *. by rewrite insert_insert_eq.
  - right. exists r, rc. split; [done|]. destruct H4. congruence.
Qed.

(** A job of the plan that is queued and due, and the request for it. *)
Definition due_request (h : heap plan_job) (jobs : gmap positive JobInfo) (xs : list positive) (r : run_request * Z) : Prop :=
  exists x job p j, x ∈ xs /\ item_at h x = Ret job /\ pj_jinfo job = Some p /\ jobs !! p = Some j /\
    state j = JobQueued /\ is_due time_now job = true /\ requested (fst r) = job_id j.

Record runs_due (h0 : heap plan_job) (st0 : plan_state) (xs : list positive) (h : heap plan_job) (l : plan_list) (st : plan_state) : Prop := {
  ru_list : exists ys, ys ⊆ xs /\ (length ys <= length xs)%nat /\ at_item h l ys;
  ru_items : forall x job, item_at h x = Ret job -> exists job0, item_at h0 x = Ret job0 /\ same_plan job0 job;
  ru_jobs : jobs_stay (w_jobs (ps_world st0)) (w_jobs (ps_world st));
  ru_runs : exists new, ps_runs st = (ps_runs st0 ++ new)%list /\ Forall (due_request h0 (w_jobs (ps_world st0)) xs) new
}.

Lemma item_at_inv {A} (h : heap A) x a : item_at h x = Ret a <-> items h !! x = Some a.
Proof.
  unfold item_at, items. rewrite lookup_fmap. destruct (h !! x) as [c|]; cbn; [|done]. split; [by intros [= <-]|by intros [= <-]].
Qed.

Lemma plan_step_due h0 st0 xs x h l st h' l' st' go :
  Z.of_nat (length xs) < 2 ^ 31 -> runs_due h0 st0 xs h l st -> current l = Some x -> step x h l st = Ret (h', l', st', go) ->
  runs_due h0 st0 xs h' l' st'.
Proof.
  intros Hsmall [(ys & Hsub & Hlen & Hat) Hi Hj Hr] Hx. pose proof Hat as [Hl Hc]. pose proof (Hc x Hx) as Hin.
  unfold plan_step. destruct (item_at h x) as [job| |] eqn:Ejob; cbn [obind]; [|done..].
  assert (Hsame : runs_due h0 st0 xs h l st) by (constructor; eauto).
  destruct (_ >? _); [by intros [= <- <- <- _]|].
  destruct (pj_jinfo job) as [p|] eqn:Ep; cbn [of_option obind]; [|done].
  destruct (w_jobs (ps_world st) !! p) as [j|] eqn:Ej; cbn [of_option obind]; [|done].
  destruct (_ && (_ <? 0)).
  - apply list_elem_of_split in Hin as (ys1 & ys2 & ->).
    destruct (list_remove_item_spec h l ys1 x ys2 true Hl ltac:(lia)) as (h1 & l1 & E & Hl1 & Hc1 & _ & Hd). rewrite E. cbn [obind].
    intros [= <- <- <- _]. constructor; [|intros y jy; rewrite item_at_inv, Hd, lookup_delete_Some; intros [_ ?]; by apply Hi, item_at_inv|done|done].
    exists (ys1 ++ ys2)%list. rewrite !length_app in *. cbn [length] in *. split; [set_solver|]. split; [lia|]. split; [done|]. rewrite Hc1. done.
  - destruct (bool_decide (state j = JobQueued) && is_due time_now job) eqn:Ed; [|by intros [= <- <- <- _]].
    apply andb_true_iff in Ed as [Eq%bool_decide_eq_true Ed].
    destruct (start p j job st) as [[job1 st1]| |] eqn:Es; cbn [obind]; [|done..]. intros [= <- <- <- _].
    apply start_planned_spec in Es as (Hp & Hst & Hruns); [|done]. constructor.
    + exists ys. split_and!; [done|done|by apply at_item_set].
    + intros y jy Hy. apply item_at_inv in Hy. unfold items, set_item in Hy. rewrite lookup_fmap, fmap_Some in Hy.
      destruct Hy as (c & [(<- & c0 & E0 & ->)|[Hne E0]]%lookup_alter_Some & ->).
      * destruct (Hi x job Ejob) as (job0 & E1 & S1 & P1). exists job0. split; [done|]. destruct Hp. cbn. split; congruence.
      * apply Hi. unfold item_at. by rewrite E0.
    + by eapply jobs_stay_trans.
    + destruct Hr as (new & En & Hn). destruct Hruns as [->|(r & ret & -> & Er)]; [by exists new|].
      exists (new ++ [(r, ret)])%list. rewrite En, (assoc_L (++)). split; [done|]. apply Forall_app. split; [done|]. constructor; [|done].
      destruct (Hi x job Ejob) as (job0 & E0 & S0 & P0). destruct (Hj p j Ej) as (j0 & F0 & I0 & T0).
      exists x, job0, p, j0. cbn [fst]. split_and!; try congruence; [by apply Hsub|].
      unfold is_due in *. by rewrite <- S0.
Qed.

(** C6: Running the plan of a cluster ends, and starts only what is due.  The walk
    starts again whenever it has removed a job, so that it takes at most as many turns
    as the fuel allows, and more would not change what it gives; and every request it
    makes of the server, to run or to move a job, is for a job of the plan that was
    queued and whose planned time had come, while no job changes its identifier or
    its state - a job that was started counts as queued until the next cycle. *)
Theorem running_plan_ends_with_due_jobs h l st xs fuel :
  lists h l xs -> Z.of_nat (length xs) < 2 ^ 31 -> (raise_fuel h <= fuel)%nat ->
  each step fuel h (l <| current := None |>) st = run h l st /\
  forall h' l' st', run h l st = Ret (h', l', st') ->
    (exists new, ps_runs st' = (ps_runs st ++ new)%list /\ Forall (due_request h (w_jobs (ps_world st)) xs) new) /\
    jobs_stay (w_jobs (ps_world st)) (w_jobs (ps_world st')).
Proof.
  intros Hl Hsmall Hf. split; [by eapply run_jobs_ends|]. intros h' l' st' H.
  assert (H0 : runs_due h st xs h (l <| current := None |>) st).
  { constructor; [|intros x job E; exists job; done|apply jobs_stay_refl|exists []; by rewrite app_nil_r].
    exists xs. split_and!; [done|done|by apply at_item_start]. }
  assert (Hnext : forall h1 l1 s1 l2, runs_due h st xs h1 l1 s1 -> list_get_next h1 l1 = Ret l2 -> runs_due h st xs h1 l2 s1).
  { intros h1 l1 s1 l2 [(ys & A & B & C) ? ? ?] E. constructor; try done. exists ys. split_and!; [done|done|by eapply at_item_next]. }
  assert (Hbody : forall x h1 l1 s1 h2 l2 s2 go, runs_due h st xs h1 l1 s1 -> current l1 = Some x -> step x h1 l1 s1 = Ret (h2, l2, s2, go) ->
    if go : bool then runs_due h st xs h2 l2 s2 else runs_due h st xs h2 l2 s2).
  { intros x h1 l1 s1 h2 l2 s2 go Hi Hx E. destruct go; by eapply plan_step_due. }
  by destruct (each_inv step (runs_due h st xs) (runs_due h st xs) _ _ _ _ _ _ _ Hnext Hbody H H0) as [[_ _ Hj Hr]|[_ _ Hj Hr]].
Qed.
End Walk.

(** ** Examples *)

(** A job on a node, and the list of the jobs in the order of their keys. *)
Definition planned (p node : positive) (start : Z) : plan_job :=
  mkPlanJob 1 (Some p) start (start + 100) 100 0 0 0 2 2 0 1 10 0 0 [Some node] None None [] [] None false 0.

Definition second_node : node_info :=
  let d := NodeLogic.data plan_example_node in plan_example_node <| NodeLogic.data := d <| nd_name := "n2"%string |> |>.

Definition planned_world (n : nat) : world :=
  let j i := new_JobInfo (dec (Z.of_nat i) ++ ".srv")%string <| account := "ann"%string |> <| queue := Some 0%nat |>
    <| state := JobQueued |> <| nodespec := "1:ppn=2:mem=1mb"%string |> in
  let jobs : gmap positive JobInfo := list_to_map ((fun i => (Pos.of_nat i, j i)) <$> seq 1 n) in
  mkW (new_server_info "srv" <| max_user_run := 1 |> <| srv_nodes := [1; 2]%positive |> <| srv_queues := [new_queue_info "q"] |>)
    {[ 1%positive := plan_example_node; 2%positive := second_node ]}
    jobs (mkFairshare ∅ ∅) ∅ (mkPropRegistry ∅ [] [] []).

(** One node with two processors, whatever the text. *)
Definition two_cpus (_ : string) : pars_spec := mkSpec false [mkSpecNode 1 None None 2 0 0 0 ScratchNone []] 1 2.

Definition planned_list (jobs : list plan_job) : heap plan_job * plan_list :=
  let n := length jobs in
  let at_place (i : nat) := if decide (1 <= i <= n)%nat then Some (Pos.of_nat i) else None in
  (list_to_map (imap (fun i job => (Pos.of_nat (S i), mkCell job (at_place (S (S i))) (at_place i))) jobs),
   mkList (Z.of_nat n) (at_place 1%nat) (at_place n) None).

Definition planned_state (n : nat) : plan_state :=
  mkPlanState (planned_world n) (mkConns {[ "srv"%string := 0 ]} "srv" [Some 5]) [] [] false.

Definition planned_run (jobs : list plan_job) : outcome (heap plan_job * plan_list * plan_state) :=
  let (h, l) := planned_list jobs in
  run_jobs (RunLimits.example_conf <| local_server := "srv"%string |>) zero_status 0 1000000100 two_cpus (fun _ _ _ => false)
    (fun _ _ => None) (fun _ => None) None (fun _ _ _ => None) (fun _ _ => 0) 1 (Some 1%positive) h l (planned_state (length jobs)).

Definition started (r : outcome (heap plan_job * plan_list * plan_state)) : outcome (list string) :=
  let! (_, _, st) := r in Ret ((fun e => requested (fst e)) <$> ps_runs st).

(** A limit is not kept: jobs that were started are not counted, so that both jobs of
    a user run who may run one. *)
Lemma started_jobs_are_not_counted :
  max_user_run (w_server (planned_world 2)) = 1 /\
  started (planned_run [planned 1 1 1000000000; planned 2 2 1000000000]) = Ret ["1.srv"; "2.srv"]%string.
Proof. split; vm_compute; reflexivity. Qed.

(** A job is started twice when two jobs behind it are removed: the walk starts again,
    the job still counts as queued, and the check that fails the first time frees its
    node. *)
Lemma removed_jobs_start_a_job_twice :
  started (planned_run [planned 1 1 1000000000; planned 2 2 (-1); planned 3 2 (-1)]) = Ret ["1.srv"; "1.srv"]%string.
Proof. vm_compute. reflexivity. Qed.

(** Every other job of a node is put off, as the node keeps its assignment until a
    check fails, and the others are started although the processors are used up: five
    jobs of two processors on a node of eight. *)
Lemma assignments_are_left_to_the_next_job :
  p_core_total (NodeLogic.data plan_example_node) = 8 /\
  started (planned_run ((fun i => planned (Pos.of_nat i) 1 1000000000) <$> seq 1 9))
  = Ret ["1.srv"; "3.srv"; "5.srv"; "7.srv"; "9.srv"]%string.
Proof. split; vm_compute; reflexivity. Qed.

Lemma running_plan_ends_with_due_jobs_witness :
  let jobs := [planned 1 1 1000000000; planned 2 2 (-1)] in
  match planned_run jobs with
  | Ret (_, _, st) => length (ps_runs st) = 1%nat /\
      Forall (due_request 1000000100 (fst (planned_list jobs)) (w_jobs (planned_world 2)) [1%positive; 2%positive]) (ps_runs st)
  | _ => False
  end.
Proof.
  intros jobs. assert (Hl : lists (fst (planned_list jobs)) (snd (planned_list jobs)) [1%positive; 2%positive]).
  { split; [apply (bool_decide_unpack _); vm_compute; exact I| |reflexivity|reflexivity|reflexivity]. repeat split; eexists; reflexivity. }
  pose proof (running_plan_ends_with_due_jobs (RunLimits.example_conf <| local_server := "srv"%string |>) zero_status 0 1000000100 two_cpus
    (fun _ _ _ => false) (fun _ _ => None) (fun _ => None) None (fun _ _ _ => None) (fun _ _ => 0) 1 (Some 1%positive) _ _
    (planned_state 2) _ _ Hl ltac:(reflexivity) (le_n _)) as [_ Hrun].
  destruct (planned_run jobs) as [[[h st_l] st]| |] eqn:E.
  - split; [revert E; vm_compute; by intros [= _ _ <-]|]. destruct (Hrun h st_l st E) as [(new & En & Hn) _]. rewrite En. exact Hn.
  - revert E. by vm_compute.
  - revert E. by vm_compute.
Defined.
