(* ===== verification/Realm.v ===== *)
(** * The main loops: World::run and World::plan_run

    A turn of a loop reads the servers, schedules, remembers what runs and closes
    the connections; what is kept from turn to turn is a [realm].  What a turn finds
    outside of the scheduler - the time, the network, the replies and answers of the
    servers, the cache and the files - are its [surroundings]. *)

From Stdlib Require Import ZArith Lia Bool Ascii String SpecFloat.
From S2P Require Import Prelude Connections CString CFloat MiscHelpers Config Prime Resource PropRegistry DataTypes Repository NodeData JobInfo StateCount QueueInfo ServerInfo NodeLogic NodeInfo JobPlan Assign Check JobUpdate PlanData PlanList PlanValues PlanClusters PlanSched PlanFairshare PlanEval PlanOptim PlanJobs FairshareTree Fairshare ExternalCache Query Cycle PlanRun.

Local Open Scope string_scope.
Open Scope Z_scope.
Local Open Scope sched_scope.

Record surroundings := mkSurroundings {
  (** [time(NULL)]: at the start of the turn, at the start of the loop over the
      jobs, and at each of its turns. *)
  su_now : Z;
  su_cycle_start : Z;
  su_clock : nat -> Z;
  (** The network. *)
  su_getaddrinfo : string -> addr_reply;
  su_hostaddr : string -> option Z;
  su_client_to_svr : Z -> Z;
  (** The servers. *)
  su_replies : server_replies;
  su_selstat : string -> string -> reply;
  su_answer_run : nat -> run_request -> Z;
  (** The cache, when the server is read and after each request to run a job. *)
  su_cache : string -> string -> option (string -> option string);
  su_run_cache : nat -> string -> string -> option (string -> option string);
  su_cached_host : string -> option string;
  (** The files of the bootable images. *)
  su_replica_hosts : option config_lines;
  su_replica_images : option config_lines;
  su_cache_get : string -> string -> option string;
  (** The files. *)
  su_tree_files : string -> tree_files;
  su_group_lines : option (list (string * string));
  su_config_file : option string;
  su_config_mtime : option Z;
  (** The order of the hash table of the owners. *)
  su_hash_order : gmap string (list (Z * positive)) -> list (list (Z * positive))
}.

(** What is kept from turn to turn; of the world only the trees, the resources and
    the properties. *)
Record realm := mkRealm {
  rl_globals : globals;
  rl_world : world;
  rl_conns : ConnectionMgr;
  rl_kept : kept_state
}.

#[export] Instance realm_fields : Fields realm :=
  fields_app (fields_app (fields_app (fields_app (fields_const mkRealm) rl_globals) rl_world) rl_conns) rl_kept.

(** ** The start: World::World *)

(** The table of resources and the files that are read only then. *)
Record start_files := mkStartFiles {
  sf_holidays : option string;
  sf_dedtime : option string;
  sf_last_decay : option Z;
  sf_resources : list (string * string * string)
}.

Section Start.
Variable localtime : Z -> tm.
Variable mktime : tm -> Z.
Variable read_ini : string -> option (list (string * list (string * string))).
Variable get_value : string -> option Z.
Variable unknown_shares : Z.
(** The table of connections of the batch system library. *)
Variable table : conn_table.

(** The time of the last decay that [schedinit] sets is never read: each turn reads
    that of the file. *)
Definition World (s : surroundings) (f : start_files) : outcome realm :=
  let! g := schedinit localtime mktime (su_config_file s) (sf_holidays f) (sf_dedtime f) (su_config_mtime s) (su_now s) in
  let! fs := init_fairshare read_ini get_value unknown_shares (su_tree_files s) (mkFairshare ∅ ∅) in
  let c := conf g in
  let last_sync := if prime_fs c || non_prime_fs c then current_time (cstat g) else 0 in
  Ret (mkRealm g (mkW (new_server_info "") ∅ ∅ fs (read_db ∅ (sf_resources f)) empty_registry)
         (mkConns ∅ "" table) (mkKept [] (mkDecay (sf_last_decay f) last_sync))).
End Start.

(** What a turn leaves outside: requests about jobs, requests to run them, what is
    stored in the cache, and files. *)
Record traces := mkTraces {
  tr_requests : list alter_request;
  tr_runs : list (run_request * Z);
  tr_dumped : list (string * list (string * spec_float));
  tr_files : list (string * string)
}.

Definition no_traces : traces := mkTraces [] [] [] [].

(** The half-lives that can have passed: the decay of a turn goes on for ever when
    the half-life is not positive. *)
Definition decay_fuel (c : config) (s : status) (ks : kept_state) : nat :=
  S (Z.to_nat ((current_time s - default 0 (ds_last_decay (ks_decay ks))) / half_life c)).

(** Number of turns for a loop over the jobs of a server: by [CycleSpec] one more
    than there are jobs to do is enough, in every order. *)
Definition loop_fuel (w : world) : nat :=
  S (size (w_jobs w) + length (srv_jobs (w_server w)) + sum_list (length <$> (q_jobs <$> srv_queues (w_server w)))).

Section Realm.
Variable localtime : Z -> tm.
Variables EAI_MEMORY EAI_AGAIN : Z.
Variable pbs_disconnect : conn_table -> Z -> conn_table.
Variable read_ini : string -> option (list (string * list (string * string))).
Variable get_value : string -> option Z.
Variable unknown_shares : Z.
Variable parse_prop : string -> pars_prop.
Variable parse_nodespec : string -> pars_spec.
Variable user_denied : string -> string -> string -> bool.
Variable getgrnam : string -> option (list string).
(** What the fields of a node hold that its constructor does not set. *)
Variables junk_total junk_free : Z.
Variable junk_nostarving : bool.
Variable junk_magrathea : MagratheaState.

Definition connect_master (s : surroundings) : ConnectionMgr -> string -> outcome (ConnectionMgr * Z) :=
  make_master_connection EAI_MEMORY EAI_AGAIN (su_getaddrinfo s) (su_hostaddr s) (su_client_to_svr s).

Definition connect_remote (s : surroundings) : ConnectionMgr -> string -> outcome (ConnectionMgr * Z) :=
  make_remote_connection EAI_MEMORY EAI_AGAIN (su_getaddrinfo s) (su_hostaddr s) (su_client_to_svr s).

(** [update_cycle_status] and [fetch_servers]: the status is kept even when the
    servers cannot be read. *)
Definition wake (s : surroundings) (r : realm) : outcome (realm * option (list alter_request)) :=
  let! g := update_cycle_status localtime (su_now s) (rl_globals r) in
  let c := conf g in
  let! (m, read) :=
    fetch_servers read_ini get_value unknown_shares (su_tree_files s) c (su_selstat s) (connect_remote s)
      (reset_connection pbs_disconnect) (connect_master s)
      (query_server read_ini get_value unknown_shares (su_tree_files s) c (cstat g) parse_prop (su_selstat s)
         junk_total junk_free junk_nostarving junk_magrathea (su_cached_host s) (su_cache s)
         (get_bootable_alternatives (su_replica_hosts s) (su_replica_images s)) (su_replies s))
      (rl_conns r) (rl_world r) in
  let r := r <| rl_globals := g |> <| rl_conns := m |> in
  match read with
  | None => Ret (r, None)
  | Some (w, requests) => Ret (r <| rl_world := w |>, Some requests)
  end.

(** What is remembered of the jobs that run, at the end of a turn. *)
Definition remember (r : realm) : outcome realm :=
  if fair_share (cstat (rl_globals r)) then
    let s := w_server (rl_world r) in
    let! last := update_last_running (sc_running (srv_sc s)) (running_jobs s) in
    Ret (r <| rl_kept := mkKept last (ks_decay (rl_kept r)) |>)
  else Ret r.

(** [cleanup_servers]: the server that was read is freed; what is left of it in
    [rl_world] is not used again. *)
Definition cleanup_servers (r : realm) : realm := r <| rl_conns := disconnect_all pbs_disconnect (rl_conns r) |>.

(** ** World::run *)

(** The time of a turn is over. *)
Definition is_late (c : config) (s : surroundings) (turn : nat) : bool := su_clock s turn - su_cycle_start s >? max_cycle c.

(** The cycle between the reading of the servers and the end. *)
Definition schedule_jobs (s : surroundings) (requests : list alter_request) (r : realm)
  : outcome (realm * cycle * leaving * list (string * string)) :=
  let c := conf (rl_globals r) in
  let st := cstat (rl_globals r) in
  let by_owner := owners (rl_world r) in
  let! (w, ks, cur, files) := init_scheduling_cycle (decay_fuel c st (rl_kept r)) c st (rl_kept r) (rl_world r) in
  let! (cy, how) :=
    run_loop c st (su_now s) parse_nodespec user_denied (su_cache_get s) getgrnam (su_group_lines s) (su_run_cache s)
      (su_answer_run s) (su_hash_order s) (loop_fuel w) (is_late c s) 0 0 false
      (mkCycle w by_owner cur (rl_conns r) requests []) in
  Ret (r <| rl_world := cy_world cy |> <| rl_conns := cy_conns cy |> <| rl_kept := ks |>, cy, how, files).

Definition run_turn (s : surroundings) (r : realm) : outcome (realm * traces) :=
  let! (r, requests) := wake s r in
  match requests with
  | None => Ret (r, no_traces)
  | Some requests =>
      let! (r, cy, _, files) := schedule_jobs s requests r in
      let! r := remember r in
      let! dumped := if fair_share (cstat (rl_globals r)) then dump_all_fairshare (w_fairshare (rl_world r)) else Ret [] in
      Ret (cleanup_servers r, mkTraces (cy_requests cy) (cy_runs cy) dumped files)
  end.

(** The turns until the scheduler is told to end, and the files that are written
    then. *)
Definition run (turns : list surroundings) (r : realm) : outcome (realm * list traces * list (string * string)) :=
  let! (r, traces) :=
    ofold (fun '(r, ts) s => let! (r, t) := run_turn s r in Ret (r, (ts ++ [t])%list)) turns (r, []) in
  let c := conf (rl_globals r) in
  let! files := if prime_fs c || non_prime_fs c then write_usages (w_fairshare (rl_world r)) else Ret [] in
  Ret (r, traces, files).

(** ** World::plan_run *)

Variable badval : Z.
Variable junk_gap : plan_gap.
Variable junk_job : plan_job.
Variable junk_cluster : plan_cluster.
Variables junk_index junk_int : Z.
Variable create_job : option plan_job.
Variable create_gap : option plan_gap.
Variable create_limit : option plan_limit.
(** [rand] and [time] of the optimisation, and the patience with its loops. *)
Variable rand : nat -> Z.
Variable clock : nat -> Z.
Variable patience : nat.

(** [fairshare.cpp]: the same priorities as [dump_all_fairshare], for the cache of
    a server. *)
Definition dump_all_fairshare_remote (fqdn : string) (fs : fairshare)
  : outcome (list (string * (string * list (string * spec_float)))) :=
  ofold (fun out '(name, root) =>
    let! d := dump_to_cache (size (fs_groups fs) + 1) (fs_groups fs) (Some root) in
    Ret (out ++ [(fqdn, (("fairshare." ++ name)%string, d))])%list) (sorted_trees fs) [].

(** The server of the first cluster: it is the one that was read, or the cluster is
    not there or has a server that was freed. *)
Definition first_server (sinfo : positive) (w : world) (pn : planner) : outcome string :=
  let! cl := cluster_at pn 0 in
  if bool_decide (pc_sinfo cl = Some sinfo) then Ret (srv_name (w_server w)) else UB.

(** A turn; [sinfo] is the key of the server that will be read. *)
Definition plan_turn (s : surroundings) (sinfo : positive) (rk : realm * plan_kept)
  : outcome (realm * plan_kept * list alter_request * list (run_request * Z)) :=
  let (r, ks) := rk in
  let! g := reload localtime (su_config_file s) (su_config_mtime s) (rl_globals r) in
  let! (r, requests) := wake s (r <| rl_globals := g |>) in
  match requests with
  | None => Ret (r, ks, [], [])
  | Some requests =>
      let c := conf (rl_globals r) in
      let st := cstat (rl_globals r) in
      let! (w, kept, _, _) := init_scheduling_cycle (decay_fuel c st (rl_kept r)) c st (rl_kept r) (rl_world r) in
      let! (w, ks, told, runs) :=
        plan_cycle c st (su_now s) (su_cycle_start s) parse_nodespec user_denied (su_cache_get s) getgrnam (su_group_lines s)
          (su_run_cache s) (su_answer_run s) sinfo badval junk_gap junk_job junk_cluster junk_index junk_int create_job
          create_gap create_limit rand clock patience w (rl_conns r) ks in
      let! r := remember (r <| rl_world := w |> <| rl_kept := kept |>) in
      let! _ :=
        if fair_share st then
          let! fqdn := first_server sinfo w (pk_planner ks) in
          let! _ := dump_all_fairshare_remote fqdn (w_fairshare w) in Ret tt
        else Ret tt in
      Ret (cleanup_servers r, ks, (requests ++ told)%list, runs)
  end.
End Realm.
