(* ===== verification/RealmSpec.v ===== *)
(** * What the main loop keeps from turn to turn

    The fairshare trees only grow, and stay trees, apart from each other; the
    connections that a turn opens are closed at its end; a turn that reads a
    consistent server breaks no limit of it. *)

From Stdlib Require Import ZArith Lia Bool Ascii String SpecFloat.
From S2P Require Import Prelude Connections CString CFloat MiscHelpers Config Prime Resource PropRegistry DataTypes NodeData JobInfo StateCount QueueInfo ServerInfo NodeLogic NodeInfo JobPlan Assign Check RunLimits JobUpdate FairshareTree FairshareShape FairshareSpec FairshareUse Fairshare FairshareCycle ExternalCache PlanData PlanList PlanValues PlanClusters PlanFindTotal PlanSched PlanNodespec PlanOptim PlanJobs Query Cycle CycleSpec QuerySpec PlanRun Realm.

Open Scope Z_scope.
Local Open Scope sched_scope.

Implicit Types (gs : groups) (fs : fairshare) (x : positive).

(** ** The trees *)

Definition trees_well (fs : fairshare) : Prop := exists F, trees_ok fs F.

(** The trees that are there stay, with their names; no group is lost or renamed. *)
Record grown fs fs' : Prop := {
  gr_trees : trees_well fs';
  gr_names : forall name root, fs_trees fs !! name = Some root -> fs_trees fs' !! name = Some root;
  gr_groups : forall x g, fs_groups fs !! x = Some g -> exists g', fs_groups fs' !! x = Some g' /\ gi_name g' = gi_name g
}.

Definition grows fs fs' : Prop := trees_well fs -> grown fs fs'.

#[export] Instance grows_preorder : PreOrder grows.
Proof.
  split.
  - intros fs H. constructor; [done|done|]. intros x g Hg. by exists g.
  - intros fs1 fs2 fs3 G1 G2 H1. destruct (G1 H1) as [T1 N1 X1]. destruct (G2 T1) as [T2 N2 X2]. constructor; [done|auto|].
    intros x g (g2 & Hg2 & <-)%X1. by apply X2.
Qed.

(** Usage changes, nothing else. *)
Definition reused fs fs' : Prop := fs_trees fs' = fs_trees fs /\ same_places (fs_groups fs) (fs_groups fs').

Lemma reused_refl fs : reused fs fs.
Proof. split; [done|apply same_places_refl]. Qed.

Lemma reused_trans fs1 fs2 fs3 : reused fs1 fs2 -> reused fs2 fs3 -> reused fs1 fs3.
Proof. intros [E1 S1] [E2 S2]. split; [congruence|by eapply same_places_trans]. Qed.

Lemma reused_grows fs fs' : reused fs fs' -> grows fs fs'.
Proof.
  intros [E S] [F H]. constructor.
  - exists F. pose proof (trees_ok_same fs _ F H S) as H'. destruct fs'. cbn in *. by subst.
  - intros name root Hr. by rewrite E.
  - intros x g Hg. specialize (S x). rewrite Hg in S. destruct (fs_groups fs' !! x) as [g'|]; [|done]. exists g'. by destruct S.
Qed.

Abbreviation fs_grows := (fun w w' : world => grows (w_fairshare w) (w_fairshare w')).

Section Trees.
Context (read_ini : string -> option (list (string * list (string * string)))) (get_value : string -> option Z)
  (unknown_shares : Z) (files : string -> tree_files).

Lemma get_tree_grows fs fs' name root :
  get_tree read_ini get_value unknown_shares files fs name = Ret (fs', root) ->
  trees_well fs -> grown fs fs' /\ fs_trees fs' !! name = Some root.
Proof.
  intros H [F Hok]. destruct (get_tree_spec read_ini get_value unknown_shares files fs fs' F name root Hok H) as (F' & H1 & H2 & H3 & H4).
  split; [|done]. constructor; [by exists F'|by apply H3|]. intros x g Hg. exists g. split; [|done]. by rewrite H4 by (by eexists).
Qed.

(** A user is looked up in one tree; the groups of the others are left alone. *)
Lemma find_alloc_trees fs F tree root name gs' x :
  trees_ok fs F -> fs_trees fs !! tree = Some root -> find_alloc_ginfo root (fs_groups fs) name = Ret (gs', x) ->
  trees_well (mkFairshare gs' (fs_trees fs)) /\
  (forall y g, fs_groups fs !! y = Some g -> exists g', gs' !! y = Some g' /\ gi_name g' = gi_name g) /\
  exists g, gs' !! x = Some g /\ gi_name g = name.
Proof.
  intros [Hf Hnd] Hroot E. pose proof (Hf _ _ Hroot) as Ht.
  destruct (find_alloc_spec (fs_groups fs) root (F root) name Ht) as (gs2 & f' & x2 & E2 & L). rewrite E in E2. injection E2 as <- <-.
  destruct (lu_keeps _ _ _ _ _ _ _ L) as (ks & [Ks Ko] & Hks & Hsub). split_and!.
  2: { intros y g Hg. destruct (Ks y g Hg) as (g' & ? & ? & _). by exists g'. }
  2: { destruct (search_some _ _ _ _ (lu_found _ _ _ _ _ _ _ L)) as [_ Hn]. unfold named in Hn.
       destruct (gs' !! x) as [g|]; [|done]. exists g. split; [done|]. by apply String.eqb_eq in Hn. }
  set (F' := fun r => if decide (r = root) then f' else F r).
  assert (Er : F' root = f') by (unfold F'; by rewrite decide_True).
  assert (Hother : forall r, r <> root -> F' r = F r) by (intros r Hr; unfold F'; by rewrite decide_False).
  (* the groups of [f'] were in the tree, or are new *)
  assert (Hkeys : forall y, y ∈ keys f' -> y ∈ keys (F root) \/ fs_groups fs !! y = None).
  { intros y Hy. destruct (search (fs_groups fs) name (root :: keys (F root))) as [z|] eqn:Es.
    - destruct (lu_known _ _ _ _ _ _ _ L z Es) as (_ & -> & _). by left.
    - destruct (lu_new _ _ _ _ _ _ _ L Es) as (Hx & _ & Hp). rewrite Hp in Hy. apply elem_of_cons in Hy as [->|Hy]; [by right|by left]. }
  assert (Hin : forall n r y, fs_trees fs !! n = Some r -> y ∈ r :: keys (F r) -> is_Some (fs_groups fs !! y)).
  { intros n r y Hr Hy. eapply tree_lookup; [exact (ft_tree _ _ _ (Hf n r Hr))|]. cbn [keys app]. done. }
  apply elem_of_map_to_list, list_elem_of_split in Hroot as (l1 & l2 & El).
  pose proof (all_keys_perm F _ _ (Permutation_middle l1 l2 (tree, root))) as Hperm. rewrite El, <- Hperm, all_keys_cons in Hnd.
  cbn [snd] in Hnd. apply NoDup_app in Hnd as (Hnd1 & Hdis & Hnd2).
  assert (Hne : forall t, t ∈ l1 ++ l2 -> snd t <> root).
  { intros t Hin' Et. apply (Hdis root); [by left|]. apply elem_of_all_keys. exists t. rewrite Et. split; [done|by left]. }
  assert (Hl : forall t, t ∈ l1 ++ l2 -> fs_trees fs !! fst t = Some (snd t)).
  { intros [n r] Hin'. apply elem_of_map_to_list. rewrite El. set_solver. }
  exists F'. split; cbn [fs_trees fs_groups].
  - intros n r Hr. destruct (decide (r = root)) as [->|Hr'].
    + rewrite Er. exact (lu_tree _ _ _ _ _ _ _ L).
    + rewrite Hother by done. apply (fair_tree_same (fs_groups fs)); [|by eapply Hf]. intros y Hy.
      destruct (Hin n r y Hr Hy) as [g Hg]. rewrite Hg. assert (Hyk : y ∉ ks).
      { intros Hk%Hks. destruct (Hkeys y Hk) as [Hy'|]; [|congruence].
        apply (Hdis y); [by right|]. apply elem_of_all_keys. exists (n, r). split; [|done].
        apply elem_of_map_to_list in Hr. rewrite El in Hr. apply elem_of_app in Hr as [Hr|[[= _ ->]|Hr]%elem_of_cons]; set_solver. }
      rewrite (Ko y g Hg Hyk). done.
  - rewrite El, <- (all_keys_perm F' _ _ (Permutation_middle l1 l2 (tree, root))), all_keys_cons. cbn [snd]. rewrite Er.
    rewrite (all_keys_ext F F') by (intros t Ht'; apply Hother; by apply Hne).
    apply NoDup_app. split_and!; [exact (ft_nodup _ _ _ (lu_tree _ _ _ _ _ _ _ L))| |done].
    intros y Hy Hy'. pose proof Hy' as (t & Ht' & Hyt)%elem_of_all_keys. apply elem_of_cons in Hy as [->|Hy].
    + apply (Hdis root); [by left|done].
    + destruct (Hkeys y Hy) as [H|H]; [apply (Hdis y); [by right|done]|].
      destruct (Hin _ _ y (Hl t Ht') Hyt) as [g Hg]. congruence.
Qed.

(** ** Reading the servers *)

Lemma add_job_grows k tree w new s w' new' :
  add_job read_ini get_value unknown_shares files k tree (w, new) s = Ret (w', new') -> fs_grows w w'.
Proof.
  unfold add_job. destruct (get_tree _ _ _ _ _ _) as [[fs root]| |] eqn:E1; cbn [obind]; [|done..].
  destruct (find_alloc_ginfo _ _ _) as [[gs x]| |] eqn:E2; cbn [obind]; [|done..]. intros [= <- _] Hok.
  destruct (get_tree_grows _ _ _ _ E1 Hok) as [[[F HF] N1 G1] Hroot].
  destruct (find_alloc_trees fs F tree root _ gs x HF Hroot E2) as (H1 & H2 & _). constructor; [exact H1|exact N1|].
  intros y g (g1 & Hg1 & <-)%G1. by apply H2.
Qed.

Lemma query_jobs_grows r k q w w' new ok :
  query_jobs read_ini get_value unknown_shares files r k q w = Ret (w', new, ok) -> fs_grows w w'.
Proof.
  unfold query_jobs. destruct (rp_list r) as [jobs|]; [|by intros [= <- _ _]].
  destruct (ofold _ _ _) as [[w1 l]| |] eqn:E; cbn [obind]; [|done..]. intros [= <- _ _].
  refine (ofold_invariant _ (fun st => fs_grows w (fst st)) jobs (w, []) (w1, l) _ (reflexivity _) E).
  intros [w2 l2] s [w3 l3] H _ Hs. etransitivity; [exact H|]. by eapply add_job_grows.
Qed.
End Trees.

Abbreviation same_fs := (fun w w' : world => w_fairshare w' = w_fairshare w).

(** A fold over worlds that leaves the trees. *)
Lemma ofold_same_fs {A} (f : world -> A -> outcome world) l w w' :
  (forall w a w', f w a = Ret w' -> same_fs w w') -> ofold f l w = Ret w' -> same_fs w w'.
Proof. intros Hf H. refine (ofold_invariant f (same_fs w) l w w' _ eq_refl H). intros w1 a w2 H1 _ E. by rewrite (Hf _ _ _ E). Qed.

Lemma external_cache_fs cache dynamic w w' : query_external_cache cache dynamic w = Ret w' -> same_fs w w'.
Proof.
  unfold query_external_cache. destruct (refresh_resources cache w) as [w1| |] eqn:E1; cbn [obind]; [|done..].
  apply refresh_resources_state in E1 as (_ & _ & E1).
  destruct (if dynamic then _ else _) as [w2| |] eqn:E2; cbn [obind]; [|done..].
  destruct (ofold decode_status _ w2) as [w3| |] eqn:E3; cbn [obind]; [|done..].
  destruct (recount_installing_nodes _ _) as [s| |]; cbn [obind]; [|done..]. intros [= <-]. cbn.
  apply (ofold_same_fs decode_status) in E3; [|by intros w4 p w5 (_ & _ & H)%decode_status_state]. rewrite E3, <- E1.
  destruct dynamic; [by injection E2 as <-|]. by apply read_static_state in E2 as (_ & -> & _).
Qed.

Section Server.
Context (read_ini : string -> option (list (string * list (string * string)))) (get_value : string -> option Z)
  (unknown_shares : Z) (files : string -> tree_files) (conf : config) (cstat : status) (parse_prop : string -> pars_prop)
  (selstat : string -> string -> reply).

Lemma query_queue_grows w rs s w' rs' :
  query_queue read_ini get_value unknown_shares files conf cstat parse_prop selstat (w, rs) s = Ret (w', rs') -> fs_grows w w'.
Proof.
  unfold query_queue. destruct (query_queue_info _ _ _) as [q| |]; cbn [obind]; [|done..].
  destruct (query_jobs _ _ _ _ _ _ _ _) as [[[w1 new] ok]| |] eqn:E; cbn [obind]; [|done..]. apply query_jobs_grows in E.
  destruct (if _ =? SUCCESS then _ else _) as [[m rs1]| |]; cbn [obind]; [|done..]. by intros [= <- _].
Qed.

Lemma query_queues_grows r w w' rs :
  query_queues read_ini get_value unknown_shares files conf cstat parse_prop selstat r w = Ret (Some (w', rs)) -> fs_grows w w'.
Proof.
  unfold query_queues. destruct (rp_list r) as [queues|]; [|done].
  destruct (ofold _ _ _) as [[w1 rs1]| |] eqn:E; cbn [obind]; [|done..]. intros [= <- _].
  refine (ofold_invariant _ (fun st => fs_grows w (fst st)) queues (w, []) (w1, rs1) _ (reflexivity _) E).
  intros [w2 rs2] s [w3 rs3] H _ Hq. etransitivity; [exact H|]. by eapply query_queue_grows.
Qed.

Lemma query_nodes_fs junk_total junk_free junk_nostarving junk_magrathea cached_host r w w' :
  query_nodes junk_total junk_free junk_nostarving junk_magrathea cached_host r w = Ret (Some w') -> same_fs w w'.
Proof.
  unfold query_nodes. destruct (rp_list r) as [nodes|]; [|done].
  destruct (ofold _ nodes w) as [w1| |] eqn:E1; cbn [obind]; [|done..].
  destruct (ofold _ _ w1) as [w2| |] eqn:E2; cbn [obind]; [|done..]. intros [= <-].
  apply ofold_same_fs in E1.
  2: { intros w3 s w4. unfold add_node_status. destruct (NodeData_ctor _ _ _ _ _ _) as [[d reg]| |]; cbn [obind]; [|done..]. by intros [= <-]. }
  apply ofold_same_fs in E2; [congruence|]. intros w3 p w4. unfold link_host.
  destruct (w_nodes w3 !! p) as [n|]; cbn [of_option obind]; [|done]. destruct (negb _); [by intros [= <-]|].
  destruct (cached_host _) as [host|]; [|by intros [= <-]]. destruct (find_node_info _ _ _) as [[q|]| |]; cbn [obind]; [|by intros [= <-]|done..].
  destruct (_ !! q) as [h|]; cbn [of_option obind]; [|done]. by intros [= <-].
Qed.

Lemma complete_server_fs w w' : complete_server w = Ret (Some w') -> same_fs w w'.
Proof.
  unfold complete_server. cbv zeta. set (w0 := w <| w_server := _ |>).
  destruct (select_nodes w0) as [w1| |] eqn:E1; cbn [obind]; [|done..]. set (w2 := w1 <| w_server := _ |>).
  destruct (ofold fill_node_jobs _ _) as [w3| |] eqn:E3; cbn [obind]; [|done..]. destruct w3 as [w3|]; [|done].
  assert (H1 : same_fs w w1).
  { revert E1. unfold select_nodes. destruct (node_filter _ _ _) as [[l|]| |]; cbn [obind]; [by intros [= <-]| |done..].
    destruct (srv_nodes (w_server w0)); [by intros [= <-]|done]. }
  assert (H3 : same_fs w2 w3).
  { refine (ofold_invariant _ (fun o => match o with Some w' => same_fs w2 w' | None => True end) _ _ (Some w3) _ _ E3); [|done].
    intros [w4|] p o H4 _; cbn [fill_node_jobs]; [|by intros [= <-]]. destruct (w_nodes w4 !! p) as [n|]; cbn [of_option obind]; [|done].
    destruct (node_jobs w4 n) as [[n'|]| |]; cbn [obind]; [by intros [= <-]|by intros [= <-]|done..]. }
  unfold schedule_running. cbv zeta. destruct (decide _); cbn [obind]; [|done]. intros [= <-]. cbn. by rewrite H3.
Qed.

Lemma query_server_grows junk_total junk_free junk_nostarving junk_magrathea cached_host cache bootable rs w w' requests :
  query_server read_ini get_value unknown_shares files conf cstat parse_prop selstat junk_total junk_free junk_nostarving
    junk_magrathea cached_host cache bootable rs w = Ret (Some (w', requests)) -> fs_grows w w'.
Proof.
  unfold query_server. destruct (sr_server rs) as [server|]; [|done].
  destruct (query_server_info _ _) as [s| |]; cbn [obind]; [|done..].
  destruct (query_nodes _ _ _ _ _ _ _) as [[w1|]| |] eqn:E1; cbn [obind]; [|done..]. apply query_nodes_fs in E1.
  destruct (query_external_cache cache false w1) as [w2| |] eqn:E2; cbn [obind]; [|done..]. apply external_cache_fs in E2.
  destruct (ofold _ _ w2) as [w3| |] eqn:E3; cbn [obind]; [|done..]. apply ofold_same_fs in E3.
  2: { intros w4 p w5. unfold on_node. destruct (w_nodes w4 !! p) as [n|]; cbn [of_option obind]; [|done]. by intros [= <-]. }
  destruct (query_queues _ _ _ _ _ _ _ _ _ _) as [[[w4 rs4]|]| |] eqn:E4; cbn [obind]; [|done..]. apply query_queues_grows in E4.
  destruct (complete_server w4) as [[w5|]| |] eqn:E5; cbn [obind]; [|done..]. apply complete_server_fs in E5. intros [= <- _].
  rewrite E5. rewrite E3, E2, E1 in E4. exact E4.
Qed.

Lemma merge_jobs_fs k jobs w w' : merge_jobs k jobs w = Ret w' -> same_fs w w'.
Proof.
  unfold merge_jobs. destruct (_ !! k) as [q|]; cbn [of_option obind]; [|done]. destruct jobs; by intros [= <-].
Qed.

Lemma fetch_slave_grows connect reset slave ks : forall m w m' w',
  fetch_slave read_ini get_value unknown_shares files selstat connect reset slave ks m w = Ret (m', w') -> fs_grows w w'.
Proof.
  induction ks as [|k ks IH]; intros m w m' w'; cbn [fetch_slave]; [by intros [= _ <-]|].
  destruct (_ !! k) as [q|]; cbn [of_option obind]; [|done]. destruct (negb (is_global q)); [apply IH|].
  destruct (connect m slave) as [[m1 c]| |]; [|by intros [= _ <-]|done].
  destruct (query_jobs _ _ _ _ _ _ _ _) as [[[w1 new] ok]| |] eqn:E; [|by intros [= _ <-]|done]. apply query_jobs_grows in E.
  destruct (negb ok); [intros H; etransitivity; [exact E|by eapply IH]|].
  destruct (merge_jobs k new w1) as [w2| |] eqn:E2; cbn [obind]; [|done..]. apply merge_jobs_fs in E2. intros H.
  etransitivity; [exact E|]. rewrite <- E2. by eapply IH.
Qed.

Lemma fetch_slaves_grows connect reset slaves : forall m w m' w',
  fetch_slaves read_ini get_value unknown_shares files selstat connect reset slaves m w = Ret (m', w') -> fs_grows w w'.
Proof.
  induction slaves as [|slave slaves IH]; intros m w m' w'; cbn [fetch_slaves]; [done|].
  destruct (String.eqb slave ""); [by intros [= _ <-]|].
  destruct (fetch_slave _ _ _ _ _ _ _ _ _ _ _) as [[m1 w1]| |] eqn:E; cbn [obind]; [|done..]. intros H.
  etransitivity; [by eapply fetch_slave_grows|by eapply IH].
Qed.
End Server.

(** ** The connections of a turn *)

Section Fetch.
Context (read_ini : string -> option (list (string * list (string * string)))) (get_value : string -> option Z)
  (unknown_shares : Z) (files : string -> tree_files) (conf : config) (selstat : string -> string -> reply).
Context (connect master : ConnectionMgr -> string -> outcome (ConnectionMgr * Z)) (reset : ConnectionMgr -> string -> ConnectionMgr).
(** What opening and resetting connections keeps. *)
Context (I : ConnectionMgr -> Prop).
Context (connect_keeps : forall m host m' c, I m -> connect m host = Ret (m', c) -> I m').
Context (master_keeps : forall m host m' c, I m -> master m host = Ret (m', c) -> I m').
Context (reset_keeps : forall m host, I m -> I (reset m host)).

Lemma fetch_slave_conns slave ks : forall m w m' w',
  I m -> fetch_slave read_ini get_value unknown_shares files selstat connect reset slave ks m w = Ret (m', w') -> I m'.
Proof.
  induction ks as [|k ks IH]; intros m w m' w' Hm; cbn [fetch_slave]; [by intros [= <- _]|].
  destruct (_ !! k) as [q|]; cbn [of_option obind]; [|done]. destruct (negb (is_global q)); [by apply IH|].
  destruct (connect m slave) as [[m1 c]| |] eqn:Ec; [|intros [= <- _]; by apply reset_keeps|done].
  apply connect_keeps in Ec; [|done].
  destruct (query_jobs _ _ _ _ _ _ _ _) as [[[w1 new] ok]| |]; [|intros [= <- _]; by apply reset_keeps|done].
  destruct (negb ok); [by apply IH|]. destruct (merge_jobs k new w1) as [w2| |]; cbn [obind]; [|done..]. by apply IH.
Qed.

Lemma fetch_slaves_conns slaves : forall m w m' w',
  I m -> fetch_slaves read_ini get_value unknown_shares files selstat connect reset slaves m w = Ret (m', w') -> I m'.
Proof.
  induction slaves as [|slave slaves IH]; intros m w m' w' Hm; cbn [fetch_slaves]; [done|].
  destruct (String.eqb slave ""); [by intros [= <- _]|].
  destruct (fetch_slave _ _ _ _ _ _ _ _ _ _ _) as [[m1 w1]| |] eqn:E; cbn [obind]; [|done..].
  apply IH. by eapply fetch_slave_conns.
Qed.

Lemma fetch_servers_conns query m w m' read :
  I m -> fetch_servers read_ini get_value unknown_shares files conf selstat connect reset master query m w = Ret (m', read) -> I m'.
Proof.
  intros Hm. unfold fetch_servers. destruct (master m (local_server conf)) as [[m1 c]| |] eqn:Em; [|by intros [= <- _]|done].
  apply master_keeps in Em; [|done].
  destruct (query w) as [[[w1 rs]|]| |]; [|intros [= <- _]; by apply reset_keeps|by intros [= <- _]|done].
  destruct (fetch_slaves _ _ _ _ _ _ _ _ _ _) as [[m2 w2]| |] eqn:E; cbn [obind]; [|done..]. intros [= <- _].
  by eapply fetch_slaves_conns.
Qed.
End Fetch.

(** ** The jobs of a turn *)

(** The loop neither opens nor closes a connection; it changes usage only. *)
Definition carries (c c' : cycle) : Prop :=
  cy_conns c' = cy_conns c /\ reused (w_fairshare (cy_world c)) (w_fairshare (cy_world c')).

Lemma carries_refl c : carries c c.
Proof. split; [done|apply reused_refl]. Qed.

Lemma carries_trans c1 c2 c3 : carries c1 c2 -> carries c2 c3 -> carries c1 c3.
Proof. intros [E1 R1] [E2 R2]. split; [congruence|by eapply reused_trans]. Qed.

(** Nothing but the rest of the world has changed. *)
Lemma carries_same c c' : cy_conns c' = cy_conns c -> same_fs (cy_world c) (cy_world c') -> carries c c'.
Proof. intros E1 E2. split; [done|]. rewrite E2. apply reused_refl. Qed.

Section Loop.
Context (conf : config) (cstat : status) (now : Z) (parse : string -> pars_spec) (denied : string -> string -> string -> bool).
Context (cache_get : string -> string -> option string) (getgr : string -> option (list string)).
Context (lines : option (list (string * string))) (cache : nat -> string -> string -> option (string -> option string)).
Context (answer_run : nat -> run_request -> Z) (hash_order : gmap string (list (Z * positive)) -> list (list (Z * positive))).

Lemma job_started_reused w p booting w' :
  job_started cstat parse w p booting = Ret w' -> reused (w_fairshare w) (w_fairshare w').
Proof.
  unfold job_started. destruct (chk_of w p) as [[x k]| |]; cbn [obind]; [|done..].
  destruct (start_job _ _ _) as [x'| |]; cbn [obind]; [|done..]. destruct (_ && _); [|intros [= <-]; apply reused_refl].
  cbn [w_fairshare put_chk]. unfold update_usage_on_run.
  destruct (find_resource_req _ _) as [tmp|]; cbn [of_option obind]; [|done]. destruct (ginfo _) as [x0|]; cbn [of_option obind]; [|done].
  unfold group_at. destruct (_ !! x0) as [g|] eqn:Eg; cbn [of_option obind]; [|done]. intros [= <-]. split; [done|].
  by eapply same_places_insert.
Qed.

Lemma try_run_job_carries c p c' ret : try_run_job conf cstat parse answer_run c p = Ret (c', ret) -> carries c c'.
Proof.
  unfold try_run_job. cbv zeta. destruct (chk_of _ p) as [[x k]| |]; cbn [obind]; [|done..].
  destruct (nodes_preassign_string _ _ _ _ _) as [[[best booting] minspec]| |]; cbn [obind]; [|done..].
  destruct (run_socket _ _ _) as [sock| |]; cbn [obind]; [|done..].
  destruct (update_job_fairshare _ _) as [[rs z]| |]; cbn [obind]; [|done..].
  match goal with |- context [obind ?e _] => assert (H2 : forall c2 ret, e = Ret (c2, ret) -> carries c c2) end.
  { intros c2 r. destruct (negb _); [|intros [= <- _]; by apply carries_same].
    destruct (is_remote _ _); [intros [= <- _]; by apply carries_same|].
    destruct (update_job_comment _ _) as [[j2 rs2] z2]. intros [= <- _]. by apply carries_same. }
  match goal with |- context [obind ?e _] => destruct e as [[c2 r]| |] end; cbn [obind]; [|done..].
  specialize (H2 c2 r eq_refl).
  match goal with |- context [obind ?e _] => destruct e as [w| |] eqn:Ew end; cbn [obind]; [|done..].
  destruct (w_jobs w !! p) as [j|]; cbn [of_option obind]; [|done]. intros [= <- _].
  eapply carries_trans; [exact H2|]. split; [done|]. cbn.
  destruct (r =? 0); [|injection Ew as <-; apply reused_refl]. by eapply job_started_reused.
Qed.

Lemma refuse_job_carries c p q ret c' : refuse_job cstat c p q ret = Ret c' -> carries c c'.
Proof.
  unfold refuse_job. destruct (_ !! p) as [j|]; cbn [of_option obind]; [|done]. set (c1 := c <| cy_world := _ |>).
  assert (H1 : carries c c1) by (by apply carries_same).
  destruct (tell_refused cstat c1 p q ret) as [c2| |] eqn:E2; cbn [obind]; [|done..].
  assert (H2 : carries c1 c2).
  { revert E2. unfold tell_refused. destruct (_ !! p) as [j1|]; cbn [of_option obind]; [|done].
    destruct (translate_job_fail_code None ret) as [[[msg lg] rc]| |]; cbn [obind]; [|done..].
    destruct (rc =? 0); [by intros [= <-]; apply carries_refl|]. destruct (get_master_connection _); cbn [obind]; [|done..].
    destruct (update_job_comment j1 msg) as [[j2 rs] z].
    match goal with |- context [obind ?e _] => destruct e as [[jobs rs']| |] end; cbn [obind]; [|done..]. intros [= <-].
    by apply carries_same. }
  destruct (_ !! p) as [j2|]; cbn [of_option obind]; [|done].
  match goal with |- context [obind ?e _] => assert (H3 : forall c3, e = Ret c3 -> carries c2 c3) end.
  { intros c3. destruct (ret =? JOB_SCHEDULED); [|intros [= <-]; apply carries_refl]. unfold tell_planned.
    destruct (planned_for _ _ _ _ _) as [[[start names] waiting]| |]; cbn [obind]; [|done..].
    destruct (update_job_planned_nodes _ _ _), (update_job_waiting_for _ _ _), (update_job_earliest_start _ _ _). intros [= <-].
    by apply carries_same. }
  match goal with |- context [obind ?e _] => destruct e as [c3| |] end; cbn [obind]; [|done..]. intros [= <-].
  eapply carries_trans; [exact H1|]. eapply carries_trans; [exact H2|]. eapply carries_trans; [by apply H3|]. by apply carries_same.
Qed.

Lemma run_step_carries c p c' r :
  run_step conf cstat now parse denied cache_get getgr lines cache answer_run c p = Ret (c', r) -> carries c c'.
Proof.
  unfold run_step. cbv zeta. destruct (_ !! p) as [j|]; cbn [of_option obind]; [|done].
  destruct (chk_of _ p) as [[x k]| |]; cbn [obind]; [|done..].
  destruct (is_ok_to_run_job _ _ _ _ _ _ _ _ _ _ _) as [[ret x']| |]; cbn [obind]; [|done..].
  set (c1 := c <| cy_world := _ |>). assert (H1 : carries c c1) by (by apply carries_same).
  destruct (ret =? SUCCESS).
  - destruct (try_run_job _ _ _ _ _ _) as [[c2 ret2]| |] eqn:E2; cbn [obind]; [|done..]. apply try_run_job_carries in E2.
    assert (H2 : carries c c2).
    { eapply carries_trans; [exact H1|]. eapply carries_trans; [|exact E2]. apply carries_same; [done|]. by destruct (is_admin_queue _). }
    destruct (ret2 =? 0).
    + destruct (query_external_cache _ _ _) as [w| |] eqn:E; cbn [obind]; [|done..]. apply external_cache_fs in E. intros [= <- _].
      eapply carries_trans; [exact H2|]. by apply carries_same.
    + destruct (_ !! p) as [j2|]; cbn [of_option obind]; [|done]. intros [= <- _].
      eapply carries_trans; [exact H2|]. by apply carries_same.
  - destruct (refuse_job _ _ _ _ _) as [c2| |] eqn:E; cbn [obind]; [|done..]. apply refuse_job_carries in E. intros [= <- _].
    exact (carries_trans _ _ _ H1 E).
Qed.

Lemma run_loop_carries fuel late : forall turn errors act c c' how,
  run_loop conf cstat now parse denied cache_get getgr lines cache answer_run hash_order fuel late turn errors act c = Ret (c', how) ->
  carries c c'.
Proof.
  induction fuel as [|fuel IH]; intros turn errors act c c' how; cbn [run_loop]; [intros [= <- _]; apply carries_refl|].
  destruct (3 <? errors)%nat; [intros [= <- _]; apply carries_refl|].
  destruct (next_job _ _ _ _ _ _) as [[r cur]| |]; cbn [obind]; [|done..].
  destruct r as [p|]; [|intros [= <- _]; by apply carries_same]. destruct (act && late turn); [intros [= <- _]; by apply carries_same|].
  destruct (run_step _ _ _ _ _ _ _ _ _ _ _ _) as [[c1 r]| |] eqn:E; cbn [obind]; [|done..]. apply run_step_carries in E.
  intros H. eapply carries_trans; [|by eapply IH]. eapply carries_trans; [|exact E]. by apply carries_same.
Qed.
End Loop.

(** ** The plan *)

(** A walk keeps what its steps keep. *)
Lemma each_keeps {A S} (I : S -> Prop) (body : positive -> heap A -> plan_list -> S -> outcome (heap A * plan_list * S * bool)) fuel :
  (forall x h l s h' l' s' go, I s -> body x h l s = Ret (h', l', s', go) -> I s') ->
  forall h l s h' l' s', I s -> each body fuel h l s = Ret (h', l', s') -> I s'.
Proof.
  intros Hb. induction fuel as [|fuel IH]; intros h l s h' l' s' Hs; cbn [each]; [done|].
  destruct (list_get_next h l) as [l1| |]; cbn [obind]; [|done..]. destruct (current l1) as [x|]; [|by intros [= _ _ <-]].
  destruct (body x h l1 s) as [[[[h2 l2] s2] go]| |] eqn:E; cbn [obind]; [|done..]. apply Hb in E; [|done].
  destruct go; [by apply IH|by intros [= _ _ <-]].
Qed.

Section Plan.
Context (conf : config) (cstat : status) (now time_now : Z) (parse : string -> pars_spec) (denied : string -> string -> string -> bool).
Context (cache_get : string -> string -> option string) (getgr : string -> option (list string)).
Context (lines : option (list (string * string))) (cache : nat -> string -> string -> option (string -> option string)).
Context (answer_run : nat -> run_request -> Z) (sinfo : positive).

Lemma plan_step_fs cluster_sinfo x h l st h' l' st' go :
  plan_step conf cstat now time_now parse denied cache_get getgr lines cache answer_run sinfo cluster_sinfo x h l st = Ret (h', l', st', go) ->
  same_fs (ps_world st) (ps_world st').
Proof.
  unfold plan_step. destruct (item_at h x) as [job| |]; cbn [obind]; [|done..]. destruct (_ >? _); [by intros [= _ _ <- _]|].
  destruct (pj_jinfo job) as [p|]; cbn [of_option obind]; [|done]. destruct (w_jobs (ps_world st) !! p) as [j|]; cbn [of_option obind]; [|done].
  destruct (_ && (_ <? 0)).
  { destruct (list_remove_item _ _ _ _) as [[[h1 l1] r]| |]; cbn [obind]; [|done..]. by intros [= _ _ <- _]. }
  destruct (_ && _); [|by intros [= _ _ <- _]]. unfold start_planned. cbv zeta.
  destruct (job_create_nodespec _ _ _ _) as [[[job2 j2] n]| |]; cbn [obind]; [|done..].
  match goal with |- context [if plan_remote ?a ?b then ?c else ?d] => destruct (if plan_remote a b then c else d) as [sock| |] end;
    cbn [obind]; [|done..].
  destruct (chk_of _ p) as [[x0 k]| |]; cbn [obind]; [|done..]. destruct (all_nodes _) as [nodes| |]; cbn [obind]; [|done..].
  destruct (bool_decide _); cbn [obind]; [|done].
  destruct (is_ok_to_run_job_new _ _ _ _ _ _ _ _ _ _ _ _) as [[ret x1]| |]; cbn [obind]; [|done..].
  destruct (ret =? INSUFICIENT_DYNAMIC_RESOURCE); [by intros [= _ _ <- _]|]. destruct (negb (ret =? SUCCESS)); [by intros [= _ _ <- _]|].
  set (st2 := st <| ps_world := _ |>). destruct (run_planned _ _ _ _ _ _ _ _ _) as [st3| |] eqn:E; cbn [obind]; [|done..].
  intros [= _ _ <- _]. revert E. unfold run_planned. cbv zeta.
  destruct (nodes_preassign_string_new _ _ _ _ _ _) as [[best booting]| |]; cbn [obind]; [|done..].
  destruct (update_job_fairshare _ _) as [[rs rc]| |]; cbn [obind]; [|done..].
  destruct (query_external_cache _ _ _) as [w| |] eqn:E; cbn [obind]; [|done..]. apply external_cache_fs in E. intros [= <-]. exact E.
Qed.

Lemma try_run_plan_fs pn st pn' st' :
  try_run_plan conf cstat now time_now parse denied cache_get getgr lines cache answer_run sinfo pn st = Ret (pn', st') ->
  same_fs (ps_world st) (ps_world st').
Proof.
  unfold try_run_plan. intros H. refine (ofold_invariant _ (fun p => same_fs (ps_world st) (ps_world (snd p))) _ (pn, st) (pn', st') _ eq_refl H).
  intros [pn1 st1] k [pn2 st2] H1 _. cbn [snd] in *. unfold run_cluster.
  destruct (cluster_at pn1 k) as [cl| |]; cbn [obind]; [|done..]. destruct (jobs_at pn1 k) as [jl| |]; cbn [obind]; [|done..].
  destruct (run_jobs _ _ _ _ _ _ _ _ _ _ _ _ _ _ _ _) as [[[h jl2] st3]| |] eqn:E; cbn [obind]; [|done..]. intros [= _ <-].
  refine (each_keeps (fun s => same_fs (ps_world st) (ps_world s)) _ _ _ _ _ _ _ _ _ H1 E).
  intros x h1 l1 s1 h2 l2 s2 go Hs1 Hs. apply plan_step_fs in Hs. by rewrite Hs.
Qed.
End Plan.

(** ** The order of queues and jobs *)

Section Order.
Context (parse : string -> pars_spec).

Lemma limits_hold_server s s' q :
  running_jobs s' = running_jobs s -> max_run s' = max_run s -> max_user_run s' = max_user_run s -> max_group_run s' = max_group_run s ->
  limits_hold parse s q -> limits_hold parse s' q.
Proof. intros E1 E2 E3 E4 []. constructor; by rewrite ?E1, ?E2, ?E3, ?E4. Qed.

(** What sorting leaves: the limits, the trees and the number of turns. *)
Record as_before (w w' : world) : Prop := {
  ab_limits : limits_kept parse w -> limits_kept parse w';
  ab_fuel : loop_fuel w' = loop_fuel w;
  ab_fs : same_fs w w'
}.

Lemma as_before_refl w : as_before w w.
Proof. by constructor. Qed.

Lemma as_before_trans w1 w2 w3 : as_before w1 w2 -> as_before w2 w3 -> as_before w1 w3.
Proof. intros [L1 F1 S1] [L2 F2 S2]. constructor; [auto|congruence|congruence]. Qed.

Lemma sort_queues_before w : as_before w (sort_queues_by_priority w).
Proof.
  set (qs := srv_queues (w_server w)).
  assert (Hp : srv_queues (w_server (sort_queues_by_priority w)) ≡ₚ qs).
  { unfold qs. cbn. rewrite isort_perm. assert (E : (imap pair (srv_queues (w_server w))).*2 = srv_queues (w_server w)); [|by rewrite E].
    apply list_eq. intros i. rewrite list_lookup_fmap, list_lookup_imap. by destruct (srv_queues (w_server w) !! i). }
  constructor; [| |done].
  - intros H k q Hk%list_elem_of_lookup_2. rewrite Hp in Hk. apply list_elem_of_lookup_1 in Hk as (i & Hi).
    eapply limits_hold_server; [..|by apply (H i)]; done.
  - unfold loop_fuel. rewrite Hp. cbn. by rewrite map_size_fmap.
Qed.

Lemma sort_job_keys_perm w keys jobs l : sort_job_keys w keys jobs = Ret l -> l ≡ₚ jobs.
Proof. unfold sort_job_keys. cbv zeta. destruct (forallb _ _); [|done]. intros [= <-]. apply isort_perm. Qed.

Lemma sort_queue_jobs_before keys w k w' : sort_queue_jobs keys w k = Ret w' -> as_before w w'.
Proof.
  unfold sort_queue_jobs. destruct (srv_queues (w_server w) !! k) as [q|] eqn:Ek; cbn [of_option obind]; [|done].
  destruct (sort_job_keys w keys (q_jobs q)) as [l| |] eqn:El; cbn [obind]; [|done..]. apply sort_job_keys_perm in El. intros [= <-].
  constructor; [| |done].
  - intros H i q' Hi. cbn in Hi. apply list_lookup_insert_Some in Hi as [(<- & <- & _)|[_ Hi]].
    + pose proof (H k q Ek) as []. by constructor.
    + eapply limits_hold_server; [..|by apply (H i)]; done.
  - unfold loop_fuel. cbn. f_equal. f_equal. f_equal. rewrite !list_fmap_insert. apply list_insert_id.
    rewrite !list_lookup_fmap, Ek. cbn. by rewrite El.
Qed.

Lemma sort_all_jobs_before conf cstat w w' : sort_all_jobs conf cstat w = Ret w' -> as_before w w'.
Proof.
  unfold sort_all_jobs. destruct (sort_keys conf cstat) as [keys| |]; cbn [obind]; [|done..].
  destruct keys as [|key keys]; [done|]. set (all := key :: keys).
  assert (H : (if by_queue cstat || round_robin cstat then ofold (sort_queue_jobs all) (seq 0 (length (srv_queues (w_server w)))) w
    else let! jobs := sort_job_keys w all (srv_jobs (w_server w)) in Ret (w <| w_server := w_server w <| srv_jobs := jobs |> |>)) = Ret w' ->
    as_before w w').
  { destruct (_ || _).
    - intros H. refine (ofold_invariant _ (as_before w) _ w w' _ (as_before_refl w) H). intros w1 k w2 H1 _ E.
      eapply as_before_trans; [exact H1|]. by eapply sort_queue_jobs_before.
    - destruct (sort_job_keys _ _ _) as [l| |] eqn:El; cbn [obind]; [|done..]. apply sort_job_keys_perm in El. intros [= <-].
      constructor; [| |done].
      + intros H k q Hk. eapply limits_hold_server; [..|by apply (H k)]; done.
      + unfold loop_fuel. cbn. by rewrite El. }
  destruct key; first [exact H | intros [= <-]; apply as_before_refl].
Qed.
End Order.

(** ** The fairshare of a turn *)

(** The update charges and halves usage. *)
Lemma update_fairshare_reused fuel c s jobs lasts fs ds fs' ds' out :
  trees_well fs -> update_fairshare fuel c s jobs lasts fs ds = Ret (fs', ds', out) -> reused fs fs'.
Proof.
  intros [F HF]. unfold update_fairshare. destruct (negb (fair_share s)); [intros [= <- _ _]; apply reused_refl|].
  destruct (ofold (charge_job jobs) _ _) as [gs1| |] eqn:E1; cbn [obind]; [|done..].
  destruct (ofold settle_usage _ _) as [gs2| |] eqn:E2; cbn [obind]; [|done..].
  assert (S1 : same_places (fs_groups fs) gs1).
  { refine (ofold_invariant _ (same_places (fs_groups fs)) _ _ _ _ (same_places_refl _) E1). intros g1 l g2 H1 _. unfold charge_job.
    destruct (find_running _ _) as [job|]; [|by intros [= <-]]. destruct (pv_ginfo l) as [x|]; cbn [of_option obind]; [|done].
    unfold group_at. destruct (g1 !! x) as [g|] eqn:Eg; cbn [of_option obind]; [|done].
    assert (H : forall u, same_places (fs_groups fs) (<[x := g <| gi_usage := u |>]> g1))
      by (intros u; eapply same_places_trans; [exact H1|by eapply same_places_insert]).
    destruct (negb _); [by intros [= <-]|]. destruct (find_resource_req _ _); cbn [of_option obind]; [by intros [= <-]|done]. }
  assert (S2 : same_places gs1 gs2).
  { refine (ofold_invariant _ (same_places gs1) _ _ _ _ (same_places_refl _) E2). intros g1 l g2 H1 _. unfold settle_usage.
    destruct (pv_ginfo l) as [x|]; cbn [of_option obind]; [|done]. unfold group_at.
    destruct (g1 !! x) as [g|] eqn:Eg; cbn [of_option obind]; [|done]. intros [= <-].
    eapply same_places_trans; [exact H1|by eapply same_places_insert]. }
  assert (R2 : reused fs (fs <| fs_groups := gs2 |>)) by (split; [done|by eapply same_places_trans]).
  destruct (decay_loop _ _ _ _ _ _) as [[fs3 dec]| |] eqn:E3; cbn [obind]; [|done..].
  assert (R3 : forall fuel h t fs1 b, reused fs fs1 -> decay_loop fuel h (default 0 (ds_last_decay ds)) t fs1 b = Ret (fs3, dec) -> reused fs fs3).
  { clear -HF. induction fuel as [|fuel IH]; intros h t fs1 b R; cbn [decay_loop]; [done|]. destruct (_ >? h); [|by intros [= <- _]].
    assert (Hok : trees_ok fs1 F) by (destruct R as [E S]; pose proof (trees_ok_same fs _ F HF S); destruct fs1; cbn in *; by subst).
    destruct (decay_all_spec fs1 F Hok) as (gs' & -> & Hg). cbn [obind]. apply IH. eapply reused_trans; [exact R|]. split; [done|].
    intros x. cbn [fs_groups]. rewrite Hg. destruct (decide _); by destruct (fs_groups fs1 !! x). }
  apply R3 in E3; [|done]. destruct (_ >? sync_time c); [destruct (write_usages fs3); cbn [obind]; [|done..]|]; by intros [= <- _ _].
Qed.

Lemma init_cycle_before parse fuel conf cstat ks w w' ks' cur files :
  trees_well (w_fairshare w) -> init_scheduling_cycle fuel conf cstat ks w = Ret (w', ks', cur, files) ->
  (limits_kept parse w -> limits_kept parse w') /\ loop_fuel w' = loop_fuel w /\ reused (w_fairshare w) (w_fairshare w') /\
  cur = mkCursor 0 (-1).
Proof.
  intros Hw. unfold init_scheduling_cycle. destruct (update_fairshare _ _ _ _ _ _ _) as [[[fs ds] o]| |] eqn:E; cbn [obind]; [|done..].
  apply update_fairshare_reused in E; [|done].
  set (w4 := w <| w_fairshare := fs |>). set (w5 := if sort_queues cstat then _ else _).
  assert (H5 : as_before parse w4 w5) by (unfold w5; destruct (sort_queues cstat); [apply sort_queues_before|apply as_before_refl]).
  clearbody w5. destruct (sort_all_jobs conf cstat w5) as [w6| |] eqn:E6; cbn [obind]; [|done..].
  apply (sort_all_jobs_before parse) in E6. destruct (as_before_trans _ _ _ _ H5 E6) as [L F S].
  unfold next_job_init. destruct (round_robin cstat); cbn [obind]; [done|]. intros [= <- _ <- _]. split_and!; [exact L|exact F| |done].
  rewrite S. exact E.
Qed.

(** ** The turns *)

Section Turns.
Context (localtime : Z -> tm) (EAI_MEMORY EAI_AGAIN : Z) (pbs_disconnect : conn_table -> Z -> conn_table).
Context (read_ini : string -> option (list (string * list (string * string)))) (get_value : string -> option Z) (unknown_shares : Z).
Context (parse_prop : string -> pars_prop) (parse : string -> pars_spec) (denied : string -> string -> string -> bool).
Context (getgr : string -> option (list string)) (junk_total junk_free : Z) (junk_nostarving : bool) (junk_magrathea : MagratheaState).
Context (badval : Z) (junk_gap : plan_gap) (junk_job : plan_job) (junk_cluster : plan_cluster) (junk_index junk_int : Z).
Context (create_job : option plan_job) (create_gap : option plan_gap) (create_limit : option plan_limit).
Context (rand : nat -> Z) (clock : nat -> Z) (patience : nat).
(** The entries that are in use when the scheduler starts; closing a connection
    frees its entry, and no other. *)
Context (t0 : conn_table) (closes : forall t c, pbs_disconnect t c = <[Z.to_nat c := None]> t).

Notation wakes := (wake localtime EAI_MEMORY EAI_AGAIN pbs_disconnect read_ini get_value unknown_shares parse_prop
  junk_total junk_free junk_nostarving junk_magrathea).
Notation schedules := (schedule_jobs parse denied getgr).
Notation turn := (run_turn localtime EAI_MEMORY EAI_AGAIN pbs_disconnect read_ini get_value unknown_shares parse_prop parse denied getgr
  junk_total junk_free junk_nostarving junk_magrathea).
Notation runs := (run localtime EAI_MEMORY EAI_AGAIN pbs_disconnect read_ini get_value unknown_shares parse_prop parse denied getgr
  junk_total junk_free junk_nostarving junk_magrathea).
Notation plan_turns := (plan_turn localtime EAI_MEMORY EAI_AGAIN pbs_disconnect read_ini get_value unknown_shares parse_prop parse denied
  getgr junk_total junk_free junk_nostarving junk_magrathea badval junk_gap junk_job junk_cluster junk_index junk_int create_job create_gap
  create_limit rand clock patience).
Notation fs_of := (fun r => w_fairshare (rl_world r)).

(** What holds of the scheduler between turns. *)
Record realm_ok (r : realm) : Prop := {
  ro_globals : globals_wf (rl_globals r);
  ro_trees : trees_well (fs_of r);
  ro_conns : opened t0 (rl_conns r)
}.

(** It holds of what a part of a turn leaves, and the trees have only grown. *)
Definition keeps_on (r r' : realm) : Prop := realm_ok r' /\ grown (fs_of r) (fs_of r').

Lemma grown_refl fs : trees_well fs -> grown fs fs.
Proof. exact (reflexivity (R := grows) fs). Qed.

Lemma keeps_on_refl r : realm_ok r -> keeps_on r r.
Proof. intros H. split; [done|]. apply grown_refl, H. Qed.

Lemma keeps_on_trans r1 r2 r3 : keeps_on r1 r2 -> keeps_on r2 r3 -> keeps_on r1 r3.
Proof.
  intros [H1 G1] [H2 G2]. split; [done|]. destruct G1 as [T1 N1 X1], G2 as [T2 N2 X2]. constructor; [done|auto|].
  intros x g (g2 & Hg2 & <-)%X1. by apply X2.
Qed.

Lemma connect_opened s m host m' c : opened t0 m -> connect_remote EAI_MEMORY EAI_AGAIN s m host = Ret (m', c) -> opened t0 m'.
Proof. intros H E. eapply (opened_step EAI_MEMORY EAI_AGAIN); [exact closes|exact H|by eapply step_remote]. Qed.

Lemma master_opened s m host m' c : opened t0 m -> connect_master EAI_MEMORY EAI_AGAIN s m host = Ret (m', c) -> opened t0 m'.
Proof. intros H E. eapply (opened_step EAI_MEMORY EAI_AGAIN); [exact closes|exact H|by eapply step_master]. Qed.

Lemma reset_opened m host : opened t0 m -> opened t0 (reset_connection pbs_disconnect m host).
Proof.
  intros H. eapply (opened_step EAI_MEMORY EAI_AGAIN (fun _ => mkReply None 0) (fun _ => None) (fun _ => 0)); [exact closes|exact H|].
  apply step_reset.
Qed.

Lemma wake_keeps s r r' requests : realm_ok r -> wakes s r = Ret (r', requests) -> keeps_on r r'.
Proof.
  intros [Hg Ht Ho]. unfold wake. destruct (update_cycle_status _ _ _) as [g| |] eqn:Eg; cbn [obind]; [|done..].
  apply update_wf in Eg; [|done].
  destruct (fetch_servers _ _ _ _ _ _ _ _ _ _ _ _) as [[m read]| |] eqn:E; cbn [obind]; [|done..].
  assert (Hm : opened t0 m).
  { eapply (fetch_servers_conns _ _ _ _ _ _ _ _ _ (opened t0)); [| | |exact Ho|exact E];
      [by intros; eapply connect_opened|by intros; eapply master_opened|by intros; apply reset_opened]. }
  destruct read as [[w rs]|].
  - intros [= <- _]. assert (G : fs_grows (rl_world r) w).
    { revert E. unfold fetch_servers. destruct (connect_master _ _ _ _ _) as [[m1 c]| |]; [|done..].
      destruct (query_server _ _ _ _ _ _ _ _ _ _ _ _ _ _ _ _ _) as [[[w1 rq]|]| |] eqn:E1; [|done..]. apply query_server_grows in E1.
      destruct (fetch_slaves _ _ _ _ _ _ _ _ _ _) as [[m2 w2]| |] eqn:E2; cbn [obind]; [|done..]. intros [= _ <- _].
      apply fetch_slaves_grows in E2. by etransitivity. }
    specialize (G Ht). split; [|done]. constructor; [done|apply G|done].
  - intros [= <- _]. split; [by constructor|]. by apply grown_refl.
Qed.

Lemma schedule_keeps s requests r r' cy how files :
  realm_ok r -> schedules s requests r = Ret (r', cy, how, files) -> keeps_on r r' /\ rl_globals r' = rl_globals r.
Proof.
  intros [Hg Ht Ho]. unfold schedule_jobs. cbv zeta.
  destruct (init_scheduling_cycle _ _ _ _ _) as [[[[w ks] cur] out]| |] eqn:E1; cbn [obind]; [|done..].
  apply (init_cycle_before parse) in E1 as (_ & _ & R1 & _); [|done].
  destruct (run_loop _ _ _ _ _ _ _ _ _ _ _ _ _ _ _ _ _) as [[c2 how2]| |] eqn:E2; cbn [obind]; [|done..].
  apply run_loop_carries in E2 as [Ec R2]. cbn in Ec, R2. intros [= <- _ _ _].
  pose proof (reused_grows _ _ (reused_trans _ _ _ R1 R2) Ht) as G.
  split; [|done]. split; [|exact G]. constructor; [done|apply G|]. cbn. by rewrite Ec.
Qed.

Lemma remember_keeps r r' : realm_ok r -> remember r = Ret r' -> keeps_on r r' /\ rl_conns r' = rl_conns r.
Proof.
  intros H. unfold remember. destruct (fair_share _); [|intros [= <-]; split; [by apply keeps_on_refl|done]].
  destruct (update_last_running _ _) as [last| |]; cbn [obind]; [|done..]. intros [= <-]. split; [|done].
  split; [by destruct H; constructor|]. apply grown_refl, H.
Qed.

Lemma cleanup_keeps r : realm_ok r -> keeps_on r (cleanup_servers pbs_disconnect r) /\
  p_connections (rl_conns (cleanup_servers pbs_disconnect r)) = ∅ /\ connection (rl_conns (cleanup_servers pbs_disconnect r)) = t0.
Proof.
  intros [Hg Ht Ho]. destruct (opened_disconnect_all pbs_disconnect t0 closes _ Ho) as [E1 E2]. split; [|by split].
  split; [|by apply grown_refl]. constructor; [done..|].
  eapply (opened_step EAI_MEMORY EAI_AGAIN (fun _ => mkReply None 0) (fun _ => None) (fun _ => 0)); [exact closes|exact Ho|].
  apply step_disconnect_all.
Qed.

(** One turn; when it has read the servers it closes what it has opened. *)
Lemma turn_keeps s r r' t :
  realm_ok r -> turn s r = Ret (r', t) ->
  keeps_on r r' /\ (forall r1 requests, wakes s r = Ret (r1, Some requests) ->
    p_connections (rl_conns r') = ∅ /\ connection (rl_conns r') = t0).
Proof.
  intros Hr. unfold run_turn. destruct (wakes s r) as [[r1 rq]| |] eqn:E1; cbn [obind]; [|done..].
  apply wake_keeps in E1 as K1; [|done]. destruct rq as [rq|]; [|intros [= <- _]; split; [exact K1|by intros ?? [= ]]].
  destruct (schedules s rq r1) as [[[[r2 cy] how] files]| |] eqn:E2; cbn [obind]; [|done..].
  apply schedule_keeps in E2 as [K2 _]; [|apply K1].
  destruct (remember r2) as [r3| |] eqn:E3; cbn [obind]; [|done..]. apply remember_keeps in E3 as [K3 _]; [|apply K2].
  match goal with |- context [obind ?e _] => destruct e as [dumped| |] end; cbn [obind]; [|done..]. intros [= <- _].
  destruct (cleanup_keeps r3) as [K4 Hc]; [apply K3|]. split; [|done].
  eapply keeps_on_trans; [exact K1|]. eapply keeps_on_trans; [exact K2|]. by eapply keeps_on_trans.
Qed.

(** A turn of the plan: the trees are only read after the usage was charged. *)
Lemma plan_turn_keeps s sinfo r ks r' ks' told run :
  realm_ok r -> plan_turns s sinfo (r, ks) = Ret (r', ks', told, run) ->
  keeps_on r r' /\ (forall g r1 requests, reload localtime (su_config_file s) (su_config_mtime s) (rl_globals r) = Ret g ->
    wakes s (r <| rl_globals := g |>) = Ret (r1, Some requests) -> p_connections (rl_conns r') = ∅ /\ connection (rl_conns r') = t0).
Proof.
  intros Hr. unfold plan_turn. destruct (reload _ _ _ _) as [g| |] eqn:Eg; cbn [obind]; [|done..]. apply reload_wf in Eg; [|apply Hr].
  set (r0 := r <| rl_globals := g |>). assert (K0 : keeps_on r r0).
  { split; [by destruct Hr; constructor|]. apply grown_refl, Hr. }
  destruct (wakes s r0) as [[r1 rq]| |] eqn:E1; cbn [obind]; [|done..]. apply wake_keeps in E1 as K1; [|apply K0].
  destruct rq as [rq|].
  2: { intros [= <- _ _ _]. split; [exact (keeps_on_trans _ _ _ K0 K1)|]. intros ? r2 rq [= <-] E2. fold r0 in E2. by rewrite E1 in E2. }
  cbv zeta. destruct (init_scheduling_cycle _ _ _ _ _) as [[[[w kept] cur] out]| |] eqn:E2; cbn [obind]; [|done..].
  apply (init_cycle_before parse) in E2 as (_ & _ & R2 & _); [|apply K1].
  unfold plan_cycle. destruct (update_plan _ _ _ _ _ _ _ _ _ _ _ _ _ _ _) as [[[pw fslist] jobs]| |]; cbn [obind]; [|done..]. cbv zeta.
  destruct (try_run_plan _ _ _ _ _ _ _ _ _ _ _ _ _ _) as [[pn st]| |] eqn:E3; cbn [obind]; [|done..]. apply try_run_plan_fs in E3.
  destruct (improve_plan _ _ _ _ _ _ _ _ _ _ _ _) as [ks2| |]; cbn [obind]; [|done..].
  destruct (tell_plan _ _ _) as [[pw2 n]| |]; cbn [obind]; [|done..].
  match goal with |- context [remember ?e] => set (r2 := e) end.
  assert (K2 : keeps_on r1 r2).
  { destruct (proj1 K1) as [Hg Ht Ho]. assert (G : grown (fs_of r1) (fs_of r2)).
    { assert (Ef : fs_of r2 = w_fairshare w) by (transitivity (w_fairshare (ps_world st)); [done|exact E3]).
      rewrite Ef. exact (reused_grows _ _ R2 Ht). }
    split; [|exact G]. constructor; [exact Hg|apply G|exact Ho]. }
  clearbody r2. destruct (remember r2) as [r3| |] eqn:E4; cbn [obind]; [|done..]. apply remember_keeps in E4 as [K3 _]; [|apply K2].
  match goal with |- context [obind ?e _] => destruct e as [dumped| |] end; cbn [obind]; [|done..]. intros [= <- _ _ _].
  destruct (cleanup_keeps r3) as [K4 Hc]; [apply K3|]. split; [|done].
  eapply keeps_on_trans; [exact K0|]. eapply keeps_on_trans; [exact K1|]. eapply keeps_on_trans; [exact K2|]. by eapply keeps_on_trans.
Qed.

(** A turn of either loop; whether the servers were read. *)
Inductive realm_step : bool -> realm -> realm -> Prop :=
| step_run s r r1 requests r' t :
    wakes s r = Ret (r1, requests) -> turn s r = Ret (r', t) -> realm_step (bool_decide (is_Some requests)) r r'
| step_plan s sinfo r g r1 requests ks r' ks' told run :
    reload localtime (su_config_file s) (su_config_mtime s) (rl_globals r) = Ret g ->
    wakes s (r <| rl_globals := g |>) = Ret (r1, requests) -> plan_turns s sinfo (r, ks) = Ret (r', ks', told, run) ->
    realm_step (bool_decide (is_Some requests)) r r'.

Definition realm_reaches : realm -> realm -> Prop := rtc (fun r r' => exists read, realm_step read r r').

Lemma step_keeps read r r' :
  realm_ok r -> realm_step read r r' ->
  keeps_on r r' /\ (read = true -> p_connections (rl_conns r') = ∅ /\ connection (rl_conns r') = t0).
Proof.
  intros Hr Hs. destruct Hs as [s r0 r1 rq r2 t Ew Et|s sinfo r0 g r1 rq ks r2 ks' told run Eg Ew Et].
  - destruct (turn_keeps s r0 r2 t Hr Et) as [K Hc]. split; [done|]. intros [rq' ->]%bool_decide_eq_true. by eapply Hc.
  - destruct (plan_turn_keeps s sinfo r0 ks r2 ks' told run Hr Et) as [K Hc]. split; [done|].
    intros [rq' ->]%bool_decide_eq_true. by eapply Hc.
Qed.

(** The scheduler starts in a good state. *)
Lemma World_ok mktime s f r : World localtime mktime read_ini get_value unknown_shares t0 s f = Ret r -> realm_ok r.
Proof.
  unfold World. destruct (schedinit _ _ _ _ _ _ _) as [g| |] eqn:Eg; cbn [obind]; [|done..]. apply schedinit_wf in Eg.
  destruct (init_fairshare _ _ _ _ _) as [fs| |] eqn:E; cbn [obind]; [|done..]. cbv zeta. intros [= <-].
  assert (H0 : trees_ok (mkFairshare ∅ ∅) (fun _ => Leaf)) by (split; [intros name root H; cbn in H; by apply lookup_empty_Some in H|constructor]).
  constructor; [done| |by constructor; [constructor|..]].
  revert E. unfold init_fairshare. destruct (new_tree _ _ _ _ _ _) as [[gs root]| |] eqn:En; cbn [obind]; [|done..]. cbn [fs_trees fs_groups] in *.
  rewrite lookup_empty. intros [= <-].
  assert (Eg' : get_tree read_ini get_value unknown_shares (su_tree_files s) (mkFairshare ∅ ∅) "default" =
    Ret (mkFairshare gs (<["default"%string := root]> ∅), root)) by (unfold get_tree; cbn [fs_trees fs_groups]; by rewrite lookup_empty, En).
  destruct (get_tree_spec _ _ _ _ _ _ _ _ _ H0 Eg') as (F & HF & _). by exists F.
Qed.

(** C1: However many turns the loops of [World::run] and [World::plan_run] have
    taken since the scheduler was started, and whatever they met outside - unreachable
    servers, any replies, errors of the network, a new configuration - the scheduler is
    in a good state after the next turn as well: configuration and status are
    well-formed; the fairshare trees are trees, apart from each other, none of them
    is lost, and a group that was ever handed out to a job is still there under its
    name; every connection in use belongs to one server; and when the turn has read
    the servers, all connections are closed at its end and the table of connections is
    the one the scheduler was started with. *)
Theorem main_loops_keep_state mktime s0 f r0 r1 r2 read :
  World localtime mktime read_ini get_value unknown_shares t0 s0 f = Ret r0 ->
  realm_reaches r0 r1 -> realm_step read r1 r2 ->
  realm_ok r2 /\ grown (fs_of r0) (fs_of r1) /\ grown (fs_of r1) (fs_of r2) /\
  (read = true -> p_connections (rl_conns r2) = ∅ /\ connection (rl_conns r2) = t0).
Proof.
  intros Hr%World_ok Hs Ht. assert (K1 : keeps_on r0 r1).
  { clear Ht. induction Hs as [r|r r3 r4 [rd Hs] _ IH]; [by apply keeps_on_refl|]. apply step_keeps in Hs as [K _]; [|done].
    eapply keeps_on_trans; [exact K|]. apply IH, K. }
  apply step_keeps in Ht as [K2 Hc]; [|apply K1]. destruct K1 as [_ G1], K2 as [H G2]. by split_and!.
Qed.

(** The turns of [World::run] are such steps. *)
Lemma runs_reach turns r r' ts files : runs turns r = Ret (r', ts, files) -> realm_reaches r r'.
Proof.
  unfold run. destruct (ofold _ turns _) as [[r4 ts4]| |] eqn:E; cbn [obind]; [|done..].
  match goal with |- context [obind ?e _] => destruct e as [out| |] end; cbn [obind]; [|done..]. intros [= <- _ _].
  refine (ofold_invariant _ (fun rt => realm_reaches r (fst rt)) turns (r, []) (r4, ts4) _ (rtc_refl _ r) E).
  intros [r1 ts1] s [r2 ts2] H1 _ E1. cbn [fst] in *. destruct (turn s r1) as [[r3 t]| |] eqn:Et; cbn [obind] in E1; [|done..].
  injection E1 as <- _. eapply rtc_r; [exact H1|]. pose proof Et as Ew. unfold run_turn in Ew.
  destruct (wakes s r1) as [[r5 rq]| |] eqn:Ew'; cbn [obind] in Ew; [|done..].
  eexists. by eapply step_run.
Qed.

(** *** The limits *)

Lemma todo_fuel cstat c : cy_cursor c = mkCursor 0 (-1) -> (todo cstat c < loop_fuel (cy_world c))%nat.
Proof.
  intros Hc. unfold todo, loop_fuel. rewrite Hc. cbn [last_queue last_job]. rewrite drop_0. unfold jobs_in.
  destruct (fair_share cstat); [|destruct (by_queue cstat); lia].
  assert (H : (size (pending_jobs (w_jobs (cy_world c))) <= size (w_jobs (cy_world c)))%nat); [|lia].
  rewrite <- size_dom. apply subseteq_size. unfold pending_jobs. intros p [j [Hj _]%map_lookup_filter_Some]%elem_of_dom. apply elem_of_dom. by exists j.
Qed.

(** C2: A turn of [World::run] that has read the servers breaks no limit and comes to
    an end: the servers may have replied anything; when the jobs that were read have
    room in the counters, and the limits of the server and of all queues hold as it was
    read, then they hold after the turn has charged the usage, sorted queues and jobs,
    and started and refused jobs, with every start counted; the counters and caches
    are exact; and the loop was left because no job is left, too many were not taken
    or the time is over. *)
Theorem turn_keeps_limits P s r r1 requests r2 cy how files :
  realm_ok r -> wakes s r = Ret (r1, Some requests) -> 0 <= P -> jobs_bounded parse P (w_jobs (rl_world r1)) ->
  Z.of_nat (length (srv_jobs (w_server (rl_world r1)))) + Z.of_nat (loop_fuel (rl_world r1)) < 2 ^ 31 ->
  (Z.of_nat (length (srv_jobs (w_server (rl_world r1)))) + Z.of_nat (loop_fuel (rl_world r1))) * P < 2 ^ 31 ->
  limits_kept parse (rl_world r1) -> schedules s requests r1 = Ret (r2, cy, how, files) ->
  limits_kept parse (rl_world r2) /\ how <> OutOfFuel /\ server_wf (w_server (rl_world r2)) /\
  (forall k q, srv_queues (w_server (rl_world r2)) !! k = Some q -> queue_wf parse q).
Proof.
  intros Hr Hw HP Hj Hb1 Hb2 Hl Hs. apply wake_keeps in Hw as K1; [|done]. pose proof (ro_trees _ (proj1 K1)) as Ht.
  assert (Hc : consistent (rl_world r1)).
  { revert Hw. unfold wake. destruct (update_cycle_status _ _ _) as [g| |]; cbn [obind]; [|done..].
    destruct (fetch_servers _ _ _ _ _ _ _ _ _ _ _ _) as [[m [[w rs]|]]| |] eqn:E; cbn [obind]; [|done..].
    intros [= <- _]. by eapply fetch_servers_consistent. }
  assert (Hok : cycle_ok parse P (Z.of_nat (loop_fuel (rl_world r1))) (rl_world r1)) by (apply consistent_cycle_ok; first [lia|done]).
  revert Hs. unfold schedule_jobs. cbv zeta.
  destruct (init_scheduling_cycle _ _ _ _ _) as [[[[w ks] cur] out]| |] eqn:E1; cbn [obind]; [|done..].
  destruct (init_cycle_ok parse P _ _ _ _ _ _ _ _ _ _ Hok E1) as [Hok' ->].
  apply (init_cycle_before parse) in E1 as (Hl' & Hf & _ & _); [|done]. rewrite <- Hf in Hok'.
  destruct (run_loop _ _ _ _ _ _ _ _ _ _ _ _ _ _ _ _ _) as [[c2 how2]| |] eqn:E2; cbn [obind]; [|done..]. intros [= <- _ <- _].
  cbn [rl_world]. set (c0 := mkCycle w _ _ _ _ _) in E2.
  destruct (loop_keeps_limits _ _ _ _ _ _ _ _ _ _ _ P _ _ _ _ _ c0 c2 how2 HP Hok' (Hl' Hl) E2) as [H1 [H2 _ H3 _ _]].
  split_and!; [exact H1| |exact H2|].
  - refine (proj1 (loop_leaves _ _ _ _ _ _ _ _ _ _ _ P (loop_fuel w) _ _ _ _ c0 _ Hok' _) c2 how2 E2).
    + by apply (todo_fuel _ c0).
    + unfold cursor_ok. cbn. lia.
  - intros k q Hk. by eapply (proj1 (Forall_lookup _ _) H3).
Qed.
End Turns.

(** ** An example

    Of two jobs one runs; the other is started in the first turn. *)

Definition a_request (name value : string) : attrl := mkAttr "resc_req_total" name value.
Definition realm_replies : server_replies :=
  mkReplies (Some (mkBatch "srv" [an_attr "max_running" "3"]))
    (mkStatReply (Some [mkBatch "q" [an_attr "queue_type" "Execution"; an_attr "started" "True"]]) 0)
    (mkStatReply (Some [mkBatch "n1" [an_attr "state" "free"; an_attr "ntype" "cluster"; an_attr "np" "4"; an_attr "npfree" "4";
      mkAttr "resources_total" "mem" "8gb"; mkAttr "resources_total" "vmem" "8gb"]]) 0).
Definition realm_jobs (server q : string) : reply :=
  let asks := [mkAttr "Resource_List" "processed_nodes" "1:ppn=2"; a_request "procs" "2"; a_request "walltime" "1000"] in
  mkStatReply (Some [mkBatch "1.srv" ([an_attr "job_state" "R"; an_attr "euser" "alice"] ++ asks);
    mkBatch "2.srv" ([an_attr "job_state" "Q"; an_attr "euser" "carol"] ++ asks)]) 0.
Definition around : surroundings :=
  mkSurroundings 2000 2000 (fun _ => 2000) example_names (fun _ => Some 1) (fun _ => 5) realm_replies realm_jobs (fun _ _ => 0)
    (fun _ _ => None) (fun _ _ _ => None) (fun _ => None) None None (fun _ _ => None) share_files None None None
    (fun m => snd <$> map_to_list m).
Definition started_with : start_files := mkStartFiles (Some ("YEAR 2000" ++ lf)%string) None (Some 1000) [].
Definition start_around : surroundings :=
  mkSurroundings 1000 1000 (fun _ => 1000) example_names (fun _ => Some 1) (fun _ => 5) realm_replies realm_jobs (fun _ _ => 0)
    (fun _ _ => None) (fun _ _ _ => None) (fun _ => None) None None (fun _ _ => None) share_files None (Some example_file) None
    (fun m => snd <$> map_to_list m).
Definition example_table : conn_table := [Some 7; None; None].
Abbreviation start := (World toy_localtime toy_mktime (fun _ => None) (fun _ => None) 10 example_table start_around started_with).

Definition example_turn : surroundings -> realm -> outcome (realm * traces) :=
  run_turn toy_localtime (-10) (-3) example_close (fun _ => None) (fun _ => None) 10 (fun s => mkProp s None) toy_parse_nodespec
    (fun _ _ _ => false) (fun _ => None) 0 0 false MagratheaStateNone.
Definition example_runs : list surroundings -> realm -> outcome (realm * list traces * list (string * string)) :=
  run toy_localtime (-10) (-3) example_close (fun _ => None) (fun _ => None) 10 (fun s => mkProp s None) toy_parse_nodespec
    (fun _ _ _ => false) (fun _ => None) 0 0 false MagratheaStateNone.
Definition example_wake : surroundings -> realm -> outcome (realm * option (list alter_request)) :=
  wake toy_localtime (-10) (-3) example_close (fun _ => None) (fun _ => None) 10 (fun s => mkProp s None) 0 0 false MagratheaStateNone.
Definition example_schedule := schedule_jobs toy_parse_nodespec (fun _ _ _ => false) (fun _ => None).

Definition two_turns : outcome (realm * list traces * realm * realm) :=
  let! r := start in let! (r1, ts, _) := example_runs [around] r in let! _ := example_wake around r1 in let! (r2, _) := example_turn around r1 in Ret (r, ts, r1, r2).

(** The steps, with nothing known of the fields of the plan. *)
Definition example_step : bool -> realm -> realm -> Prop :=
  realm_step toy_localtime (-10) (-3) example_close (fun _ => None) (fun _ => None) 10 (fun s => mkProp s None) toy_parse_nodespec
    (fun _ _ _ => false) (fun _ => None) 0 0 false MagratheaStateNone (-1) (mkPlanGap 0 0 0 0 0 None None) example_new_job empty_cluster 0 0 None None None
    (fun _ => 0) (fun _ => 0) 0.

Definition example_reaches : realm -> realm -> Prop :=
  realm_reaches toy_localtime (-10) (-3) example_close (fun _ => None) (fun _ => None) 10 (fun s => mkProp s None) toy_parse_nodespec
    (fun _ _ _ => false) (fun _ => None) 0 0 false MagratheaStateNone (-1) (mkPlanGap 0 0 0 0 0 None None) example_new_job empty_cluster 0 0
    None None None (fun _ => 0) (fun _ => 0) 0.

Lemma main_loops_keep_state_witness :
  match two_turns with
  | Ret (r, ts, r1, r2) => tr_runs <$> ts = [[(RunJob "2.srv" (Some "host=n1:ppn=2"%string), 0)]] /\ realm_ok example_table r2 /\
      grown (w_fairshare (rl_world r)) (w_fairshare (rl_world r1))
  | _ => False
  end.
Proof.
  assert (H : forall r ts r1 r2, two_turns = Ret (r, ts, r1, r2) -> realm_ok example_table r2 /\
    grown (w_fairshare (rl_world r)) (w_fairshare (rl_world r1))).
  { intros r ts r1' r2. unfold two_turns. destruct start as [r0| |] eqn:E0; cbn [obind]; [|discriminate|discriminate].
    destruct (example_runs [around] r0) as [[[r1 ts1] files]| |] eqn:E1; cbn [obind]; [|discriminate|discriminate].
    destruct (example_wake around r1) as [[rw rq]| |] eqn:Ew; cbn [obind]; [|discriminate|discriminate].
    destruct (example_turn around r1) as [[r3 t]| |] eqn:E2; cbn [obind]; [|discriminate|discriminate].
    intros [= <- <- <- <-].
    assert (R : example_reaches r0 r1) by (eapply runs_reach; exact E1).
    assert (S : example_step (bool_decide (is_Some rq)) r1 r3) by (eapply step_run; [exact Ew|exact E2]).
    unfold example_reaches in R. unfold example_step in S.
    destruct (main_loops_keep_state _ _ _ _ _ _ _ _ _ _ _ _ _ _ _ _ _ _ _ _ _ _ _ _ _ _ _ example_table (fun _ _ => eq_refl) toy_mktime start_around started_with r0 r1 r3 _
      E0 R S) as (H1 & H2 & _).
    split; [exact H1|exact H2]. }
  destruct two_turns as [[[[r ts] r1] r2]| |] eqn:E; [|revert E; vm_compute; discriminate|revert E; vm_compute; discriminate].
  split; [|exact (H r ts r1 r2 eq_refl)].
  assert (Et : match two_turns with Ret (_, ts, _, _) => tr_runs <$> ts | _ => [] end = [[(RunJob "2.srv" (Some "host=n1:ppn=2"%string), 0)]])
    by (vm_compute; reflexivity).
  rewrite E in Et. exact Et.
Defined.

(** The world of the first turn, and what became of it. *)
Definition first_turn : outcome (realm * list alter_request * realm * leaving) :=
  let! r := start in
  let! (r1, requests) := example_wake around r in
  let! requests := of_option requests in
  let! (r2, _, how, _) := example_schedule around requests r1 in
  Ret (r1, requests, r2, how).

(** Only the number of jobs of the server is limited. *)
Definition one_limit (w : world) : bool :=
  let s := w_server w in
  (max_user_run s =? RESC_INFINITY) && (max_group_run s =? RESC_INFINITY) && (Z.of_nat (length (running_jobs s)) <=? max_run s) &&
  forallb (fun q => (q_max_run q =? RESC_INFINITY) && (q_max_user_run q =? RESC_INFINITY) && (q_max_group_run q =? RESC_INFINITY) &&
    (q_max_proc q =? RESC_INFINITY) && (q_max_user_proc q =? RESC_INFINITY) && (q_max_group_proc q =? RESC_INFINITY)) (srv_queues s).

Lemma one_limit_kept parse w : one_limit w = true -> limits_kept parse w.
Proof.
  unfold one_limit. rewrite !andb_true_iff, !Z.eqb_eq, Z.leb_le. intros [[[H1 H2] H3] Hq] k q Hk%list_elem_of_lookup_2.
  apply forallb_forall with (x := q) in Hq; [|by apply list_elem_of_In]. rewrite !andb_true_iff, !Z.eqb_eq in Hq.
  destruct Hq as [[[[[Q1 Q2] Q3] Q4] Q5] Q6]. constructor; first [by right | by left].
Qed.

Definition fits_counters (w : world) : bool :=
  (Z.of_nat (length (srv_jobs (w_server w))) =? 2) && (loop_fuel w =? 7)%nat.

Lemma turn_keeps_limits_witness :
  match first_turn with
  | Ret (_, _, r2, how) => how = NoMoreJobs /\ sc_running (srv_sc (w_server (rl_world r2))) = 2 /\ limits_kept toy_parse_nodespec (rl_world r2)
  | _ => False
  end.
Proof.
  assert (Hb : match first_turn with
    | Ret (r1, _, r2, how) => bounded_in (rl_world r1) && one_limit (rl_world r1) && fits_counters (rl_world r1) &&
        (match how with NoMoreJobs => true | _ => false end) && (sc_running (srv_sc (w_server (rl_world r2))) =? 2)
    | _ => false end = true) by (vm_compute; reflexivity).
  assert (H : forall r1 rq r2 how, first_turn = Ret (r1, rq, r2, how) ->
    bounded_in (rl_world r1) = true -> one_limit (rl_world r1) = true -> fits_counters (rl_world r1) = true ->
    limits_kept toy_parse_nodespec (rl_world r2)).
  { intros r1 rq r2 how. unfold first_turn. destruct start as [r0| |] eqn:E0; cbn [obind]; [|discriminate|discriminate].
    destruct (example_wake around r0) as [[r3 rq3]| |] eqn:E1; cbn [obind]; [|discriminate|discriminate].
    destruct rq3 as [rq3|]; cbn [of_option obind]; [|discriminate].
    destruct (example_schedule around rq3 r3) as [[[[r4 cy] how4] files]| |] eqn:E2; cbn [obind]; [|discriminate|discriminate].
    intros [= <- <- <- <-] B1 B2 [B3%Z.eqb_eq B4%Nat.eqb_eq]%andb_true_iff.
    assert (N1 : Z.of_nat (length (srv_jobs (w_server (rl_world r3)))) + Z.of_nat (loop_fuel (rl_world r3)) < 2 ^ 31)
      by (rewrite B3, B4; reflexivity).
    assert (N2 : (Z.of_nat (length (srv_jobs (w_server (rl_world r3)))) + Z.of_nat (loop_fuel (rl_world r3))) * 2 < 2 ^ 31)
      by (rewrite B3, B4; reflexivity).
    exact (proj1 (turn_keeps_limits _ _ _ _ _ _ _ _ _ _ _ _ _ _ _ example_table (fun _ _ => eq_refl) 2 around r0 r3 rq3 r4 cy how4 files
      (World_ok _ _ _ _ _ _ _ _ _ E0) E1 ltac:(lia) (bounded_in_spec _ B1) N1 N2 (one_limit_kept _ _ B2) E2)). }
  destruct first_turn as [[[[r1 rq] r2] how]| |]; [|discriminate Hb|discriminate Hb].
  rewrite !andb_true_iff in Hb. destruct Hb as [[[[B1 B2] B3] Bh] Bn]. split; [|split].
  - destruct how; [reflexivity|discriminate Bh..].
  - apply Z.eqb_eq. exact Bn.
  - exact (H r1 rq r2 how eq_refl B1 B2 B3).
Defined.
